(* ===== verification/_CoqProject ===== *)
-Q . S2P
Prelude.v
GoStrings.v
GoText.v
GoPath.v
GoRegex.v
SafeMap.v
Cluster.v
Fetch.v
Endpoint.v
EndpointSteps.v
AkSk.v
SdServer.v
Registration.v
Wire.v
Bridge.v
Buffer.v
Archive.v
PluginProtocol.v
PluginManager.v
Transfer.v
Pool.v
AgentCenter.v
AcServer.v
AcUpload.v
AgentConfig.v
AgentTask.v
Jobs.v
ManagerAuth.v
Component.v
Bson.v
WhiteList.v
DbWriter.v
AssetStore.v
SubTask.v
Versions.v
Vuln.v
LeaderBaseline.v
RaspWriter.v
BinRead.v
Zip.v
Rpm.v
Engine.v
Cached.v
Procfs.v
Ports.v
Accounts.v
Units.v
Software.v
Inventory.v
App.v
Baseline.v
GoFloat.v
Pages.v
TableExport.v
Identity.v
HostFacts.v
Heartbeat.v
Report.v
Outputer.v
EndToEnd.v
ControlPath.v
TaskLoop.v
Distribution.v
