(* ===== verification/Prelude.v ===== *)
(** * Verification of the cloud-guard (Elkeid) host-security platform

    ** The program

    The platform watches hosts.  On each host an _agent_ ([agent/]) runs _plugins_
    ([plugins/]) as child processes and talks to them over two pipes: records come in,
    tasks go out.  The agent puts the records of all plugins and its own heartbeat into one
    bounded buffer, which a transport loop drains into a gRPC stream to an _agent center_
    ([server/agent_center/]); on the same stream the agent center sends tasks and plugin
    configurations down.  The agent center keeps a pool of the connected agents, puts
    their records into Kafka and reports hosts to the manager.  A _manager_
    ([server/manager/]) keeps users, agents, tasks, assets, vulnerabilities, alarms and
    configurations in a database, posts jobs to the agent centers, publishes components
    and passes alarms on to other systems.  The servers find one another through a
    replicated _service discovery_ ([server/service_discovery/]), and authenticate their
    requests to one another by signatures.

    ** The files, bottom up

    Shared:
    - [Prelude.v]: fixed-width integers, panics ([outcome]), channels with a
      non-blocking send and the other generic definitions, lemmas, tactics and hints;
    - [GoStrings.v], [GoText.v], [GoPath.v], [GoRegex.v], [GoFloat.v]: the functions of the
      standard library that are used (strings, numbers in strings, scanners of lines and
      fields, paths, regular expressions, floating-point numbers made from integers);
    - [Wire.v]: bytes, varints and buffers; [BinRead.v]: reading binary files;
    - [Bson.v]: documents, and the document database as a class.

    Service discovery ([server/service_discovery/]):
    - [SafeMap.v]: the two-level map of [common/safemap/sm.go];
    - [Cluster.v]: membership ([cluster/]), the Go interface as a class;
    - [Fetch.v]: the selection algorithms of [endpoint/utils.go];
    - [Endpoint.v]: the registry of [endpoint/endpoint.go], its operations and one
      round of each background loop;
    - [EndpointSteps.v]: all their interleavings, as a transition system;
    - [AkSk.v]: request signing, which the three servers carry a copy of;
    - [SdServer.v]: the HTTP handlers and routes ([server/]);
    - [Registration.v]: its clients in the agent center and the manager.

    Agent ([agent/]):
    - [Buffer.v]: the record buffer ([buffer/]);
    - [PluginProtocol.v]: both ends of the pipes ([plugins/lib/go/client.go], [plugin/]),
      over the messages of [Bridge.v] ([plugins/lib/go/bridge.pb.go]);
    - [Archive.v]: extracting archives ([utils/decompress.go]);
    - [PluginManager.v]: loading, verifying and syncing plugins ([plugin/],
      [utils/download.go], [agent/]);
    - [Transfer.v]: the transport loops ([transport/]);
    - [Identity.v], [HostFacts.v], [Heartbeat.v]: who the agent is, what it reads of its
      host, and the records it makes of it ([agent/id.go], [host/], [resource/],
      [heartbeat/]).

    Plugins ([plugins/]):
    - [Baseline.v]: the baseline plugin, its rule engine and its loops;
    - the collector: [Engine.v] (the engine and its cache), [Cached.v], [Procfs.v],
      [Ports.v], [Accounts.v], [Units.v], [Software.v], [Inventory.v] and [App.v] (its
      handlers), [Zip.v] and [Rpm.v] (its readers of archives and package databases).

    Agent center ([server/agent_center/]):
    - [Pool.v]: the connection pool ([grpctrans/pool/]);
    - [AgentCenter.v]: admission of agents, the life of their streams, and the handling
      of records ([grpctrans/grpc_handler/]);
    - [AcServer.v]: the loops of a stream and the HTTP interface ([httptrans/]);
    - [AcUpload.v]: uploaded files; [Report.v]: reports about hosts and audit logs.

    Manager ([server/manager/]):
    - [AgentConfig.v], [AgentTask.v], [SubTask.v]: configurations and jobs, the life of a
      task, and the reports on its subtasks ([internal/atask/]);
    - [Jobs.v]: distributed jobs ([internal/distribute/job/]);
    - [ManagerAuth.v]: tokens, sessions, roles and the user handlers ([biz/midware/],
      [internal/login/], [biz/handler/v1/user.go]);
    - [Component.v]: publishing and releasing components ([biz/handler/v6/component.go]);
    - [DbWriter.v], [AssetStore.v], [RaspWriter.v]: the batch writers
      ([internal/dbtask/]) and what they leave in the database;
    - [Versions.v], [Vuln.v], [LeaderBaseline.v]: vulnerabilities and baseline results;
    - [WhiteList.v]: alarms, filters and white lists ([internal/alarm_whitelist/]);
    - [Outputer.v]: passing notices on ([internal/outputer/]);
    - [Pages.v], [TableExport.v]: pages of queries and exported tables ([biz/common/]).

    Compositions: [EndToEnd.v] is the data path (plugin library, agent, agent center,
    Kafka), [ControlPath.v] the control path (manager, agent center, agent, plugin),
    [TaskLoop.v] the way of a task and back, [Distribution.v] the way of a release from
    the manager to the files of an agent; [Heartbeat.v] and [Report.v] follow the facts of
    a host to the manager.

    ** How code becomes definitions

    A method is a function from the state it works on to the new state and its result,
    with the source's name where possible.  Code that can panic returns an [outcome];
    errors are sums or options.  Integers are [Z] with the wrap-around of their width
    written out where it matters.  Go strings and byte slices are strings of bytes.
    Where the code shares data by reference and this is visible, there is a heap: the
    records of [Buffer.v], the connections of [Pool.v], the arrays under the slices of
    [AgentConfig.v], the outputs of [Outputer.v].  Concurrent code is a transition system,
    or a function of the list of actions, whose steps are the atomic actions of the code (a
    locked section, a channel operation, a database call): [EndpointSteps.v],
    [Buffer.v], [AgentCenter.v], [AgentTask.v], [Jobs.v], [WhiteList.v], [Engine.v],
    [Component.v], [Outputer.v].

    What is not in the repository is an argument or a class: the clock, random draws,
    iteration orders of Go maps, what a [sync.Pool] hands out, digests, the JSON, YAML and
    JWT decoders, the answers of the database, of Redis and of other servers, the file
    system and the processes of a host.  Hypotheses on them state their documented
    behaviour (a sorted permutation for [sort.Sort], a token that was signed verifies,
    what an update of the database does, ...) and each theorem that uses one has a witness
    with concrete functions.

    ** What is proved

    - Data path: a record that a plugin sends arrives in Kafka with its fields, in order
      ([plugin_to_kafka]); the buffer refines a bounded queue under all interleavings
      ([buffer_is_queue]); the pipes and messages round trip ([plugin_stream],
      [task_roundtrip]); what a host says of itself in a heartbeat is what the manager is
      told ([heartbeat_known], [host_reported]); an uploaded file is passed on as it was
      ([upload_intact]).
    - Control path: a task reaches the plugin it names ([task_to_plugin]) and is closed by
      its answer ([tasks_closed], [reports_reconciled]); a configuration reaches the daemon
      ([config_to_daemon]); a command is answered as it went ([command_delivered]); the
      runs of a task hand out each agent once ([runs_partition]); a distributed job
      completes whatever its workers do ([job_completes]).
    - Plugins on a host: only verified executables are started ([started_is_verified], with
      its exceptions spelt out); extracting an archive changes nothing outside its
      directory ([extraction_confined]) and extracts all of it ([archive_extracted]); an
      agent keeps its identity ([identity_kept]); what is released can be installed
      ([release_installs]).
    - Releases: agents are given instances of released versions, intact, and not long after
      they were withdrawn ([instances_intact], [release_delivered], [release_withdrawn]).
    - Service discovery: the map refines a flat one ([safemap_refines]); the registry
      invariant holds under all interleavings ([registry_invariant]); replicas that
      receive the same changes agree ([replication]).
    - Access: what is signed is accepted and what is accepted was signed
      ([signed_request_accepted], [accepted_request_signed]); only authenticated requests
      change the registry ([only_authenticated_changes]); only authorized users reach the
      handlers of the manager ([only_authorized], [login_roundtrip]); tokens bound the
      streams of an agent center ([tokens_conserved]).
    - Data of the manager: the writers deliver what they accept ([writers_deliver]); the
      assets of an agent are well typed and current ([assets_typed], [assets_current]);
      vulnerabilities and baseline results are recorded without touching what users
      decided ([DealPkgList_effect], [DealBaselineList_effect]); alarms are hit by the white
      lists that match them and each is reported once ([whitelist_exact], [reported_once]);
      notices arrive in order, and outputs follow their configurations
      ([notices_delivered], [notices_in_order], [round_follows]); pages show every document
      once and come to an end ([pages_followed]); an exported table reads back
      ([table_readable]).
    - Plugins: baseline rules are evaluated as documented ([AnalysisRule_verdict]); the
      readers of the collector return on every file ([zip_never_panics]) and list what
      well-formed files contain ([archive_listed], [database_listed], [ports_listed],
      [accounts_reported], [services_once]); one call of a handler works at a time
      ([handler_serialised]); processes are labelled by what the other handlers found
      ([processes_labelled]).
    - Where the code does something else than it means to, the theorem states what it
      does: [evicted_instance_comes_back], [early_unlock_hands_twice],
      [shared_default_diverges], [truncated_frame_panics], [wrong_page_hangs],
      [huge_page_wraps], [unnamed_product_panics], [net_flow_swapped], [audit_panics],
      [changed_output_panics], [syslog_silent] and others beside them.

    ** Bounds and fuel

    No theorem is conditional on fuel.  Varints have at most ten groups, as in the code;
    the decoders of [Bridge.v], the scanners of [GoText.v], the repetitions of [GoRegex.v]
    and the walk over a directory in [Zip.v] recur on the length of the input plus one,
    which is enough because every round takes a byte or more; octal digits of a file mode
    take eleven rounds, for 32 bits; an upload has the 600 ticks of its timer.  A client
    that follows pages ([Pages.v]) has one round more than there are documents.  The walk
    over overflow pages in [Rpm.v] can fail to end on a damaged database
    ([wrong_page_hangs]); on a well-formed one the number of pages is enough.  The
    receiving loop of a pipe takes a list of choices for the pools, one for each record and
    one for the end of the pipe; theorems ask for that many.  A round of [Outputer.v] is
    run by as many actions as it has, which [round_follows] shows to exist.

    ** What is not modelled

    The kernel driver, the RASP probes and the plugins in Rust are other programs in other
    languages.  In Go: the handlers of API v6 and the statistics of the manager that
    compose queries and aggregations for the database (alarms, baseline, virus, containers,
    clusters, assets, fingerprints) and return the answer, since what they compute happens
    in the database; the monitoring, which queries Prometheus; the agent's control tool,
    which calls the service manager of the host; the plugin library for Windows; start-up,
    logging, metrics and the clients of Kafka, Redis, Mongo and object stores, which are
    calls of libraries.  The file system of [Archive.v] has no symbolic links. *)

From stdpp Require Export base gmap strings list fin_maps numbers pretty.
From stdpp Require Import options.

(** ** Fixed-width integers of Go

    [int] and [int64] are 64-bit two's complement, [int32] 32-bit; the unsigned
    conversions keep the low bits. *)

Definition wrap_u (w : Z) (z : Z) : Z := (z `mod` 2 ^ w)%Z.
Definition wrap_s (w : Z) (z : Z) : Z :=
  (wrap_u w (z + 2 ^ (w - 1)) - 2 ^ (w - 1))%Z.

Definition int64 (z : Z) : Z := wrap_s 64 z.
Definition int32 (z : Z) : Z := wrap_s 32 z.
Definition uint64 (z : Z) : Z := wrap_u 64 z.
Definition uint32 (z : Z) : Z := wrap_u 32 z.

Definition in_s (w : Z) (z : Z) : Prop := (- 2 ^ (w - 1) ≤ z < 2 ^ (w - 1))%Z.
Definition in_u (w : Z) (z : Z) : Prop := (0 ≤ z < 2 ^ w)%Z.

#[export] Instance in_s_dec w z : Decision (in_s w z).
Proof. unfold in_s. apply _. Defined.
#[export] Instance in_u_dec w z : Decision (in_u w z).
Proof. unfold in_u. apply _. Defined.

(** ** Panics

    An operation of the code that can panic (a nil dereference, an index out of
    range) returns an [outcome]. *)

Inductive outcome (A : Type) : Type :=
| Ret (a : A)
| Panic (why : string).
Arguments Ret {A} a.
Arguments Panic {A} why.

Definition obind {A B} (o : outcome A) (k : A → outcome B) : outcome B :=
  match o with Ret a => k a | Panic w => Panic w end.

Declare Scope go_scope.
Delimit Scope go_scope with go.
Notation "'let!' x ':=' c 'in' k" := (obind c (λ x, k))
  (at level 10, x pattern, c at level 200, k at level 200) : go_scope.
Open Scope go_scope.

Definition returns {A} (o : outcome A) : Prop := ∃ a, o = Ret a.
Definition panics {A} (o : outcome A) : Prop := ∃ w, o = Panic w.

(** ** Buffered channels

    A Go channel of capacity [chcap]: the pending values, oldest first.
    [try_send] is the send of a [select] with a [default] branch: it fails when
    the buffer is full instead of blocking.  (With no receiver waiting, a
    channel of capacity 0 always takes the default branch.) *)

Record chan (A : Type) : Type := Chan { chcap : nat; chbuf : list A }.
Arguments Chan {A} _ _.
Arguments chcap {A} _.
Arguments chbuf {A} _.

Definition make_chan {A} (n : nat) : chan A := Chan n [].

Definition try_send {A} (x : A) (c : chan A) : option (chan A) :=
  if decide (length (chbuf c) < chcap c)
  then Some (Chan (chcap c) (chbuf c ++ [x]))
  else None.

(** The channel after [select { case c <- x: default: }]. *)
Definition send_or_drop {A} (x : A) (c : chan A) : chan A :=
  default c (try_send x c).

Definition try_recv {A} (c : chan A) : option (A * chan A) :=
  match chbuf c with
  | [] => None
  | x :: q => Some (x, Chan (chcap c) q)
  end.

Definition chan_wf {A} (c : chan A) : Prop := length (chbuf c) ≤ chcap c.

(** ** Reflexive transitive closure and reachability *)

Section reach.
Context {S : Type} (init : S → Prop) (step : S → S → Prop).

Inductive reachable : S → Prop :=
| reach_init s : init s → reachable s
| reach_step s s' : reachable s → step s s' → reachable s'.

(** The invariant rule: what holds initially and is kept by every step holds in
    every reachable state. *)
Lemma reachable_invariant (I : S → Prop) :
  (∀ s, init s → I s) →
  (∀ s s', I s → step s s' → I s') →
  ∀ s, reachable s → I s.
Proof. intros Hi Hs s. induction 1; eauto. Qed.

(** The same with the reachability of the source state at hand. *)
Lemma reachable_invariant_strong (I : S → Prop) :
  (∀ s, init s → I s) →
  (∀ s s', reachable s → I s → step s s' → I s') →
  ∀ s, reachable s → I s.
Proof. intros Hi Hs s. induction 1; eauto. Qed.
End reach.

(** ** Iteration order of maps

    The order in which [range] visits a Go map is unspecified.  A [Ranger] is
    one choice of orders: for every loop (named by a tag) and every map, some
    enumeration of the map.  Theorems quantify over all of them. *)

Class Ranger := {
  range_kv : ∀ {A : Type}, string → gmap string A → list (string * A);
  range_kv_perm : ∀ {A : Type} (tag : string) (m : gmap string A),
    range_kv tag m ≡ₚ map_to_list m;
}.

#[export] Instance default_ranger : Ranger :=
  {| range_kv _ _ m := map_to_list m; range_kv_perm _ _ _ := reflexivity _ |}.

(** The same for maps with integer keys. *)
Class RangerZ := {
  range_z : ∀ {A : Type}, string → gmap Z A → list (Z * A);
  range_z_perm : ∀ {A : Type} (tag : string) (m : gmap Z A), range_z tag m ≡ₚ map_to_list m;
}.

#[export] Instance default_ranger_z : RangerZ :=
  {| range_z _ _ m := map_to_list m; range_z_perm _ _ _ := reflexivity _ |}.

(** ** Tactics and hints *)

Create HintDb go.

(** Case analysis on the scrutinee of the innermost [match] or [decide] of the
    goal or of a hypothesis, closing the impossible branches. *)
Ltac go_case :=
  match goal with
  | |- context [decide ?P] => destruct (decide P)
  | |- context [match ?x with _ => _ end] => destruct x eqn:?
  | H : context [decide ?P] |- _ => destruct (decide P)
  | H : context [match ?x with _ => _ end] |- _ => destruct x eqn:?
  end; simplify_eq/=; try done.

Ltac go_cases := repeat go_case.

(** ** Lemmas on integers *)

Section ints.
Local Open Scope Z_scope.

Lemma wrap_u_range w z : 0 ≤ w → in_u w (wrap_u w z).
Proof. intros. unfold in_u, wrap_u. apply Z.mod_pos_bound. lia. Qed.

Lemma wrap_u_id w z : in_u w z → wrap_u w z = z.
Proof. intros. unfold wrap_u. by apply Z.mod_small. Qed.

Lemma wrap_s_range w z : 0 < w → in_s w (wrap_s w z).
Proof.
  intros Hw. unfold in_s, wrap_s, wrap_u.
  pose proof (Z.mod_pos_bound (z + 2 ^ (w - 1)) (2 ^ w)) as Hb.
  replace (2 ^ w) with (2 * 2 ^ (w - 1)) in *; [lia|].
  rewrite <- Z.pow_succ_r by lia. f_equal; lia.
Qed.

Lemma wrap_s_id w z : 0 < w → in_s w z → wrap_s w z = z.
Proof.
  intros Hw Hz. unfold in_s, wrap_s, wrap_u in *.
  rewrite Z.mod_small; [lia|].
  replace (2 ^ w) with (2 * 2 ^ (w - 1)); [lia|].
  rewrite <- Z.pow_succ_r by lia. f_equal; lia.
Qed.

(** Truncation to a narrower signed type only depends on the low bits. *)
Lemma wrap_s_wrap_u w w' z : 0 < w ≤ w' → wrap_s w (wrap_u w' z) = wrap_s w z.
Proof.
  intros Hw. unfold wrap_s, wrap_u. f_equal.
  rewrite (Z.mod_eq z (2 ^ w')) by lia.
  replace (2 ^ w') with (2 ^ w * 2 ^ (w' - w)) by (rewrite <- Z.pow_add_r by lia; f_equal; lia).
  match goal with |- (z - 2 ^ w * ?a * ?b + ?c) `mod` _ = _ =>
    replace (z - 2 ^ w * a * b + c) with (z + c + (- a * b) * 2 ^ w) by lia end.
  apply Z.mod_add. lia.
Qed.
End ints.

#[export] Hint Resolve wrap_u_range wrap_s_range : go.

(** ** Lemmas on channels *)

Section chan.
Context {A : Type}.
Implicit Types (c : chan A) (x : A).

Lemma make_chan_wf n : chan_wf (make_chan (A:=A) n).
Proof. unfold chan_wf. simpl. lia. Qed.

Lemma send_or_drop_wf x c : chan_wf c → chan_wf (send_or_drop x c).
Proof.
  unfold chan_wf, send_or_drop, try_send. intros.
  case_decide; simpl; [rewrite length_app; simpl; lia|done].
Qed.

Lemma try_send_Some x c c' :
  try_send x c = Some c' ↔
  length (chbuf c) < chcap c ∧ c' = Chan (chcap c) (chbuf c ++ [x]).
Proof. unfold try_send. case_decide; naive_solver. Qed.

Lemma try_recv_Some x c c' :
  try_recv c = Some (x, c') ↔ chbuf c = x :: chbuf c' ∧ chcap c' = chcap c.
Proof.
  unfold try_recv. destruct c as [n [|y q]], c' as [n' q']; simpl; naive_solver.
Qed.

Lemma try_recv_wf x c c' : chan_wf c → try_recv c = Some (x, c') → chan_wf c'.
Proof.
  intros Hwf [Hb Hc]%try_recv_Some. unfold chan_wf in *.
  rewrite Hb in Hwf. simpl in Hwf. lia.
Qed.

(** What a send with a default branch does: append when there is room, nothing
    otherwise. *)
Lemma send_or_drop_buf x c :
  chbuf (send_or_drop x c) =
    if decide (length (chbuf c) < chcap c) then chbuf c ++ [x] else chbuf c.
Proof. unfold send_or_drop, try_send. by case_decide. Qed.

Lemma send_or_drop_cap x c : chcap (send_or_drop x c) = chcap c.
Proof. unfold send_or_drop, try_send. by case_decide. Qed.
End chan.

#[export] Hint Resolve make_chan_wf send_or_drop_wf try_recv_wf : go.

(** ** Lemmas on iteration *)

Lemma range_kv_elem `{Ranger} {A} tag (m : gmap string A) k x :
  (k, x) ∈ range_kv tag m ↔ m !! k = Some x.
Proof. by rewrite range_kv_perm, elem_of_map_to_list. Qed.

Lemma range_kv_NoDup_fst `{Ranger} {A} tag (m : gmap string A) :
  NoDup (range_kv tag m).*1.
Proof. rewrite range_kv_perm. apply NoDup_fst_map_to_list. Qed.

Lemma range_kv_length `{Ranger} {A} tag (m : gmap string A) :
  length (range_kv tag m) = size m.
Proof. by rewrite range_kv_perm, length_map_to_list. Qed.

Lemma range_z_elem `{RangerZ} {A} tag (m : gmap Z A) k x :
  (k, x) ∈ range_z tag m ↔ m !! k = Some x.
Proof. by rewrite range_z_perm, elem_of_map_to_list. Qed.

Lemma range_z_map `{RangerZ} {A} tag (m : gmap Z A) : list_to_map (range_z tag m) = m.
Proof.
  rewrite (list_to_map_proper (range_z tag m) (map_to_list m)); [apply list_to_map_to_list|..].
  - rewrite range_z_perm. apply NoDup_fst_map_to_list.
  - apply range_z_perm.
Qed.

Lemma range_z_NoDup_fst `{RangerZ} {A} tag (m : gmap Z A) : NoDup (range_z tag m).*1.
Proof. rewrite range_z_perm. apply NoDup_fst_map_to_list. Qed.

(** ** Lemmas on folds *)

Lemma foldl_ext {A B} (f g : B → A → B) (l : list A) (b : B) :
  (∀ b a, f b a = g b a) → foldl f b l = foldl g b l.
Proof. intros Hfg. revert b. induction l as [|a l IH]; intros b; simpl; [done|]. by rewrite Hfg, IH. Qed.

(** A property kept by every iteration of a loop holds at its end. *)
Lemma foldl_invariant {A B} (P : B → Prop) (f : B → A → B) (l : list A) (b : B) :
  P b → (∀ b a, P b → a ∈ l → P (f b a)) → P (foldl f b l).
Proof.
  revert b. induction l as [|a l IH]; intros b Hb Hf; simpl; [done|].
  apply IH; [apply Hf; [done|left]|]. intros b' a' ? ?. apply Hf; [done|by right].
Qed.

(** The append loops of the code are maps. *)
Lemma foldl_snoc_map {A B} (f : A → B) (l : list A) acc :
  foldl (λ r x, r ++ [f x]) acc l = acc ++ (f <$> l).
Proof.
  revert acc. induction l as [|x l IH]; intros acc; simpl; [by rewrite app_nil_r|].
  by rewrite IH, <- app_assoc.
Qed.

(** The append loops with a guard are filters. *)
Lemma foldl_snoc_filter {A B} (P : A → Prop) `{∀ x, Decision (P x)} (f : A → B) l acc :
  foldl (λ r x, if decide (P x) then r ++ [f x] else r) acc l = acc ++ (f <$> filter P l).
Proof.
  revert acc. induction l as [|x l IH]; intros acc; simpl; [by rewrite app_nil_r|].
  rewrite IH, filter_cons. case_decide; simpl; [by rewrite <- app_assoc|done].
Qed.

(** ** Sums *)

Lemma filter_all {A} (P : A → Prop) `{∀ x, Decision (P x)} (l : list A) : Forall P l → filter P l = l.
Proof. induction 1 as [|x l Hx Hl IH]; [done|]. by rewrite filter_cons_True, IH. Qed.

(** Updates of existing entries under keys: what is done to an entry is done in order. *)
Definition update_at {K V X} `{Countable K} (key : X → K) (f : X → V → V) (m : gmap K V) (x : X) : gmap K V :=
  match m !! key x with Some v => <[key x := f x v]> m | None => m end.

Lemma foldl_update_at {K V X} `{Countable K} (key : X → K) (f : X → V → V) (l : list X) (m : gmap K V) k :
  foldl (update_at key f) m l !! k = (λ v, foldl (λ v x, f x v) v (filter (λ x, key x = k) l)) <$> m !! k.
Proof.
  revert m. induction l as [|x l IH]; intros m; [cbn [foldl]; rewrite filter_nil; by destruct (m !! k)|]. cbn [foldl]. rewrite IH, filter_cons. unfold update_at.
  destruct (decide (key x = k)) as [<-|Hne].
  - destruct (m !! key x) as [v|] eqn:E; [by rewrite lookup_insert_eq|by rewrite ?E].
  - destruct (m !! key x); [by rewrite lookup_insert_ne|done].
Qed.

Lemma filter_none {A} (P : A → Prop) `{∀ x, Decision (P x)} (l : list A) :
  (∀ x, x ∈ l → ¬ P x) → filter P l = [].
Proof.
  induction l as [|x l IH]; intros Hn; [done|]. rewrite filter_cons, decide_False by (apply Hn; left).
  apply IH. intros y Hy. apply Hn. by right.
Qed.

Definition zsum {A} (f : A → Z) (l : list A) : Z := foldr (λ x n, (f x + n)%Z) 0%Z l.

Lemma zsum_perm {A} (f : A → Z) (l l' : list A) : l ≡ₚ l' → zsum f l = zsum f l'.
Proof. induction 1; simpl; lia. Qed.

Lemma zsum_app {A} (f : A → Z) (l l' : list A) : zsum f (l ++ l') = (zsum f l + zsum f l')%Z.
Proof. induction l; simpl; lia. Qed.

Lemma foldl_zsum {A} (f : A → Z) (l : list A) n :
  foldl (λ n x, (n + f x)%Z) n l = (n + zsum f l)%Z.
Proof. revert n. induction l as [|x l IH]; intros n; simpl; [lia|]. rewrite IH. lia. Qed.

Lemma zsum_nonneg {A} (f : A → Z) (l : list A) : (∀ y, (0 ≤ f y)%Z) → (0 ≤ zsum f l)%Z.
Proof. intros Hf. induction l as [|x l IH]; simpl; [lia|]. specialize (Hf x). lia. Qed.

Lemma delete_insert_same {A} (l : list A) i x : delete i (<[i := x]> l) = delete i l.
Proof. revert i. induction l as [|y l IH]; intros [|i]; simpl; f_equal; auto. Qed.

(** ** Maps filled in a loop *)

(** [for _, x := range l { m[key(x)] = x }] *)
Definition map_by {A} (key : A → Z) (l : list A) : gmap Z A := foldl (λ m x, <[key x := x]> m) ∅ l.

Lemma map_by_lookup {A} (key : A → Z) l k : map_by key l !! k = last (filter (λ x, key x = k) l).
Proof.
  unfold map_by. induction l as [|x l IH] using rev_ind; [done|]. rewrite foldl_snoc, filter_app.
  destruct (decide (key x = k)) as [<-|Hne].
  - rewrite lookup_insert_eq, filter_cons_True, filter_nil by done. by rewrite last_snoc.
  - rewrite lookup_insert_ne, filter_cons_False, filter_nil, app_nil_r by done. done.
Qed.

Lemma map_by_none {A} (key : A → Z) l k : map_by key l !! k = None ↔ k ∉ key <$> l.
Proof.
  rewrite map_by_lookup. split.
  - intros Hl Hin. apply list_elem_of_fmap in Hin as (x & -> & Hx). apply last_None in Hl.
    assert (x ∈ filter (λ y, key y = key x) l) as Hf by (by apply list_elem_of_filter). rewrite Hl in Hf. set_solver.
  - intros Hn. rewrite filter_none; [done|]. intros x Hx <-. apply Hn. by apply list_elem_of_fmap_2.
Qed.
