(* ===== verification/GoStrings.v ===== *)
(** * Strings and numbers of the Go standard library

    Go strings are byte sequences; they are modelled by [string], one [ascii]
    per byte.  The file holds the functions of packages [strings] and [strconv]
    the modelled code calls, and their laws: [strconv.Itoa] and
    [strconv.ParseInt] round trip, the ["%s:%d"] key format is injective. *)

From Stdlib Require Import Ascii.
From S2P Require Import Prelude.
From stdpp Require Import options.

(** ** Slicing *)

(** [s[n:]] and [s[:n]] for [n] within bounds. *)
Fixpoint str_drop (n : nat) (s : string) : string :=
  match n, s with
  | S n, String _ s => str_drop n s
  | _, _ => s
  end.

Fixpoint str_take (n : nat) (s : string) : string :=
  match n, s with
  | S n, String c s => String c (str_take n s)
  | _, _ => ""
  end.

Definition byte_of (c : ascii) : N := N_of_ascii c.

Fixpoint str_forall (P : ascii → bool) (s : string) : bool :=
  match s with
  | "" => true
  | String c s => P c && str_forall P s
  end.

(** ** Searching *)

Fixpoint strip_prefix (p s : string) : option string :=
  match p, s with
  | "", _ => Some s
  | String a p, String b s => if decide (a = b) then strip_prefix p s else None
  | _, _ => None
  end.

(** [strings.HasPrefix(s, p)]. *)
Definition has_prefix (p s : string) : bool :=
  match strip_prefix p s with Some _ => true | None => false end.

(** [strings.HasSuffix(s, p)]: compare the last bytes. *)
Definition has_suffix (p s : string) : bool :=
  bool_decide (String.length p ≤ String.length s) &&
  bool_decide (str_drop (String.length s - String.length p) s = p).

(** The text before and after the first occurrence of [sep]. *)
Fixpoint str_cut (sep s : string) : option (string * string) :=
  match strip_prefix sep s with
  | Some rest => Some ("", rest)
  | None =>
      match s with
      | "" => None
      | String c s => (λ '(a, b), (String c a, b)) <$> str_cut sep s
      end
  end.

(** [strings.Contains(s, sub)]. *)
Definition str_contains (sub s : string) : bool :=
  match str_cut sub s with Some _ => true | None => false end.

(** [strings.Split(s, sep)] for a non-empty separator. *)
Fixpoint str_split_go (fuel : nat) (sep s : string) : list string :=
  match fuel with
  | 0 => [s]
  | S fuel =>
      match str_cut sep s with
      | None => [s]
      | Some (a, b) => a :: str_split_go fuel sep b
      end
  end.
Definition str_split (sep s : string) : list string :=
  str_split_go (String.length s) sep s.

(** [strings.Join(l, sep)]. *)
Fixpoint str_join (sep : string) (l : list string) : string :=
  match l with
  | [] => ""
  | [s] => s
  | s :: l => s +:+ sep +:+ str_join sep l
  end.

(** ** Case and white space *)

Definition is_ascii (s : string) : bool :=
  str_forall (λ c, bool_decide (byte_of c < 128)%N) s.

Definition char_lower (c : ascii) : ascii :=
  let n := byte_of c in
  if bool_decide (65 ≤ n ∧ n ≤ 90)%N then ascii_of_N (n + 32) else c.

Fixpoint ascii_lower (s : string) : string :=
  match s with
  | "" => ""
  | String c s => String (char_lower c) (ascii_lower s)
  end.

Definition bytes (l : list N) : string :=
  foldr (λ n s, String (ascii_of_N n) s) "" l.

(** The UTF-8 encodings of the code points [unicode.IsSpace] accepts. *)
Definition space_encodings : list string :=
  map bytes
    ([[9]; [10]; [11]; [12]; [13]; [32]; [194; 133]; [194; 160]; [225; 154; 128];
      [226; 128; 168]; [226; 128; 169]; [226; 128; 175]; [226; 129; 159];
      [227; 128; 128]] ++
     map (λ n, [226; 128; n]) [128; 129; 130; 131; 132; 133; 134; 135; 136; 137; 138])%N.

(** The string without its first white-space code point, if it starts with one. *)
Definition strip_space (s : string) : option string :=
  foldr (λ e acc, match strip_prefix e s with Some r => Some r | None => acc end)
    None space_encodings.

Fixpoint trim_left_go (fuel : nat) (s : string) : string :=
  match fuel with
  | 0 => s
  | S fuel => match strip_space s with Some r => trim_left_go fuel r | None => s end
  end.
Definition trim_left (s : string) : string := trim_left_go (String.length s) s.

Definition strip_space_end (s : string) : option string :=
  foldr (λ e acc,
    if has_suffix e s
    then Some (str_take (String.length s - String.length e) s) else acc)
    None space_encodings.

Fixpoint trim_right_go (fuel : nat) (s : string) : string :=
  match fuel with
  | 0 => s
  | S fuel => match strip_space_end s with Some r => trim_right_go fuel r | None => s end
  end.
Definition trim_right (s : string) : string := trim_right_go (String.length s) s.

(** [strings.TrimSpace(s)]. *)
Definition trim_space (s : string) : string := trim_right (trim_left s).

(** ** Numbers *)

(** [strconv.Itoa], [strconv.FormatInt(_, 10)] and the [%d] verb. *)
Definition itoa (z : Z) : string := pretty z.

Inductive num_error := ErrSyntax | ErrRange.
#[export] Instance num_error_eq_dec : EqDecision num_error.
Proof. solve_decision. Defined.

Definition digit_of (c : ascii) : option N :=
  let n := byte_of c in
  if bool_decide (48 ≤ n ∧ n ≤ 57)%N then Some (n - 48)%N else None.

Definition maxUint64 : N := 18446744073709551615.

(** The digit loop of [strconv.ParseUint] in base 10: a byte that is not a digit
    is a syntax error, an accumulator above [maxUint64] a range error, whichever
    comes first. *)
Fixpoint parse_uint_go (acc : N) (s : string) : N * option num_error :=
  match s with
  | "" => (acc, None)
  | String c s =>
      match digit_of c with
      | None => (0%N, Some ErrSyntax)
      | Some d =>
          let n := (acc * 10 + d)%N in
          if decide (maxUint64 < n)%N then (maxUint64, Some ErrRange)
          else parse_uint_go n s
      end
  end.

Definition parse_uint (s : string) : N * option num_error :=
  if decide (s = "") then (0%N, Some ErrSyntax) else parse_uint_go 0 s.

(** [strconv.ParseInt(s, 10, 64)]; [strconv.Atoi] returns the same pair on a
    64-bit platform. *)
Definition parse_int (s : string) : Z * option num_error :=
  let '(neg, body) :=
    match s with
    | String "+" r => (false, r)
    | String "-" r => (true, r)
    | _ => (false, s)
    end%char in
  let '(un, err) := parse_uint body in
  match err with
  | Some ErrSyntax => (0%Z, Some ErrSyntax)
  | _ =>
      if neg
      then if decide (2 ^ 63 < Z.of_N un)%Z then ((- 2 ^ 63)%Z, Some ErrRange)
           else ((- Z.of_N un)%Z, None)
      else if decide (2 ^ 63 ≤ Z.of_N un)%Z then ((2 ^ 63 - 1)%Z, Some ErrRange)
           else (Z.of_N un, None)
  end.

Definition atoi (s : string) : Z * option num_error := parse_int s.

(** [fmt.Sprintf("%s:%d", ip, port)]. *)
Definition host_port (ip : string) (port : Z) : string := ip +:+ ":" +:+ itoa port.

(** ** Hexadecimal *)

(** [hex.EncodeToString] and [hex.DecodeString]. *)
Definition hex_digit (n : N) : ascii :=
  ascii_of_N (if decide (n < 10)%N then 48 + n else 87 + n)%N.

Fixpoint hex_EncodeToString (s : string) : string :=
  match s with
  | EmptyString => EmptyString
  | String c s => String (hex_digit (byte_of c / 16)) (String (hex_digit (byte_of c mod 16)) (hex_EncodeToString s))
  end.

Definition hex_value (c : ascii) : option N :=
  let n := byte_of c in
  if decide (48 ≤ n ≤ 57)%N then Some (n - 48)%N
  else if decide (97 ≤ n ≤ 102)%N then Some (n - 87)%N
  else if decide (65 ≤ n ≤ 70)%N then Some (n - 55)%N
  else None.

Fixpoint hex_DecodeString (s : string) : option string :=
  match s with
  | EmptyString => Some EmptyString
  | String _ EmptyString => None
  | String a (String b s) =>
      match hex_value a, hex_value b, hex_DecodeString s with
      | Some x, Some y, Some r => Some (String (ascii_of_N (16 * x + y)) r)
      | _, _, _ => None
      end
  end.

(** ** Laws *)

#[local] Arguments String.append !_ _ / : simpl nomatch.

Lemma str_app_nil_r s : s +:+ "" = s.
Proof. induction s; simpl; [done|]. by f_equal. Qed.

Lemma str_app_assoc s1 s2 s3 : (s1 +:+ s2) +:+ s3 = s1 +:+ s2 +:+ s3.
Proof. induction s1; simpl; [done|]. by f_equal. Qed.

Lemma str_length_app s1 s2 :
  String.length (s1 +:+ s2) = String.length s1 + String.length s2.
Proof. induction s1; simpl; lia. Qed.

Lemma str_forall_app P s1 s2 :
  str_forall P (s1 +:+ s2) = str_forall P s1 && str_forall P s2.
Proof. induction s1 as [|c s1 IH]; simpl; [done|]. by rewrite IH, andb_assoc. Qed.

Lemma str_forall_impl (P Q : ascii → bool) s :
  (∀ c, P c = true → Q c = true) → str_forall P s = true → str_forall Q s = true.
Proof.
  intros HPQ. induction s as [|c s IH]; simpl; [done|].
  rewrite !andb_true_iff. intros [? ?]. auto.
Qed.

Lemma strip_prefix_Some p s r : strip_prefix p s = Some r ↔ s = p +:+ r.
Proof.
  revert s. induction p as [|a p IH]; intros s; simpl; [naive_solver|].
  destruct s as [|b s]; [naive_solver|]. case_decide; subst; rewrite ?IH; naive_solver.
Qed.

Lemma has_prefix_true p s : has_prefix p s = true ↔ ∃ r, s = p +:+ r.
Proof.
  unfold has_prefix. destruct (strip_prefix p s) eqn:E.
  - apply strip_prefix_Some in E. naive_solver.
  - split; [done|]. intros [r Hr]. by apply strip_prefix_Some in Hr; rewrite E in Hr.
Qed.

Lemma str_cut_Some sep s a b : str_cut sep s = Some (a, b) → s = a +:+ sep +:+ b.
Proof.
  revert a. induction s as [|c s IH]; intros a; simpl.
  - destruct (strip_prefix sep "") eqn:E; [|done].
    apply strip_prefix_Some in E. by intros [= <- <-].
  - destruct (strip_prefix sep (String c s)) eqn:E.
    + apply strip_prefix_Some in E. by intros [= <- <-].
    + intros ([a' b'] & Hc & [= -> ->])%fmap_Some. simpl. f_equal. auto.
Qed.

Lemma str_cut_is_Some sep a b : is_Some (str_cut sep (a +:+ sep +:+ b)).
Proof.
  induction a as [|c a IH]; simpl.
  - destruct (sep +:+ b) eqn:E; simpl; rewrite <- ?E;
      rewrite (proj2 (strip_prefix_Some sep (sep +:+ b) b)) by done; eauto.
  - case_match; [eauto|]. destruct IH as [[x y] ->]. simpl. eauto.
Qed.

Lemma str_contains_true sub s : str_contains sub s = true ↔ ∃ a b, s = a +:+ sub +:+ b.
Proof.
  unfold str_contains. split.
  - destruct (str_cut sub s) as [[a b]|] eqn:E; [|done].
    apply str_cut_Some in E. eauto.
  - intros (a & b & ->). by destruct (str_cut_is_Some sub a b) as [? ->].
Qed.

(** Joining the parts of a split gives the string back. *)
Lemma str_join_split_go fuel sep s : str_join sep (str_split_go fuel sep s) = s.
Proof.
  revert s. induction fuel as [|fuel IH]; intros s; [done|]. cbn [str_split_go].
  destruct (str_cut sep s) as [[a b]|] eqn:E; [|done].
  apply str_cut_Some in E as ->. simpl. specialize (IH b).
  destruct (str_split_go fuel sep b) eqn:Eb; simpl in *; [|by rewrite IH].
  by destruct fuel; simpl in Eb; repeat case_match.
Qed.

Lemma str_join_split sep s : str_join sep (str_split sep s) = s.
Proof. apply str_join_split_go. Qed.

(** Splitting at a character that does not occur in the first part. *)
Definition lacks (c : ascii) (s : string) : bool := str_forall (λ x, bool_decide (x ≠ c)) s.

Lemma str_cut_char c a b : lacks c a = true → str_cut (String c "") (a +:+ String c b) = Some (a, b).
Proof.
  unfold lacks. induction a as [|x a IH]; simpl; intros Ha.
  - case_decide; [|done]. by destruct b.
  - apply andb_prop in Ha as [Hx%bool_decide_eq_true Ha]. rewrite decide_False by done. by rewrite IH.
Qed.

Lemma str_cut_lacks c a : lacks c a = true → str_cut (String c "") a = None.
Proof.
  unfold lacks. induction a as [|x a IH]; simpl; [done|]. intros [Hx%bool_decide_eq_true Ha]%andb_prop.
  rewrite decide_False by done. by rewrite IH.
Qed.

Lemma str_split_go_fuel c fuel s :
  String.length s ≤ fuel → str_split_go fuel (String c "") s = str_split (String c "") s.
Proof.
  unfold str_split. revert s. induction fuel as [fuel IH] using lt_wf_ind. intros s Hs.
  destruct fuel as [|fuel]; [by destruct s; simpl in *; [|lia]|].
  destruct (String.length s) as [|n] eqn:Hn.
  - destruct s; [|done]. done.
  - cbn [str_split_go]. destruct (str_cut _ s) as [[a b]|] eqn:E; [|done].
    apply str_cut_Some in E as ->. rewrite !str_length_app in Hn. simpl in Hn. f_equal.
    rewrite (IH fuel) by lia. symmetry. apply IH; lia.
Qed.

Lemma str_split_char c a b : lacks c a = true →
  str_split (String c "") (a +:+ String c b) = a :: str_split (String c "") b.
Proof.
  intros Ha. unfold str_split at 1. rewrite str_length_app. simpl. rewrite Nat.add_succ_r. cbn [str_split_go].
  rewrite str_cut_char by done. f_equal. apply str_split_go_fuel. lia.
Qed.

Lemma str_split_lacks c a : lacks c a = true → str_split (String c "") a = [a].
Proof. intros Ha. unfold str_split. destruct (String.length a); simpl; [done|]. by rewrite str_cut_lacks. Qed.

(** The parts before and after the first separator are determined. *)
Lemma str_cut_inj c a a' b b' :
  lacks c a = true → lacks c a' = true → a +:+ String c b = a' +:+ String c b' → a = a' ∧ b = b'.
Proof.
  intros Ha Ha' E. pose proof (str_cut_char c a b Ha) as H1. rewrite E, (str_cut_char c a' b' Ha') in H1.
  by injection H1 as -> ->.
Qed.

Lemma str_app_inv_tail a b e : a +:+ e = b +:+ e → a = b.
Proof.
  intros E. assert (String.length a = String.length b) as Hl
    by (apply (f_equal String.length) in E; rewrite !str_length_app in E; lia).
  revert b Hl E. induction a as [|c a IH]; intros [|d b] Hl E; try done. simpl in Hl, E.
  injection E as -> E. f_equal. apply IH; [lia|done].
Qed.

(** *** Decimal numerals *)

Definition is_digit (c : ascii) : bool := match digit_of c with Some _ => true | None => false end.

Lemma digit_of_pretty x : (x < 10)%N → digit_of (pretty_N_char x) = Some x.
Proof.
  intros. assert (x = 0 ∨ x = 1 ∨ x = 2 ∨ x = 3 ∨ x = 4 ∨ x = 5 ∨ x = 6 ∨ x = 7
    ∨ x = 8 ∨ x = 9)%N as Hx by lia.
  by repeat destruct Hx as [->|Hx]; [..|subst].
Qed.

Lemma pretty_N_go_digits x s :
  str_forall is_digit s = true → str_forall is_digit (pretty_N_go x s) = true.
Proof.
  revert s. induction (N.lt_wf_0 x) as [x _ IH]; intros s Hs.
  destruct (decide (x = 0)%N) as [->|]; [done|].
  rewrite pretty_N_go_step by lia. apply IH; [apply N.div_lt; lia|].
  simpl. unfold is_digit at 1. rewrite digit_of_pretty by (apply N.mod_lt; lia). done.
Qed.

Lemma pretty_N_digits (x : N) : str_forall is_digit (pretty x) = true.
Proof.
  unfold pretty, pretty_N. case_decide; [done|]. by apply pretty_N_go_digits.
Qed.

Lemma parse_uint_go_pretty x s :
  (x ≤ maxUint64)%N → parse_uint_go 0 (pretty_N_go x s) = parse_uint_go x s.
Proof.
  revert s. induction (N.lt_wf_0 x) as [x _ IH]; intros s Hx.
  destruct (decide (x = 0)%N) as [->|]; [done|].
  rewrite pretty_N_go_step by lia.
  rewrite IH; [|apply N.div_lt; lia|pose proof (N.Div0.div_le_upper_bound x 10 x); lia].
  cbn [parse_uint_go]. rewrite digit_of_pretty by (apply N.mod_lt; lia).
  replace (x `div` 10 * 10 + x `mod` 10)%N with x
    by (rewrite (N.div_mod x 10) at 1; lia).
  by rewrite decide_False by lia.
Qed.

Lemma pretty_N_ne_nil (x : N) : pretty x ≠ "".
Proof.
  intros Hx. unfold pretty, pretty_N in Hx. case_decide; [done|].
  rewrite pretty_N_go_step in Hx by lia.
  assert (∀ y s, s ≠ "" → pretty_N_go y s ≠ "") as Hgo'.
  { clear. intros y. induction (N.lt_wf_0 y) as [y _ IH]; intros s Hs.
    destruct (decide (y = 0)%N) as [->|]; [done|].
    rewrite pretty_N_go_step by lia. apply IH; [apply N.div_lt; lia|done]. }
  by eapply Hgo' in Hx.
Qed.

Lemma parse_uint_pretty (x : N) : (x ≤ maxUint64)%N → parse_uint (pretty x) = (x, None).
Proof.
  intros Hx. unfold parse_uint. rewrite decide_False by apply pretty_N_ne_nil.
  unfold pretty, pretty_N. case_decide as H0; [by subst|].
  by rewrite parse_uint_go_pretty.
Qed.

(** A numeral starts with a digit, so never with a sign. *)
Lemma pretty_N_head (x : N) : ∃ c s, pretty x = String c s ∧ is_digit c = true.
Proof.
  pose proof (pretty_N_digits x) as Hd. pose proof (pretty_N_ne_nil x) as Hn.
  destruct (pretty x) as [|c s]; [done|]. simpl in Hd.
  apply andb_true_iff in Hd as [? ?]. eauto.
Qed.

Lemma parse_int_unsigned c s :
  is_digit c = true →
  parse_int (String c s) =
    let '(un, err) := parse_uint (String c s) in
    match err with
    | Some ErrSyntax => (0%Z, Some ErrSyntax)
    | _ => if decide (2 ^ 63 ≤ Z.of_N un)%Z then ((2 ^ 63 - 1)%Z, Some ErrRange)
           else (Z.of_N un, None)
    end.
Proof.
  intros Hd. unfold parse_int.
  destruct (decide (c = "+"%char)) as [->|]; [done|].
  destruct (decide (c = "-"%char)) as [->|]; [done|].
  by repeat (destruct c as [[] [] [] [] [] [] [] []]; try done).
Qed.

(** [strconv.ParseInt] inverts [strconv.FormatInt] on every [int64]. *)
Lemma parse_int_itoa (z : Z) : in_s 64 z → parse_int (itoa z) = (z, None).
Proof.
  unfold in_s. intros Hz. unfold itoa. destruct z as [|p|p]; [done| |].
  - unfold pretty, pretty_Z, pretty, pretty_positive.
    destruct (pretty_N_head (N.pos p)) as (c & s & Hc & Hd).
    rewrite Hc, parse_int_unsigned by done. rewrite <- Hc.
    rewrite parse_uint_pretty by (unfold maxUint64; lia).
    rewrite decide_False by lia. done.
  - unfold pretty, pretty_Z, pretty, pretty_positive.
    change ("-" +:+ pretty (N.pos p)) with (String "-" (pretty (N.pos p))).
    cbn [parse_int]. rewrite parse_uint_pretty by (unfold maxUint64; lia).
    rewrite decide_False by lia. done.
Qed.

(** What it returns without error is an [int64]. *)
Lemma parse_int_range s z : parse_int s = (z, None) → in_s 64 z.
Proof.
  unfold parse_int, in_s. destruct (match s with "" => _ | _ => _ end) as [neg body].
  destruct (parse_uint body) as [un [[]|]]; [done|..]; destruct neg; case_decide;
    intros [= <-]; lia.
Qed.

(** *** The ["%s:%d"] keys *)

Definition no_colon (c : ascii) : bool := bool_decide (c ≠ ":"%char).

(** A decimal number consists of digits, after a minus sign if it is negative. *)
Lemma itoa_chars (P : ascii → bool) z :
  (∀ c, is_digit c = true → P c = true) → P "-"%char = true → str_forall P (itoa z) = true.
Proof.
  intros HP Hm. assert (∀ x : N, str_forall P (pretty x) = true) as HN.
  { intros x. eapply str_forall_impl, pretty_N_digits. apply HP. }
  unfold itoa, pretty, pretty_Z. destruct z as [|p|p].
  - cbn [str_forall]. rewrite HP by done. done.
  - apply HN.
  - rewrite str_forall_app, andb_true_iff. split; [|apply HN]. cbn [str_forall]. by rewrite Hm.
Qed.

Lemma itoa_no_colon z : str_forall no_colon (itoa z) = true.
Proof.
  apply itoa_chars; [|done]. intros c Hc. unfold no_colon. apply bool_decide_eq_true_2.
  intros ->. by vm_compute in Hc.
Qed.

Lemma app_colon_inj a b a' b' :
  str_forall no_colon b = true → str_forall no_colon b' = true →
  a +:+ ":" +:+ b = a' +:+ ":" +:+ b' → a = a' ∧ b = b'.
Proof.
  intros Hb Hb'. revert a'. induction a as [|c a IH]; intros [|c' a']; simpl.
  - naive_solver.
  - intros [= <- ->]. rewrite str_forall_app in Hb. simpl in Hb.
    rewrite !andb_true_iff in Hb. naive_solver.
  - intros [= -> <-]. rewrite str_forall_app in Hb'. simpl in Hb'.
    rewrite !andb_true_iff in Hb'. naive_solver.
  - intros [= <- [-> ->]%IH]. done.
Qed.

(** The subkey of an instance determines its address and port. *)
Lemma host_port_inj ip port ip' port' :
  host_port ip port = host_port ip' port' ↔ ip = ip' ∧ port = port'.
Proof.
  unfold host_port. split; [|naive_solver].
  intros [-> Hp]%app_colon_inj; [|apply itoa_no_colon..].
  by apply (inj pretty) in Hp.
Qed.

(** *** ASCII case *)

Lemma char_lower_idem c : char_lower (char_lower c) = char_lower c.
Proof. by destruct c as [[] [] [] [] [] [] [] []]. Qed.

Lemma ascii_lower_idem s : ascii_lower (ascii_lower s) = ascii_lower s.
Proof. induction s; simpl; [done|]. by rewrite char_lower_idem, IHs. Qed.

(** ** Hexadecimal *)

Lemma hex_value_digit n : (n < 16)%N → hex_value (hex_digit n) = Some n.
Proof.
  intros Hn. unfold hex_value, hex_digit, byte_of.
  rewrite N_ascii_embedding by (case_decide; lia).
  destruct (decide (n < 10)%N); repeat (case_decide; try (f_equal; lia)); lia.
Qed.

(** Decoding an encoded string gives it back. *)
Lemma hex_DecodeString_EncodeToString s : hex_DecodeString (hex_EncodeToString s) = Some s.
Proof.
  induction s as [|c s IH]; [done|]. cbn [hex_EncodeToString hex_DecodeString].
  assert (byte_of c < 256)%N as Hc by apply N_ascii_bounded.
  rewrite !hex_value_digit, IH by (try apply N.mod_lt; try apply N.Div0.div_lt_upper_bound; lia).
  rewrite <- N.div_mod' . unfold byte_of. by rewrite ascii_N_embedding.
Qed.
