(* ===== verification/GoText.v ===== *)
(** * Text files

    What the readers of text files use of packages [strings], [bytes], [bufio] and [io]:
    fields, pieces, trimming, and the scanner with its 64 KB buffer.  Each comes with the
    law that undoes a rendering of the text. *)

From Stdlib Require Import Ascii.
From S2P Require Import Prelude GoStrings.
From stdpp Require Import options.

#[local] Abbreviation len s := (Z.of_nat (String.length s)).

(** ** Fields and pieces *)

Definition flush (w : string) : list string := if decide (w = "") then [] else [w].

(** [strings.Fields]: the runs of bytes between white-space code points.  No byte within a
    code point starts the encoding of another one, so going byte by byte is enough. *)
Fixpoint fields_go (fuel : nat) (w s : string) : list string :=
  match fuel, s with
  | S fuel, String c r =>
      match strip_space s with
      | Some r' => flush w ++ fields_go fuel "" r'
      | None => fields_go fuel (w +:+ String c "") r
      end
  | _, _ => flush w
  end.
Definition str_fields (s : string) : list string := fields_go (String.length s) "" s.

(** [bytes.FieldsFunc] for a single byte. *)
Definition fields_by (sep s : string) : list string := filter (λ p, p ≠ "") (str_split sep s).

(** [strings.SplitN(s, sep, n)] for [0 < n]. *)
Fixpoint str_splitn (n : nat) (sep s : string) : list string :=
  match n with
  | O => []
  | S O => [s]
  | S n => match str_cut sep s with Some (a, b) => a :: str_splitn n sep b | None => [s] end
  end.

(** [strings.TrimPrefix] and [strings.TrimSuffix]. *)
Definition trim_prefix (p s : string) : string := default s (strip_prefix p s).
Definition trim_suffix (p s : string) : string :=
  if has_suffix p s then str_take (String.length s - String.length p) s else s.

(** [bytes.TrimFunc] and [bytes.TrimRight] for sets of ASCII bytes. *)
Fixpoint trim_left_by (P : ascii → bool) (s : string) : string :=
  match s with
  | "" => ""
  | String c r => if P c then trim_left_by P r else s
  end.
Fixpoint trim_right_by (P : ascii → bool) (s : string) : string :=
  match s with
  | "" => ""
  | String c r => let t := trim_right_by P r in if decide (t = "") then (if P c then "" else String c "") else String c t
  end.
Definition trim_by (P : ascii → bool) (s : string) : string := trim_right_by P (trim_left_by P s).

(** [bytes.ReplaceAll] of a byte by a byte. *)
Fixpoint replace_byte (a b : ascii) (s : string) : string :=
  match s with "" => "" | String c r => String (if decide (c = a) then b else c) (replace_byte a b r) end.

(** [io.LimitReader]. *)
Definition str_limit (n : Z) (s : string) : string :=
  if decide (len s ≤ n)%Z then s else str_take (Z.to_nat n) s.

(** ** Scanners *)

Definition newline : string := bytes [10]%N.

Definition MaxScanTokenSize : Z := 64 * 1024.

(** [bufio.Scanner] with [ScanLines]: the lines without their end-of-line bytes, up to
    the first one that does not fit the 64 KB buffer. *)
Definition drop_cr (s : string) : string :=
  if has_suffix (bytes [13]%N) s then str_take (String.length s - 1) s else s.

Fixpoint fitting (l : list string) : list string :=
  match l with
  | [] => []
  | s :: l => if decide (len s < MaxScanTokenSize)%Z then s :: fitting l else []
  end.

Definition raw_lines (text : string) : list string :=
  let l := str_split newline text in
  match last l with
  | Some "" => take (length l - 1) l
  | _ => l
  end.

Definition scan_lines (text : string) : list string := drop_cr <$> fitting (raw_lines text).

(** The scanner with a function that ends a token before the first occurrence of [sep] and
    goes on [skip] bytes into it: a token and the separator have to fit the buffer, and the
    last token leaves a byte of it free. *)
Fixpoint scan_until (fuel : nat) (skip : nat) (sep text : string) : list string :=
  match fuel with
  | O => []
  | S fuel =>
      if decide (text = "") then []
      else match str_cut sep text with
           | Some (a, b) =>
               if decide (len a + len sep ≤ MaxScanTokenSize)%Z
               then a :: scan_until fuel skip sep (str_drop skip sep +:+ b) else []
           | None => if decide (len text < MaxScanTokenSize)%Z then [text] else []
           end
  end.
Definition scan_sep (skip : nat) (sep text : string) : list string := scan_until (S (String.length text)) skip sep text.

(** ** Laws *)

#[local] Arguments String.append !_ _ / : simpl nomatch.

(** ASCII bytes that are no white space. *)
Definition word_char (c : ascii) : bool := let n := byte_of c in bool_decide (32 < n < 128)%N.
Definition is_word (w : string) : Prop := w ≠ "" ∧ str_forall word_char w = true.

#[export] Instance is_word_dec w : Decision (is_word w).
Proof. unfold is_word. apply _. Defined.

Lemma strip_space_word c s : word_char c = true → strip_space (String c s) = None.
Proof.
  intros Hc. unfold strip_space.
  assert (∀ e, e ∈ space_encodings → strip_prefix e (String c s) = None) as H.
  { intros e He. destruct (strip_prefix e (String c s)) as [r|] eqn:E; [|done]. apply strip_prefix_Some in E.
    assert (∃ d t, e = String d t ∧ word_char d = false) as (d & t & -> & Hd).
    { clear E. assert (Forall (λ e, ∃ d t, e = String d t ∧ word_char d = false) space_encodings) as HF
        by (repeat constructor; eexists _, _; split; reflexivity).
      rewrite Forall_forall in HF. by apply HF. }
    simpl in E. congruence. }
  induction space_encodings as [|e l IH]; [done|]. simpl. rewrite H by left. apply IH. intros e' He'. apply H. by right.
Qed.

Lemma fields_go_word fuel u w s :
  str_forall word_char w = true → String.length w ≤ fuel →
  fields_go fuel u (w +:+ s) = fields_go (fuel - String.length w) (u +:+ w) s.
Proof.
  revert fuel u. induction w as [|c w IH]; intros fuel u Hw Hf; simpl.
  - by rewrite str_app_nil_r, Nat.sub_0_r.
  - simpl in Hw, Hf. apply andb_true_iff in Hw as [Hc Hw]. destruct fuel as [|fuel]; [lia|]. simpl fields_go.
    rewrite strip_space_word by done. rewrite IH by (done || lia). by rewrite str_app_assoc.
Qed.

Lemma fields_go_nil fuel w : fields_go fuel w "" = flush w.
Proof. by destruct fuel. Qed.

(** Words with single blanks between them, and maybe a newline at the end, are the fields. *)
Lemma fields_join_end ws e : e = "" ∨ e = newline → Forall is_word ws → str_fields (str_join " " ws +:+ e) = ws.
Proof.
  unfold str_fields. intros He Hws.
  induction Hws as [|w ws [Hne Hw] Hws IH]; [by destruct He as [-> | ->]|].
  destruct ws as [|w' ws].
  - simpl str_join. rewrite fields_go_word by (done || rewrite str_length_app; lia).
    destruct He as [-> | ->]; [rewrite fields_go_nil|rewrite str_length_app, Nat.add_sub_swap, Nat.sub_diag by lia; simpl];
      unfold flush; by rewrite decide_False by done.
  - change (str_join " " (w :: w' :: ws)) with (w +:+ " " +:+ str_join " " (w' :: ws)).
    rewrite !str_app_assoc. remember (str_join " " (w' :: ws) +:+ e) as t eqn:Ht. clear Ht.
    rewrite str_length_app, fields_go_word by (done || lia).
    replace (String.length w + String.length (" " +:+ t) - String.length w) with (S (String.length t)) by (simpl; lia).
    simpl fields_go. change (strip_space (String " " t)) with (Some t). cbv iota. rewrite IH.
    unfold flush. by rewrite decide_False.
Qed.

Lemma fields_join ws : Forall is_word ws → str_fields (str_join " " ws) = ws.
Proof. intros Hws. rewrite <-(str_app_nil_r (str_join _ _)). apply fields_join_end; auto. Qed.

Lemma str_take_drop n s : str_take n s +:+ str_drop n s = s.
Proof. revert s. induction n as [|n IH]; intros [|c s]; simpl; [done..|]. by rewrite IH. Qed.

Lemma str_take_app s t : str_take (String.length s) (s +:+ t) = s.
Proof. induction s as [|c s IH]; simpl; [by destruct t|by rewrite IH]. Qed.

Lemma str_drop_app s t : str_drop (String.length s) (s +:+ t) = t.
Proof. induction s as [|c s IH]; simpl; [by destruct t|done]. Qed.

Lemma has_suffix_true p s : has_suffix p s = true ↔ ∃ r, s = r +:+ p.
Proof.
  unfold has_suffix. rewrite andb_true_iff, !bool_decide_eq_true. split.
  - intros [_ H]. exists (str_take (String.length s - String.length p) s). rewrite <-H at 2. by rewrite str_take_drop.
  - intros [r ->]. rewrite str_length_app. split; [lia|].
    replace (String.length r + String.length p - String.length p) with (String.length r) by lia. apply str_drop_app.
Qed.

Lemma trim_suffix_app p s : trim_suffix p (s +:+ p) = s.
Proof.
  unfold trim_suffix. rewrite (proj2 (has_suffix_true p (s +:+ p))) by eauto. rewrite str_length_app.
  replace (String.length s + String.length p - String.length p) with (String.length s) by lia. apply str_take_app.
Qed.

Lemma trim_prefix_app p s : trim_prefix p (p +:+ s) = s.
Proof. unfold trim_prefix. by rewrite (proj2 (strip_prefix_Some p _ s) eq_refl). Qed.

Fixpoint last_char (s : string) : option ascii :=
  match s with "" => None | String c "" => Some c | String _ r => last_char r end.

Lemma last_char_app a b : b ≠ "" → last_char (a +:+ b) = last_char b.
Proof. intros Hb. induction a as [|c a IH]; simpl; [done|]. destruct (a +:+ b) eqn:E; [by destruct a, b|done]. Qed.

Lemma last_char_Some s c : last_char s = Some c → ∃ t, s = t +:+ String c "".
Proof.
  induction s as [|d s IH]; [done|]. destruct s as [|x s].
  - intros [= ->]. by exists "".
  - intros H. destruct (IH H) as [t ->]. by exists (String d t).
Qed.

Lemma has_suffix_last e s : has_suffix e s = true → e ≠ "" → last_char s = last_char e.
Proof. intros [r ->]%has_suffix_true He. by apply last_char_app. Qed.

Lemma strip_space_end_word s c : last_char s = Some c → word_char c = true → strip_space_end s = None.
Proof.
  intros Hs Hc. unfold strip_space_end.
  assert (∀ e, e ∈ space_encodings → has_suffix e s = false) as H.
  { intros e He. apply not_true_iff_false. intros Hsuf.
    assert (e ≠ "" ∧ ∃ d, last_char e = Some d ∧ word_char d = false) as (Hne & d & Hd & Hw).
    { assert (Forall (λ e, e ≠ "" ∧ ∃ d, last_char e = Some d ∧ word_char d = false) space_encodings) as HF
        by (repeat constructor; (done || eexists; split; reflexivity)).
      rewrite Forall_forall in HF. by apply HF. }
    rewrite (has_suffix_last e s Hsuf Hne), Hd in Hs. congruence. }
  clear Hs. induction space_encodings as [|e l IH]; [done|]. simpl.
  rewrite H by left. apply IH. intros e' He'. apply H. by right.
Qed.

(** A text that starts and ends with a word. *)
Definition is_trimmed (s : string) : Prop :=
  match s with String c _ => word_char c = true | "" => False end ∧
  match last_char s with Some c => word_char c = true | None => False end.

#[export] Instance is_trimmed_dec s : Decision (is_trimmed s).
Proof. unfold is_trimmed. destruct s, (last_char _); apply _. Defined.

Lemma trim_space_trimmed s : is_trimmed s → trim_space s = s.
Proof.
  intros [Hh Hl]. destruct s as [|c s]; [done|]. unfold trim_space, trim_left. simpl trim_left_go.
  rewrite strip_space_word by done. unfold trim_right. simpl trim_right_go.
  destruct (last_char (String c s)) as [d|] eqn:E; [|done]. by rewrite (strip_space_end_word _ d).
Qed.

Lemma last_char_word w : is_word w → ∃ c, last_char w = Some c ∧ word_char c = true.
Proof.
  intros [Hne Hw]. induction w as [|c w IH]; [done|]. simpl in Hw. apply andb_true_iff in Hw as [Hc Hw].
  destruct w as [|d w]; [by exists c|]. apply IH; done.
Qed.

Lemma is_word_trimmed w : is_word w → is_trimmed w.
Proof.
  intros Hw. destruct (last_char_word w Hw) as (c & Hl & Hc). destruct Hw as [Hne Hw]. destruct w as [|d w]; [done|].
  simpl in Hw. apply andb_true_iff in Hw as [Hd Hw]. split; [done|]. by rewrite Hl.
Qed.

Lemma join_trimmed ws : ws ≠ [] → Forall is_word ws → is_trimmed (str_join " " ws).
Proof.
  intros Hne Hws. induction Hws as [|w ws Hw Hws IH]; [done|]. destruct ws as [|w' ws]; [by apply is_word_trimmed|].
  destruct (IH ltac:(done)) as [IHh IHl].
  change (str_join " " (w :: w' :: ws)) with (w +:+ " " +:+ str_join " " (w' :: ws)).
  destruct (str_join " " (w' :: ws)) as [|d t] eqn:E; [done|]. split.
  - destruct Hw as [Hn Hw]. destruct w as [|c w]; [done|]. simpl in Hw. by apply andb_true_iff in Hw as [Hc _].
  - rewrite last_char_app by done. by rewrite (last_char_app " ") by done.
Qed.

Lemma lacks_false c s : lacks c s = false → ∃ a b, s = a +:+ String c b ∧ lacks c a = true.
Proof.
  unfold lacks. induction s as [|x s IH]; [done|]. simpl. intros H. destruct (decide (x = c)) as [->|Hne].
  - exists "", s. done.
  - rewrite bool_decide_true in H by done. destruct (IH H) as (a & b & -> & Ha). exists (String x a), b. split; [done|].
    simpl. by rewrite bool_decide_true.
Qed.

Lemma str_split_ne sep s : str_split sep s ≠ [].
Proof. unfold str_split. destruct (String.length s); simpl; [done|]. by destruct (str_cut sep s) as [[]|]. Qed.

Lemma split_join c l : Forall (λ s, lacks c s = true) l → l ≠ [] → str_split (String c "") (str_join (String c "") l) = l.
Proof.
  intros Hl Hne. induction Hl as [|x l Hx Hl IH]; [done|]. destruct l as [|y l]; [by apply str_split_lacks|].
  change (str_join (String c "") (x :: y :: l)) with (x +:+ String c (str_join (String c "") (y :: l))).
  rewrite str_split_char by done. by rewrite IH.
Qed.

Lemma split_parts c s : Forall (λ p, lacks c p = true) (str_split (String c "") s).
Proof.
  remember (String.length s) as n eqn:Hn. revert s Hn. induction n as [n IH] using lt_wf_ind. intros s ->.
  destruct (lacks c s) eqn:E.
  - rewrite str_split_lacks by done. by constructor.
  - destruct (lacks_false _ _ E) as (a & b & -> & Ha). rewrite str_split_char by done. constructor; [done|].
    eapply IH; [|done]. rewrite str_length_app. simpl. lia.
Qed.

(** *** Lines *)

Definition unlines (ls : list string) : string := foldr (λ l t, l +:+ newline +:+ t) "" ls.

(** A line: it fits the buffer, has no newline and does not end with a carriage return. *)
Definition is_line (l : string) : Prop :=
  lacks "010" l = true ∧ last_char l ≠ Some "013"%char ∧ (len l < MaxScanTokenSize)%Z.

#[export] Instance is_line_dec l : Decision (is_line l).
Proof. unfold is_line. apply _. Defined.

Lemma drop_cr_line l : last_char l ≠ Some "013"%char → drop_cr l = l.
Proof.
  intros Hl. unfold drop_cr. destruct (has_suffix _ l) eqn:E; [|done].
  apply has_suffix_last in E; [|done]. by rewrite E in Hl.
Qed.

Lemma split_unlines ls : Forall (λ l, lacks "010" l = true) ls → str_split newline (unlines ls) = ls ++ [""].
Proof.
  induction 1 as [|l ls Hl Hls IH]; [done|]. simpl unlines.
  change (l +:+ newline +:+ unlines ls) with (l +:+ String "010" (unlines ls)).
  change newline with (String "010" ""). rewrite str_split_char by done. simpl. by rewrite <-IH.
Qed.

Lemma raw_lines_unlines ls : Forall (λ l, lacks "010" l = true) ls → raw_lines (unlines ls) = ls.
Proof.
  intros Hls. unfold raw_lines. rewrite split_unlines by done. rewrite last_snoc.
  rewrite length_app. simpl. by rewrite Nat.add_sub, take_app_length.
Qed.

Lemma fitting_all ls : Forall (λ l, (len l < MaxScanTokenSize)%Z) ls → fitting ls = ls.
Proof. induction 1 as [|l ls Hl Hls IH]; [done|]. simpl. by rewrite decide_True, IH. Qed.

Lemma fitting_incl ls l : l ∈ fitting ls → l ∈ ls.
Proof.
  induction ls as [|x ls IH]; simpl; [done|]. case_decide; [|by intros ?%elem_of_nil].
  rewrite !elem_of_cons. naive_solver.
Qed.

Lemma scan_unlines ls : Forall is_line ls → scan_lines (unlines ls) = ls.
Proof.
  intros Hls. unfold scan_lines. rewrite raw_lines_unlines by (eapply Forall_impl; [done|]; by intros ? (?&?&?)).
  rewrite fitting_all by (eapply Forall_impl; [done|]; by intros ? (?&?&?)).
  induction Hls as [|l ls (?&?&?) Hls IH]; [done|]. by rewrite fmap_cons, drop_cr_line, IH.
Qed.

Lemma str_limit_id n s : (len s ≤ n)%Z → str_limit n s = s.
Proof. intros H. unfold str_limit. by rewrite decide_True. Qed.

Lemma trim_left_by_id P c s : P c = false → trim_left_by P (String c s) = String c s.
Proof. intros H. simpl. by rewrite H. Qed.

Lemma trim_right_by_end P s c : last_char s = Some c → P c = false → trim_right_by P s = s.
Proof.
  intros Hs Hc. induction s as [|d s IH]; [done|]. destruct s as [|x s].
  - simpl in Hs. injection Hs as ->. simpl. by rewrite Hc.
  - change (last_char (String d (String x s))) with (last_char (String x s)) in Hs. cbn [trim_right_by] in *.
    rewrite (IH Hs). by rewrite decide_False.
Qed.

Lemma trim_right_by_app P s e : str_forall P e = true → trim_right_by P (s +:+ e) = trim_right_by P s.
Proof.
  intros He. assert (trim_right_by P e = "") as H.
  { induction e as [|c e IH]; [done|]. simpl in He |- *. apply andb_true_iff in He as [Hc He].
    rewrite IH by done. by rewrite decide_True, Hc. }
  induction s as [|c s IH]; simpl; [done|by rewrite IH].
Qed.

(** Texts ended by a separator byte each. *)
Definition unsep (c : ascii) (ls : list string) : string := foldr (λ l t, l +:+ String c t) "" ls.

Lemma scan_until_unsep fuel c ls :
  Forall (λ l, lacks c l = true ∧ (len l + 1 ≤ MaxScanTokenSize)%Z) ls → (length ls < fuel)%nat →
  scan_until fuel 1 (String c "") (unsep c ls) = ls.
Proof.
  intros Hls. revert fuel. induction Hls as [|l ls [Hl Hn] Hls IH]; intros fuel Hf; (destruct fuel as [|fuel]; [lia|]).
  - done.
  - change (unsep c (l :: ls)) with (l +:+ String c (unsep c ls)). cbn [scan_until].
    rewrite decide_False by by destruct l. rewrite str_cut_char by done.
    rewrite decide_True by (simpl; lia). simpl str_drop. simpl in Hf. simpl. by rewrite IH by lia.
Qed.

Lemma length_unsep c ls : (length ls ≤ String.length (unsep c ls))%nat.
Proof. induction ls as [|l ls IH]; simpl; [lia|]. rewrite str_length_app. simpl. lia. Qed.

Lemma scan_unsep c ls :
  Forall (λ l, lacks c l = true ∧ (len l + 1 ≤ MaxScanTokenSize)%Z) ls → scan_sep 1 (String c "") (unsep c ls) = ls.
Proof. intros Hls. apply scan_until_unsep; [done|]. pose proof (length_unsep c ls). lia. Qed.

(** *** Groups of lines *)

Lemma strip_prefix_lacks c p l t : lacks c p = true → strip_prefix p l = None → strip_prefix p (l +:+ String c t) = None.
Proof.
  unfold lacks. revert l. induction p as [|a p IH]; intros l; simpl; [done|]. intros [Ha Hp]%andb_true_iff.
  destruct l as [|b l]; simpl.
  - intros _. destruct (decide (a = c)) as [->|]; [by apply bool_decide_eq_true in Ha|done].
  - destruct (decide (a = b)); [by apply IH|done].
Qed.

Lemma str_cut_line c p l t :
  lacks c l = true →
  str_cut (String c p) (l +:+ String c t) =
  match strip_prefix p t with
  | Some r => Some (l, r)
  | None => (λ x, (l +:+ String c x.1, x.2)) <$> str_cut (String c p) t
  end.
Proof.
  unfold lacks. induction l as [|a l IH]; intros Hl.
  - cbn [String.append str_cut strip_prefix]. rewrite decide_True by done. destruct (strip_prefix p t); [done|].
    by destruct (str_cut (String c p) t) as [[]|].
  - simpl in Hl. apply andb_true_iff in Hl as [Ha Hl]. cbn [String.append str_cut strip_prefix].
    destruct (decide (c = a)) as [->|]; [by apply bool_decide_eq_true in Ha|]. rewrite IH by done.
    destruct (strip_prefix p t); [done|]. by destruct (str_cut (String c p) t) as [[]|].
Qed.

Lemma str_cut_none c p l : lacks c l = true → str_cut (String c p) l = None.
Proof.
  unfold lacks. induction l as [|a l IH]; intros Hl; [done|]. simpl in Hl. apply andb_true_iff in Hl as [Ha Hl].
  cbn [str_cut strip_prefix]. destruct (decide (c = a)) as [->|]; [by apply bool_decide_eq_true in Ha|]. by rewrite IH.
Qed.

(** A group of lines of which only the first may start with [p]. *)
Definition is_group (p : string) (g : list string) : Prop :=
  match g with
  | [] => False
  | h :: ls => Forall (λ l, lacks "010" l = true) g ∧ Forall (λ l, strip_prefix p l = None) ls
  end.

Lemma group_cut p g r : lacks "010" p = true → is_group p g →
  str_cut (newline +:+ p) (str_join newline g +:+ newline +:+ p +:+ r) = Some (str_join newline g, r) ∧
  str_cut (newline +:+ p) (str_join newline g) = None.
Proof.
  intros Hp Hg. change (newline +:+ p) with (String "010" p). change (newline +:+ p +:+ r) with (String "010" (p +:+ r)).
  destruct g as [|h ls]; [done|]. destruct Hg as [Hl Hn]. revert h Hl. induction Hn as [|l ls Hl Hn IH]; intros h Hh.
  - apply Forall_cons in Hh as [Hh _]. change (str_join newline [h]) with h. split; [|by apply str_cut_none].
    rewrite str_cut_line by done. by rewrite (proj2 (strip_prefix_Some p (p +:+ r) r) eq_refl).
  - apply Forall_cons in Hh as [Hh Hls]. destruct (IH l Hls) as [IH1 IH2].
    change (str_join newline (h :: l :: ls)) with (h +:+ String "010" (str_join newline (l :: ls))).
    assert (∀ e, strip_prefix p (str_join newline (l :: ls) +:+ String "010" e) = None) as Hs.
    { intros e. destruct ls as [|l' ls]; [by apply strip_prefix_lacks|].
      change (str_join newline (l :: l' :: ls)) with (l +:+ String "010" (str_join newline (l' :: ls))).
      rewrite str_app_assoc. by apply strip_prefix_lacks. }
    split.
    + rewrite str_app_assoc. cbn [String.append]. rewrite str_cut_line by done. rewrite Hs, IH1. done.
    + rewrite str_cut_line by done. rewrite IH2.
      destruct (strip_prefix p (str_join newline (l :: ls))) as [x|] eqn:E; [|done].
      apply strip_prefix_Some in E. specialize (Hs ""). rewrite E, str_app_assoc in Hs.
      by rewrite (proj2 (strip_prefix_Some p _ _) eq_refl) in Hs.
Qed.

(** Groups of lines that each start with [p]. *)
Definition join_groups (gs : list (list string)) : string := str_join newline (str_join newline <$> gs).

Lemma scan_groups_go p fuel gs :
  lacks "010" p = true → p ≠ "" → gs ≠ [] →
  Forall (λ g, is_group p g ∧ (∃ r, str_join newline g = p +:+ r) ∧
    (Z.of_nat (String.length (str_join newline g)) + Z.of_nat (String.length (newline +:+ p)) ≤ MaxScanTokenSize)%Z) gs →
  (length gs ≤ fuel)%nat → scan_until fuel 1 (newline +:+ p) (join_groups gs) = str_join newline <$> gs.
Proof.
  intros Hp Hpne Hne Hgs. revert fuel. induction Hgs as [|g gs (Hg & [r Hr] & Hn) Hgs IH]; intros fuel Hf; [done|].
  destruct fuel as [|fuel]; [simpl in Hf; lia|]. cbn [scan_until]. destruct gs as [|g' gs].
  - unfold join_groups. simpl str_join. rewrite decide_False by (rewrite Hr; by destruct p).
    destruct (group_cut p g "" Hp Hg) as [_ ->]. rewrite decide_True; [done|]. rewrite str_length_app in Hn. simpl in Hn. lia.
  - assert (∃ r', join_groups (g' :: gs) = p +:+ r') as [r' Hr'].
    { apply Forall_cons in Hgs as [(_ & [r' Hr'] & _) _]. unfold join_groups. rewrite fmap_cons.
      destruct (str_join newline <$> gs) as [|x l]; simpl str_join; rewrite Hr'; [by exists r'|].
      rewrite str_app_assoc. eauto. }
    assert (join_groups (g :: g' :: gs) = str_join newline g +:+ newline +:+ p +:+ r') as E.
    { rewrite <-Hr'. done. }
    rewrite E, decide_False by (rewrite Hr; by destruct p). destruct (group_cut p g r' Hp Hg) as [-> _].
    rewrite decide_True by done. change (str_drop 1 (newline +:+ p) +:+ r') with (str_drop 0 p +:+ r').
    replace (str_drop 0 p) with p by by destruct p. rewrite <-Hr', IH; [done|done|simpl in Hf |- *; lia].
Qed.

Lemma length_join_groups gs p :
  p ≠ "" → Forall (λ g, ∃ r, str_join newline g = p +:+ r) gs → (length gs ≤ String.length (join_groups gs))%nat.
Proof.
  intros Hp. induction 1 as [|g gs [r Hr] Hgs IH]; [simpl; lia|]. destruct gs as [|g' gs].
  - unfold join_groups. simpl str_join. rewrite Hr, str_length_app. destruct p; [done|]. simpl. lia.
  - change (join_groups (g :: g' :: gs)) with (str_join newline g +:+ newline +:+ join_groups (g' :: gs)).
    rewrite !str_length_app. simpl length in *. change (String.length newline) with 1. lia.
Qed.

Lemma scan_groups p gs :
  lacks "010" p = true → p ≠ "" → gs ≠ [] →
  Forall (λ g, is_group p g ∧ (∃ r, str_join newline g = p +:+ r) ∧
    (Z.of_nat (String.length (str_join newline g)) + Z.of_nat (String.length (newline +:+ p)) ≤ MaxScanTokenSize)%Z) gs →
  scan_sep 1 (newline +:+ p) (join_groups gs) = str_join newline <$> gs.
Proof.
  intros Hp Hpne Hne Hgs. apply scan_groups_go; [done..|].
  pose proof (length_join_groups gs p Hpne) as Hl. specialize (Hl ltac:(eapply Forall_impl; [done|]; by intros ? (?&?&?))). lia.
Qed.
