(* ===== verification/GoPath.v ===== *)
(** * Paths

    The functions of packages [path] and [path/filepath] that the sources use, for paths
    with slashes. *)

From S2P Require Import Prelude GoStrings.
From stdpp Require Import options.

(** The elements of a cleaned path, last first. *)
Definition clean_elem (rooted : bool) (acc : list string) (e : string) : list string :=
  if decide (e = "" ∨ e = ".") then acc
  else if decide (e = "..") then
    match acc with
    | [] => if rooted then [] else [".."]
    | a :: acc' => if decide (a = "..") then ".." :: acc else acc'
    end
  else e :: acc.

Definition path_Clean (p : string) : string :=
  let rooted := has_prefix "/" p in
  let s := str_join "/" (reverse (foldl (clean_elem rooted) [] (str_split "/" p))) in
  if rooted then "/" +:+ s else if decide (s = "") then "." else s.

(** [path.Join] of two elements: empty ones are ignored. *)
Definition path_Join (a b : string) : string :=
  match filter (λ e, e ≠ "") [a; b] with
  | [] => ""
  | l => path_Clean (str_join "/" l)
  end.

(** [filepath.Base]: the last element without trailing slashes. *)
Definition path_base (p : string) : string :=
  if decide (p = "") then "."
  else match filter (λ e, e ≠ "") (str_split "/" p) with
       | [] => "/"
       | l => default "" (last l)
       end.

(** [filepath.Ext]: from the last dot of the last element. *)
Definition path_ext (p : string) : string :=
  match last (str_split "/" p) with
  | Some e => match str_split "." e with
              | [] | [_] => ""
              | l => "." +:+ default "" (last l)
              end
  | None => ""
  end.
