(* ===== verification/GoRegex.v ===== *)
(** * Regular expressions

    The matcher of package [regexp] for the operators that occur in expressions of the
    collector: the leftmost match, and of the matches there the one a backtracking matcher
    tries first (greedy repetition, alternatives in order).  Bytes stand for characters: the
    expressions have classes of ASCII characters and their complements only. *)

From Stdlib Require Import Ascii.
From S2P Require Import Prelude GoStrings GoText.
From stdpp Require Import options.

Module GoRegex.

Inductive re :=
| Chr (P : ascii → bool)
| Seq (a b : re)
| Alt (a b : re)
| Plus (a : re).

(** What is left of [s] after a match at its start, in the order of the attempts. *)
Fixpoint plus_loop (fuel : nat) (f : string → list string) (s : string) : list string :=
  match fuel with
  | O => []
  | S fuel => s' ← f s; (if decide (String.length s' < String.length s) then plus_loop fuel f s' else []) ++ [s']
  end.

Fixpoint matches (r : re) (s : string) : list string :=
  match r with
  | Chr P => match s with String c s' => if P c then [s'] else [] | "" => [] end
  | Seq a b => matches a s ≫= matches b
  | Alt a b => matches a s ++ matches b s
  | Plus a => plus_loop (S (String.length s)) (matches a) s
  end.

Definition match_at (r : re) (s : string) : option string :=
  (λ rest, str_take (String.length s - String.length rest) s) <$> head (matches r s).

(** [Find]: the text of the leftmost match. *)
Fixpoint Find (r : re) (s : string) : option string :=
  match match_at r s with
  | Some w => Some w
  | None => match s with "" => None | String _ s' => Find r s' end
  end.

(** Notation for expressions: literals, digits, blanks. *)
Fixpoint lit (s : string) : re :=
  match s with
  | "" => Chr (λ _, false)
  | String c "" => Chr (λ x, bool_decide (x = c))
  | String c s' => Seq (Chr (λ x, bool_decide (x = c))) (lit s')
  end.
Definition re_digit : re := Chr is_digit.
Definition is_blank (c : ascii) : bool := let n := byte_of c in bool_decide (n = 9 ∨ n = 10 ∨ n = 12 ∨ n = 13 ∨ n = 32)%N.
Definition re_blank : re := Chr is_blank.
Definition re_nonblank : re := Chr (λ c, negb (is_blank c)).
Definition re_any : re := Chr (λ c, bool_decide (c ≠ "010"%char)).

(** ** The words of an expression *)

Inductive lang : re → string → Prop :=
| l_chr P c : P c = true → lang (Chr P) (String c "")
| l_seq a b u v : lang a u → lang b v → lang (Seq a b) (u +:+ v)
| l_left a b u : lang a u → lang (Alt a b) u
| l_right a b u : lang b u → lang (Alt a b) u
| l_one a u : lang a u → lang (Plus a) u
| l_more a u v : lang a u → lang (Plus a) v → lang (Plus a) (u +:+ v).

#[local] Arguments String.append !_ _ / : simpl nomatch.

Lemma lang_nonempty r w : lang r w → w ≠ "".
Proof. induction 1; try done; by destruct u. Qed.

Lemma str_length_pos s : s ≠ "" → 0 < String.length s.
Proof. destruct s; [done|simpl; lia]. Qed.

Lemma plus_loop_sound (a : re) fuel s s' :
  (∀ t t', t' ∈ matches a t → ∃ w, t = w +:+ t' ∧ lang a w) →
  s' ∈ plus_loop fuel (matches a) s → ∃ w, s = w +:+ s' ∧ lang (Plus a) w.
Proof.
  intros Ha. revert s. induction fuel as [|fuel IH]; intros s; [by intros ?%elem_of_nil|]. cbn [plus_loop].
  intros (t & Hin & Ht)%list_elem_of_bind. destruct (Ha _ _ Ht) as (w & -> & Hw).
  apply elem_of_app in Hin as [Hin|Hin%list_elem_of_singleton].
  - case_decide; [|by apply elem_of_nil in Hin]. destruct (IH t Hin) as (w' & -> & Hw'). exists (w +:+ w'). split; [by rewrite str_app_assoc|].
    by apply l_more.
  - subst t. exists w. split; [done|]. by apply l_one.
Qed.

Lemma matches_sound r s s' : s' ∈ matches r s → ∃ w, s = w +:+ s' ∧ lang r w.
Proof.
  revert s s'. induction r as [P|a IHa b IHb|a IHa b IHb|a IHa]; intros s s'; cbn [matches].
  - destruct s as [|c s]; [by intros ?%elem_of_nil|]. destruct (P c) eqn:E; [|by intros ?%elem_of_nil].
    intros ->%list_elem_of_singleton. exists (String c ""). split; [done|]. by apply l_chr.
  - intros (t & Hin & Ht)%list_elem_of_bind. destruct (IHa _ _ Ht) as (u & -> & Hu). destruct (IHb _ _ Hin) as (v & -> & Hv).
    exists (u +:+ v). split; [by rewrite str_app_assoc|]. by apply l_seq.
  - intros [Hin|Hin]%elem_of_app; [destruct (IHa _ _ Hin) as (w & -> & ?)|destruct (IHb _ _ Hin) as (w & -> & ?)];
      exists w; (split; [done|]); [by apply l_left|by apply l_right].
  - apply plus_loop_sound. intros t t'. apply IHa.
Qed.

Lemma matches_complete r w s : lang r w → s ∈ matches r (w +:+ s).
Proof.
  intros Hw. revert s. induction Hw as [P c HP|a b u v Hu IHu Hv IHv|a b u Hu IH|a b u Hu IH|a u Hu IH|a u v Hu IHu Hv IHv]; intros s.
  - simpl. rewrite HP. left.
  - cbn [matches]. apply list_elem_of_bind. exists (v +:+ s). split; [apply IHv|]. rewrite str_app_assoc. apply IHu.
  - cbn [matches]. apply elem_of_app. left. apply IH.
  - cbn [matches]. apply elem_of_app. right. apply IH.
  - cbn [matches plus_loop]. apply list_elem_of_bind. exists s. split; [|apply IH]. apply elem_of_app. right. left.
  - cbn [matches plus_loop]. apply list_elem_of_bind. exists (v +:+ s). split; [|rewrite str_app_assoc; apply IHu].
    apply elem_of_app. left. pose proof (str_length_pos u (lang_nonempty _ _ Hu)). rewrite !str_length_app.
    rewrite decide_True by lia. specialize (IHv s). cbn [matches] in IHv. revert IHv.
    assert (∀ f n n' t x, String.length t < n → n ≤ n' → x ∈ plus_loop n f t → x ∈ plus_loop n' f t) as Hmono.
    { clear. intros f. induction n as [|n IH]; intros n' t x Hn Hle; [by intros ?%elem_of_nil|]. destruct n' as [|n']; [lia|]. cbn [plus_loop].
      rewrite !list_elem_of_bind. intros (t' & Hx & Ht). exists t'. split; [|done]. apply elem_of_app in Hx as [Hx|Hx]; apply elem_of_app; [|by right].
      left. case_decide; [|done]. apply IH; [lia|lia|done]. }
    apply Hmono; rewrite str_length_app; lia.
Qed.

(** [Find] finds the leftmost word, and nothing exactly if there is no word in the text. *)
Theorem Find_correct r s :
  match Find r s with
  | Some w => ∃ a b, s = a +:+ w +:+ b ∧ lang r w ∧ ∀ a' w' b', s = a' +:+ w' +:+ b' → lang r w' → String.length a ≤ String.length a'
  | None => ∀ a w b, s = a +:+ w +:+ b → ¬ lang r w
  end.
Proof.
  assert (∀ s, match match_at r s with
    | Some w => ∃ b, s = w +:+ b ∧ lang r w | None => ∀ w b, s = w +:+ b → ¬ lang r w end) as Hat.
  { clear s. intros s. unfold match_at. destruct (matches r s) as [|t l] eqn:E; simpl.
    - intros w b -> Hw. pose proof (matches_complete r w b Hw) as Hin. rewrite E in Hin. by apply elem_of_nil in Hin.
    - destruct (matches_sound r s t) as (w & -> & Hw); [rewrite E; left|]. exists t. rewrite str_length_app.
      replace (String.length w + String.length t - String.length t) with (String.length w) by lia. by rewrite str_take_app. }
  induction s as [|c s IH]; cbn [Find].
  - specialize (Hat ""). destruct (match_at r "") as [w|].
    + destruct Hat as (b & E & Hw). exists "", b. split_and!; [done..|]. intros. simpl. lia.
    + intros a w b E. apply (Hat w b). destruct a, w, b; done.
  - pose proof (Hat (String c s)) as Hc. destruct (match_at r (String c s)) as [w|].
    + destruct Hc as (b & E & Hw). exists "", b. split_and!; [done..|]. intros. simpl. lia.
    + destruct (Find r s) as [w|].
      * destruct IH as (a & b & -> & Hw & Hmin). exists (String c a), b. split_and!; [done..|].
        intros [|d a'] w' b' E Hw'; [by destruct (Hc w' b' E)|]. simpl in E |- *. injection E as _ E.
        specialize (Hmin a' w' b' E Hw'). lia.
      * intros [|d a] w b E Hw; [by destruct (Hc w b E)|]. simpl in E. injection E as _ E. by apply (IH a w b E).
Qed.

Lemma Find_app r a w b : lang r w → ∃ w', Find r (a +:+ w +:+ b) = Some w'.
Proof.
  intros Hw. pose proof (Find_correct r (a +:+ w +:+ b)) as H. destruct (Find r _) as [w'|]; [by exists w'|].
  by destruct (H a w b eq_refl).
Qed.

End GoRegex.
