(* ===== verification/SafeMap.v ===== *)
(** * The two-level map of the service discovery server

    Models [server/service_discovery/common/safemap/sm.go]: a map from keys to
    maps from subkeys to values, every method of which runs under the mutex and
    is therefore one atomic step.  The specification is a flat map from pairs of
    key and subkey to values; [SafeMap] refines it as long as it holds no empty
    inner map, which every method keeps true. *)

From S2P Require Import Prelude.
From stdpp Require Import options.

Module SafeMap.
Section safemap.
Context {A : Type} `{Ranger}.

Record SafeMap := Mk { name : string; dataMap : gmap string (gmap string A) }.

Implicit Types (sm : SafeMap) (key subKey : string) (value : A).

Definition NewSafeMap (n : string) : SafeMap := Mk n ∅.

Definition Name (sm : SafeMap) : string := name sm.

(** [sm.dataMap[key]] is created first when the key is new. *)
Definition HSet (key subKey : string) (value : A) (sm : SafeMap) : SafeMap :=
  match dataMap sm !! key with
  | Some inner => Mk (name sm) (<[key := <[subKey := value]> inner]> (dataMap sm))
  | None => Mk (name sm) (<[key := <[subKey := value]> ∅]> (dataMap sm))
  end.

Definition HGet (key subKey : string) (sm : SafeMap) : option A :=
  match dataMap sm !! key with
  | Some inner =>
      match inner !! subKey with
      | Some v => Some v
      | None => None
      end
  | None => None
  end.

(** Deleting the last subkey of a key deletes the key. *)
Definition HDel (key subKey : string) (sm : SafeMap) : SafeMap :=
  match dataMap sm !! key with
  | Some inner =>
      match inner !! subKey with
      | Some _ =>
          let inner' := delete subKey inner in
          if decide (size inner' = 0)
          then Mk (name sm) (delete key (<[key := inner']> (dataMap sm)))
          else Mk (name sm) (<[key := inner']> (dataMap sm))
      | None => sm
      end
  | None => sm
  end.

Definition Del (key : string) (sm : SafeMap) : SafeMap :=
  Mk (name sm) (delete key (dataMap sm)).

(** A copy of the inner map, [None] for the nil map returned on an unknown key. *)
Definition Get (key : string) (sm : SafeMap) : option (gmap string A) :=
  match dataMap sm !! key with
  | Some inner =>
      Some (foldl (λ r '(k, v), <[k := v]> r) ∅ (range_kv "SafeMap.Get" inner))
  | None => None
  end.

Definition Keys (sm : SafeMap) : list string :=
  foldl (λ r '(k, _), r ++ [k]) [] (range_kv "SafeMap.Keys" (dataMap sm)).

Definition HKeys (key : string) (sm : SafeMap) : list string :=
  match dataMap sm !! key with
  | Some inner => foldl (λ r '(k, _), r ++ [k]) [] (range_kv "SafeMap.HKeys" inner)
  | None => []
  end.

Definition Len (sm : SafeMap) : nat := size (dataMap sm).

Definition HLen (key : string) (sm : SafeMap) : nat :=
  match dataMap sm !! key with
  | Some inner => size inner
  | None => 0
  end.

(** ** Invariant and abstraction *)

(** No key is mapped to an empty map. *)
Definition wf (sm : SafeMap) : Prop := ∀ k inner, dataMap sm !! k = Some inner → inner ≠ ∅.

(** The flat map a [SafeMap] stands for. *)
Definition flat (sm : SafeMap) : gmap (string * string) A :=
  map_uncurry (M1:=gmap string) (M2:=gmap string) (M12:=gmap (string * string)) (dataMap sm).

Lemma flat_lookup sm key subKey :
  flat sm !! (key, subKey) = dataMap sm !! key ≫= (.!! subKey).
Proof. apply (lookup_map_uncurry (M1:=gmap string) (M2:=gmap string)). Qed.

(** ** Reading *)

Lemma HGet_flat key subKey sm : HGet key subKey sm = flat sm !! (key, subKey).
Proof. rewrite flat_lookup. unfold HGet. by destruct (dataMap sm !! key) as [i|]; simpl; repeat case_match. Qed.

Lemma foldl_snoc_fst {B C} (l : list (B * C)) acc :
  foldl (λ r '(k, _), r ++ [k]) acc l = acc ++ l.*1.
Proof.
  rewrite (foldl_ext _ (λ r x, r ++ [x.1])) by (by intros ? []). apply foldl_snoc_map.
Qed.

Lemma Keys_range sm : Keys sm = (range_kv "SafeMap.Keys" (dataMap sm)).*1.
Proof. unfold Keys. by rewrite foldl_snoc_fst. Qed.

Lemma foldl_insert_lookup (l : list (string * A)) (m : gmap string A) (i : string) :
  NoDup l.*1 →
  foldl (λ r '(k, v), <[k := v]> r) m l !! i =
    match (list_to_map l : gmap string A) !! i with Some v => Some v | None => m !! i end.
Proof.
  revert m. induction l as [|[k v] l IH]; intros m Hnd; [done|].
  cbn [foldl]. inversion Hnd as [|? ? Hk Hnd']; subst. rewrite IH by done. simpl.
  destruct (decide (k = i)) as [->|].
  - rewrite not_elem_of_list_to_map_1 by done. by rewrite !lookup_insert_eq.
  - by rewrite !lookup_insert_ne by done.
Qed.

(** The copy loop of [Get] copies the map. *)
Lemma Get_dataMap key sm : Get key sm = dataMap sm !! key.
Proof.
  unfold Get. destruct (dataMap sm !! key) as [inner|]; [|done]. f_equal.
  apply map_eq. intros i. rewrite foldl_insert_lookup by apply range_kv_NoDup_fst.
  rewrite lookup_empty.
  rewrite (list_to_map_proper _ (map_to_list inner)) by
    (auto using range_kv_NoDup_fst, range_kv_perm).
  rewrite list_to_map_to_list. by destruct (inner !! i).
Qed.

Lemma elem_of_Keys sm k : k ∈ Keys sm ↔ is_Some (dataMap sm !! k).
Proof.
  rewrite Keys_range, list_elem_of_fmap. split.
  - intros ([k' v] & -> & Hin). apply range_kv_elem in Hin. simpl. eauto.
  - intros [v Hv]. exists (k, v). split; [done|]. by apply range_kv_elem.
Qed.

Lemma Keys_NoDup sm : NoDup (Keys sm).
Proof. rewrite Keys_range. apply range_kv_NoDup_fst. Qed.

Lemma elem_of_HKeys sm key k : k ∈ HKeys key sm ↔ is_Some (flat sm !! (key, k)).
Proof.
  rewrite flat_lookup. unfold HKeys. destruct (dataMap sm !! key) as [inner|]; simpl.
  - rewrite foldl_snoc_fst, app_nil_l, list_elem_of_fmap. split.
    + intros ([k' v] & -> & Hin). apply range_kv_elem in Hin. simpl. eauto.
    + intros [v Hv]. exists (k, v). split; [done|]. by apply range_kv_elem.
  - split; [by intros ?%not_elem_of_nil|by intros []].
Qed.

Lemma HKeys_NoDup sm key : NoDup (HKeys key sm).
Proof.
  unfold HKeys. destruct (dataMap sm !! key); [|constructor].
  rewrite foldl_snoc_fst. apply range_kv_NoDup_fst.
Qed.

(** ** Writing *)

Lemma HSet_dataMap key subKey value sm :
  dataMap (HSet key subKey value sm) =
    <[key := <[subKey := value]> (default ∅ (dataMap sm !! key))]> (dataMap sm).
Proof. unfold HSet. by destruct (dataMap sm !! key). Qed.

Lemma HDel_lookup key subKey sm k :
  wf sm →
  dataMap (HDel key subKey sm) !! k =
    if decide (k = key) then
      match dataMap sm !! key with
      | Some inner =>
          if decide (delete subKey inner = ∅) then None else Some (delete subKey inner)
      | None => None
      end
    else dataMap sm !! k.
Proof.
  intros Hwf. unfold HDel. destruct (dataMap sm !! key) as [inner|] eqn:E.
  - destruct (inner !! subKey) as [v|] eqn:Ev.
    + case_decide as Hs.
      * apply map_size_empty_inv in Hs. simpl. rewrite delete_insert_eq.
        rewrite lookup_delete. repeat case_decide; simplify_eq; done.
      * simpl. rewrite lookup_insert. repeat case_decide; simplify_eq; try done.
        destruct Hs. match goal with He : delete _ _ = ∅ |- _ => rewrite He end.
        apply map_size_empty.
    + rewrite (delete_id inner) by done. repeat case_decide; subst; [|done|done].
      by destruct (Hwf key ∅).
  - repeat case_decide; subst; done.
Qed.

Lemma wf_NewSafeMap n : wf (NewSafeMap n).
Proof. intros k inner. simpl. by rewrite lookup_empty. Qed.

Lemma wf_HSet key subKey value sm : wf sm → wf (HSet key subKey value sm).
Proof.
  intros Hwf k inner. rewrite HSet_dataMap, lookup_insert. case_decide; [|apply Hwf].
  intros [= <-]. apply insert_non_empty.
Qed.

Lemma wf_HDel key subKey sm : wf sm → wf (HDel key subKey sm).
Proof.
  intros Hwf k inner. rewrite HDel_lookup by done. case_decide; [|apply Hwf].
  destruct (dataMap sm !! key); [|done]. case_decide; naive_solver.
Qed.

Lemma wf_Del key sm : wf sm → wf (Del key sm).
Proof.
  intros Hwf k inner. simpl. rewrite lookup_delete. case_decide; [done|apply Hwf].
Qed.

Lemma flat_HSet key subKey value sm :
  flat (HSet key subKey value sm) = <[(key, subKey) := value]> (flat sm).
Proof.
  apply map_eq. intros [k j]. rewrite flat_lookup, HSet_dataMap, !lookup_insert.
  destruct (decide (key = k)) as [->|].
  - simpl. rewrite lookup_insert. destruct (decide (subKey = j)) as [->|].
    + by rewrite decide_True.
    + rewrite decide_False by congruence. rewrite flat_lookup.
      by destruct (dataMap sm !! k); simpl; rewrite ?lookup_empty.
  - rewrite decide_False by congruence. by rewrite flat_lookup.
Qed.

Lemma flat_HDel key subKey sm :
  wf sm → flat (HDel key subKey sm) = delete (key, subKey) (flat sm).
Proof.
  intros Hwf. apply map_eq. intros [k j].
  rewrite flat_lookup, HDel_lookup, lookup_delete by done.
  destruct (decide (k = key)) as [->|].
  - assert ((if decide ((key, subKey) = (key, j)) then None else flat sm !! (key, j)) =
        default ∅ (delete subKey <$> dataMap sm !! key) !! j) as ->.
    { rewrite flat_lookup. destruct (dataMap sm !! key) as [inner|]; simpl.
      - rewrite lookup_delete. repeat case_decide; naive_solver.
      - rewrite lookup_empty. by case_decide. }
    destruct (dataMap sm !! key) as [inner|]; simpl; [|by rewrite lookup_empty].
    case_decide as He; simpl; [by rewrite He, lookup_empty|done].
  - rewrite decide_False by congruence. by rewrite flat_lookup.
Qed.

Lemma flat_Del key sm k j :
  flat (Del key sm) !! (k, j) = if decide (k = key) then None else flat sm !! (k, j).
Proof.
  rewrite !flat_lookup. simpl. rewrite lookup_delete.
  repeat case_decide; subst; try congruence; done.
Qed.

Lemma flat_NewSafeMap n : flat (NewSafeMap n) = ∅.
Proof. apply map_eq. intros [k j]. by rewrite flat_lookup. Qed.

(** On well-formed maps, the keys are the keys of the flat map. *)
Lemma elem_of_Keys_flat sm k :
  wf sm → k ∈ Keys sm ↔ ∃ j, is_Some (flat sm !! (k, j)).
Proof.
  intros Hwf. rewrite elem_of_Keys. setoid_rewrite flat_lookup. split.
  - intros [inner Hi]. destruct (map_choose inner) as (j & v & Hj); [eauto|].
    exists j. rewrite Hi. eauto.
  - intros (j & v & Hv). by destruct (dataMap sm !! k).
Qed.

(** A well-formed map is determined by the flat map it stands for. *)
Lemma flat_inj sm sm' :
  wf sm → wf sm' → flat sm = flat sm' → dataMap sm = dataMap sm'.
Proof.
  intros Hwf Hwf' Heq. apply map_eq. intros k.
  assert (∀ j, dataMap sm !! k ≫= (.!! j) = dataMap sm' !! k ≫= (.!! j)) as Hl.
  { intros j. by rewrite <- !flat_lookup, Heq. }
  destruct (dataMap sm !! k) as [i|] eqn:E, (dataMap sm' !! k) as [i'|] eqn:E'; simpl in Hl.
  - f_equal. by apply map_eq.
  - destruct (map_choose i) as (j & v & Hj); [eauto|]. by rewrite Hl in Hj.
  - destruct (map_choose i') as (j & v & Hj); [eauto|]. by rewrite <- Hl in Hj.
  - done.
Qed.

Lemma HLen_flat sm key :
  HLen key sm = length (HKeys key sm).
Proof.
  unfold HLen, HKeys. destruct (dataMap sm !! key); [|done].
  rewrite foldl_snoc_fst. simpl. by rewrite length_fmap, range_kv_length.
Qed.

(** ** Histories of calls

    The state-changing methods as data, to state the refinement for a whole
    history of calls. *)
Inductive call :=
| CHSet (key subKey : string) (value : A)
| CHDel (key subKey : string)
| CDel (key : string).

Definition exec (c : call) (sm : SafeMap) : SafeMap :=
  match c with
  | CHSet k j v => HSet k j v sm
  | CHDel k j => HDel k j sm
  | CDel k => Del k sm
  end.

(** The same calls on the specification. *)
Definition spec_exec (c : call) (m : gmap (string * string) A) : gmap (string * string) A :=
  match c with
  | CHSet k j v => <[(k, j) := v]> m
  | CHDel k j => delete (k, j) m
  | CDel k => filter (λ '((k', _), _), k' ≠ k) m
  end.

Lemma exec_wf c sm : wf sm → wf (exec c sm).
Proof. destruct c; simpl; auto using wf_HSet, wf_HDel, wf_Del. Qed.

Lemma exec_flat c sm : wf sm → flat (exec c sm) = spec_exec c (flat sm).
Proof.
  intros Hwf. destruct c as [k j v|k j|k]; simpl; [apply flat_HSet|by apply flat_HDel|].
  apply map_eq. intros [k' j']. rewrite flat_Del, map_lookup_filter.
  case_decide as Hk; subst.
  - destruct (flat sm !! (k, j')); simpl; [|done]. by case_guard.
  - destruct (flat sm !! (k', j')); simpl; [|done]. by case_guard.
Qed.

(** [C10] Refinement of the flat-map specification: after any history of calls on
    a new [SafeMap], [HGet], [Get], [Keys], [HKeys], [HLen] and [Len] answer what
    the flat map obtained by the same history prescribes, whatever order the
    iterations of the runtime take. *)
Theorem safemap_refines (n : string) (h : list call) :
  let sm := foldl (flip exec) (NewSafeMap n) h in
  let m := foldl (flip spec_exec) ∅ h in
  wf sm ∧
  (∀ k j, HGet k j sm = m !! (k, j)) ∧
  (∀ k, match Get k sm with
        | Some inner => inner ≠ ∅ ∧ ∀ j, inner !! j = m !! (k, j)
        | None => ∀ j, m !! (k, j) = None
        end) ∧
  (∀ k, k ∈ Keys sm ↔ ∃ j, is_Some (m !! (k, j))) ∧
  (∀ k j, j ∈ HKeys k sm ↔ is_Some (m !! (k, j))) ∧
  (∀ k, HLen k sm = length (HKeys k sm) ∧ NoDup (HKeys k sm)) ∧
  Len sm = length (Keys sm) ∧ NoDup (Keys sm).
Proof.
  intros sm m.
  assert (wf sm ∧ flat sm = m) as [Hwf Hm].
  { subst sm m. rewrite <- (flat_NewSafeMap n). generalize (wf_NewSafeMap n).
    generalize (NewSafeMap n). induction h as [|c h IH]; intros s Hs; simpl; [done|].
    rewrite <- exec_flat by done. apply IH. by apply exec_wf. }
  rewrite <- Hm. repeat split; auto using HKeys_NoDup, Keys_NoDup, HLen_flat, HGet_flat.
  - intros k. rewrite Get_dataMap. destruct (dataMap sm !! k) as [inner|] eqn:E.
    + split; [by eapply Hwf|]. intros j. by rewrite flat_lookup, E.
    + intros j. by rewrite flat_lookup, E.
  - by apply elem_of_Keys_flat.
  - by apply elem_of_Keys_flat.
  - by apply elem_of_HKeys.
  - by apply elem_of_HKeys.
  - unfold Len. by rewrite Keys_range, length_fmap, range_kv_length.
Qed.

End safemap.
Arguments SafeMap A : clear implicits.
Arguments call A : clear implicits.
End SafeMap.

#[export] Hint Resolve SafeMap.wf_NewSafeMap SafeMap.wf_HSet SafeMap.wf_HDel SafeMap.wf_Del : go.
