(* ===== verification/Cluster.v ===== *)
(** * Cluster membership of the service discovery server

    Models [server/service_discovery/cluster/cluster.go] (the [Cluster]
    interface and [BaseCluster]) and [use_config.go] ([ConfigCluster], whose
    members come from the configuration file), with the notification channel of
    [common/init.go].  The Go interface is the class [Cluster]: its laws are what
    the endpoint relies on, and [ConfigCluster] is an instance of it. *)

From S2P Require Import Prelude SafeMap.
From stdpp Require Import options.

(** ** The interface *)

Class Cluster (C : Type) := {
  GetHost : C → string;
  GetHosts : C → list string;
  GetOtherHosts : C → list string;
  (** No host is listed twice. *)
  GetHosts_NoDup : ∀ c, NoDup (GetHosts c);
  GetOtherHosts_NoDup : ∀ c, NoDup (GetOtherHosts c);
  (** The other hosts are the hosts but this one. *)
  GetOtherHosts_spec : ∀ c h, h ∈ GetOtherHosts c ↔ h ∈ GetHosts c ∧ h ≠ GetHost c;
}.

Definition defaultClusterName : string := "FindYou".
Definition configMode : Z := 0.

(** [pingUrl] and [syncUrl] with the host filled in. *)
Definition pingUrl (host : string) : string := "http://" +:+ host +:+ "/endpoint/ping".

Module BaseCluster.
Section base.
Context `{Ranger}.

(** [Done] tells whether the channel [Done] has been closed. *)
Record BaseCluster := Mk {
  Mode : Z;
  Host : string;
  Members : SafeMap.SafeMap string;
  Done : bool;
}.

Definition GetHost (bc : BaseCluster) : string := Host bc.

Definition GetHosts (bc : BaseCluster) : list string :=
  foldl (λ hosts host, hosts ++ [host]) [] (SafeMap.HKeys defaultClusterName (Members bc)).

Definition GetOtherHosts (bc : BaseCluster) : list string :=
  foldl (λ hosts host, if decide (host ≠ Host bc) then hosts ++ [host] else hosts) []
    (SafeMap.HKeys defaultClusterName (Members bc)).

(** The URLs requested by one round of the ping loop; a failed request is only
    logged. *)
Definition ping (bc : BaseCluster) : list string :=
  foldl (λ urls host, if decide (host = Host bc) then urls else urls ++ [pingUrl host]) []
    (SafeMap.HKeys defaultClusterName (Members bc)).

(** Closing a closed channel panics. *)
Definition Stop (bc : BaseCluster) : outcome BaseCluster :=
  if Done bc then Panic "close of closed channel"
  else Ret (Mk (Mode bc) (Host bc) (Members bc) true).

(** ** [ConfigCluster] *)

Definition NewConfigCluster (host : string) : BaseCluster :=
  Mk configMode host (SafeMap.NewSafeMap defaultClusterName) false.

(** One notification taken by the refresh loop: [members] is what
    [Cluster.Members] of the configuration holds at that time. *)
Definition refresh (changed : bool) (members : list string) (cc : BaseCluster) : BaseCluster :=
  if changed then
    let cleared := SafeMap.Del defaultClusterName (Members cc) in
    let filled := foldl (λ sm host, SafeMap.HSet defaultClusterName host "ok" sm) cleared members in
    Mk (Mode cc) (Host cc) filled (Done cc)
  else cc.

(** ** Lemmas *)

Lemma GetHosts_HKeys bc : GetHosts bc = SafeMap.HKeys defaultClusterName (Members bc).
Proof.
  unfold GetHosts. by rewrite (foldl_snoc_map id), list_fmap_id.
Qed.

Lemma GetOtherHosts_filter bc :
  GetOtherHosts bc = filter (λ h, h ≠ Host bc) (GetHosts bc).
Proof.
  rewrite GetHosts_HKeys. unfold GetOtherHosts.
  rewrite (foldl_snoc_filter (λ h, h ≠ Host bc) id). by rewrite list_fmap_id.
Qed.

Lemma ping_filter bc : ping bc = pingUrl <$> filter (λ h, h ≠ Host bc) (GetHosts bc).
Proof.
  rewrite GetHosts_HKeys. unfold ping.
  generalize (SafeMap.HKeys defaultClusterName (Members bc)) as l. intros l.
  rewrite <- (app_nil_l (_ <$> _)), <- foldl_snoc_filter. apply foldl_ext.
  intros acc h. by repeat case_decide.
Qed.

Lemma refresh_members members cc h :
  is_Some (SafeMap.flat (Members (refresh true members cc)) !! (defaultClusterName, h)) ↔
  h ∈ members.
Proof.
  simpl. set (f := foldl _).
  assert (∀ sm, is_Some (SafeMap.flat (f sm members) !! (defaultClusterName, h)) ↔
    h ∈ members ∨ is_Some (SafeMap.flat sm !! (defaultClusterName, h))) as Hf.
  { subst f. induction members as [|x l IH]; intros sm; simpl.
    - split; [by right|]. by intros [?%not_elem_of_nil|?].
    - rewrite IH, SafeMap.flat_HSet, lookup_insert, elem_of_cons.
      case_decide; [|naive_solver]. simplify_eq. naive_solver. }
  rewrite Hf, SafeMap.flat_Del. rewrite decide_True by done. split; [|by left].
  by intros [?|[]].
Qed.

#[export] Program Instance base_cluster : Cluster BaseCluster := {|
  Cluster.GetHost := GetHost;
  Cluster.GetHosts := GetHosts;
  Cluster.GetOtherHosts := GetOtherHosts;
|}.
Next Obligation. intros c. rewrite GetHosts_HKeys. apply SafeMap.HKeys_NoDup. Qed.
Next Obligation.
  intros c. rewrite GetOtherHosts_filter, GetHosts_HKeys.
  apply NoDup_filter, SafeMap.HKeys_NoDup.
Qed.
Next Obligation.
  intros c h. rewrite GetOtherHosts_filter, list_elem_of_filter. unfold GetHost. tauto.
Qed.

(** After a configuration change the cluster is exactly the configured
    membership: the listed hosts are the configured ones, each once; the hosts
    messages are sent to, and the hosts pinged, are all of them but this one.  A
    notification that reports no change leaves the membership as it was. *)
Theorem refresh_membership (members : list string) (cc : BaseCluster) :
  let cc' := refresh true members cc in
  (∀ h, h ∈ GetHosts cc' ↔ h ∈ members) ∧ NoDup (GetHosts cc') ∧
  (∀ h, h ∈ GetOtherHosts cc' ↔ h ∈ members ∧ h ≠ Host cc) ∧
  ping cc' = pingUrl <$> GetOtherHosts cc' ∧
  refresh false members cc = cc.
Proof.
  intros cc'.
  assert (∀ h, h ∈ GetHosts cc' ↔ h ∈ members) as Hh.
  { intros h. rewrite GetHosts_HKeys, SafeMap.elem_of_HKeys. apply refresh_members. }
  split; [done|]. split; [rewrite GetHosts_HKeys; apply SafeMap.HKeys_NoDup|].
  split; [|split; [|done]].
  - intros h. rewrite GetOtherHosts_filter, list_elem_of_filter, Hh. simpl. tauto.
  - by rewrite ping_filter, GetOtherHosts_filter.
Qed.

End base.
End BaseCluster.

(** ** The change notification of [common/init.go] *)

(** [ConfigChangeNotify] has room for one notification; a change that comes while
    one is pending adds none. *)
Definition configNotify (c : chan bool) : chan bool := send_or_drop true c.
