(* ===== verification/Fetch.v ===== *)
(** * Selection of instances by the service discovery server

    Models [server/service_discovery/endpoint/utils.go]: the three fetch
    algorithms that pick [n] of the registered instances of a service.
    [sort.Sort] promises a sorted rearrangement and no particular order of equal
    scores, so it is any function with these two laws (class [GoSort]); the
    generator of random numbers is the list of the numbers it draws. *)

From stdpp Require Import sorting.
From S2P Require Import Prelude.
From stdpp Require Import options.

Record Item (D : Type) := mkItem { Score : Z; Data : D }.
Arguments mkItem {D} _ _.
Arguments Score {D} _.
Arguments Data {D} _.

(** [ItemList.Less(i, j)] on the items at [i] and [j]. *)
Definition Less {D} (a b : Item D) : bool := bool_decide (Score a < Score b)%Z.

(** [a] may stand before [b] in a sorted list: not [Less(b, a)]. *)
Definition not_after {D} (a b : Item D) : Prop := Less b a = false.

Class GoSort (D : Type) := {
  sort_Sort : list (Item D) → list (Item D);
  sort_Sort_perm : ∀ l, sort_Sort l ≡ₚ l;
  sort_Sort_sorted : ∀ l, StronglySorted not_after (sort_Sort l);
}.

(** Merge sort is one such function. *)
#[export] Instance Less_total {D} : RelDecision (@not_after D).
Proof. intros a b. unfold not_after. apply _. Defined.

#[export] Program Instance merge_go_sort {D} : GoSort D := {| sort_Sort := merge_sort not_after |}.
Next Obligation. intros. apply merge_sort_Permutation. Qed.
Next Obligation.
  intros D l. apply StronglySorted_merge_sort.
  - intros a b c. unfold not_after, Less. rewrite !bool_decide_eq_false. lia.
  - intros a b. unfold not_after, Less. rewrite !bool_decide_eq_false. lia.
Qed.

(** A fetch returns [None] when the draws it is given run out before it is done
    (only [FetchRandomN] draws), and panics where the code would. *)
Definition FetchAlgorithm (D : Type) := list (Item D) → Z → outcome (option (list (Item D))).

Section fetch.
Context {D : Type} `{GoSort D}.
Implicit Types (items : list (Item D)) (n : Z).

(** The loop [for i, item := range items { if i >= n { break }; r = append(r, item) }]. *)
Fixpoint min_loop (i : Z) (n : Z) (items r : list (Item D)) : list (Item D) :=
  match items with
  | [] => r
  | item :: rest => if decide (i >= n)%Z then r else min_loop (i + 1) n rest (r ++ [item])
  end.

Definition FetchMinN (items : list (Item D)) (n : Z) : list (Item D) :=
  if decide (length items = 0) then []
  else min_loop 0 n (sort_Sort items) [].

(** The loop [for i := len(items)-1; i >= 0; i-- { if i >= n { break }; ... }],
    [i] counting down from [k - 1]. *)
Fixpoint max_loop (k : nat) (n : Z) (items r : list (Item D)) : list (Item D) :=
  match k with
  | 0 => r
  | S i =>
      if decide (Z.of_nat i >= n)%Z then r
      else match items !! i with
           | Some item => max_loop i n items (r ++ [item])
           | None => r
           end
  end.

Definition FetchMaxN (items : list (Item D)) (n : Z) : list (Item D) :=
  if decide (length items = 0) then []
  else let items := sort_Sort items in max_loop (length items) n items [].

(** The loop of [GenRandomNumbers].  [draws] are the successive results of
    [r.Int31n(int32(end-begin))]; [Int31n] panics on an argument that is not
    positive. *)
Fixpoint gen_loop (draws : list Z) (begin end_ count : Z) (nums : list Z) (qcMap : gset Z)
    : outcome (option (list Z)) :=
  if decide (Z.of_nat (length nums) < count)%Z then
    if decide (int32 (end_ - begin) ≤ 0)%Z then Panic "invalid argument to Int31n"
    else
      match draws with
      | [] => Ret None
      | d :: draws =>
          let num := (d + begin)%Z in
          if decide (num ∈ qcMap) then gen_loop draws begin end_ count nums qcMap
          else gen_loop draws begin end_ count (nums ++ [num]) ({[num]} ∪ qcMap)
      end
  else Ret (Some nums).

Definition GenRandomNumbers (draws : list Z) (begin end_ count : Z) : outcome (option (list Z)) :=
  if decide (end_ < begin ∨ end_ - begin < count)%Z then Ret (Some [])
  else gen_loop draws begin end_ count [] ∅.

(** Indexing out of range panics. *)
Fixpoint pick (items : list (Item D)) (nums : list Z) (r : list (Item D)) : outcome (list (Item D)) :=
  match nums with
  | [] => Ret r
  | i :: nums =>
      match items !! Z.to_nat i with
      | Some item => if decide (i < 0)%Z then Panic "index out of range"
                     else pick items nums (r ++ [item])
      | None => Panic "index out of range"
      end
  end.

Definition FetchRandomN (draws : list Z) (items : list (Item D)) (n : Z)
    : outcome (option (list (Item D))) :=
  if decide (Z.of_nat (length items) ≤ n)%Z then Ret (Some items)
  else
    let! nums := GenRandomNumbers draws 0 (Z.of_nat (length items)) n in
    match nums with
    | None => Ret None
    | Some nums => let! r := pick items nums [] in Ret (Some r)
    end.

(** ** [FetchMinN] *)

Lemma min_loop_take i n items r :
  (0 ≤ i)%Z → min_loop i n items r = r ++ take (Z.to_nat (n - i)) items.
Proof.
  revert i r. induction items as [|x items IH]; intros i r Hi; simpl.
  - by rewrite take_nil, app_nil_r.
  - case_decide.
    + replace (Z.to_nat (n - i)) with 0 by lia. by rewrite app_nil_r.
    + rewrite IH by lia. replace (Z.to_nat (n - i)) with (S (Z.to_nat (n - (i + 1)))) by lia.
      simpl. by rewrite <- app_assoc.
Qed.

Lemma FetchMinN_take items n :
  FetchMinN items n = take (Z.to_nat n) (sort_Sort items).
Proof.
  unfold FetchMinN. case_decide as Hl.
  - apply nil_length_inv in Hl as ->.
    pose proof (sort_Sort_perm []) as Hp. apply Permutation_nil_r in Hp as ->.
    by rewrite take_nil.
  - by rewrite min_loop_take, Z.sub_0_r by lia.
Qed.

(** [FetchMinN] returns the [n] lowest-weighted instances: the number asked
    for or all there are, in ascending order, and none left out weighs less than
    one returned.  A count that is not positive gives none. *)
Lemma FetchMinN_lowest (items : list (Item D)) (n : Z) :
  let r := FetchMinN items n in
  length r = min (Z.to_nat n) (length items) ∧
  StronglySorted not_after r ∧
  ∃ rest, r ++ rest ≡ₚ items ∧ ∀ a b, a ∈ r → b ∈ rest → (Score a ≤ Score b)%Z.
Proof.
  intros r. subst r. rewrite FetchMinN_take.
  pose proof (sort_Sort_perm items) as Hp. pose proof (sort_Sort_sorted items) as Hs.
  split; [by rewrite length_take, Hp|].
  rewrite <- (take_drop (Z.to_nat n) (sort_Sort items)) in Hs.
  split; [by eapply StronglySorted_app_1_l|].
  exists (drop (Z.to_nat n) (sort_Sort items)). split; [by rewrite take_drop|].
  intros a b Ha Hb. eapply StronglySorted_app_1_elem_of in Hs; [|done..].
  unfold not_after, Less in Hs. apply bool_decide_eq_false in Hs. lia.
Qed.

(** ** [FetchMaxN] *)

Lemma max_loop_all k n items r :
  k ≤ length items → (Z.of_nat k ≤ n)%Z →
  max_loop k n items r = r ++ reverse (take k items).
Proof.
  revert r. induction k as [|k IH]; intros r Hk Hn; simpl.
  - by rewrite app_nil_r.
  - rewrite decide_False by lia.
    destruct (lookup_lt_is_Some_2 items k) as [x Hx]; [lia|]. rewrite Hx.
    rewrite IH by lia. rewrite (take_S_r _ _ _ Hx), reverse_snoc.
    by rewrite <- app_assoc.
Qed.

Lemma StronglySorted_reverse {A} (R : relation A) (l : list A) :
  StronglySorted R l → StronglySorted (flip R) (reverse l).
Proof.
  induction 1 as [|x l Hl IH Hx]; [constructor|].
  rewrite reverse_cons. apply StronglySorted_app. rewrite Forall_forall in Hx.
  split_and!; [|done|repeat constructor].
  intros a b Ha ->%list_elem_of_singleton.
  rewrite elem_of_reverse in Ha. by apply Hx.
Qed.

(** The loop stops at once when the highest index is not below [n]. *)
Lemma FetchMaxN_unfold items n :
  FetchMaxN items n = if decide (Z.of_nat (length items) ≤ n)%Z then reverse (sort_Sort items) else [].
Proof.
  unfold FetchMaxN. pose proof (sort_Sort_perm items) as Hp.
  assert (length (sort_Sort items) = length items) as Hl by by rewrite Hp.
  destruct (decide (length items = 0)) as [H0|H0].
  - rewrite H0 in Hl. apply nil_length_inv in Hl as ->. by case_decide.
  - rewrite Hl. case_decide.
    + rewrite max_loop_all by lia. simpl. rewrite take_ge by lia. done.
    + destruct (length items) as [|k]; [done|]. simpl. by rewrite decide_True by lia.
Qed.

(** What [FetchMaxN] returns: everything in descending order when at least
    as many instances are asked for as there are, and nothing at all when there
    are more instances than asked for.  (The loop counts down from the highest
    index and stops at the first index that is not below [n].) *)
Theorem FetchMaxN_behaviour (items : list (Item D)) (n : Z) :
  let r := FetchMaxN items n in
  if decide (Z.of_nat (length items) ≤ n)%Z
  then r ≡ₚ items ∧ StronglySorted (λ a b, not_after b a) r
  else r = [].
Proof.
  intros r. subst r. rewrite FetchMaxN_unfold. case_decide; [|done].
  split; [by rewrite reverse_Permutation, sort_Sort_perm|].
  apply StronglySorted_reverse, sort_Sort_sorted.
Qed.

(** Neither algorithm invents an instance or returns more than asked for. *)
Lemma FetchMaxN_sub items n :
  FetchMaxN items n ⊆+ items ∧ length (FetchMaxN items n) ≤ Z.to_nat n.
Proof.
  rewrite FetchMaxN_unfold. case_decide.
  - rewrite reverse_Permutation, sort_Sort_perm. split; [done|lia].
  - split; [apply submseteq_nil_l|simpl; lia].
Qed.

Lemma FetchMinN_sub items n :
  FetchMinN items n ⊆+ items ∧ length (FetchMinN items n) ≤ Z.to_nat n.
Proof.
  rewrite FetchMinN_take, length_take. split; [|lia].
  rewrite <- (sort_Sort_perm items) at 2. apply sublist_submseteq, sublist_take.
Qed.

(** ** [FetchRandomN] *)

(** The numbers of [nums] are distinct, in range, and recorded in [qcMap]. *)
Definition gen_inv (begin end_ : Z) (nums : list Z) (qcMap : gset Z) : Prop :=
  NoDup nums ∧ (∀ x, x ∈ nums ↔ x ∈ qcMap) ∧ (∀ x, x ∈ nums → (begin ≤ x < end_)%Z).

Lemma gen_inv_snoc begin end_ nums qcMap d :
  gen_inv begin end_ nums qcMap → (0 ≤ d < end_ - begin)%Z → (d + begin)%Z ∉ qcMap →
  gen_inv begin end_ (nums ++ [(d + begin)%Z]) ({[(d + begin)%Z]} ∪ qcMap).
Proof.
  intros (Hnd & Hq & Hr) Hd Hn. split_and!.
  - apply NoDup_app. split_and!; [done|set_solver|apply NoDup_singleton].
  - set_solver.
  - intros x [?| ->%list_elem_of_singleton]%elem_of_app; [auto|lia].
Qed.

(** What the loop returns, given enough distinct draws. *)
Lemma gen_loop_spec draws begin end_ count nums qcMap :
  (0 < count → 0 < int32 (end_ - begin))%Z →
  Forall (λ d, 0 ≤ d < end_ - begin)%Z draws →
  gen_inv begin end_ nums qcMap → (Z.of_nat (length nums) ≤ Z.max 0 count)%Z →
  (count ≤ Z.of_nat (size (list_to_set ((λ d, d + begin)%Z <$> draws) ∪ qcMap)))%Z →
  ∃ out, gen_loop draws begin end_ count nums qcMap = Ret (Some out) ∧
    NoDup out ∧ Z.of_nat (length out) = Z.max 0 count ∧
    ∀ x, x ∈ out → (begin ≤ x < end_)%Z.
Proof.
  intros Hpos. revert nums qcMap.
  induction draws as [|d draws IH]; intros nums qcMap Hd Hinv Hlen Hsz.
  - assert (Z.of_nat (length nums) = Z.max 0 count) as Heq.
    { destruct Hinv as (Hnd & Hq & _). simpl in Hsz. rewrite union_empty_l_L in Hsz.
      assert (qcMap = list_to_set nums) as -> by set_solver.
      rewrite size_list_to_set in Hsz by done. lia. }
    simpl. rewrite decide_False by lia. destruct Hinv as (? & ? & ?). eauto.
  - apply Forall_cons in Hd as [Hd Hds]. cbn [gen_loop].
    destruct (decide (Z.of_nat (length nums) < count)%Z).
    + rewrite decide_False by lia. destruct (decide _) as [Hin|Hin].
      * apply IH; [done..|]. simpl in Hsz.
        replace (_ ∪ qcMap) with (list_to_set ((λ d, d + begin)%Z <$> draws) ∪ qcMap : gset Z)
          in Hsz by set_solver. done.
      * apply IH; [done|by apply gen_inv_snoc|rewrite length_app; simpl; lia|].
        etrans; [exact Hsz|]. apply Nat2Z.inj_le, subseteq_size. set_solver.
    + destruct Hinv as (? & ? & ?). eexists. split_and!; [done|done|lia|done].
Qed.

Lemma pick_spec items nums r :
  (∀ i, i ∈ nums → 0 ≤ i < Z.of_nat (length items))%Z →
  ∃ out, pick items nums r = Ret (r ++ out) ∧
    Forall2 (λ i x, items !! Z.to_nat i = Some x) nums out.
Proof.
  revert r. induction nums as [|i nums IH]; intros r Hi; simpl.
  - exists []. rewrite app_nil_r. auto using Forall2_nil.
  - destruct (lookup_lt_is_Some_2 items (Z.to_nat i)) as [x Hx].
    { specialize (Hi i). set_solver by lia. }
    rewrite Hx, decide_False by (specialize (Hi i); set_solver by lia).
    destruct (IH (r ++ [x])) as (out & -> & Hout); [set_solver|].
    exists (x :: out). rewrite <- app_assoc. auto using Forall2_cons.
Qed.

Lemma omap_seq_lookup (items : list (Item D)) :
  omap (λ i, items !! i) (seq 0 (length items)) = items.
Proof.
  induction items as [|x items IH] using rev_ind; [done|].
  rewrite length_app, Nat.add_1_r, seq_S, omap_app. simpl.
  rewrite lookup_app_r, Nat.sub_diag by lia. simpl. f_equal.
  rewrite <- IH at 2. apply list_omap_ext, Forall_Forall2_diag, Forall_forall.
  intros i Hi%elem_of_seq. by rewrite lookup_app_l by lia.
Qed.

(** Distinct indices select a sub-multiset. *)
Lemma omap_lookup_submseteq (items : list (Item D)) (idx : list nat) :
  NoDup idx → (∀ i, i ∈ idx → i < length items) → omap (λ i, items !! i) idx ⊆+ items.
Proof.
  intros Hnd Hlt.
  trans (omap (λ i, items !! i) (seq 0 (length items))); [|by rewrite omap_seq_lookup].
  assert (idx ⊆+ seq 0 (length items)) as [k Hk]%submseteq_Permutation.
  { apply NoDup_submseteq; [done|]. intros i Hi. apply elem_of_seq.
    specialize (Hlt i Hi). lia. }
  rewrite Hk, omap_app. apply submseteq_inserts_r, reflexivity.
Qed.

Lemma pick_submseteq (items : list (Item D)) (nums : list Z) (out : list (Item D)) :
  NoDup nums → (∀ i, i ∈ nums → 0 ≤ i < Z.of_nat (length items))%Z →
  Forall2 (λ i x, items !! Z.to_nat i = Some x) nums out → out ⊆+ items.
Proof.
  intros Hnd Hr HF.
  assert (out = omap (λ i, items !! i) (Z.to_nat <$> nums)) as ->.
  { clear Hnd Hr. induction HF as [|i x nums out Hx HF IH]; simpl; [done|].
    by rewrite Hx, IH. }
  apply omap_lookup_submseteq.
  - apply NoDup_fmap_2_strong; [|done]. intros x y Hx%Hr Hy%Hr ?. lia.
  - intros i (j & -> & Hj%Hr)%list_elem_of_fmap. lia.
Qed.

(** [FetchRandomN] terminates and returns the right number of instances: if
    the generator yields, among numbers in range, as many distinct ones as are
    asked for, the call returns [min n len] of the instances, no instance twice.
    It returns all of them, with no draw, when [n] covers them, and none for a
    negative count; in no case does it panic. *)
Theorem FetchRandomN_sample (draws : list Z) (items : list (Item D)) (n : Z)
    (Hlen : (Z.of_nat (length items) < 2 ^ 31)%Z)
    (Hrange : Forall (λ d, 0 ≤ d < Z.of_nat (length items))%Z draws)
    (Hdist : (n < Z.of_nat (length items) →
             n ≤ Z.of_nat (size (list_to_set draws : gset Z)))%Z) :
  ∃ r, FetchRandomN draws items n = Ret (Some r) ∧
    length r = min (Z.to_nat n) (length items) ∧ r ⊆+ items.
Proof.
  unfold FetchRandomN. case_decide as Hn.
  - exists items. split_and!; [done|lia|done].
  - unfold GenRandomNumbers. rewrite decide_False by lia.
    destruct (gen_loop_spec draws 0 (Z.of_nat (length items)) n [] ∅) as (nums & -> & Hnd & Hl & Hr).
    + intros. unfold int32. rewrite wrap_s_id; unfold in_s; lia.
    + eapply Forall_impl; [exact Hrange|]. simpl. lia.
    + split_and!; [constructor|set_solver|set_solver].
    + simpl. lia.
    + rewrite union_empty_r_L, (list_fmap_ext _ id), list_fmap_id; [lia|].
      intros. simpl. lia.
    + simpl. destruct (pick_spec items nums []) as (out & -> & HF); [done|]. simpl.
      exists out. split; [done|]. split; [|by eapply pick_submseteq].
      rewrite <- (Forall2_length _ _ _ HF). lia.
Qed.

End fetch.

(** Two of three instances, the generator drawing 2, 2, 0. *)
Lemma FetchRandomN_sample_witness :
  ∃ r, FetchRandomN [2; 2; 0]%Z [mkItem 5 "a"; mkItem 6 "b"; mkItem 7 "c"] 2 = Ret (Some r) ∧
    length r = 2 ∧ r ⊆+ [mkItem 5 "a"; mkItem 6 "b"; mkItem 7 "c"].
Proof.
  apply (FetchRandomN_sample [2; 2; 0]%Z [mkItem 5 "a"; mkItem 6 "b"; mkItem 7 "c"] 2).
  - simpl. lia.
  - repeat constructor; simpl; lia.
  - intros _. vm_compute. discriminate.
Defined.
