(* ===== verification/Endpoint.v ===== *)
(** * The registry of the service discovery server

    Models [server/service_discovery/endpoint/endpoint.go].  The state of an
    [Endpoint] is its registry (a [SafeMap] from service name and ["ip:port"] to
    [Registry]), the channel of changes to send to the other endpoints, and the
    channel of changes received from them.  The file holds the operations, the
    three background goroutines ([registryRefresh], [syncSend], [syncRecv]) one
    round at a time, and what each of them does to the registry; the
    interleavings of all of them are in [EndpointSteps.v].

    The values of [Extra] are not inspected by the code: their type [X] is a
    parameter.  The clock is an argument. *)

From S2P Require Import Prelude GoStrings SafeMap Cluster Fetch.
From stdpp Require Import options.

Module Endpoint.

Definition defaultMergeNum : nat := 100.
Definition defaultSendChannelLen : nat := 1024 * 8.
Definition defaultRecvChannelLen : nat := 1024 * 8.
Definition registerAction : string := "REGISTER".
Definition evictAction : string := "EVICT".

Definition StatusGreen : Z := 0.
Definition StatusBlue : Z := 1.
Definition StatusYellow : Z := 2.
Definition StatusOrange : Z := 3.
Definition StatusRed : Z := 4.

(** [syncUrl] with the host filled in. *)
Definition syncUrl (host : string) : string := "http://" +:+ host +:+ "/registry/sync".

Section endpoint.
Context {X : Type}.

(** [Extra] is [None] for the nil map. *)
Record Registry := mkRegistry {
  Name : string;
  Ip : string;
  Port : Z;
  Status : Z;
  CreateAt : Z;
  UpdateAt : Z;
  Weight : Z;
  Extra : option (gmap string X);
}.

Record SyncInfo := mkSyncInfo { Action : string; Reg : Registry }.
Record TransInfo := mkTransInfo { Source : string; TData : list SyncInfo }.

Context {C : Type} `{Cluster C} `{Ranger}.

(** [stop] tells whether the channel [stop] has been closed. *)
Record Endpoint := mkEndpoint {
  cluster : C;
  registryMap : SafeMap.SafeMap Registry;
  sendChan : chan SyncInfo;
  recvChan : chan TransInfo;
  stop : bool;
}.

Definition NewEndpoint (c : C) : Endpoint :=
  mkEndpoint c (SafeMap.NewSafeMap "registry") (make_chan defaultSendChannelLen)
    (make_chan defaultRecvChannelLen) false.

Definition Stop (e : Endpoint) : outcome Endpoint :=
  if stop e then Panic "close of closed channel"
  else Ret (mkEndpoint (cluster e) (registryMap e) (sendChan e) (recvChan e) true).

(** The calls on the fields the operations make. *)
Definition on_map (f : SafeMap.SafeMap Registry → SafeMap.SafeMap Registry) (e : Endpoint) : Endpoint :=
  mkEndpoint (cluster e) (f (registryMap e)) (sendChan e) (recvChan e) (stop e).

(** [select { case e.sendChan <- syncInfo: default: log }]. *)
Definition sync_out (si : SyncInfo) (e : Endpoint) : Endpoint :=
  mkEndpoint (cluster e) (registryMap e) (send_or_drop si (sendChan e)) (recvChan e) (stop e).

(** ** Register and evict *)

(** The registration [Register] stores: a new one, or the one found with weight
    and time renewed. *)
Definition Register_reg (ts : Z) (name ip : string) (port weight : Z)
    (extra : option (gmap string X)) (r : option Registry) : Registry :=
  match r with
  | None => mkRegistry name ip port StatusGreen ts ts weight extra
  | Some reg =>
      mkRegistry (Name reg) (Ip reg) (Port reg) (Status reg) (CreateAt reg) ts weight (Extra reg)
  end.

Definition Register (ts : Z) (name ip : string) (port weight : Z)
    (extra : option (gmap string X)) (e : Endpoint) : Endpoint :=
  let r := SafeMap.HGet name (host_port ip port) (registryMap e) in
  let reg := Register_reg ts name ip port weight extra r in
  let e := on_map (SafeMap.HSet name (host_port ip port) reg) e in
  sync_out (mkSyncInfo registerAction reg) e.

(** The message of an eviction names the instance and nothing else. *)
Definition evict_info (name ip : string) (port : Z) : SyncInfo :=
  mkSyncInfo evictAction (mkRegistry name ip port 0 0 0 0 None).

Definition Evict (name ip : string) (port : Z) (e : Endpoint) : Endpoint :=
  let e := on_map (SafeMap.HDel name (host_port ip port)) e in
  sync_out (evict_info name ip port) e.

(** ** The refresh loop *)

Definition with_status (st : Z) (reg : Registry) : Registry :=
  mkRegistry (Name reg) (Ip reg) (Port reg) st (CreateAt reg) (UpdateAt reg) (Weight reg) (Extra reg).

(** One registration visited by [registryRefresh].  [nowAt] is the clock at the
    head of the loop, before the wait for the tick. *)
Definition refresh_one (nowAt : Z) (name : string) (reg : Registry) (e : Endpoint) : Endpoint :=
  let d := int64 (nowAt - UpdateAt reg) in
  let set st := on_map (SafeMap.HSet name (host_port (Ip reg) (Port reg)) (with_status st reg)) e in
  if decide (d ≤ 45)%Z then set StatusGreen
  else if decide (d > 45 ∧ d ≤ 60)%Z then set StatusBlue
  else if decide (d > 60 ∧ d ≤ 75)%Z then set StatusYellow
  else if decide (d > 75 ∧ d ≤ 90)%Z then set StatusOrange
  else if decide (d > 90 ∧ d ≤ 105)%Z then set StatusRed
  else Evict name (Ip reg) (Port reg) e.

Definition refresh_regs (nowAt : Z) (name : string) (regs : list (string * Registry)) (e : Endpoint) : Endpoint :=
  foldl (λ e '(_, reg), refresh_one nowAt name reg e) e regs.

Definition refresh_name (nowAt : Z) (e : Endpoint) (name : string) : Endpoint :=
  match SafeMap.Get name (registryMap e) with
  | None => e
  | Some regMap => refresh_regs nowAt name (range_kv name regMap) e
  end.

(** One tick of [registryRefresh]. *)
Definition registryRefresh (nowAt : Z) (e : Endpoint) : Endpoint :=
  foldl (refresh_name nowAt) e (SafeMap.Keys (registryMap e)).

(** ** Synchronisation *)

(** [syncSend]: the changes collected so far, and the posts made ([send] to each
    host, in the order of [GetOtherHosts]; a failed post is logged and lost). *)
Record Sender := mkSender { syncInfoList : list SyncInfo; posts : list (string * TransInfo) }.

Definition sync_flush (c : C) (s : Sender) : Sender :=
  let transInfo := mkTransInfo (GetHost c) (syncInfoList s) in
  mkSender [] (posts s ++ ((λ host, (syncUrl host, transInfo)) <$> GetOtherHosts c)).

(** [case syncInfo := <-e.sendChan]. *)
Definition syncSend_recv (c : C) (syncInfo : SyncInfo) (s : Sender) : Sender :=
  let s := mkSender (syncInfoList s ++ [syncInfo]) (posts s) in
  if decide (defaultMergeNum ≤ length (syncInfoList s)) then sync_flush c s else s.

(** [case <-t.C]. *)
Definition syncSend_tick (c : C) (s : Sender) : Sender :=
  if decide (0 < length (syncInfoList s)) then sync_flush c s else s.

Definition Recv (transInfo : TransInfo) (e : Endpoint) : Endpoint * option string :=
  match try_send transInfo (recvChan e) with
  | Some ch => (mkEndpoint (cluster e) (registryMap e) (sendChan e) ch (stop e), None)
  | None => (e, Some "recv channel is block")
  end.

(** One change received by [syncRecv]. *)
Definition apply_sync (e : Endpoint) (si : SyncInfo) : Endpoint :=
  let reg := Reg si in
  if decide (Action si = registerAction)
  then on_map (SafeMap.HSet (Name reg) (host_port (Ip reg) (Port reg)) reg) e
  else if decide (Action si = evictAction)
  then on_map (SafeMap.HDel (Name reg) (host_port (Ip reg) (Port reg))) e
  else e.

(** One message taken by [syncRecv] from the channel. *)
Definition syncRecv (e : Endpoint) : Endpoint :=
  match try_recv (recvChan e) with
  | None => e
  | Some (transInfo, ch) =>
      foldl apply_sync (mkEndpoint (cluster e) (registryMap e) (sendChan e) ch (stop e))
        (TData transInfo)
  end.

(** ** Queries *)

(** Returns the registrations and the error; [Ret None] when the algorithm's draws
    ran out. *)
Definition Fetch (name : string) (n : Z) (fa : FetchAlgorithm Registry) (e : Endpoint)
    : outcome (option (list Registry * option string)) :=
  match SafeMap.Get name (registryMap e) with
  | None => Ret (Some ([], Some ("server " +:+ name +:+ " no instance")))
  | Some regMap =>
      let items := foldl (λ items '(_, reg), items ++ [mkItem (Weight reg) reg]) []
                     (range_kv "Fetch" regMap) in
      let! r := fa items n in
      Ret ((λ r, (foldl (λ regs i, regs ++ [Data i]) [] r, None)) <$> r)
  end.

Definition RegistrySummary (e : Endpoint) : gmap string nat :=
  foldl (λ suMap name, <[name := SafeMap.HLen name (registryMap e)]> suMap) ∅
    (SafeMap.Keys (registryMap e)).

Definition RegistryList (e : Endpoint) : list string := SafeMap.Keys (registryMap e).

Definition RegistryDetail (name : string) (e : Endpoint) : list Registry :=
  match SafeMap.Get name (registryMap e) with
  | None => []
  | Some regMap => foldl (λ regs '(_, reg), regs ++ [reg]) [] (range_kv "RegistryDetail" regMap)
  end.

(** ** Invariant *)

(** A registration is filed under its own name and address. *)
Definition filed (n k : string) (reg : Registry) : Prop :=
  Name reg = n ∧ host_port (Ip reg) (Port reg) = k.

Definition ok (e : Endpoint) : Prop :=
  SafeMap.wf (registryMap e) ∧
  (∀ n k reg, SafeMap.flat (registryMap e) !! (n, k) = Some reg → filed n k reg) ∧
  chan_wf (sendChan e) ∧ chan_wf (recvChan e).

(** The registration of an instance. *)
Definition instance_of (e : Endpoint) (name ip : string) (port : Z) : option Registry :=
  SafeMap.flat (registryMap e) !! (name, host_port ip port).

Lemma ok_NewEndpoint c : ok (NewEndpoint c).
Proof.
  split; [apply SafeMap.wf_NewSafeMap|]. split; [|split; apply make_chan_wf].
  intros n k reg. simpl. by rewrite SafeMap.flat_NewSafeMap, lookup_empty.
Qed.

Lemma ok_HSet n k reg e : ok e → filed n k reg → ok (on_map (SafeMap.HSet n k reg) e).
Proof.
  intros (Hwf & Hf & Hs & Hr) Hreg. split; [by apply SafeMap.wf_HSet|]. split; [|done].
  intros n' k' reg'. simpl. rewrite SafeMap.flat_HSet, lookup_insert.
  case_decide; [|by apply Hf]. by intros [= <-]; simplify_eq.
Qed.

Lemma ok_HDel n k e : ok e → ok (on_map (SafeMap.HDel n k) e).
Proof.
  intros (Hwf & Hf & Hs & Hr). split; [by apply SafeMap.wf_HDel|]. split; [|done].
  intros n' k' reg'. simpl. rewrite SafeMap.flat_HDel, lookup_delete by done.
  case_decide; [done|by apply Hf].
Qed.

Lemma ok_sync_out si e : ok e → ok (sync_out si e).
Proof. intros (Hwf & Hf & Hs & Hr). split_and!; simpl; auto with go. Qed.

Lemma ok_Evict name ip port e : ok e → ok (Evict name ip port e).
Proof. intros. by apply ok_sync_out, ok_HDel. Qed.

(** The registration [Register] stores is one of the instance it is called for. *)
Lemma Register_reg_filed ts name ip port weight extra e :
  ok e →
  let reg := Register_reg ts name ip port weight extra
               (SafeMap.HGet name (host_port ip port) (registryMap e)) in
  Name reg = name ∧ Ip reg = ip ∧ Port reg = port.
Proof.
  intros (_ & Hf & _). rewrite SafeMap.HGet_flat.
  destruct (SafeMap.flat _ !! _) as [reg|] eqn:E; simpl; [|done].
  apply Hf in E as [? [? ?]%host_port_inj]. done.
Qed.

Lemma ok_Register ts name ip port weight extra e :
  ok e → ok (Register ts name ip port weight extra e).
Proof.
  intros He. destruct (Register_reg_filed ts name ip port weight extra e He) as (Hn & Hi & Hp).
  apply ok_sync_out, ok_HSet; [done|]. split; [done|]. by rewrite Hi, Hp.
Qed.

Lemma ok_refresh_one nowAt name reg e :
  ok e → Name reg = name → ok (refresh_one nowAt name reg e).
Proof.
  intros He Hn. unfold refresh_one.
  repeat case_decide; try by apply ok_HSet. by apply ok_Evict.
Qed.

Lemma ok_apply_sync e si : ok e → ok (apply_sync e si).
Proof. intros He. unfold apply_sync. repeat case_decide; auto using ok_HDel. by apply ok_HSet. Qed.

(** ** Register and evict *)

Lemma instance_Register ts name ip port weight extra e name' ip' port' :
  ok e →
  instance_of (Register ts name ip port weight extra e) name' ip' port' =
    if decide (name' = name ∧ ip' = ip ∧ port' = port)
    then Some (Register_reg ts name ip port weight extra (instance_of e name ip port))
    else instance_of e name' ip' port'.
Proof.
  intros He. unfold instance_of, Register. simpl.
  rewrite SafeMap.flat_HSet, SafeMap.HGet_flat, lookup_insert.
  repeat case_decide; try done.
  - exfalso. simplify_eq. match goal with Hh : host_port _ _ = host_port _ _ |- _ =>
      apply host_port_inj in Hh end. naive_solver.
  - naive_solver.
Qed.

Lemma instance_Evict name ip port e name' ip' port' :
  ok e →
  instance_of (Evict name ip port e) name' ip' port' =
    if decide (name' = name ∧ ip' = ip ∧ port' = port) then None
    else instance_of e name' ip' port'.
Proof.
  intros (Hwf & _). unfold instance_of, Evict. simpl.
  rewrite SafeMap.flat_HDel, lookup_delete by done.
  repeat case_decide; try done.
  - exfalso. simplify_eq. match goal with Hh : host_port _ _ = host_port _ _ |- _ =>
      apply host_port_inj in Hh end. naive_solver.
  - naive_solver.
Qed.

Lemma Register_facts (ts : Z) (name ip : string) (port weight : Z)
    (extra : option (gmap string X)) (e : Endpoint) (He : ok e) :
  let e' := Register ts name ip port weight extra e in
  ok e' ∧
  (∀ name' ip' port', (name', ip', port') ≠ (name, ip, port) →
     instance_of e' name' ip' port' = instance_of e name' ip' port') ∧
  ∃ reg, instance_of e' name ip port = Some reg ∧
    Name reg = name ∧ Ip reg = ip ∧ Port reg = port ∧ Weight reg = weight ∧ UpdateAt reg = ts ∧
    match instance_of e name ip port with
    | None => Status reg = StatusGreen ∧ CreateAt reg = ts ∧ Extra reg = extra
    | Some old => Status reg = Status old ∧ CreateAt reg = CreateAt old ∧ Extra reg = Extra old
    end ∧
    chbuf (sendChan e') =
      if decide (length (chbuf (sendChan e)) < chcap (sendChan e))
      then chbuf (sendChan e) ++ [mkSyncInfo registerAction reg] else chbuf (sendChan e).
Proof.
  intros e'. split; [by apply ok_Register|]. split.
  { intros n' i' p' Hne. subst e'. rewrite instance_Register by done.
    rewrite decide_False; [done|naive_solver]. }
  pose proof (Register_reg_filed ts name ip port weight extra e He) as (Hn & Hi & Hp).
  rewrite SafeMap.HGet_flat in Hn, Hi, Hp.
  eexists. split; [subst e'; rewrite instance_Register by done; by rewrite decide_True|].
  split_and!; [done..| | | |].
  - by destruct (instance_of e name ip port).
  - by destruct (instance_of e name ip port).
  - by destruct (instance_of e name ip port).
  - subst e'. unfold Register. simpl. rewrite send_or_drop_buf, SafeMap.HGet_flat. done.
Qed.

(** What [Register] does, on both branches: an unknown instance is created
    green with the given weight and extra data; a known one keeps its creation
    time, status and extra data and only has its weight and heartbeat time
    renewed.  Every other instance is untouched, and the change is queued for the
    other endpoints, or dropped if the queue is full. *)
Theorem Register_effect (ts : Z) (name ip : string) (port weight : Z)
    (extra : option (gmap string X)) (e : Endpoint) (He : ok e) :
  let e' := Register ts name ip port weight extra e in
  ok e' ∧
  (∀ name' ip' port', (name', ip', port') ≠ (name, ip, port) →
     instance_of e' name' ip' port' = instance_of e name' ip' port') ∧
  ∃ reg, instance_of e' name ip port = Some reg ∧
    Name reg = name ∧ Ip reg = ip ∧ Port reg = port ∧ Weight reg = weight ∧ UpdateAt reg = ts ∧
    match instance_of e name ip port with
    | None => Status reg = StatusGreen ∧ CreateAt reg = ts ∧ Extra reg = extra
    | Some old => Status reg = Status old ∧ CreateAt reg = CreateAt old ∧ Extra reg = Extra old
    end ∧
    chbuf (sendChan e') =
      if decide (length (chbuf (sendChan e)) < chcap (sendChan e))
      then chbuf (sendChan e) ++ [mkSyncInfo registerAction reg] else chbuf (sendChan e).
Proof. by apply Register_facts. Qed.

(** What [Evict] does: the instance is gone, every other one is untouched, and
    a service whose last instance is evicted is no longer listed. *)
Theorem Evict_effect (name ip : string) (port : Z) (e : Endpoint) (He : ok e) :
  let e' := Evict name ip port e in
  ok e' ∧ instance_of e' name ip port = None ∧
  (∀ name' ip' port', (name', ip', port') ≠ (name, ip, port) →
     instance_of e' name' ip' port' = instance_of e name' ip' port') ∧
  (name ∈ RegistryList e' ↔
     ∃ ip' port', (ip', port') ≠ (ip, port) ∧ is_Some (instance_of e name ip' port')).
Proof.
  intros e'. assert (ok e') as He' by by apply ok_Evict. split; [done|].
  split; [subst e'; rewrite instance_Evict by done; by rewrite decide_True|].
  assert (∀ name' ip' port', (name', ip', port') ≠ (name, ip, port) →
     instance_of e' name' ip' port' = instance_of e name' ip' port') as Hother.
  { intros n' i' p' Hne. subst e'. rewrite instance_Evict by done.
    rewrite decide_False; [done|naive_solver]. }
  split; [done|]. unfold RegistryList. rewrite SafeMap.elem_of_Keys_flat by apply He'. split.
  - intros [j [reg Hreg]]. pose proof Hreg as [Hn Hk]%He'. exists (Ip reg), (Port reg).
    assert ((Ip reg, Port reg) ≠ (ip, port)) as Hne.
    { intros [= Hi Hp]. subst j. rewrite Hi, Hp in Hreg. subst e'.
      change (instance_of (Evict name ip port e) name ip port = Some reg) in Hreg.
      rewrite instance_Evict, decide_True in Hreg by done. done. }
    split; [done|]. rewrite <- Hother by congruence.
    unfold instance_of. rewrite Hk. by rewrite Hreg.
  - intros (ip' & port' & Hne & Hs). exists (host_port ip' port').
    change (is_Some (instance_of e' name ip' port')). rewrite Hother by congruence. done.
Qed.

(** ** The refresh loop *)

(** The status of an instance last heard of [d] seconds ago; [None] when it is to
    be evicted. *)
Definition status_of_age (d : Z) : option Z :=
  if decide (d ≤ 45)%Z then Some StatusGreen
  else if decide (d ≤ 60)%Z then Some StatusBlue
  else if decide (d ≤ 75)%Z then Some StatusYellow
  else if decide (d ≤ 90)%Z then Some StatusOrange
  else if decide (d ≤ 105)%Z then Some StatusRed
  else None.

(** What becomes of a registration in one tick. *)
Definition refreshed (nowAt : Z) (reg : Registry) : option Registry :=
  (λ st, with_status st reg) <$> status_of_age (int64 (nowAt - UpdateAt reg)).

(** The sends of a list of messages, in order. *)
Definition send_all (c : chan SyncInfo) (l : list SyncInfo) : chan SyncInfo :=
  foldl (λ c si, send_or_drop si c) c l.

(** The effect of refreshing the registrations [P] selects. *)
Definition refresh_effect (nowAt : Z) (P : string → string → bool) (e e' : Endpoint) : Prop :=
  ok e' ∧
  (∀ n k, SafeMap.flat (registryMap e') !! (n, k) =
     if P n k then SafeMap.flat (registryMap e) !! (n, k) ≫= refreshed nowAt
     else SafeMap.flat (registryMap e) !! (n, k)) ∧
  ∃ evs, sendChan e' = send_all (sendChan e) evs ∧
    ∀ si, si ∈ evs ↔ ∃ n k reg, P n k = true ∧ SafeMap.flat (registryMap e) !! (n, k) = Some reg ∧
      refreshed nowAt reg = None ∧ si = evict_info n (Ip reg) (Port reg).

(** The effect depends on the selection of registered instances only. *)
Lemma refresh_effect_iff nowAt P Q e e' :
  (∀ n k reg, SafeMap.flat (registryMap e) !! (n, k) = Some reg → P n k = Q n k) →
  refresh_effect nowAt P e e' → refresh_effect nowAt Q e e'.
Proof.
  intros HPQ (Hok & HP & evs & Hevs & Hin). split; [done|]. split.
  - intros n k. rewrite HP. destruct (SafeMap.flat (registryMap e) !! (n, k)) eqn:E.
    + by rewrite (HPQ _ _ _ E).
    + by destruct (P n k), (Q n k).
  - exists evs. split; [done|]. intros si. rewrite Hin.
    split; intros (n & k & reg & HP' & Hr & ?); exists n, k, reg;
      [rewrite <- (HPQ _ _ _ Hr)|rewrite (HPQ _ _ _ Hr)]; tauto.
Qed.

Lemma refresh_effect_refl nowAt P e :
  ok e → (∀ n k reg, SafeMap.flat (registryMap e) !! (n, k) = Some reg → P n k = false) →
  refresh_effect nowAt P e e.
Proof.
  intros He HP. apply (refresh_effect_iff nowAt (λ _ _, false)).
  { intros. symmetry. eauto. }
  split; [done|]. split; [done|]. exists []. split; [done|].
  intros si. split; [by intros ?%not_elem_of_nil|naive_solver].
Qed.

(** Two refreshes of disjoint selections compose. *)
Lemma refresh_effect_trans nowAt P Q e1 e2 e3 :
  (∀ n k, P n k = true → Q n k = false) →
  refresh_effect nowAt P e1 e2 → refresh_effect nowAt Q e2 e3 →
  refresh_effect nowAt (λ n k, P n k || Q n k) e1 e3.
Proof.
  intros Hdisj (Hok2 & HP & evs & Hevs & Hin) (Hok3 & HQ & evs' & Hevs' & Hin').
  split; [done|]. split.
  - intros n k. rewrite HQ, HP. destruct (P n k) eqn:EP; simpl; [|done].
    by rewrite Hdisj.
  - exists (evs ++ evs'). split.
    + rewrite Hevs', Hevs. unfold send_all. by rewrite foldl_app.
    + intros si. rewrite elem_of_app, Hin, Hin'. split.
      * intros [(n & k & reg & Hp & ? & ? & ->)|(n & k & reg & Hq & Hr & ? & ->)].
        -- exists n, k, reg. by rewrite Hp.
        -- exists n, k, reg. rewrite HP in Hr.
           destruct (P n k) eqn:EP; [by rewrite Hdisj in Hq|]. by rewrite Hq.
      * intros (n & k & reg & Hpq & Hr & ? & ->). destruct (P n k) eqn:EP.
        -- left. by exists n, k, reg.
        -- right. exists n, k, reg. by rewrite HP, EP.
Qed.

Lemma refresh_one_cases nowAt name reg e :
  refresh_one nowAt name reg e =
    match refreshed nowAt reg with
    | Some reg' => on_map (SafeMap.HSet name (host_port (Ip reg) (Port reg)) reg') e
    | None => Evict name (Ip reg) (Port reg) e
    end.
Proof. unfold refresh_one, refreshed, status_of_age. repeat case_decide; simpl; try done; lia. Qed.

Definition same_key (n k n' k' : string) : bool := bool_decide (n' = n ∧ k' = k).

Lemma refresh_one_effect nowAt name k reg e :
  ok e → SafeMap.flat (registryMap e) !! (name, k) = Some reg →
  refresh_effect nowAt (same_key name k) e (refresh_one nowAt name reg e).
Proof.
  intros He Hl. pose proof (proj1 (proj2 He) _ _ _ Hl) as [Hn Hk].
  split; [by apply ok_refresh_one|]. rewrite refresh_one_cases, Hk.
  unfold same_key. destruct (refreshed nowAt reg) as [reg'|] eqn:Er; simpl.
  - rewrite SafeMap.flat_HSet. split.
    + intros n' k'. rewrite lookup_insert. case_bool_decide as Hb; case_decide; try naive_solver.
      destruct Hb as [-> ->]. rewrite Hl. simpl. done.
    + exists []. split; [done|]. intros si. split; [by intros ?%not_elem_of_nil|].
      intros (n' & k' & r & [-> ->]%bool_decide_eq_true & Hr & Hn' & _). congruence.
  - rewrite Hk, SafeMap.flat_HDel by apply He. split.
    + intros n' k'. rewrite lookup_delete. case_bool_decide as Hb; case_decide; try naive_solver.
      destruct Hb as [-> ->]. rewrite Hl. simpl. done.
    + exists [evict_info name (Ip reg) (Port reg)]. split; [done|].
      intros si. rewrite list_elem_of_singleton. split.
      * intros ->. exists name, k, reg. by rewrite bool_decide_true.
      * intros (n' & k' & r & [-> ->]%bool_decide_eq_true & Hr & _ & ->). congruence.
Qed.

Lemma refresh_regs_effect nowAt name regs e :
  ok e → NoDup regs.*1 →
  (∀ k reg, (k, reg) ∈ regs → SafeMap.flat (registryMap e) !! (name, k) = Some reg) →
  refresh_effect nowAt (λ n k, bool_decide (n = name ∧ k ∈ regs.*1)) e
    (refresh_regs nowAt name regs e).
Proof.
  revert e. induction regs as [|[k reg] regs IH]; intros e He Hnd Hin.
  - apply refresh_effect_refl; [done|]. intros. apply bool_decide_false.
    intros [_ ?%not_elem_of_nil]. done.
  - inversion Hnd as [|? ? Hk Hnd']; subst. cbn [fmap list_fmap fst] in *.
    pose proof (refresh_one_effect nowAt name k reg e He ltac:(apply Hin; left)) as H1.
    eapply refresh_effect_iff; [|eapply refresh_effect_trans; [|exact H1|apply IH; [apply H1|done|]]].
    + intros n' k' _ _. simpl. unfold same_key. apply eq_true_iff_eq.
      rewrite orb_true_iff, !bool_decide_eq_true, elem_of_cons. tauto.
    + unfold same_key. intros n' k' [-> ->]%bool_decide_eq_true.
      apply bool_decide_false. tauto.
    + intros k' reg' Hin'. destruct H1 as (_ & H1 & _). rewrite H1. unfold same_key.
      rewrite bool_decide_false; [apply Hin; by right|].
      intros [_ ->]. apply Hk. apply list_elem_of_fmap. by exists (k, reg').
Qed.

Lemma refresh_name_effect nowAt name e :
  ok e → refresh_effect nowAt (λ n _, bool_decide (n = name)) e (refresh_name nowAt e name).
Proof.
  intros He. unfold refresh_name. rewrite SafeMap.Get_dataMap.
  destruct (SafeMap.dataMap (registryMap e) !! name) as [regMap|] eqn:E.
  - assert (∀ k, SafeMap.flat (registryMap e) !! (name, k) = regMap !! k) as Hflat.
    { intros k. by rewrite SafeMap.flat_lookup, E. }
    eapply refresh_effect_iff; [|apply refresh_regs_effect; [done|apply range_kv_NoDup_fst|]].
    + intros n k reg Hr. simpl. apply bool_decide_ext. split; [tauto|]. intros ->. split; [done|].
      rewrite Hflat in Hr. apply list_elem_of_fmap. exists (k, reg). split; [done|].
      by apply range_kv_elem.
    + intros k reg Hk%range_kv_elem. by rewrite Hflat.
  - apply refresh_effect_refl; [done|]. intros n k reg Hr. apply bool_decide_false. intros ->.
    rewrite SafeMap.flat_lookup, E in Hr. done.
Qed.

Lemma refresh_names_effect nowAt names e :
  ok e → NoDup names →
  refresh_effect nowAt (λ n _, bool_decide (n ∈ names)) e (foldl (refresh_name nowAt) e names).
Proof.
  revert e. induction names as [|name names IH]; intros e He Hnd; simpl.
  - by apply refresh_effect_refl.
  - inversion Hnd as [|? ? Hn Hnd']; subst.
    pose proof (refresh_name_effect nowAt name e He) as H1.
    eapply refresh_effect_iff; [|eapply refresh_effect_trans; [|exact H1|apply IH; [apply H1|done]]].
    + intros n k _ _. simpl. apply eq_true_iff_eq.
      rewrite orb_true_iff, !bool_decide_eq_true, elem_of_cons. done.
    + simpl. intros n k ->%bool_decide_eq_true. by apply bool_decide_false.
Qed.

Lemma registryRefresh_facts (nowAt : Z) (e : Endpoint) (He : ok e) :
  let e' := registryRefresh nowAt e in
  ok e' ∧
  (∀ name ip port, instance_of e' name ip port = instance_of e name ip port ≫= refreshed nowAt) ∧
  ∃ evs, sendChan e' = send_all (sendChan e) evs ∧
    ∀ si, si ∈ evs ↔ ∃ name ip port reg, instance_of e name ip port = Some reg ∧
      (int64 (nowAt - UpdateAt reg) > 105)%Z ∧ si = evict_info name ip port.
Proof.
  intros e'.
  destruct (refresh_names_effect nowAt (SafeMap.Keys (registryMap e)) e He (SafeMap.Keys_NoDup _))
    as (Hok & HP & evs & Hevs & Hin).
  assert (∀ n k, is_Some (SafeMap.flat (registryMap e) !! (n, k)) →
    n ∈ SafeMap.Keys (registryMap e)) as Hkeys.
  { intros n k Hk. apply SafeMap.elem_of_Keys_flat; [apply He|eauto]. }
  assert (∀ reg, refreshed nowAt reg = None ↔ (int64 (nowAt - UpdateAt reg) > 105)%Z) as Hexp.
  { intros reg. unfold refreshed, status_of_age. repeat case_decide; simpl; split; try done; lia. }
  split; [done|]. split.
  - intros name ip port. unfold instance_of. rewrite HP. case_bool_decide as Hk; [done|].
    destruct (SafeMap.flat _ !! _) eqn:E; [|done]. destruct Hk. eauto.
  - exists evs. split; [done|]. intros si. rewrite Hin. split.
    + intros (n & k & reg & _ & Hr & ?%Hexp & ->). pose proof Hr as [Hn Hk]%He.
      exists n, (Ip reg), (Port reg), reg. unfold instance_of. by rewrite Hk.
    + intros (n & ip & port & reg & Hr & ?%Hexp & ->). exists n, (host_port ip port), reg.
      pose proof Hr as [_ [Hi Hp]%host_port_inj]%He. rewrite Hi, Hp.
      split_and!; [|done..]. apply bool_decide_eq_true. eauto.
Qed.

(** One tick of [registryRefresh] at the time [nowAt] its round began: every
    instance keeps its data and gets the status of its age (green up to 45
    seconds, then blue, yellow, orange, red in steps of 15), an instance older
    than 105 seconds is removed and nothing else is; the evictions queued for the
    other endpoints are exactly those of the instances removed.  This holds for
    every order in which the runtime iterates over the maps. *)
Theorem registryRefresh_effect (nowAt : Z) (e : Endpoint) (He : ok e) :
  let e' := registryRefresh nowAt e in
  ok e' ∧
  (∀ name ip port, instance_of e' name ip port = instance_of e name ip port ≫= refreshed nowAt) ∧
  ∃ evs, sendChan e' = send_all (sendChan e) evs ∧
    ∀ si, si ∈ evs ↔ ∃ name ip port reg, instance_of e name ip port = Some reg ∧
      (int64 (nowAt - UpdateAt reg) > 105)%Z ∧ si = evict_info name ip port.
Proof. by apply registryRefresh_facts. Qed.

(** ** Sending changes in batches *)

(** What wakes [syncSend] up: a change taken from the channel, or the ticker. *)
Definition syncSend_event (c : C) (s : Sender) (ev : option SyncInfo) : Sender :=
  match ev with
  | Some si => syncSend_recv c si s
  | None => syncSend_tick c s
  end.

Definition syncSend (c : C) (evs : list (option SyncInfo)) : Sender :=
  foldl (syncSend_event c) (mkSender [] []) evs.

(** The posts of one batch: one to every other host. *)
Definition batch_posts (c : C) (b : list SyncInfo) : list (string * TransInfo) :=
  (λ host, (syncUrl host, mkTransInfo (GetHost c) b)) <$> GetOtherHosts c.

Definition batched (c : C) (evs : list (option SyncInfo)) (s : Sender) (bs : list (list SyncInfo)) : Prop :=
  concat bs ++ syncInfoList s = omap id evs ∧
  Forall (λ b, 1 ≤ length b ≤ defaultMergeNum) bs ∧
  length (syncInfoList s) < defaultMergeNum ∧
  posts s = concat (batch_posts c <$> bs).

Lemma batched_flush c evs evs' s bs :
  batched c evs s bs → length (syncInfoList s) + length (omap id evs') ≤ defaultMergeNum →
  1 ≤ length (syncInfoList s) + length (omap id evs') →
  batched c (evs ++ evs')
    (sync_flush c (mkSender (syncInfoList s ++ omap id evs') (posts s)))
    (bs ++ [syncInfoList s ++ omap id evs']).
Proof.
  intros (Hc & Hf & Hl & Hp) Hle Hge. split_and!; simpl.
  - rewrite concat_app, app_nil_r, omap_app. simpl. rewrite app_nil_r, app_assoc. by rewrite Hc.
  - apply Forall_app. split; [done|]. apply Forall_singleton. rewrite length_app. lia.
  - unfold defaultMergeNum. lia.
  - rewrite Hp, fmap_app, concat_app. simpl. by rewrite app_nil_r.
Qed.

Lemma syncSend_batched c evs : ∃ bs, batched c evs (syncSend c evs) bs.
Proof.
  induction evs as [|ev evs [bs IH]] using rev_ind.
  - exists []. split_and!; simpl; auto using Forall_nil. unfold defaultMergeNum. lia.
  - unfold syncSend. rewrite foldl_app. fold (syncSend c evs). simpl.
    pose proof IH as (Hc & Hf & Hl & Hp). destruct ev as [si|]; simpl.
    + unfold syncSend_recv. case_decide as Hd; simpl in Hd; rewrite length_app in Hd; simpl in Hd.
      * eexists. apply (batched_flush c evs [Some si] _ bs IH); simpl; lia.
      * exists bs. split_and!; simpl; [|done|rewrite length_app; simpl; lia|done].
        rewrite omap_app, <- Hc, app_assoc. done.
    + unfold syncSend_tick. case_decide.
      * pose proof (batched_flush c evs [None] _ bs IH) as Hb. simpl in Hb.
        rewrite app_nil_r in Hb. destruct (syncSend c evs). simpl in *.
        eexists. apply Hb; lia.
      * exists bs. split_and!; try done. by rewrite omap_app, Hc, app_nil_r.
Qed.

Lemma syncUrl_inj h h' : syncUrl h = syncUrl h' → h = h'.
Proof.
  unfold syncUrl. intros Hu. apply (inj (String.append "http://")) in Hu. revert h' Hu.
  induction h as [|c' h IH]; intros [|d h'] Hu; [done|exfalso|exfalso|].
  - apply (f_equal String.length) in Hu. revert Hu.
    rewrite !str_length_app. simpl. lia.
  - apply (f_equal String.length) in Hu. revert Hu.
    rewrite !str_length_app. simpl. lia.
  - injection Hu as <- Hu. f_equal. by apply IH.
Qed.

Lemma batch_posts_to c b host :
  host ∈ GetOtherHosts c →
  filter (λ p, p.1 = syncUrl host) (batch_posts c b) =
    [(syncUrl host, mkTransInfo (GetHost c) b)].
Proof.
  unfold batch_posts. intros Hin. pose proof (GetOtherHosts_NoDup c) as Hnd.
  induction (GetOtherHosts c) as [|h l IH]; [by apply not_elem_of_nil in Hin|].
  inversion Hnd as [|? ? Hh Hnd']; subst. cbn [fmap list_fmap]. rewrite filter_cons. simpl.
  apply elem_of_cons in Hin as [->|Hin].
  - rewrite decide_True by done. f_equal. clear IH Hnd Hnd'.
    induction l as [|h' l IHl]; [done|]. apply not_elem_of_cons in Hh as [? ?].
    simpl. rewrite filter_cons, decide_False; [auto|]. simpl. intros ?%syncUrl_inj. done.
  - rewrite decide_False; [auto|]. intros ->%syncUrl_inj. done.
Qed.

(** [syncSend] loses no change, duplicates none and keeps them in order: for
    every sequence of wake-ups, the changes taken from the channel are the
    batches posted so far followed by the changes still collected; a batch holds
    between 1 and 100 changes, fewer than 100 stay collected, and every other
    host is sent each batch exactly once, in order. *)
Theorem syncSend_batches (c : C) (evs : list (option SyncInfo)) :
  let s := syncSend c evs in
  ∃ bs, concat bs ++ syncInfoList s = omap id evs ∧
    Forall (λ b, 1 ≤ length b ≤ 100) bs ∧ length (syncInfoList s) < 100 ∧
    ∀ host, host ∈ GetOtherHosts c →
      filter (λ p, p.1 = syncUrl host) (posts s) =
        (λ b, (syncUrl host, mkTransInfo (GetHost c) b)) <$> bs.
Proof.
  intros s. destruct (syncSend_batched c evs) as (bs & Hc & Hf & Hl & Hp).
  exists bs. split_and!; [done..|]. intros host Hh. subst s. rewrite Hp. clear Hc Hf Hp.
  induction bs as [|b bs IH]; [done|]. rewrite !fmap_cons, <- IH.
  cbn [concat].
  by rewrite filter_app, batch_posts_to.
Qed.

(** ** Replication *)

Inductive op :=
| OpRegister (ts : Z) (name ip : string) (port weight : Z) (extra : option (gmap string X))
| OpEvict (name ip : string) (port : Z).

Definition exec_op (e : Endpoint) (o : op) : Endpoint :=
  match o with
  | OpRegister ts name ip port weight extra => Register ts name ip port weight extra e
  | OpEvict name ip port => Evict name ip port e
  end.

(** A post that reaches another endpoint: [Recv] queues it, [syncRecv] applies it. *)
Definition deliver (e : Endpoint) (ti : TransInfo) : Endpoint := syncRecv (Recv ti e).1.

Lemma flat_apply_sync e si :
  ok e →
  SafeMap.flat (registryMap (apply_sync e si)) =
    let k := (Name (Reg si), host_port (Ip (Reg si)) (Port (Reg si))) in
    if decide (Action si = registerAction) then <[k := Reg si]> (SafeMap.flat (registryMap e))
    else if decide (Action si = evictAction) then delete k (SafeMap.flat (registryMap e))
    else SafeMap.flat (registryMap e).
Proof.
  intros He. unfold apply_sync. repeat case_decide; simpl; [apply SafeMap.flat_HSet| |done].
  apply SafeMap.flat_HDel, He.
Qed.

(** The message queued by an operation has the effect of the operation. *)
Lemma exec_op_message e o :
  ok e → length (chbuf (sendChan e)) < chcap (sendChan e) →
  ok (exec_op e o) ∧ ∃ si, sendChan (exec_op e o) = Chan (chcap (sendChan e)) (chbuf (sendChan e) ++ [si]) ∧
    ∀ b, ok b → SafeMap.flat (registryMap b) = SafeMap.flat (registryMap e) →
      SafeMap.flat (registryMap (apply_sync b si)) = SafeMap.flat (registryMap (exec_op e o)).
Proof.
  intros He Hroom. destruct o as [ts name ip port weight extra|name ip port]; simpl.
  - split; [by apply ok_Register|].
    eexists. split; [unfold send_or_drop, try_send; by rewrite decide_True|].
    intros b Hb Heq. rewrite flat_apply_sync by done. simpl.
    pose proof (Register_reg_filed ts name ip port weight extra e He) as (Hn & Hi & Hp).
    by rewrite Hn, Hi, Hp, SafeMap.flat_HSet, Heq.
  - split; [by apply ok_Evict|].
    eexists. split; [unfold send_or_drop, try_send; by rewrite decide_True|].
    intros b Hb Heq. rewrite flat_apply_sync by done. simpl.
    rewrite SafeMap.flat_HDel by apply He. by rewrite Heq.
Qed.

Lemma exec_ops_messages ops e :
  ok e → length (chbuf (sendChan e)) + length ops ≤ chcap (sendChan e) →
  ∃ msgs, chbuf (sendChan (foldl exec_op e ops)) = chbuf (sendChan e) ++ msgs ∧
    length msgs = length ops ∧
    ∀ b, ok b → SafeMap.flat (registryMap b) = SafeMap.flat (registryMap e) →
      SafeMap.flat (registryMap (foldl apply_sync b msgs)) =
      SafeMap.flat (registryMap (foldl exec_op e ops)).
Proof.
  revert e. induction ops as [|o ops IH]; intros e He Hroom; simpl in *.
  - exists []. by rewrite app_nil_r.
  - destruct (exec_op_message e o He ltac:(lia)) as (He' & si & Hs & Hsi).
    destruct (IH (exec_op e o) He') as (msgs & Hm & Hl & Hb).
    { rewrite Hs. simpl. rewrite length_app. simpl. lia. }
    exists (si :: msgs). rewrite Hm, Hs. simpl. rewrite <- app_assoc. simpl.
    split_and!; [done|lia|]. intros b Hok Heq. apply Hb; [by apply ok_apply_sync|].
    by apply Hsi.
Qed.

Lemma deliver_applies e ti :
  chbuf (recvChan e) = [] → 0 < chcap (recvChan e) →
  let e0 := mkEndpoint (cluster e) (registryMap e) (sendChan e) (recvChan e) (stop e) in
  deliver e ti = foldl apply_sync e0 (TData ti).
Proof.
  intros Hb Hc. unfold deliver, Recv, try_send. rewrite Hb. simpl. rewrite decide_True by done.
  unfold syncRecv. simpl. do 2 f_equal. destruct (recvChan e); simpl in *; by subst.
Qed.

Lemma apply_sync_recvChan e si : recvChan (apply_sync e si) = recvChan e.
Proof. unfold apply_sync. by repeat case_decide. Qed.

Lemma deliver_all e tis :
  chbuf (recvChan e) = [] → 0 < chcap (recvChan e) →
  foldl deliver e tis = foldl apply_sync e (concat (TData <$> tis)).
Proof.
  revert e. induction tis as [|ti tis IH]; intros e Hb Hc; [done|].
  simpl. rewrite foldl_app, deliver_applies by done. destruct e as [c0 m0 s0 r0 st0]. simpl.
  assert (∀ l e0, recvChan (foldl apply_sync e0 l) = recvChan e0) as Hr.
  { induction l as [|si l IHl]; intros e0; simpl; [done|]. by rewrite IHl, apply_sync_recvChan. }
  apply IH; rewrite Hr; done.
Qed.

(** [C12] Replication: when two endpoints hold the same registry and one of them
    serves any sequence of registrations and evictions (its send queue having
    room), delivering the changes it queues to the other, in any division into
    messages, brings the other to the same registry. *)
Theorem replication (a b : Endpoint) (ops : list op) (Ha : ok a) (Hb : ok b)
    (Heq : SafeMap.flat (registryMap a) = SafeMap.flat (registryMap b))
    (Hroom : length (chbuf (sendChan a)) + length ops ≤ chcap (sendChan a))
    (Hidle : chbuf (recvChan b) = [] ∧ 0 < chcap (recvChan b)) :
  let a' := foldl exec_op a ops in
  ∃ msgs, chbuf (sendChan a') = chbuf (sendChan a) ++ msgs ∧ length msgs = length ops ∧
    ∀ tis, concat (TData <$> tis) = msgs →
      ∀ name ip port, instance_of (foldl deliver b tis) name ip port = instance_of a' name ip port.
Proof.
  intros a'. destruct (exec_ops_messages ops a Ha Hroom) as (msgs & Hm & Hl & Hb').
  exists msgs. split_and!; [done..|]. intros tis Htis name ip port. unfold instance_of.
  destruct Hidle as [He Hc]. rewrite deliver_all by done. rewrite Htis.
  by rewrite Hb'.
Qed.

(** ** Queries *)

(** The instances of a service. *)
Definition instances (name : string) (e : Endpoint) : list Registry :=
  (map_to_list (default ∅ (SafeMap.dataMap (registryMap e) !! name))).*2.

(** The items [Fetch] hands to the algorithm are the instances. *)
Definition fetch_items (regMap : gmap string Registry) : list (Item Registry) :=
  map (λ '(_, reg), mkItem (Weight reg) reg) (range_kv "Fetch" regMap).

Lemma fetch_items_data regMap : Data <$> fetch_items regMap ≡ₚ (map_to_list regMap).*2.
Proof.
  rewrite <- (range_kv_perm "Fetch" regMap). unfold fetch_items. rewrite <- list_fmap_compose.
  erewrite (list_fmap_ext _ snd); [done|]. by intros ? [].
Qed.

Lemma fetch_items_score regMap i : i ∈ fetch_items regMap → Score i = Weight (Data i).
Proof. by intros ([? ?] & -> & ?)%list_elem_of_fmap. Qed.

Lemma listed_nonempty e name regMap :
  ok e → SafeMap.dataMap (registryMap e) !! name = Some regMap → (map_to_list regMap).*2 ≠ [].
Proof.
  intros He E Hn. apply (proj1 He name regMap E), map_to_list_empty_iff.
  by apply fmap_nil_inv in Hn.
Qed.

Lemma Fetch_unfold name n fa e :
  ok e →
  Fetch name n fa e =
    match SafeMap.dataMap (registryMap e) !! name with
    | None => Ret (Some ([], Some ("server " +:+ name +:+ " no instance")))
    | Some regMap =>
        let! r := fa (fetch_items regMap) n in
        Ret (option_map (λ r, (map Data r, None)) r)
    end.
Proof.
  intros He. unfold Fetch. rewrite SafeMap.Get_dataMap.
  destruct (SafeMap.dataMap (registryMap e) !! name) as [regMap|]; [|done].
  rewrite (foldl_ext _ (λ items x, items ++ [(λ '(_, reg), mkItem (Weight reg) reg) x]))
    by (by intros ? []).
  rewrite foldl_snoc_map. simpl. fold (fetch_items regMap). destruct (fa _ n) as [[r|]|]; simpl; try done.
  by rewrite foldl_snoc_map.
Qed.

(** A fetch in the default mode, end to end: a service nobody registered under
    gives an error; otherwise the call returns [min n len] of the instances
    registered under that name, ascending in weight, none lighter being left
    out. *)
Theorem Fetch_min (GS : GoSort Registry) (name : string) (n : Z) (e : Endpoint) (He : ok e) :
  match Fetch name n (λ items n, Ret (Some (FetchMinN items n))) e with
  | Ret (Some (regs, None)) =>
      instances name e ≠ [] ∧
      length regs = min (Z.to_nat n) (length (instances name e)) ∧
      ∃ rest, regs ++ rest ≡ₚ instances name e ∧
        ∀ r r', r ∈ regs → r' ∈ rest → (Weight r ≤ Weight r')%Z
  | Ret (Some (regs, Some err)) =>
      instances name e = [] ∧ regs = [] ∧ err = "server " +:+ name +:+ " no instance"
  | _ => False
  end.
Proof.
  rewrite Fetch_unfold by done. unfold instances.
  destruct (SafeMap.dataMap (registryMap e) !! name) as [regMap|] eqn:E; simpl; [|done].
  destruct (FetchMinN_lowest (fetch_items regMap) n) as (Hl & Hs & rest & Hp & Hlow).
  split; [by eapply listed_nonempty|]. split.
  { rewrite length_fmap, Hl. f_equal. by rewrite <- fetch_items_data, length_fmap. }
  exists (Data <$> rest). rewrite <- fmap_app, Hp. split; [apply fetch_items_data|].
  intros ? ? (i & -> & Hi)%list_elem_of_fmap (j & -> & Hj)%list_elem_of_fmap.
  rewrite <- !(fetch_items_score regMap); [by apply Hlow|..]; rewrite <- Hp; set_solver.
Qed.

End endpoint.

(** ** Instances of the theorems *)

(** An endpoint with one registered instance, last heard of at time 100. *)
Definition w_cluster : BaseCluster.BaseCluster :=
  BaseCluster.refresh true ["h1"; "h2"] (BaseCluster.NewConfigCluster "h1").
Definition w_new : Endpoint (X:=string) (C:=BaseCluster.BaseCluster) := NewEndpoint w_cluster.
Definition w_ep : Endpoint (X:=string) (C:=BaseCluster.BaseCluster) :=
  Register 100 "svc" "10.0.0.1" 80 3 None w_new.

Lemma w_new_ok : ok w_new.
Proof. apply ok_NewEndpoint. Qed.

Lemma w_ep_ok : ok w_ep.
Proof. apply ok_Register, w_new_ok. Qed.

Lemma Register_effect_witness :
  ok w_ep ∧ ok (Register 130 "svc" "10.0.0.1" 80 7 None w_ep).
Proof.
  split; [apply w_ep_ok|].
  exact (proj1 (Register_effect 130 "svc" "10.0.0.1" 80 7 None w_ep w_ep_ok)).
Defined.

Lemma Evict_effect_witness :
  ok w_ep ∧ instance_of (Evict "svc" "10.0.0.1" 80 w_ep) "svc" "10.0.0.1" 80 = None.
Proof.
  split; [apply w_ep_ok|].
  exact (proj1 (proj2 (Evict_effect "svc" "10.0.0.1" 80 w_ep w_ep_ok))).
Defined.

Lemma registryRefresh_effect_witness :
  ok w_ep ∧
  instance_of (registryRefresh 170 w_ep) "svc" "10.0.0.1" 80 =
    instance_of w_ep "svc" "10.0.0.1" 80 ≫= refreshed 170.
Proof.
  split; [apply w_ep_ok|].
  exact (proj1 (proj2 (registryRefresh_effect 170 w_ep w_ep_ok)) "svc" "10.0.0.1" 80%Z).
Defined.

Lemma replication_witness :
  ok w_ep ∧
  ∃ msgs, length msgs = 2 ∧
    ∀ tis, concat (TData <$> tis) = msgs →
      ∀ name ip port, instance_of (foldl deliver w_ep tis) name ip port =
        instance_of (foldl exec_op w_ep
          [OpRegister 130 "svc" "10.0.0.2" 80 1 None; OpEvict "svc" "10.0.0.1" 80]) name ip port.
Proof.
  split; [apply w_ep_ok|].
  destruct (replication w_ep w_ep
    [OpRegister 130 "svc" "10.0.0.2" 80 1 None; OpEvict "svc" "10.0.0.1" 80]
    w_ep_ok w_ep_ok eq_refl) as (msgs & _ & Hl & Hd).
  - apply Nat.leb_le. vm_compute. reflexivity.
  - split; [reflexivity|]. apply Nat.ltb_lt. vm_compute. reflexivity.
  - exists msgs. split; [exact Hl|exact Hd].
Defined.

Lemma Fetch_min_witness :
  ok w_ep ∧
  match Fetch "svc" 5 (λ items n, Ret (Some (FetchMinN items n))) w_ep with
  | Ret (Some (regs, None)) => length regs = 1
  | _ => False
  end.
Proof.
  split; [apply w_ep_ok|].
  pose proof (Fetch_min merge_go_sort "svc" 5 w_ep w_ep_ok) as Hf.
  destruct (Fetch "svc" 5 (λ items n, Ret (Some (FetchMinN items n))) w_ep) as [[[regs [err|]]|]|].
  - destruct Hf as [Hi _]. vm_compute in Hi. discriminate.
  - destruct Hf as (_ & Hl & _). etrans; [exact Hl|]. vm_compute. reflexivity.
  - exact Hf.
  - exact Hf.
Defined.

End Endpoint.
