(* ===== verification/EndpointSteps.v ===== *)
(** * Interleavings of the service discovery endpoint

    The operations of [endpoint.go] run in concurrent goroutines: one per request
    ([Register], [Evict], [Recv]), [registryRefresh], [syncRecv] and [syncSend].
    Each call on the [SafeMap] and each channel operation is atomic; everything
    between two of them may interleave.  A goroutine in the middle of its work is
    a [thread], which holds its local variables and the point it has reached; a
    step runs one atomic action of one thread.  The file proves the registry
    invariant for every interleaving, and exhibits the interleaving in which the
    refresh loop brings back an instance that was evicted meanwhile. *)

From S2P Require Import Prelude GoStrings SafeMap Cluster Endpoint.
From stdpp Require Import options.
Import Endpoint.

Module EndpointSteps.
Section steps.
Context {X C : Type} `{Cluster C} `{Ranger}.
Local Notation Registry := (Endpoint.Registry (X:=X)).
Local Notation SyncInfo := (Endpoint.SyncInfo (X:=X)).
Local Notation TransInfo := (Endpoint.TransInfo (X:=X)).
Local Notation Endpoint := (Endpoint.Endpoint (X:=X) (C:=C)).

(** Where a goroutine stands. *)
Inductive thread :=
| TRegister (name ip : string) (port : Z) (reg : Registry)
    (** [Register] after its [HGet], about to store [reg] *)
| TSend (si : SyncInfo)
    (** [Register] or [Evict] about to queue the change *)
| TRefreshHead
    (** [registryRefresh] at the head of its loop *)
| TRefreshWait (nowAt : Z)
    (** the same, having read the clock, waiting for the tick *)
| TRefresh (nowAt : Z) (names : list string)
    (** the same, after the tick, with these names left *)
| TRefreshRegs (nowAt : Z) (name : string) (regs : list Registry) (names : list string)
    (** the same, inside the loop over the copy of one service's instances *)
| TRefreshSend (si : SyncInfo) (nowAt : Z) (name : string) (regs : list Registry) (names : list string)
    (** the same, in [Evict] after the [HDel] *)
| TRecv (items : list SyncInfo).
    (** [syncRecv] with these changes left *)

Record Sys := mkSys { ep : Endpoint; threads : list thread }.

Inductive label :=
| LRegister (name ip : string) (port : Z)
| LEvict (name ip : string) (port : Z)
| LRecv
| LRefresh
| LSync
| LOther.

(** The action of a refresh thread on one registration: the branch of the age
    test, with [Evict] split at its channel operation. *)
Definition refresh_action (nowAt : Z) (name : string) (reg : Registry) (regs : list Registry)
    (names : list string) (e : Endpoint) : Endpoint * thread :=
  match refreshed nowAt reg with
  | Some reg' =>
      (on_map (SafeMap.HSet name (host_port (Ip reg) (Port reg)) reg') e,
       TRefreshRegs nowAt name regs names)
  | None =>
      (on_map (SafeMap.HDel name (host_port (Ip reg) (Port reg))) e,
       TRefreshSend (evict_info name (Ip reg) (Port reg)) nowAt name regs names)
  end.

(** One atomic action of a thread: the label, the endpoint and the thread after
    it ([None] when the goroutine is done). *)
Inductive act : thread → Endpoint → label → Endpoint → option thread → Prop :=
| act_register name ip port reg e :
    act (TRegister name ip port reg) e LOther
      (on_map (SafeMap.HSet name (host_port ip port) reg) e)
      (Some (TSend (mkSyncInfo registerAction reg)))
| act_send si e :
    act (TSend si) e LOther (sync_out si e) None
| act_refresh_clock now e :
    act TRefreshHead e LRefresh e (Some (TRefreshWait now))
| act_refresh_tick nowAt e :
    act (TRefreshWait nowAt) e LRefresh e
      (Some (TRefresh nowAt (SafeMap.Keys (registryMap e))))
| act_refresh_end nowAt e :
    act (TRefresh nowAt []) e LRefresh e (Some TRefreshHead)
| act_refresh_none nowAt name names e :
    SafeMap.Get name (registryMap e) = None →
    act (TRefresh nowAt (name :: names)) e LRefresh e (Some (TRefresh nowAt names))
| act_refresh_get nowAt name names e regMap :
    SafeMap.Get name (registryMap e) = Some regMap →
    act (TRefresh nowAt (name :: names)) e LRefresh e
      (Some (TRefreshRegs nowAt name (range_kv name regMap).*2 names))
| act_refresh_reg nowAt name reg regs names e :
    act (TRefreshRegs nowAt name (reg :: regs) names) e LRefresh
      (refresh_action nowAt name reg regs names e).1
      (Some (refresh_action nowAt name reg regs names e).2)
| act_refresh_done nowAt name names e :
    act (TRefreshRegs nowAt name [] names) e LRefresh e (Some (TRefresh nowAt names))
| act_refresh_send si nowAt name regs names e :
    act (TRefreshSend si nowAt name regs names) e LRefresh
      (sync_out si e) (Some (TRefreshRegs nowAt name regs names))
| act_recv_take e ti ch :
    try_recv (recvChan e) = Some (ti, ch) →
    act (TRecv []) e LSync
      (mkEndpoint (cluster e) (registryMap e) (sendChan e) ch (stop e))
      (Some (TRecv (TData ti)))
| act_recv_item si items e :
    act (TRecv (si :: items)) e LSync (apply_sync e si) (Some (TRecv items)).

Inductive step : label → Sys → Sys → Prop :=
| step_thread l pre t post e e' t' :
    act t e l e' t' →
    step l (mkSys e (pre ++ t :: post)) (mkSys e' (pre ++ option_list t' ++ post))
| step_register ts name ip port weight extra e ths :
    (* a request enters [Register] and reads the registry *)
    step (LRegister name ip port) (mkSys e ths)
      (mkSys e (TRegister name ip port
                  (Register_reg ts name ip port weight extra
                     (SafeMap.HGet name (host_port ip port) (registryMap e))) :: ths))
| step_evict name ip port e ths :
    (* a request enters [Evict] and deletes the entry *)
    step (LEvict name ip port) (mkSys e ths)
      (mkSys (on_map (SafeMap.HDel name (host_port ip port)) e)
             (TSend (evict_info name ip port) :: ths))
| step_recv ti e ths :
    (* another endpoint's message reaches [Recv] *)
    step LRecv (mkSys e ths) (mkSys (Recv ti e).1 ths)
| step_drain e ths si ch :
    (* [syncSend] takes a change from the channel *)
    try_recv (sendChan e) = Some (si, ch) →
    step LOther (mkSys e ths)
      (mkSys (mkEndpoint (cluster e) (registryMap e) ch (recvChan e) (stop e)) ths)
| step_cluster e ths c :
    (* the membership of the cluster changes *)
    step LOther (mkSys e ths)
      (mkSys (mkEndpoint c (registryMap e) (sendChan e) (recvChan e) (stop e)) ths).

(** [NewEndpoint] with its goroutines started. *)
Definition initial (s : Sys) : Prop :=
  ∃ c, s = mkSys (NewEndpoint c) [TRefreshHead; TRecv []].

Definition any_step (s s' : Sys) : Prop := ∃ l, step l s s'.

(** ** The invariant *)

Definition thread_ok (t : thread) : Prop :=
  match t with
  | TRegister name ip port reg => Name reg = name ∧ Ip reg = ip ∧ Port reg = port
  | TRefreshRegs _ name regs _ | TRefreshSend _ _ name regs _ => Forall (λ r, Name r = name) regs
  | _ => True
  end.

Definition sys_ok (s : Sys) : Prop := ok (ep s) ∧ Forall thread_ok (threads s).

Lemma ok_chans (e : Endpoint) ch ch' (c : C) :
  ok e → chan_wf ch → chan_wf ch' →
  ok (mkEndpoint c (registryMap e) ch ch' (stop e)).
Proof. intros (? & ? & ? & ?) ? ?. done. Qed.

Lemma ok_Recv (ti : TransInfo) (e : Endpoint) : ok e → ok (Recv ti e).1.
Proof.
  intros He. unfold Recv. destruct (try_send ti (recvChan e)) as [ch|] eqn:E; [|done].
  apply ok_chans; [done|apply He|]. apply try_send_Some in E as [? ->].
  unfold chan_wf. simpl. rewrite length_app. simpl. lia.
Qed.

Lemma refresh_action_ok nowAt name reg regs names (e : Endpoint) :
  ok e → Name reg = name → Forall (λ r, Name r = name) regs →
  ok (refresh_action nowAt name reg regs names e).1 ∧
  thread_ok (refresh_action nowAt name reg regs names e).2.
Proof.
  intros He Hn Hr. unfold refresh_action. destruct (refreshed nowAt reg) as [reg'|] eqn:E; simpl.
  - split; [|done]. apply ok_HSet; [done|]. unfold refreshed in E.
    apply fmap_Some in E as (st & _ & ->). done.
  - split; [by apply ok_HDel|done].
Qed.

Lemma act_ok t e l e' t' :
  act t e l e' t' → ok e → thread_ok t → ok e' ∧ Forall thread_ok (option_list t').
Proof.
  intros Hact He Ht.
  destruct Hact as [name ip port reg e|si e|now e|nowAt e|nowAt e|nowAt name names e Hg
    |nowAt name names e regMap Hg|nowAt name reg regs names e|nowAt name names e
    |si nowAt name regs names e|e ti ch Hch|si items e]; simpl in *;
    try (split; [|by repeat constructor]); auto using ok_sync_out, ok_apply_sync.
  - destruct Ht as (Hn & Hi & Hp). apply ok_HSet; [done|]. split; [done|]. by rewrite Hi, Hp.
  - split; [done|]. apply Forall_singleton. simpl. rewrite SafeMap.Get_dataMap in Hg.
    apply Forall_fmap, Forall_forall. intros [k reg] Hin%range_kv_elem. simpl.
    assert (SafeMap.flat (registryMap e) !! (name, k) = Some reg) as Hl
      by (by rewrite SafeMap.flat_lookup, Hg).
    by apply He in Hl as [? _].
  - apply Forall_cons in Ht as [? ?].
    destruct (refresh_action_ok nowAt name reg regs names e) as [? ?]; [done..|].
    split; [done|]. by apply Forall_singleton.
  - apply ok_chans; [done|apply He|]. eapply try_recv_wf; [apply He|exact Hch].
Qed.

Lemma step_ok l s s' : sys_ok s → step l s s' → sys_ok s'.
Proof.
  intros [He Ht] Hs.
  destruct Hs as [l pre t post e e' t' Hact|ts name ip port weight extra e ths
    |name ip port e ths|ti e ths|e ths si ch Hch|e ths c]; simpl in *.
  - apply Forall_app in Ht as [Hpre [Ht Hpost]%Forall_cons].
    destruct (act_ok _ _ _ _ _ Hact He Ht) as [? ?]. split; [done|].
    simpl. by rewrite !Forall_app.
  - split; [done|]. constructor; [|done]. by apply Register_reg_filed.
  - split; [by apply ok_HDel|]. by constructor.
  - split; [by apply ok_Recv|done].
  - split; [|done]. apply ok_chans; [done| |apply He].
    eapply try_recv_wf; [apply He|exact Hch].
  - split; [|done]. apply ok_chans; [done|apply He|apply He].
Qed.

(** [C11] In every state the server can reach, whatever the interleaving of its
    goroutines and whatever messages other endpoints send it: every registration
    is filed under its own service name and its own address, no service is listed
    without an instance, and the two channels hold no more than their
    capacity. *)
Theorem registry_invariant (s : Sys) (Hs : reachable initial any_step s) :
  SafeMap.wf (registryMap (ep s)) ∧
  (∀ n k reg, SafeMap.flat (registryMap (ep s)) !! (n, k) = Some reg →
     Name reg = n ∧ k = host_port (Ip reg) (Port reg)) ∧
  length (chbuf (sendChan (ep s))) ≤ chcap (sendChan (ep s)) ∧
  length (chbuf (recvChan (ep s))) ≤ chcap (recvChan (ep s)).
Proof.
  assert (sys_ok s) as [(Hwf & Hf & Hc1 & Hc2) _].
  { revert s Hs. apply reachable_invariant.
    - intros ? (c & ->). split; [apply ok_NewEndpoint|]. by repeat constructor.
    - intros s s' Hok [l Hl]. by eapply step_ok. }
  split; [done|]. split; [|done]. intros n k reg [-> <-]%Hf. done.
Qed.

(** A step of the first thread, which goes on or is done. *)
Lemma step_head l t t' post e e' :
  act t e l e' (Some t') → step l (mkSys e (t :: post)) (mkSys e' (t' :: post)).
Proof. intros Ha. by apply (step_thread l [] t post e e' (Some t')). Qed.

Lemma step_exit l t post e e' :
  act t e l e' None → step l (mkSys e (t :: post)) (mkSys e' post).
Proof. intros Ha. by apply (step_thread l [] t post e e' None). Qed.

End steps.
Arguments Sys X C : clear implicits.

(** ** The race between eviction and refresh *)

(** A cluster of one host, and the registration the example uses. *)
Definition c0 : BaseCluster.BaseCluster := BaseCluster.NewConfigCluster "h".
Definition reg0 : Endpoint.Registry (X:=string) :=
  mkRegistry "svc" "10.0.0.1" 80 StatusGreen 100 100 1 None.

Definition e_reg : Endpoint (X:=string) (C:=BaseCluster.BaseCluster) :=
  on_map (SafeMap.HSet "svc" "10.0.0.1:80" reg0) (NewEndpoint c0).

(** The refresh loop holds its copy of the instances of "svc". *)
Definition s_copy (e : Endpoint (X:=string) (C:=BaseCluster.BaseCluster)) : Sys string BaseCluster.BaseCluster :=
  mkSys e [TRefreshRegs 110 "svc" [reg0] []; TRecv []].

Lemma s_copy_reachable : reachable initial any_step (s_copy (sync_out (mkSyncInfo registerAction reg0) e_reg)).
Proof.
  set (e1 := sync_out (mkSyncInfo registerAction reg0) e_reg).
  apply reach_step with (mkSys e1 [TRefresh 110 ["svc"]; TRecv []]); last first.
  { eexists. apply step_head.
    assert ((range_kv "svc" ({["10.0.0.1:80" := reg0]} : gmap string _)).*2 = [reg0]) as <-.
    { unfold range_kv, default_ranger. by rewrite map_to_list_singleton. }
    apply act_refresh_get. rewrite SafeMap.Get_dataMap. vm_compute. reflexivity. }
  apply reach_step with (mkSys e1 [TRefreshWait 110; TRecv []]); last first.
  { eexists. apply step_head.
    assert (SafeMap.Keys (registryMap e1) = ["svc"]) as <- by (vm_compute; reflexivity).
    apply act_refresh_tick. }
  apply reach_step with (mkSys e1 [TRefreshHead; TRecv []]); last first.
  { eexists. apply step_head, act_refresh_clock. }
  apply reach_step with (mkSys e_reg [TSend (mkSyncInfo registerAction reg0); TRefreshHead; TRecv []]); last first.
  { eexists. apply step_exit, act_send. }
  apply reach_step with (mkSys (NewEndpoint c0) [TRegister "svc" "10.0.0.1" 80 reg0; TRefreshHead; TRecv []]); last first.
  { eexists. apply step_head, (act_register "svc" "10.0.0.1" 80 reg0). }
  apply reach_step with (mkSys (NewEndpoint c0) [TRefreshHead; TRecv []]); last first.
  { eexists.
    exact (step_register 100 "svc" "10.0.0.1" 80 1 None (NewEndpoint c0) [TRefreshHead; TRecv []]). }
  apply reach_init. by exists c0.
Qed.

(** An eviction can be undone by the refresh loop: there is a reachable state
    in which a client's [Evict] removes an instance and the very next action, one
    step of [registryRefresh] that stores its older copy back, makes the instance
    present again, with no registration in between. *)
Theorem evicted_instance_comes_back :
  ∃ s s' s'' : Sys string BaseCluster.BaseCluster,
    reachable initial any_step s ∧
    step (LEvict "svc" "10.0.0.1" 80) s s' ∧
    instance_of (ep s') "svc" "10.0.0.1" 80 = None ∧
    step LRefresh s' s'' ∧
    is_Some (instance_of (ep s'') "svc" "10.0.0.1" 80).
Proof.
  set (e1 := sync_out (mkSyncInfo registerAction reg0) e_reg).
  set (e2 := on_map (SafeMap.HDel "svc" (host_port "10.0.0.1" 80)) e1).
  exists (s_copy e1).
  exists (mkSys e2 [TSend (evict_info "svc" "10.0.0.1" 80); TRefreshRegs 110 "svc" [reg0] []; TRecv []]).
  eexists. split; [apply s_copy_reachable|]. split; [apply step_evict|]. split; [reflexivity|].
  split; [apply (step_thread _ [TSend (evict_info "svc" "10.0.0.1" 80)] _ [TRecv []]);
          apply act_refresh_reg|].
  exists reg0. reflexivity.
Qed.

(** The invariant at a reachable state with a registered instance. *)
Lemma registry_invariant_witness :
  reachable initial any_step (s_copy (sync_out (mkSyncInfo registerAction reg0) e_reg)) ∧
  SafeMap.wf (registryMap (ep (s_copy (sync_out (mkSyncInfo registerAction reg0) e_reg)))).
Proof.
  split; [apply s_copy_reachable|].
  exact (proj1 (registry_invariant _ s_copy_reachable)).
Defined.

End EndpointSteps.
