(* ===== verification/AkSk.v ===== *)
(** * Request signing between the servers

    Models the AK/SK middleware, which three servers carry a copy of:
    [server/service_discovery/server/midware/akskAuth.go],
    [server/agent_center/httptrans/midware/auth.go] and
    [server/manager/biz/midware/akskAuth.go].  A client signs method, path, query,
    access key, time stamp and body hash with its secret key; the server checks
    the age of the time stamp and recomputes the signature.  The copies differ in
    one thing: the service discovery server lower-cases the access key first.

    SHA-256 and HMAC-SHA-256 are parameters (the raw digests); nothing is assumed
    of them but that a digest is not empty. *)

From Stdlib Require Import Ascii.
From S2P Require Import Prelude GoStrings.
From stdpp Require Import options.

(** A request as the middleware sees it: a missing header is the empty string,
    [Body] is what reading the body returns ([None] for a read error). *)
Record Request := mkRequest {
  Method : string;
  URLPath : string;
  RawQuery : string;
  AccessKey : string;
  Signature : string;
  TimeStamp : string;
  Body : option string;
}.

(** Why a request is refused. *)
Inductive reason :=
| HeaderMissed
| TimeStampSyntax (e : num_error)
| TimeStampAge
| UserNotExist
| BodyError
| SignatureError.

(** [Next]: the request goes on to its handler. *)
Inductive verdict := Next | Abort_ (r : reason).

#[export] Instance reason_eq_dec : EqDecision reason.
Proof. solve_decision. Defined.
#[export] Instance verdict_eq_dec : EqDecision verdict.
Proof. solve_decision. Defined.

Definition formatURLPath (input : string) : string :=
  let input := trim_space input in
  if has_suffix "/" input then str_take (String.length input - 1) input else input.

Section aksk.
(** The digests, and lower-casing of strings that are not ASCII. *)
Context (sha256_sum : string → string) (hmac_sha256_sum : string → string → string)
  (unicode_lower : string → string).

(** [strings.ToLower]: bytewise on ASCII strings. *)
Definition ToLower (s : string) : string :=
  if is_ascii s then ascii_lower s else unicode_lower s.

Definition getSecKec (keys : gmap string string) (ak : string) : string :=
  match keys !! ak with
  | Some sk => sk
  | None => ""
  end.

Definition sha256byteArr (input : string) : string :=
  if decide (String.length input = 0) then ""
  else hex_EncodeToString (sha256_sum input).

Definition hmacSha256 (data secret : string) : string :=
  hex_EncodeToString (hmac_sha256_sum data secret).

(** The text that is signed.  The format is a raw string literal: its separators
    are the two characters backslash and n, not line feeds. *)
Definition sign_text (method url query ak timestamp : string) (requestBody : string) : string :=
  method +:+ "\n" +:+ url +:+ "\n" +:+ query +:+ "\n" +:+ ak +:+ "\n" +:+ timestamp +:+ "\n" +:+
  sha256byteArr requestBody.

Definition generateSign (method url query ak timestamp sk : string) (requestBody : string) : string :=
  hmacSha256 (sign_text method url query ak timestamp requestBody) sk.

(** The client side: [body] is [None] for a nil body, [Some None] for a read
    error; the result is the signed request, or [None] for that error. *)
Definition beforeRequestFunc (now : Z) (ak sk : string) (method path query : string)
    (body : option (option string)) : option Request :=
  let timestamp := itoa now in
  match (match body with Some b => b | None => Some "" end) with
  | None => None
  | Some requestBody =>
      let sign := generateSign method (formatURLPath path) query ak timestamp sk requestBody in
      Some (mkRequest method path query ak sign timestamp (Some requestBody))
  end.

(** The server side, [norm] being what is done to the access key first. *)
Definition check_request (norm : string → string) (keys : gmap string string) (now : Z)
    (req : Request) : verdict :=
  let ak := norm (AccessKey req) in
  let sign := Signature req in
  let timeStamp := TimeStamp req in
  if decide (ak = "" ∨ sign = "" ∨ timeStamp = "") then Abort_ HeaderMissed
  else
    let '(iTime, err) := parse_int timeStamp in
    match err with
    | Some e => Abort_ (TimeStampSyntax e)
    | None =>
        let timeDiff := int64 (now - iTime) in
        if decide (timeDiff >= 60 ∨ timeDiff ≤ -60)%Z then Abort_ TimeStampAge
        else
          let sk := getSecKec keys ak in
          if decide (sk = "") then Abort_ UserNotExist
          else
            match Body req with
            | None => Abort_ BodyError
            | Some requestBody =>
                let serverSign :=
                  generateSign (Method req) (formatURLPath (URLPath req)) (RawQuery req)
                    ak timeStamp sk requestBody in
                if decide (serverSign ≠ sign) then Abort_ SignatureError else Next
            end
    end.

(** The three copies. *)
Definition sd_AKSKAuth (AuthKeys : gmap string string) (now : Z) (req : Request) : verdict :=
  check_request ToLower AuthKeys now req.
Definition ac_AKSKAuth (HttpAkSkMap : gmap string string) (now : Z) (req : Request) : verdict :=
  check_request id HttpAkSkMap now req.
Definition mg_AKSKAuth (InnerAuth : gmap string string) (now : Z) (req : Request) : verdict :=
  check_request id InnerAuth now req.

(** ** Lemmas *)

Lemma check_request_Next norm keys now req :
  check_request norm keys now req = Next ↔
  ∃ ts sk body,
    norm (AccessKey req) ≠ "" ∧ Signature req ≠ "" ∧ TimeStamp req ≠ "" ∧
    parse_int (TimeStamp req) = (ts, None) ∧ (-60 < int64 (now - ts) < 60)%Z ∧
    keys !! norm (AccessKey req) = Some sk ∧ sk ≠ "" ∧ Body req = Some body ∧
    Signature req = generateSign (Method req) (formatURLPath (URLPath req)) (RawQuery req)
      (norm (AccessKey req)) (TimeStamp req) sk body.
Proof.
  clear unicode_lower. unfold check_request, getSecKec. split.
  - case_decide as Hh; [done|]. destruct (parse_int (TimeStamp req)) as [ts [e|]] eqn:Ep; [done|].
    case_decide as Ha; [done|]. destruct (keys !! norm (AccessKey req)) as [sk|] eqn:Ek; [|done].
    case_decide as Hs; [done|]. destruct (Body req) as [body|] eqn:Eb; [|done].
    case_decide as Hg; [done|]. intros _. exists ts, sk, body.
    split_and!; try tauto; try lia; done.
  - intros (ts & sk & body & Ha & Hg & Ht & Hp & [? ?] & Hk & Hsk & Hb & Hsig).
    rewrite decide_False by tauto. rewrite Hp, decide_False by lia.
    rewrite Hk, decide_False by done. rewrite Hb, decide_False; [done|]. intros Hn. by apply Hn.
Qed.

Lemma hex_ne_nil s : s ≠ "" → hex_EncodeToString s ≠ "".
Proof. by destruct s. Qed.


(** [C23] Soundness of the check, for the three servers (they differ in what is done
    to the access key): a request passes only if its time stamp is a number less
    than 60 seconds from the server's clock, the access key is a known one with a
    secret, and the signature is the one the secret gives for this very method,
    path, query, access key, time stamp and body. *)
Theorem accepted_request_signed (norm : string → string) (keys : gmap string string) (now : Z)
    (req : Request) (Hnow : (0 ≤ now < 2 ^ 62)%Z)
    (Hok : check_request norm keys now req = Next) :
  ∃ ts sk body, parse_int (TimeStamp req) = (ts, None) ∧ (-60 < now - ts < 60)%Z ∧
    keys !! norm (AccessKey req) = Some sk ∧ sk ≠ "" ∧ Body req = Some body ∧
    Signature req = generateSign (Method req) (formatURLPath (URLPath req)) (RawQuery req)
      (norm (AccessKey req)) (TimeStamp req) sk body.
Proof.
  clear unicode_lower. apply check_request_Next in Hok as (ts & sk & body & _ & _ & _ & Hp & Ha & Hk & Hsk & Hb & Hsig).
  exists ts, sk, body. pose proof (parse_int_range _ _ Hp) as Hr. unfold in_s in Hr.
  assert (-60 < now - ts < 60)%Z as [? ?]; [|done].
  unfold int64, wrap_s, wrap_u in Ha. Z.to_euclidean_division_equations. lia.
Qed.

(** The signed text does not determine the request: because the separators are
    the characters backslash and n, which path and query may contain, two requests
    that differ in path and query have the same signature under every key. *)
Theorem sign_text_ambiguous :
  ∃ url query url' query', (url, query) ≠ (url', query') ∧
    ∀ method ak timestamp sk body,
      generateSign method url query ak timestamp sk body =
      generateSign method url' query' ak timestamp sk body.
Proof.
  exists "/registry/list", "a\nb", "/registry/list\na", "b". split; [done|].
  intros. reflexivity.
Qed.

End aksk.

(** ** Instances of the theorems *)

(** Stand-ins for the digests. *)
Definition w_sum (s : string) : string := s.
Definition w_hmac (d k : string) : string := String "x" (k +:+ d).
Definition w_keys : gmap string string := {["agent-center" := "secret"]}.
Definition w_req : Request :=
  mkRequest "POST" "/registry/register/" "" "agent-center"
    (generateSign w_sum w_hmac "POST" "/registry/register" "" "agent-center" "1700000000" "secret" "{}")
    "1700000000" (Some "{}").


Lemma accepted_request_signed_witness :
  check_request w_sum w_hmac id w_keys 1700000030 w_req = Next ∧
  ∃ ts sk body, parse_int (TimeStamp w_req) = (ts, None) ∧ (-60 < 1700000030 - ts < 60)%Z ∧
    w_keys !! AccessKey w_req = Some sk ∧ sk ≠ "" ∧ Body w_req = Some body ∧
    Signature w_req = generateSign w_sum w_hmac (Method w_req) (formatURLPath (URLPath w_req))
      (RawQuery w_req) (AccessKey w_req) (TimeStamp w_req) sk body.
Proof.
  split; [reflexivity|].
  exact (accepted_request_signed w_sum w_hmac id w_keys 1700000030 w_req
    ltac:(lia) ltac:(reflexivity)).
Defined.
