(* ===== verification/SdServer.v ===== *)
(** * The HTTP interface of the service discovery server

    Models [server/service_discovery/server/handler/registry.go], [endpoint.go]
    and the routes of [server/router.go] over the operations of [Endpoint.v] and
    the middleware of [AkSk.v].  Decoding a JSON body is a parameter per message
    type ([None] for a body that does not decode); the draws of the random mode
    are an argument. *)

From S2P Require Import Prelude GoStrings SafeMap Cluster Fetch Endpoint AkSk.
From stdpp Require Import options.

Module SdServer.

Definition defaultFetchCount : Z := 100.
Definition StatusOK : Z := 200.
Definition StatusBadRequest : Z := 400.
Definition StatusForbidden : Z := 403.
Definition StatusNotFound : Z := 404.
Definition StatusServiceUnavailable : Z := 503.

Section server.
Context {X C : Type} `{Cluster C} `{Ranger} `{!GoSort (Endpoint.Registry (X:=X))}.
Local Notation Registry := (Endpoint.Registry (X:=X)).
Local Notation TransInfo := (Endpoint.TransInfo (X:=X)).
Local Notation EP := (Endpoint.Endpoint (X:=X) (C:=C)).

Record RegisterInfo := mkRegisterInfo {
  riName : string;
  riIp : string;
  riPort : Z;
  riWeight : Z;
  riExtra : option (gmap string X);
}.

Record EvictInfo := mkEvictInfo { eiName : string; eiIp : string; eiPort : Z }.

(** The ["data"] of a response. *)
Inductive payload :=
| NoData
| Reason (r : reason)
| Regs (l : list Registry)
| Names (l : list string)
| Summary (m : gmap string nat)
| Hosts (host : string) (members : list string)
| Metrics (text : string).

Record Response := mkResponse { code : Z; msg : string; data : payload }.

Context (bind_register : string → option RegisterInfo)
  (bind_evict : string → option EvictInfo) (bind_sync : string → option TransInfo).

(** ** Handlers *)

Definition Register (now : Z) (body : string) (e : EP) : Response * EP :=
  match bind_register body with
  | None => (mkResponse StatusBadRequest "post data error" NoData, e)
  | Some ri =>
      (mkResponse StatusOK "ok" NoData,
       Endpoint.Register now (riName ri) (riIp ri) (riPort ri) (riWeight ri) (riExtra ri) e)
  end.

Definition Evict (body : string) (e : EP) : Response * EP :=
  match bind_evict body with
  | None => (mkResponse StatusBadRequest "post data error" NoData, e)
  | Some ei =>
      (mkResponse StatusOK "ok" NoData, Endpoint.Evict (eiName ei) (eiIp ei) (eiPort ei) e)
  end.

Definition Sync (body : string) (e : EP) : Response * EP :=
  match bind_sync body with
  | None => (mkResponse StatusBadRequest "post data error" NoData, e)
  | Some ti =>
      let '(e', err) := Endpoint.Recv ti e in
      match err with
      | Some m => (mkResponse StatusServiceUnavailable m NoData, e')
      | None => (mkResponse StatusOK "ok" NoData, e')
      end
  end.

(** The parameters are those of the query; [Ret None] when the draws ran out. *)
Definition Fetch (draws : list Z) (name mode count : string) (e : EP) : outcome (option Response) :=
  if decide (name = "") then Ret (Some (mkResponse StatusBadRequest "no server name" NoData))
  else
    let fa : FetchAlgorithm Registry :=
      if decide (mode = "min") then λ items n, Ret (Some (FetchMinN items n))
      else if decide (mode = "max") then λ items n, Ret (Some (FetchMaxN items n))
      else if decide (mode = "rand") then FetchRandomN draws
      else λ items n, Ret (Some (FetchMinN items n)) in
    let n := (parse_int count).1 in
    let n := if decide (n = 0)%Z then 5%Z else n in
    if decide (n > defaultFetchCount)%Z
    then Ret (Some (mkResponse StatusBadRequest "fetch count out of limit" NoData))
    else
      let! r := Endpoint.Fetch name n fa e in
      match r with
      | None => Ret None
      | Some (regs, Some err) =>
          Ret (Some (mkResponse StatusServiceUnavailable ("fetch registry error: " +:+ err) NoData))
      | Some (regs, None) => Ret (Some (mkResponse StatusOK "ok" (Regs regs)))
      end.

Definition RegistryDetail (name : string) (e : EP) : Response :=
  if decide (name = "") then mkResponse StatusBadRequest "no server name" NoData
  else mkResponse StatusOK "ok" (Regs (Endpoint.RegistryDetail name e)).

Definition RegistryList (e : EP) : Response :=
  mkResponse StatusOK "ok" (Names (Endpoint.RegistryList e)).

Definition RegistrySummary (e : EP) : Response :=
  mkResponse StatusOK "ok" (Summary (Endpoint.RegistrySummary e)).

Definition Ping (e : EP) : Response :=
  mkResponse StatusOK "ok" (Hosts (GetHost (Endpoint.cluster e)) (GetHosts (Endpoint.cluster e))).

Definition EndpointStat (e : EP) : Response :=
  mkResponse StatusOK "ok" (Names (GetHosts (Endpoint.cluster e))).

(** ** Routes *)

Context (sha256_sum : string → string) (hmac_sha256_sum : string → string → string)
  (unicode_lower : string → string).

(** [abort] of the middleware. *)
Definition abort (r : reason) : Response := mkResponse StatusForbidden "auth failed" (Reason r).

(** The group of routes behind the middleware, if authentication is enabled. *)
Definition authorized (AuthEnable : bool) (AuthKeys : gmap string string) (now : Z) (req : Request)
    (handler : string → EP → Response * EP) (e : EP) : Response * EP :=
  let run := handler (default "" (Body req)) e in
  if AuthEnable then
    match sd_AKSKAuth sha256_sum hmac_sha256_sum unicode_lower AuthKeys now req with
    | Next => run
    | Abort_ r => (abort r, e)
    end
  else run.

(** One request; [name] is the query parameter of that name, [metrics] what
    [promhttp.Handler] writes. *)
Definition serve (metrics : string) (AuthEnable : bool) (AuthKeys : gmap string string) (now : Z) (req : Request)
    (name : string) (e : EP) : Response * EP :=
  let auth := authorized AuthEnable AuthKeys now req in
  if decide (Method req = "POST") then
    if decide (URLPath req = "/registry/register") then auth (Register now) e
    else if decide (URLPath req = "/registry/evict") then auth Evict e
    else if decide (URLPath req = "/registry/sync") then auth Sync e
    else (mkResponse StatusNotFound "" NoData, e)
  else if decide (Method req = "GET") then
    if decide (URLPath req = "/metrics") then (mkResponse StatusOK "" (Metrics metrics), e)
    else if decide (URLPath req = "/ping") then (mkResponse StatusOK "pong" NoData, e)
    else if decide (URLPath req = "/endpoint/ping") then (Ping e, e)
    else if decide (URLPath req = "/endpoint/stat") then (EndpointStat e, e)
    else if decide (URLPath req = "/registry/summary") then (RegistrySummary e, e)
    else if decide (URLPath req = "/registry/detail") then (RegistryDetail name e, e)
    else if decide (URLPath req = "/registry/list") then (RegistryList e, e)
    else (mkResponse StatusNotFound "" NoData, e)
  else (mkResponse StatusNotFound "" NoData, e).

(** ** What a request can change *)

Lemma authorized_unchanged AuthEnable AuthKeys now req handler e :
  let r := sd_AKSKAuth sha256_sum hmac_sha256_sum unicode_lower AuthKeys now req in
  AuthEnable = true → r ≠ Next →
  (∃ why, authorized AuthEnable AuthKeys now req handler e = (abort why, e)).
Proof. intros r -> Hr. unfold authorized. fold r. destruct r as [|why]; [done|]. eauto. Qed.

(** [C24] Only authenticated requests change the registry: with authentication
    enabled, a request that changes anything of the endpoint is a POST whose
    signature the middleware accepts; a refused POST is answered 403 and, like
    every GET, leaves the endpoint as it was. *)
Theorem only_authenticated_changes (metrics : string) (AuthKeys : gmap string string) (now : Z) (req : Request)
    (name : string) (e : EP) :
  let '(resp, e') := serve metrics true AuthKeys now req name e in
  let v := sd_AKSKAuth sha256_sum hmac_sha256_sum unicode_lower AuthKeys now req in
  (e' ≠ e → Method req = "POST" ∧ v = Next) ∧
  (v ≠ Next → e' = e ∧ (Method req = "POST" →
     code resp = StatusForbidden ∨ code resp = StatusNotFound)).
Proof.
  destruct (serve metrics true AuthKeys now req name e) as [resp e'] eqn:E. simpl.
  set (v := sd_AKSKAuth _ _ _ _ _ _) in *. unfold serve in E.
  destruct (decide (v = Next)) as [Hv|Hv].
  - split; [|done]. intros Hne. split; [|done].
    destruct (decide (Method req = "POST")); [done|].
    destruct Hne. repeat case_decide; by injection E.
  - assert (∀ h, ∃ why, authorized true AuthKeys now req h e = (abort why, e)) as Ha.
    { intros h. by apply authorized_unchanged. }
    assert (e' = e ∧ (Method req = "POST" → code resp = StatusForbidden ∨ code resp = StatusNotFound)) as [He Hc].
    { destruct (decide (Method req = "POST")); [|by repeat case_decide; simplify_eq].
      repeat case_decide;
        try match type of E with authorized _ _ _ _ ?h _ = _ =>
          destruct (Ha h) as [w Hw]; rewrite Hw in E end; simplify_eq; auto. }
    split; [|done]. intros Hne. done.
Qed.

(** ** The fetch handler *)

(** The answers of the fetch handler in the modes that do not draw: 400 for a
    missing name or a count above 100 (a count that is not a number counts as 5),
    503 for a service without instances, 200 with at most the requested number of
    instances otherwise; it always answers, and answers with instances of the
    service only. *)
Theorem Fetch_answers (draws : list Z) (name mode count : string) (e : EP)
    (He : Endpoint.ok e) (Hmode : mode ≠ "rand") :
  let n := (if decide ((parse_int count).1 = 0) then 5 else (parse_int count).1)%Z in
  ∃ resp, Fetch draws name mode count e = Ret (Some resp) ∧
    if decide (name = "" ∨ n > 100)%Z then code resp = StatusBadRequest ∧ data resp = NoData
    else if decide (Endpoint.instances name e = [])
    then code resp = StatusServiceUnavailable ∧ data resp = NoData
    else code resp = StatusOK ∧ ∃ regs, data resp = Regs regs ∧
      regs ⊆+ Endpoint.instances name e ∧ length regs ≤ Z.to_nat n.
Proof.
  clear unicode_lower sha256_sum hmac_sha256_sum bind_sync bind_register bind_evict.
  intros n. unfold Fetch. subst n. destruct (decide (name = "")) as [Hn|Hn].
  { eexists. split; [done|]. rewrite decide_True by tauto. done. }
  set (n := if decide ((parse_int count).1 = 0%Z) then 5%Z else _).
  destruct (decide (n > defaultFetchCount)%Z) as [Hc|Hc].
  { eexists. split; [done|]. rewrite decide_True by by right. done. }
  assert (¬ (name = "" ∨ n > 100)%Z) as Hok by (intros [?|?]; done).
  rewrite (decide_False (P := mode = "rand")) by done.
  set (fa := if decide (mode = "min") then _ else _).
  assert (∃ f : list (Item Registry) → Z → list (Item Registry),
    fa = (λ items n, Ret (Some (f items n))) ∧
    ∀ items n, f items n ⊆+ items ∧ length (f items n) ≤ Z.to_nat n) as (f & -> & Hf).
  { subst fa. destruct (decide (mode = "max")).
    - rewrite decide_False by congruence. exists FetchMaxN. split; [done|]. intros. apply FetchMaxN_sub.
    - exists FetchMinN. split; [by repeat case_decide|]. intros. apply FetchMinN_sub. }
  rewrite Endpoint.Fetch_unfold by done. unfold Endpoint.instances.
  destruct (SafeMap.dataMap (Endpoint.registryMap e) !! name) as [regMap|] eqn:E; simpl.
  - eexists. split; [done|]. rewrite (decide_False (P := _ ∨ _)) by done. rewrite decide_False by by eapply Endpoint.listed_nonempty.
    split; [done|]. eexists. split; [done|].
    destruct (Hf (Endpoint.fetch_items regMap) n) as [Hsub Hlen].
    rewrite <- Endpoint.fetch_items_data, length_map. split; [|done].
    by apply fmap_submseteq.
  - eexists. split; [done|]. rewrite (decide_False (P := _ ∨ _)) by done. rewrite decide_True by done. done.
Qed.

End server.

(** ** An instance *)

(** One registered instance, fetched with a count that is not a number. *)
Lemma Fetch_answers_witness :
  ∃ resp, Fetch [] "svc" "max" "all" (Endpoint.w_ep) = Ret (Some resp) ∧
    code resp = StatusOK ∧ ∃ regs, data resp = Regs regs ∧
      regs ⊆+ Endpoint.instances "svc" Endpoint.w_ep ∧ length regs ≤ 5.
Proof.
  destruct (Fetch_answers [] "svc" "max" "all" Endpoint.w_ep Endpoint.w_ep_ok) as (resp & E & HP);
    [done|].
  exists resp. split; [exact E|].
  rewrite decide_False in HP by (intros [?|?]; by vm_compute).
  rewrite decide_False in HP by (by vm_compute). exact HP.
Defined.

End SdServer.
