(* ===== verification/Registration.v ===== *)
(** * Servers register with the service discovery

    Models the clients of the service discovery: [svr_registry/svr_registry.go] of the
    agent center, and [infra/discovery/] of the manager, which also looks other servers
    up.  The last part runs such a client against the registry of [Endpoint.v]: a server
    that renews its registration stays registered. *)

From S2P Require Import Prelude GoStrings Cluster Endpoint.
From stdpp Require Import options.

(** The messages to the service discovery. *)
Inductive sd_request := ReqRegister (addr name ip : string) (port weight : Z) | ReqEvict (addr name ip : string) (port weight : Z).

(** ** The agent center ([svr_registry.go]) *)

Module AcRegistry.

(** A registration: what is posted, and whether the renewing goroutine runs. *)
Record ServerRegistry := mkReg {
  sName : string; Ip : string; Port : Z; Weight : Z; AddrList : list string; renewing : bool; stopped : bool
}.

(** [randomAddr]: [rand.Intn(0)] panics. *)
Definition randomAddr (draw : nat) (s : ServerRegistry) : outcome string :=
  match AddrList s !! (draw mod length (AddrList s)) with
  | Some a => Ret a
  | None => Panic "invalid argument to Intn"
  end.

(** [NewRegistry]: the goroutine that renews the registration is started only if the
    first post gets an answer. *)
Definition NewRegistry (svrName ip : string) (addrList : list string) (port : Z) (draw : nat)
    (posted : option string) : outcome (ServerRegistry * sd_request) :=
  let svr := mkReg svrName ip port 0 addrList false false in
  let! addr := randomAddr draw svr in
  Ret (mkReg svrName ip port 0 addrList (match posted with None => true | Some _ => false end) false,
       ReqRegister addr svrName ip port 0).

(** A tick of [renewRegistry]: the weight is the number of connections. *)
Definition renewRegistry_tick (count : nat) (draw : nat) (s : ServerRegistry)
    : outcome (ServerRegistry * option sd_request) :=
  if renewing s && negb (stopped s) then
    let! addr := randomAddr draw s in
    let s := mkReg (sName s) (Ip s) (Port s) (Z.of_nat count) (AddrList s) (renewing s) (stopped s) in
    Ret (s, Some (ReqRegister addr (sName s) (Ip s) (Port s) (Weight s)))
  else Ret (s, None).

(** [Stop]: closing the channel a second time panics. *)
Definition Stop (draw : nat) (s : ServerRegistry) : outcome (ServerRegistry * sd_request) :=
  if stopped s then Panic "close of closed channel"
  else
    let! addr := randomAddr draw s in
    Ret (mkReg (sName s) (Ip s) (Port s) (Weight s) (AddrList s) (renewing s) true,
         ReqEvict addr (sName s) (Ip s) (Port s) (Weight s)).

Definition SetWeight (w : Z) (s : ServerRegistry) : ServerRegistry :=
  mkReg (sName s) (Ip s) (Port s) w (AddrList s) (renewing s) (stopped s).

Definition NewGRPCServerRegistry (SvrName LocalIP : string) (SdAddrs : list string) (GRPCPort : Z)
    : nat → option string → outcome (ServerRegistry * sd_request) :=
  NewRegistry (SvrName +:+ "_grpc") LocalIP SdAddrs GRPCPort.

Definition NewHttpServerRegistry (SvrName LocalIP : string) (SdAddrs : list string) (HttpPort : Z)
    : nat → option string → outcome (ServerRegistry * sd_request) :=
  NewRegistry (SvrName +:+ "_http") LocalIP SdAddrs HttpPort.

End AcRegistry.

(** ** The manager ([infra/discovery/]) *)

Module MgRegistry.

Record ServerRegistry := mkReg {
  sName : string; Ip : string; Port : Z; Weight : Z; SDHost : string; renewing : bool; stopped : bool
}.

Definition NewRegistry (svrName ip sdUrl : string) (port : Z) (posted : option string) : ServerRegistry * sd_request :=
  (mkReg svrName ip port 0 sdUrl (match posted with None => true | Some _ => false end) false,
   ReqRegister sdUrl svrName ip port 0).

(** [infra.SDAddrs[rand.Int() % len(infra.SDAddrs)]]; a remainder by zero panics. *)
Definition random_host (draw : nat) (addrs : list string) : outcome string :=
  match addrs !! (draw mod length addrs) with
  | Some a => Ret a
  | None => Panic "integer divide by zero"
  end.

Definition NewServerRegistry (RegisterName LocalIP : string) (SDAddrs : list string) (HttpPort : Z) (draw : nat)
    (posted : option string) : outcome (ServerRegistry * sd_request) :=
  let! host := random_host draw SDAddrs in
  Ret (NewRegistry RegisterName LocalIP host HttpPort posted).

(** A tick: the manager keeps to the address it drew first. *)
Definition renewRegistry_tick (s : ServerRegistry) : option sd_request :=
  if renewing s && negb (stopped s)
  then Some (ReqRegister (SDHost s) (sName s) (Ip s) (Port s) (Weight s)) else None.

Definition Stop (s : ServerRegistry) : outcome (ServerRegistry * sd_request) :=
  if stopped s then Panic "close of closed channel"
  else Ret (mkReg (sName s) (Ip s) (Port s) (Weight s) (SDHost s) (renewing s) true,
            ReqEvict (SDHost s) (sName s) (Ip s) (Port s) 0).

Definition SetWeight (w : Z) (s : ServerRegistry) : ServerRegistry :=
  mkReg (sName s) (Ip s) (Port s) w (SDHost s) (renewing s) (stopped s).

(** [FetchRegistry]: the addresses of the instances the service discovery lists;
    [answer] is the decoded answer of the drawn server. *)
Definition FetchRegistry (SDAddrs : list string) (draw : nat) (answer : string → list (string * Z) + string)
    : outcome (list string * option string) :=
  let! sdHost := random_host draw SDAddrs in
  match answer sdHost with
  | inr err => Ret ([], Some err)
  | inl items => Ret ((λ '(ip, port), host_port ip port) <$> items, None)
  end.

(** The error is dropped. *)
Definition GetHosts (SDAddrs : list string) (draw : nat) (answer : string → list (string * Z) + string)
    : outcome (list string) :=
  let! (hosts, _) := FetchRegistry SDAddrs draw answer in Ret hosts.

Definition GetOtherHosts (SDAddrs : list string) (draw : nat) (answer : string → list (string * Z) + string)
    (LocalIP : string) (HttpPort : Z) : outcome (list string) :=
  let! (hosts, err) := FetchRegistry SDAddrs draw answer in
  match err with
  | Some _ => Ret []
  | None => Ret (filter (λ h, h ≠ host_port LocalIP HttpPort) hosts)
  end.

End MgRegistry.

(** ** A server that renews stays registered *)

Module Registration.

Section renewal.
Context {X : Type} {C : Type} `{Cluster C} `{Ranger}.
Local Abbreviation EP := (@Endpoint.Endpoint X C).

(** What reaches an endpoint: the clock is part of it. *)
Inductive event :=
| ERenew (now : Z) (count draw : nat)
| ERefresh (now : Z)
| EOther (o : Endpoint.op (X:=X)).

(** An endpoint that serves a request of a client. *)
Definition serve (now : Z) (r : sd_request) (e : EP) : EP :=
  match r with
  | ReqRegister _ name ip port weight => Endpoint.Register now name ip port weight None e
  | ReqEvict _ name ip port _ => Endpoint.Evict name ip port e
  end.

Definition run_event (st : AcRegistry.ServerRegistry * EP) (ev : event) : outcome (AcRegistry.ServerRegistry * EP) :=
  let '(s, e) := st in
  match ev with
  | ERenew now count draw =>
      let! (s, r) := AcRegistry.renewRegistry_tick count draw s in
      Ret (s, match r with Some r => serve now r e | None => e end)
  | ERefresh now => Ret (s, Endpoint.registryRefresh now e)
  | EOther o => Ret (s, Endpoint.exec_op e o)
  end.

Fixpoint run_events (evs : list event) (st : AcRegistry.ServerRegistry * EP) : outcome (AcRegistry.ServerRegistry * EP) :=
  match evs with
  | [] => Ret st
  | ev :: evs => let! st := run_event st ev in run_events evs st
  end.

(** The time of the last renewal and the number of connections it carried. *)
Definition latest (last : Z * Z) (ev : event) : Z * Z :=
  match ev with ERenew now count _ => (now, Z.of_nat count) | _ => last end.

Definition key_of (o : Endpoint.op (X:=X)) : string * string * Z :=
  match o with
  | Endpoint.OpRegister _ name ip port _ _ => (name, ip, port)
  | Endpoint.OpEvict name ip port => (name, ip, port)
  end.

Definition clock (t : Z) : Prop := (0 ≤ t < 2 ^ 62)%Z.

(** A run in which no round of the refresh finds the last renewal more than 105 seconds
    old, and nobody else registers or evicts this server. *)
Fixpoint timely (key : string * string * Z) (last : Z) (evs : list event) : Prop :=
  match evs with
  | [] => True
  | ERenew now _ _ :: evs => clock now ∧ timely key now evs
  | ERefresh now :: evs => clock now ∧ (now - last ≤ 105)%Z ∧ timely key last evs
  | EOther o :: evs => key_of o ≠ key ∧ timely key last evs
  end.

(** The server renews, and the endpoint knows it as of its last renewal. *)
Definition known (s : AcRegistry.ServerRegistry) (e : EP) (last : Z * Z) : Prop :=
  AcRegistry.AddrList s ≠ [] ∧ AcRegistry.renewing s = true ∧ AcRegistry.stopped s = false ∧ Endpoint.ok e ∧
  ∃ reg, Endpoint.instance_of e (AcRegistry.sName s) (AcRegistry.Ip s) (AcRegistry.Port s) = Some reg ∧
    Endpoint.UpdateAt reg = last.1 ∧ Endpoint.Weight reg = last.2.

Lemma randomAddr_draws draw s : AcRegistry.AddrList s ≠ [] → returns (AcRegistry.randomAddr draw s).
Proof using Type.
  intros Hne. unfold AcRegistry.randomAddr.
  destruct (lookup_lt_is_Some_2 (AcRegistry.AddrList s) (draw mod length (AcRegistry.AddrList s))) as [a ->].
  - apply Nat.mod_upper_bound. by destruct (AcRegistry.AddrList s).
  - by exists a.
Qed.

Lemma age_in_range now last : clock now → clock last → int64 (now - last) = (now - last)%Z.
Proof using Type. unfold clock. intros ? ?. apply wrap_s_id; [lia|]. unfold in_s. simpl. lia. Qed.

Lemma refreshed_young now (reg : Endpoint.Registry (X:=X)) :
  clock now → clock (Endpoint.UpdateAt reg) → (now - Endpoint.UpdateAt reg ≤ 105)%Z →
  ∃ reg', Endpoint.refreshed now reg = Some reg' ∧
    Endpoint.UpdateAt reg' = Endpoint.UpdateAt reg ∧ Endpoint.Weight reg' = Endpoint.Weight reg.
Proof using Type.
  intros Hn Hu Hage. unfold Endpoint.refreshed, Endpoint.status_of_age. rewrite age_in_range by done.
  repeat case_decide; simpl; by try (eexists; split; [done|split; done]); lia.
Qed.

Lemma run_event_known s e last ev evs :
  known s e last → clock last.1 →
  timely (AcRegistry.sName s, AcRegistry.Ip s, AcRegistry.Port s) last.1 (ev :: evs) →
  ∃ s' e', run_event (s, e) ev = Ret (s', e') ∧ known s' e' (latest last ev) ∧ clock (latest last ev).1 ∧
    (AcRegistry.sName s', AcRegistry.Ip s', AcRegistry.Port s') =
      (AcRegistry.sName s, AcRegistry.Ip s, AcRegistry.Port s) ∧
    timely (AcRegistry.sName s, AcRegistry.Ip s, AcRegistry.Port s) (latest last ev).1 evs.
Proof using Type.
  intros (Haddr & Hren & Hstop & Hok & reg & Hreg & Hu & Hw) Hcl Ht. destruct ev as [now count draw|now|o].
  - destruct Ht as [Hnow Ht]. destruct (randomAddr_draws draw s Haddr) as [addr Ha].
    unfold run_event, AcRegistry.renewRegistry_tick. rewrite Hren, Hstop, Ha. cbn [obind negb andb].
    eexists _, _. split; [done|]. split_and!; try done. cbn [serve AcRegistry.sName AcRegistry.Ip AcRegistry.Port].
    destruct (Endpoint.Register_facts now (AcRegistry.sName s) (AcRegistry.Ip s) (AcRegistry.Port s)
      (Z.of_nat count) None e Hok) as (Hok' & _ & reg' & Hreg' & _ & _ & _ & Hw' & Hu' & _).
    repeat (split; [done|]). by exists reg'.
  - destruct Ht as (Hnow & Hage & Ht). cbn [run_event latest]. eexists _, _. split; [done|]. split_and!; try done.
    destruct (Endpoint.registryRefresh_facts now e Hok) as (Hok' & Hinst & _).
    repeat (split; [done|]). rewrite Hinst, Hreg. simpl.
    destruct (refreshed_young now reg) as (reg' & -> & Hu' & Hw'); [done|by rewrite Hu|by rewrite Hu|].
    exists reg'. by rewrite Hu', Hw'.
  - destruct Ht as [Hkey Ht]. cbn [run_event latest]. eexists _, _. split; [done|]. split_and!; try done.
    repeat (split; [done|]). destruct o as [ts name ip port w ex|name ip port]; cbn [key_of Endpoint.exec_op] in *.
    + split; [by apply Endpoint.ok_Register|]. exists reg. rewrite Endpoint.instance_Register by done.
      rewrite decide_False; [done|naive_solver].
    + split; [by apply Endpoint.ok_Evict|]. exists reg. rewrite Endpoint.instance_Evict by done.
      rewrite decide_False; [done|naive_solver].
Qed.

Lemma run_events_known evs s e last :
  known s e last → clock last.1 →
  timely (AcRegistry.sName s, AcRegistry.Ip s, AcRegistry.Port s) last.1 evs →
  ∃ s' e', run_events evs (s, e) = Ret (s', e') ∧ known s' e' (foldl latest last evs) ∧
    (AcRegistry.sName s', AcRegistry.Ip s', AcRegistry.Port s') =
      (AcRegistry.sName s, AcRegistry.Ip s, AcRegistry.Port s).
Proof using Type.
  revert s e last. induction evs as [|ev evs IH]; intros s e last Hk Hc Ht; [by exists s, e|].
  destruct (run_event_known s e last ev evs Hk Hc Ht) as (s1 & e1 & E & Hk1 & Hc1 & Hs1 & Ht1).
  cbn [run_events]. rewrite E. cbn [obind]. rewrite <- Hs1 in Ht1.
  destruct (IH s1 e1 _ Hk1 Hc1 Ht1) as (s' & e' & -> & Hk' & Hs'). exists s', e'. by rewrite Hs', Hs1.
Qed.

(** An agent center whose first registration is answered stays registered as long as
    every round of the refresh finds its last renewal at most 105 seconds old: after any
    such run of renewals, refreshes and operations of other servers, the endpoint knows it
    with the weight of its last renewal. *)
Theorem renewed_stays_registered svrName ip addrs port draw t0 evs (e : EP) :
  addrs ≠ [] → Endpoint.ok e → clock t0 → timely (svrName, ip, port) t0 evs →
  ∃ s r s' e' reg,
    AcRegistry.NewRegistry svrName ip addrs port draw None = Ret (s, r) ∧
    run_events evs (s, serve t0 r e) = Ret (s', e') ∧
    Endpoint.instance_of e' svrName ip port = Some reg ∧
    (Endpoint.UpdateAt reg, Endpoint.Weight reg) = foldl latest (t0, 0%Z) evs.
Proof using Type.
  intros Hne Hok Hc Ht. unfold AcRegistry.NewRegistry.
  destruct (randomAddr_draws draw (AcRegistry.mkReg svrName ip port 0 addrs false false) Hne) as [a Ha].
  rewrite Ha. cbn [obind].
  destruct (Endpoint.Register_facts t0 svrName ip port 0 None e Hok) as (Hok' & _ & reg & Hreg & _ & _ & _ & Hw & Hu & _).
  destruct (run_events_known evs (AcRegistry.mkReg svrName ip port 0 addrs true false)
    (Endpoint.Register t0 svrName ip port 0 None e) (t0, 0%Z)) as (s' & e' & E & Hk & [= Hs1 Hs2 Hs3]); [|done..|].
  { repeat (split; [done|]). by exists reg. }
  destruct Hk as (_ & _ & _ & _ & reg' & Hreg' & Hu' & Hw'). rewrite Hs1, Hs2, Hs3 in Hreg'.
  eexists _, _, s', e', reg'. split_and!; [done|exact E|done|]. rewrite Hu', Hw'. by destruct (foldl latest _ evs).
Qed.

End renewal.

Lemma renewed_stays_registered_witness :
  ∃ s r s' e' reg,
    AcRegistry.NewRegistry "center_grpc" "10.0.0.9" ["sd:8088"] 6751 0 None = Ret (s, r) ∧
    run_events [ERefresh 30; ERenew 31 12 0; ERefresh 60; EOther (Endpoint.OpEvict "svc" "10.0.0.1" 80); ERefresh 120]
      (s, serve 1 r Endpoint.w_ep) = Ret (s', e') ∧
    Endpoint.instance_of e' "center_grpc" "10.0.0.9" 6751 = Some reg ∧
    (Endpoint.UpdateAt reg, Endpoint.Weight reg) = (31, 12)%Z.
Proof.
  apply (renewed_stays_registered "center_grpc" "10.0.0.9" ["sd:8088"] 6751 0 1
    [ERefresh 30; ERenew 31 12 0; ERefresh 60; EOther (Endpoint.OpEvict "svc" "10.0.0.1" 80); ERefresh 120]).
  - done.
  - apply Endpoint.w_ep_ok.
  - unfold clock. lia.
  - simpl. unfold clock. split_and!; try lia; done.
Defined.

End Registration.
