(* ===== verification/Wire.v ===== *)
(** * Bytes, varints and buffers

    What the wire format of the agent and its plugins is made of: the writer that
    fills a buffer from its end ([encodeVarintBridge], [sovBridge] and the copies of
    [plugins/lib/go/bridge.pb.go]), the varint loops that read from a slice, and the
    [readVarint] of [agent/plugin/protocol.go] that reads from a stream.  A byte is
    an [ascii] character, so that a Go string and its bytes are the same data; a
    buffer is the list of its bytes, and an access outside panics. *)

From Stdlib Require Import Ascii.
From S2P Require Import Prelude.
From stdpp Require Import options.

Local Open Scope Z_scope.

Abbreviation bytes := (list ascii).

(** [byte(z)] and the value of a byte. *)
Definition u8 (z : Z) : ascii := ascii_of_N (Z.to_N (z `mod` 256)).
Definition zb (b : ascii) : Z := Z.of_N (N_of_ascii b).

Definition bytes_of (s : string) : bytes := String.list_ascii_of_string s.
Definition string_of (b : bytes) : string := String.string_of_list_ascii b.

(** [int(b & 0x7F)]. *)
Definition low7 (b : ascii) : Z := Z.land (zb b) 127.

(** ** Writing *)

(** [d[i] = b]. *)
Definition put (d : bytes) (i : Z) (b : ascii) : outcome bytes :=
  if decide (0 ≤ i < Z.of_nat (length d)) then Ret (<[Z.to_nat i := b]> d)
  else Panic "index out of range".

(** [copy(d[i:], s)]: as much of [s] as fits. *)
Definition copy_at (d : bytes) (i : Z) (s : bytes) : outcome bytes :=
  if decide (0 ≤ i ≤ Z.of_nat (length d))
  then Ret (take (length d) (take (Z.to_nat i) d ++ s ++ drop (Z.to_nat i + length s) d))
  else Panic "slice bounds out of range".

(** [math_bits.Len64]: the bits of a [uint64]. *)
Definition Len64 (x : Z) : Z := if decide (x ≤ 0) then 0 else Z.log2 x + 1.

Definition sov (x : Z) : Z := (Len64 (Z.lor x 1) + 6) / 7.

(** The loop [for v >= 1<<7]; [fuel] of 10 covers 64 bits. *)
Fixpoint encode_loop (fuel : nat) (d : bytes) (offset v : Z) : outcome bytes :=
  match fuel with
  | O => Panic "out of fuel"
  | S fuel =>
      if decide (v >= 128) then
        let! d := put d offset (u8 (Z.lor (Z.land v 127) 128)) in
        encode_loop fuel d (offset + 1) (Z.shiftr v 7)
      else put d offset (u8 v)
  end.

Definition encodeVarint (d : bytes) (offset v : Z) : outcome (bytes * Z) :=
  let offset := offset - sov v in
  let base := offset in
  let! d := encode_loop 10 d offset v in
  Ret (d, base).

(** ** Reading *)

Inductive error :=
| EOF
| ErrUnexpectedEOF
| ErrIntOverflow
| ErrInvalidLength
| ErrUnexpectedEndOfGroup
| ErrWireType (t : Z)
| ErrTag (n : Z)
| ErrFuel.

#[export] Instance error_eq_dec : EqDecision error.
Proof. solve_decision. Defined.

(** The varint loop over a slice: [conv] is the conversion of the variable's type,
    [k] the iterations that are left before [shift >= 64].  Returns the value and
    the index behind it. *)
Fixpoint slice_varint (conv : Z → Z) (k : nat) (d : bytes) (i : Z) (shift acc : Z)
    : (Z * Z) + error :=
  match k with
  | O => inr ErrIntOverflow
  | S k =>
      if decide (i >= Z.of_nat (length d)) then inr ErrUnexpectedEOF
      else
        match d !! Z.to_nat i with
        | None => inr ErrUnexpectedEOF
        | Some b =>
            let acc := Z.lor acc (conv (Z.shiftl (low7 b) shift)) in
            if decide (zb b < 128) then inl (acc, i + 1)
            else slice_varint conv k d (i + 1) (shift + 7) acc
        end
  end.

Definition get_varint (conv : Z → Z) (d : bytes) (i : Z) : (Z * Z) + error :=
  slice_varint conv 10 d i 0 0.

(** [r.ReadByte], [r.Discard(1)] on a stream that ends after the given bytes. *)
Definition ReadByte (r : bytes) : (ascii * bytes) + error :=
  match r with [] => inr EOF | b :: r => inl (b, r) end.

(** [io.ReadFull(r, buf)] with [len(buf) = n]: an empty buffer reads nothing. *)
Definition ReadFull (n : nat) (r : bytes) : (bytes * bytes) + error :=
  if decide (n ≤ length r)%nat then inl (take n r, drop n r)
  else if decide (r = []) then inr EOF else inr ErrUnexpectedEOF.

(** The loop of [readVarint]: value, bytes eaten and the rest of the stream; on an
    error the stream as far as it was read. *)
Fixpoint readVarint_loop (k : nat) (r : bytes) (shift varint eaten : Z)
    : ((Z * Z) + error) * bytes :=
  match k with
  | O => (inr ErrIntOverflow, r)
  | S k =>
      match ReadByte r with
      | inr e => (inr e, r)
      | inl (b, r) =>
          let eaten := eaten + 1 in
          let varint := Z.lor varint (int64 (Z.shiftl (low7 b) shift)) in
          if decide (zb b < 128) then (inl (varint, eaten), r)
          else readVarint_loop k r (shift + 7) varint eaten
      end
  end.

Definition readVarint (r : bytes) : ((Z * Z) + error) * bytes := readVarint_loop 10 r 0 0 0.

(** ** Bytes *)

Lemma zb_range b : 0 ≤ zb b < 256.
Proof. unfold zb. pose proof (N_ascii_bounded b). lia. Qed.

Lemma zb_u8 z : 0 ≤ z < 256 → zb (u8 z) = z.
Proof.
  intros. unfold zb, u8. rewrite Z.mod_small by lia.
  rewrite N_ascii_embedding by lia. lia.
Qed.

Lemma string_of_bytes_of s : string_of (bytes_of s) = s.
Proof. apply String.string_of_list_ascii_of_string. Qed.

Lemma length_bytes_of s : length (bytes_of s) = String.length s.
Proof. induction s; simpl; congruence. Qed.

(** ** Varints

    The bytes of a value, least significant group first. *)

Fixpoint varint_aux (k : nat) (v : Z) : bytes :=
  match k with
  | O => []
  | S k => if decide (v >= 128) then u8 (Z.lor (Z.land v 127) 128) :: varint_aux k (Z.shiftr v 7)
           else [u8 v]
  end.

Definition varint (v : Z) : bytes := varint_aux 10 v.
#[global] Arguments varint : simpl never.

Lemma shiftr7_bound v (k : nat) : 0 ≤ v < 2 ^ (7 * Z.of_nat (S k)) → 0 ≤ Z.shiftr v 7 < 2 ^ (7 * Z.of_nat k).
Proof.
  intros Hv. rewrite Z.shiftr_div_pow2 by lia. change (2 ^ 7) with 128. split; [apply Z.div_pos; lia|].
  apply Z.div_lt_upper_bound; [lia|].
  replace (7 * Z.of_nat (S k)) with (7 + 7 * Z.of_nat k) in Hv by lia.
  rewrite Z.pow_add_r in Hv by lia. change (2 ^ 7) with 128 in Hv. lia.
Qed.

(** A continuation byte: its top bit is set, its low bits are those of the value. *)
Lemma cont_byte v : zb (u8 (Z.lor (Z.land v 127) 128)) = 128 + v `mod` 128.
Proof.
  assert (Z.land v 127 = v `mod` 128) as Hl by (change 127 with (Z.ones 7); by apply Z.land_ones).
  pose proof (Z.mod_pos_bound v 128).
  assert (Z.lor (Z.land v 127) 128 = 128 + v `mod` 128) as ->.
  { rewrite Z.lor_comm, Hl, <- Z.add_lor_land.
    replace (Z.land 128 (v `mod` 128)) with 0; [lia|].
    symmetry. apply Z.bits_inj'. intros i Hi. rewrite Z.land_spec, Z.bits_0.
    change 128 with (2 ^ 7) at 1. rewrite Z.pow2_bits_eqb by lia.
    destruct (Z.eqb_spec 7 i) as [<-|]; [|done]. simpl.
    apply (Z.mod_pow2_bits_high v 7 7). lia. }
  apply zb_u8. lia.
Qed.

Lemma low7_mod b : low7 b = zb b `mod` 128.
Proof. unfold low7. change 127 with (Z.ones 7). by rewrite Z.land_ones by lia. Qed.

Lemma low7_cont v : low7 (u8 (Z.lor (Z.land v 127) 128)) = v `mod` 128.
Proof.
  rewrite low7_mod, cont_byte.
  replace (128 + v `mod` 128) with (v `mod` 128 + 1 * 128) by lia.
  rewrite Z.mod_add by lia. by rewrite Zmod_mod.
Qed.

(** The value from its low group and the rest. *)
Lemma lor_groups v s : 0 ≤ s →
  Z.lor (Z.shiftl (v `mod` 128) s) (Z.shiftl (Z.shiftr v 7) (s + 7)) = Z.shiftl v s.
Proof.
  intros Hs. rewrite (Z.add_comm s 7), <- Z.shiftl_shiftl, <- Z.shiftl_lor by lia. f_equal.
  rewrite <- Z.ldiff_ones_r by lia. change (v `mod` 128) with (v `mod` 2 ^ 7).
  rewrite <- Z.land_ones by lia. rewrite Z.lor_comm. apply Z.lor_ldiff_and.
Qed.

(** ** Conversions act bit by bit *)

Class BitConv (conv : Z → Z) := {
  conv_lor : ∀ a b, conv (Z.lor a b) = Z.lor (conv a) (conv b);
  conv_0 : conv 0 = 0;
}.

Lemma wrap_u_bits w z i : 0 ≤ w → 0 ≤ i →
  Z.testbit (wrap_u w z) i = bool_decide (i < w) && Z.testbit z i.
Proof.
  intros. unfold wrap_u. case_bool_decide; simpl.
  - by apply Z.mod_pow2_bits_low.
  - apply Z.mod_pow2_bits_high. lia.
Qed.

(** Sign extension. *)
Lemma wrap_s_alt w z : 0 < w →
  wrap_s w z = if Z.testbit z (w - 1) then wrap_u w z - 2 ^ w else wrap_u w z.
Proof.
  intros Hw. unfold wrap_s, wrap_u.
  assert (2 ^ w = 2 * 2 ^ (w - 1)) as Hp by (rewrite <- Z.pow_succ_r by lia; f_equal; lia).
  pose proof (Z.pow_pos_nonneg 2 (w - 1)).
  assert (Hm : z = z `mod` 2 ^ w + 2 ^ w * (z / 2 ^ w)) by (pose proof (Z.div_mod z (2 ^ w)); lia).
  pose proof (Z.mod_pos_bound z (2 ^ w)) as Hb.
  assert (Hmid : Z.testbit z (w - 1) = Z.testbit (z `mod` 2 ^ w) (w - 1)).
  { by rewrite Z.mod_pow2_bits_low by lia. }
  rewrite Hmid. set (m := z `mod` 2 ^ w) in *.
  assert ((z + 2 ^ (w - 1)) `mod` 2 ^ w = (m + 2 ^ (w - 1)) `mod` 2 ^ w) as ->.
  { rewrite Hm at 1. rewrite <- (Z_mod_plus_full (m + 2 ^ (w - 1)) (z / 2 ^ w) (2 ^ w)).
    f_equal. lia. }
  assert (Z.testbit m (w - 1) = Z.odd (m / 2 ^ (w - 1))) as Ht.
  { by rewrite Z.testbit_odd, Z.shiftr_div_pow2 by lia. }
  destruct (decide (m < 2 ^ (w - 1))) as [Hlt|Hge].
  - rewrite Z.div_small in Ht by lia. rewrite Ht. simpl. rewrite Z.mod_small; lia.
  - assert (m / 2 ^ (w - 1) = 1) as Hq.
    { symmetry. apply (Z.div_unique_pos _ _ _ (m - 2 ^ (w - 1))); lia. }
    rewrite Hq in Ht. rewrite Ht. simpl.
    rewrite <- (Z_mod_plus_full _ (-1)), Z.mod_small; lia.
Qed.

Lemma wrap_s_bits w z i : 0 < w → 0 ≤ i →
  Z.testbit (wrap_s w z) i = Z.testbit z (Z.min i (w - 1)).
Proof.
  intros Hw Hi. rewrite wrap_s_alt by done. pose proof (wrap_u_range w z ltac:(lia)) as Hr.
  unfold in_u in Hr. destruct (Z.testbit z (w - 1)) eqn:E.
  - replace (wrap_u w z - 2 ^ w) with (Z.lor (wrap_u w z) (- 2 ^ w)).
    + rewrite Z.lor_spec, wrap_u_bits by lia.
      replace (- 2 ^ w) with (Z.lnot (Z.ones w)) by (rewrite Z.ones_equiv; unfold Z.lnot; lia).
      rewrite Z.lnot_spec by lia. case_bool_decide.
      * rewrite Z.ones_spec_low, Z.min_l, orb_false_r by lia. done.
      * rewrite Z.ones_spec_high, Z.min_r by lia. done.
    + replace (- 2 ^ w) with (Z.lnot (Z.ones w)) at 1 by (rewrite Z.ones_equiv; unfold Z.lnot; lia).
      assert (Z.land (wrap_u w z) (Z.lnot (Z.ones w)) = 0) as Hl.
      { apply Z.bits_inj'. intros j Hj. rewrite Z.land_spec, Z.lnot_spec, wrap_u_bits, Z.bits_0 by lia.
        case_bool_decide; simpl; [|done]. by rewrite Z.ones_spec_low, andb_false_r by lia. }
      pose proof (Z.add_lor_land (wrap_u w z) (Z.lnot (Z.ones w))) as Ha. rewrite Hl in Ha.
      rewrite Z.add_0_r in Ha. rewrite Ha, Z.ones_equiv. unfold Z.lnot. lia.
  - rewrite wrap_u_bits by lia. case_bool_decide.
    + by rewrite Z.min_l by lia.
    + by rewrite Z.min_r, E by lia.
Qed.

Lemma wrap_u_BitConv w : 0 ≤ w → BitConv (wrap_u w).
Proof.
  intros Hw.
  split; [|done]. intros a b. apply Z.bits_inj'. intros i Hi.
  rewrite Z.lor_spec, !wrap_u_bits, Z.lor_spec by lia. by destruct (bool_decide _).
Qed.

Lemma wrap_s_BitConv w : 0 < w → BitConv (wrap_s w).
Proof.
  intros Hw.
  split; [|apply wrap_s_id; [done|]; unfold in_s; lia]. intros a b. apply Z.bits_inj'. intros i Hi.
  by rewrite Z.lor_spec, !wrap_s_bits, Z.lor_spec by lia.
Qed.

#[export] Instance int64_BitConv : BitConv int64.
Proof. apply wrap_s_BitConv. lia. Qed.
#[export] Instance int32_BitConv : BitConv int32.
Proof. apply wrap_s_BitConv. lia. Qed.
#[export] Instance uint64_BitConv : BitConv uint64.
Proof. apply wrap_u_BitConv. lia. Qed.

(** ** The size of a varint *)

Lemma Len64_log2 v : 0 < v → Len64 (Z.lor v 1) = Z.log2 v + 1.
Proof.
  intros Hv. unfold Len64. rewrite decide_False.
  - rewrite Z.log2_lor by lia. change (Z.log2 1) with 0. pose proof (Z.log2_nonneg v). lia.
  - assert (0 ≤ Z.lor v 1) by (rewrite Z.lor_nonneg; lia).
    intros Hle. assert (Z.lor v 1 = 0) as E by lia. apply Z.lor_eq_0_l in E. lia.
Qed.

Lemma sov_small v : 0 ≤ v < 128 → sov v = 1.
Proof.
  intros Hv. unfold sov. destruct (decide (v = 0)) as [->|]; [done|].
  rewrite Len64_log2 by lia.
  assert (Z.log2 v < 7) by (apply Z.log2_lt_pow2; lia). pose proof (Z.log2_nonneg v).
  symmetry. apply (Z.div_unique_pos _ _ _ (Z.log2 v)); lia.
Qed.

Lemma sov_step v : 128 ≤ v → sov v = 1 + sov (Z.shiftr v 7).
Proof.
  intros Hv. unfold sov.
  assert (1 ≤ Z.shiftr v 7) as Hs.
  { rewrite Z.shiftr_div_pow2 by lia. change (2 ^ 7) with 128. apply Z.div_le_lower_bound; lia. }
  rewrite !Len64_log2 by lia. rewrite Z.log2_shiftr by lia.
  assert (7 ≤ Z.log2 v) by (apply Z.log2_le_pow2; lia).
  rewrite Z.max_r by lia.
  replace (Z.log2 v + 1 + 6) with (Z.log2 v - 7 + 1 + 6 + 1 * 7) by lia.
  rewrite Z.div_add by lia. lia.
Qed.

Lemma varint_aux_sov k v :
  0 ≤ v < 2 ^ (7 * Z.of_nat k) → k ≠ O → Z.of_nat (length (varint_aux k v)) = sov v.
Proof.
  revert v. induction k as [|k IH]; intros v Hv Hk; [done|]. simpl varint_aux. case_decide.
  - rewrite sov_step by lia. simpl length. rewrite Nat2Z.inj_succ, IH; [lia|by apply shiftr7_bound|].
    intros ->. simpl in Hv. lia.
  - by rewrite sov_small by lia.
Qed.

Lemma in_u64_groups v : in_u 64 v → 0 ≤ v < 2 ^ (7 * Z.of_nat 10).
Proof.
  unfold in_u. replace (7 * Z.of_nat 10) with 70 by lia.
  assert (2 ^ 64 < 2 ^ 70) by (apply Z.pow_lt_mono_r; lia). lia.
Qed.

Lemma varint_sov v : in_u 64 v → Z.of_nat (length (varint v)) = sov v.
Proof. intros Hv. apply varint_aux_sov; [by apply in_u64_groups|done]. Qed.

Lemma varint_aux_pos k v : (1 ≤ length (varint_aux (S k) v))%nat.
Proof. simpl. case_decide; simpl; lia. Qed.

Lemma sov_pos v : in_u 64 v → 1 ≤ sov v.
Proof.
  intros Hv. rewrite <- varint_sov by done. pose proof (varint_aux_pos 9 v). unfold varint. lia.
Qed.

Lemma varint_aux_length k v : (length (varint_aux k v) ≤ k)%nat.
Proof. revert v. induction k as [|k IH]; intros v; simpl; [lia|]. case_decide; simpl; [|lia]. specialize (IH (Z.shiftr v 7)). lia. Qed.

Lemma sov_bound v : in_u 64 v → 1 ≤ sov v ≤ 10.
Proof.
  intros Hv. split; [by apply sov_pos|]. rewrite <- varint_sov by done.
  pose proof (varint_aux_length 10 v). unfold varint. lia.
Qed.

(** ** Writers

    [appends f out]: [f] puts [out] in front of what has been written, given a
    buffer with room for it. *)

Definition appends (f : bytes → Z → outcome (bytes * Z)) (out : bytes) : Prop :=
  ∀ pre mid suf, length mid = length out →
    f (pre ++ mid ++ suf) (Z.of_nat (length pre + length mid)) =
      Ret (pre ++ out ++ suf, Z.of_nat (length pre)).

Definition andthen (f g : bytes → Z → outcome (bytes * Z)) (d : bytes) (i : Z) : outcome (bytes * Z) :=
  let! (d, i) := f d i in g d i.

Lemma appends_id : appends (λ d i, Ret (d, i)) [].
Proof. intros pre [|] suf; [|done]. simpl. by rewrite Nat.add_0_r. Qed.

(** A writer followed by one that writes the size of what the first wrote. *)
Lemma appends_sized f g a b :
  appends f a → appends (g (Z.of_nat (length a))) b →
  appends (λ d i, let! (d, i') := f d i in g (i - i') d i') (b ++ a).
Proof.
  intros Hf Hg pre mid suf Hm. rewrite length_app in Hm.
  rewrite <- (take_drop (length b) mid).
  assert (length (take (length b) mid) = length b) as Hb by (rewrite length_take; lia).
  assert (length (drop (length b) mid) = length a) as Ha by (rewrite length_drop; lia).
  set (mb := take _ mid) in *. set (ma := drop _ mid) in *.
  rewrite length_app, Nat.add_assoc, <- length_app, <- app_assoc, app_assoc, Hf by done. simpl.
  replace (Z.of_nat (length (pre ++ mb) + length ma) - Z.of_nat (length (pre ++ mb)))
    with (Z.of_nat (length a)) by lia.
  rewrite <- app_assoc, length_app, Hg by done. by rewrite <- app_assoc.
Qed.

Lemma appends_andthen f g a b : appends f a → appends g b → appends (andthen f g) (b ++ a).
Proof. apply (appends_sized f (λ _, g)). Qed.

Lemma put_middle pre x suf b :
  put (pre ++ x :: suf) (Z.of_nat (length pre)) b = Ret (pre ++ b :: suf).
Proof.
  unfold put. rewrite decide_True by (rewrite length_app; simpl; lia).
  by rewrite Nat2Z.id, insert_app_r_alt, Nat.sub_diag by lia.
Qed.

(** The writer [i--; d[i] = b]. *)
Definition put_byte (b : ascii) (d : bytes) (i : Z) : outcome (bytes * Z) :=
  let i := i - 1 in let! d := put d i b in Ret (d, i).

(** The writer [i -= len(s); copy(d[i:], s)]. *)
Definition put_bytes (s : bytes) (d : bytes) (i : Z) : outcome (bytes * Z) :=
  let i := i - Z.of_nat (length s) in let! d := copy_at d i s in Ret (d, i).

(** The writer [i = encodeVarint(d, i, v)]. *)
Definition put_varint (v : Z) (d : bytes) (i : Z) : outcome (bytes * Z) := encodeVarint d i v.

Lemma put_byte_appends b : appends (put_byte b) [b].
Proof.
  intros pre [|x [|]] suf; try done. intros _. unfold put_byte. simpl.
  replace (Z.of_nat (length pre + 1) - 1) with (Z.of_nat (length pre)) by lia.
  by rewrite put_middle.
Qed.

Lemma put_bytes_appends s : appends (put_bytes s) s.
Proof.
  intros pre mid suf Hm. unfold put_bytes, copy_at. rewrite Hm.
  replace (Z.of_nat (length pre + length s) - Z.of_nat (length s)) with (Z.of_nat (length pre)) by lia.
  rewrite decide_True by (rewrite !length_app; lia). simpl. rewrite Nat2Z.id, take_app_length.
  rewrite app_assoc. rewrite (drop_app_length' (pre ++ mid)) by (rewrite length_app; lia).
  rewrite take_ge by (rewrite !length_app; lia). done.
Qed.

Lemma encode_loop_spec k v pre mid suf :
  0 ≤ v < 2 ^ (7 * Z.of_nat k) → k ≠ O → length mid = length (varint_aux k v) →
  encode_loop k (pre ++ mid ++ suf) (Z.of_nat (length pre)) v = Ret (pre ++ varint_aux k v ++ suf).
Proof.
  revert v pre mid. induction k as [|k IH]; intros v pre mid Hv Hk Hm; [done|].
  simpl in Hm |- *. case_decide.
  - destruct mid as [|x mid]; [done|]. simpl. rewrite put_middle. simpl.
    rewrite cons_middle, app_assoc.
    replace (Z.of_nat (length pre) + 1) with
      (Z.of_nat (length (pre ++ [u8 (Z.lor (Z.land v 127) 128)]))) by (rewrite length_app; simpl; lia).
    rewrite IH; [by rewrite <- app_assoc|by apply shiftr7_bound| |by simpl in Hm; lia].
    intros ->. simpl in Hv. lia.
  - destruct mid as [|x [|]]; try done. simpl. by rewrite put_middle.
Qed.

Lemma put_varint_appends v : in_u 64 v → appends (put_varint v) (varint v).
Proof.
  intros Hv pre mid suf Hm. unfold put_varint, encodeVarint.
  replace (Z.of_nat (length pre + length mid) - sov v) with (Z.of_nat (length pre))
    by (rewrite <- varint_sov by done; lia).
  rewrite encode_loop_spec; [done|by apply in_u64_groups|done|done].
Qed.

#[export] Hint Resolve appends_id appends_andthen put_byte_appends put_bytes_appends
  put_varint_appends : go.

(** ** Readers *)

Lemma slice_varint_spec conv `{!BitConv conv} k v d i rest shift acc :
  0 ≤ v < 2 ^ (7 * Z.of_nat k) → k ≠ O → 0 ≤ i → 0 ≤ shift →
  drop (Z.to_nat i) d = varint_aux k v ++ rest →
  slice_varint conv k d i shift acc =
    inl (Z.lor acc (conv (Z.shiftl v shift)), i + Z.of_nat (length (varint_aux k v))).
Proof.
  revert v i shift acc. induction k as [|k IH]; intros v i shift acc Hv Hk Hi Hs Hd; [done|].
  assert (∃ b q, varint_aux (S k) v ++ rest = b :: q) as (b & q & E).
  { simpl. case_decide; eauto. }
  assert (d !! Z.to_nat i = Some b ∧ drop (S (Z.to_nat i)) d = q) as [Hb Hq].
  { rewrite E in Hd. split.
    - rewrite <- (Nat.add_0_r (Z.to_nat i)), <- lookup_drop, Hd. done.
    - replace (S (Z.to_nat i)) with (Z.to_nat i + 1)%nat by lia. by rewrite <- drop_drop, Hd. }
  simpl slice_varint. rewrite decide_False by (apply lookup_lt_Some in Hb; lia).
  rewrite Hb. simpl in E |- *. destruct (decide (v >= 128)) as [Hge|Hlt]; simpl in E; simplify_eq.
  - rewrite decide_False by (rewrite cont_byte; pose proof (Z.mod_pos_bound v 128); lia).
    rewrite IH with (v := Z.shiftr v 7); [|by apply shiftr7_bound| |lia|lia|].
    + f_equal. f_equal; [|simpl; lia].
      rewrite <- Z.lor_assoc, <- conv_lor, low7_cont, lor_groups by lia. done.
    + intros ->. simpl in Hv. lia.
    + replace (Z.to_nat (i + 1)) with (S (Z.to_nat i)) by lia. done.
  - rewrite decide_True by (rewrite zb_u8; lia). simpl.
    rewrite low7_mod, zb_u8, Z.mod_small by lia. done.
Qed.

Lemma get_varint_spec conv `{!BitConv conv} v d i rest :
  in_u 64 v → 0 ≤ i → drop (Z.to_nat i) d = varint v ++ rest →
  get_varint conv d i = inl (conv v, i + Z.of_nat (length (varint v))).
Proof.
  intros Hv Hi Hd. unfold get_varint.
  erewrite slice_varint_spec; [|done|by apply in_u64_groups|done..|exact Hd].
  by rewrite Z.lor_0_l, Z.shiftl_0_r.
Qed.

Lemma readVarint_loop_spec k v rest shift acc eaten :
  0 ≤ v < 2 ^ (7 * Z.of_nat k) → k ≠ O → 0 ≤ shift →
  readVarint_loop k (varint_aux k v ++ rest) shift acc eaten =
    (inl (Z.lor acc (int64 (Z.shiftl v shift)), eaten + Z.of_nat (length (varint_aux k v))), rest).
Proof.
  revert v shift acc eaten. induction k as [|k IH]; intros v shift acc eaten Hv Hk Hs; [done|].
  simpl. destruct (decide (v >= 128)) as [Hge|Hlt]; simpl.
  - rewrite decide_False by (rewrite cont_byte; pose proof (Z.mod_pos_bound v 128); lia).
    rewrite IH; [|by apply shiftr7_bound| |lia].
    + rewrite <- Z.lor_assoc, <- conv_lor, low7_cont, lor_groups by lia.
      do 3 f_equal. lia.
    + intros ->. simpl in Hv. lia.
  - rewrite decide_True by (rewrite zb_u8; lia).
    rewrite low7_mod, zb_u8, Z.mod_small by lia. done.
Qed.

Lemma readVarint_spec v rest :
  in_u 64 v →
  readVarint (varint v ++ rest) = (inl (int64 v, Z.of_nat (length (varint v))), rest).
Proof.
  intros Hv. unfold readVarint. rewrite readVarint_loop_spec; [|by apply in_u64_groups|done..].
  by rewrite Z.lor_0_l, Z.shiftl_0_r, Z.add_0_l.
Qed.
