(* ===== verification/Bridge.v ===== *)
(** * The messages between the agent and its plugins

    Models the messages [Record], [Payload] and [Task] of
    [plugins/lib/go/bridge.pb.go] with their [Size], [Marshal] and [Unmarshal]: the
    code the plugins link to send records and to receive tasks.  Sizing and
    marshalling a map may visit it in different orders.  The round trips at the end
    are what the agent and the agent center rely on when they pass a payload on
    undecoded. *)

From S2P Require Import Prelude Wire.
From stdpp Require Import options.

Local Open Scope Z_scope.

Definition ebind {A B} (c : A + error) (k : A → B + error) : B + error :=
  match c with inl a => k a | inr e => inr e end.

Notation "'let?' x ':=' c 'in' k" := (ebind c (λ x, k))
  (at level 10, x pattern, c at level 200, k at level 200) : go_scope.

Notation len s := (Z.of_nat (String.length s)).

Module Bridge.

Record Payload := mkPayload { Fields : gmap string string }.

Record Record_ := mkRecord { DataType : Z; Timestamp : Z; Data : option Payload }.

Record Task := mkTask { taskDataType : Z; ObjectName : string; taskData : string; Token : string }.

#[export] Instance Task_eq_dec : EqDecision Task.
Proof. solve_decision. Defined.

Section bridge.
Context `{Ranger}.

(** ** Sizes *)

Definition mapEntrySize (k v : string) : Z :=
  1 + len k + sov (uint64 (len k)) + 1 + len v + sov (uint64 (len v)).

Definition Payload_Size (m : Payload) : Z :=
  foldl (λ n '(k, v), n + (mapEntrySize k v + 1 + sov (uint64 (mapEntrySize k v)))) 0
    (range_kv "Payload.Size" (Fields m)).

Definition Record_Size (m : Record_) : Z :=
  let n := 0 in
  let n := if decide (DataType m ≠ 0) then n + (1 + sov (uint64 (DataType m))) else n in
  let n := if decide (Timestamp m ≠ 0) then n + (1 + sov (uint64 (Timestamp m))) else n in
  match Data m with
  | Some p => let l := Payload_Size p in n + (1 + l + sov (uint64 l))
  | None => n
  end.

Definition string_field_size (s : string) : Z :=
  let l := len s in if decide (l > 0) then 1 + l + sov (uint64 l) else 0.

Definition Task_Size (m : Task) : Z :=
  let n := 0 in
  let n := if decide (taskDataType m ≠ 0) then n + (1 + sov (uint64 (taskDataType m))) else n in
  n + string_field_size (ObjectName m) + string_field_size (taskData m) + string_field_size (Token m).

(** ** Marshalling: from the end of the buffer to its start *)

Definition marshal_entry (kv : string * string) (d : bytes) (i : Z) : outcome (bytes * Z) :=
  let '(k, v) := kv in
  let baseI := i in
  let! (d, i) := put_bytes (bytes_of v) d i in
  let! (d, i) := encodeVarint d i (uint64 (len v)) in
  let! (d, i) := put_byte (u8 0x12) d i in
  let! (d, i) := put_bytes (bytes_of k) d i in
  let! (d, i) := encodeVarint d i (uint64 (len k)) in
  let! (d, i) := put_byte (u8 0xa) d i in
  let! (d, i) := encodeVarint d i (uint64 (baseI - i)) in
  put_byte (u8 0xa) d i.

Fixpoint marshal_entries (l : list (string * string)) (d : bytes) (i : Z) : outcome (bytes * Z) :=
  match l with
  | [] => Ret (d, i)
  | kv :: l => let! (d, i) := marshal_entry kv d i in marshal_entries l d i
  end.

(** [m.MarshalToSizedBuffer(dAtA[:i])]: the bytes behind [i] stay as they are. *)
Definition Payload_MarshalToSizedBuffer (m : Payload) (d : bytes) (i : Z) : outcome (bytes * Z) :=
  marshal_entries (range_kv "Payload.Marshal" (Fields m)) d i.

Definition Record_MarshalToSizedBuffer (m : Record_) (d : bytes) (i : Z) : outcome (bytes * Z) :=
  let! (d, i) :=
    match Data m with
    | Some p =>
        let! (d, i') := Payload_MarshalToSizedBuffer p d i in
        let size := i - i' in
        let! (d, i) := encodeVarint d i' (uint64 size) in
        put_byte (u8 0x1a) d i
    | None => Ret (d, i)
    end in
  let! (d, i) :=
    if decide (Timestamp m ≠ 0) then
      let! (d, i) := encodeVarint d i (uint64 (Timestamp m)) in put_byte (u8 0x10) d i
    else Ret (d, i) in
  if decide (DataType m ≠ 0) then
    let! (d, i) := encodeVarint d i (uint64 (DataType m)) in put_byte (u8 0x8) d i
  else Ret (d, i).

(** [if len(s) > 0 { i -= len(s); copy(...); i = encodeVarint(...); i--; dAtA[i] = tag }] *)
Definition marshal_string (tag : Z) (s : string) (d : bytes) (i : Z) : outcome (bytes * Z) :=
  if decide (len s > 0) then
    let! (d, i) := put_bytes (bytes_of s) d i in
    let! (d, i) := encodeVarint d i (uint64 (len s)) in
    put_byte (u8 tag) d i
  else Ret (d, i).

Definition Task_MarshalToSizedBuffer (m : Task) (d : bytes) (i : Z) : outcome (bytes * Z) :=
  let! (d, i) := marshal_string 0x22 (Token m) d i in
  let! (d, i) := marshal_string 0x1a (taskData m) d i in
  let! (d, i) := marshal_string 0x12 (ObjectName m) d i in
  if decide (taskDataType m ≠ 0) then
    let! (d, i) := encodeVarint d i (uint64 (taskDataType m)) in put_byte (u8 0x8) d i
  else Ret (d, i).

(** [dAtA = make([]byte, size)], marshalled from its end; [dAtA[:n]]. *)
Definition marshal (size : Z) (w : bytes → Z → outcome (bytes * Z)) : outcome bytes :=
  let! (d, i) := w (replicate (Z.to_nat size) (u8 0)) size in
  Ret (take (Z.to_nat (size - i)) d).

Definition Payload_Marshal (m : Payload) : outcome bytes :=
  marshal (Payload_Size m) (Payload_MarshalToSizedBuffer m).

Definition Record_Marshal (m : Record_) : outcome bytes :=
  marshal (Record_Size m) (Record_MarshalToSizedBuffer m).

Definition Task_Marshal (m : Task) : outcome bytes :=
  marshal (Task_Size m) (Task_MarshalToSizedBuffer m).

(** ** Unmarshalling *)

(** The loop of [skipBridge] on the slice [d]. *)
Fixpoint skip_loop (fuel : nat) (d : bytes) (i depth : Z) : Z + error :=
  match fuel with
  | O => inr ErrFuel
  | S fuel =>
      if decide (i < Z.of_nat (length d)) then
        let? (wire, i) := get_varint uint64 d i in
        let wireType := Z.land wire 7 in
        let? (i, depth) :=
          (if decide (wireType = 0) then let? (_, i) := get_varint uint64 d i in inl (i, depth)
           else if decide (wireType = 1) then inl (int64 (i + 8), depth)
           else if decide (wireType = 2) then
             let? (length, i) := get_varint int64 d i in
             if decide (length < 0) then inr ErrInvalidLength else inl (int64 (i + length), depth)
           else if decide (wireType = 3) then inl (i, depth + 1)
           else if decide (wireType = 4) then
             if decide (depth = 0) then inr ErrUnexpectedEndOfGroup else inl (i, depth - 1)
           else if decide (wireType = 5) then inl (int64 (i + 4), depth)
           else inr (ErrWireType wireType)) in
        if decide (i < 0) then inr ErrInvalidLength
        else if decide (depth = 0) then inl i
        else skip_loop fuel d i depth
      else inr ErrUnexpectedEOF
  end.

Definition skipBridge (d : bytes) : Z + error := skip_loop (S (length d)) d 0 0.

(** The [default] branches: skip the field that starts at [preIndex]; it must end
    at or before [limit]. *)
Definition skip_field (d : bytes) (preIndex limit : Z) : Z + error :=
  let? skippy := skipBridge (drop (Z.to_nat preIndex) d) in
  if decide (skippy < 0 ∨ int64 (preIndex + skippy) < 0) then inr ErrInvalidLength
  else if decide (int64 (preIndex + skippy) > limit) then inr ErrUnexpectedEOF
  else inl (int64 (preIndex + skippy)).

(** A length, and the index behind as many bytes: the variable is an [int]
    ([conv = int64]) for messages, an [uint64] converted to [int] for strings. *)
Definition get_len (conv : Z → Z) (d : bytes) (i : Z) : (Z * Z) + error :=
  let? (n, i) := get_varint conv d i in
  let n := int64 n in
  if decide (n < 0) then inr ErrInvalidLength
  else
    let postIndex := int64 (i + n) in
    if decide (postIndex < 0) then inr ErrInvalidLength
    else if decide (postIndex > Z.of_nat (length d)) then inr ErrUnexpectedEOF
    else inl (i, postIndex).

(** [string(dAtA[i:j])]. *)
Definition slice_string (d : bytes) (i j : Z) : string :=
  string_of (take (Z.to_nat (j - i)) (drop (Z.to_nat i) d)).

(** The loop over one map entry. *)
Fixpoint entry_loop (fuel : nat) (d : bytes) (i postIndex : Z) (mapkey mapvalue : string)
    : (string * string) + error :=
  match fuel with
  | O => inr ErrFuel
  | S fuel =>
      if decide (i < postIndex) then
        let entryPreIndex := i in
        let? (wire, i) := get_varint uint64 d i in
        let fieldNum := int32 (Z.shiftr wire 3) in
        if decide (fieldNum = 1) then
          let? (i, post) := get_len uint64 d i in
          entry_loop fuel d post postIndex (slice_string d i post) mapvalue
        else if decide (fieldNum = 2) then
          let? (i, post) := get_len uint64 d i in
          entry_loop fuel d post postIndex mapkey (slice_string d i post)
        else
          let? i := skip_field d entryPreIndex postIndex in
          entry_loop fuel d i postIndex mapkey mapvalue
      else inl (mapkey, mapvalue)
  end.

Fixpoint Payload_loop (fuel : nat) (d : bytes) (i : Z) (m : gmap string string)
    : gmap string string + error :=
  match fuel with
  | O => inr ErrFuel
  | S fuel =>
      let l := Z.of_nat (length d) in
      if decide (i < l) then
        let preIndex := i in
        let? (wire, i) := get_varint uint64 d i in
        let fieldNum := int32 (Z.shiftr wire 3) in
        let wireType := Z.land wire 7 in
        if decide (wireType = 4) then inr (ErrWireType wireType)
        else if decide (fieldNum ≤ 0) then inr (ErrTag fieldNum)
        else if decide (fieldNum = 1) then
          if decide (wireType ≠ 2) then inr (ErrWireType wireType)
          else
            let? (i, postIndex) := get_len int64 d i in
            let? (mapkey, mapvalue) := entry_loop (S (length d)) d i postIndex "" "" in
            Payload_loop fuel d postIndex (<[mapkey := mapvalue]> m)
        else
          let? i := skip_field d preIndex l in
          Payload_loop fuel d i m
      else if decide (i > l) then inr ErrUnexpectedEOF else inl m
  end.

Definition Payload_Unmarshal (d : bytes) : Payload + error :=
  let? m := Payload_loop (S (length d)) d 0 ∅ in inl (mkPayload m).

Fixpoint Task_loop (fuel : nat) (d : bytes) (i : Z) (m : Task) : Task + error :=
  match fuel with
  | O => inr ErrFuel
  | S fuel =>
      let l := Z.of_nat (length d) in
      if decide (i < l) then
        let preIndex := i in
        let? (wire, i) := get_varint uint64 d i in
        let fieldNum := int32 (Z.shiftr wire 3) in
        let wireType := Z.land wire 7 in
        if decide (wireType = 4) then inr (ErrWireType wireType)
        else if decide (fieldNum ≤ 0) then inr (ErrTag fieldNum)
        else if decide (fieldNum = 1) then
          if decide (wireType ≠ 0) then inr (ErrWireType wireType)
          else
            let? (v, i) := get_varint int32 d i in
            Task_loop fuel d i (mkTask v (ObjectName m) (taskData m) (Token m))
        else if decide (fieldNum = 2) then
          if decide (wireType ≠ 2) then inr (ErrWireType wireType)
          else
            let? (i, post) := get_len uint64 d i in
            Task_loop fuel d post (mkTask (taskDataType m) (slice_string d i post) (taskData m) (Token m))
        else if decide (fieldNum = 3) then
          if decide (wireType ≠ 2) then inr (ErrWireType wireType)
          else
            let? (i, post) := get_len uint64 d i in
            Task_loop fuel d post (mkTask (taskDataType m) (ObjectName m) (slice_string d i post) (Token m))
        else if decide (fieldNum = 4) then
          if decide (wireType ≠ 2) then inr (ErrWireType wireType)
          else
            let? (i, post) := get_len uint64 d i in
            Task_loop fuel d post (mkTask (taskDataType m) (ObjectName m) (taskData m) (slice_string d i post))
        else
          let? i := skip_field d preIndex l in
          Task_loop fuel d i m
      else if decide (i > l) then inr ErrUnexpectedEOF else inl m
  end.

Definition Task_Unmarshal (d : bytes) : Task + error :=
  Task_loop (S (length d)) d 0 (mkTask 0 "" "" "").

(** ** What marshalling writes *)

Definition var_field (tag v : Z) : bytes := if decide (v ≠ 0) then u8 tag :: varint (uint64 v) else [].
Definition len_field (tag : Z) (s : bytes) : bytes := u8 tag :: varint (Z.of_nat (length s)) ++ s.
#[local] Arguments len_field : simpl never.
Definition str_field (tag : Z) (s : string) : bytes :=
  if decide (len s > 0) then len_field tag (bytes_of s) else [].

Definition entry_bytes (kv : string * string) : bytes :=
  len_field 0xa (len_field 0xa (bytes_of kv.1) ++ len_field 0x12 (bytes_of kv.2)).

(** The entries from the last one visited to the first. *)
Definition entries_bytes (l : list (string * string)) : bytes := concat (entry_bytes <$> reverse l).

Definition Payload_bytes (m : Payload) : bytes :=
  entries_bytes (range_kv "Payload.Marshal" (Fields m)).

Definition Record_bytes (m : Record_) : bytes :=
  var_field 0x8 (DataType m) ++ var_field 0x10 (Timestamp m) ++
  match Data m with Some p => len_field 0x1a (Payload_bytes p) | None => [] end.

Definition Task_bytes (m : Task) : bytes :=
  var_field 0x8 (taskDataType m) ++ str_field 0x12 (ObjectName m) ++
  str_field 0x1a (taskData m) ++ str_field 0x22 (Token m).

Lemma length_len_field tag s :
  length (len_field tag s) = (1 + length (varint (Z.of_nat (length s))) + length s)%nat.
Proof. unfold len_field. simpl. by rewrite length_app. Qed.

Lemma uint64_in z : in_u 64 (uint64 z).
Proof. apply wrap_u_range. lia. Qed.

Lemma uint64_id z : 0 ≤ z < 2 ^ 64 → uint64 z = z.
Proof. apply wrap_u_id. Qed.

Hint Resolve uint64_in : go.

(** [uint64] of a length of at most 2^63. *)
Lemma marshal_bytes_appends (tag n : Z) (s : bytes) :
  n = Z.of_nat (length s) → n < 2 ^ 64 →
  appends (λ d i, let! (d, i) := put_bytes s d i in
                  let! (d, i) := encodeVarint d i (uint64 n) in put_byte (u8 tag) d i)
    (len_field tag s).
Proof.
  intros -> Hs. rewrite uint64_id by lia.
  assert (in_u 64 (Z.of_nat (length s))) as Hin by (unfold in_u; lia).
  exact (appends_andthen _ _ _ _ (put_bytes_appends s)
    (appends_andthen _ _ _ [_] (put_varint_appends _ Hin) (put_byte_appends _))).
Qed.

Lemma marshal_string_appends tag s : len s < 2 ^ 64 → appends (marshal_string tag s) (str_field tag s).
Proof.
  intros Hs. unfold marshal_string, str_field. destruct (decide _); [|apply appends_id].
  apply marshal_bytes_appends; [by rewrite length_bytes_of|done].
Qed.

Lemma var_field_appends tag v :
  appends (λ d i, if decide (v ≠ 0) then
             let! (d, i) := encodeVarint d i (uint64 v) in put_byte (u8 tag) d i
           else Ret (d, i)) (var_field tag v).
Proof.
  unfold var_field. destruct (decide _); [|apply appends_id].
  exact (appends_andthen _ _ _ [_] (put_varint_appends _ (uint64_in _)) (put_byte_appends _)).
Qed.

(** The size written in front of a message. *)
Lemma sized_appends tag f out :
  appends f out → Z.of_nat (length out) < 2 ^ 64 →
  appends (λ d i, let! (d, i') := f d i in
                  let! (d, i) := encodeVarint d i' (uint64 (i - i')) in put_byte (u8 tag) d i)
    (len_field tag out).
Proof.
  intros Hf Hl. unfold len_field.
  assert (varint (Z.of_nat (length out)) = varint (uint64 (Z.of_nat (length out)))) as ->
    by (by rewrite uint64_id by lia).
  apply (appends_sized f (λ n d i, let! (d, i) := encodeVarint d i (uint64 n) in put_byte (u8 tag) d i)
    out (_ :: _)); [done|].
  exact (appends_andthen _ _ _ [_] (put_varint_appends _ (uint64_in _)) (put_byte_appends _)).
Qed.

Lemma appends_ext f g out : (∀ d i, f d i = g d i) → appends g out → appends f out.
Proof. intros Hfg Hg pre mid suf Hm. rewrite Hfg. by apply Hg. Qed.

Lemma obind_assoc {A B C} (c : outcome A) (f : A → outcome B) (g : B → outcome C) :
  obind (obind c f) g = obind c (λ x, obind (f x) g).
Proof. by destruct c. Qed.

Lemma marshal_entry_appends kv :
  Z.of_nat (length (entry_bytes kv)) < 2 ^ 64 → appends (marshal_entry kv) (entry_bytes kv).
Proof.
  destruct kv as [k v]. intros Hl. unfold entry_bytes in *. cbn [fst snd] in *.
  pose proof (length_len_field 0xa (bytes_of k)) as Hk.
  pose proof (length_len_field 0x12 (bytes_of v)) as Hv. rewrite length_bytes_of in Hk, Hv.
  rewrite length_len_field, length_app in Hl.
  eapply appends_ext; [|apply (sized_appends 0xa (andthen
      (λ d i, let! (d, i) := put_bytes (bytes_of v) d i in
              let! (d, i) := encodeVarint d i (uint64 (len v)) in put_byte (u8 0x12) d i)
      (λ d i, let! (d, i) := put_bytes (bytes_of k) d i in
              let! (d, i) := encodeVarint d i (uint64 (len k)) in put_byte (u8 0xa) d i)))].
  - intros d i. unfold marshal_entry, andthen. rewrite !obind_assoc.
    destruct (put_bytes _ d i) as [[d1 i1]|]; [|done]. simpl. rewrite !obind_assoc.
    destruct (encodeVarint d1 i1 _) as [[d2 i2]|]; [|done]. simpl.
    destruct (put_byte _ d2 i2) as [[d3 i3]|]; [|done]. simpl. rewrite !obind_assoc.
    destruct (put_bytes _ d3 i3) as [[d4 i4]|]; [|done]. simpl. rewrite !obind_assoc.
    destruct (encodeVarint d4 i4 _) as [[d5 i5]|]; [|done]. done.
  - apply appends_andthen; apply marshal_bytes_appends; rewrite ?length_bytes_of; lia.
  - rewrite length_app. lia.
Qed.

(** ** [Size] is the number of bytes written *)

Lemma sov_nonneg x : 0 ≤ sov x.
Proof.
  unfold sov, Len64. apply Z.div_pos; [|lia]. case_decide; [lia|].
  pose proof (Z.log2_nonneg (Z.lor x 1)). lia.
Qed.

Lemma sov_len n : (Z.of_nat n < 2 ^ 64) → sov (uint64 (Z.of_nat n)) = Z.of_nat (length (varint (Z.of_nat n))).
Proof. intros Hn. rewrite uint64_id, varint_sov; [done|unfold in_u; lia|lia]. Qed.

Definition entry_size (kv : string * string) : Z :=
  mapEntrySize kv.1 kv.2 + 1 + sov (uint64 (mapEntrySize kv.1 kv.2)).

Lemma mapEntrySize_bounds k v : len k + len v ≤ mapEntrySize k v.
Proof.
  unfold mapEntrySize. pose proof (sov_nonneg (uint64 (len k))).
  pose proof (sov_nonneg (uint64 (len v))). lia.
Qed.

Lemma entry_size_bounds kv : len kv.1 + len kv.2 ≤ mapEntrySize kv.1 kv.2 ≤ entry_size kv.
Proof.
  unfold entry_size. pose proof (mapEntrySize_bounds kv.1 kv.2).
  pose proof (sov_nonneg (uint64 (mapEntrySize kv.1 kv.2))). lia.
Qed.

Lemma entry_bytes_size kv :
  entry_size kv < 2 ^ 64 → Z.of_nat (length (entry_bytes kv)) = entry_size kv.
Proof.
  destruct kv as [k v]. intros Hs. pose proof (entry_size_bounds (k, v)) as Hb. simpl in Hb.
  unfold entry_bytes. cbn [fst snd]. rewrite length_len_field, length_app.
  assert (Z.of_nat (length (len_field 0xa (bytes_of k)) + length (len_field 0x12 (bytes_of v))) =
    mapEntrySize k v) as He.
  { rewrite !length_len_field, !length_bytes_of. unfold mapEntrySize. rewrite !sov_len by lia. lia. }
  unfold entry_size. cbn [fst snd]. rewrite <- He, sov_len by lia. lia.
Qed.

Lemma Payload_Size_sum tag m : Payload_Size m = zsum entry_size (range_kv tag (Fields m)).
Proof.
  unfold Payload_Size. rewrite (foldl_ext _ (λ n kv, n + entry_size kv)) by (by intros ? []).
  rewrite foldl_zsum, Z.add_0_l. apply zsum_perm. by rewrite !range_kv_perm.
Qed.

Lemma entries_bytes_cons kv l : entries_bytes (kv :: l) = entries_bytes l ++ entry_bytes kv.
Proof.
  unfold entries_bytes. rewrite reverse_cons, fmap_app, concat_app. simpl. by rewrite app_nil_r.
Qed.

Lemma entry_size_nonneg kv : 0 ≤ entry_size kv.
Proof. pose proof (entry_size_bounds kv). lia. Qed.

Lemma entries_bytes_size l :
  zsum entry_size l < 2 ^ 64 → Z.of_nat (length (entries_bytes l)) = zsum entry_size l.
Proof.
  induction l as [|kv l IH]; [done|]. simpl. intros Hs. pose proof (entry_size_nonneg kv).
  pose proof (zsum_nonneg entry_size l entry_size_nonneg).
  rewrite entries_bytes_cons, length_app, Nat2Z.inj_add, IH, entry_bytes_size; lia.
Qed.

Lemma marshal_entries_appends l :
  Z.of_nat (length (entries_bytes l)) < 2 ^ 64 → appends (marshal_entries l) (entries_bytes l).
Proof.
  induction l as [|kv l IH]; [intros; apply appends_id|].
  rewrite entries_bytes_cons, length_app. intros Hl.
  apply (appends_andthen (marshal_entry kv) (marshal_entries l)).
  - apply marshal_entry_appends. lia.
  - apply IH. lia.
Qed.

Lemma Payload_bytes_size m :
  Payload_Size m < 2 ^ 64 → Z.of_nat (length (Payload_bytes m)) = Payload_Size m.
Proof.
  intros Hs. rewrite (Payload_Size_sum "Payload.Marshal") in Hs |- *. by apply entries_bytes_size.
Qed.

Lemma Payload_appends m :
  Payload_Size m < 2 ^ 64 → appends (Payload_MarshalToSizedBuffer m) (Payload_bytes m).
Proof.
  intros Hs. apply marshal_entries_appends. fold (Payload_bytes m). by rewrite Payload_bytes_size.
Qed.

Lemma marshal_appends size w out :
  appends w out → size = Z.of_nat (length out) → marshal size w = Ret out.
Proof.
  intros Hw ->. unfold marshal. rewrite Nat2Z.id.
  specialize (Hw [] (replicate (length out) (u8 0)) []). rewrite length_replicate in Hw.
  simpl in Hw. rewrite !app_nil_r in Hw. rewrite Hw by done. simpl.
  by rewrite Z.sub_0_r, Nat2Z.id, take_ge by done.
Qed.

Lemma var_field_size tag v :
  Z.of_nat (length (var_field tag v)) = if decide (v ≠ 0) then 1 + sov (uint64 v) else 0.
Proof.
  unfold var_field. destruct (decide _); [|done]. simpl.
  rewrite <- (varint_sov (uint64 v)) by apply uint64_in. lia.
Qed.

Lemma str_field_size tag s :
  len s < 2 ^ 64 → Z.of_nat (length (str_field tag s)) = string_field_size s.
Proof.
  intros Hs. unfold str_field, string_field_size. destruct (decide _); [|done].
  rewrite length_len_field, length_bytes_of, sov_len by done. lia.
Qed.

Lemma Payload_Size_nonneg p : 0 ≤ Payload_Size p.
Proof.
  rewrite (Payload_Size_sum "Payload.Marshal"). apply zsum_nonneg, entry_size_nonneg.
Qed.

Lemma Record_payload_small r p :
  Record_Size r < 2 ^ 64 → Data r = Some p → Payload_Size p < 2 ^ 64.
Proof.
  intros Hs Hd. unfold Record_Size in Hs. rewrite Hd in Hs.
  pose proof (sov_nonneg (uint64 (DataType r))). pose proof (sov_nonneg (uint64 (Timestamp r))).
  pose proof (sov_nonneg (uint64 (Payload_Size p))). repeat case_decide; lia.
Qed.

Lemma Record_bytes_size r :
  Record_Size r < 2 ^ 64 → Z.of_nat (length (Record_bytes r)) = Record_Size r.
Proof.
  intros Hs. unfold Record_bytes. rewrite !length_app, !Nat2Z.inj_add, !var_field_size.
  destruct (Data r) as [p|] eqn:Hd.
  - pose proof (Record_payload_small r p Hs Hd) as Hp.
    pose proof (Payload_bytes_size p Hp) as Hb.
    rewrite length_len_field, !Nat2Z.inj_add, <- sov_len, Hb by lia.
    unfold Record_Size. rewrite Hd. repeat case_decide; lia.
  - unfold Record_Size. rewrite Hd. repeat case_decide; simpl; lia.
Qed.

Lemma Record_appends r :
  Record_Size r < 2 ^ 64 → appends (Record_MarshalToSizedBuffer r) (Record_bytes r).
Proof.
  intros Hs. unfold Record_MarshalToSizedBuffer, Record_bytes. rewrite app_assoc.
  apply (appends_andthen (λ d i, match Data r with Some p => _ | None => _ end) (λ d i, _)).
  - destruct (Data r) as [p|] eqn:Hd; [|apply appends_id].
    pose proof (Record_payload_small r p Hs Hd) as Hp.
    apply (sized_appends 0x1a (Payload_MarshalToSizedBuffer p)); [by apply Payload_appends|].
    by rewrite Payload_bytes_size.
  - apply (appends_andthen (λ d i, if decide (Timestamp r ≠ 0) then _ else _) (λ d i, _));
      apply var_field_appends.
Qed.

Lemma Record_Marshal_bytes r : Record_Size r < 2 ^ 64 → Record_Marshal r = Ret (Record_bytes r).
Proof.
  intros Hs. apply marshal_appends; [by apply Record_appends|]. by rewrite Record_bytes_size.
Qed.

Lemma Payload_Marshal_bytes p : Payload_Size p < 2 ^ 64 → Payload_Marshal p = Ret (Payload_bytes p).
Proof.
  intros Hs. apply marshal_appends; [by apply Payload_appends|]. by rewrite Payload_bytes_size.
Qed.

(** A task whose strings have lengths a Go string can have. *)
Definition Task_fits (t : Task) : Prop :=
  in_s 32 (taskDataType t) ∧ Task_Size t < 2 ^ 63.

Lemma string_field_size_bound s : len s ≤ string_field_size s.
Proof.
  unfold string_field_size. case_decide; [|lia]. pose proof (sov_nonneg (uint64 (len s))). lia.
Qed.

Lemma Task_fits_strings t : Task_fits t →
  len (ObjectName t) < 2 ^ 63 ∧ len (taskData t) < 2 ^ 63 ∧ len (Token t) < 2 ^ 63.
Proof.
  intros [_ Hs]. unfold Task_Size in Hs.
  pose proof (string_field_size_bound (ObjectName t)). pose proof (string_field_size_bound (taskData t)).
  pose proof (string_field_size_bound (Token t)). pose proof (sov_nonneg (uint64 (taskDataType t))).
  repeat case_decide; lia.
Qed.

Lemma Task_appends t : Task_fits t → appends (Task_MarshalToSizedBuffer t) (Task_bytes t).
Proof.
  intros Ht. destruct (Task_fits_strings t Ht) as (Ho & Hd & Hk).
  unfold Task_MarshalToSizedBuffer, Task_bytes. rewrite !app_assoc.
  apply (appends_andthen (marshal_string 0x22 (Token t)) (λ d i, _));
    [apply marshal_string_appends; lia|].
  apply (appends_andthen (marshal_string 0x1a (taskData t)) (λ d i, _));
    [apply marshal_string_appends; lia|].
  apply (appends_andthen (marshal_string 0x12 (ObjectName t)) (λ d i, _));
    [apply marshal_string_appends; lia|].
  apply var_field_appends.
Qed.

Lemma Task_bytes_size t : Task_fits t → Z.of_nat (length (Task_bytes t)) = Task_Size t.
Proof.
  intros Ht. destruct (Task_fits_strings t Ht) as (Ho & Hd & Hk).
  unfold Task_bytes. rewrite !length_app, !Nat2Z.inj_add, var_field_size, !str_field_size by lia.
  unfold Task_Size. repeat case_decide; lia.
Qed.

Lemma Task_Size_nonneg t : 0 ≤ Task_Size t.
Proof.
  unfold Task_Size. pose proof (sov_nonneg (uint64 (taskDataType t))).
  pose proof (string_field_size_bound (ObjectName t)). pose proof (string_field_size_bound (taskData t)).
  pose proof (string_field_size_bound (Token t)). repeat case_decide; lia.
Qed.

(** ** What unmarshalling reads *)

Lemma varint_small n : 0 ≤ n < 128 → varint n = [u8 n].
Proof. intros Hn. unfold varint. cbn [varint_aux]. by rewrite decide_False by lia. Qed.

Lemma get_tag d (p : nat) tag rest :
  0 ≤ tag < 128 → drop p d = u8 tag :: rest →
  get_varint uint64 d (Z.of_nat p) = inl (tag, Z.of_nat (S p)) ∧ drop (S p) d = rest ∧ (p < length d)%nat.
Proof.
  intros Ht Hd. split_and!.
  - rewrite (get_varint_spec uint64 tag d (Z.of_nat p) rest).
    + rewrite uint64_id, varint_small by lia. simpl. do 2 f_equal. lia.
    + unfold in_u. lia.
    + lia.
    + by rewrite Nat2Z.id, varint_small by lia.
  - replace (S p) with (p + 1)%nat by lia. by rewrite <- drop_drop, Hd.
  - apply (f_equal length) in Hd. rewrite length_drop in Hd. simpl in Hd. lia.
Qed.

(** Lengths survive either conversion. *)
Lemma int64_len conv n : conv = int64 ∨ conv = uint64 → 0 ≤ n < 2 ^ 63 → int64 (conv n) = n.
Proof.
  intros Hc Hn. assert (int64 n = n) as Hi by (apply wrap_s_id; [lia|]; unfold in_s; simpl; lia).
  destruct Hc as [-> | ->]; [by rewrite Hi|]. by rewrite uint64_id by lia.
Qed.

Lemma get_len_spec conv d (p : nat) s rest :
  conv = int64 ∨ conv = uint64 → Z.of_nat (length d) < 2 ^ 63 →
  drop p d = varint (Z.of_nat (length s)) ++ s ++ rest →
  let j := (p + length (varint (Z.of_nat (length s))))%nat in
  get_len conv d (Z.of_nat p) = inl (Z.of_nat j, Z.of_nat (j + length s)) ∧
  slice_string d (Z.of_nat j) (Z.of_nat (j + length s)) = string_of s ∧
  drop (j + length s) d = rest ∧ (j + length s ≤ length d)%nat.
Proof.
  intros Hc Hl Hd j.
  assert (length d - p = length (varint (Z.of_nat (length s))) + (length s + length rest))%nat as Hlen.
  { apply (f_equal length) in Hd. by rewrite length_drop, !length_app in Hd. }
  assert (BitConv conv) by (destruct Hc as [-> | ->]; apply _).
  pose proof (varint_aux_pos 9 (Z.of_nat (length s))) as Hv. fold (varint (Z.of_nat (length s))) in Hv.
  assert (drop j d = s ++ rest) as Hj.
  { subst j. by rewrite <- drop_drop, Hd, drop_app_length. }
  split_and!.
  - unfold get_len. rewrite (get_varint_spec conv (Z.of_nat (length s)) d (Z.of_nat p) (s ++ rest));
      [|unfold in_u; lia|lia|by rewrite Nat2Z.id]. simpl.
    rewrite (int64_len conv) by (done || lia). rewrite decide_False by lia.
    replace (Z.of_nat p + Z.of_nat (length (varint (Z.of_nat (length s))))) with (Z.of_nat j) by lia.
    assert (int64 (Z.of_nat j + Z.of_nat (length s)) = Z.of_nat (j + length s)) as ->.
    { replace (Z.of_nat j + Z.of_nat (length s)) with (Z.of_nat (j + length s)) by lia.
      apply wrap_s_id; [lia|]. unfold in_s. simpl. lia. }
    rewrite !decide_False by lia. done.
  - unfold slice_string. rewrite Nat2Z.id, Hj.
    replace (Z.to_nat _) with (length s) by lia. by rewrite take_app_length.
  - by rewrite <- drop_drop, Hj, drop_app_length.
  - lia.
Qed.

(** A length-delimited field at [p]: its tag, its contents from [j] to [q]. *)
Lemma read_len_field conv d (p : nat) tag s rest :
  conv = int64 ∨ conv = uint64 → Z.of_nat (length d) < 2 ^ 63 → 0 ≤ tag < 128 →
  drop p d = len_field tag s ++ rest →
  let q := (p + length (len_field tag s))%nat in
  let j := (q - length s)%nat in
  get_varint uint64 d (Z.of_nat p) = inl (tag, Z.of_nat (S p)) ∧
  get_len conv d (Z.of_nat (S p)) = inl (Z.of_nat j, Z.of_nat q) ∧
  slice_string d (Z.of_nat j) (Z.of_nat q) = string_of s ∧
  drop j d = s ++ rest ∧ drop q d = rest ∧ (p < q ≤ length d)%nat.
Proof.
  intros Hc Hl Ht Hd q j.
  destruct (get_tag d p tag (varint (Z.of_nat (length s)) ++ s ++ rest) Ht) as (Hg & Hd1 & Hlt).
  { rewrite Hd. unfold len_field. simpl. by rewrite <- app_assoc. }
  destruct (get_len_spec conv d (S p) s rest Hc Hl Hd1) as (Hl1 & Hs1 & Hd2 & Hle).
  set (j' := (S p + length (varint (Z.of_nat (length s))))%nat) in *.
  assert (q = j' + length s ∧ j = j')%nat as [-> ->].
  { subst q j j'. rewrite length_len_field. lia. }
  split_and!; try done; [|lia].
  subst j'. by rewrite <- drop_drop, Hd1, drop_app_length.
Qed.

Lemma entry_loop_spec fuel d (p : nat) k v rest :
  (3 ≤ fuel)%nat → Z.of_nat (length d) < 2 ^ 63 →
  drop p d = len_field 0xa (bytes_of k) ++ len_field 0x12 (bytes_of v) ++ rest →
  entry_loop fuel d (Z.of_nat p)
    (Z.of_nat (p + length (len_field 0xa (bytes_of k) ++ len_field 0x12 (bytes_of v)))) "" "" = inl (k, v).
Proof.
  intros Hf Hl Hd. destruct fuel as [|[|[|fuel]]]; try lia. clear Hf.
  destruct (read_len_field uint64 d p 0xa _ _ ltac:(by right) Hl ltac:(lia) Hd)
    as (Hg1 & Hl1 & Hs1 & _ & Hd2 & Hlt1).
  destruct (read_len_field uint64 d _ 0x12 _ _ ltac:(by right) Hl ltac:(lia) Hd2)
    as (Hg2 & Hl2 & Hs2 & _ & _ & Hlt2).
  rewrite length_app, Nat.add_assoc.
  set (q := (p + length (len_field 0xa (bytes_of k)))%nat) in *.
  set (r := (q + length (len_field 0x12 (bytes_of v)))%nat) in *.
  cbn [entry_loop]. rewrite decide_True by lia. rewrite Hg1. cbn [ebind].
  rewrite decide_True by done. rewrite Hl1. cbn [ebind]. rewrite Hs1, string_of_bytes_of.
  rewrite decide_True by lia. rewrite Hg2. cbn [ebind].
  rewrite decide_False by done. rewrite decide_True by done. rewrite Hl2. cbn [ebind].
  rewrite Hs2, string_of_bytes_of. by rewrite decide_False by lia.
Qed.

Lemma Payload_loop_spec fuel d (p : nat) l m :
  (length l < fuel)%nat → Z.of_nat (length d) < 2 ^ 63 →
  drop p d = concat (entry_bytes <$> l) → (p ≤ length d)%nat →
  Payload_loop fuel d (Z.of_nat p) m = inl (foldl (λ m kv, <[kv.1 := kv.2]> m) m l).
Proof.
  revert p l m. induction fuel as [|fuel IH]; intros p l m Hf Hl Hd Hp; [lia|].
  cbn [Payload_loop]. destruct l as [|[k v] l].
  - simpl in Hd. apply (f_equal length) in Hd. rewrite length_drop in Hd. simpl in Hd.
    by rewrite !decide_False by lia.
  - rewrite fmap_cons in Hd. cbn [concat] in Hd. unfold entry_bytes at 1 in Hd. cbn [fst snd] in Hd.
    set (body := len_field 0xa (bytes_of k) ++ len_field 0x12 (bytes_of v)) in *.
    destruct (read_len_field int64 d p 0xa _ _ ltac:(by left) Hl ltac:(lia) Hd)
      as (Hg1 & Hl1 & _ & Hj & Hd2 & Hlt).
    set (q := (p + length (len_field 0xa body))%nat) in *.
    rewrite decide_True by lia. rewrite Hg1. cbn [ebind].
    rewrite decide_False by done. rewrite decide_False by (by vm_compute).
    rewrite decide_True by (by vm_compute). rewrite decide_False by naive_solver.
    rewrite Hl1. cbn [ebind].
    assert (length body ≤ q)%nat as Hb by (subst q; rewrite length_len_field; lia).
    replace (Z.of_nat q) with (Z.of_nat (q - length body + length body)) at 1 by lia.
    subst body. rewrite <- app_assoc in Hj.
    assert (3 ≤ S (length d))%nat as H3.
    { rewrite length_app, !length_len_field in Hb. lia. }
    rewrite (entry_loop_spec _ d _ k v _ H3 Hl Hj).
    cbn [ebind]. rewrite (IH q l); [done|simpl in Hf; lia|done|done|lia].
Qed.

Lemma foldl_insert_map (l : list (string * string)) (m : gmap string string) :
  NoDup l.*1 → foldl (λ m kv, <[kv.1 := kv.2]> m) m l = list_to_map l ∪ m.
Proof.
  revert m. induction l as [|[k v] l IH]; intros m Hnd; simpl; [by rewrite (left_id_L ∅ _)|].
  apply NoDup_cons in Hnd as [Hk Hnd]. rewrite IH by done. simpl.
  rewrite <- insert_union_r, insert_union_l; [done|]. by apply not_elem_of_list_to_map_1.
Qed.

(** What a plugin marshals, the payload's [Unmarshal] reads back. *)
Lemma Payload_Unmarshal_bytes p :
  Payload_Size p < 2 ^ 63 → Payload_Unmarshal (Payload_bytes p) = inl p.
Proof.
  intros Hs. unfold Payload_Unmarshal, Payload_bytes, entries_bytes.
  set (l := reverse (range_kv "Payload.Marshal" (Fields p))).
  assert (Z.of_nat (length (concat (entry_bytes <$> l))) < 2 ^ 63) as Hlen.
  { change (concat _) with (Payload_bytes p). rewrite Payload_bytes_size; lia. }
  assert (length l ≤ length (concat (entry_bytes <$> l)))%nat as Hll.
  { clear. induction l as [|kv l IH]; [done|]. rewrite fmap_cons. cbn [concat length].
    rewrite length_app. unfold entry_bytes at 1. rewrite length_len_field. lia. }
  rewrite (Payload_loop_spec _ _ 0 l); [|lia|done|done|lia].
  - cbn [ebind]. rewrite foldl_insert_map.
    + rewrite (right_id_L ∅ _). destruct p as [m]. simpl in *. do 2 f_equal.
      rewrite <- (list_to_map_to_list m). apply list_to_map_proper.
      * subst l. rewrite reverse_Permutation. apply range_kv_NoDup_fst.
      * subst l. by rewrite reverse_Permutation, range_kv_perm.
    + subst l. rewrite reverse_Permutation. apply range_kv_NoDup_fst.
Qed.

(** ** Reading back a task

    [parses d p m r]: the loop started at [p] with the task [m] returns [r], given
    one iteration for every byte that is left. *)

Definition parses (d : bytes) (p : nat) (m r : Task) : Prop :=
  ∀ fuel, (length d - p < fuel)%nat → Task_loop fuel d (Z.of_nat p) m = inl r.

Lemma parses_end d p m : drop p d = [] → (p ≤ length d)%nat → parses d p m m.
Proof.
  intros Hd Hp [|fuel] Hf; [lia|]. apply (f_equal length) in Hd. rewrite length_drop in Hd.
  simpl in Hd. cbn [Task_loop]. by rewrite !decide_False by lia.
Qed.

(** The task with the string field of the given tag replaced. *)
Definition set_field (tag : Z) (s : string) (m : Task) : Task :=
  if decide (tag = 0x12) then mkTask (taskDataType m) s (taskData m) (Token m)
  else if decide (tag = 0x1a) then mkTask (taskDataType m) (ObjectName m) s (Token m)
  else mkTask (taskDataType m) (ObjectName m) (taskData m) s.

Lemma parses_str d p tag s rest m r :
  tag = 0x12 ∨ tag = 0x1a ∨ tag = 0x22 → Z.of_nat (length d) < 2 ^ 63 →
  set_field tag "" m = m → drop p d = str_field tag s ++ rest → (p ≤ length d)%nat →
  (∀ q, drop q d = rest → (q ≤ length d)%nat → parses d q (set_field tag s m) r) →
  parses d p m r.
Proof.
  intros Htag Hl Hm Hd Hp HK. unfold str_field in Hd. destruct (decide (len s > 0)) as [Hs|Hs].
  - destruct (read_len_field uint64 d p tag _ _ ltac:(by right) Hl ltac:(lia) Hd)
      as (Hg & Hgl & Hsl & _ & Hd2 & Hlt).
    intros [|fuel] Hf; [lia|]. cbn [Task_loop]. rewrite decide_True by lia. rewrite Hg. cbn [ebind].
    specialize (HK _ Hd2 ltac:(lia) fuel ltac:(lia)).
    destruct Htag as [-> | [-> | ->]];
      repeat (first [rewrite decide_False by (vm_compute; naive_solver)
                    |rewrite decide_True by (by vm_compute)]);
      rewrite Hgl; cbn [ebind]; rewrite Hsl, string_of_bytes_of; exact HK.
  - destruct s; [|simpl in Hs; lia]. rewrite Hm in HK. by apply HK.
Qed.

Lemma Task_Unmarshal_bytes t : Task_fits t → Task_Unmarshal (Task_bytes t) = inl t.
Proof.
  intros Ht. unfold Task_Unmarshal. set (d := Task_bytes t).
  assert (Z.of_nat (length d) < 2 ^ 63) as Hl.
  { subst d. rewrite Task_bytes_size by done. apply Ht. }
  assert (∀ q, drop q d = str_field 0x12 (ObjectName t) ++ str_field 0x1a (taskData t) ++
      str_field 0x22 (Token t) → (q ≤ length d)%nat →
    parses d q (mkTask (taskDataType t) "" "" "") t) as Hstr.
  { intros q Hq Hle. eapply parses_str; [by left|done|done|exact Hq|done|]. clear q Hq Hle.
    intros q Hq Hle. eapply parses_str; [by right; left|done|done|exact Hq|done|]. clear q Hq Hle.
    intros q Hq Hle. eapply (parses_str _ _ _ _ []); [by right; right|done|done|by rewrite app_nil_r|done|].
    clear q Hq Hle. intros q Hq Hle. destruct t. by apply parses_end. }
  assert (drop 0 d = var_field 0x8 (taskDataType t) ++ str_field 0x12 (ObjectName t) ++
    str_field 0x1a (taskData t) ++ str_field 0x22 (Token t)) as Hd by done.
  unfold var_field in Hd. destruct (decide (taskDataType t ≠ 0)) as [Hn|Hn].
  - destruct (get_tag d 0 0x8 (varint (uint64 (taskDataType t)) ++ str_field 0x12 (ObjectName t) ++
      str_field 0x1a (taskData t) ++ str_field 0x22 (Token t)) ltac:(lia) Hd) as (Hg & Hd1 & Hlt).
    cbn [Task_loop]. change 0 with (Z.of_nat 0). rewrite decide_True by lia.
    rewrite Hg. cbn [ebind].
    repeat (first [rewrite decide_False by (vm_compute; naive_solver)|rewrite decide_True by (by vm_compute)]).
    rewrite (get_varint_spec int32 (uint64 (taskDataType t)) d (Z.of_nat 1) _ (uint64_in _) ltac:(lia) Hd1).
    cbn [ebind].
    assert (int32 (uint64 (taskDataType t)) = taskDataType t) as ->.
    { unfold int32, uint64. rewrite wrap_s_wrap_u by lia. apply wrap_s_id; [lia|apply Ht]. }
    rewrite <- Nat2Z.inj_add. apply Hstr.
    + rewrite <- drop_drop. rewrite Hd1. by rewrite drop_app_length.
    + apply (f_equal length) in Hd1. rewrite length_drop, length_app in Hd1. lia.
    + apply (f_equal length) in Hd1. rewrite length_drop, length_app in Hd1. lia.
  - assert (taskDataType t = 0) as E by lia. rewrite E in Hstr. apply (Hstr 0%nat); [done|lia|lia].
Qed.

End bridge.
End Bridge.
