(* ===== verification/Buffer.v ===== *)
(** * The record buffer of the agent

    Models [agent/buffer/buffer.go] and [pool.go].  Every record the agent collects
    goes through one buffer of 2048 slots that the transport drains ten times a
    second; the records themselves are recycled through four pools by capacity.
    Records are shared by reference, so the model has a heap; a [sync.Pool] may hand
    out any of its records or a new one, so [Get] takes the choice as an argument.

    The last part puts the operations together in a system of concurrent writers and
    one sender, and shows that it implements a bounded queue of values. *)

From Stdlib Require Import Ascii.
From S2P Require Import Prelude Wire Bridge.
From stdpp Require Import options.

Module Buffer.

Definition buf_len : nat := 2048.
Definition defaultCap : Z := Z.shiftl 1 10.

(** [proto.EncodedRecord]: [arr] is the array behind the slice [Data], all of its
    capacity; [dlen] is the length of the slice. *)
Record EncodedRecord := mkRec { DataType : Z; Timestamp : Z; arr : bytes; dlen : nat }.

Definition cap (r : EncodedRecord) : Z := Z.of_nat (length (arr r)).
Definition rData (r : EncodedRecord) : bytes := take (dlen r) (arr r).

(** A [*proto.EncodedRecord]; [None] is nil. *)
Abbreviation ptr := (option nat).

Record state := mkState {
  heap : gmap nat EncodedRecord;
  next : nat;
  pools : list (list nat);
  buf : list ptr;
  offset : nat;
}.

Definition initial : state := mkState ∅ 0 (replicate 4 []) (replicate buf_len None) 0.

Definition set_heap (h : gmap nat EncodedRecord) (s : state) : state :=
  mkState h (next s) (pools s) (buf s) (offset s).
Definition set_pools (p : list (list nat)) (s : state) : state :=
  mkState (heap s) (next s) p (buf s) (offset s).
Definition set_buf (b : list ptr) (o : nat) (s : state) : state :=
  mkState (heap s) (next s) (pools s) b o.

(** ** [pool.go] *)

(** [pools[index].New]: an empty slice of the pool's capacity. *)
Definition pool_New (index : nat) (s : state) : nat * state :=
  let r := mkRec 0 0 (replicate (Z.to_nat (defaultCap * Z.of_nat (S index))) (u8 0)) 0 in
  (next s, mkState (<[next s := r]> (heap s)) (S (next s)) (pools s) (buf s) (offset s)).

(** [pools[index].Get()]. *)
Definition pool_Get (choice : nat) (index : nat) (s : state) : nat * state :=
  let p := default [] (pools s !! index) in
  match p !! choice with
  | Some l => (l, set_pools (<[index := delete choice p]> (pools s)) s)
  | None => pool_New index s
  end.

Definition pool_index (size : Z) : Z := if decide (size > 0)%Z then Z.shiftr (size - 1) 10 else 0.

Definition GetEncodedRecord (choice : nat) (size : Z) (s : state) : nat * state :=
  let index := pool_index size in
  let n := Z.of_nat (length (pools s)) in
  let index := if decide (index >= n)%Z then (n - 1)%Z else index in
  pool_Get choice (Z.to_nat index) s.

Definition PutEncodedRecord (rec : ptr) (s : state) : outcome state :=
  match rec ≫= (heap s !!.) with
  | None => Panic "nil pointer dereference"
  | Some r =>
      let index := pool_index (cap r) in
      if decide (cap r > 0 ∧ index >= Z.of_nat (length (pools s)))%Z then Ret s
      else
        let l := default 0 rec in
        let p := default [] (pools s !! Z.to_nat index) in
        Ret (mkState (<[l := mkRec (DataType r) (Timestamp r) (arr r) 0]> (heap s)) (next s)
              (<[Z.to_nat index := l :: p]> (pools s)) (buf s) (offset s))
  end.

(** ** [buffer.go] *)

(** The slice of a record resized to [n] bytes: [make] if its capacity is too
    small, a reslice otherwise; a negative size panics. *)
Definition resize (n : Z) (r : EncodedRecord) : outcome EncodedRecord :=
  if decide (cap r < n)%Z
  then Ret (mkRec (DataType r) (Timestamp r) (replicate (Z.to_nat n) (u8 0)) (Z.to_nat n))
  else if decide (n < 0)%Z then Panic "slice bounds out of range"
  else Ret (mkRec (DataType r) (Timestamp r) (arr r) (Z.to_nat n)).

(** The record with [b] in the first bytes of its slice. *)
Definition with_data (b : bytes) (r : EncodedRecord) : EncodedRecord :=
  mkRec (DataType r) (Timestamp r) (b ++ drop (length b) (arr r)) (dlen r).

Definition WriteEncodedRecord (hook : option (ptr → outcome ptr)) (rec : ptr) (s : state) : outcome state :=
  let! rec := match hook with Some h => h rec | None => Ret rec end in
  if decide (offset s < length (buf s))
  then Ret (set_buf (<[offset s := rec]> (buf s)) (S (offset s)) s)
  else PutEncodedRecord rec s.

Section write.
Context `{Ranger}.

(** [WriteRecord] up to the lock: a record from the pools with the marshalled
    payload. *)
Definition WriteRecord_prepare (choice : nat) (rec : Bridge.Record_) (s : state) : outcome (nat * state) :=
  match Bridge.Data rec with
  | None => Panic "nil pointer dereference"
  | Some p =>
      let size := Bridge.Payload_Size p in
      let '(l, s) := GetEncodedRecord choice size s in
      let r := default (mkRec 0 0 [] 0) (heap s !! l) in
      let r := mkRec (Bridge.DataType rec) (Bridge.Timestamp rec) (arr r) (dlen r) in
      let! r := resize size r in
      let! (d, _) := Bridge.Payload_MarshalToSizedBuffer p (rData r) (Z.of_nat (length (rData r))) in
      Ret (l, set_heap (<[l := with_data d r]> (heap s)) s)
  end.

(** The critical section: a full buffer loses its first record to the new one. *)
Definition WriteRecord_store (l : nat) (s : state) : state :=
  if decide (offset s < length (buf s))
  then set_buf (<[offset s := Some l]> (buf s)) (S (offset s)) s
  else set_buf (<[0 := Some l]> (buf s)) (offset s) s.

Definition WriteRecord (choice : nat) (rec : Bridge.Record_) (s : state) : outcome state :=
  let! (l, s) := WriteRecord_prepare choice rec s in
  Ret (WriteRecord_store l s).

End write.

Definition ReadEncodedRecords (s : state) : list ptr * state :=
  (take (offset s) (buf s), set_buf (buf s) 0 s).

(** [for _, rec := range recs { buffer.PutEncodedRecord(rec) }]. *)
Fixpoint PutAll (recs : list ptr) (s : state) : outcome state :=
  match recs with
  | [] => Ret s
  | rec :: recs => let! s := PutEncodedRecord rec s in PutAll recs s
  end.

(** ** The state invariant *)

(** The records waiting to be sent. *)
Definition live (s : state) : list ptr := take (offset s) (buf s).

(** Capacities only take the values the pools were built for, or exceed them all. *)
Definition cap_ok (r : EncodedRecord) : Prop :=
  dlen r ≤ length (arr r) ∧
  ((∃ i : nat, i < 4 ∧ cap r = (defaultCap * Z.of_nat (S i))%Z) ∨ (4 * defaultCap < cap r)%Z).

(** [held] are the records that writers and the sender are working on: no record is
    at two places at once. *)
Definition inv (held : list nat) (s : state) : Prop :=
  length (buf s) = buf_len ∧ offset s ≤ buf_len ∧ length (pools s) = 4 ∧
  (∀ p, p ∈ live s → is_Some p) ∧
  NoDup (omap id (live s) ++ concat (pools s) ++ held) ∧
  (∀ l, l ∈ omap id (live s) ++ concat (pools s) ++ held → is_Some (heap s !! l)) ∧
  (∀ l r, heap s !! l = Some r → l < next s ∧ cap_ok r) ∧
  (∀ i p l, pools s !! i = Some p → l ∈ p →
     ∃ r, heap s !! l = Some r ∧ cap r = (defaultCap * Z.of_nat (S i))%Z).

(** ** Pools *)

Lemma concat_lookup_perm {A} (ls : list (list A)) i p :
  ls !! i = Some p → concat ls ≡ₚ p ++ concat (take i ls ++ drop (S i) ls).
Proof.
  intros Hi. rewrite <- (take_drop_middle ls i p Hi) at 1.
  rewrite !concat_app. simpl. rewrite Permutation_app_swap_app. done.
Qed.

Lemma concat_insert_perm {A} (ls : list (list A)) i p q :
  ls !! i = Some p → concat (<[i := q]> ls) ≡ₚ q ++ concat (take i ls ++ drop (S i) ls).
Proof.
  intros Hi. assert (i < length ls) by by eapply lookup_lt_Some.
  rewrite (concat_lookup_perm (<[i:=q]> ls) i q) by by apply list_lookup_insert_eq.
  rewrite take_insert_ge, drop_insert_lt by lia. done.
Qed.

Lemma places_cons {A} (a b c : list A) x : a ++ b ++ x :: c ≡ₚ x :: a ++ b ++ c.
Proof. by rewrite <- !Permutation_middle. Qed.

Lemma inv_held_perm held held' s : held ≡ₚ held' → inv held s → inv held' s.
Proof.
  intros Hp (? & ? & ? & ? & Hnd & Hh & ? & ?).
  split_and!; [done..|by rewrite <- Hp| |done|done]. intros l. rewrite <- Hp. apply Hh.
Qed.

(** The pool a size selects. *)
Definition pool_of (size : Z) : nat := Z.to_nat (Z.min (pool_index size) 3).

Lemma pool_index_nonneg size : (0 ≤ pool_index size)%Z.
Proof. unfold pool_index. case_decide; [|lia]. apply Z.shiftr_nonneg. lia. Qed.

Lemma pool_of_lt size : pool_of size < 4.
Proof. unfold pool_of. pose proof (pool_index_nonneg size). lia. Qed.

(** Sizes up to 4096 fit in the pool they select. *)
Lemma pool_of_room size : (size ≤ 4 * defaultCap → size ≤ defaultCap * Z.of_nat (S (pool_of size)))%Z.
Proof.
  unfold pool_of, pool_index. change defaultCap with 1024%Z. intros Hs.
  case_decide; [|lia]. rewrite Z.shiftr_div_pow2 by lia. change (2 ^ 10)%Z with 1024%Z.
  pose proof (Z.div_mod (size - 1) 1024). pose proof (Z.mod_pos_bound (size - 1) 1024).
  lia.
Qed.

Lemma pool_index_cap i : pool_index (defaultCap * Z.of_nat (S i)) = Z.of_nat i.
Proof.
  unfold pool_index. change defaultCap with 1024%Z. rewrite decide_True by lia.
  rewrite Z.shiftr_div_pow2 by lia. change (2 ^ 10)%Z with 1024%Z.
  symmetry. apply (Z.div_unique_pos _ _ _ 1023); lia.
Qed.

Lemma pool_index_large c : (4 * defaultCap < c → 4 ≤ pool_index c)%Z.
Proof.
  unfold pool_index. change defaultCap with 1024%Z. intros. rewrite decide_True by lia.
  rewrite Z.shiftr_div_pow2 by lia. change (2 ^ 10)%Z with 1024%Z. apply Z.div_le_lower_bound; lia.
Qed.

Lemma GetEncodedRecord_pool choice size s held :
  inv held s → GetEncodedRecord choice size s = pool_Get choice (pool_of size) s.
Proof.
  intros (_ & _ & Hp & _). unfold GetEncodedRecord, pool_of. rewrite Hp.
  case_decide; f_equal; lia.
Qed.

(** A record that is handed out belongs to nobody else, the buffered records are
    unchanged, and up to 4096 bytes fit in it. *)
Lemma GetEncodedRecord_inv choice size s held l s' :
  inv held s → GetEncodedRecord choice size s = (l, s') →
  inv (l :: held) s' ∧ live s' = live s ∧ buf s' = buf s ∧ offset s' = offset s ∧
  (∀ l', Some l' ∈ live s → heap s' !! l' = heap s !! l') ∧
  ∃ r, heap s' !! l = Some r ∧ cap r = (defaultCap * Z.of_nat (S (pool_of size)))%Z.
Proof.
  intros Hinv. rewrite (GetEncodedRecord_pool _ _ _ _ Hinv). pose proof (pool_of_lt size) as Hlt.
  destruct Hinv as (Hb & Ho & Hp & Hs & Hnd & Hh & Hc & Hpool). unfold pool_Get.
  destruct (lookup_lt_is_Some_2 (pools s) (pool_of size)) as [p Hpi]; [lia|]. rewrite Hpi. simpl.
  destruct (p !! choice) as [l0|] eqn:El; intros E; injection E as <- <-.
  - assert (concat (pools s) ≡ₚ l0 :: concat (<[pool_of size:=delete choice p]> (pools s))) as Hperm.
    { rewrite (concat_lookup_perm _ _ _ Hpi), (concat_insert_perm _ _ _ (delete choice p) Hpi).
      by rewrite (delete_Permutation p choice l0 El) at 1. }
    assert (omap id (live s) ++ concat (<[pool_of size:=delete choice p]> (pools s)) ++ l0 :: held ≡ₚ
      omap id (live s) ++ concat (pools s) ++ held) as Hpl.
    { rewrite Hperm. simpl. by rewrite Permutation_middle. }
    split_and!; try done; simpl.
    + split_and!; simpl; try done.
      * by rewrite length_insert.
      * rewrite Hpl. done.
      * intros l. rewrite Hpl. apply Hh.
      * intros i p' l' Hi Hl'. destruct (decide (i = pool_of size)) as [->|Hne].
        -- rewrite list_lookup_insert_eq in Hi by lia. injection Hi as <-.
           eapply Hpool; [exact Hpi|]. rewrite (delete_Permutation p choice l0 El). by right.
        -- rewrite list_lookup_insert_ne in Hi by done. by eapply Hpool.
    + destruct (Hpool _ _ l0 Hpi) as (r & Hr & Hcap); [by eapply list_elem_of_lookup_2|]. eauto.
  - set (r := mkRec _ _ _ _).
    assert (cap r = defaultCap * Z.of_nat (S (pool_of size)))%Z as Hcap.
    { unfold cap. simpl. rewrite length_replicate. change defaultCap with 1024%Z. lia. }
    assert (heap s !! next s = None) as Hfresh.
    { destruct (heap s !! next s) as [r'|] eqn:E; [|done]. destruct (Hc _ _ E). lia. }
    assert (∀ l r', heap s !! l = Some r' → <[next s := r]> (heap s) !! l = Some r') as Hmono.
    { intros l r' Hl. rewrite lookup_insert_ne; [done|]. congruence. }
    split_and!; try done; simpl.
    + split_and!; simpl; try done.
      * rewrite places_cons. apply NoDup_cons. split; [|done]. intros Hin. destruct (Hh _ Hin). congruence.
      * intros l. rewrite !elem_of_app, elem_of_cons. destruct (decide (l = next s)) as [->|].
        { rewrite lookup_insert_eq. eauto. }
        intros Hl. destruct (Hh l) as [r' Hr']; [rewrite !elem_of_app; naive_solver|]. eauto.
      * intros l r'. destruct (decide (l = next s)) as [->|].
        { rewrite lookup_insert_eq. intros [= <-]. split; [lia|]. split; [simpl; lia|].
          left. exists (pool_of size). done. }
        rewrite lookup_insert_ne by done. intros Hr'. destruct (Hc _ _ Hr'). split; [lia|done].
      * intros i p' l' Hi Hl'. destruct (Hpool _ _ _ Hi Hl') as (r' & Hr' & ?). eauto.
    + intros l' Hl'. destruct (Hh l') as [r' Hr'].
      { rewrite elem_of_app, list_elem_of_omap. left. eauto. }
      rewrite Hr'. eauto.
    + exists r. by rewrite lookup_insert_eq.
Qed.

(** Changing a held record touches no other. *)
Lemma inv_update held s l r r' :
  inv held s → l ∈ held → heap s !! l = Some r → cap_ok r' →
  inv held (set_heap (<[l := r']> (heap s)) s) ∧
  (∀ l', Some l' ∈ live s → <[l := r']> (heap s) !! l' = heap s !! l').
Proof.
  intros (Hb & Ho & Hp & Hs & Hnd & Hh & Hc & Hpool) Hl Hr Hr'.
  assert (∀ l', l' ∈ omap id (live s) ++ concat (pools s) → l' ≠ l) as Hne.
  { intros l' Hl' ->. rewrite app_assoc in Hnd. apply NoDup_app in Hnd as (_ & Hd & _). by eapply Hd. }
  split.
  - split_and!; simpl; try done.
    + intros l' Hl'. destruct (decide (l' = l)) as [->|]; [rewrite lookup_insert_eq; eauto|].
      rewrite lookup_insert_ne by done. by apply Hh.
    + intros l' r''. destruct (decide (l' = l)) as [->|].
      * rewrite lookup_insert_eq. intros [= <-]. destruct (Hc _ _ Hr). done.
      * rewrite lookup_insert_ne by done. apply Hc.
    + intros i p l' Hi Hl'. rewrite lookup_insert_ne; [by eapply Hpool|].
      apply not_eq_sym, Hne. apply elem_of_app. right.
      rewrite (concat_lookup_perm _ _ _ Hi). apply elem_of_app. by left.
  - intros l' Hl'. apply lookup_insert_ne, not_eq_sym, Hne. apply elem_of_app. left.
    apply list_elem_of_omap. eauto.
Qed.

Lemma inv_held_lookup l held s : inv held s → l ∈ held → ∃ r, heap s !! l = Some r ∧ cap_ok r.
Proof.
  intros (_ & _ & _ & _ & _ & Hh & Hc & _) Hl. destruct (Hh l) as [r Hr].
  { rewrite !elem_of_app. auto. }
  exists r. split; [done|]. by eapply Hc.
Qed.

(** Dropping a held record. *)
Lemma inv_forget l held s : inv (l :: held) s → inv held s.
Proof.
  intros (Hb & Ho & Hp & Hs & Hnd & Hh & Hc & Hpool).
  split_and!; try done.
  - rewrite places_cons in Hnd. by apply NoDup_cons in Hnd as [_ Hnd].
  - intros l' Hl'. apply Hh. rewrite places_cons. by right.
Qed.

Lemma PutEncodedRecord_inv l held s :
  inv (l :: held) s →
  ∃ s', PutEncodedRecord (Some l) s = Ret s' ∧ inv held s' ∧ live s' = live s ∧
    buf s' = buf s ∧ offset s' = offset s ∧
    (∀ l', Some l' ∈ live s → heap s' !! l' = heap s !! l').
Proof.
  intros Hinv. destruct (inv_held_lookup l _ _ Hinv) as (r & Hr & Hcap); [by left|].
  unfold PutEncodedRecord. simpl. rewrite Hr.
  assert (length (pools s) = 4) as Hp by apply Hinv. rewrite Hp.
  destruct Hcap as [Hdl [(i & Hi & Hcap)|Hlarge]].
  - rewrite Hcap, pool_index_cap. rewrite decide_False by lia. rewrite Nat2Z.id.
    destruct (lookup_lt_is_Some_2 (pools s) i) as [p Hpi]; [lia|]. rewrite Hpi. simpl.
    set (r' := mkRec _ _ _ _).
    assert (cap_ok r') as Hcap'. { split; [simpl; lia|]. left. eauto. }
    destruct (inv_update _ _ l r r' Hinv ltac:(left) Hr Hcap') as [Hinv' Hlive].
    eexists. split; [done|]. split_and!; try done.
    destruct Hinv' as (Hb & Ho & _ & Hs & Hnd & Hh & Hc & Hpool). simpl in *.
    assert (concat (<[i:=l :: p]> (pools s)) ≡ₚ l :: concat (pools s)) as Hperm.
    { by rewrite (concat_insert_perm _ _ _ _ Hpi), (concat_lookup_perm _ _ _ Hpi). }
    assert (omap id (live s) ++ concat (<[i:=l :: p]> (pools s)) ++ held ≡ₚ
      omap id (live s) ++ concat (pools s) ++ l :: held) as Hpl.
    { rewrite Hperm, places_cons. simpl. by rewrite <- Permutation_middle. }
    split_and!; simpl; try done.
    + by rewrite length_insert.
    + by rewrite Hpl.
    + intros l'. rewrite Hpl. apply Hh.
    + intros j p' l' Hj Hl'. destruct (decide (j = i)) as [->|].
      * rewrite list_lookup_insert_eq in Hj by lia. injection Hj as <-.
        apply elem_of_cons in Hl' as [->|Hl']; [|by eapply Hpool].
        exists r'. rewrite lookup_insert_eq. done.
      * rewrite list_lookup_insert_ne in Hj by done. by eapply Hpool.
  - rewrite decide_True; [|split; [|apply Z.le_ge, (pool_index_large _ Hlarge)]].
    + exists s. split_and!; try done. by eapply inv_forget.
    + change defaultCap with 1024%Z in Hlarge. lia.
Qed.

(** What the receiver of a record sees of it. *)
Definition value (r : EncodedRecord) : Z * Z * bytes := (DataType r, Timestamp r, rData r).

(** A record taken from the pools for [size] bytes and resized to them. *)
Lemma resize_spec (n : nat) r :
  cap_ok r → (Z.of_nat n ≤ 4 * defaultCap → Z.of_nat n ≤ cap r)%Z →
  ∃ r', resize (Z.of_nat n) r = Ret r' ∧ cap_ok r' ∧ dlen r' = n ∧
    DataType r' = DataType r ∧ Timestamp r' = Timestamp r.
Proof.
  intros [Hd Hc] Hroom. unfold resize, cap in *. change defaultCap with 1024%Z in *. case_decide as Hcap.
  - eexists. split; [done|]. split_and!; try done; [|by simpl; lia].
    split; [simpl; rewrite length_replicate; lia|]. right. unfold cap. simpl.
    rewrite length_replicate. change defaultCap with 1024%Z. lia.
  - rewrite decide_False by lia. eexists. split; [done|]. rewrite Nat2Z.id.
    split_and!; try done. split; [simpl; lia|done].
Qed.

Lemma with_data_spec b r :
  cap_ok r → dlen r = length b →
  cap_ok (with_data b r) ∧ value (with_data b r) = (DataType r, Timestamp r, b).
Proof.
  intros [Hd Hc] Hl. unfold cap_ok, cap, value, rData, with_data in *. simpl.
  rewrite length_app, length_drop, Hl, take_app_length.
  replace (length b + (length (arr r) - length b)) with (length (arr r)) by lia.
  split; [|done]. split; [lia|done].
Qed.

(** ** Operations on the buffer *)

Lemma live_length s held : inv held s → length (live s) = offset s.
Proof. intros (Hb & Ho & _). unfold live. rewrite length_take. lia. Qed.

Lemma inv_push l held s :
  inv (l :: held) s → offset s < buf_len →
  let s' := set_buf (<[offset s := Some l]> (buf s)) (S (offset s)) s in
  inv held s' ∧ live s' = live s ++ [Some l].
Proof.
  intros (Hb & Ho & Hp & Hs & Hnd & Hh & Hc & Hpool) Hlt s'.
  assert (live s' = live s ++ [Some l]) as Hlive.
  { assert ((<[offset s := Some l]> (buf s) : list ptr) !! offset s = Some (Some l)) as E
      by (apply list_lookup_insert_eq; lia).
    unfold live. simpl. rewrite (take_S_r _ _ _ E).
    by rewrite take_insert_ge by lia. }
  assert (omap id (live s') ++ concat (pools s) ++ held ≡ₚ
    omap id (live s) ++ concat (pools s) ++ l :: held) as Hpl.
  { rewrite Hlive, omap_app, places_cons. simpl. rewrite <- app_assoc. simpl.
    by rewrite <- Permutation_middle. }
  split; [|done]. split_and!; simpl; try done.
  - by rewrite length_insert.
  - intros p. rewrite Hlive, elem_of_app, list_elem_of_singleton. intros [?| ->]; eauto.
  - by rewrite Hpl.
  - intros l'. rewrite Hpl. apply Hh.
Qed.

Lemma inv_steal l held s :
  inv (l :: held) s → ¬ offset s < buf_len →
  let s' := set_buf (<[0 := Some l]> (buf s)) (offset s) s in
  inv held s' ∧ live s' = Some l :: tail (live s).
Proof.
  intros (Hb & Ho & Hp & Hs & Hnd & Hh & Hc & Hpool) Hge s'.
  assert (live s' = Some l :: tail (live s)) as Hlive.
  { unfold live. simpl. destruct (buf s) as [|x b]; [done|]. unfold buf_len in *.
    destruct (offset s); [lia|done]. }
  assert (∃ x, omap id (live s) = x :: omap id (tail (live s))) as [x Hx].
  { destruct (live s) as [|p q] eqn:E.
    - unfold live in E. apply (f_equal length) in E. rewrite length_take in E. simpl in E.
      unfold buf_len in *. lia.
    - destruct (Hs p) as [y ->]; [left|]. eauto. }
  assert (x :: omap id (live s') ++ concat (pools s) ++ held ≡ₚ
    omap id (live s) ++ concat (pools s) ++ l :: held) as Hpl.
  { rewrite Hlive, Hx, places_cons. simpl. apply Permutation_swap. }
  split; [|done]. split_and!; simpl; try done.
  - by rewrite length_insert.
  - intros p. rewrite Hlive. intros [->|Hin]%elem_of_cons; [eauto|]. apply Hs.
    destruct (live s); [by apply elem_of_nil in Hin|by right].
  - rewrite <- Hpl in Hnd. by apply NoDup_cons in Hnd as [_ Hnd].
  - intros l' Hl'. apply Hh. rewrite <- Hpl. by right.
Qed.

Lemma inv_read held s :
  inv held s →
  let '(recs, s') := ReadEncodedRecords s in
  recs = live s ∧ inv (omap id recs ++ held) s' ∧ live s' = [].
Proof.
  intros (Hb & Ho & Hp & Hs & Hnd & Hh & Hc & Hpool). simpl. split; [done|]. split; [|done].
  assert (concat (pools s) ++ omap id (live s) ++ held ≡ₚ
    omap id (live s) ++ concat (pools s) ++ held) as Hpl by apply Permutation_app_swap_app.
  split_and!; simpl; try done.
  - lia.
  - intros p Hin. by apply elem_of_nil in Hin.
  - change (take (offset s) (buf s)) with (live s). by rewrite Hpl.
  - intros l. change (take (offset s) (buf s)) with (live s). rewrite Hpl. apply Hh.
Qed.

(** ** The buffer as a queue

    The system of writers and sender over the buffer: each action is one operation of
    the code, or the part of [WriteRecord] before or inside its critical section.
    The list of held records says what the threads are working on. *)

Inductive label :=
| Tau
| Push (v : Z * Z * bytes)
| PushSteal (v : Z * Z * bytes)
| Drain (vs : list (Z * Z * bytes)).

Definition value_of (s : state) (l : nat) : option (Z * Z * bytes) := value <$> heap s !! l.

(** A record from the pools filled with [b]: what [ReceiveData] and [WriteRecord] do. *)
Definition prepare (choice : nat) (dt ts : Z) (b : bytes) (s : state) : outcome (nat * state) :=
  let '(l, s) := GetEncodedRecord choice (Z.of_nat (length b)) s in
  let r := default (mkRec 0 0 [] 0) (heap s !! l) in
  let! r := resize (Z.of_nat (length b)) (mkRec dt ts (arr r) (dlen r)) in
  Ret (l, set_heap (<[l := with_data b r]> (heap s)) s).

Inductive step : state * list nat → label → state * list nat → Prop :=
| step_prepare s held choice dt ts b l s' :
    prepare choice dt ts b s = Ret (l, s') → step (s, held) Tau (s', l :: held)
| step_write s held l v s' :
    value_of s l = Some v → WriteEncodedRecord None (Some l) s = Ret s' →
    step (s, l :: held) (Push v) (s', held)
| step_store s held l v :
    value_of s l = Some v → step (s, l :: held) (PushSteal v) (WriteRecord_store l s, held)
| step_read s held recs s' vs :
    ReadEncodedRecords s = (recs, s') →
    (λ p, p ≫= value_of s) <$> recs = Some <$> vs →
    step (s, held) (Drain vs) (s', omap id recs ++ held)
| step_put s held l s' :
    PutEncodedRecord (Some l) s = Ret s' → step (s, l :: held) Tau (s', held)
| step_switch s held held' : held ≡ₚ held' → step (s, held) Tau (s, held').

(** The queue it implements: 2048 values; [Push] drops the new value when full,
    [PushSteal] the oldest one. *)
Definition astep (q : list (Z * Z * bytes)) (a : label) : list (Z * Z * bytes) :=
  match a with
  | Tau => q
  | Push v => if decide (length q < buf_len) then q ++ [v] else q
  | PushSteal v => if decide (length q < buf_len) then q ++ [v] else v :: tail q
  | Drain _ => []
  end.

(** The values in the buffer. *)
Definition contents (s : state) : list (option (Z * Z * bytes)) := (λ p, p ≫= value_of s) <$> live s.

Definition represents (s : state) (q : list (Z * Z * bytes)) : Prop := contents s = Some <$> q.

Lemma contents_ext s s' :
  live s' = live s → (∀ l, Some l ∈ live s → heap s' !! l = heap s !! l) → contents s' = contents s.
Proof.
  intros Hl Hh. unfold contents. rewrite Hl. apply list_fmap_ext. intros i p Hp.
  destruct p as [l|]; [|done]. simpl. unfold value_of. rewrite Hh; [done|].
  by eapply list_elem_of_lookup_2.
Qed.

Lemma represents_length s q held : inv held s → represents s q → length q = offset s.
Proof.
  intros Hi Hr. rewrite <- (live_length _ _ Hi). apply (f_equal length) in Hr.
  unfold contents in Hr. by rewrite !length_fmap in Hr.
Qed.

Lemma prepare_inv choice dt ts b s held :
  inv held s →
  ∃ l s', prepare choice dt ts b s = Ret (l, s') ∧ inv (l :: held) s' ∧
    contents s' = contents s ∧ value_of s' l = Some (dt, ts, b).
Proof.
  intros Hinv. unfold prepare.
  destruct (GetEncodedRecord choice (Z.of_nat (length b)) s) as [l s1] eqn:E.
  destruct (GetEncodedRecord_inv _ _ _ _ _ _ Hinv E) as (Hi1 & Hl1 & _ & _ & Hh1 & r & Hr & Hcap).
  rewrite Hr. simpl. destruct (inv_held_lookup l _ _ Hi1) as (r1 & Hr1 & Hok); [by left|].
  simplify_eq.
  destruct (resize_spec (length b) (mkRec dt ts (arr r) (dlen r))) as (r' & -> & Hok' & Hd & Hdt & Hts).
  { exact Hok. }
  { intros Hb. etrans; [apply (pool_of_room _ Hb)|]. unfold cap in *. simpl. lia. }
  simpl. destruct (with_data_spec b r' Hok' Hd) as [Hok'' Hv].
  destruct (inv_update _ _ l r (with_data b r') Hi1 ltac:(left) Hr Hok'') as [Hi2 Hh2].
  exists l, (set_heap (<[l:=with_data b r']> (heap s1)) s1). split_and!; [done|done| |].
  - apply contents_ext; [done|]. intros l' Hl'. simpl. rewrite Hh2 by by rewrite Hl1. by apply Hh1.
  - unfold value_of. simpl. rewrite lookup_insert_eq. simpl. rewrite Hv. simpl in *. congruence.
Qed.

Lemma push_contents l held s v q :
  inv (l :: held) s → offset s < buf_len → value_of s l = Some v → represents s q →
  represents (set_buf (<[offset s := Some l]> (buf s)) (S (offset s)) s) (q ++ [v]).
Proof.
  intros Hi Hlt Hv Hq. destruct (inv_push l held s Hi Hlt) as [_ Hl].
  unfold represents, contents. rewrite Hl, !fmap_app. simpl. f_equal; [exact Hq|].
  unfold value_of in *. simpl. by rewrite Hv.
Qed.

Lemma WriteRecord_store_inv l held s v q :
  inv (l :: held) s → value_of s l = Some v → represents s q →
  inv held (WriteRecord_store l s) ∧ represents (WriteRecord_store l s) (astep q (PushSteal v)).
Proof.
  intros Hi Hv Hq. unfold WriteRecord_store. simpl.
  rewrite (represents_length _ _ _ Hi Hq). assert (length (buf s) = buf_len) as -> by apply Hi.
  case_decide as Hlt.
  - split; [by apply inv_push|by eapply push_contents].
  - destruct (inv_steal l held s Hi Hlt) as [Hi' Hl]. split; [done|].
    unfold represents, contents. rewrite Hl. simpl. f_equal; [exact Hv|].
    unfold represents, contents in Hq. destruct (live s), q; simpl in Hq |- *; try done.
    injection Hq as _ Hq. exact Hq.
Qed.

Lemma WriteEncodedRecord_inv l held s v q :
  inv (l :: held) s → value_of s l = Some v → represents s q →
  ∃ s', WriteEncodedRecord None (Some l) s = Ret s' ∧ inv held s' ∧ represents s' (astep q (Push v)).
Proof.
  intros Hi Hv Hq. unfold WriteEncodedRecord. simpl. rewrite (represents_length _ _ _ Hi Hq).
  assert (length (buf s) = buf_len) as -> by apply Hi. case_decide as Hlt.
  - eexists. split_and!; [done|by apply inv_push|by eapply push_contents].
  - destruct (PutEncodedRecord_inv l held s Hi) as (s' & E & Hi' & Hl & _ & _ & Hh).
    exists s'. split_and!; [done|done|]. unfold represents. by rewrite (contents_ext s).
Qed.

(** [C5] The buffer is a bounded queue of values for any number of concurrent
    writers: from a state in which no record is at two places, every action (in
    every interleaving) keeps it so and does to the buffered values what the queue
    does: a plugin's record is appended or, when all 2048 slots are taken, dropped; the
    agent's own record replaces the oldest one instead; a drain returns the values
    in the order they were written and leaves none.  In particular no buffered
    record is overwritten through the pools before it is sent. *)
Theorem buffer_is_queue (s s' : state) (held held' : list nat) (q : list (Z * Z * bytes)) (a : label)
    (Hinv : inv held s) (Hq : represents s q) (Hstep : step (s, held) a (s', held')) :
  inv held' s' ∧ represents s' (astep q a) ∧
  match a with Drain vs => vs = q | _ => True end.
Proof.
  inversion Hstep; subst; clear Hstep.
  - destruct (prepare_inv choice dt ts b s held Hinv) as (l' & s'' & E & Hi & Hc & _).
    assert (l' = l ∧ s'' = s') as [-> ->] by (split; congruence).
    split_and!; [done| |done]. unfold represents. by rewrite Hc.
  - match goal with Hv : value_of s l = Some v |- _ =>
      destruct (WriteEncodedRecord_inv l held' s v q Hinv Hv Hq) as (s'' & E & ? & ?) end.
    assert (s'' = s') as -> by congruence. done.
  - destruct (WriteRecord_store_inv l held' s v q) as [? ?]; done.
  - match goal with E : ReadEncodedRecords s = _ |- _ => 
      pose proof (inv_read held s Hinv) as Hr; rewrite E in Hr end.
    destruct Hr as (-> & Hi & Hl). split_and!; [done| |].
    + unfold represents, contents. by rewrite Hl.
    + apply (inj (fmap Some)). unfold represents, contents in Hq. congruence.
  - destruct (PutEncodedRecord_inv l held' s Hinv) as (s'' & E & Hi & Hl & _ & _ & Hh).
    assert (s'' = s') as -> by congruence.
    split_and!; [done| |done]. unfold represents. by rewrite (contents_ext s).
  - split_and!; [by eapply inv_held_perm|done|done].
Qed.

Lemma inv_initial : inv [] initial.
Proof.
  split_and!; simpl; try done.
  - apply Nat.le_0_l.
  - intros p Hp. by apply elem_of_nil in Hp.
  - constructor.
  - intros l Hl. by apply elem_of_nil in Hl.
  - intros i p l Hi Hl. change ([[]; []; []; []]) with (replicate 4 ([] : list nat)) in Hi.
    apply lookup_replicate in Hi as [-> _]. by apply elem_of_nil in Hl.
Qed.

Lemma represents_initial : represents initial [].
Proof. done. Qed.

Lemma buffer_is_queue_witness :
  ∃ s held l s',
    inv (l :: held) s ∧ represents s [] ∧ step (s, l :: held) (Push (1, 2, [u8 3])%Z) (s', held) ∧
    represents s' [(1, 2, [u8 3])%Z].
Proof.
  destruct (prepare_inv 0 1 2 [u8 3] initial [] inv_initial) as (l & s & _ & Hi & Hc & Hv).
  assert (represents s []) as Hr by (unfold represents; rewrite Hc; apply represents_initial).
  assert (offset s < length (buf s)) as Hlt.
  { rewrite <- (represents_length _ _ _ Hi Hr). assert (length (buf s) = buf_len) as -> by apply Hi.
    apply Nat.ltb_lt. reflexivity. }
  assert (step (s, [l]) (Push (1, 2, [u8 3])%Z)
    (set_buf (<[offset s := Some l]> (buf s)) (S (offset s)) s, [])) as Hs.
  { apply step_write; [done|]. unfold WriteEncodedRecord. simpl. by rewrite decide_True by done. }
  exists s, [], l, (set_buf (<[offset s := Some l]> (buf s)) (S (offset s)) s).
  split; [exact Hi|]. split; [exact Hr|]. split; [exact Hs|].
  exact (proj1 (proj2 (buffer_is_queue _ _ _ _ _ _ Hi Hr Hs))).
Defined.

(** ** The agent's own records *)

Section write_record.
Context `{Ranger}.

Lemma WriteRecord_prepare_eq choice rec p s held :
  inv held s → Bridge.Data rec = Some p → (Bridge.Payload_Size p < 2 ^ 63)%Z →
  WriteRecord_prepare choice rec s =
    prepare choice (Bridge.DataType rec) (Bridge.Timestamp rec) (Bridge.Payload_bytes p) s.
Proof.
  intros Hinv Hd Hs. unfold WriteRecord_prepare, prepare. rewrite Hd.
  assert (Bridge.Payload_Size p < 2 ^ 64)%Z as Hs' by (etrans; [exact Hs|done]).
  rewrite <- Bridge.Payload_bytes_size by done. set (b := Bridge.Payload_bytes p).
  destruct (GetEncodedRecord choice (Z.of_nat (length b)) s) as [l s1] eqn:E.
  destruct (GetEncodedRecord_inv _ _ _ _ _ _ Hinv E) as (Hi1 & _ & _ & _ & _ & r & Hr & Hcap).
  rewrite Hr. simpl. destruct (inv_held_lookup l _ _ Hi1) as (r1 & Hr1 & Hok); [by left|]. simplify_eq.
  destruct (resize_spec (length b) (mkRec (Bridge.DataType rec) (Bridge.Timestamp rec) (arr r) (dlen r)))
    as (r' & -> & [Hl _] & Hdl & _).
  { exact Hok. }
  { intros Hb. etrans; [apply (pool_of_room _ Hb)|]. unfold cap in *. simpl. lia. }
  simpl. assert (length (rData r') = length b) as Hlen by (unfold rData; rewrite length_take; lia).
  pose proof (Bridge.Payload_appends p Hs' [] (rData r') []) as Hm.
  simpl in Hm. rewrite !app_nil_r in Hm. fold b in Hm. rewrite Hm by done. done.
Qed.

(** [WriteRecord] succeeds in every state the system can be in, and the value it
    buffers is the record's with its marshalled payload: appended while there is room,
    in place of the oldest record otherwise. *)
Theorem WriteRecord_effect (choice : nat) (rec : Bridge.Record_) (p : Bridge.Payload) (s : state)
    (held : list nat) (q : list (Z * Z * bytes))
    (Hinv : inv held s) (Hq : represents s q)
    (Hd : Bridge.Data rec = Some p) (Hs : (Bridge.Payload_Size p < 2 ^ 63)%Z) :
  ∃ s' b, WriteRecord choice rec s = Ret s' ∧ inv held s' ∧
    Bridge.Payload_Unmarshal b = inl p ∧
    represents s' (astep q (PushSteal (Bridge.DataType rec, Bridge.Timestamp rec, b))).
Proof.
  unfold WriteRecord. rewrite (WriteRecord_prepare_eq _ _ p s held) by done.
  destruct (prepare_inv choice (Bridge.DataType rec) (Bridge.Timestamp rec) (Bridge.Payload_bytes p) s held Hinv)
    as (l & s1 & -> & Hi & Hc & Hv).
  simpl. eexists _, (Bridge.Payload_bytes p). split; [done|].
  destruct (WriteRecord_store_inv l held s1 _ q Hi Hv) as [Hi' Hr].
  { unfold represents. by rewrite Hc. }
  split_and!; [done|by apply Bridge.Payload_Unmarshal_bytes|exact Hr].
Qed.

End write_record.

Lemma WriteRecord_effect_witness :
  let rec := Bridge.mkRecord 1000 7 (Some (Bridge.mkPayload {["k" := "v"]})) in
  ∃ s' b, WriteRecord 0 rec initial = Ret s' ∧ inv [] s' ∧
    Bridge.Payload_Unmarshal b = inl (Bridge.mkPayload {["k" := "v"]}) ∧
    represents s' [(1000, 7, b)%Z].
Proof.
  exact (WriteRecord_effect 0 (Bridge.mkRecord 1000 7 (Some (Bridge.mkPayload {["k" := "v"]})))
    (Bridge.mkPayload {["k" := "v"]}) initial [] [] inv_initial represents_initial eq_refl eq_refl).
Defined.

End Buffer.
