(* ===== verification/Archive.v ===== *)
(** * Extracting plugin archives

    Models [agent/utils/decompress.go]: the archive of a plugin is extracted into the
    directory of the plugin.  The readers of [compress/gzip] and [archive/tar] are outside:
    an archive is what [Next] delivers.  The file system is a tree of directories and files
    without links; it may refuse any operation. *)

From S2P Require Import Prelude GoStrings GoText GoPath.
From stdpp Require Import options.
From Stdlib Require Import Ascii.
Local Open Scope string_scope.

Module Archive.

(** ** The file system *)

(** The elements of a path from the root. *)
Abbreviation path := (list string).

Inductive node := Dir | File (perm : Z) (content : string).

#[export] Instance node_eq_dec : EqDecision node.
Proof. solve_decision. Defined.

Abbreviation fs := (gmap path node).

(** The root is always there. *)
Definition is_dir (f : fs) (p : path) : bool := bool_decide (p = [] ∨ f !! p = Some Dir).

(** What an absolute path means. *)
Definition resolve (p : string) : path := reverse (foldl (clean_elem true) [] (str_split "/" p)).

Section system.
(** What the system refuses: permissions, space, quotas. *)
Context (denied : path → bool).

(** [os.MkdirAll] from a directory that exists down the elements of [todo]. *)
Fixpoint mkdir_from (at_ todo : path) (f : fs) : fs * option string :=
  match todo with
  | [] => (f, None)
  | e :: todo =>
      let p := (at_ ++ [e])%list in
      match f !! p with
      | Some Dir => mkdir_from p todo f
      | Some (File _ _) => (f, Some "not a directory")
      | None => if denied p then (f, Some "permission denied") else mkdir_from p todo (<[p := Dir]> f)
      end
  end.

Definition MkdirAll (p : string) (f : fs) : fs * option string := mkdir_from [] (resolve p) f.

(** [os.OpenFile] with [O_RDWR|O_CREATE|O_TRUNC]: a file that exists keeps its mode. *)
Definition OpenFile (p : string) (perm : Z) (f : fs) : option fs :=
  let k := resolve p in
  if denied k || bool_decide (k = []) then None
  else match f !! k with
  | Some Dir => None
  | Some (File perm0 _) => Some (<[k := File perm0 ""]> f)
  | None => if is_dir f (removelast k) then Some (<[k := File perm ""]> f) else None
  end.

(** [io.Copy] to an open file: what was written stays, also after an error. *)
Definition write_file (p : string) (data : string) (f : fs) : fs :=
  match f !! resolve p with
  | Some (File perm _) => <[resolve p := File perm data]> f
  | _ => f
  end.

(** ** [DecompressTarGz] *)

Inductive kind := Regular (perm : Z) | Directory | Unsupported.

(** A header with what can be read of its contents, and whether reading or writing ends in
    an error. *)
Record entry := mkEntry { Name : string; Mode : kind; Size : Z; data : string; copy_error : bool }.

(** What [Next] delivers: entries up to the end, or up to an error. *)
Record archive := mkArchive { entries : list entry; next_error : option string }.

Definition relativeParentDir := "../".

Definition filepath_Dir (p : string) : string := path_Clean (str_join "/" (removelast (str_split "/" p) ++ [""])%list).

(** One entry: the files, the directories made so far, and the error. *)
Definition extract_one (dst : string) (e : entry) (madeDir : gset string) (f : fs) : fs * gset string * option string :=
  if str_contains relativeParentDir (Name e) then (f, madeDir, Some ("invalid file name: " +:+ Name e))
  else
    let abs := path_Join dst (Name e) in
    match Mode e with
    | Regular perm =>
        let dir := filepath_Dir abs in
        let '(f, madeDir, err) :=
          (if decide (dir ∈ madeDir) then (f, madeDir, None)
           else match MkdirAll dir f with
                | (f, Some err) => (f, madeDir, Some err)
                | (f, None) => (f, {[dir]} ∪ madeDir, None)
                end) in
        match err with
        | Some err => (f, madeDir, Some err)
        | None =>
            match OpenFile abs perm f with
            | None => (f, madeDir, Some "open")
            | Some f =>
                let f := write_file abs (data e) f in
                if copy_error e then (f, madeDir, Some ("error writing to " +:+ abs))
                else if decide (Z.of_nat (String.length (data e)) ≠ Size e) then (f, madeDir, Some ("only wrote to " +:+ abs))
                else (f, madeDir, None)
            end
        end
    | Directory =>
        match MkdirAll abs f with
        | (f, Some err) => (f, madeDir, Some err)
        | (f, None) => (f, {[abs]} ∪ madeDir, None)
        end
    | Unsupported => (f, madeDir, Some ("tar file entry " +:+ Name e +:+ " contained unsupported file type"))
    end.

Fixpoint extract (dst : string) (es : list entry) (madeDir : gset string) (f : fs) : fs * option string :=
  match es with
  | [] => (f, None)
  | e :: es =>
      match extract_one dst e madeDir f with
      | (f, _, Some err) => (f, Some err)
      | (f, madeDir, None) => extract dst es madeDir f
      end
  end.

(** [None]: the header of the compressed stream is wrong. *)
Definition DecompressTarGz (r : option archive) (dst : string) (f : fs) : fs * option string :=
  match r with
  | None => (f, Some "gzip: invalid header")
  | Some a =>
      match extract dst (entries a) ∅ f with
      | (f, Some err) => (f, Some err)
      | (f, None) => (f, next_error a)
      end
  end.

End system.

(** ** Paths *)

(** An element that means a child. *)
Definition plain (e : string) : Prop := e ≠ "" ∧ e ≠ "." ∧ e ≠ ".." ∧ lacks "/"%char e = true.

#[local] Instance plain_dec e : Decision (plain e).
Proof. unfold plain. apply _. Defined.

Lemma split_app a b : str_split "/" (a +:+ "/" +:+ b) = (str_split "/" a ++ str_split "/" b)%list.
Proof.
  remember (String.length a) as n eqn:Hn. revert a Hn. induction n as [n IH] using lt_wf_ind. intros a ->.
  destruct (lacks "/"%char a) eqn:E.
  - change ("/" +:+ b) with (String "/"%char b). by rewrite str_split_char, (str_split_lacks "/"%char a) by done.
  - destruct (lacks_false _ _ E) as (x & y & -> & Hx). rewrite str_app_assoc.
    change (String "/"%char y +:+ "/" +:+ b) with (String "/"%char (y +:+ "/" +:+ b)).
    rewrite !str_split_char by done. cbn [app]. f_equal. eapply IH; [|done]. rewrite str_length_app. simpl. lia.
Qed.

(** Cleaning keeps children only. *)
Lemma clean_elem_plain acc e : Forall plain acc → lacks "/"%char e = true → Forall plain (clean_elem true acc e).
Proof.
  intros Ha He. unfold clean_elem. case_decide as H1; [done|]. case_decide as H2.
  - destruct Ha as [|a acc Hp Ha]; [done|]. rewrite decide_False by apply Hp. done.
  - constructor; [|done]. split_and!; naive_solver.
Qed.

Lemma clean_plain l acc : Forall plain acc → Forall (λ e, lacks "/"%char e = true) l → Forall plain (foldl (clean_elem true) acc l).
Proof. intros Ha Hl. revert acc Ha. induction Hl as [|e l He Hl IH]; intros acc Ha; [done|]. apply IH. by apply clean_elem_plain. Qed.

Lemma resolve_plain p : Forall plain (resolve p).
Proof. unfold resolve. apply Forall_reverse, clean_plain; [constructor|apply split_parts]. Qed.

Lemma clean_plain_elems l acc : Forall plain l → foldl (clean_elem true) acc l = (reverse l ++ acc)%list.
Proof.
  intros Hl. revert acc. induction Hl as [|e l He Hl IH]; intros acc; [done|]. cbn [foldl]. rewrite IH, reverse_cons, <- app_assoc. f_equal.
  unfold clean_elem. destruct He as (? & ? & ? & _). rewrite decide_False by tauto. by rewrite decide_False.
Qed.

Lemma plain_lacks l : Forall plain l → Forall (λ e, lacks "/"%char e = true) l.
Proof. intros Hl. eapply Forall_impl; [exact Hl|]. by intros x (_ & _ & _ & ?). Qed.

(** The string of a path. *)
Definition string_of (p : path) : string := "/" +:+ str_join "/" p.

Lemma resolve_string_of p : Forall plain p → resolve (string_of p) = p.
Proof.
  intros Hp. unfold resolve, string_of. change ("/" +:+ str_join "/" p) with ("" +:+ "/" +:+ str_join "/" p). rewrite split_app.
  cbn [app foldl str_split]. change (str_split "/" "") with [""]. cbn [app foldl].
  change (clean_elem true [] "") with (@nil string). destruct p as [|e p]; [done|].
  rewrite split_join; [|by apply plain_lacks|done].
  rewrite clean_plain_elems by done. by rewrite app_nil_r, reverse_involutive.
Qed.

Lemma Clean_rooted p : has_prefix "/" p = true → path_Clean p = string_of (resolve p).
Proof. intros Hp. unfold path_Clean. by rewrite Hp. Qed.

Lemma resolve_Clean p : has_prefix "/" p = true → resolve (path_Clean p) = resolve p.
Proof. intros Hp. rewrite Clean_rooted by done. apply resolve_string_of, resolve_plain. Qed.

Lemma has_prefix_app p a b : has_prefix p a = true → has_prefix p (a +:+ b) = true.
Proof.
  unfold has_prefix. revert a. induction p as [|c p IH]; intros [|x a]; simpl; try done.
  case_decide; [apply IH|done].
Qed.

(** What the name of an entry means. *)
Definition target (dst name : string) : path := reverse (foldl (clean_elem true) (reverse (resolve dst)) (str_split "/" name)).

Lemma Join_target dst name : has_prefix "/" dst = true → path_Join dst name = string_of (target dst name).
Proof.
  intros Hd. assert (dst ≠ "") as Hne by (by intros ->). unfold path_Join, target. rewrite filter_cons_True by done.
  destruct (decide (name = "")) as [->|Hn].
  - rewrite filter_cons_False, filter_nil by tauto. simpl. rewrite Clean_rooted by done. change (str_split "/" "") with [""].
    cbn [foldl]. change (clean_elem true ?x "") with x. by rewrite reverse_involutive.
  - rewrite filter_cons_True, filter_nil by done. cbn [str_join]. rewrite Clean_rooted by (by apply has_prefix_app).
    unfold resolve. by rewrite split_app, foldl_app, reverse_involutive.
Qed.

Lemma target_plain dst name : Forall plain (target dst name).
Proof. apply Forall_reverse, clean_plain; [apply Forall_reverse, resolve_plain|apply split_parts]. Qed.

Lemma resolve_Join dst name : has_prefix "/" dst = true → resolve (path_Join dst name) = target dst name.
Proof. intros Hd. rewrite Join_target by done. apply resolve_string_of, target_plain. Qed.

Lemma split_string_of p : Forall plain p → p ≠ [] → str_split "/" (string_of p) = "" :: p.
Proof.
  intros Hp Hne. unfold string_of. change ("/" +:+ str_join "/" p) with ("" +:+ "/" +:+ str_join "/" p). rewrite split_app.
  by rewrite split_join by (by try apply plain_lacks).
Qed.

Lemma removelast_cons {A} (x : A) l : l ≠ [] → removelast (x :: l) = x :: removelast l.
Proof. by destruct l. Qed.

Lemma Forall_removelast {A} (P : A → Prop) l : Forall P l → Forall P (removelast l).
Proof. induction 1 as [|x l Hx Hl IH]; [done|]. destruct l; [constructor|]. rewrite removelast_cons by done. by constructor. Qed.

Lemma Dir_string_of p : Forall plain p → filepath_Dir (string_of p) = string_of (removelast p).
Proof.
  intros Hp. destruct p as [|e p]; [done|]. unfold filepath_Dir. rewrite split_string_of, removelast_cons by done.
  set (q := removelast (e :: p)). assert (Forall plain q) as Hq by (by apply Forall_removelast).
  assert (∃ t, (q ++ [""])%list = t ∧ t ≠ []) as (t & Et & Ht) by (eexists; split; [done|by destruct q]).
  cbn [app]. rewrite Et. assert (str_join "/" ("" :: t) = "" +:+ "/" +:+ str_join "/" t) as -> by (by destruct t).
  rewrite Clean_rooted by done. f_equal. unfold resolve. rewrite split_app, split_join; [|rewrite <- Et; apply Forall_app; split; [by apply plain_lacks|by constructor]|done].
  cbn [app foldl]. change (str_split "/" "") with [""]. cbn [app foldl]. rewrite <- Et, foldl_app, (clean_plain_elems q) by done.
  cbn [foldl]. change (clean_elem true ?x "") with x. change (clean_elem true [] "") with (@nil string). by rewrite app_nil_r, reverse_involutive.
Qed.

(** *** Names without [../] *)

Lemma inner_not_parent name l e r : str_contains "../" name = false → str_split "/" name = (l ++ e :: r)%list → r ≠ [] → e ≠ "..".
Proof.
  intros Hc Hs Hr ->. apply not_true_iff_false in Hc. apply Hc, str_contains_true.
  rewrite <- (str_join_split "/" name), Hs. clear -Hr. destruct r as [|x r]; [done|].
  induction l as [|y l (a & b & IH)]; [by exists "", (str_join "/" (x :: r))|].
  exists (y +:+ "/" +:+ a), b. cbn [app]. rewrite !str_app_assoc, <- IH. by destruct l.
Qed.

(** Below [dst], or [dst] or its parent. *)
Lemma target_cases dst name :
  str_contains relativeParentDir name = false →
  resolve dst `prefix_of` target dst name ∨ target dst name = removelast (resolve dst).
Proof.
  intros Hc. unfold target. destruct (exists_last (str_split_ne "/" name)) as (l & e & Hs).
  assert (Forall (λ e, e ≠ ".." ∧ lacks "/"%char e = true) l) as Hl.
  { apply Forall_forall. intros x Hx. split.
    - apply list_elem_of_split in Hx as (l1 & l2 & ->). eapply (inner_not_parent name l1 x (l2 ++ [e])%list); [done| |by destruct l2].
      by rewrite Hs, <- app_assoc.
    - pose proof (split_parts "/"%char name) as Hp. rewrite Hs in Hp. apply Forall_app in Hp as [Hp _].
      by eapply Forall_forall in Hp. }
  assert (∃ s, foldl (clean_elem true) (reverse (resolve dst)) l = (s ++ reverse (resolve dst))%list ∧ Forall plain s) as (s & Es & Hps).
  { clear -Hl. generalize (reverse (resolve dst)) as acc. induction Hl as [|x l [Hx Hy] Hl IH]; intros acc; [exists []; split; [done|constructor]|].
    cbn [foldl]. unfold clean_elem at 2. case_decide; [apply IH|]. rewrite decide_False by done.
    destruct (IH (x :: acc)) as (s & -> & Hs). exists (s ++ [x])%list. rewrite <- app_assoc. split; [done|]. apply Forall_app. split; [done|].
    constructor; [|constructor]. split_and!; naive_solver. }
  rewrite Hs, foldl_app, Es. cbn [foldl]. unfold clean_elem. case_decide.
  - left. rewrite reverse_app, reverse_involutive. by apply prefix_app_r.
  - case_decide.
    + destruct s as [|x s]; cbn [app].
      * right. pose proof (Forall_reverse plain (resolve dst)) as [_ Hp]. specialize (Hp (resolve_plain dst)).
        rewrite <- (reverse_involutive (resolve dst)) at 2. destruct (reverse (resolve dst)) as [|a acc]; [done|].
        inversion_clear Hp as [|? ? Ha _]. rewrite decide_False by apply Ha. by rewrite reverse_cons, removelast_last.
      * left. inversion_clear Hps as [|? ? Hx _]. rewrite decide_False by apply Hx. rewrite reverse_app, reverse_involutive. by apply prefix_app_r.
    + left. rewrite reverse_cons, reverse_app, reverse_involutive, <- app_assoc. by apply prefix_app_r.
Qed.

(** ** Nothing outside the directory is changed *)

(** [p] and what it is in are directories. *)
Definition has_dir (f : fs) (p : path) : Prop := ∀ q, q `prefix_of` p → is_dir f q = true.

Definition comparable (a t : path) : Prop := a `prefix_of` t ∨ t `prefix_of` a.

(** [f'] differs from [f] only below [d], which is still a directory. *)
Definition confined (d : path) (f f' : fs) : Prop := (∀ k, ¬ d `prefix_of` k → f' !! k = f !! k) ∧ has_dir f' d.

Lemma confined_trans d f f1 f2 : confined d f f1 → confined d f1 f2 → confined d f f2.
Proof. intros [H1 _] [H2 Hd]. split; [|done]. intros k Hk. by rewrite H2, H1. Qed.

Lemma removelast_prefix {A} (l : list A) : removelast l `prefix_of` l.
Proof. destruct (decide (l = [])) as [->|Hne]; [done|]. destruct (exists_last Hne) as (l' & x & ->). rewrite removelast_last. by apply prefix_app_r. Qed.

Lemma comparable_parent a t : comparable a t → comparable a (removelast t).
Proof.
  pose proof (removelast_prefix t) as Hr. intros [Ha|Ht]; [by eapply prefix_weak_total|right; by etrans].
Qed.

Lemma has_dir_keeps f f' d : (∀ q, f !! q = Some Dir → f' !! q = Some Dir) → has_dir f d → has_dir f' d.
Proof.
  intros Hk Hd q Hq. specialize (Hd q Hq). unfold is_dir in *. apply bool_decide_eq_true in Hd. apply bool_decide_eq_true.
  destruct Hd; auto.
Qed.

Lemma has_dir_lookup f d q : has_dir f d → q `prefix_of` d → q ≠ [] → f !! q = Some Dir.
Proof. intros Hd Hq Hne. specialize (Hd q Hq). apply bool_decide_eq_true in Hd. by destruct Hd. Qed.

Section proofs.
Context (denied : path → bool).

(** Directories are made on the way to a path only. *)
Lemma mkdir_from_frame at_ todo f f' err k :
  mkdir_from denied at_ todo f = (f', err) →
  f' !! k = f !! k ∨ (f !! k = None ∧ f' !! k = Some Dir ∧ k ≠ [] ∧ k `prefix_of` (at_ ++ todo)%list).
Proof.
  revert at_ f. induction todo as [|e todo IH]; intros at_ f; cbn [mkdir_from]; [intros [= <- _]; by left|].
  replace (at_ ++ e :: todo)%list with ((at_ ++ [e]) ++ todo)%list by (by rewrite <- app_assoc).
  destruct (f !! (at_ ++ [e])%list) as [[|]|] eqn:E; [apply IH|intros [= <- _]; by left|].
  destruct (denied _); [intros [= <- _]; by left|]. intros H. destruct (IH _ _ H) as [Hk|(Hn & Hd & Hne & Hp)].
  - destruct (decide (k = at_ ++ [e])%list) as [->|Hne]; [|left; by rewrite Hk, lookup_insert_ne by done].
    right. rewrite Hk, lookup_insert_eq. split_and!; [done|done|by destruct at_|by apply prefix_app_r].
  - right. apply lookup_insert_None in Hn as [Hn _]. done.
Qed.

Lemma mkdir_confined d at_ todo f f' err :
  mkdir_from denied at_ todo f = (f', err) → comparable d (at_ ++ todo)%list → has_dir f d → confined d f f'.
Proof.
  intros Hm Hc Hd. split.
  - intros k Hk. destruct (mkdir_from_frame _ _ _ _ _ k Hm) as [|(Hn & _ & Hne & Hp)]; [done|]. exfalso.
    assert (k `prefix_of` d) as Hkd.
    { destruct Hc as [Hc|Hc]; [|by etrans]. destruct (prefix_weak_total k d _ Hp Hc); [done|contradiction]. }
    rewrite (has_dir_lookup _ _ _ Hd Hkd Hne) in Hn. done.
  - eapply has_dir_keeps; [|exact Hd]. intros q Hq. destruct (mkdir_from_frame _ _ _ _ _ q Hm) as [->|(Hn & _)]; congruence.
Qed.

Lemma insert_confined d k n f : d `prefix_of` k → f !! k ≠ Some Dir → has_dir f d → confined d f (<[k := n]> f).
Proof.
  intros Hk Hn Hd. split; [intros k' Hk'; by rewrite lookup_insert_ne by (by intros ->)|].
  eapply has_dir_keeps; [|exact Hd]. intros q Hq. rewrite lookup_insert_ne; [done|]. by intros ->.
Qed.

Lemma open_confined d p perm f f' :
  OpenFile denied p perm f = Some f' → comparable d (resolve p) → has_dir f d →
  d `prefix_of` resolve p ∧ confined d f f' ∧ (∃ perm' c, f' !! resolve p = Some (File perm' c)).
Proof.
  unfold OpenFile. set (k := resolve p). intros Ho Hc Hd. destruct (denied k); [done|]. cbn [orb] in Ho.
  case_bool_decide as Hne; [done|].
  assert (f !! k ≠ Some Dir) as Hn by (intros E; by rewrite E in Ho).
  assert (d `prefix_of` k) as Hp by (destruct Hc as [|Hc]; [done|exfalso; by apply Hn, (has_dir_lookup f d)]).
  split; [done|]. destruct (f !! k) as [[|perm0 c]|] eqn:E; [done|..].
  - injection Ho as <-. split; [by apply insert_confined; rewrite ?E|]. rewrite lookup_insert_eq. eauto.
  - destruct (is_dir f (removelast k)); [|done]. injection Ho as <-. split; [by apply insert_confined; rewrite ?E|]. rewrite lookup_insert_eq. eauto.
Qed.

Lemma write_confined d p data f :
  d `prefix_of` resolve p → has_dir f d → confined d f (write_file p data f).
Proof.
  intros Hp Hd. unfold write_file. destruct (f !! resolve p) as [[|perm c]|] eqn:E; [by split..| |by split].
  apply insert_confined; [done|by rewrite E|done].
Qed.

Lemma entry_comparable dst name :
  has_prefix "/" dst = true → str_contains relativeParentDir name = false → comparable (resolve dst) (target dst name).
Proof.
  intros Hd Hc. destruct (target_cases dst name Hc) as [|E]; [by left|]. right. rewrite E. apply removelast_prefix.
Qed.

Lemma extract_one_confined dst e made f f' made' err :
  has_prefix "/" dst = true → has_dir f (resolve dst) →
  extract_one denied dst e made f = (f', made', err) → confined (resolve dst) f f'.
Proof.
  intros Hd Hf. unfold extract_one. destruct (str_contains relativeParentDir (Name e)) eqn:Hc; [intros [= <- _ _]; by split|].
  pose proof (entry_comparable dst (Name e) Hd Hc) as Hcmp. pose proof (target_plain dst (Name e)) as Hpl.
  rewrite (Join_target dst (Name e) Hd). set (t := target dst (Name e)) in *. destruct (Mode e) as [perm| |].
  - rewrite Dir_string_of by done. set (dir := string_of (removelast t)).
    assert (∀ f1 m1 e1, (if decide (dir ∈ made) then (f, made, None) else
        match MkdirAll denied dir f with (f, Some err) => (f, made, Some err) | (f, None) => (f, {[dir]} ∪ made, None) end) = (f1, m1, e1) →
        confined (resolve dst) f f1) as H1.
    { intros f1 m1 e1. case_decide; [intros [= <- _ _]; by split|]. unfold MkdirAll.
      destruct (mkdir_from denied [] (resolve dir) f) as [f2 o] eqn:E. assert (confined (resolve dst) f f2) as Hok.
      { eapply mkdir_confined; [exact E| |done]. unfold dir. rewrite resolve_string_of by (by apply Forall_removelast). by apply comparable_parent. }
      by destruct o; intros [= <- _ _]. }
    destruct (if decide (dir ∈ made) then _ else _) as [[f1 m1] [e1|]] eqn:E1; [intros [= <- _ _]; by eapply H1|].
    specialize (H1 _ _ _ eq_refl). destruct (OpenFile denied (string_of t) perm f1) as [f2|] eqn:E2; [|by intros [= <- _ _]].
    destruct (open_confined (resolve dst) (string_of t) perm f1 f2 E2) as (Hp & H2 & _); [by rewrite resolve_string_of|apply H1|].
    assert (confined (resolve dst) f (write_file (string_of t) (data e) f2)) as H3.
    { eapply confined_trans; [exact H1|]. eapply confined_trans; [exact H2|]. apply write_confined; [done|apply H2]. }
    destruct (copy_error e); [by intros [= <- _ _]|]. intros Hx; case_decide; by simplify_eq.
  - unfold MkdirAll. destruct (mkdir_from denied [] (resolve (string_of t)) f) as [f2 o] eqn:E.
    assert (confined (resolve dst) f f2) as Hok by (eapply mkdir_confined; [exact E|by rewrite resolve_string_of|done]).
    by destruct o; intros [= <- _ _].
  - intros [= <- _ _]. by split.
Qed.

Lemma extract_confined dst es made f f' err :
  has_prefix "/" dst = true → has_dir f (resolve dst) → extract denied dst es made f = (f', err) → confined (resolve dst) f f'.
Proof.
  intros Hd. revert made f. induction es as [|e es IH]; intros made f Hf; cbn [extract]; [intros [= <- _]; by split|].
  destruct (extract_one denied dst e made f) as [[f1 m1] [e1|]] eqn:E; pose proof (extract_one_confined _ _ _ _ _ _ _ Hd Hf E) as H1;
    [by intros [= <- _]|]. intros H2. eapply confined_trans; [exact H1|]. eapply IH; [apply H1|exact H2].
Qed.

(** [C34] Whatever an archive contains, extracting it changes nothing outside the directory it is
    extracted into, also if it fails half-way. *)
Theorem extraction_confined r dst f f' err :
  has_prefix "/" dst = true → has_dir f (resolve dst) → DecompressTarGz denied r dst f = (f', err) →
  ∀ k, ¬ resolve dst `prefix_of` k → f' !! k = f !! k.
Proof.
  intros Hd Hf. unfold DecompressTarGz. destruct r as [a|]; [|by intros [= <- _]].
  destruct (extract denied dst (entries a) ∅ f) as [f1 o] eqn:E. apply extract_confined in E as [E _]; [|done..].
  by destruct o; intros [= <- _].
Qed.

(** ** What is extracted *)

Definition key (dst : string) (e : entry) : path := (resolve dst ++ str_split "/" (Name e))%list.

Definition contents (e : entry) : node := match Mode e with Regular perm => File perm (data e) | _ => Dir end.

(** An entry for a file or directory below the directory of extraction that can be read. *)
Definition good (e : entry) : Prop :=
  Forall plain (str_split "/" (Name e)) ∧ str_contains relativeParentDir (Name e) = false ∧
  match Mode e with
  | Regular _ => copy_error e = false ∧ Size e = Z.of_nat (String.length (data e))
  | Directory => True
  | Unsupported => False
  end.

(** No two entries have the same name, and no file has entries in it. *)
Definition compatible (dst : string) (es : list entry) : Prop :=
  NoDup (key dst <$> es) ∧
  ∀ e e' perm, e ∈ es → e' ∈ es → Mode e = Regular perm → key dst e `prefix_of` key dst e' → key dst e = key dst e'.

Lemma key_target dst e : Forall plain (str_split "/" (Name e)) → target dst (Name e) = key dst e.
Proof. intros Hp. unfold target, key. by rewrite clean_plain_elems, reverse_app, !reverse_involutive by done. Qed.

Lemma mkdir_ok at_ todo f :
  has_dir f at_ → (∀ q, q `prefix_of` (at_ ++ todo)%list → denied q = false) →
  (∀ q, q `prefix_of` (at_ ++ todo)%list → q ≠ [] → f !! q = None ∨ f !! q = Some Dir) →
  ∃ f', mkdir_from denied at_ todo f = (f', None) ∧ has_dir f' (at_ ++ todo)%list.
Proof.
  revert at_ f. induction todo as [|e todo IH]; intros at_ f Hd Hden Hq; cbn [mkdir_from]; [rewrite app_nil_r; eauto|].
  replace (at_ ++ e :: todo)%list with ((at_ ++ [e]) ++ todo)%list in * by (by rewrite <- app_assoc).
  assert ((at_ ++ [e])%list `prefix_of` ((at_ ++ [e]) ++ todo)%list) as Hpre by (by apply prefix_app_r).
  assert (∀ q, q `prefix_of` (at_ ++ [e])%list → q `prefix_of` at_ ∨ q = (at_ ++ [e])%list) as Hcases.
  { intros q [r Hr]. destruct (exists_last (l:=q ++ r)) as (r0 & x & E); [rewrite <- Hr; by destruct at_|].
    destruct (decide (r = [])) as [->|Hne]; [right; by rewrite app_nil_r in Hr|left].
    destruct (exists_last Hne) as (r1 & y & ->). rewrite app_assoc in Hr. apply app_inj_tail in Hr as [-> _]. by apply prefix_app_r. }
  destruct (Hq (at_ ++ [e])%list Hpre ltac:(by destruct at_)) as [E|E]; rewrite E.
  - rewrite Hden by done. apply IH; [|done|].
    + intros q [Hq'| ->]%Hcases; unfold is_dir; apply bool_decide_eq_true; [|right; by rewrite lookup_insert_eq].
      destruct (decide (q = [])) as [->|Hne]; [by left|]. right. rewrite lookup_insert_ne; [by eapply has_dir_lookup|].
      intros <-. rewrite (has_dir_lookup f at_) in E by done. done.
    + intros q Hq' Hne. destruct (decide (q = at_ ++ [e])%list) as [->|]; [right; by rewrite lookup_insert_eq|].
      rewrite lookup_insert_ne by done. auto.
  - apply IH; [|done|done]. intros q [Hq'| ->]%Hcases; [by apply Hd|]. unfold is_dir. apply bool_decide_eq_true. by right.
Qed.

Section extraction.
Context (dst : string).

(** The entries [own] may have directories, those of [done] are extracted. *)
Record inv (own done : list entry) (made : gset string) (f : fs) : Prop := {
  inv_dst : has_dir f (resolve dst);
  inv_made : ∀ d, d ∈ made → has_dir f (resolve d);
  inv_dir : ∀ k, f !! k = Some Dir → ¬ k `prefix_of` resolve dst → resolve dst `prefix_of` k →
    ∃ e, e ∈ own ∧ k `prefix_of` key dst e ∧ (k = key dst e → Mode e = Directory);
  inv_file : ∀ k p c, f !! k = Some (File p c) → ¬ k `prefix_of` resolve dst → resolve dst `prefix_of` k → ∃ e, e ∈ done ∧ k = key dst e ∧ Mode e = Regular p;
  inv_done : ∀ e, e ∈ done → f !! key dst e = Some (contents e) }.

Lemma key_below e : good e → resolve dst `prefix_of` key dst e ∧ ¬ key dst e `prefix_of` resolve dst.
Proof.
  intros _. split; [by apply prefix_app_r|]. intros Hp%prefix_length. unfold key in Hp. rewrite length_app in Hp.
  pose proof (str_split_ne "/" (Name e)). destruct (str_split "/" (Name e)); [done|]. simpl in Hp. lia.
Qed.

(** Making the directory [t] of an entry, or the one it is in. *)
Lemma mkdir_inv done made e t f :
  (∀ q, denied q = false) → inv (done ++ [e]) done made f → compatible dst (done ++ [e]) → Forall plain t → comparable (resolve dst) t →
  t `prefix_of` key dst e → (t = key dst e → Mode e = Directory) →
  ∃ f1, MkdirAll denied (string_of t) f = (f1, None) ∧ has_dir f1 t ∧ inv (done ++ [e]) done ({[string_of t]} ∪ made) f1 ∧
    (∀ k, ¬ k `prefix_of` t → f1 !! k = f !! k).
Proof.
  intros Hden Hi [Hnd Hc] Hpl Hcmp Ht Hself. unfold MkdirAll. rewrite resolve_string_of by done.
  assert (∀ e0, e0 ∈ done → key dst e0 ≠ key dst e) as Hnew.
  { intros e0 Hin E. rewrite fmap_app in Hnd. apply NoDup_app in Hnd as (_ & Hnd & _).
    apply (Hnd (key dst e0)); [by apply list_elem_of_fmap_2|]. rewrite E. by constructor. }
  destruct (mkdir_ok [] t f) as (f1 & Hm & Hd); [intros q ->%prefix_nil_inv; by unfold is_dir; apply bool_decide_eq_true; left|intros; apply Hden| |].
  { intros q Hq Hne. destruct (f !! q) as [[|p c]|] eqn:E; [by right| |by left]. exfalso. cbn [app] in Hq.
    assert (¬ q `prefix_of` resolve dst) as Hqd.
    { intros Hqd. rewrite (has_dir_lookup f (resolve dst)) in E by (done || apply Hi). done. }
    assert (resolve dst `prefix_of` q) as Hdq.
    { destruct Hcmp as [Hcmp|Hcmp]; [by destruct (prefix_weak_total q (resolve dst) t)|]. exfalso. apply Hqd. by etrans. }
    destruct (inv_file _ _ _ _ Hi q p c E Hqd Hdq) as (e0 & Hin & -> & Hm). apply (Hnew e0 Hin).
    apply (Hc e0 e p); [set_solver|set_solver|done|by etrans]. }
  cbn [app] in Hd. exists f1. split; [done|]. split; [done|].
  assert (∀ k, f1 !! k = f !! k ∨ (f !! k = None ∧ f1 !! k = Some Dir ∧ k ≠ [] ∧ k `prefix_of` t)) as Hfr
    by (intros k; by apply (mkdir_from_frame _ _ _ _ _ k Hm)).
  assert (∀ q, f !! q = Some Dir → f1 !! q = Some Dir) as Hkeep by (intros q Hq; destruct (Hfr q) as [->|(? & _)]; congruence).
  split; [|intros k Hk; destruct (Hfr k) as [|(_ & _ & _ & ?)]; done]. split.
  - eapply has_dir_keeps; [exact Hkeep|apply Hi].
  - intros d [->%elem_of_singleton|Hd']%elem_of_union; [by rewrite resolve_string_of|]. eapply has_dir_keeps; [exact Hkeep|by apply Hi].
  - intros k Hk Hk1 Hk2. destruct (Hfr k) as [E|(_ & _ & _ & Hp)]; [rewrite E in Hk; by eapply inv_dir|].
    exists e. split_and!; [set_solver|by etrans|]. intros ->. apply Hself. by apply (anti_symm prefix).
  - intros k p c Hk Hk1 Hk2. destruct (Hfr k) as [E|(_ & E & _)]; [rewrite E in Hk; by eapply inv_file|congruence].
  - intros e0 Hin. pose proof (inv_done _ _ _ _ Hi e0 Hin) as E. destruct (Hfr (key dst e0)) as [->|(? & _)]; congruence.
Qed.

Lemma inv_own own own' done made f : (∀ e, e ∈ own → e ∈ own') → inv own done made f → inv own' done made f.
Proof. intros Hsub [H1 H2 H3 H4 H5]. split; try done. intros k Hk Hk1 Hk2. destruct (H3 k Hk Hk1 Hk2) as (e & ? & ? & ?). eauto. Qed.

Lemma compatible_new done e : compatible dst (done ++ [e]) → ∀ e0, e0 ∈ done → key dst e0 ≠ key dst e.
Proof.
  intros [Hnd _] e0 Hin E. rewrite fmap_app in Hnd. apply NoDup_app in Hnd as (_ & Hnd & _).
  apply (Hnd (key dst e0)); [by apply list_elem_of_fmap_2|]. rewrite E. by constructor.
Qed.

(** The file of an entry, after the directory it is in has been made. *)
Lemma open_inv done made e perm f :
  (∀ q, denied q = false) → inv (done ++ [e]) done made f → compatible dst (done ++ [e]) → good e → Mode e = Regular perm →
  has_dir f (removelast (key dst e)) →
  ∃ f1, OpenFile denied (string_of (key dst e)) perm f = Some f1 ∧
    inv (done ++ [e]) (done ++ [e]) made (write_file (string_of (key dst e)) (data e) f1).
Proof.
  intros Hden Hi Hcp Hg Hm Hd. set (t := key dst e) in *. destruct (key_below e Hg) as [Hb1 Hb2].
  pose proof (compatible_new _ _ Hcp) as Hnew. destruct Hcp as [_ Hc].
  assert (Forall plain t) as Hpl by (apply Forall_app; split; [apply resolve_plain|apply Hg]).
  assert (t ≠ []) as Hne by (intros E; apply Hb2; fold t; rewrite E; apply prefix_nil).
  assert (f !! t = None) as Hn.
  { destruct (f !! t) as [[|p c]|] eqn:E; [| |done]; exfalso.
    - destruct (inv_dir _ _ _ _ Hi t E Hb2 Hb1) as (e0 & [Hin|Hin%list_elem_of_singleton]%elem_of_app & Hp & Hself).
      + apply (Hnew e0 Hin). symmetry. apply (Hc e e0 perm); [set_solver|set_solver|done|done].
      + subst e0. rewrite Hself in Hm by done. done.
    - destruct (inv_file _ _ _ _ Hi t p c E Hb2 Hb1) as (e0 & Hin & E0 & _). by apply (Hnew e0 Hin). }
  exists (<[t := File perm ""]> f). unfold OpenFile, write_file. rewrite resolve_string_of by done. rewrite Hden, Hn. cbn [orb].
  rewrite bool_decide_eq_false_2 by done. rewrite (Hd (removelast t)) by done. split; [done|]. rewrite lookup_insert_eq, insert_insert_eq.
  assert (∀ q, f !! q = Some Dir → <[t := File perm (data e)]> f !! q = Some Dir) as Hkeep
    by (intros q Hq; rewrite lookup_insert_ne by congruence; done).
  split.
  - eapply has_dir_keeps; [exact Hkeep|apply Hi].
  - intros d Hd'. eapply has_dir_keeps; [exact Hkeep|by apply Hi].
  - intros k. rewrite lookup_insert. case_decide; [done|]. by apply Hi.
  - intros k p c. rewrite lookup_insert. case_decide as Hk.
    + intros [= <- <-] _ _. exists e. split_and!; [set_solver|by rewrite <- Hk|done].
    + intros E Hk1 Hk2. destruct (inv_file _ _ _ _ Hi k p c E Hk1 Hk2) as (e0 & Hin & ?). exists e0. split; [set_solver|done].
  - intros e0 [Hin| ->%list_elem_of_singleton]%elem_of_app.
    + rewrite lookup_insert_ne by (intros E; by apply (Hnew e0 Hin)). by apply Hi.
    + fold t. rewrite lookup_insert_eq. unfold contents. by rewrite Hm.
Qed.

Lemma extract_one_inv done made e f :
  has_prefix "/" dst = true → (∀ q, denied q = false) → inv done done made f → compatible dst (done ++ [e]) → good e →
  ∃ f1 made1, extract_one denied dst e made f = (f1, made1, None) ∧ inv (done ++ [e]) (done ++ [e]) made1 f1.
Proof.
  intros Habs Hden Hi Hcp Hg. apply (inv_own _ (done ++ [e])) in Hi; [|set_solver]. unfold extract_one.
  pose proof Hg as (Hsp & -> & Hmode). rewrite Join_target, key_target by done. set (t := key dst e).
  destruct (key_below e Hg) as [Hb1 Hb2]. assert (Forall plain t) as Hpl by (apply Forall_app; split; [apply resolve_plain|done]).
  destruct (Mode e) as [perm| |] eqn:Hm; [| |done].
  - destruct Hmode as [-> Hsize]. rewrite Dir_string_of by done. set (dir := string_of (removelast t)).
    assert (resolve dir = removelast t) as Er by (by apply resolve_string_of, Forall_removelast).
    assert (∃ f1 m1, (if decide (dir ∈ made) then (f, made, None) else
        match MkdirAll denied dir f with (f, Some err) => (f, made, Some err) | (f, None) => (f, {[dir]} ∪ made, None) end) = (f1, m1, None) ∧
        inv (done ++ [e]) done m1 f1 ∧ has_dir f1 (removelast t)) as (f1 & m1 & -> & Hi1 & Hd1).
    { case_decide as Hin; [exists f, made; split_and!; [done|done|rewrite <- Er; by apply Hi]|].
      destruct (mkdir_inv done made e (removelast t) f) as (f1 & Hmk & Hd & Hi1 & _); try done.
      - by apply Forall_removelast.
      - apply comparable_parent. by left.
      - apply removelast_prefix.
      - intros E. exfalso. assert (t ≠ []) as Hne by (intros E0; apply Hb2; fold t; rewrite E0; apply prefix_nil).
        destruct (exists_last Hne) as (l & x & E1). fold t in E. rewrite E1, removelast_last in E. apply (f_equal length) in E.
        rewrite length_app in E. simpl in E. lia.
      - exists f1, ({[dir]} ∪ made). unfold dir. rewrite Hmk. done. }
    destruct (open_inv done m1 e perm f1) as (f2 & Ho & Hi2); [done..|]. fold t in Ho, Hi2. rewrite Ho, decide_False by (intros E; by apply E).
    eauto.
  - destruct (mkdir_inv done made e t f) as (f1 & Hmk & Hd & Hi1 & _); try done; [by left|]. rewrite Hmk.
    exists f1, ({[string_of t]} ∪ made). split; [done|]. destruct Hi1 as [H1 H2 H3 H4 H5]. split; try done.
    + intros k p c Hk Hk1 Hk2. destruct (H4 k p c Hk Hk1 Hk2) as (e0 & ? & ?). exists e0. split; [set_solver|done].
    + intros e0 [Hin| ->%list_elem_of_singleton]%elem_of_app; [by apply H5|]. fold t. unfold contents. rewrite Hm.
      apply (has_dir_lookup f1 t); [done|done|]. intros E0. apply Hb2. fold t. rewrite E0. apply prefix_nil.
Qed.

Lemma extract_inv done es made f :
  has_prefix "/" dst = true → (∀ q, denied q = false) → inv done done made f → compatible dst (done ++ es) → Forall good es →
  ∃ f1 made1, extract denied dst es made f = (f1, None) ∧ inv (done ++ es) (done ++ es) made1 f1.
Proof.
  intros Habs Hden. revert done made f. induction es as [|e es IH]; intros done made f Hi Hcp Hg; cbn [extract].
  { exists f, made. by rewrite app_nil_r. }
  inversion_clear Hg as [|? ? Hge Hgs]. replace (done ++ e :: es)%list with ((done ++ [e]) ++ es)%list in * by (by rewrite <- app_assoc).
  destruct (extract_one_inv done made e f Habs Hden Hi) as (f1 & m1 & -> & Hi1); [|done|by apply IH].
  destruct Hcp as [Hnd Hc]. split; [|intros; eapply Hc; set_solver].
  rewrite fmap_app in Hnd. by apply NoDup_app in Hnd as [? _].
Qed.
End extraction.

(** An archive of files and directories with proper names, extracted into an empty
    directory of a system that refuses nothing: every entry is there with its contents. *)
Theorem archive_extracted a dst f :
  has_prefix "/" dst = true → (∀ q, denied q = false) → has_dir f (resolve dst) →
  (∀ k, resolve dst `prefix_of` k → k ≠ resolve dst → f !! k = None) →
  compatible dst (entries a) → Forall good (entries a) → next_error a = None →
  ∃ f', DecompressTarGz denied (Some a) dst f = (f', None) ∧ ∀ e, e ∈ entries a → f' !! key dst e = Some (contents e).
Proof.
  intros Habs Hden Hd Hempty Hcp Hg Hn. destruct (extract_inv dst [] (entries a) ∅ f Habs Hden) as (f1 & m1 & He & Hi); [|done|done|].
  - split; [done|set_solver| | |set_solver].
    + intros k Hk Hk1 Hk2. rewrite Hempty in Hk; [done|done|]. intros ->. by apply Hk1.
    + intros k p c Hk Hk1 Hk2. rewrite Hempty in Hk; [done|done|]. intros ->. by apply Hk1.
  - exists f1. unfold DecompressTarGz. rewrite He, Hn. split; [done|]. by apply Hi.
Qed.
End proofs.

(** ** Witnesses *)

Definition w_archive : archive := mkArchive
  [mkEntry "driver" (Regular 448) 3 "elf" false; mkEntry "lib" Directory 0 "" false;
   mkEntry "lib/sub/a.so" (Regular 420) 2 "so" false] None.

Definition w_fs : fs := {[ ["var"] := Dir; ["var"; "elkeid"] := Dir; ["etc"] := Dir; ["etc"; "passwd"] := File 420 "root" ]}.

Lemma w_has_dir : has_dir w_fs (resolve "/var/elkeid").
Proof.
  intros q Hq. change (resolve "/var/elkeid") with ["var"; "elkeid"] in Hq.
  destruct q as [|x [|y [|z q]]]; [done|apply prefix_cons_inv_1 in Hq as Hx; by subst| |];
    pose proof (prefix_cons_inv_1 _ _ _ _ Hq) as Hx; apply prefix_cons_inv_2 in Hq; pose proof (prefix_cons_inv_1 _ _ _ _ Hq) as Hy;
    subst; [done|]. apply prefix_cons_inv_2 in Hq. by apply prefix_nil_not in Hq.
Defined.

Lemma extraction_confined_witness :
  ∃ f' err, DecompressTarGz (λ _, false) (Some (mkArchive [mkEntry "driver" (Regular 448) 3 "elf" false; mkEntry "../../etc/passwd" (Regular 420) 1 "x" false] None))
    "/var/elkeid" w_fs = (f', err) ∧ f' !! ["etc"; "passwd"] = Some (File 420 "root").
Proof.
  destruct (DecompressTarGz _ _ _ _) as [f' err] eqn:E. exists f', err. split; [done|].
  rewrite (extraction_confined (λ _, false) _ "/var/elkeid" w_fs f' err eq_refl w_has_dir E); [done|].
  apply (bool_decide_unpack _). by vm_compute.
Defined.

Lemma archive_extracted_witness :
  ∃ f', DecompressTarGz (λ _, false) (Some w_archive) "/var/elkeid" w_fs = (f', None) ∧
    f' !! ["var"; "elkeid"; "lib"; "sub"; "a.so"] = Some (File 420 "so").
Proof.
  destruct (archive_extracted (λ _, false) w_archive "/var/elkeid" w_fs) as (f' & Hr & Hf).
  - done.
  - done.
  - apply w_has_dir.
  - intros k Hk Hne. destruct (w_fs !! k) as [n|] eqn:E; [|done]. exfalso. unfold w_fs in E.
    repeat (apply lookup_insert_Some in E as [[<- _]|[_ E]]; [first [by apply Hne|by apply (bool_decide_pack _) in Hk; vm_compute in Hk]|]).
    apply lookup_singleton_Some in E as [<- _]. by apply (bool_decide_pack _) in Hk; vm_compute in Hk.
  - split; [apply (bool_decide_unpack _); by vm_compute|].
    intros e e' perm He He'. repeat (apply elem_of_cons in He as [->|He]; [|try by apply not_elem_of_nil in He]);
      repeat (apply elem_of_cons in He' as [->|He']; [|try by apply not_elem_of_nil in He']); intros Hm Hp; first [done|by apply (bool_decide_pack _) in Hp; vm_compute in Hp].
  - repeat (constructor; [split; [apply (bool_decide_unpack _); by vm_compute|done]|]). constructor.
  - done.
  - exists f'. split; [done|]. apply (Hf (mkEntry "lib/sub/a.so" (Regular 420) 2 "so" false)). do 2 right. left.
Defined.

End Archive.
