(* ===== verification/PluginProtocol.v ===== *)
(** * The pipes between the agent and a plugin

    Models both ends of the two pipes: [SendRecord] and [ReceiveTask] of the plugin
    library ([plugins/lib/go/client.go]); [ReceiveData], [SendTask] and the receiving
    and sending goroutines of the agent ([agent/plugin/plugin.go],
    [plugin_linux.go]).  A pipe is the sequence of bytes still to be read; it ends
    when the other side has closed it. *)

From Stdlib Require Import Ascii.
From S2P Require Import Prelude Wire Bridge Buffer.
From stdpp Require Import options.

Local Open Scope Z_scope.

Module PluginProtocol.

(** ** Readers with an error *)

Definition rd (A : Type) : Type := bytes → (A + error) * bytes.

Definition rbind {A B} (c : rd A) (k : A → rd B) : rd B := λ r,
  match c r with (inl a, r) => k a r | (inr e, r) => (inr e, r) end.

Notation "'letr' x ':=' c 'in' k" := (rbind c (λ x, k))
  (at level 10, x pattern, c at level 200, k at level 200) : go_scope.

Definition rret {A} (a : A) : rd A := λ r, (inl a, r).

(** Little-endian 32-bit integers. *)
Definition le32 (n : Z) : bytes :=
  [u8 n; u8 (Z.shiftr n 8); u8 (Z.shiftr n 16); u8 (Z.shiftr n 24)].

Definition of_le32 (b : bytes) : Z :=
  foldr (λ c n, zb c + 256 * n) 0 b.

(** [binary.Read(r, binary.LittleEndian, &l)]: a short read consumes what is there. *)
Definition read_u32 : rd Z := λ r,
  match ReadFull 4 r with
  | inl (b, r) => (inl (of_le32 b), r)
  | inr e => (inr e, [])
  end.

Definition discard1 : rd unit := λ r,
  match ReadByte r with inl (_, r) => (inl tt, r) | inr e => (inr e, r) end.

(** ** The plugin's side *)

Section client.
Context `{Ranger}.

(** The bytes [SendRecord] writes. *)
Definition SendRecord (rec : Bridge.Record_) : outcome bytes :=
  let size := Bridge.Record_Size rec in
  let! buf := Bridge.Record_Marshal rec in
  Ret (le32 (uint32 size) ++ buf).

Definition reader_size : Z := 1024 * 1024.

Inductive client_error := Wire_ (e : error) | ErrBufferFull.

(** [ReceiveTask]: [Peek] fails with [ErrBufferFull] beyond the size of the reader
    and with [EOF] if the pipe ends first. *)
Definition ReceiveTask (r : bytes) : (Bridge.Task + client_error) * bytes :=
  match read_u32 r with
  | (inr e, r) => (inr (Wire_ e), r)
  | (inl len, r) =>
      if decide (len > reader_size) then (inr ErrBufferFull, r)
      else if decide (Z.of_nat (length r) < len) then (inr (Wire_ EOF), r)
      else
        let buf := take (Z.to_nat len) r in
        let r := drop (Z.to_nat len) r in
        match Bridge.Task_Unmarshal buf with
        | inl t => (inl t, r)
        | inr e => (inr (Wire_ e), r)
        end
  end.

End client.

(** ** The agent's side *)

(** The receiving side of a [Plugin]: its reader and its counters. *)
Record rx := mkRx { reader : bytes; txCnt : Z; txBytes : Z }.

(** [ReceiveData] up to the payload: length, data type, time stamp, bytes read. *)
Definition receive_header : rd (Z * Z * Z * Z) :=
  letr l := read_u32 in
  letr _ := discard1 in
  let te := 1 in
  letr (dt, e) := readVarint in
  letr _ := discard1 in
  let te := te + (e + 1) in
  letr (ts, e) := readVarint in
  letr _ := discard1 in
  let te := te + (e + 1) in
  rret (l, dt, ts, te).

(** A result with no error counts the record; [None] is the nil record. *)
Definition ReceiveData (choice : nat) (p : rx) (s : Buffer.state)
    : outcome (rx * Buffer.state * option nat * option error) :=
  let fail r s rec e := Ret (mkRx r (txCnt p) (txBytes p), s, rec, Some e) in
  let done r s rec l :=
    Ret (mkRx r (uint64 (txCnt p + 1)) (uint64 (txBytes p + uint64 l)), s, rec, None) in
  match receive_header (reader p) with
  | (inr e, r) => fail r s None e
  | (inl (l, dt, ts, te), r) =>
      if decide (uint32 te < l) then
        match readVarint r with
        | (inr e, r) => fail r s None e
        | (inl (_, e), r) =>
            let te := te + e in
            let ne := l - te in
            let '(loc, s) := Buffer.GetEncodedRecord choice ne s in
            let rec := default (Buffer.mkRec 0 0 [] 0) (Buffer.heap s !! loc) in
            let rec := Buffer.mkRec (int32 dt) (int64 ts) (Buffer.arr rec) (Buffer.dlen rec) in
            let! rec := Buffer.resize ne rec in
            match ReadFull (Z.to_nat ne) r with
            | inl (d, r) =>
                done r (Buffer.set_heap (<[loc := Buffer.with_data d rec]> (Buffer.heap s)) s) (Some loc) l
            | inr e =>
                fail [] (Buffer.set_heap (<[loc := Buffer.with_data r rec]> (Buffer.heap s)) s) (Some loc) e
            end
        end
      else done r s None l
  end.

(** One iteration of the receiving goroutine; [None] when it ends.  An error other
    than the end of the pipe is logged, and the record, nil or not, is written. *)
Definition receive_iter (choice : nat) (p : rx) (s : Buffer.state)
    : outcome (option (rx * Buffer.state)) :=
  let! (p, s, rec, err) := ReceiveData choice p s in
  if decide (err = Some EOF) then Ret None
  else
    let! s := Buffer.WriteEncodedRecord None rec s in
    Ret (Some (p, s)).

(** The goroutine, with the choices of the pools; it ends with the pipe.  [None] when
    the choices run out first. *)
Fixpoint receive_loop (choices : list nat) (p : rx) (s : Buffer.state)
    : outcome (option Buffer.state) :=
  match choices with
  | [] => Ret None
  | c :: choices =>
      let! r := receive_iter c p s in
      match r with
      | None => Ret (Some s)
      | Some (p, s) => receive_loop choices p s
      end
  end.

(** [SendTask]: the task channel has no buffer, so a task is taken only while the
    sending goroutine waits for one. *)
Definition SendTask (waiting : bool) (task : Bridge.Task) : option Bridge.Task * option string :=
  if waiting then (Some task, None)
  else (None, Some "plugin is processing task or context has been cancled").

(** What the sending goroutine writes for a task. *)
Definition send_task (task : Bridge.Task) : outcome bytes :=
  let s := Bridge.Task_Size task in
  let dst := replicate (Z.to_nat s) (u8 0) in
  let! (dst, _) := Bridge.Task_MarshalToSizedBuffer task dst (Z.of_nat (length dst)) in
  Ret (le32 (uint32 s) ++ dst).

(** ** Little-endian integers *)

Lemma of_le32_le32 n : in_u 32 n → of_le32 (le32 n) = n.
Proof.
  intros [H0 H1]. unfold of_le32, le32. simpl. unfold u8, zb.
  assert (∀ z, Z.of_N (N_of_ascii (ascii_of_N (Z.to_N (z `mod` 256)))) = z `mod` 256) as Hb.
  { intros z. pose proof (Z.mod_pos_bound z 256). rewrite N_ascii_embedding; lia. }
  rewrite !Hb, !Z.shiftr_div_pow2 by lia.
  change (2 ^ 8) with 256. change (2 ^ 16) with (256 * 256). change (2 ^ 24) with (256 * 256 * 256).
  change (2 ^ 32) with (256 * 256 * 256 * 256) in H1.
  rewrite <- !Z.div_div by lia.
  pose proof (Z.div_mod n 256). pose proof (Z.div_mod (n / 256) 256).
  pose proof (Z.div_mod (n / 256 / 256) 256).
  assert (n / 256 / 256 / 256 < 256) by (repeat apply Z.div_lt_upper_bound; lia).
  assert (0 ≤ n / 256 / 256 / 256) by (repeat apply Z.div_pos; lia).
  rewrite (Z.mod_small (n / 256 / 256 / 256)) by lia. lia.
Qed.

Lemma read_u32_le32 n rest : in_u 32 n → read_u32 (le32 n ++ rest) = (inl n, rest).
Proof.
  intros Hn. unfold read_u32, ReadFull. rewrite decide_True by (simpl; lia).
  change (take 4 (le32 n ++ rest)) with (le32 n). change (drop 4 (le32 n ++ rest)) with rest.
  by rewrite of_le32_le32.
Qed.

Lemma int64_uint64 z : in_s 64 z → int64 (uint64 z) = z.
Proof. intros Hz. unfold int64, uint64. rewrite wrap_s_wrap_u by lia. by apply wrap_s_id. Qed.

Lemma in_s_32_64 z : in_s 32 z → in_s 64 z.
Proof. unfold in_s. simpl. lia. Qed.

(** ** Records *)

Section records.
Context `{Ranger}.

(** The records a frame can carry: the agent skips the tags unseen and expects all
    three fields. *)
Definition sendable (rec : Bridge.Record_) (p : Bridge.Payload) : Prop :=
  Bridge.DataType rec ≠ 0 ∧ in_s 32 (Bridge.DataType rec) ∧
  Bridge.Timestamp rec ≠ 0 ∧ in_s 64 (Bridge.Timestamp rec) ∧
  Bridge.Data rec = Some p ∧ Bridge.Record_Size rec < 2 ^ 32.

(** What such a record is to the agent center. *)
Definition wire_value (rec : Bridge.Record_) (p : Bridge.Payload) : Z * Z * bytes :=
  (Bridge.DataType rec, Bridge.Timestamp rec, Bridge.Payload_bytes p).

Definition frame (rec : Bridge.Record_) : bytes := le32 (Bridge.Record_Size rec) ++ Bridge.Record_bytes rec.

Lemma sendable_bytes rec p :
  sendable rec p →
  Bridge.Record_bytes rec =
    u8 8 :: varint (uint64 (Bridge.DataType rec)) ++
    u8 0x10 :: varint (uint64 (Bridge.Timestamp rec)) ++
    u8 0x1a :: varint (Z.of_nat (length (Bridge.Payload_bytes p))) ++ Bridge.Payload_bytes p.
Proof.
  intros (Hdt & _ & Hts & _ & Hd & _). unfold Bridge.Record_bytes, Bridge.var_field, Bridge.len_field.
  rewrite !decide_True by done. by rewrite Hd.
Qed.

Lemma Record_Size_nonneg rec : 0 ≤ Bridge.Record_Size rec.
Proof.
  unfold Bridge.Record_Size.
  pose proof (Bridge.sov_nonneg (uint64 (Bridge.DataType rec))).
  pose proof (Bridge.sov_nonneg (uint64 (Bridge.Timestamp rec))).
  destruct (Bridge.Data rec) as [p|].
  - pose proof (Bridge.Payload_Size_nonneg p). pose proof (Bridge.sov_nonneg (uint64 (Bridge.Payload_Size p))).
    repeat case_decide; lia.
  - repeat case_decide; lia.
Qed.

Lemma SendRecord_frame rec p : sendable rec p → SendRecord rec = Ret (frame rec).
Proof.
  intros (_ & _ & _ & _ & _ & Hs). unfold SendRecord.
  rewrite Bridge.Record_Marshal_bytes by lia. simpl. unfold frame, uint32.
  rewrite wrap_u_id; [done|]. unfold in_u. pose proof (Record_Size_nonneg rec). lia.
Qed.

Lemma receive_header_frame rec p rest :
  sendable rec p →
  let b := Bridge.Payload_bytes p in
  let te := 1 + (sov (uint64 (Bridge.DataType rec)) + 1) + (sov (uint64 (Bridge.Timestamp rec)) + 1) in
  receive_header (frame rec ++ rest) =
    (inl (Bridge.Record_Size rec, Bridge.DataType rec, Bridge.Timestamp rec, te),
     varint (Z.of_nat (length b)) ++ b ++ rest).
Proof.
  intros Hs b te. pose proof (sendable_bytes _ _ Hs) as Hb.
  destruct Hs as (_ & Hdt & _ & Hts & _ & Hsz). unfold receive_header, frame, rbind.
  rewrite <- app_assoc, read_u32_le32 by (unfold in_u; pose proof (Record_Size_nonneg rec); lia).
  rewrite Hb. cbn [app]. unfold discard1 at 1. cbn [ReadByte]. rewrite <- !app_assoc.
  rewrite readVarint_spec by apply Bridge.uint64_in. cbn [app].
  unfold discard1 at 1. cbn [ReadByte]. rewrite <- !app_assoc.
  rewrite readVarint_spec by apply Bridge.uint64_in. cbn [app].
  unfold discard1 at 1. cbn [ReadByte]. rewrite <- !app_assoc.
  rewrite !int64_uint64 by (done || by apply in_s_32_64).
  rewrite !varint_sov by apply Bridge.uint64_in. done.
Qed.

(** The parts of the size of a frame. *)
Lemma frame_size rec p :
  sendable rec p →
  let b := Bridge.Payload_bytes p in
  Bridge.Record_Size rec =
    1 + (sov (uint64 (Bridge.DataType rec)) + 1) + (sov (uint64 (Bridge.Timestamp rec)) + 1) +
    Z.of_nat (length (varint (Z.of_nat (length b)))) + Z.of_nat (length b) ∧
  Z.of_nat (length b) < 2 ^ 32.
Proof.
  intros Hs b. pose proof (sendable_bytes _ _ Hs) as Hb.
  destruct Hs as (_ & _ & _ & _ & _ & Hsz).
  assert (Bridge.Record_Size rec < 2 ^ 64) as Hsz64 by lia.
  pose proof (Bridge.Record_bytes_size rec Hsz64) as Hl. rewrite Hb in Hl. fold b in Hl.
  rewrite <- (varint_sov (uint64 (Bridge.DataType rec))), <- (varint_sov (uint64 (Bridge.Timestamp rec)))
    by apply Bridge.uint64_in.
  cbn [length] in Hl. rewrite length_app in Hl. cbn [length] in Hl. rewrite length_app in Hl.
  cbn [length] in Hl. rewrite length_app in Hl. lia.
Qed.

(** Receiving the frame of a record. *)
Lemma ReceiveData_frame choice rec p rest cnt bts s held :
  sendable rec p → Buffer.inv held s →
  ∃ l s', ReceiveData choice (mkRx (frame rec ++ rest) cnt bts) s =
      Ret (mkRx rest (uint64 (cnt + 1)) (uint64 (bts + uint64 (Bridge.Record_Size rec))), s', Some l, None) ∧
    Buffer.inv (l :: held) s' ∧ Buffer.contents s' = Buffer.contents s ∧
    Buffer.value_of s' l = Some (wire_value rec p).
Proof.
  intros Hs Hinv. set (b := Bridge.Payload_bytes p).
  destruct (frame_size rec p Hs) as [Hsz Hlb]. fold b in Hsz, Hlb.
  pose proof (receive_header_frame rec p rest Hs) as Hh. cbv zeta in Hh. fold b in Hh.
  destruct Hs as (_ & Hdt & _ & Hts & _ & Hsz32).
  set (te := 1 + _ + _) in *.
  assert (0 ≤ te < Bridge.Record_Size rec) as Hte.
  { pose proof (Bridge.sov_nonneg (uint64 (Bridge.DataType rec))).
    pose proof (Bridge.sov_nonneg (uint64 (Bridge.Timestamp rec))).
    pose proof (varint_aux_pos 9 (Z.of_nat (length b))). unfold varint in Hsz. lia. }
  unfold ReceiveData. cbn [reader]. rewrite Hh.
  rewrite decide_True by (unfold uint32; rewrite wrap_u_id; [lia|unfold in_u; lia]).
  rewrite readVarint_spec by (unfold in_u; lia).
  replace (Bridge.Record_Size rec - (te + Z.of_nat (length (varint (Z.of_nat (length b))))))
    with (Z.of_nat (length b)) by lia.
  assert (int32 (Bridge.DataType rec) = Bridge.DataType rec) as -> by (by apply wrap_s_id).
  assert (int64 (Bridge.Timestamp rec) = Bridge.Timestamp rec) as -> by (by apply wrap_s_id).
  rewrite Nat2Z.id. unfold ReadFull. rewrite decide_True by (rewrite length_app; lia).
  rewrite take_app_length, drop_app_length.
  destruct (Buffer.prepare_inv choice (Bridge.DataType rec) (Bridge.Timestamp rec) b s held Hinv)
    as (l & s' & Hp & Hi & Hc & Hv).
  unfold Buffer.prepare in Hp.
  destruct (Buffer.GetEncodedRecord choice (Z.of_nat (length b)) s) as [l0 s0].
  destruct (Buffer.resize _ _) as [r'|]; [|done]. simpl in Hp |- *. simplify_eq.
  eexists _, _. split; [done|]. split_and!; done.
Qed.

(** One iteration of the receiving goroutine writes the record. *)
Lemma receive_iter_frame choice rec p rest cnt bts s held q :
  sendable rec p → Buffer.inv held s → Buffer.represents s q →
  ∃ cnt' bts' s', receive_iter choice (mkRx (frame rec ++ rest) cnt bts) s =
      Ret (Some (mkRx rest cnt' bts', s')) ∧
    Buffer.inv held s' ∧ Buffer.represents s' (Buffer.astep q (Buffer.Push (wire_value rec p))).
Proof.
  intros Hs Hinv Hq. unfold receive_iter.
  destruct (ReceiveData_frame choice rec p rest cnt bts s held Hs Hinv) as (l & s1 & -> & Hi & Hc & Hv).
  cbn [obind]. rewrite decide_False by done.
  assert (Buffer.represents s1 q) as Hq1 by (unfold Buffer.represents; by rewrite Hc).
  destruct (Buffer.WriteEncodedRecord_inv l held s1 _ q Hi Hv Hq1) as (s2 & -> & Hi2 & Hq2).
  simpl. eauto 10.
Qed.

Lemma receive_loop_frames choices recs cnt bts s held q :
  Forall (λ rp, sendable rp.1 rp.2) recs → (length recs < length choices)%nat →
  Buffer.inv held s → Buffer.represents s q →
  ∃ s', receive_loop choices (mkRx (concat ((λ rp, frame rp.1) <$> recs)) cnt bts) s = Ret (Some s') ∧
    Buffer.inv held s' ∧
    Buffer.represents s' (foldl (λ q rp, Buffer.astep q (Buffer.Push (wire_value rp.1 rp.2))) q recs).
Proof.
  intros Hr. revert choices cnt bts s q. induction Hr as [|[rec p] recs Hs Hr IH];
    intros choices cnt bts s q Hl Hinv Hq; (destruct choices as [|c choices]; [simpl in Hl; lia|]).
  - simpl. eauto.
  - rewrite fmap_cons. cbn [concat fst snd receive_loop foldl].
    destruct (receive_iter_frame c rec p (concat ((λ rp, frame rp.1) <$> recs)) cnt bts s held q Hs Hinv Hq)
      as (cnt' & bts' & s1 & -> & Hi & Hq1). cbn [obind].
    apply IH; [simpl in Hl; lia|done|done].
Qed.

(** Records pass from a plugin to the agent's buffer unchanged and in order: for
    any records with a data type, a time stamp and a payload, sending succeeds, the
    agent's receiving goroutine reads all that was sent until the pipe ends, and each
    record is buffered with its data type, its time stamp and bytes that decode to
    its fields (for as long as the buffer has room). *)
Theorem plugin_stream (recs : list (Bridge.Record_ * Bridge.Payload)) (choices : list nat)
    (cnt bts : Z) (s : Buffer.state) (held : list nat) (q : list (Z * Z * bytes))
    (Hrecs : Forall (λ rp, sendable rp.1 rp.2) recs) (Hlen : (length recs < length choices)%nat)
    (Hinv : Buffer.inv held s) (Hq : Buffer.represents s q) :
  ∃ frames vals s',
    Forall2 (λ rp f, SendRecord rp.1 = Ret f) recs frames ∧
    Forall2 (λ rp v, v.1.1 = Bridge.DataType rp.1 ∧ v.1.2 = Bridge.Timestamp rp.1 ∧
                     Bridge.Payload_Unmarshal v.2 = inl rp.2) recs vals ∧
    receive_loop choices (mkRx (concat frames) cnt bts) s = Ret (Some s') ∧
    Buffer.inv held s' ∧
    Buffer.represents s' (foldl (λ q v, Buffer.astep q (Buffer.Push v)) q vals).
Proof.
  destruct (receive_loop_frames choices recs cnt bts s held q Hrecs Hlen Hinv Hq) as (s' & Hrun & Hi & Hr).
  exists ((λ rp, frame rp.1) <$> recs), ((λ rp, wire_value rp.1 rp.2) <$> recs), s'. split_and!; try done.
  - apply Forall2_fmap_r, Forall_Forall2_diag. eapply Forall_impl; [exact Hrecs|].
    intros [rec p] Hs. by eapply SendRecord_frame.
  - apply Forall2_fmap_r, Forall_Forall2_diag. eapply Forall_impl; [exact Hrecs|].
    intros [rec p] Hs. split_and!; [done..|]. apply Bridge.Payload_Unmarshal_bytes.
    destruct (frame_size rec p Hs) as [_ Hlb]. destruct Hs as (_ & _ & _ & _ & Hd & Hsz). simpl in *.
    assert (Bridge.Payload_Size p < 2 ^ 64) as Hp by (eapply Bridge.Record_payload_small; [|exact Hd]; lia).
    rewrite <- Bridge.Payload_bytes_size by done. lia.
  - by rewrite foldl_fmap.
Qed.

(** A record without a payload puts the stream out of step: the agent takes the
    first byte of the following frame for the tag of the missing field, returns the
    nil record without an error, and counts the record as received. *)
Theorem payload_missing (choice : nat) (rec : Bridge.Record_) (b0 : ascii) (rest : bytes) (cnt bts : Z)
    (s : Buffer.state)
    (Hdt : Bridge.DataType rec ≠ 0 ∧ in_s 32 (Bridge.DataType rec))
    (Hts : Bridge.Timestamp rec ≠ 0 ∧ in_s 64 (Bridge.Timestamp rec))
    (Hd : Bridge.Data rec = None) :
  ∃ f, SendRecord rec = Ret f ∧
    ReceiveData choice (mkRx (f ++ b0 :: rest) cnt bts) s =
      Ret (mkRx rest (uint64 (cnt + 1)) (uint64 (bts + uint64 (Bridge.Record_Size rec))), s, None, None).
Proof.
  destruct Hdt as [Hdt Hdt32], Hts as [Hts Hts64].
  pose proof (sov_bound (uint64 (Bridge.DataType rec)) (Bridge.uint64_in _)) as Hb1.
  pose proof (sov_bound (uint64 (Bridge.Timestamp rec)) (Bridge.uint64_in _)) as Hb2.
  assert (Bridge.Record_Size rec =
    1 + sov (uint64 (Bridge.DataType rec)) + (1 + sov (uint64 (Bridge.Timestamp rec)))) as Hsz.
  { unfold Bridge.Record_Size. rewrite Hd, !decide_True by done. lia. }
  assert (Bridge.Record_bytes rec = u8 8 :: varint (uint64 (Bridge.DataType rec)) ++
    u8 0x10 :: varint (uint64 (Bridge.Timestamp rec))) as Hb.
  { unfold Bridge.Record_bytes, Bridge.var_field. rewrite Hd, !decide_True by done. by rewrite app_nil_r. }
  exists (frame rec). split.
  { unfold SendRecord. rewrite Bridge.Record_Marshal_bytes by lia. simpl. unfold frame, uint32.
    rewrite wrap_u_id; [done|]. unfold in_u. lia. }
  unfold ReceiveData. cbn [reader]. unfold receive_header, frame, rbind.
  rewrite <- app_assoc, read_u32_le32 by (unfold in_u; lia). rewrite Hb. cbn [app].
  unfold discard1 at 1. cbn [ReadByte]. rewrite <- !app_assoc.
  rewrite readVarint_spec by apply Bridge.uint64_in. cbn [app].
  unfold discard1 at 1. cbn [ReadByte].
  rewrite readVarint_spec by apply Bridge.uint64_in.
  unfold discard1 at 1. cbn [ReadByte]. cbn [rret].
  rewrite !varint_sov by apply Bridge.uint64_in. unfold rret.
  rewrite decide_False; [done|]. unfold uint32. rewrite wrap_u_id; [lia|unfold in_u; lia].
Qed.

End records.

(** ** Tasks *)

Lemma task_framed (t : Bridge.Task) (Hfit : Bridge.Task_fits t) (Hsize : Bridge.Task_Size t < 2 ^ 32) :
  ∃ f body, send_task t = Ret f ∧ f = le32 (Bridge.Task_Size t) ++ body ∧
    ∀ rest, ReceiveTask (f ++ rest) =
      if decide (Bridge.Task_Size t ≤ reader_size) then (inl t, rest)
      else (inr ErrBufferFull, body ++ rest).
Proof.
  assert (0 ≤ Bridge.Task_Size t) as H0 by apply Bridge.Task_Size_nonneg.
  pose proof (Bridge.Task_bytes_size t Hfit) as Hb.
  exists (le32 (Bridge.Task_Size t) ++ Bridge.Task_bytes t), (Bridge.Task_bytes t). split_and!; [|done|].
  - unfold send_task. rewrite length_replicate.
    pose proof (Bridge.Task_appends t Hfit [] (replicate (Z.to_nat (Bridge.Task_Size t)) (u8 0)) []) as Ha.
    rewrite length_replicate in Ha. simpl in Ha. rewrite !app_nil_r in Ha. rewrite Ha by lia. simpl.
    unfold uint32. rewrite wrap_u_id; [done|unfold in_u; lia].
  - intros rest. unfold ReceiveTask. rewrite <- app_assoc, read_u32_le32 by (unfold in_u; lia).
    case_decide as Hbig; [by rewrite decide_False by lia|]. rewrite (decide_True (P := _ ≤ _)) by lia.
    rewrite decide_False by (rewrite length_app; lia).
    replace (Z.to_nat (Bridge.Task_Size t)) with (length (Bridge.Task_bytes t)) by lia.
    by rewrite take_app_length, drop_app_length, Bridge.Task_Unmarshal_bytes.
Qed.

(** A task of up to 1 MB reaches the plugin unchanged; a longer one is refused
    by the plugin's reader, which is left in the middle of the frame. *)
Theorem task_roundtrip (t : Bridge.Task) (Hfit : Bridge.Task_fits t) (Hsize : Bridge.Task_Size t < 2 ^ 32) :
  ∃ f body, send_task t = Ret f ∧ f = le32 (Bridge.Task_Size t) ++ body ∧
    ∀ rest, ReceiveTask (f ++ rest) =
      if decide (Bridge.Task_Size t ≤ reader_size) then (inl t, rest)
      else (inr ErrBufferFull, body ++ rest).
Proof. by apply task_framed. Qed.

(** ** Instances *)

Definition w_rec : Bridge.Record_ :=
  Bridge.mkRecord 3003 1700000000 (Some (Bridge.mkPayload {["pid" := "42"]})).

Lemma w_rec_sendable : sendable w_rec (Bridge.mkPayload {["pid" := "42"]}).
Proof. by vm_compute. Qed.

Lemma plugin_stream_witness :
  ∃ frames vals s',
    Forall2 (λ rp f, SendRecord rp.1 = Ret f) [(w_rec, Bridge.mkPayload {["pid" := "42"]})] frames ∧
    receive_loop [0; 0]%nat (mkRx (concat frames) 0 0) Buffer.initial = Ret (Some s') ∧
    Buffer.represents s' (foldl (λ q v, Buffer.astep q (Buffer.Push v)) [] vals).
Proof.
  destruct (plugin_stream [(w_rec, Bridge.mkPayload {["pid" := "42"]})] [0; 0]%nat 0 0 Buffer.initial [] [])
    as (frames & vals & s' & H1 & _ & H2 & _ & H3).
  - constructor; [apply w_rec_sendable|constructor].
  - simpl. lia.
  - apply Buffer.inv_initial.
  - apply Buffer.represents_initial.
  - exists frames, vals, s'. split; [exact H1|]. split; [exact H2|exact H3].
Defined.

Lemma payload_missing_witness :
  ∃ f, SendRecord (Bridge.mkRecord 1 1 None) = Ret f ∧
    ReceiveData 0 (mkRx (f ++ [u8 9; u8 8]) 0 0) Buffer.initial =
      Ret (mkRx [u8 8] 1 (uint64 (0 + uint64 4)), Buffer.initial, None, None).
Proof.
  exact (payload_missing 0 (Bridge.mkRecord 1 1 None) (u8 9) [u8 8] 0 0 Buffer.initial
    ltac:(by vm_compute) ltac:(by vm_compute) eq_refl).
Defined.

Lemma task_roundtrip_witness :
  Bridge.Task_fits (Bridge.mkTask 1050 "collector" "{}" "tok") ∧
  ∃ f, send_task (Bridge.mkTask 1050 "collector" "{}" "tok") = Ret f ∧
    ReceiveTask (f ++ []) = (inl (Bridge.mkTask 1050 "collector" "{}" "tok"), []).
Proof.
  assert (Bridge.Task_fits (Bridge.mkTask 1050 "collector" "{}" "tok")) as Hf by by vm_compute.
  split; [exact Hf|].
  destruct (task_roundtrip _ Hf ltac:(by vm_compute)) as (f & body & Hs & _ & Hr).
  exists f. split; [exact Hs|]. exact (Hr []).
Defined.

End PluginProtocol.
