(* ===== verification/PluginManager.v ===== *)
(** * Loading and syncing plugins

    Models [agent/plugin/plugin.go] ([Get], [GetAll], [Sync], [Startup]),
    [plugin_linux.go] ([Shutdown], [Load]), [agent/utils/download.go]
    ([CheckSignature], [Download]), [agent/agent/state.go] and
    [agent/agent/update.go].  The operating system and the network are parameters: the
    digest function, the answer of a URL, the extraction of an archive and the
    failures of starting a process.  Executables are the contents of a file system.

    The theorems say which executables are started, and what a sync leaves loaded. *)

From Stdlib Require Import Ascii.
From S2P Require Import Prelude GoStrings GoText GoPath.
From stdpp Require Import options.

Module PluginManager.

(** ** [agent/agent/state.go] *)

Inductive StateType := StateTypeRunning | StateTypeAbnormal.

Record AgentState := mkAgentState { currentState : StateType; abnormalErrs : list string }.

Definition SetRunning (_ : AgentState) : AgentState := mkAgentState StateTypeRunning [].
Definition SetAbnormal (err : string) (a : AgentState) : AgentState :=
  mkAgentState StateTypeAbnormal (abnormalErrs a ++ [err]).

(** ** Data *)

Record Config := mkConfig {
  Name : string;
  Type_ : string;
  Version : string;
  Sha256 : string;
  Signature : string;
  DownloadUrls : list string;
  Detail : string;
}.

(** A plugin and its process: [exited] is [cmd.ProcessState != nil]. *)
Record Plugin := mkPlugin { config : Config; exited : bool; shutdown : bool; dir : string }.

Definition IsExited (p : Plugin) : bool := exited p.

(** What [Shutdown] leaves: the process is gone when it returns, by itself or killed. *)
Definition Shutdown (p : Plugin) : Plugin := mkPlugin (config p) true true (dir p).

(** The file system: contents by path. *)
Abbreviation fs := (gmap string string).

(** [started] lists name and executable of every process started, [stopped] the names
    of the running ones that were shut down. *)
Record world := mkWorld {
  files : fs;
  plugins : gmap string Plugin;
  started : list (string * string);
  stopped : list string;
  agent_state : AgentState;
}.

Definition set_files (f : fs) (w : world) : world := mkWorld f (plugins w) (started w) (stopped w) (agent_state w).
Definition set_plugins (m : gmap string Plugin) (w : world) : world :=
  mkWorld (files w) m (started w) (stopped w) (agent_state w).

(** [p.Shutdown()] of a loaded plugin. *)
Definition stop_plugin (p : Plugin) (w : world) : world :=
  mkWorld (files w) (plugins w) (started w)
    (if exited p then stopped w else stopped w ++ [Name (config p)]) (agent_state w).

Inductive error :=
| ErrDuplicatePlugin
| ErrInvalidName (name : string)
| ErrOs (why : string)
| ErrHex
| ErrSignature
| ErrHttp (why : string)
| ErrChecksum (got want : string).

#[export] Instance error_eq_dec : EqDecision error.
Proof. solve_decision. Defined.

Section manager.
Context `{Ranger}.
(** The digest; the answer of a URL (status, the body as far as it can be read and
    the error of reading on, or nothing); the extraction of an archive into a
    directory, with the part of the body it consumed; the errors of creating a
    directory and of starting an executable; the text of an error; the agent's
    directory and product name. *)
Context (sha256 : string → string) (http_get : string → option (Z * string * option string))
  (untar : string → string → fs → fs * (string + string)) (mkdir_error : string → option string)
  (start_error : string → option string) (Error : error → string)
  (WorkingDirectory Product : string).

(** ** [agent/utils/download.go] *)

Definition CheckSignature (dst sign : string) (f : fs) : option error :=
  match f !! dst with
  | None => Some (ErrOs "open")
  | Some content =>
      match hex_DecodeString sign with
      | None => Some ErrHex
      | Some signBytes => if decide (sha256 content = signBytes) then None else Some ErrSignature
      end
  end.

(** One URL: the new files and what [err] is set to. *)
Definition download_one (cfg : Config) (dst dstDir : string) (rawurl : string) (f : fs)
    : fs * option error :=
  match http_get rawurl with
  | None => (f, Some (ErrHttp "request"))
  | Some (status, body, rerr) =>
      if decide (200 ≤ status ∧ status < 300)%Z then
        let '(f, hashed, err) :=
          (if decide (Type_ cfg = "tar.gz") then
             match untar body dstDir f with
             | (f, inl consumed) => (f, consumed, None)
             | (f, inr why) => (f, "", Some (ErrOs why))
             end
           else (<[dst := body]> f, body, ErrOs <$> rerr)) in
        match err with
        | Some e => (f, Some e)
        | None =>
            let checksum := hex_EncodeToString (sha256 hashed) in
            if decide (checksum ≠ Sha256 cfg) then (f, Some (ErrChecksum checksum (Sha256 cfg)))
            else (f, None)
        end
      else (f, Some (ErrHttp "status"))
  end.

(** The loop over [DownloadUrls]: it stops at the first success and returns the last
    error otherwise; [err] is what it was before. *)
Fixpoint download_loop (cfg : Config) (dst dstDir : string) (urls : list string) (f : fs)
    (err : option error) : fs * option error :=
  match urls with
  | [] => (f, err)
  | u :: urls =>
      match download_one cfg dst dstDir u f with
      | (f, None) => (f, None)
      | (f, Some e) => download_loop cfg dst dstDir urls f (Some e)
      end
  end.

Definition Download (dst dstDir : string) (cfg : Config) (f : fs) : fs * option error :=
  match hex_DecodeString (Sha256 cfg) with
  | None => (f, Some ErrHex)
  | Some checksum =>
      if decide (sha256 <$> f !! dst = Some checksum) then (f, None)
      else
        match mkdir_error dstDir with
        | Some why => (f, Some (ErrOs why))
        | None => download_loop cfg dst dstDir (DownloadUrls cfg) f None
        end
  end.

(** [agent.Update]: the package is downloaded under a fresh name and installed with the
    package manager of the platform, or run. *)
Definition Update (uuid PlatformFamily : string) (run : list string → option string) (cfg : Config) (f : fs)
    : fs * option error :=
  let dst := WorkingDirectory +:+ "/tmp/" +:+ uuid in
  let '(f, err) := Download dst (WorkingDirectory +:+ "/tmp") cfg f in
  match err with
  | Some e => (f, Some e)
  | None =>
      let cmd := if decide (PlatformFamily = "debian") then ["dpkg"; "-i"; dst]
        else if decide (PlatformFamily ∈ ["rhel"; "fedora"; "suse"]) then ["rpm"; "-Uvh"; dst]
        else [dst] in
      (f, ErrOs <$> run cmd)
  end.

(** ** [plugin_linux.go] *)

(** The names [validName.FindString(regexp.QuoteMeta(name))] is not empty for: the
    expression is anchored at both ends and admits no backslash, which is what
    [QuoteMeta] puts before every other character with a meaning. *)
Definition name_char (c : ascii) : bool :=
  let n := byte_of c in
  bool_decide (48 ≤ n ≤ 57)%N || bool_decide (65 ≤ n ≤ 90)%N || bool_decide (97 ≤ n ≤ 122)%N
  || bool_decide (n = 95)%N || bool_decide (n = 45)%N.

Definition valid_name (name : string) : bool :=
  bool_decide (name ≠ "") && str_forall name_char name.

Definition plugin_dir (name : string) : string := WorkingDirectory +:+ "/plugin/" +:+ name.
Definition exec_path (name : string) : string := plugin_dir name +:+ "/" +:+ name.

Definition with_signature (cfg : Config) : Config :=
  mkConfig (Name cfg) (Type_ cfg) (Version cfg) (Sha256 cfg)
    (if decide (Signature cfg = "") then Sha256 cfg else Signature cfg) (DownloadUrls cfg) (Detail cfg).

(** [Load]: the plugin, or the error.  The path check of the source holds for every
    valid name, given an agent directory free of pattern characters. *)
Definition Load (cfg : Config) (w : world) : world * (Plugin + error) :=
  if negb (valid_name (Name cfg)) then (w, inr (ErrInvalidName (Name cfg)))
  else
    let loaded := plugins w !! Name cfg in
    let duplicate := match loaded with
      | Some p => bool_decide (Version (config p) = Version cfg) && negb (exited p)
      | None => false end in
    if duplicate then (w, inr ErrDuplicatePlugin)
    else
      let w := match loaded with
        | Some p => if negb (exited p)
                    then stop_plugin p (set_plugins (<[Name cfg := Shutdown p]> (plugins w)) w) else w
        | None => w end in
      let cfg := with_signature cfg in
      let execPath := exec_path (Name cfg) in
      let f := delete (plugin_dir (Name cfg) +:+ "/" +:+ Name cfg +:+ ".stderr")
                 (delete (plugin_dir (Name cfg) +:+ "/" +:+ Name cfg +:+ ".stdout") (files w)) in
      let '(f, err) := match CheckSignature execPath (Signature cfg) f with
        | Some _ => Download execPath (plugin_dir (Name cfg)) cfg f
        | None => (f, None) end in
      let w := set_files f w in
      match err with
      | Some e => (w, inr e)
      | None =>
          match start_error execPath with
          | Some why => (w, inr (ErrOs why))
          | None =>
              match files w !! execPath with
              | None => (w, inr (ErrOs "start"))
              | Some content =>
                  let plg := mkPlugin cfg false false (plugin_dir (Name cfg)) in
                  (mkWorld (files w) (<[Name cfg := plg]> (plugins w))
                     (started w ++ [(Name cfg, content)]) (stopped w) (agent_state w), inl plg)
              end
          end
      end.

(** ** [plugin.go] *)

Definition Get (name : string) (w : world) : option Plugin := plugins w !! name.
Definition GetAll (w : world) : list Plugin := (range_kv "GetAll" (plugins w)).*2.

(** [Sync]: the channel has room for one pending configuration. *)
Definition Sync (cfgs : gmap string Config) (ch : chan (gmap string Config))
    : chan (gmap string Config) * option string :=
  match try_send cfgs ch with
  | Some ch => (ch, None)
  | None => (ch, Some "plugins are syncing or context has been cancled")
  end.

(** [os.RemoveAll(dir)]. *)
Definition RemoveAll (d : string) (f : fs) : fs :=
  filter (λ pc, pc.1 ≠ d ∧ has_prefix (d +:+ "/") pc.1 = false) f.

(** One configuration of a sync. *)
Definition sync_load (w : world) (cfg : Config) : world :=
  if decide (Name cfg ≠ Product) then
    let '(w, r) := Load cfg w in
    match r with
    | inr ErrDuplicatePlugin => w
    | inr err => mkWorld (files w) (plugins w) (started w) (stopped w)
        (SetAbnormal ("load plugin " +:+ Name cfg +:+ " failed: " +:+ Error err) (agent_state w))
    | inl _ => w
    end
  else w.

Definition sync_remove (cfgs : gmap string Config) (w : world) (plg : Plugin) : world :=
  if decide (cfgs !! Name (config plg) = None) then
    let w := stop_plugin plg w in
    set_files (RemoveAll (dir plg) (files w)) (set_plugins (delete (Name (config plg)) (plugins w)) w)
  else w.

(** The handling of one configuration from [syncCh] in [Startup]. *)
Definition sync (cfgs : gmap string Config) (w : world) : world :=
  let w := foldl sync_load w (range_kv "Startup" cfgs).*2 in
  foldl (sync_remove cfgs) w (GetAll w).

(** The exit of the agent: every plugin is shut down and forgotten. *)
Definition shutdown_all (w : world) : world :=
  set_plugins ∅ (foldl (λ w p, stop_plugin p w) w (GetAll w)).

(** ** Which executables are started *)

(** The files of an archive, by the bytes of it that were read. *)
Context (contents : string → list (string * string)).

(** An archive that one of the configured URLs delivered, whose bytes have the configured
    checksum, was extracted over the files [f0]. *)
Definition fetched_archive (cfg : Config) (dir : string) (f0 f1 : fs) (consumed : string) : Prop :=
  Type_ cfg = "tar.gz" ∧ hex_DecodeString (Sha256 cfg) = Some (sha256 consumed) ∧
  ∃ u status body rerr, u ∈ DownloadUrls cfg ∧ http_get u = Some (status, body, rerr) ∧
    (200 ≤ status < 300)%Z ∧ untar body dir f0 = (f1, inl consumed).

(** What the agent has checked of an executable before it starts it: its digest is the
    configured signature or checksum, or it is a file of such an archive. *)
Definition verified (cfg : Config) (dst dir content : string) : Prop :=
  hex_DecodeString (Signature (with_signature cfg)) = Some (sha256 content) ∨
  hex_DecodeString (Sha256 cfg) = Some (sha256 content) ∨
  ∃ f0 f1 consumed name, fetched_archive cfg dir f0 f1 consumed ∧ (name, content) ∈ contents consumed ∧
    path_Join dir name = dst.

(** The two ways around the check: no URL is configured, or the archive has no file for the
    executable, and the one that was there before is kept. *)
Definition unchecked (cfg : Config) (dst dir content : string) : Prop :=
  DownloadUrls cfg = [] ∨
  ∃ f0 f1 consumed, fetched_archive cfg dir f0 f1 consumed ∧ f0 !! dst = Some content ∧
    (∀ name c, (name, c) ∈ contents consumed → path_Join dir name ≠ dst).

Definition checked (cfg : Config) (dst dir content : string) : Prop :=
  verified cfg dst dir content ∨ unchecked cfg dst dir content.

(** What a successful extraction does ([Archive.v] models it): the files of the archive are
    written below the directory, a later one over an earlier one, and nothing else. *)
Definition write_entries (dir : string) (es : list (string * string)) (f : fs) : fs :=
  foldl (λ f e, <[path_Join dir e.1 := e.2]> f) f es.

Definition untar_law : Prop :=
  ∀ body dir f f' consumed, untar body dir f = (f', inl consumed) → f' = write_entries dir (contents consumed) f.

Lemma write_entries_lookup dir es f dst content :
  write_entries dir es f !! dst = Some content →
  (∃ name, (name, content) ∈ es ∧ path_Join dir name = dst) ∨
  f !! dst = Some content ∧ (∀ name c, (name, c) ∈ es → path_Join dir name ≠ dst).
Proof using Type.
  unfold write_entries. induction es as [|[n c] es IH] using rev_ind; intros Hl.
  { right. split; [done|]. intros ? ? Hin. by apply elem_of_nil in Hin. }
  rewrite foldl_app in Hl. cbn [foldl fst snd] in Hl. destruct (decide (path_Join dir n = dst)) as [E|E].
  - rewrite E, lookup_insert_eq in Hl. injection Hl as ->. left. exists n. split; [|done].
    apply elem_of_app. right. by apply list_elem_of_singleton.
  - rewrite lookup_insert_ne in Hl by done. destruct (IH Hl) as [(name & Hin & Hd)|[Hf Hno]].
    + left. exists name. split; [|done]. apply elem_of_app. by left.
    + right. split; [done|]. intros name c' [Hin|Hin]%elem_of_app; [by eapply Hno|].
      apply list_elem_of_singleton in Hin. by injection Hin as -> ->.
Qed.

Section law.
Context (Huntar : untar_law).

Lemma with_signature_idemp cfg : with_signature (with_signature cfg) = with_signature cfg.
Proof. destruct cfg. unfold with_signature. simpl. f_equal. by repeat case_decide. Qed.

Lemma download_one_ok cfg dst dstDir u f f' content :
  u ∈ DownloadUrls cfg →
  download_one cfg dst dstDir u f = (f', None) → f' !! dst = Some content → checked cfg dst dstDir content.
Proof using Huntar.
  intros Hu. unfold download_one. destruct (http_get u) as [[[status body] rerr]|] eqn:Hget; [|done].
  destruct (decide _) as [Hst|_]; [|done].
  destruct (decide (Type_ cfg = "tar.gz")) as [Ht|Ht].
  - destruct (untar body dstDir f) as [f1 [consumed|why]] eqn:Hx; [|done].
    case_decide as Hc; [done|]. intros [= <-] Hf.
    assert (fetched_archive cfg dstDir f f1 consumed) as Hfet.
    { split_and!; [done| |by eexists u, status, body, rerr].
      destruct (decide (hex_EncodeToString (sha256 consumed) = Sha256 cfg)) as [<-|]; [|done].
      apply hex_DecodeString_EncodeToString. }
    rewrite (Huntar _ _ _ _ _ Hx) in Hf. destruct (write_entries_lookup _ _ _ _ _ Hf) as [(name & Hin & Hd)|[H0 Hno]].
    + left. right. right. by eexists f, f1, consumed, name.
    + right. right. by eexists f, f1, consumed.
  - destruct rerr; simpl; [done|]. case_decide as Hc; [done|]. intros [= <-]. rewrite lookup_insert_eq.
    intros [= <-]. left. right. left.
    destruct (decide (hex_EncodeToString (sha256 body) = Sha256 cfg)) as [<-|]; [|done].
    apply hex_DecodeString_EncodeToString.
Qed.

Lemma download_loop_ok cfg dst dstDir urls f err f' content :
  (∀ u, u ∈ urls → u ∈ DownloadUrls cfg) → (urls = [] → err ≠ None) →
  download_loop cfg dst dstDir urls f err = (f', None) → f' !! dst = Some content → checked cfg dst dstDir content.
Proof using Huntar.
  revert f err. induction urls as [|u urls IH]; intros f err Hin He; simpl.
  - intros [= <- ->]. by destruct He.
  - destruct (download_one cfg dst dstDir u f) as [f1 [e|]] eqn:E.
    + apply IH; [|done]. intros v Hv. apply Hin. by right.
    + intros [= <-]. eapply download_one_ok; [|done]. apply Hin. left.
Qed.

Lemma Download_ok cfg dst dstDir f f' content :
  Download dst dstDir cfg f = (f', None) → f' !! dst = Some content → checked cfg dst dstDir content.
Proof using Huntar.
  unfold Download. destruct (hex_DecodeString (Sha256 cfg)) as [checksum|] eqn:Hx; [|done].
  case_decide as Hc.
  - intros [= <-] Hf. rewrite Hf in Hc. simpl in Hc. left. right. left. rewrite Hx. congruence.
  - destruct (mkdir_error dstDir); [done|]. destruct (decide (DownloadUrls cfg = [])) as [Hu|Hu].
    + intros _ _. right. by left.
    + by eapply download_loop_ok.
Qed.

Lemma CheckSignature_ok dst sign f content :
  CheckSignature dst sign f = None → f !! dst = Some content →
  hex_DecodeString sign = Some (sha256 content).
Proof.
  unfold CheckSignature. intros Hc Hf. rewrite Hf in Hc.
  destruct (hex_DecodeString sign) as [b|]; [|done]. case_decide; congruence.
Qed.

Lemma download_loop_error cfg dst dstDir urls f err :
  err ≠ Some ErrDuplicatePlugin → (download_loop cfg dst dstDir urls f err).2 ≠ Some ErrDuplicatePlugin.
Proof.
  revert f err. induction urls as [|u urls IH]; intros f err He; simpl; [done|].
  destruct (download_one cfg dst dstDir u f) as [f1 [e|]] eqn:E; [|done]. apply IH. intros [= ->].
  unfold download_one in E. destruct (http_get u) as [[[status body] rerr]|]; [|done].
  destruct rerr; repeat case_match; simplify_eq/=.
Qed.

Lemma Download_error dst dstDir cfg f : (Download dst dstDir cfg f).2 ≠ Some ErrDuplicatePlugin.
Proof.
  unfold Download. destruct (hex_DecodeString _); [|done]. case_decide; [done|].
  destruct (mkdir_error dstDir); [done|]. by apply download_loop_error.
Qed.

(** ** What [Load] does *)

(** The check of the executable of a plugin. *)
Definition starts_checked (cfg : Config) (content : string) : Prop :=
  checked cfg (exec_path (Name cfg)) (plugin_dir (Name cfg)) content.

(** Plugins are stored under their name. *)
Definition wf (w : world) : Prop :=
  ∀ n p, plugins w !! n = Some p → Name (config p) = n ∧ valid_name n = true.

(** The outcome of a load, whatever its result. *)
Definition loaded (cfg : Config) (w w' : world) (r : Plugin + error) : Prop :=
  agent_state w' = agent_state w ∧
  (∀ n, n ≠ Name cfg → plugins w' !! n = plugins w !! n) ∧
  match r with
  | inl p =>
      plugins w' !! Name cfg = Some p ∧ p = mkPlugin (with_signature cfg) false false (plugin_dir (Name cfg)) ∧
      valid_name (Name cfg) = true ∧
      ∃ content, started w' = started w ++ [(Name cfg, content)] ∧ starts_checked cfg content
  | inr ErrDuplicatePlugin =>
      w' = w ∧ ∃ p, plugins w !! Name cfg = Some p ∧ Version (config p) = Version cfg ∧ exited p = false
  | inr _ =>
      started w' = started w ∧
      (plugins w' !! Name cfg = plugins w !! Name cfg ∧
         (valid_name (Name cfg) = false ∨ ∀ p, plugins w !! Name cfg = Some p → exited p = true) ∨
       ∃ p, plugins w !! Name cfg = Some p ∧ plugins w' !! Name cfg = Some (Shutdown p))
  end.

Lemma Load_spec cfg w w' r : Load cfg w = (w', r) → loaded cfg w w' r.
Proof using Huntar.
  unfold Load. destruct (valid_name (Name cfg)) eqn:Hv; cbn [negb].
  2:{ intros [= <- <-]. split_and!; auto. }
  set (dup := match plugins w !! Name cfg with Some p => _ | None => _ end).
  destruct dup eqn:Hdup; subst dup.
  { intros [= <- <-]. split_and!; [done..|]. destruct (plugins w !! Name cfg) as [p|] eqn:Hp; [|done].
    apply andb_true_iff in Hdup as [Hver Hex]. apply bool_decide_eq_true in Hver.
    exists p. by destruct (exited p). }
  set (w1 := match plugins w !! Name cfg with Some p => _ | None => _ end).
  assert (agent_state w1 = agent_state w ∧ started w1 = started w ∧
    (∀ n, n ≠ Name cfg → plugins w1 !! n = plugins w !! n) ∧
    (plugins w1 !! Name cfg = plugins w !! Name cfg ∧ (∀ p, plugins w !! Name cfg = Some p → exited p = true) ∨
     ∃ p, plugins w !! Name cfg = Some p ∧ plugins w1 !! Name cfg = Some (Shutdown p))) as (Ha & Hs & Hn & Hw1).
  { subst w1. destruct (plugins w !! Name cfg) as [p|] eqn:Hp.
    - destruct (exited p) eqn:Hex; simpl.
      + split_and!; try done. left. split; [done|]. by intros p' [= <-].
      + split_and!; try done; [intros n Hne; by rewrite lookup_insert_ne|].
        right. exists p. by rewrite lookup_insert_eq.
    - split_and!; try done. left. done. }
  clearbody w1. cbv zeta.
  set (f0 := delete _ (delete _ _)).
  destruct (match CheckSignature _ _ _ with Some _ => _ | None => _ end) as [f err] eqn:Hdl.
  assert (err ≠ Some ErrDuplicatePlugin) as Hne.
  { destruct (CheckSignature _ _ _); [|by injection Hdl as <- <-].
    pose proof (Download_error (exec_path (Name cfg)) (plugin_dir (Name cfg)) (with_signature cfg) f0) as Hd.
    simpl in Hdl. by rewrite Hdl in Hd. }
  assert (∀ e, e ≠ ErrDuplicatePlugin → loaded cfg w (set_files f w1) (inr e)) as Hfail.
  { intros e He. split; [done|]. split; [done|].
    destruct e; try done; (split; [done|]); destruct Hw1 as [[? ?]|?]; auto. }
  destruct err as [e|].
  { intros [= <- <-]. apply Hfail. congruence. }
  destruct (start_error _) as [why|]; [intros [= <- <-]; by apply Hfail|].
  destruct (files (set_files f w1) !! _) as [content|] eqn:Hc; [|intros [= <- <-]; by apply Hfail].
  intros [= <- <-]. split; [done|].
  split; [intros n Hnn; simpl; rewrite lookup_insert_ne by done; by apply Hn|].
  simpl. rewrite lookup_insert_eq. split_and!; [done..|]. exists content. rewrite Hs. split; [done|].
  simpl in Hc, Hdl. destruct (CheckSignature _ _ _) eqn:Hck.
  - eapply Download_ok in Hdl; [|exact Hc]. unfold starts_checked, checked, verified, unchecked in *.
    by rewrite with_signature_idemp in Hdl.
  - injection Hdl as <-. left. left. by eapply CheckSignature_ok.
Qed.

(** ** What a sync does *)

Definition running (w : world) (n : string) : Prop := ∃ p, plugins w !! n = Some p ∧ exited p = false.

(** A plugin of the configured version runs already: nothing to do. *)
Definition current (cfg : Config) (w : world) : Prop :=
  ∃ p, plugins w !! Name cfg = Some p ∧ exited p = false ∧ Version (config p) = Version cfg.

(** What handling [cfg] guarantees. *)
Definition handled (cfg : Config) (w : world) : Prop :=
  (∀ p, plugins w !! Name cfg = Some p → exited p = false → Version (config p) = Version cfg) ∧
  (running w (Name cfg) ∨ currentState (agent_state w) = StateTypeAbnormal).

Lemma Load_current cfg w : wf w → current cfg w → Load cfg w = (w, inr ErrDuplicatePlugin).
Proof.
  intros Hwf (p & Hp & Hex & Hver). destruct (Hwf _ _ Hp) as [_ Hv]. unfold Load. rewrite Hv, Hp. simpl.
  rewrite bool_decide_eq_true_2 by done. by rewrite Hex.
Qed.

Lemma sync_load_spec cfg w :
  wf w → Name cfg ≠ Product →
  let w' := sync_load w cfg in
  wf w' ∧ handled cfg w' ∧
  (∀ n, n ≠ Name cfg → plugins w' !! n = plugins w !! n) ∧
  (currentState (agent_state w) = StateTypeAbnormal → currentState (agent_state w') = StateTypeAbnormal) ∧
  (current cfg w → plugins w' !! Name cfg = plugins w !! Name cfg) ∧
  ∃ new, started w' = started w ++ new ∧
    (∀ n c, (n, c) ∈ new → n = Name cfg ∧ starts_checked cfg c ∧ ¬ current cfg w).
Proof using Huntar.
  intros Hwf Hprod w'. subst w'. unfold sync_load. rewrite decide_True by done.
  destruct (Load cfg w) as [w1 r] eqn:E. pose proof (Load_spec _ _ _ _ E) as (Ha & Hn & Hr).
  assert (current cfg w → r = inr ErrDuplicatePlugin ∧ w1 = w) as Hcur.
  { intros Hc. rewrite (Load_current cfg w Hwf Hc) in E. by injection E as <- <-. }
  assert (∀ w2, plugins w2 = plugins w1 →
    (∀ p, plugins w1 !! Name cfg = Some p → Name (config p) = Name cfg ∧ valid_name (Name cfg) = true) →
    wf w2) as Hwf'.
  { intros w2 E2 Hself n p. rewrite E2. destruct (decide (n = Name cfg)) as [->|Hne]; [apply Hself|].
    rewrite Hn by done. apply Hwf. }
  destruct r as [p|e].
  - destruct Hr as (Hp & -> & Hv & content & Hs & Hver).
    split_and!; [|split|done|by rewrite Ha| |].
    + apply (Hwf' w1); [done|]. intros p'. rewrite Hp. by intros [= <-].
    + intros p'. rewrite Hp. by intros [= <-].
    + left. eexists. split; [exact Hp|done].
    + intros Hc. by destruct (Hcur Hc).
    + exists [(Name cfg, content)]. split; [done|]. intros n c [= -> ->]%list_elem_of_singleton.
      split_and!; [done|done|]. intros Hc. by destruct (Hcur Hc).
  - destruct (decide (e = ErrDuplicatePlugin)) as [->|He].
    + destruct Hr as (-> & p & Hp & Hver & Hex). split_and!; [done|split|done|done|done|].
      * intros p'. rewrite Hp. by intros [= <-].
      * left. by exists p.
      * exists []. rewrite app_nil_r. split; [done|]. intros n c Hin. by apply elem_of_nil in Hin.
    + set (w2 := mkWorld _ _ _ _ _).
      assert (started w1 = started w ∧
        (plugins w1 !! Name cfg = plugins w !! Name cfg ∧
           (valid_name (Name cfg) = false ∨ ∀ p, plugins w !! Name cfg = Some p → exited p = true) ∨
         ∃ p, plugins w !! Name cfg = Some p ∧ plugins w1 !! Name cfg = Some (Shutdown p))) as [Hs Hpl]
        by (destruct e; done).
      assert (∀ p, plugins w1 !! Name cfg = Some p →
        Name (config p) = Name cfg ∧ valid_name (Name cfg) = true ∧ exited p = true) as Hself.
      { intros p Hp. destruct Hpl as [[E1 Hex]|(p0 & Hp0 & Hp1)].
        - rewrite E1 in Hp. destruct (Hwf _ _ Hp) as [? Hv]. split_and!; [done..|].
          destruct Hex as [?|Hex]; [congruence|]. by apply Hex.
        - rewrite Hp1 in Hp. injection Hp as <-. destruct (Hwf _ _ Hp0). done. }
      assert (wf w2 ∧ handled cfg w2 ∧ (∀ n, n ≠ Name cfg → plugins w2 !! n = plugins w !! n) ∧
        (currentState (agent_state w) = StateTypeAbnormal → currentState (agent_state w2) = StateTypeAbnormal) ∧
        (current cfg w → plugins w2 !! Name cfg = plugins w !! Name cfg) ∧
        ∃ new, started w2 = started w ++ new ∧
          (∀ n c, (n, c) ∈ new → n = Name cfg ∧ starts_checked cfg c ∧ ¬ current cfg w)) as Hres.
      { split_and!; [|split|done|done| |].
        - apply (Hwf' w2); [done|]. intros p Hp. destruct (Hself p Hp) as (? & ? & ?). done.
        - intros p Hp. destruct (Hself p Hp) as (_ & _ & Hx). by rewrite Hx.
        - by right.
        - intros Hc. destruct (Hcur Hc). congruence.
        - exists []. rewrite app_nil_r. split; [done|]. intros n c Hin. by apply elem_of_nil in Hin. }
      destruct e; done.
Qed.

(** Handling another configuration keeps what handling [cfg] guaranteed. *)
Lemma handled_mono cfg w w' :
  plugins w' !! Name cfg = plugins w !! Name cfg →
  (currentState (agent_state w) = StateTypeAbnormal → currentState (agent_state w') = StateTypeAbnormal) →
  handled cfg w → handled cfg w'.
Proof.
  intros Hp Ha [Hv Hr]. unfold handled, running. rewrite Hp. split; [exact Hv|].
  destruct Hr as [Hr|Hr]; [by left|right; by apply Ha].
Qed.

(** The loop over the configurations. *)
Lemma sync_loads l w :
  wf w → NoDup (Name <$> l) → Product ∉ Name <$> l →
  let w' := foldl sync_load w l in
  wf w' ∧ (∀ cfg, cfg ∈ l → handled cfg w') ∧
  (∀ n, n ∉ Name <$> l → plugins w' !! n = plugins w !! n) ∧
  (currentState (agent_state w) = StateTypeAbnormal → currentState (agent_state w') = StateTypeAbnormal) ∧
  (∀ cfg, cfg ∈ l → current cfg w → plugins w' !! Name cfg = plugins w !! Name cfg) ∧
  ∃ new, started w' = started w ++ new ∧
    (∀ n c, (n, c) ∈ new → ∃ cfg, cfg ∈ l ∧ n = Name cfg ∧ starts_checked cfg c ∧ ¬ current cfg w).
Proof using Huntar.
  revert w. induction l as [|cfg l IH]; intros w Hwf Hnd Hp; simpl.
  { split_and!; try done; [intros cfg Hin; by apply elem_of_nil in Hin..|].
    exists []. rewrite app_nil_r. split; [done|]. intros n c Hin. by apply elem_of_nil in Hin. }
  simpl in Hnd, Hp. apply NoDup_cons in Hnd as [Hfresh Hnd]. apply not_elem_of_cons in Hp as [Hp1 Hp].
  destruct (sync_load_spec cfg w Hwf ltac:(congruence)) as (Hwf1 & Hh1 & Hn1 & Ha1 & Hc1 & new1 & Hs1 & Hv1).
  set (w1 := sync_load w cfg) in *.
  destruct (IH w1 Hwf1 Hnd Hp) as (Hwf2 & Hh2 & Hn2 & Ha2 & Hc2 & new2 & Hs2 & Hv2).
  set (w2 := foldl sync_load w1 l) in *.
  assert (∀ c, c ∈ l → plugins w1 !! Name c = plugins w !! Name c) as Hother.
  { intros c Hc. apply Hn1. intros E. apply Hfresh. rewrite <- E. by apply list_elem_of_fmap_2. }
  assert (∀ c, c ∈ l → current c w → current c w1) as Hcur.
  { intros c Hc. unfold current. by rewrite Hother. }
  assert (∀ c, c ∈ l → current c w1 → current c w) as Hcur'.
  { intros c Hc. unfold current. by rewrite Hother. }
  split_and!; [done| | |auto| |].
  - intros c [->|Hc]%elem_of_cons; [|auto]. apply (handled_mono cfg w1); auto.
  - intros n Hn. apply not_elem_of_cons in Hn as [? ?]. rewrite Hn2 by done. auto.
  - intros c [->|Hc]%elem_of_cons Hcc; [rewrite Hn2 by done; auto|].
    rewrite Hc2 by auto. auto.
  - exists (new1 ++ new2). rewrite Hs2, Hs1, app_assoc. split; [done|].
    intros n c [Hin|Hin]%elem_of_app.
    + destruct (Hv1 n c Hin) as (-> & ? & ?). exists cfg. split_and!; [left|done..].
    + destruct (Hv2 n c Hin) as (c' & ? & -> & ? & Hnc). exists c'. split_and!; [by right|done..|auto].
Qed.

(** The loop that removes what is not configured. *)
Lemma sync_removes cfgs l w :
  let w' := foldl (sync_remove cfgs) w l in
  started w' = started w ∧ agent_state w' = agent_state w ∧
  ∀ n, plugins w' !! n =
    if decide (n ∈ (λ p, Name (config p)) <$> l ∧ cfgs !! n = None) then None else plugins w !! n.
Proof.
  clear Huntar contents untar start_error sha256 mkdir_error http_get Error.
  revert w. induction l as [|p l IH]; intros w; cbn [foldl].
  { split_and!; [done..|]. intros n. rewrite decide_False; [done|]. intros [Hin _]. by apply elem_of_nil in Hin. }
  rewrite fmap_cons. destruct (IH (sync_remove cfgs w p)) as (Hs & Ha & Hp). rewrite Hs, Ha.
  split_and!; [by unfold sync_remove; case_decide..|].
  intros n. rewrite Hp. clear Hs Ha Hp IH. unfold sync_remove.
  destruct (decide (cfgs !! Name (config p) = None)) as [Hd|Hd]; simpl.
  - destruct (decide (n = Name (config p))) as [->|Hne].
    + rewrite lookup_delete_eq. rewrite (decide_True (P := _ ∈ _ :: _ ∧ _)) by (split; [left|done]).
      by case_decide.
    + rewrite lookup_delete_ne by done. repeat case_decide; try done; set_solver.
  - repeat case_decide; try done; set_solver.
Qed.

(** Both loops together. *)
Lemma sync_facts cfgs w :
  wf w → map_Forall (λ k c, Name c = k) cfgs → cfgs !! Product = None →
  let w' := sync cfgs w in
  wf w' ∧ (∀ n cfg, cfgs !! n = Some cfg → handled cfg w') ∧
  (∀ n, cfgs !! n = None → plugins w' !! n = None) ∧
  (∀ n cfg, cfgs !! n = Some cfg → current cfg w → plugins w' !! n = plugins w !! n) ∧
  ∃ new, started w' = started w ++ new ∧
    ∀ n c, (n, c) ∈ new → ∃ cfg, cfgs !! n = Some cfg ∧ starts_checked cfg c ∧ ¬ current cfg w.
Proof using Huntar.
  intros Hwf Hkeys Hprod. unfold sync. set (l := (range_kv "Startup" cfgs).*2).
  assert (∀ n cfg, cfgs !! n = Some cfg ↔ cfg ∈ l ∧ n = Name cfg) as Hl.
  { intros n cfg. subst l. rewrite list_elem_of_fmap. split.
    - intros Hin. split; [|by rewrite (Hkeys _ _ Hin)]. exists (n, cfg). split; [done|]. by apply range_kv_elem.
    - intros [([k c] & -> & Hin%range_kv_elem) ->]. simpl. by rewrite (Hkeys _ _ Hin). }
  assert (Name <$> l = (range_kv "Startup" cfgs).*1) as Hnames.
  { subst l. rewrite <- list_fmap_compose. apply list_fmap_ext. intros i [k c] Hin. simpl.
    apply (Hkeys k c). eapply range_kv_elem, list_elem_of_lookup_2, Hin. }
  assert (Product ∉ Name <$> l) as Hp.
  { intros (cfg & E & Hin)%list_elem_of_fmap. destruct (Hl Product cfg) as [_ Hc]. rewrite Hc in Hprod; done. }
  destruct (sync_loads l w Hwf ltac:(rewrite Hnames; apply range_kv_NoDup_fst) Hp)
    as (Hwf1 & Hh & Hother & _ & Hcur & new & Hs & Hv).
  set (w1 := foldl sync_load w l) in *.
  destruct (sync_removes cfgs (GetAll w1) w1) as (Hs2 & Ha2 & Hp2).
  set (w2 := foldl (sync_remove cfgs) w1 (GetAll w1)) in *.
  assert (∀ n, plugins w2 !! n = if decide (cfgs !! n = None) then None else plugins w1 !! n) as Hlook.
  { intros n. rewrite Hp2. destruct (decide (cfgs !! n = None)); [|by rewrite decide_False by naive_solver].
    destruct (plugins w1 !! n) as [p|] eqn:E; [|by case_decide].
    rewrite decide_True; [done|]. split; [|done]. apply list_elem_of_fmap. exists p.
    split; [by destruct (Hwf1 _ _ E)|]. unfold GetAll. apply list_elem_of_fmap. exists (n, p).
    split; [done|]. by apply range_kv_elem. }
  split_and!.
  - intros n p. rewrite Hlook. case_decide; [done|]. apply Hwf1.
  - intros n cfg Hc. destruct (proj1 (Hl _ _) Hc) as [Hcl ->].
    apply (handled_mono cfg w1); [|by rewrite Ha2|by apply Hh]. by rewrite Hlook, decide_False by congruence.
  - intros n Hn. by rewrite Hlook, decide_True.
  - intros n cfg Hc Hcc. destruct (proj1 (Hl _ _) Hc) as [Hcl ->].
    rewrite Hlook, decide_False by congruence. by apply Hcur.
  - exists new. rewrite Hs2. split; [done|]. intros n c Hin.
    destruct (Hv n c Hin) as (cfg & Hcl & -> & ? & ?). exists cfg. split_and!; [by apply Hl|done..].
Qed.

(** What a sync leaves: only configured plugins stay loaded; of those, every
    running one has the configured version; unless the agent reports itself abnormal,
    all configured plugins run; and a plugin that already ran in the configured
    version is left alone, neither stopped nor started again. *)
Theorem sync_result (cfgs : gmap string Config) (w : world)
    (Hwf : wf w) (Hkeys : map_Forall (λ k c, Name c = k) cfgs) (Hprod : cfgs !! Product = None) :
  let w' := sync cfgs w in
  wf w' ∧
  (∀ n p, plugins w' !! n = Some p → ∃ cfg, cfgs !! n = Some cfg ∧
     (exited p = false → Version (config p) = Version cfg)) ∧
  (currentState (agent_state w') = StateTypeRunning → ∀ n cfg, cfgs !! n = Some cfg → running w' n) ∧
  (∀ n cfg, cfgs !! n = Some cfg → current cfg w →
     plugins w' !! n = plugins w !! n ∧ ∃ new, started w' = started w ++ new ∧ n ∉ new.*1).
Proof using Huntar.
  destruct (sync_facts cfgs w Hwf Hkeys Hprod) as (Hwf' & Hh & Hnone & Hcur & new & Hs & Hv).
  split_and!; [done| | |].
  - intros n p Hp. destruct (cfgs !! n) as [cfg|] eqn:Hc; [|by rewrite Hnone in Hp].
    exists cfg. split; [done|]. rewrite <- (Hkeys _ _ Hc) in Hp. by apply (proj1 (Hh _ _ Hc)).
  - intros Hrun n cfg Hc. destruct (proj2 (Hh _ _ Hc)) as [Hr|?]; [|congruence].
    by rewrite (Hkeys _ _ Hc) in Hr.
  - intros n cfg Hc Hcc. split; [by eapply Hcur|]. exists new. split; [done|].
    intros ([n' c] & -> & Hin)%list_elem_of_fmap. destruct (Hv _ _ Hin) as (cfg' & Hc' & _ & Hnc).
    simpl in Hc. congruence.
Qed.

(** [C14] Every process a sync starts runs the executable of a configured plugin, and an
    executable that has been checked: its digest is the configured signature or checksum, or
    it is a file of an archive with the configured checksum that one of the configured URLs
    delivered.  There are two ways around the check: a configuration without any URL, and an
    archive that has the checksum but no file for the executable, when the one that was there
    before is started. *)
Theorem started_is_verified (cfgs : gmap string Config) (w : world)
    (Hwf : wf w) (Hkeys : map_Forall (λ k c, Name c = k) cfgs) (Hprod : cfgs !! Product = None) :
  ∃ new, started (sync cfgs w) = started w ++ new ∧
    ∀ n content, (n, content) ∈ new → ∃ cfg, cfgs !! n = Some cfg ∧
      (verified cfg (exec_path n) (plugin_dir n) content ∨ unchecked cfg (exec_path n) (plugin_dir n) content).
Proof using Huntar.
  destruct (sync_facts cfgs w Hwf Hkeys Hprod) as (_ & _ & _ & _ & new & Hs & Hv).
  exists new. split; [done|]. intros n c Hin. destruct (Hv n c Hin) as (cfg & Hc & Hch & _).
  unfold starts_checked in Hch. rewrite (Hkeys _ _ Hc) in Hch. eauto.
Qed.

End law.

(** The log files of the plugin are not its executable. *)
Lemma logs_not_exec name (f : fs) :
  delete (plugin_dir name +:+ "/" +:+ name +:+ ".stderr") (delete (plugin_dir name +:+ "/" +:+ name +:+ ".stdout") f)
    !! exec_path name = f !! exec_path name.
Proof.
  rewrite !lookup_delete_ne; [done| |]; unfold exec_path; intros E;
    apply (f_equal String.length) in E; rewrite !str_length_app in E; simpl in E; lia.
Qed.

(** A plugin that is not loaded, whose executable fails the check, but whose download says
    that all is well. *)
Lemma Load_downloads cfg w content digest f' :
  valid_name (Name cfg) = true → plugins w !! Name cfg = None → hex_DecodeString (Sha256 cfg) = Some digest →
  files w !! exec_path (Name cfg) = Some content → sha256 content ≠ digest → Signature cfg = "" →
  mkdir_error (plugin_dir (Name cfg)) = None → start_error (exec_path (Name cfg)) = None →
  download_loop (with_signature cfg) (exec_path (Name cfg)) (plugin_dir (Name cfg)) (DownloadUrls cfg)
    (delete (plugin_dir (Name cfg) +:+ "/" +:+ Name cfg +:+ ".stderr")
      (delete (plugin_dir (Name cfg) +:+ "/" +:+ Name cfg +:+ ".stdout") (files w))) None = (f', None) →
  f' !! exec_path (Name cfg) = Some content →
  started (Load cfg w).1 = started w ++ [(Name cfg, content)].
Proof.
  intros Hname Hnew Hhex Hfile Hbad Hsig Hmk Hst Hdl Hf'.
  set (f0 := delete (plugin_dir (Name cfg) +:+ "/" +:+ Name cfg +:+ ".stderr")
    (delete (plugin_dir (Name cfg) +:+ "/" +:+ Name cfg +:+ ".stdout") (files w))) in *.
  assert (f0 !! exec_path (Name cfg) = Some content) as Hf0 by (subst f0; by rewrite logs_not_exec).
  unfold Load. rewrite Hname, Hnew. cbn [negb].
  change (Name (with_signature cfg)) with (Name cfg).
  assert (Signature (with_signature cfg) = Sha256 cfg) as ->.
  { unfold with_signature. simpl. by rewrite decide_True. }
  fold f0. unfold CheckSignature. rewrite Hf0, Hhex, decide_False by done.
  unfold Download. change (Sha256 (with_signature cfg)) with (Sha256 cfg).
  change (DownloadUrls (with_signature cfg)) with (DownloadUrls cfg).
  rewrite Hhex, Hf0. rewrite decide_False by (simpl; congruence). rewrite Hmk, Hdl. cbn [set_files files].
  by rewrite Hst, Hf'.
Qed.

(** The first way around the check: a configuration without URLs has whatever executable
    is on disk started, although its digest is neither the signature nor the checksum,
    because the download loop then leaves no error. *)
Theorem no_urls_no_check (cfg : Config) (w : world) (content digest : string)
    (Hname : valid_name (Name cfg) = true) (Hnew : plugins w !! Name cfg = None)
    (Hurls : DownloadUrls cfg = []) (Hhex : hex_DecodeString (Sha256 cfg) = Some digest)
    (Hfile : files w !! exec_path (Name cfg) = Some content) (Hbad : sha256 content ≠ digest)
    (Hsig : Signature cfg = "") (Hmk : mkdir_error (plugin_dir (Name cfg)) = None)
    (Hst : start_error (exec_path (Name cfg)) = None) :
  started (Load cfg w).1 = started w ++ [(Name cfg, content)].
Proof.
  eapply (Load_downloads cfg w content digest); [done..| |].
  - rewrite Hurls. reflexivity.
  - by rewrite logs_not_exec.
Qed.

(** The second way around the check: an archive with the configured checksum that has no
    file for the executable has whatever executable is on disk started. *)
Theorem archive_without_executable (cfg : Config) (w : world) (content digest u body : string)
    (Hlaw : untar_law) (f1 : fs) (consumed : string)
    (Hname : valid_name (Name cfg) = true) (Hnew : plugins w !! Name cfg = None)
    (Htype : Type_ cfg = "tar.gz") (Hurls : DownloadUrls cfg = [u]) (Hget : http_get u = Some (200%Z, body, None))
    (Hhex : hex_DecodeString (Sha256 cfg) = Some digest)
    (Hx : untar body (plugin_dir (Name cfg))
      (delete (plugin_dir (Name cfg) +:+ "/" +:+ Name cfg +:+ ".stderr")
        (delete (plugin_dir (Name cfg) +:+ "/" +:+ Name cfg +:+ ".stdout") (files w))) = (f1, inl consumed))
    (Hsum : hex_EncodeToString (sha256 consumed) = Sha256 cfg)
    (Hno : Forall (λ e, path_Join (plugin_dir (Name cfg)) e.1 ≠ exec_path (Name cfg)) (contents consumed))
    (Hfile : files w !! exec_path (Name cfg) = Some content) (Hbad : sha256 content ≠ digest)
    (Hsig : Signature cfg = "") (Hmk : mkdir_error (plugin_dir (Name cfg)) = None)
    (Hst : start_error (exec_path (Name cfg)) = None) :
  started (Load cfg w).1 = started w ++ [(Name cfg, content)].
Proof.
  eapply (Load_downloads cfg w content digest f1); [done..| |].
  - rewrite Hurls. cbn [download_loop]. unfold download_one. rewrite Hget. rewrite decide_True by lia.
    change (Type_ (with_signature cfg)) with (Type_ cfg). rewrite decide_True by done. rewrite Hx.
    change (Sha256 (with_signature cfg)) with (Sha256 cfg). rewrite decide_False by tauto. done.
  - rewrite (Hlaw _ _ _ _ _ Hx). unfold write_entries. revert Hno. generalize (contents consumed). intros es Hno.
    induction es as [|e es IH] using rev_ind; [simpl; by rewrite logs_not_exec|].
    apply Forall_app in Hno as [Hes He]. apply Forall_cons in He as [He _].
    rewrite foldl_app. cbn [foldl]. rewrite lookup_insert_ne by done. by apply IH.
Qed.

End manager.

(** ** Instances *)

(** A digest function, two files and a network for the examples. *)
Definition w_sha (s : string) : string := String (ascii_of_nat (String.length s)) "".
Definition w_http (u : string) : option (Z * string * option string) :=
  if decide (u = "http://mirror/a") then Some (200%Z, "abc", None)
  else if decide (u = "http://mirror/t") then Some (200%Z, "tgz1", None)
  else if decide (u = "http://mirror/e") then Some (200%Z, "empty", None) else None.
Definition w_contents (body : string) : list (string * string) :=
  if decide (body = "tgz1") then [("lib/x", "l"); ("./driver", "exe")] else [].
Definition w_untar (body d : string) (f : fs) : fs * (string + string) :=
  if decide (body = "abc") then (f, inr "gzip: invalid header") else (write_entries d (w_contents body) f, inl body).

Lemma w_untar_law : untar_law w_untar w_contents.
Proof. intros body d f f' c. unfold w_untar. case_decide; [done|]. by intros [= <- <-]. Qed.

Definition w_ok (_ : string) : option string := None.
Definition w_cfg : Config := mkConfig "driver" "bin" "1.2" "03" "" ["http://down"; "http://mirror/a"] "".
Definition w_world : world := mkWorld {["/agent/plugin/driver/driver" := "older"]} ∅ [] [] (mkAgentState StateTypeRunning []).

Lemma w_world_wf : wf w_world.
Proof. intros n p Hp. simpl in Hp. by rewrite lookup_empty in Hp. Qed.

Lemma w_keys : map_Forall (λ k c, Name c = k) ({["driver" := w_cfg]} : gmap string Config).
Proof. by apply map_Forall_singleton. Qed.

Lemma sync_result_witness :
  let w' := sync w_sha w_http w_untar w_ok w_ok (λ _, "") "/agent" "agent" {["driver" := w_cfg]} w_world in
  wf w' ∧ currentState (agent_state w') = StateTypeRunning ∧ running w' "driver".
Proof.
  pose proof (sync_result w_sha w_http w_untar w_ok w_ok (λ _, "") "/agent" "agent" w_contents w_untar_law
    {["driver" := w_cfg]} w_world w_world_wf w_keys eq_refl) as (Hwf & _ & Hrun & _).
  split; [exact Hwf|]. split; [reflexivity|]. apply (Hrun eq_refl "driver" w_cfg). reflexivity.
Defined.

(** An archive: its executable is started. *)
Definition w_cfg_tar : Config :=
  mkConfig "driver" "tar.gz" "1.2" "04" "" ["http://down"; "http://mirror/a"; "http://mirror/t"] "".

Lemma w_keys_tar : map_Forall (λ k c, Name c = k) ({["driver" := w_cfg_tar]} : gmap string Config).
Proof. by apply map_Forall_singleton. Qed.

Lemma started_is_verified_witness :
  ∃ new, started (sync w_sha w_http w_untar w_ok w_ok (λ _, "") "/agent" "agent" {["driver" := w_cfg_tar]} w_world)
      = [] ++ new ∧ new = [("driver", "exe")] ∧
    ∀ n content, (n, content) ∈ new → ∃ cfg, ({["driver" := w_cfg_tar]} : gmap string Config) !! n = Some cfg ∧
      (verified w_sha w_http w_untar w_contents cfg (exec_path "/agent" n) (plugin_dir "/agent" n) content ∨
       unchecked w_sha w_http w_untar w_contents cfg (exec_path "/agent" n) (plugin_dir "/agent" n) content).
Proof.
  destruct (started_is_verified w_sha w_http w_untar w_ok w_ok (λ _, "") "/agent" "agent" w_contents w_untar_law
    {["driver" := w_cfg_tar]} w_world w_world_wf w_keys_tar eq_refl) as (new & Hs & Hv).
  exists new. split; [exact Hs|]. split; [|exact Hv]. vm_compute in Hs. by symmetry.
Defined.

Lemma archive_without_executable_witness :
  started (Load w_sha w_http w_untar w_ok w_ok "/agent"
    (mkConfig "driver" "tar.gz" "1.2" (hex_EncodeToString (w_sha "empty")) "" ["http://mirror/e"] "")
    (mkWorld {["/agent/plugin/driver/driver" := "old one"]} ∅ [] [] (mkAgentState StateTypeRunning []))).1 =
    [] ++ [("driver", "old one")].
Proof.
  apply (archive_without_executable w_sha w_http w_untar w_ok w_ok "/agent" w_contents
    (mkConfig "driver" "tar.gz" "1.2" (hex_EncodeToString (w_sha "empty")) "" ["http://mirror/e"] "")
    (mkWorld {["/agent/plugin/driver/driver" := "old one"]} ∅ [] [] (mkAgentState StateTypeRunning []))
    "old one" (w_sha "empty") "http://mirror/e" "empty" w_untar_law {["/agent/plugin/driver/driver" := "old one"]} "empty");
    try reflexivity; try (by vm_compute).
Defined.

Lemma no_urls_no_check_witness :
  started (Load w_sha w_http w_untar w_ok w_ok "/agent"
    (mkConfig "driver" "bin" "1.2" "04" "" [] "") w_world).1 = [] ++ [("driver", "older")].
Proof.
  apply (no_urls_no_check w_sha w_http w_untar w_ok w_ok "/agent"
    (mkConfig "driver" "bin" "1.2" "04" "" [] "") w_world "older" (String (ascii_of_nat 4) ""));
    try reflexivity. by vm_compute.
Defined.

End PluginManager.
