(* ===== verification/Transfer.v ===== *)
(** * The agent's transport

    Models [agent/transport/transfer.go] ([startTransfer], [handleSend],
    [handleReceive]), [file_ext.go] ([UploadFile], [handleUpload]),
    [connection/connection.go] ([GetConnection], [LookupRegion]) and
    [agent/agent/update.go].  The gRPC streams, JSON decoding and external programs are
    parameters. *)

From Stdlib Require Import Ascii.
From S2P Require Import Prelude GoStrings Wire Bridge Buffer PluginProtocol PluginManager.
From stdpp Require Import options.

Module Transfer.

(** ** [handleSend]: one tick *)

(** What a tick sends (the values of the drained records; [None] if there are none),
    the buffer after it and the counter.  [send] is the error of the stream.  Marshalling
    a nil record panics. *)
Definition handleSend_tick (send : list (Z * Z * bytes) → option string) (txCnt : Z) (s : Buffer.state)
    : outcome (option (list (Z * Z * bytes)) * Buffer.state * Z) :=
  let '(recs, s1) := Buffer.ReadEncodedRecords s in
  if decide (length recs ≠ 0) then
    match mapM (λ p, p ≫= Buffer.value_of s1) recs with
    | None => Panic "nil pointer dereference"
    | Some vals =>
        let txCnt := match send vals with
          | Some _ => txCnt
          | None => uint64 (txCnt + Z.of_nat (length recs)) end in
        let! s2 := Buffer.PutAll recs s1 in
        Ret (Some vals, s2, txCnt)
    end
  else Ret (None, s1, txCnt).

(** ** Connections *)

Inductive conn_state := Ready | Connecting | Idle | TransientFailure | Shutdown.

(** The current connection, if any (by the number it was dialled as), and [retries]. *)
Record conn := mkConn { current : option nat; retries : Z; dialled : nat }.

(** [GetConnection]: [st] is the state of the current connection, [dial] the error of
    dialling. *)
Definition GetConnection (st : conn_state) (dial : option string) (c : conn) : conn * (nat + string) :=
  let redial (c : conn) :=
    match dial with
    | None => (mkConn (Some (dialled c)) 0 (S (dialled c)), inl (dialled c))
    | Some err => (c, inr err)
    end in
  match current c with
  | None => redial c
  | Some id =>
      match st with
      | Ready | Idle =>
          let c := mkConn (current c) (int32 (retries c + 1)) (dialled c) in
          if decide (retries c > 5)%Z then redial c else (c, inl id)
      | Connecting | TransientFailure | Shutdown => redial c
      end
  end.

Definition LookupRegion (serviceDiscoveryHost privateHost publicHost : gmap string string) (r : string) : bool :=
  bool_decide (is_Some (serviceDiscoveryHost !! r)) || bool_decide (is_Some (privateHost !! r))
  || bool_decide (is_Some (publicHost !! r)).

(** [startTransfer] over the results of [GetConnection] ([true] for a connection):
    the number of attempts after which it gives up, [None] if it does not. *)
Fixpoint startTransfer (retries : nat) (attempts : list bool) : option nat :=
  match attempts with
  | [] => None
  | true :: attempts => S <$> startTransfer 0 attempts
  | false :: attempts =>
      if decide (5 < retries) then Some 1 else S <$> startTransfer (S retries) attempts
  end.

(** ** [handleReceive] *)

Record Command := mkCommand { Task : option Bridge.Task; Configs : list PluginManager.Config }.

Record UploadRequest := mkUpload { Path : string; BufSize : Z; token : string }.

Inductive json := JString (s : string) | JOther.

Record Agent := mkAgent {
  plugins : PluginManager.world;
  syncCh : chan (gmap string PluginManager.Config);
  rxCnt : Z;
  IDC : string;
  Region : string;
  uploading : option UploadRequest;
  cancelled : bool;
  tasks : list (string * Bridge.Task);
}.

Definition set_world (w : PluginManager.world) (a : Agent) : Agent :=
  mkAgent w (syncCh a) (rxCnt a) (IDC a) (Region a) (uploading a) (cancelled a) (tasks a).
Definition set_idc (v : string) (a : Agent) : Agent :=
  mkAgent (plugins a) (syncCh a) (rxCnt a) v (Region a) (uploading a) (cancelled a) (tasks a).
Definition set_region (v : string) (a : Agent) : Agent :=
  mkAgent (plugins a) (syncCh a) (rxCnt a) (IDC a) v (uploading a) (cancelled a) (tasks a).
Definition set_agent_state (s : PluginManager.AgentState) (a : Agent) : Agent :=
  let w := plugins a in
  set_world (PluginManager.mkWorld (PluginManager.files w) (PluginManager.plugins w)
    (PluginManager.started w) (PluginManager.stopped w) s) a.

Definition cancel (a : Agent) : Agent :=
  mkAgent (plugins a) (syncCh a) (rxCnt a) (IDC a) (Region a) (uploading a) true (tasks a).

(** [UploadFile]: the channel has no buffer, so a request is taken only while the
    uploader is idle. *)
Definition UploadFile (req : UploadRequest) (a : Agent) : Agent * option string :=
  match uploading a with
  | None => (mkAgent (plugins a) (syncCh a) (rxCnt a) (IDC a) (Region a) (Some req) (cancelled a) (tasks a), None)
  | Some _ => (a, Some "last upload task hasn't completed")
  end.

Section receive.
(** The decoders; the external programs ([update] is [PluginManager.Update] at the
    platform's parameters); the agent's identity; whether the goroutine that sends to a
    plugin is waiting for a task. *)
Context (json_upload : string → option (string * Z)) (json_map : string → option (gmap string json))
  (control : list string → option string) (lookup_region : string → bool)
  (update : PluginManager.Config → PluginManager.fs → PluginManager.fs * option PluginManager.error)
  (Error : PluginManager.error → string) (waiting : string → bool) (Product Version : string).

Definition set_metadata (req : gmap string json) (a : Agent) : Agent :=
  let a := match req !! "idc" with
    | Some (JString idc) =>
        match control ["set"; "--idc=" +:+ idc] with Some _ => a | None => set_idc idc a end
    | _ => a end in
  match req !! "region" with
  | Some (JString region) =>
      if lookup_region region then
        match control ["set"; "--region=" +:+ region] with Some _ => a | None => set_region region a end
      else a
  | _ => a
  end.

(** A task for the agent itself; [true] if the loop returns. *)
Definition agent_task (t : Bridge.Task) (a : Agent) : Agent * bool :=
  if decide (Bridge.taskDataType t = 1050%Z) then
    match json_upload (Bridge.taskData t) with
    | None => (a, false)
    | Some (path, size) => ((UploadFile (mkUpload path size (Bridge.Token t)) a).1, false)
    end
  else if decide (Bridge.taskDataType t = 1051%Z) then
    match json_map (Bridge.taskData t) with
    | None => (a, false)
    | Some req => (set_metadata req a, false)
    end
  else if decide (Bridge.taskDataType t = 1060%Z) then (cancel a, true)
  else (a, false).

Definition plugin_task (t : Bridge.Task) (a : Agent) : Agent :=
  match PluginManager.Get (Bridge.ObjectName t) (plugins a) with
  | None => a
  | Some _ =>
      match PluginProtocol.SendTask (waiting (Bridge.ObjectName t)) t with
      | (Some t, _) => mkAgent (plugins a) (syncCh a) (rxCnt a) (IDC a) (Region a) (uploading a) (cancelled a)
                         (tasks a ++ [(Bridge.ObjectName t, t)])
      | (None, _) => a
      end
  end.

(** [for _, config := range cmd.Configs { cfgs[config.Name] = config }]. *)
Definition configs_map (cfgs : list PluginManager.Config) : gmap string PluginManager.Config :=
  foldl (λ m c, <[PluginManager.Name c := c]> m) ∅ cfgs.

(** One command; [true] if the loop returns. *)
Definition handleReceive_cmd (cmd : Command) (a : Agent) : Agent * bool :=
  let a := mkAgent (plugins a) (syncCh a) (uint64 (rxCnt a + 1)) (IDC a) (Region a) (uploading a)
             (cancelled a) (tasks a) in
  match Task cmd with
  | Some t => if decide (Bridge.ObjectName t = Product) then agent_task t a else (plugin_task t a, false)
  | None =>
      let a := set_agent_state (PluginManager.SetRunning (PluginManager.agent_state (plugins a))) a in
      let cfgs := configs_map (Configs cmd) in
      let upgrade := match cfgs !! Product with
        | Some cfg => if decide (PluginManager.Version cfg ≠ Version) then Some cfg else None
        | None => None end in
      let go a :=
        let cfgs := delete Product cfgs in
        let '(ch, _) := PluginManager.Sync cfgs (syncCh a) in
        (mkAgent (plugins a) ch (rxCnt a) (IDC a) (Region a) (uploading a) (cancelled a) (tasks a), false) in
      match upgrade with
      | None => go a
      | Some cfg =>
          let '(f, err) := update cfg (PluginManager.files (plugins a)) in
          let a := set_world (PluginManager.set_files f (plugins a)) a in
          match err with
          | None => (cancel a, true)
          | Some err =>
              go (set_agent_state (PluginManager.SetAbnormal ("agent update failed: " +:+ Error err)
                    (PluginManager.agent_state (plugins a))) a)
          end
      end
  end.

End receive.

(** ** [handleUpload] *)

Definition timeoutSeconds : Z := 600.

(** The loop over the ticks: what is sent, and whether the upload completed before
    the ticks ran out. *)
Fixpoint upload_loop (ticks : nat) (bufLen : nat) (file : bytes) (sent : list bytes) : list bytes * bool :=
  match ticks with
  | 0 => (sent, false)
  | S ticks =>
      let chunk := take bufLen file in
      let rest := drop bufLen file in
      let sent := sent ++ [chunk] in
      if decide (length file < bufLen) then (sent, true)
      else upload_loop ticks bufLen rest sent
  end.

Inductive upload_result := SizeLimit | Uploaded (chunks : list bytes) (complete : bool).

(** The upload of a file with no failure of the stream: one chunk a second for the
    600 seconds the stream lives; a negative buffer size panics. *)
Definition handleUpload (BufSize : Z) (file : bytes) : outcome upload_result :=
  if decide (Z.of_nat (length file) > int64 (BufSize * timeoutSeconds))%Z then Ret SizeLimit
  else
    let bufLen := if decide (BufSize ≤ 500 * 1024)%Z then BufSize else (500 * 1024)%Z in
    if decide (bufLen < 0)%Z then Panic "makeslice: len out of range"
    else let '(chunks, complete) := upload_loop (Z.to_nat timeoutSeconds) (Z.to_nat bufLen) file [] in
         Ret (Uploaded chunks complete).

(** ** Sending *)

Lemma PutAll_inv recs held s :
  (∀ p, p ∈ recs → is_Some p) → Buffer.inv (omap id recs ++ held) s →
  ∃ s', Buffer.PutAll recs s = Ret s' ∧ Buffer.inv held s' ∧ Buffer.live s' = Buffer.live s.
Proof.
  revert s. induction recs as [|p recs IH]; intros s Hp Hinv; simpl; [eauto|].
  destruct (Hp p ltac:(left)) as [l ->]. simpl in Hinv.
  destruct (Buffer.PutEncodedRecord_inv l _ s Hinv) as (s1 & -> & Hi & Hl & _). simpl.
  destruct (IH s1) as (s2 & -> & Hi2 & Hl2); [|done|].
  - intros p' Hp'. apply Hp. by right.
  - exists s2. rewrite Hl2. done.
Qed.

Lemma mapM_values s (recs : list (option nat)) (q : list (Z * Z * bytes)) :
  (λ p, p ≫= Buffer.value_of s) <$> recs = Some <$> q → mapM (λ p, p ≫= Buffer.value_of s) recs = Some q.
Proof.
  intros E. apply mapM_Some. revert q E. induction recs as [|p recs IH]; intros [|v q] E; try done.
  simpl in E. injection E as E1 E2. constructor; [done|]. by apply IH.
Qed.

Lemma handleSend_tick_spec send txCnt s held q :
  Buffer.inv held s → Buffer.represents s q →
  ∃ s', Buffer.inv held s' ∧ Buffer.represents s' [] ∧
    handleSend_tick send txCnt s =
      Ret (if decide (q = []) then None else Some q, s',
           if decide (q = [] ∨ is_Some (send q)) then txCnt else uint64 (txCnt + Z.of_nat (length q))).
Proof.
  intros Hinv Hq. unfold handleSend_tick. pose proof (Buffer.inv_read held s Hinv) as Hr.
  destruct (Buffer.ReadEncodedRecords s) as [recs s1] eqn:E. destruct Hr as (-> & Hi1 & Hl1).
  pose proof (Buffer.represents_length _ _ _ Hinv Hq) as Hlen.
  rewrite (Buffer.live_length _ _ Hinv), <- Hlen.
  destruct q as [|v q].
  - assert (Buffer.live s = []) as El.
    { apply nil_length_inv. by rewrite (Buffer.live_length _ _ Hinv). }
    rewrite El in Hi1. exists s1. split_and!; [done| |by rewrite decide_False, !decide_True by tauto].
    unfold Buffer.represents, Buffer.contents. by rewrite Hl1.
  - rewrite decide_True by done. rewrite (decide_False (P := v :: q = [])) by done.
    assert (∀ l, Buffer.value_of s1 l = Buffer.value_of s l) as Hv.
    { unfold Buffer.ReadEncodedRecords in E. by injection E as <-. }
    rewrite (mapM_values _ _ (v :: q)).
    2:{ etrans; [|exact Hq]. apply list_fmap_ext. intros ? [l|] _; [by apply Hv|done]. }
    destruct (PutAll_inv (Buffer.live s) held s1) as (s2 & -> & Hi2 & Hl2); [apply Hinv|done|].
    exists s2. split_and!; [done|unfold Buffer.represents, Buffer.contents; by rewrite Hl2, Hl1|].
    simpl. do 2 f_equal. destruct (send (v :: q)) eqn:Es.
    + rewrite decide_True; [done|]. right. eauto.
    + rewrite decide_False; [done|]. intros [?|[? ?]]; done.
Qed.

(** A tick of the sender hands the stream everything that was buffered, in order,
    leaves the buffer empty and returns every record to the pools, whether sending
    succeeds or not (a failed send loses the records); it does not panic. *)
Theorem handleSend_drains (send : list (Z * Z * bytes) → option string) (txCnt : Z) (s : Buffer.state)
    (held : list nat) (q : list (Z * Z * bytes)) (Hinv : Buffer.inv held s) (Hq : Buffer.represents s q) :
  ∃ s', Buffer.inv held s' ∧ Buffer.represents s' [] ∧
    handleSend_tick send txCnt s =
      Ret (if decide (q = []) then None else Some q, s',
           if decide (q = [] ∨ is_Some (send q)) then txCnt else uint64 (txCnt + Z.of_nat (length q))).
Proof. by apply handleSend_tick_spec. Qed.

(** A plugin that dies after one to three bytes of a frame takes the agent with
    it: the read error is logged but not acted on, the nil record is buffered (or, if
    the buffer is full, returned to the pools), and the agent panics there or at the
    next tick of the sender. *)
Theorem truncated_frame_panics (send : list (Z * Z * bytes) → option string) (txCnt cnt bts : Z)
    (choice : nat) (r : bytes) (s : Buffer.state) (held : list nat)
    (Hr : 1 ≤ length r ≤ 3) (Hinv : Buffer.inv held s) :
  match PluginProtocol.receive_iter choice (PluginProtocol.mkRx r cnt bts) s with
  | Ret (Some (_, s')) => panics (handleSend_tick send txCnt s')
  | Ret None => False
  | Panic _ => True
  end.
Proof.
  unfold PluginProtocol.receive_iter, PluginProtocol.ReceiveData, PluginProtocol.receive_header,
    PluginProtocol.rbind, PluginProtocol.read_u32, ReadFull. cbn [PluginProtocol.reader].
  rewrite decide_False by lia. rewrite (decide_False (P := r = [])) by (intros ->; simpl in Hr; lia).
  cbn [obind]. rewrite decide_False by done. unfold Buffer.WriteEncodedRecord. cbn [obind].
  case_decide as Hlt; [|done]. cbn [obind]. unfold handleSend_tick, Buffer.ReadEncodedRecords. simpl.
  set (recs := take _ _).
  assert (None ∈ recs) as Hnone.
  { subst recs. apply list_elem_of_lookup. exists (Buffer.offset s).
    rewrite lookup_take_lt by lia. apply list_lookup_insert_eq. exact Hlt. }
  rewrite decide_True by (destruct recs; [by apply elem_of_nil in Hnone|done]).
  replace (mapM _ recs) with (None : option (list (Z * Z * bytes))); [by eexists|].
  symmetry. apply mapM_None, Exists_exists. exists None. done.
Qed.

(** ** Receiving *)

Lemma configs_map_lookup l n :
  configs_map l !! n = last (filter (λ c, PluginManager.Name c = n) l).
Proof.
  unfold configs_map. induction l as [|c l IH] using rev_ind; [done|].
  rewrite foldl_snoc, filter_app. simpl. rewrite filter_cons, filter_nil.
  destruct (decide (PluginManager.Name c = n)) as [<-|Hne].
  - by rewrite lookup_insert_eq, last_snoc.
  - by rewrite lookup_insert_ne, app_nil_r by done.
Qed.

Section receive_spec.
Context (json_upload : string → option (string * Z)) (json_map : string → option (gmap string json))
  (control : list string → option string) (lookup_region : string → bool)
  (update : PluginManager.Config → PluginManager.fs → PluginManager.fs * option PluginManager.error)
  (Error : PluginManager.error → string) (waiting : string → bool) (Product Version : string).
Local Abbreviation handle :=
  (handleReceive_cmd json_upload json_map control lookup_region update Error waiting Product Version).

Lemma configs_queued (cmd : Command) (a : Agent) (Htask : Task cmd = None) :
  let '(a', stop) := handle cmd a in
  if stop then
    cancelled a' = true ∧ syncCh a' = syncCh a ∧
    ∃ cfg, cfg ∈ Configs cmd ∧ PluginManager.Name cfg = Product ∧ PluginManager.Version cfg ≠ Version ∧
      (update cfg (PluginManager.files (plugins a))).2 = None
  else
    ∃ m, map_Forall (λ k c, PluginManager.Name c = k) m ∧ m !! Product = None ∧
      (∀ n, n ≠ Product → m !! n = last (filter (λ c, PluginManager.Name c = n) (Configs cmd))) ∧
      syncCh a' = send_or_drop m (syncCh a).
Proof.
  unfold handleReceive_cmd. rewrite Htask.
  set (m := configs_map (Configs cmd)).
  assert (∀ n c, m !! n = Some c → c ∈ Configs cmd ∧ PluginManager.Name c = n) as Hm.
  { intros n c. subst m. rewrite configs_map_lookup. intros Hl%last_Some_elem_of.
    apply list_elem_of_filter in Hl. naive_solver. }
  set (upgrade := match m !! Product with Some _ => _ | None => _ end).
  assert (∀ ch, (PluginManager.Sync (delete Product m) ch).1 = send_or_drop (delete Product m) ch) as Hsync.
  { intros ch. unfold PluginManager.Sync, send_or_drop. by destruct (try_send _ _). }
  assert (map_Forall (λ k c, PluginManager.Name c = k) (delete Product m) ∧
    delete Product m !! Product = None ∧
    (∀ n, n ≠ Product → delete Product m !! n = last (filter (λ c, PluginManager.Name c = n) (Configs cmd))))
    as Hdel.
  { split_and!.
    - intros k c [_ Hc]%lookup_delete_Some. by apply Hm.
    - apply lookup_delete_eq.
    - intros n Hn. rewrite lookup_delete_ne by done. apply configs_map_lookup. }
  destruct upgrade as [cfg|] eqn:Hup; subst upgrade.
  - cbn [plugins set_agent_state set_world PluginManager.files].
    destruct (update cfg _) as [f [err|]] eqn:Hu.
    + destruct (PluginManager.Sync _ _) as [ch e] eqn:Es. cbn [syncCh].
      pose proof (Hsync (syncCh a)) as Hs. cbn in Es. rewrite Es in Hs. simpl in Hs. naive_solver.
    + split; [done|]. split; [done|]. destruct (m !! Product) as [c|] eqn:Hp; [|done].
      case_decide; [|done]. injection Hup as ->. destruct (Hm _ _ Hp). exists cfg. by rewrite Hu.
  - destruct (PluginManager.Sync _ _) as [ch e] eqn:Es. cbn [syncCh].
    pose proof (Hsync (syncCh a)) as Hs. cbn in Es. rewrite Es in Hs. simpl in Hs. naive_solver.
Qed.

(** What a command without a task does: either it upgrades the agent, which then
    stops, or it queues for the plugin daemon the last configuration given for each
    name but the agent's own, each under its name (what [sync_result] needs); if one
    is still pending, the new configurations are dropped. *)
Theorem configs_reach_sync (cmd : Command) (a : Agent) (Htask : Task cmd = None) :
  let '(a', stop) := handle cmd a in
  if stop then
    cancelled a' = true ∧ syncCh a' = syncCh a ∧
    ∃ cfg, cfg ∈ Configs cmd ∧ PluginManager.Name cfg = Product ∧ PluginManager.Version cfg ≠ Version ∧
      (update cfg (PluginManager.files (plugins a))).2 = None
  else
    ∃ m, map_Forall (λ k c, PluginManager.Name c = k) m ∧ m !! Product = None ∧
      (∀ n, n ≠ Product → m !! n = last (filter (λ c, PluginManager.Name c = n) (Configs cmd))) ∧
      syncCh a' = send_or_drop m (syncCh a).
Proof. by apply configs_queued. Qed.

End receive_spec.

(** ** Giving up *)

Lemma startTransfer_failures r attempts n :
  r ≤ 6 → startTransfer r attempts = Some n →
  ∃ pre, replicate r false ++ take n attempts = pre ++ replicate 7 false.
Proof.
  revert r n. induction attempts as [|[] l IH]; intros r n Hr; simpl; [done| |].
  - destruct (startTransfer 0 l) as [k|] eqn:E; [|done]. intros [= <-].
    destruct (IH 0 k ltac:(lia) E) as [pre Hp]. exists (replicate r false ++ true :: pre). simpl in *.
    by rewrite Hp, <- app_assoc.
  - case_decide as H5.
    + intros [= <-]. assert (r = 6) as -> by lia. by exists [].
    + destruct (startTransfer (S r) l) as [k|] eqn:E; [|done]. intros [= <-].
      destruct (IH (S r) k ltac:(lia) E) as [pre Hp]. exists pre. etrans; [|exact Hp].
      change (replicate (S r) false) with (false :: replicate r false).
      by rewrite (replicate_cons_app r false), <- app_assoc.
Qed.

Lemma startTransfer_false k r rest :
  7 ≤ r + k → r ≤ 6 → ∃ n, n ≤ k ∧ startTransfer r (replicate k false ++ rest) = Some n.
Proof.
  revert r. induction k as [|k IH]; intros r Hk Hr; [lia|]. simpl. case_decide; [exists 1; split; [lia|done]|].
  destruct (IH (S r)) as (n & Hn & ->); [lia..|]. exists (S n). split; [lia|done].
Qed.

Lemma startTransfer_gives_up r pre rest :
  r ≤ 6 → ∃ n, n ≤ length pre + 7 ∧ startTransfer r (pre ++ replicate 7 false ++ rest) = Some n.
Proof.
  revert r. induction pre as [|[] pre IH]; intros r Hr; cbn [app length].
  - apply startTransfer_false; lia.
  - simpl. destruct (IH 0 ltac:(lia)) as (n & Hn & E). simpl in E. rewrite E. exists (S n). split; [lia|done].
  - cbn [startTransfer]. case_decide; [exists 1; split; [lia|done]|].
    destruct (IH (S r) ltac:(lia)) as (n & Hn & ->). exists (S n). split; [lia|done].
Qed.

(** The transfer loop gives up exactly when seven attempts in a row found no
    connection: if it stops after [n] attempts the last seven failed, and seven
    failures in a row stop it. *)
Theorem startTransfer_seven (attempts : list bool) :
  match startTransfer 0 attempts with
  | Some n => ∃ pre, take n attempts = pre ++ replicate 7 false
  | None => ∀ pre rest, attempts ≠ pre ++ replicate 7 false ++ rest
  end.
Proof.
  destruct (startTransfer 0 attempts) as [n|] eqn:E.
  - by apply (startTransfer_failures 0); [lia|].
  - intros pre rest ->. destruct (startTransfer_gives_up 0 pre rest ltac:(lia)) as (n & _ & En). congruence.
Qed.

(** ** Uploading *)

Lemma upload_loop_spec ticks bufLen file sent :
  0 < bufLen →
  ∃ chunks, upload_loop ticks bufLen file sent =
      (sent ++ chunks, bool_decide (length file < ticks * bufLen)) ∧
    concat chunks = take (ticks * bufLen) file ∧ length chunks ≤ ticks ∧
    Forall (λ c, length c ≤ bufLen) chunks.
Proof.
  intros Hb. revert file sent. induction ticks as [|ticks IH]; intros file sent; simpl.
  - exists []. rewrite app_nil_r. split_and!; try done.
  - case_decide as Hlt.
    + exists [take bufLen file]. rewrite (bool_decide_eq_true_2 (length file < _)) by lia.
      split_and!; [done| |simpl; lia|by constructor; [rewrite length_take; lia|]].
      simpl. rewrite app_nil_r, !take_ge by lia. done.
    + destruct (IH (drop bufLen file) (sent ++ [take bufLen file])) as (chunks & -> & Hc & Hl & Hf).
      exists (take bufLen file :: chunks). rewrite <- app_assoc. split_and!.
      * simpl. f_equal. rewrite length_drop. apply bool_decide_ext. lia.
      * simpl. rewrite Hc. rewrite <- (take_drop bufLen file) at 3.
        rewrite take_app, length_take. f_equal; [|f_equal; lia].
        rewrite (take_ge (take bufLen file)); [done|]. rewrite length_take. lia.
      * simpl. lia.
      * constructor; [rewrite length_take; lia|done].
Qed.

(** An upload sends at least one chunk, if only an empty one. *)
Lemma handleUpload_nonempty BufSize file chunks b :
  handleUpload BufSize file = Ret (Uploaded chunks b) → chunks ≠ [].
Proof.
  unfold handleUpload. case_decide; [done|]. case_decide as Hneg; [done|].
  set (bufLen := if decide _ then BufSize else _) in *.
  assert (∃ n, Z.to_nat timeoutSeconds = S n) as [n ->] by (exists 599; reflexivity).
  assert (∀ n l file' sent, sent ≠ [] → (upload_loop n l file' sent).1 ≠ []) as Hmono.
  { clear. intros n l. induction n as [|n IH]; intros file' sent Hs; simpl; [done|].
    case_decide; [|apply IH]; by destruct sent. }
  pose proof (Hmono n (Z.to_nat bufLen) (drop (Z.to_nat bufLen) file) ([] ++ [take (Z.to_nat bufLen) file]) ltac:(done)) as Hn.
  cbn [upload_loop]. case_decide; [by intros [= <- _]|].
  destruct (upload_loop n _ _ _) as [cs c]. intros [= <- _]. exact Hn.
Qed.

(** The upload of a file within the size limit: the chunks are the file up to 600
    times the buffer, and the upload completes exactly when the file is shorter than
    that.  The buffer is capped at 500 KB but the limit is not: with a larger buffer
    size, a file between 600 * 500 KB and the limit is accepted and then cut off. *)
Theorem upload_chunks (BufSize : Z) (file : bytes) (Hpos : (0 < BufSize < 2 ^ 50)%Z)
    (Hlim : (Z.of_nat (length file) ≤ BufSize * 600)%Z) :
  let room := Z.to_nat (600 * Z.min BufSize (500 * 1024)) in
  ∃ chunks, handleUpload BufSize file = Ret (Uploaded chunks (bool_decide (length file < room))) ∧
    concat chunks = take room file ∧ length chunks ≤ 600.
Proof.
  intros room. unfold handleUpload.
  assert (int64 (BufSize * timeoutSeconds) = BufSize * 600)%Z as ->.
  { apply wrap_s_id; [lia|]. unfold in_s, timeoutSeconds. simpl. lia. }
  rewrite decide_False by lia.
  set (bufLen := if decide _ then BufSize else _).
  assert (bufLen = Z.min BufSize (500 * 1024)) as Hbuf by (subst bufLen; case_decide; lia).
  rewrite decide_False by lia.
  destruct (upload_loop_spec (Z.to_nat timeoutSeconds) (Z.to_nat bufLen) file []) as (chunks & -> & Hc & Hl & _);
    [lia|].
  assert (Z.to_nat timeoutSeconds * Z.to_nat bufLen = room) as Hroom.
  { subst room. rewrite Hbuf. unfold timeoutSeconds. lia. }
  rewrite Hroom in *. exists chunks. split_and!; [done|done|]. unfold timeoutSeconds in Hl. lia.
Qed.

(** ** Instances *)

Lemma handleSend_drains_witness :
  Buffer.inv [] Buffer.initial ∧
  ∃ s', Buffer.inv [] s' ∧ handleSend_tick (λ _, None) 0 Buffer.initial = Ret (None, s', 0%Z).
Proof.
  split; [apply Buffer.inv_initial|].
  destruct (handleSend_drains (λ _, None) 0 Buffer.initial [] [] Buffer.inv_initial Buffer.represents_initial)
    as (s' & Hi & _ & E).
  exists s'. split; [exact Hi|]. etrans; [exact E|]. reflexivity.
Defined.

Lemma truncated_frame_panics_witness :
  match PluginProtocol.receive_iter 0 (PluginProtocol.mkRx [u8 7] 0 0) Buffer.initial with
  | Ret (Some (_, s')) => panics (handleSend_tick (λ _, None) 0 s')
  | Ret None => False
  | Panic _ => True
  end.
Proof. apply (truncated_frame_panics _ 0 0 0 0 [u8 7] Buffer.initial []); [simpl; lia|apply Buffer.inv_initial]. Defined.

Definition w_agent : Agent :=
  mkAgent PluginManager.w_world (make_chan 1) 0 "default" "default" None false [].

Lemma configs_reach_sync_witness :
  ∃ m, m !! "driver" = Some PluginManager.w_cfg ∧
    syncCh (handleReceive_cmd (λ _, None) (λ _, None) (λ _, None) (λ _, false) (λ _ f, (f, None)) (λ _, "")
      (λ _, false) "agent" "1.0" (mkCommand None [PluginManager.w_cfg]) w_agent).1 =
    send_or_drop m (make_chan 1).
Proof.
  pose proof (configs_reach_sync (λ _, None) (λ _, None) (λ _, None) (λ _, false) (λ _ f, (f, None)) (λ _, "")
    (λ _, false) "agent" "1.0" (mkCommand None [PluginManager.w_cfg]) w_agent eq_refl) as Hc.
  destruct (handleReceive_cmd _ _ _ _ _ _ _ _ _ _ _) as [a' [|]] eqn:E.
  - destruct Hc as (Hcan & _). vm_compute in E. injection E as <-. discriminate.
  - destruct Hc as (m & _ & _ & Hm & Hs). exists m. split; [|exact Hs]. rewrite Hm by done. reflexivity.
Defined.

(** A file of 350 MB with a buffer size of 1 MB is cut off at 300 MB. *)
Lemma upload_chunks_witness :
  let file := replicate (Z.to_nat (350 * 1024 * 1024)) (u8 0) in
  ∃ chunks, handleUpload (1024 * 1024) file = Ret (Uploaded chunks false) ∧
    concat chunks = take (Z.to_nat (600 * (500 * 1024))) file.
Proof.
  intros file.
  assert (Z.of_nat (length file) = 350 * 1024 * 1024)%Z as Hl by (subst file; rewrite length_replicate; lia).
  destruct (upload_chunks (1024 * 1024) file) as (chunks & E & Hc & _); [lia|lia|].
  exists chunks. rewrite bool_decide_eq_false_2 in E by lia. split; [exact E|].
  rewrite Hc. f_equal.
Defined.

End Transfer.
