(* ===== verification/Pool.v ===== *)
(** * The connection pool of the agent center

    Models [server/agent_center/grpctrans/pool/pool.go] and [options.go]: the
    connections of the agents with what is known of each, the tokens that bound their
    number, and the channels towards the configuration and task loops.  A connection
    is shared by reference between the pool and its handler, so the connections live
    in a heap.  What the manager answers, and when the other end of a command channel
    is ready, are arguments. *)

From S2P Require Import Prelude GoStrings.
From stdpp Require Import options.

Module Pool.

(** [options.go]; the times are in seconds. *)
Record Config := mkConfig {
  PoolLength : nat;
  ChanLen : nat;
  CommSendTimeOut : Z;
  CommResultTimeOut : Z;
  TaskTimeWeight : Z;
  TaskCountWeight : nat;
  Interval : Z;
}.

Definition NewConfig : Config := mkConfig 1024 1024 2 2 10 100 240.

(** The values of a detail map; [Fl] are the floating-point numbers. *)
Inductive dval (Fl : Type) := VString (s : string) | VFloat (f : Fl) | VInt (z : Z) | VList (l : list string).
Arguments VString {Fl} s.
Arguments VFloat {Fl} f.
Arguments VInt {Fl} z.
Arguments VList {Fl} l.

Section pool.
Context {Fl : Type} `{Ranger}.

Abbreviation detail := (gmap string (dval Fl)).

Record Connection := mkConnection {
  AgentID : string;
  TenantAuthCode : string;
  TenantID : Z;
  HostID : Z;
  SourceAddr : string;
  CreateAt : Z;
  agentDetail : option detail;
  pluginDetail : gmap string detail;
  ethInfoDetail : gmap string detail;
}.

Definition set_agentDetail (d : option detail) (c : Connection) : Connection :=
  mkConnection (AgentID c) (TenantAuthCode c) (TenantID c) (HostID c) (SourceAddr c) (CreateAt c)
    d (pluginDetail c) (ethInfoDetail c).
Definition set_pluginDetail (d : gmap string detail) (c : Connection) : Connection :=
  mkConnection (AgentID c) (TenantAuthCode c) (TenantID c) (HostID c) (SourceAddr c) (CreateAt c)
    (agentDetail c) d (ethInfoDetail c).
Definition set_ethInfoDetail (d : gmap string detail) (c : Connection) : Connection :=
  mkConnection (AgentID c) (TenantAuthCode c) (TenantID c) (HostID c) (SourceAddr c) (CreateAt c)
    (agentDetail c) (pluginDetail c) d.

(** [GetAgentDetail] writes the tenant and host of the connection into the map it
    returns. *)
Definition GetAgentDetail (c : Connection) : detail * Connection :=
  match agentDetail c with
  | None => (∅, c)
  | Some d =>
      let d := <["host_id" := VInt (HostID c)]> (<["tenant_id" := VInt (TenantID c)]> d) in
      (d, set_agentDetail (Some d) c)
  end.

Definition SetAgentDetail (d : detail) (c : Connection) : Connection := set_agentDetail (Some d) c.
Definition GetPluginDetail (name : string) (c : Connection) : detail := default ∅ (pluginDetail c !! name).
Definition SetPluginDetail (name : string) (d : detail) (c : Connection) : Connection :=
  set_pluginDetail (<[name := d]> (pluginDetail c)) c.
Definition GetPluginsList (c : Connection) : list detail := (range_kv "GetPluginsList" (pluginDetail c)).*2.
Definition GetEthInfoDetail (name : string) (c : Connection) : detail := default ∅ (ethInfoDetail c !! name).
Definition SetEthInfoDetail (name : string) (d : detail) (c : Connection) : Connection :=
  set_ethInfoDetail (<[name := d]> (ethInfoDetail c)) c.
Definition GetEthInfosList (c : Connection) : list detail := (range_kv "GetEthInfosList" (ethInfoDetail c)).*2.

(** [client.AgentExtraInfo], [client.ConfigMsg] and [pb.Command]. *)
Record AgentExtraInfo := mkExtra { Tags : string; PSMName : string; PSMPath : string }.

Record ConfigItem := mkConfigItem {
  Name : string;
  Type_ : string;
  Version : string;
  SHA256 : string;
  Signature : string;
  DownloadURL : list string;
  Detail : string;
}.

Record PluginTask := mkPluginTask { tName : string; tDataType : Z; tData : string; tToken : string }.

Record Command := mkCommand { AgentCtrl : Z; cTask : option PluginTask; cConfig : list ConfigItem }.

(** The pool: [tokens] is the number of values in [tokenChan]; [connPool] gives the
    location of a connection in [conns]. *)
Record GRPCPool := mkPool {
  conf : Config;
  connPool : gmap string nat;
  tokens : nat;
  confChan : chan string;
  taskChan : chan (gmap string string);
  taskList : list (gmap string string);
  extraInfoChan : chan string;
  extraInfoCache : gmap string AgentExtraInfo;
}.

Definition NewGRPCPool (config : Config) : GRPCPool :=
  mkPool config ∅ (PoolLength config) (make_chan (ChanLen config)) (make_chan (ChanLen config)) []
    (make_chan (ChanLen config)) ∅.

Definition set_connPool (m : gmap string nat) (g : GRPCPool) : GRPCPool :=
  mkPool (conf g) m (tokens g) (confChan g) (taskChan g) (taskList g) (extraInfoChan g) (extraInfoCache g).
Definition set_tokens (n : nat) (g : GRPCPool) : GRPCPool :=
  mkPool (conf g) (connPool g) n (confChan g) (taskChan g) (taskList g) (extraInfoChan g) (extraInfoCache g).
Definition set_confChan (c : chan string) (g : GRPCPool) : GRPCPool :=
  mkPool (conf g) (connPool g) (tokens g) c (taskChan g) (taskList g) (extraInfoChan g) (extraInfoCache g).
Definition set_taskChan (c : chan (gmap string string)) (g : GRPCPool) : GRPCPool :=
  mkPool (conf g) (connPool g) (tokens g) (confChan g) c (taskList g) (extraInfoChan g) (extraInfoCache g).
Definition set_taskList (l : list (gmap string string)) (g : GRPCPool) : GRPCPool :=
  mkPool (conf g) (connPool g) (tokens g) (confChan g) (taskChan g) l (extraInfoChan g) (extraInfoCache g).
Definition set_extraInfoChan (c : chan string) (g : GRPCPool) : GRPCPool :=
  mkPool (conf g) (connPool g) (tokens g) (confChan g) (taskChan g) (taskList g) c (extraInfoCache g).
Definition set_extraInfoCache (m : gmap string AgentExtraInfo) (g : GRPCPool) : GRPCPool :=
  mkPool (conf g) (connPool g) (tokens g) (confChan g) (taskChan g) (taskList g) (extraInfoChan g) m.

(** ** Tokens *)

Definition LoadToken (g : GRPCPool) : bool * GRPCPool :=
  match tokens g with
  | 0 => (false, g)
  | S n => (true, set_tokens n g)
  end.

(** [None]: the send blocks because all tokens are in the channel. *)
Definition ReleaseToken (g : GRPCPool) : option GRPCPool :=
  if decide (tokens g < PoolLength (conf g)) then Some (set_tokens (S (tokens g)) g) else None.

(** ** Connections *)

Definition GetCount (g : GRPCPool) : nat := size (connPool g).

Definition GetByID (agentID : string) (g : GRPCPool) : nat + string :=
  match connPool g !! agentID with
  | Some c => inl c
  | None => inr "agentID not found"
  end.

(** [Add] is two operations of the cache: the test, and the store with the
    notification. *)
Definition Add_test (agentID : string) (g : GRPCPool) : option string :=
  if decide (is_Some (connPool g !! agentID)) then Some "agentID conflict" else None.

Definition Add_set (agentID : string) (c : nat) (g : GRPCPool) : GRPCPool :=
  let g := set_connPool (<[agentID := c]> (connPool g)) g in
  set_extraInfoChan (send_or_drop agentID (extraInfoChan g)) g.

Definition Add (agentID : string) (c : nat) (g : GRPCPool) : GRPCPool * option string :=
  match Add_test agentID g with
  | Some err => (g, Some err)
  | None => (Add_set agentID c g, None)
  end.

Definition Delete (agentID : string) (g : GRPCPool) : GRPCPool :=
  set_connPool (delete agentID (connPool g)) g.

Definition GetList (g : GRPCPool) : list nat := (range_kv "GetList" (connPool g)).*2.

(** ** Channels *)

Definition PostLatestConfig (agentID : string) (g : GRPCPool) : GRPCPool * option string :=
  match try_send agentID (confChan g) with
  | Some ch => (set_confChan ch g, None)
  | None => (g, Some "confChan is full, please try later")
  end.

Definition PushTask2Manager (task : gmap string string) (g : GRPCPool) : GRPCPool * option string :=
  match try_send task (taskChan g) with
  | Some ch => (set_taskChan ch g, None)
  | None => (g, Some "taskChan is full, please try later")
  end.

(** What the sending goroutine of a connection does with a command: it does not take
    it in time; it takes it and reports (an error or none); or it does not report in
    time. *)
Inductive reply := NotTaken | Replied (err : option string) | NoReply.

Definition PostCommand (agentID : string) (cmd : Command) (r : nat → Command → reply) (g : GRPCPool)
    : option string :=
  match GetByID agentID g with
  | inr err => Some err
  | inl c =>
      match r c cmd with
      | NotTaken => Some "the sendPool of the agent is full"
      | Replied err => err
      | NoReply => Some "the command has been sent but get results timed out"
      end
  end.

(** [taken]: whether the goroutine takes the nil command in time. *)
Definition Close (agentID : string) (taken : nat → bool) (g : GRPCPool) : option string :=
  match GetByID agentID g with
  | inr err => Some err
  | inl c => if taken c then None else Some "the sendPool of the agent is full"
  end.

(** One round of [checkConfig]: the configuration the manager answers for the agent's
    details is posted to the agent.  Returns the command, if one is posted. *)
Definition checkConfig (remote : string → detail → list ConfigItem + string)
    (conns : gmap nat Connection) (g : GRPCPool) : option (GRPCPool * gmap nat Connection * option (nat * Command)) :=
  match try_recv (confChan g) with
  | None => None
  | Some (agentID, ch) =>
      let g := set_confChan ch g in
      match GetByID agentID g with
      | inr _ => Some (g, conns, None)
      | inl l =>
          match conns !! l with
          | None => Some (g, conns, None)
          | Some c =>
              let '(d, c) := GetAgentDetail c in
              let conns := <[l := c]> conns in
              match remote agentID d with
              | inr _ => Some (g, conns, None)
              | inl config =>
                  match GetByID agentID g with
                  | inl l => Some (g, conns, Some (l, mkCommand 0 None config))
                  | inr _ => Some (g, conns, None)
                  end
              end
          end
      end
  end.

(** [checkTask]: the next task is taken from the channel, or the timer has fired;
    returns what is posted to the manager. *)
Inductive task_event := TaskArrives | TimerFires.

Definition checkTask (ev : task_event) (g : GRPCPool) : option (GRPCPool * option (list (gmap string string))) :=
  match ev with
  | TaskArrives =>
      match try_recv (taskChan g) with
      | None => None
      | Some (task, ch) =>
          let g := set_taskList (taskList g ++ [task]) (set_taskChan ch g) in
          if decide (TaskCountWeight (conf g) ≤ length (taskList g))
          then Some (set_taskList [] g, Some (taskList g)) else Some (g, None)
      end
  | TimerFires =>
      if decide (length (taskList g) < 1) then Some (g, None)
      else Some (set_taskList [] g, Some (taskList g))
  end.

Definition GetExtraInfoByID (agentID : string) (g : GRPCPool) : option AgentExtraInfo :=
  extraInfoCache g !! agentID.

(** One round of [refreshExtraInfo] and of [loadExtraInfoWorker]. *)
Definition refreshExtraInfo (remote : list string → gmap string AgentExtraInfo + string) (g : GRPCPool)
    : GRPCPool :=
  match remote (range_kv "refreshExtraInfo" (connPool g)).*1 with
  | inl newCache => set_extraInfoCache newCache g
  | inr _ => g
  end.

Definition loadExtraInfoWorker (remote : list string → gmap string AgentExtraInfo + string) (g : GRPCPool)
    : option GRPCPool :=
  match try_recv (extraInfoChan g) with
  | None => None
  | Some (agentID, ch) =>
      let g := set_extraInfoChan ch g in
      match remote [agentID] with
      | inl tmp => Some (set_extraInfoCache
          (<[agentID := default (mkExtra "" "" "") (tmp !! agentID)]> (extraInfoCache g)) g)
      | inr _ => Some g
      end
  end.

(** ** The task loop *)

(** Running the loop: the events, and every batch that is posted. *)
Fixpoint run_tasks (evs : list task_event) (g : GRPCPool) : GRPCPool * list (list (gmap string string)) :=
  match evs with
  | [] => (g, [])
  | ev :: evs =>
      match checkTask ev g with
      | None => run_tasks evs g
      | Some (g, None) => run_tasks evs g
      | Some (g, Some batch) => let '(g, bs) := run_tasks evs g in (g, batch :: bs)
      end
  end.

(** The tasks not yet posted, oldest first. *)
Definition pending_tasks (g : GRPCPool) : list (gmap string string) := taskList g ++ chbuf (taskChan g).

Lemma checkTask_spec ev g g' out :
  1 ≤ TaskCountWeight (conf g) → length (taskList g) < TaskCountWeight (conf g) →
  checkTask ev g = Some (g', out) →
  conf g' = conf g ∧ length (taskList g') < TaskCountWeight (conf g) ∧
  pending_tasks g = default [] out ++ pending_tasks g' ∧
  (∀ b, out = Some b → 1 ≤ length b ≤ TaskCountWeight (conf g)).
Proof.
  intros Hw Hl. destruct ev; simpl.
  - destruct (try_recv (taskChan g)) as [[task ch]|] eqn:E; [|done].
    apply try_recv_Some in E as [Hb _]. case_decide as Hc; intros [= <- <-]; simpl in *; rewrite length_app in *;
      simpl in *; unfold pending_tasks; simpl; rewrite Hb.
    + split_and!; [done|lia|by rewrite <- app_assoc|]. intros b [= <-]. rewrite length_app. simpl. lia.
    + split_and!; [done|lia|by rewrite <- app_assoc|done].
  - case_decide as Hc; intros [= <- <-]; simpl.
    + done.
    + split_and!; [done|lia|done|]. intros b [= <-]. lia.
Qed.

(** The reports of finished tasks reach the manager complete, in order and in
    bounded batches: whatever the order of arrivals and timer ticks, what has been
    posted followed by what is still pending is what was pending at the start, and each
    post carries between 1 and [TaskCountWeight] reports. *)
Theorem tasks_complete (evs : list task_event) (g : GRPCPool)
    (Hw : 1 ≤ TaskCountWeight (conf g)) (Hl : length (taskList g) < TaskCountWeight (conf g)) :
  let '(g', batches) := run_tasks evs g in
  concat batches ++ pending_tasks g' = pending_tasks g ∧
  Forall (λ b, 1 ≤ length b ≤ TaskCountWeight (conf g)) batches.
Proof.
  revert g Hw Hl. induction evs as [|ev evs IH]; intros g Hw Hl; cbn [run_tasks]; [done|].
  destruct (checkTask ev g) as [[g1 out]|] eqn:E; [|by apply IH].
  destruct (checkTask_spec _ _ _ _ Hw Hl E) as (Hc & Hl1 & Hp & Hb).
  rewrite <- Hc in Hw, Hl1. specialize (IH g1 Hw Hl1). destruct out as [b|].
  - destruct (run_tasks evs g1) as [g' bs]. destruct IH as [IHp IHb]. rewrite Hc in IHb. split.
    + cbn [concat]. rewrite <- app_assoc, IHp. by rewrite Hp.
    + constructor; [by apply Hb|done].
  - destruct (run_tasks evs g1) as [g' bs]. rewrite Hc in IH. by rewrite Hp.
Qed.

End pool.

Lemma tasks_complete_witness :
  let g := set_taskChan (Chan 8 [{["token" := "a"]}; {["token" := "b"]}])
             (NewGRPCPool (mkConfig 4 8 2 2 10 2 240)) in
  let '(g', batches) := run_tasks [TaskArrives; TimerFires; TaskArrives] g in
  concat batches ++ pending_tasks g' = pending_tasks g.
Proof.
  pose proof (tasks_complete [TaskArrives; TimerFires; TaskArrives]
    (set_taskChan (Chan 8 [{["token" := "a"]}; {["token" := "b"]}]) (NewGRPCPool (mkConfig 4 8 2 2 10 2 240)))
    ltac:(simpl; lia) ltac:(simpl; lia)) as Ht.
  exact (proj1 Ht).
Defined.

End Pool.
