(* ===== verification/AgentCenter.v ===== *)
(** * The connection handler of the agent center

    Models [server/agent_center/grpctrans/grpc_handler/transfer_handler.go] and
    [rawdata_worker.go] over the pool of [Pool.v]: how an agent is admitted, the life
    of its stream among the others, and what becomes of the records it sends.  The
    manager's answer to the authentication request, the clock and the parser of
    floating-point numbers are arguments. *)

From Stdlib Require Import Ascii.
From S2P Require Import Prelude GoStrings Wire Bridge Pool.
From stdpp Require Import options.

Module AgentCenter.

(** ** Admission *)

(** The answer of the manager: no answer, a body that does not decode, or a status with
    tenant and host. *)
Inductive auth_resp := PostError (err : string) | BadBody | Answer (status tenantID hostID : Z).

(** [Proceed]: the agent is admitted for a tenant and host; [Return]: the handler
    returns the error (none is the gRPC status OK). *)
Inductive admission := Proceed (tenantID hostID : Z) | Return (err : option string).

(** The code between the first packet and [Add]; [peer] is the client's address. *)
Definition authenticate (peer : option string) (resp : auth_resp) : outcome admission :=
  match peer with
  | None => Panic "nil pointer dereference"
  | Some _ =>
      match resp with
      | PostError err => Ret (Return (Some err))
      | BadBody => Ret (Proceed 0 0)
      | Answer status tenantID hostID =>
          if decide (status = 200)%Z then Ret (Proceed tenantID hostID) else Ret (Return None)
      end
  end.

(** [strings.Split(addr, ":")[0]]. *)
Definition extIp (addr : string) : string := default "" (head (str_split ":" addr)).

(** ** The life of the streams

    Every stream runs [Transfer] in a goroutine of its own.  The phases are the points
    between the operations on the shared pool; the location of a stream's connection is
    the number of the stream. *)

Inductive phase :=
| Start
| Token
| First (agentID : string)
| Authed (agentID : string)
| Tested (agentID : string)
| Serving (agentID : string)
| Releasing
| Done.

#[export] Instance phase_eq_dec : EqDecision phase.
Proof. solve_decision. Defined.

(** The phases between [LoadToken] and [ReleaseToken]. *)
Definition holds (p : phase) : Prop := p ≠ Start ∧ p ≠ Done.

#[export] Instance holds_dec p : Decision (holds p).
Proof. unfold holds. apply _. Defined.

Record sys := mkSys { pool : Pool.GRPCPool; streams : gmap nat phase }.

(** What a stream can do in its phase, and the pool after it. *)
Inductive act : nat → phase → Pool.GRPCPool → phase → Pool.GRPCPool → Prop :=
| act_token i g g' :
    Pool.LoadToken g = (true, g') → act i Start g Token g'
| act_no_token i g g' :
    Pool.LoadToken g = (false, g') → act i Start g Done g'
| act_recv i g agentID : act i Token g (First agentID) g
| act_recv_error i g : act i Token g Releasing g
| act_auth i g agentID peer resp t h :
    authenticate peer resp = Ret (Proceed t h) → act i (First agentID) g (Authed agentID) g
| act_refuse i g agentID peer resp err :
    authenticate peer resp = Ret (Return err) → act i (First agentID) g Releasing g
| act_test i g agentID :
    Pool.Add_test agentID g = None → act i (Authed agentID) g (Tested agentID) g
| act_conflict i g agentID err :
    Pool.Add_test agentID g = Some err → act i (Authed agentID) g Releasing g
| act_set i g agentID :
    act i (Tested agentID) g (Serving agentID) (Pool.Add_set agentID i g)
| act_end i g agentID :
    act i (Serving agentID) g Releasing (Pool.Delete agentID g)
| act_release i g g' :
    Pool.ReleaseToken g = Some g' → act i Releasing g Done g'.

Inductive step : sys → sys → Prop :=
| step_new s i : streams s !! i = None → step s (mkSys (pool s) (<[i := Start]> (streams s)))
| step_act s i p p' g' :
    streams s !! i = Some p → act i p (pool s) p' g' →
    step s (mkSys g' (<[i := p']> (streams s))).

Definition initial (config : Pool.Config) (s : sys) : Prop :=
  s = mkSys (Pool.NewGRPCPool config) ∅.

(** The streams that hold a token. *)
Definition holders (s : sys) : gmap nat phase := filter (λ kp, holds kp.2) (streams s).

Definition sys_inv (config : Pool.Config) (s : sys) : Prop :=
  Pool.conf (pool s) = config ∧
  Pool.tokens (pool s) + size (holders s) = Pool.PoolLength config ∧
  ∀ id c, Pool.connPool (pool s) !! id = Some c → streams s !! c = Some (Serving id).

(** How the number of holders changes with a phase. *)
Lemma holders_insert s i p p' g' :
  streams s !! i = Some p →
  size (holders (mkSys g' (<[i := p']> (streams s)))) + (if decide (holds p) then 1 else 0) =
  size (holders s) + (if decide (holds p') then 1 else 0).
Proof.
  intros Hi. unfold holders. cbn [streams]. set (m := streams s) in *.
  assert (filter (λ kp, holds kp.2) (<[i:=p']> m) =
    (if decide (holds p') then <[i:=p']> (filter (λ kp, holds kp.2) (delete i m))
     else filter (λ kp, holds kp.2) (delete i m))) as ->.
  { rewrite <- insert_delete_eq. case_decide.
    - by rewrite map_filter_insert_True.
    - rewrite map_filter_insert_False by done. by rewrite delete_delete_eq. }
  assert (filter (λ kp, holds kp.2) m =
    (if decide (holds p) then <[i:=p]> (filter (λ kp, holds kp.2) (delete i m))
     else filter (λ kp, holds kp.2) (delete i m))) as ->.
  { rewrite <- (insert_delete_id m i p Hi) at 1. case_decide.
    - by rewrite map_filter_insert_True.
    - rewrite map_filter_insert_False by done. by rewrite delete_delete_eq. }
  assert (filter (λ kp, holds kp.2) (delete i m) !! i = None) as Hnone.
  { apply map_lookup_filter_None. left. apply lookup_delete_eq. }
  repeat case_decide; rewrite ?map_size_insert_None by done; lia.
Qed.

Lemma act_conf i p g p' g' : act i p g p' g' → Pool.conf g' = Pool.conf g.
Proof.
  inversion 1; subst; try done.
  - unfold Pool.LoadToken in *. destruct (Pool.tokens g); simplify_eq. done.
  - unfold Pool.LoadToken in *. destruct (Pool.tokens g); simplify_eq. done.
  - unfold Pool.ReleaseToken in *. case_decide; simplify_eq. done.
Qed.

(** Tokens move with the phase. *)
Lemma act_tokens i p g p' g' :
  act i p g p' g' →
  Pool.tokens g' + (if decide (holds p') then 1 else 0) = Pool.tokens g + (if decide (holds p) then 1 else 0).
Proof.
  inversion 1; subst;
    repeat first [rewrite (decide_True (P := holds _)) by (split; done)
                 |rewrite (decide_False (P := holds _)) by (intros [? ?]; done)]; try done.
  - unfold Pool.LoadToken in *. destruct (Pool.tokens g) eqn:E; simplify_eq; simpl; lia.
  - unfold Pool.LoadToken in *. destruct (Pool.tokens g) eqn:E; simplify_eq; simpl; lia.
  - unfold Pool.ReleaseToken in *. case_decide; simplify_eq. simpl. lia.
Qed.

(** Entries of the pool belong to serving streams. *)
Lemma act_entries i p g p' g' (m : gmap nat phase) :
  act i p g p' g' → m !! i = Some p →
  (∀ id c, Pool.connPool g !! id = Some c → m !! c = Some (Serving id)) →
  (∀ id c, Pool.connPool g' !! id = Some c → <[i:=p']> m !! c = Some (Serving id)).
Proof.
  intros Hact Hi Hm id c.
  assert (Pool.connPool g' = Pool.connPool g → (∀ id', p ≠ Serving id') →
    Pool.connPool g' !! id = Some c → <[i:=p']> m !! c = Some (Serving id)) as Hsame.
  { intros E Hp. rewrite E. intros Hc. apply Hm in Hc. rewrite lookup_insert_ne; [done|].
    intros ->. rewrite Hi in Hc. naive_solver. }
  inversion Hact; subst; try (apply Hsame; [done|by intros ? ?]).
  - apply Hsame; [|done]. unfold Pool.LoadToken in *. destruct (Pool.tokens g); simplify_eq. done.
  - apply Hsame; [|done]. unfold Pool.LoadToken in *. destruct (Pool.tokens g); simplify_eq. done.
  - simpl. destruct (decide (id = agentID)) as [->|Hne].
    + rewrite lookup_insert_eq. intros [= <-]. by rewrite lookup_insert_eq.
    + rewrite lookup_insert_ne by done. intros Hc. apply Hm in Hc. rewrite lookup_insert_ne; [done|].
      intros ->. congruence.
  - simpl. intros [Hne Hc]%lookup_delete_Some. apply Hm in Hc. rewrite lookup_insert_ne; [done|].
    intros ->. congruence.
  - apply Hsame; [|done]. unfold Pool.ReleaseToken in *. case_decide; simplify_eq. done.
Qed.

Lemma sys_inv_step config s s' : sys_inv config s → step s s' → sys_inv config s'.
Proof.
  intros (Hconf & Htok & Hent). inversion 1 as [s0 i Hi|s0 i p p' g' Hi Hact]; subst; split_and!; cbn [pool streams].
  - done.
  - rewrite <- Htok. f_equal. unfold holders. cbn [streams].
    rewrite map_filter_insert_False by (intros [? _]; done). by rewrite delete_id.
  - intros id c Hc. apply Hent in Hc. rewrite lookup_insert_ne; [done|]. congruence.
  - by rewrite (act_conf _ _ _ _ _ Hact).
  - pose proof (holders_insert s i p p' g' Hi). pose proof (act_tokens _ _ _ _ _ Hact). lia.
  - by eapply act_entries.
Qed.

Lemma sys_inv_initial config s : initial config s → sys_inv config s.
Proof.
  intros ->. split_and!; [done|simpl; unfold holders; simpl; rewrite map_filter_empty, map_size_empty; lia|].
  intros id c Hc. simpl in Hc. by rewrite lookup_empty in Hc.
Qed.

(** The pool never counts more connections than streams hold tokens. *)
Lemma entries_bounded config s : sys_inv config s → Pool.GetCount (pool s) ≤ size (holders s).
Proof.
  intros (_ & _ & Hent). unfold Pool.GetCount.
  rewrite <- (length_map_to_list (Pool.connPool (pool s))), <- (length_map_to_list (holders s)).
  rewrite <- (length_fmap snd (map_to_list (Pool.connPool (pool s)))),
    <- (length_fmap fst (map_to_list (holders s))).
  apply submseteq_length, NoDup_submseteq.
  - apply NoDup_fmap_2_strong; [|apply NoDup_map_to_list].
    intros [id1 c1] [id2 c2] H1%elem_of_map_to_list H2%elem_of_map_to_list E. simpl in E. subst c2.
    apply Hent in H1, H2. congruence.
  - intros c ([id c'] & -> & Hin%elem_of_map_to_list)%list_elem_of_fmap. simpl.
    apply list_elem_of_fmap. exists (c', Serving id). split; [done|].
    apply elem_of_map_to_list, map_lookup_filter_Some. split; [by apply Hent|done].
Qed.

(** [C20] Tokens are never lost or made up: in every reachable state, under every
    interleaving of any number of streams, the tokens in the channel and the streams
    that hold one add up to the length of the pool; so the pool never serves or counts
    more connections than configured, every entry belongs to a stream that is being
    served, and returning a token never blocks. *)
Theorem tokens_conserved (config : Pool.Config) (s : sys) (Hr : reachable (initial config) step s) :
  Pool.tokens (pool s) + size (holders s) = Pool.PoolLength config ∧
  Pool.GetCount (pool s) ≤ Pool.PoolLength config ∧
  (∀ id c, Pool.connPool (pool s) !! id = Some c → streams s !! c = Some (Serving id)) ∧
  (∀ i, streams s !! i = Some Releasing → is_Some (Pool.ReleaseToken (pool s))).
Proof.
  assert (sys_inv config s) as Hinv.
  { eapply (reachable_invariant (initial config) step (sys_inv config)); [..|exact Hr].
    - apply sys_inv_initial.
    - intros. by eapply sys_inv_step. }
  pose proof (entries_bounded config s Hinv) as Hb. destruct Hinv as (Hc & Ht & He).
  split_and!; [done|lia|done|]. intros i Hi. unfold Pool.ReleaseToken. rewrite Hc.
  rewrite decide_True; [eauto|].
  assert (1 ≤ size (holders s)); [|lia].
  assert (holders s ≠ ∅) as Hne.
  { intros E. assert (holders s !! i = Some Releasing) as Hl
      by (apply map_lookup_filter_Some; split; [done|split; done]).
    rewrite E in Hl. by rewrite lookup_empty in Hl. }
  destruct (decide (size (holders s) = 0)) as [E|]; [|lia]. by apply map_size_empty_inv in E.
Qed.

(** ** Two streams of one agent *)

(** The state after stream [i] has moved from its phase. *)
Lemma reach_act config s i p p' g' :
  reachable (initial config) step s → streams s !! i = Some p → act i p (pool s) p' g' →
  reachable (initial config) step (mkSys g' (<[i := p']> (streams s))).
Proof. intros Hs Hi Ha. eapply reach_step; [exact Hs|]. by eapply step_act. Qed.

Lemma reach_new config s i :
  reachable (initial config) step s → streams s !! i = None →
  reachable (initial config) step (mkSys (pool s) (<[i := Start]> (streams s))).
Proof. intros Hs Hi. eapply reach_step; [exact Hs|]. by apply step_new. Qed.

(** A pool of two connections. *)
Definition small : Pool.Config := Pool.mkConfig 2 8 2 2 10 100 240.

(** [Add] does not keep agent IDs unique: it tests and stores in two steps, so two
    streams that present the same ID at the same time are both served, and when the
    first of them ends it removes the entry of the second, which stays connected but is
    no longer known to the pool. *)
Theorem agent_served_twice :
  ∃ s s', reachable (initial small) step s ∧ step s s' ∧
    streams s !! 0 = Some (Serving "a") ∧ streams s !! 1 = Some (Serving "a") ∧
    Pool.connPool (pool s) !! "a" = Some 1 ∧
    streams s' !! 1 = Some (Serving "a") ∧ Pool.connPool (pool s') !! "a" = None.
Proof.
  assert (authenticate (Some "10.0.0.1:9") (Answer 200 7 8) = Ret (Proceed 7 8)) as Hauth by done.
  assert (reachable (initial small) step (mkSys (Pool.NewGRPCPool small) ∅)) as Hr
    by (by apply reach_init).
  apply (reach_new _ _ 0) in Hr; [|done].
  apply (reach_new _ _ 1) in Hr; [|done].
  eapply (reach_act _ _ 0) in Hr; [|done|by eapply act_token].
  eapply (reach_act _ _ 1) in Hr; [|done|by eapply act_token].
  eapply (reach_act _ _ 0) in Hr; [|done|apply (act_recv _ _ "a")].
  eapply (reach_act _ _ 1) in Hr; [|done|apply (act_recv _ _ "a")].
  eapply (reach_act _ _ 0) in Hr; [|done|eapply act_auth; exact Hauth].
  eapply (reach_act _ _ 1) in Hr; [|done|eapply act_auth; exact Hauth].
  eapply (reach_act _ _ 0) in Hr; [|done|by apply act_test].
  eapply (reach_act _ _ 1) in Hr; [|done|by apply act_test].
  eapply (reach_act _ _ 0) in Hr; [|done|by apply act_set].
  eapply (reach_act _ _ 1) in Hr; [|done|by apply act_set].
  match type of Hr with reachable _ _ ?s => exists s end.
  eexists. split; [exact Hr|]. split; [eapply (step_act _ 0); [done|apply act_end]|]. done.
Qed.

(** What the manager's answer to the authentication request leads to: only status
    200 and an undecodable body admit the agent, the latter as tenant 0 and host 0; any
    other status ends the stream with the gRPC status OK; and a missing client address
    panics. *)
Theorem admission_cases (peer : option string) (resp : auth_resp) :
  match authenticate peer resp with
  | Ret (Proceed t h) => is_Some peer ∧ (resp = Answer 200 t h ∨ resp = BadBody ∧ t = 0%Z ∧ h = 0%Z)
  | Ret (Return (Some err)) => is_Some peer ∧ resp = PostError err
  | Ret (Return None) => is_Some peer ∧ ∃ status t h, resp = Answer status t h ∧ status ≠ 200%Z
  | Panic _ => peer = None
  end.
Proof.
  unfold authenticate. destruct peer as [a|]; [|done].
  destruct resp as [err| |status t h]; [eauto|eauto 6|].
  case_decide as Hs; [subst; eauto|]. split; [eauto|]. by exists status, t, h.
Qed.

(** ** Records *)

Record Record_ := mkRecord { DataType : Z; Timestamp : Z; Body : bytes }.

(** [pb.RawData]; [None] is a nil list. *)
Record RawData := mkRawData {
  Data : list Record_;
  AgentID : string;
  IntranetIPv4 : option (list string);
  ExtranetIPv4 : option (list string);
  IntranetIPv6 : option (list string);
  ExtranetIPv6 : option (list string);
  Hostname : string;
  Version : string;
  Product : string;
}.

Record MQData := mkMQData {
  mqDataType : Z;
  mqAgentTime : Z;
  mqBody : bytes;
  mqAgentID : string;
  mqIntranetIPv4 : string;
  mqExtranetIPv4 : string;
  mqIntranetIPv6 : string;
  mqExtranetIPv6 : string;
  mqHostname : string;
  mqVersion : string;
  mqProduct : string;
  mqTenantID : Z;
  mqHostID : Z;
  mqSvrTime : Z;
  mqPSMName : string;
  mqPSMPath : string;
  mqTag : string;
}.

Section rawdata.
Context {Fl : Type} `{Ranger}.
(** [strconv.ParseFloat], without NaN and the infinities. *)
Context (parse_float : string → option Fl).
Local Abbreviation Connection := (Pool.Connection (Fl:=Fl)).
Local Abbreviation detail := (gmap string (Pool.dval Fl)).

(** [parseRecord]: [item.Fields] of the decoded body.  The map is nil when the body has
    no field, which is when it is empty here. *)
Definition parseRecord (r : Record_) : gmap string string + error :=
  match Bridge.Payload_Unmarshal (Body r) with
  | inl p => inl (Bridge.Fields p)
  | inr e => inr e
  end.

(** A field of a heartbeat: a number if it parses as one and is not kept as it is. *)
Definition field_value (keep : list string) (k v : string) : Pool.dval Fl :=
  if decide (k ∈ keep) then Pool.VString v
  else match parse_float v with None => Pool.VString v | Some f => Pool.VFloat f end.

Definition fields_detail (tag : string) (keep : list string) (hb : gmap string string) : detail :=
  foldl (λ d '(k, v), <[k := field_value keep k v]> d) ∅ (range_kv tag hb).

Definition agent_keep : list string :=
  ["platform_version"; "version"; "host_serial"; "host_id"; "host_model"; "host_vendor"; "cpu_name"].

Definition ips (l : option (list string)) : Pool.dval Fl := Pool.VList (default [] l).

Definition heartbeat_detail (hb : gmap string string) (req : RawData) (c : Connection) (now : Z) : detail :=
  let d := fields_detail "parseAgentHeartBeat" agent_keep hb in
  let d := <["agent_id" := Pool.VString (AgentID req)]> d in
  let d := <["tenant_id" := Pool.VInt (Pool.TenantID c)]> d in
  let d := <["host_id" := Pool.VInt (Pool.HostID c)]> d in
  let d := <["agent_addr" := Pool.VString (Pool.SourceAddr c)]> d in
  let d := <["create_at" := Pool.VInt (Pool.CreateAt c)]> d in
  let d := <["intranet_ipv4" := ips (IntranetIPv4 req)]> d in
  let d := <["extranet_ipv4" := ips (ExtranetIPv4 req)]> d in
  let d := <["intranet_ipv6" := ips (IntranetIPv6 req)]> d in
  let d := <["extranet_ipv6" := ips (ExtranetIPv6 req)]> d in
  let d := <["version" := Pool.VString (Version req)]> d in
  let d := <["hostname" := Pool.VString (Hostname req)]> d in
  let d := <["product" := Pool.VString (Product req)]> d in
  <["last_heartbeat_time" := Pool.VInt now]> d.

Definition parseAgentHeartBeat (r : Record_) (req : RawData) (now : Z) (c : Connection) (g : Pool.GRPCPool)
    : Connection * Pool.GRPCPool :=
  match parseRecord r with
  | inr _ => (c, g)
  | inl hb =>
      let d := heartbeat_detail hb req c now in
      let '(old, c) := Pool.GetAgentDetail c in
      if decide (size old = 0) then
        (Pool.SetAgentDetail d c, (Pool.PostLatestConfig (AgentID req) g).1)
      else (Pool.SetAgentDetail d c, g)
  end.

Definition parsePluginHeartBeat (r : Record_) (now : Z) (c : Connection) : Connection :=
  match parseRecord r with
  | inr _ => c
  | inl data =>
      match data !! "name" with
      | None => c
      | Some pluginName =>
          let d := fields_detail "parsePluginHeartBeat" ["pversion"] data in
          Pool.SetPluginDetail pluginName (<["last_heartbeat_time" := Pool.VInt now]> d) c
      end
  end.

Definition parseEthInfo (r : Record_) (c : Connection) : Connection :=
  match parseRecord r with
  | inr _ => c
  | inl data =>
      let '(ethName, d) := foldl (λ '(n, d) '(k, v),
          (if decide (k = "eth_name") then v else n, <[k := Pool.VString v]> d)) ("", ∅)
        (range_kv "parseEthInfo" data) in
      Pool.SetEthInfoDetail ethName d c
  end.

Definition task_types : list Z := [2001; 2003; 6000; 5100; 5101; 8010]%Z.
Definition log_types : list Z := [1010; 1011]%Z.

Definition mq_message (req : RawData) (svrTime : Z) (c : Connection) (extra : option Pool.AgentExtraInfo)
    (r : Record_) : MQData :=
  let join l := str_join "," (default [] l) in
  mkMQData (DataType r) (Timestamp r) (Body r) (AgentID req) (join (IntranetIPv4 req))
    (join (ExtranetIPv4 req)) (join (IntranetIPv6 req)) (join (ExtranetIPv6 req)) (Hostname req)
    (Version req) (Product req) (Pool.TenantID c) (Pool.HostID c) svrTime "" ""
    (match extra with Some e => Pool.Tags e | None => "" end).

(** One record: the connection, the pool and the messages to Kafka after it.  Storing
    into a nil map panics. *)
Definition handle_record (req : RawData) (now : Z) (extra : option Pool.AgentExtraInfo)
    (r : Record_) (c : Connection) (g : Pool.GRPCPool) (kafka : list MQData)
    : outcome (Connection * Pool.GRPCPool * list MQData) :=
  let mqMsg := mq_message req now c extra r in
  let send c g := Ret (c, g, kafka ++ [mqMsg]) in
  if decide (DataType r = 1000)%Z then
    let '(c, g) := parseAgentHeartBeat r req now c g in send c g
  else if decide (DataType r = 1001)%Z then send (parsePluginHeartBeat r now c) g
  else if decide (DataType r = 1002)%Z then send (parseEthInfo r c) g
  else if decide (DataType r ∈ task_types) then
    match parseRecord r with
    | inr _ => Ret (c, g, kafka)
    | inl item =>
        if decide (item = ∅) then Panic "assignment to entry in nil map"
        else send c (Pool.PushTask2Manager (<["data_type" := itoa (DataType r)]> item) g).1
    end
  else if decide (DataType r ∈ log_types) then
    match parseRecord r with inr _ => Ret (c, g, kafka) | inl _ => send c g end
  else send c g.

Fixpoint handle_records (req : RawData) (now : Z) (extra : option Pool.AgentExtraInfo)
    (rs : list Record_) (c : Connection) (g : Pool.GRPCPool) (kafka : list MQData)
    : outcome (Connection * Pool.GRPCPool * list MQData) :=
  match rs with
  | [] => Ret (c, g, kafka)
  | r :: rs =>
      let! (c, g, kafka) := handle_record req now extra r c g kafka in
      handle_records req now extra rs c g kafka
  end.

Definition handleRawData (req : RawData) (now : Z) (c : Connection) (g : Pool.GRPCPool) (kafka : list MQData)
    : outcome (Connection * Pool.GRPCPool * list MQData) :=
  handle_records req now (Pool.GetExtraInfoByID (AgentID req) g) (Data req) c g kafka.

(** ** What becomes of the records *)

Definition undecodable (r : Record_) : bool :=
  match parseRecord r with inr _ => true | inl _ => false end.

(** Task reports and logs whose body does not decode are not forwarded. *)
Definition dropped (r : Record_) : bool :=
  bool_decide (DataType r ∈ task_types ++ log_types) && undecodable r.

(** A task report whose body decodes to no field at all. *)
Definition empty_task (r : Record_) : Prop := DataType r ∈ task_types ∧ parseRecord r = inl ∅.

#[local] Instance empty_task_dec r : Decision (empty_task r).
Proof. unfold empty_task. apply _. Defined.

Lemma task_types_other n : n ∈ task_types → n ≠ 1000%Z ∧ n ≠ 1001%Z ∧ n ≠ 1002%Z.
Proof.
  intros Hn. repeat (apply elem_of_cons in Hn as [->|Hn]; [done|]). by apply elem_of_nil in Hn.
Qed.

(** What no record changes of a connection. *)
Definition same_owner (c c' : Connection) : Prop :=
  Pool.TenantID c' = Pool.TenantID c ∧ Pool.HostID c' = Pool.HostID c ∧
  Pool.SourceAddr c' = Pool.SourceAddr c ∧ Pool.CreateAt c' = Pool.CreateAt c.

Lemma mq_message_owner req now c c' extra r :
  same_owner c c' → mq_message req now c' extra r = mq_message req now c extra r.
Proof. intros (Ht & Hh & _). unfold mq_message. by rewrite Ht, Hh. Qed.

Lemma parseAgentHeartBeat_owner r req now c g :
  same_owner c (parseAgentHeartBeat r req now c g).1.
Proof.
  unfold parseAgentHeartBeat, Pool.GetAgentDetail. destruct (parseRecord r); [|done].
  destruct (Pool.agentDetail c); case_decide; done.
Qed.

Lemma handle_record_spec req now extra r c g kafka :
  ¬ empty_task r →
  ∃ c' g', handle_record req now extra r c g kafka =
      Ret (c', g', kafka ++ (if dropped r then [] else [mq_message req now c extra r])) ∧ same_owner c c'.
Proof.
  intros He. unfold handle_record, dropped, undecodable.
  destruct (decide (DataType r = 1000)%Z) as [E|H1].
  { assert (bool_decide (DataType r ∈ task_types ++ log_types) = false) as -> by (by rewrite E).
    destruct (parseAgentHeartBeat r req now c g) as [c' g'] eqn:Eh. exists c', g'. split; [done|].
    pose proof (parseAgentHeartBeat_owner r req now c g) as Ho. by rewrite Eh in Ho. }
  destruct (decide (DataType r = 1001)%Z) as [E|H2].
  { assert (bool_decide (DataType r ∈ task_types ++ log_types) = false) as -> by (by rewrite E).
    eexists _, _. split; [done|]. unfold parsePluginHeartBeat. destruct (parseRecord r) as [d|]; [|done].
    by destruct (d !! "name"). }
  destruct (decide (DataType r = 1002)%Z) as [E|H3].
  { assert (bool_decide (DataType r ∈ task_types ++ log_types) = false) as -> by (by rewrite E).
    eexists _, _. split; [done|]. unfold parseEthInfo. destruct (parseRecord r) as [d|]; [|done].
    by destruct (foldl _ _ _). }
  destruct (decide (DataType r ∈ task_types)) as [Ht|Ht].
  { rewrite (bool_decide_eq_true_2 (_ ∈ _)) by (apply elem_of_app; by left).
    destruct (parseRecord r) as [item|e] eqn:Ep; simpl.
    - rewrite decide_False by (intros ->; by apply He). by eexists _, _.
    - rewrite app_nil_r. by eexists _, _. }
  destruct (decide (DataType r ∈ log_types)) as [Hl|Hl].
  { rewrite (bool_decide_eq_true_2 (_ ∈ _)) by (apply elem_of_app; by right).
    destruct (parseRecord r) as [item|e]; simpl; rewrite ?app_nil_r; by eexists _, _. }
  rewrite (bool_decide_eq_false_2 (_ ∈ _)) by (rewrite elem_of_app; tauto). by eexists _, _.
Qed.

Lemma same_owner_trans c1 c2 c3 : same_owner c1 c2 → same_owner c2 c3 → same_owner c1 c3.
Proof. intros (? & ? & ? & ?) (? & ? & ? & ?). split_and!; congruence. Qed.

Lemma handleRawData_spec req now c g kafka :
  (∀ r, r ∈ Data req → ¬ empty_task r) →
  ∃ c' g', handleRawData req now c g kafka =
      Ret (c', g', kafka ++ (mq_message req now c (Pool.GetExtraInfoByID (AgentID req) g) <$>
                             filter (λ r, dropped r = false) (Data req))) ∧
    same_owner c c'.
Proof.
  intros Hsafe. unfold handleRawData. set (extra := Pool.GetExtraInfoByID (AgentID req) g). clearbody extra.
  revert c g kafka. induction (Data req) as [|r rs IH]; intros c g kafka; cbn [handle_records].
  { exists c, g. rewrite app_nil_r. done. }
  destruct (handle_record_spec req now extra r c g kafka) as (c1 & g1 & -> & Ho1); [apply Hsafe; left|].
  cbn [obind]. destruct (IH ltac:(intros; apply Hsafe; by right) c1 g1
    (kafka ++ (if dropped r then [] else [mq_message req now c extra r]))) as (c2 & g2 & -> & Ho2).
  exists c2, g2. split; [|by eapply same_owner_trans]. do 2 f_equal. rewrite <- app_assoc. f_equal.
  rewrite filter_cons. rewrite (list_fmap_ext (mq_message req now c1 extra) (mq_message req now c extra))
    by (intros; by apply mq_message_owner).
  by destruct (dropped r).
Qed.

(** Every record an agent sends is passed on to Kafka once, in order, under the
    tenant and host the connection was admitted for, with the exception of task reports
    and logs that do not decode; no record changes the owner of the connection. *)
Theorem records_forwarded (req : RawData) (now : Z) (c : Connection) (g : Pool.GRPCPool) (kafka : list MQData)
    (Hsafe : ∀ r, r ∈ Data req → ¬ empty_task r) :
  ∃ c' g', handleRawData req now c g kafka =
      Ret (c', g', kafka ++ (mq_message req now c (Pool.GetExtraInfoByID (AgentID req) g) <$>
                             filter (λ r, dropped r = false) (Data req))) ∧
    same_owner c c'.
Proof. by apply handleRawData_spec. Qed.

(** The reports among some records. *)
Definition task_report (r : Record_) : option (gmap string string) :=
  if decide (DataType r ∈ task_types) then
    match parseRecord r with inl item => Some (<["data_type" := itoa (DataType r)]> item) | inr _ => None end
  else None.

(** Task reports that find room in the channel are queued for the manager in order, whatever
    other records there are between them, except heartbeats. *)
Lemma handle_records_tasks req now extra rs c g kafka :
  Forall (λ r, DataType r ∉ [1000; 1001; 1002]%Z ∧
    (DataType r ∈ task_types → ∃ item, parseRecord r = inl item ∧ item ≠ ∅)) rs →
  length (chbuf (Pool.taskChan g)) + length (omap task_report rs) ≤ chcap (Pool.taskChan g) →
  ∃ g' kafka', handle_records req now extra rs c g kafka = Ret (c, g', kafka') ∧
    Pool.conf g' = Pool.conf g ∧ Pool.taskList g' = Pool.taskList g ∧
    chbuf (Pool.taskChan g') = chbuf (Pool.taskChan g) ++ omap task_report rs.
Proof.
  intros Hall. revert g kafka. induction Hall as [|r rs (Hhb & Hp) Hall IH]; intros g kafka Hroom.
  { exists g, kafka. cbn [handle_records omap list_omap]. by rewrite app_nil_r. }
  change (omap task_report (r :: rs)) with (match task_report r with Some y => y :: omap task_report rs | None => omap task_report rs end) in *.
  cbn [handle_records]. unfold handle_record at 1.
  rewrite !not_elem_of_cons in Hhb. destruct Hhb as (? & ? & ? & _). rewrite !decide_False by done.
  unfold task_report in Hroom |- *. fold task_report in Hroom |- *.
  destruct (decide (DataType r ∈ task_types)) as [Ht|Ht].
  - destruct (Hp Ht) as (item & Ei & Hi). rewrite Ei in Hroom |- *. cbn [length] in Hroom. rewrite decide_False by done. cbn [obind].
    unfold Pool.PushTask2Manager, try_send. rewrite decide_True by lia. cbn [fst].
    match goal with |- context [handle_records _ _ _ _ _ ?g1 ?k] => destruct (IH g1 k) as (g' & k' & -> & Hc & Hl & Hb) end.
    { simpl. rewrite length_app. simpl. lia. }
    exists g', k'. split_and!; [done..|]. rewrite Hb. simpl. by rewrite <- app_assoc.
  - case_decide; [destruct (parseRecord r)|]; cbn [obind]; by apply IH.
Qed.

(** A task report with an empty body takes the agent center down: its field map is
    nil and the handler stores into it, so the goroutine of the stream panics. *)
Theorem empty_task_panics (req : RawData) (now : Z) (c : Connection) (g : Pool.GRPCPool)
    (kafka : list MQData) (r : Record_)
    (Hin : r ∈ Data req) (Htype : DataType r ∈ task_types) (Hbody : Body r = []) :
  panics (handleRawData req now c g kafka).
Proof.
  assert (parseRecord r = inl ∅) as Hp by (unfold parseRecord; rewrite Hbody; done).
  unfold handleRawData. generalize (Pool.GetExtraInfoByID (AgentID req) g). intros extra.
  revert c g kafka. induction (Data req) as [|r' rs IH]; intros c g kafka; [by apply elem_of_nil in Hin|].
  cbn [handle_records]. destruct (decide (empty_task r')) as [He|He].
  - unfold handle_record. destruct He as [Ht Hpr].
    destruct (task_types_other _ Ht) as (? & ? & ?). rewrite !decide_False by done.
    rewrite decide_True by done. rewrite Hpr, decide_True by done. by eexists.
  - destruct (handle_record_spec req now extra r' c g kafka He) as (c1 & g1 & -> & _). cbn [obind].
    apply elem_of_cons in Hin as [->|Hin]; [by destruct He|]. by apply IH.
Qed.

(** A heartbeat of an agent replaces its details, and the first one on a
    connection asks for its configuration, unless the queue is full.  The identity in
    the details is the server's: agent, tenant, host, address and version come from the
    packet and the connection, whatever fields the agent sends. *)
Theorem heartbeat_effect (r : Record_) (req : RawData) (now : Z) (c : Connection) (g : Pool.GRPCPool)
    (hb : gmap string string) (Hp : parseRecord r = inl hb) :
  let '(c', g') := parseAgentHeartBeat r req now c g in
  ∃ d, Pool.agentDetail c' = Some d ∧ same_owner c c' ∧
    d !! "agent_id" = Some (Pool.VString (AgentID req)) ∧
    d !! "tenant_id" = Some (Pool.VInt (Pool.TenantID c)) ∧
    d !! "host_id" = Some (Pool.VInt (Pool.HostID c)) ∧
    d !! "agent_addr" = Some (Pool.VString (Pool.SourceAddr c)) ∧
    d !! "version" = Some (Pool.VString (Version req)) ∧
    d !! "last_heartbeat_time" = Some (Pool.VInt now) ∧
    Pool.confChan g' =
      match Pool.agentDetail c with
      | None => send_or_drop (AgentID req) (Pool.confChan g)
      | Some _ => Pool.confChan g
      end.
Proof.
  pose proof (parseAgentHeartBeat_owner r req now c g) as Ho.
  destruct (parseAgentHeartBeat r req now c g) as [c' g'] eqn:E. simpl in Ho.
  unfold parseAgentHeartBeat in E. rewrite Hp in E.
  assert (∃ d, d = heartbeat_detail hb req c now) as [d Hd] by eauto. rewrite <- Hd in E.
  exists d. unfold Pool.GetAgentDetail in E.
  assert (Pool.agentDetail c' = Some d ∧ Pool.confChan g' =
      match Pool.agentDetail c with
      | None => send_or_drop (AgentID req) (Pool.confChan g)
      | Some _ => Pool.confChan g end) as [Hc Hg].
  { destruct (Pool.agentDetail c) as [old|].
    - rewrite decide_False in E; [by injection E as <- <-|].
      rewrite map_size_ne_0_lookup. exists "host_id". rewrite lookup_insert_eq. eauto.
    - rewrite decide_True in E by apply map_size_empty. injection E as <- <-. split; [done|].
      unfold Pool.PostLatestConfig, send_or_drop. by destruct (try_send _ _). }
  split_and!; try done; subst d; unfold heartbeat_detail;
    repeat (rewrite lookup_insert_ne by done); apply lookup_insert_eq.
Qed.

End rawdata.

(** The address of an IPv6 client is cut at its first colon. *)
Example extIp_ipv6 : extIp "[2001:db8::1]:50052" = "[2001".
Proof. reflexivity. Qed.

(** ** Instances *)

Lemma tokens_conserved_witness :
  let s := mkSys (Pool.NewGRPCPool small) ∅ in
  reachable (initial small) step s ∧ Pool.tokens (pool s) + size (holders s) = 2.
Proof.
  assert (reachable (initial small) step (mkSys (Pool.NewGRPCPool small) ∅)) as Hr by (by apply reach_init).
  split; [exact Hr|]. exact (proj1 (tokens_conserved small _ Hr)).
Defined.

Definition w_conn : Pool.Connection (Fl:=Z) :=
  Pool.mkConnection "a" "code" 7 8 "10.0.0.1:9" 100 None ∅ ∅.
Definition w_req : RawData :=
  mkRawData [mkRecord 3003 5 []; mkRecord 1010 5 [u8 12]] "a" None None None None "h" "1.0" "agent".

Lemma records_forwarded_witness :
  ∃ c' g', handleRawData (λ _, None) w_req 100 w_conn (Pool.NewGRPCPool small) [] =
      Ret (c', g', [] ++ [mq_message w_req 100 w_conn None (mkRecord 3003 5 [])]) ∧ same_owner w_conn c'.
Proof.
  destruct (records_forwarded (λ _, None) w_req 100 w_conn (Pool.NewGRPCPool small) []) as (c' & g' & E & Ho).
  - intros r Hin [Ht _]. repeat (apply elem_of_cons in Hin as [->|Hin]; [vm_compute in Ht;
      repeat (apply elem_of_cons in Ht as [Ht|Ht]; [done|]); by apply elem_of_nil in Ht|]).
    by apply elem_of_nil in Hin.
  - exists c', g'. split; [exact E|exact Ho].
Defined.

Lemma empty_task_panics_witness :
  panics (handleRawData (λ _, None) (mkRawData [mkRecord 5100 5 []] "a" None None None None "h" "1.0" "agent")
    100 w_conn (Pool.NewGRPCPool small) []).
Proof.
  apply (empty_task_panics (λ _, None) (mkRawData [mkRecord 5100 5 []] "a" None None None None "h" "1.0" "agent")
    100 w_conn (Pool.NewGRPCPool small) [] (mkRecord 5100 5 [])); [left| |done].
  do 3 right. left.
Defined.

Lemma heartbeat_effect_witness :
  let '(c', g') := parseAgentHeartBeat (λ _, None) (mkRecord 1000 5 []) w_req 100 w_conn (Pool.NewGRPCPool small) in
  chbuf (Pool.confChan g') = ["a"].
Proof.
  pose proof (heartbeat_effect (λ _, None) (mkRecord 1000 5 []) w_req 100 w_conn (Pool.NewGRPCPool small) ∅ eq_refl)
    as Hh.
  destruct (parseAgentHeartBeat _ _ _ _ _ _) as [c' g']. destruct Hh as (d & _ & _ & _ & _ & _ & _ & _ & _ & Hg).
  rewrite Hg. reflexivity.
Defined.

End AgentCenter.
