(* ===== verification/AcServer.v ===== *)
(** * The agent center: commands and HTTP interface

    Models the loops of a stream ([recvData] and [sendData] of
    [server/agent_center/grpctrans/grpc_handler/transfer_handler.go]), the handlers of the
    HTTP interface ([httptrans/http_handler/command.go], [conn.go], [common.go] and the
    routes of [httptrans/scsvr.go]), the requests to the manager
    ([httptrans/client/]).  The streams, the timers, the decoders and the
    answers of other servers are arguments. *)

From S2P Require Import Prelude GoStrings Pool AgentCenter AkSk.
From stdpp Require Import options.

Module AcServer.

(** ** The sending loop of a stream *)

(** The sending goroutine of a connection: whether it still waits for commands, and
    what it has put on its stream. *)
Record sender := mkSender { alive : bool; sent : list Pool.Command }.

(** What the [select] of [sendData] finds: the context is done, the nil command of
    [Close], or a command. *)
Inductive sel := CtxDone | GotNil | GotCommand (cmd : Pool.Command).

(** One iteration; the second result is what is stored in [cmd.Error] before
    [cmd.Ready] is closed, if a command was taken. *)
Definition sendData_iter (stream_Send : Pool.Command → option string) (e : sel) (s : sender)
    : sender * option (option string) :=
  match e with
  | CtxDone | GotNil => (mkSender false (sent s), None)
  | GotCommand cmd =>
      match stream_Send cmd with
      | Some err => (mkSender false (sent s), Some (Some err))
      | None => (mkSender true (sent s ++ [cmd]), Some None)
      end
  end.

(** The loop over what its [select] finds, with the errors it reports. *)
Fixpoint sendData (stream_Send : Pool.Command → option string) (evs : list sel) (s : sender)
    : sender * list (option string) :=
  match evs with
  | [] => (s, [])
  | e :: evs =>
      let '(s, r) := sendData_iter stream_Send e s in
      if alive s then
        let '(s, rs) := sendData stream_Send evs s in (s, option_list r ++ rs)
      else (s, option_list r)
  end.

(** ** Handing commands over *)

Section server.
Context {Fl : Type} `{Ranger}.

(** What the timers of [PostCommand] and [Close] allow. *)
Inductive timing := InTime | SendTimeout | ResultTimeout.

(** Both ends of the unbuffered command channel: the goroutine of connection [c] takes
    the command if it still runs and the timer does not fire first. *)
Definition hand_over (stream_Send : nat → Pool.Command → option string) (t : timing) (c : nat)
    (cmd : Pool.Command) (ss : gmap nat sender) : gmap nat sender * Pool.reply :=
  match ss !! c, t with
  | Some (mkSender true l), InTime | Some (mkSender true l), ResultTimeout =>
      let '(s, r) := sendData_iter (stream_Send c) (GotCommand cmd) (mkSender true l) in
      (<[c := s]> ss,
       match t, r with InTime, Some err => Pool.Replied err | _, _ => Pool.NoReply end)
  | _, _ => (ss, Pool.NotTaken)
  end.

(** [GRPCPool.PostCommand] with its effect on the goroutines. *)
Definition post (stream_Send : nat → Pool.Command → option string) (t : timing) (agentID : string)
    (cmd : Pool.Command) (g : Pool.GRPCPool) (ss : gmap nat sender) : gmap nat sender * option string :=
  match Pool.GetByID agentID g with
  | inr err => (ss, Some err)
  | inl c =>
      let '(ss, r) := hand_over stream_Send t c cmd ss in
      (ss, Pool.PostCommand agentID cmd (λ _ _, r) g)
  end.

(** [GRPCPool.Close] likewise. *)
Definition close_conn (t : timing) (agentID : string) (g : Pool.GRPCPool) (ss : gmap nat sender)
    : gmap nat sender * option string :=
  match Pool.GetByID agentID g with
  | inr err => (ss, Some err)
  | inl c =>
      match ss !! c, t with
      | Some (mkSender true l), InTime | Some (mkSender true l), ResultTimeout =>
          (<[c := (sendData_iter (λ _, None) GotNil (mkSender true l)).1]> ss,
           Pool.Close agentID (λ _, true) g)
      | _, _ => (ss, Pool.Close agentID (λ _, false) g)
      end
  end.

(** ** The receiving loop of a stream *)

(** What [stream.Recv] returns, with the clock and with what other goroutines have done to
    the pool meanwhile. *)
Inductive recv := RecvError (err : string) | Recv (req : AgentCenter.RawData) (now : Z) (others : Pool.GRPCPool → Pool.GRPCPool).

(** [recvData]: it ends with an error of the stream, when the context is done ([[]]), or
    with a panic of the handler. *)
Fixpoint recvData (parse_float : string → option Fl) (rs : list recv) (c : Pool.Connection (Fl:=Fl))
    (g : Pool.GRPCPool) (kafka : list AgentCenter.MQData)
    : outcome (Pool.Connection (Fl:=Fl) * Pool.GRPCPool * list AgentCenter.MQData) :=
  match rs with
  | [] | RecvError _ :: _ => Ret (c, g, kafka)
  | Recv req now others :: rs =>
      let! (c, g, kafka) := AgentCenter.handleRawData parse_float req now c (others g) kafka in
      recvData parse_float rs c g kafka
  end.

(** ** Responses ([common.go]) *)

Definition SuccessCode : Z := 0.
Definition AuthFailedErrorCode : Z := 1.
Definition ParamInvalidErrorCode : Z := 2.
Definition UnknownErrorCode : Z := 3.

Definition ErrorDescriptions (code : Z) : option string :=
  if decide (code = SuccessCode) then Some "success"
  else if decide (code = AuthFailedErrorCode) then Some "auth failed"
  else if decide (code = ParamInvalidErrorCode) then Some "param invalid"
  else if decide (code = UnknownErrorCode) then Some "some errors occurred"
  else None.

Abbreviation detail := (gmap string (Pool.dval Fl)).

Record ConnStatRsp := mkStat { AgentInfo : detail; PluginsInfo : list detail; EthsInfo : list detail }.

(** The data of a response. *)
Inductive data :=
| DText (s : string)
| DCount (n : nat)
| DList (l : list string)
| DStat (l : list ConnStatRsp)
| DReset (count : nat) (detail : gmap string string).

Record Response := mkResponse { Code : Z; Message : string; Data : data }.

Definition CreateResponse (code : Z) (d : data) : Response :=
  mkResponse code (default "" (ErrorDescriptions code)) d.

(** ** Commands ([command.go]) *)

Record TaskMsg := mkTaskMsg { DataType : Z; Name : string; tData : string; Token : string }.

Record ConfigMsg := mkConfigMsg {
  cName : string; Type_ : string; Version : string; SHA256 : string; Signature : string;
  DownloadURL : list string; Detail : string
}.

(** [None] is a nil [Task] or [Config]. *)
Record CommandDetail := mkDetail { AgentCtrl : Z; Task : option TaskMsg; Config : option (list ConfigMsg) }.

Record CommandRequest := mkRequest { AgentID : string; Command : CommandDetail }.

Definition config_item (v : ConfigMsg) : Pool.ConfigItem :=
  Pool.mkConfigItem (cName v) (Type_ v) (Version v) (SHA256 v) (Signature v) (DownloadURL v) (Detail v).

Definition mgCommand (d : CommandDetail) : Pool.Command :=
  Pool.mkCommand (AgentCtrl d)
    ((λ t, Pool.mkPluginTask (Name t) (DataType t) (tData t) (Token t)) <$> Task d)
    (config_item <$> default [] (Config d)).

(** [BindJSON] gives the request or an error. *)
Definition PostCommand (stream_Send : nat → Pool.Command → option string) (t : timing)
    (bound : CommandRequest + string) (g : Pool.GRPCPool) (ss : gmap nat sender)
    : gmap nat sender * Response :=
  match bound with
  | inr err => (ss, CreateResponse ParamInvalidErrorCode (DText err))
  | inl taskModel =>
      let '(ss, err) := post stream_Send t (AgentID taskModel) (mgCommand (Command taskModel)) g ss in
      (ss, match err with
           | Some err => CreateResponse UnknownErrorCode (DText err)
           | None => CreateResponse SuccessCode (DText "")
           end)
  end.

(** ** Connections ([conn.go]) *)

Definition ConnResetRandom := "random".
Definition ConnResetStrict := "strict".

Record ResetRequest := mkReset { IDList : list string; rType : string; Count : Z }.

(** The details are read connection by connection; reading those of an agent writes its
    tenant and host into them. *)
Fixpoint conn_stats (ls : list nat) (conns : gmap nat (Pool.Connection (Fl:=Fl)))
    : gmap nat (Pool.Connection (Fl:=Fl)) * list ConnStatRsp :=
  match ls with
  | [] => (conns, [])
  | l :: ls =>
      match conns !! l with
      | None => conn_stats ls conns
      | Some c =>
          let '(d, c) := Pool.GetAgentDetail c in
          let rsp := mkStat d (Pool.GetPluginsList c) (Pool.GetEthInfosList c) in
          let '(conns, rest) := conn_stats ls (<[l := c]> conns) in (conns, rsp :: rest)
      end
  end.

Definition ConnStat (conns : gmap nat (Pool.Connection (Fl:=Fl))) (g : Pool.GRPCPool)
    : gmap nat (Pool.Connection (Fl:=Fl)) * Response :=
  let '(conns, resList) := conn_stats (Pool.GetList g) conns in
  (conns, CreateResponse SuccessCode (DStat resList)).

Definition agent_id (conns : gmap nat (Pool.Connection (Fl:=Fl))) (l : nat) : string :=
  match conns !! l with Some c => Pool.AgentID c | None => "" end.

Definition ConnList (conns : gmap nat (Pool.Connection (Fl:=Fl))) (g : Pool.GRPCPool) : Response :=
  CreateResponse SuccessCode (DList (agent_id conns <$> Pool.GetList g)).

Definition ConnCount (g : Pool.GRPCPool) : Response := CreateResponse SuccessCode (DCount (Pool.GetCount g)).

(** Closing the listed agents, one after the other; a later entry of the details replaces
    an earlier one of the same agent. *)
Fixpoint reset_all (timings : nat → timing) (i : nat) (ids : list string) (g : Pool.GRPCPool)
    (ss : gmap nat sender) (det : gmap string string) : gmap nat sender * gmap string string :=
  match ids with
  | [] => (ss, det)
  | id :: ids =>
      let '(ss, err) := close_conn (timings i) id g ss in
      reset_all timings (S i) ids g ss (<[id := default "ok" err]> det)
  end.

Definition ConnReset (timings : nat → timing) (bound : ResetRequest + string)
    (conns : gmap nat (Pool.Connection (Fl:=Fl))) (g : Pool.GRPCPool) (ss : gmap nat sender)
    : gmap nat sender * Response :=
  match bound with
  | inr err => (ss, CreateResponse ParamInvalidErrorCode (DText err))
  | inl param =>
      if decide (rType param = ConnResetRandom) then
        let conn := Pool.GetList g in
        let n := Nat.min (Z.to_nat (Count param)) (length conn) in
        let '(ss, det) := reset_all timings 0 (agent_id conns <$> take n conn) g ss ∅ in
        (ss, CreateResponse SuccessCode (DReset n det))
      else if decide (rType param = ConnResetStrict) then
        let '(ss, det) := reset_all timings 0 (IDList param) g ss ∅ in
        (ss, CreateResponse SuccessCode (DReset (length (IDList param)) det))
      else (ss, CreateResponse ParamInvalidErrorCode
                  (DText ("type only support " +:+ ConnResetStrict +:+ "|" +:+ ConnResetRandom)))
  end.

End server.

(** ** Routes ([scsvr.go]) *)

Inductive handler := HMetrics | HPing | HConnStat | HConnList | HConnCount | HConnReset | HCommand | HClusterList.

(** The registered routes and whether the signature check of the group guards them. *)
Definition routes : list (string * string * handler * bool) :=
  [("GET", "/metrics", HMetrics, false); ("GET", "/ping", HPing, false);
   ("GET", "/conn/stat", HConnStat, true); ("GET", "/conn/list", HConnList, true);
   ("GET", "/conn/count", HConnCount, true); ("POST", "/conn/reset", HConnReset, true);
   ("POST", "/command/", HCommand, true); ("GET", "/kube/cluster/list", HClusterList, true)].

(** The handler that serves a request, if any: no route, or a refused signature. *)
Inductive served := NotFound | Refused | Serve (h : handler).

Definition serve (enableAuth : bool) (auth : AkSk.verdict) (method path : string) : served :=
  match list_find (λ r, r.1.1 = (method, path)) routes with
  | None => NotFound
  | Some (_, (_, h, guarded)) =>
      if guarded && enableAuth then
        match auth with AkSk.Next => Serve h | AkSk.Abort_ _ => Refused end
      else Serve h
  end.

(** ** Requests to the manager ([httptrans/client/]) *)

(** A response: its status line and body. *)
Record http_resp := mkHttp { resp_Ok : bool; StatusCode : Z; body : string }.

(** Decoded answers: the code, the message and the data. *)
Record Res (A : Type) := mkRes { resCode : Z; resMsg : string; resData : A }.
Arguments mkRes {A} resCode resMsg resData.
Arguments resCode {A} r.
Arguments resMsg {A} r.
Arguments resData {A} r.

(** The checks all requests share, in the order of the code. *)
Definition checked {A} (decode : string → Res A + string) (resp : http_resp + string) : A + string :=
  match resp with
  | inr err => inr err
  | inl r =>
      if resp_Ok r then
        match decode (body r) with
        | inr err => inr err
        | inl a => if decide (resCode a = 0)%Z then inl (resData a) else inr "response code is not 0"
        end
      else inr "status code is not ok"
  end.

Definition GetConfigFromRemote (decode : string → Res (list ConfigMsg) + string) (resp : http_resp + string)
    : list Pool.ConfigItem + string :=
  match checked decode resp with
  | inl l => inl (config_item <$> l)
  | inr err => inr err
  end.

(** On an error the map that is returned is empty. *)
Definition GetExtraInfoFromRemote (decode : string → Res (gmap string Pool.AgentExtraInfo) + string)
    (resp : http_resp + string) : gmap string Pool.AgentExtraInfo * option string :=
  match checked decode resp with
  | inl m => (m, None)
  | inr err => (∅, Some err)
  end.

(** [UploadFile]: the file that is posted, if it can be read. *)
Definition UploadFile (decode : string → Res string + string) (disk : option string)
    (resp : http_resp + string) : string + string :=
  match disk with
  | Some err => inr err
  | None =>
      match resp with
      | inr err => inr err
      | inl r =>
          if resp_Ok r then
            match decode (body r) with
            | inr err => inr err
            | inl a => if decide (resCode a = 0)%Z then inl (resData a) else inr (body r)
            end
          else inr "status code is not 200"
      end
  end.

(** ** The sending loop *)

(** The commands of the events up to the end of the loop by the context or [Close]. *)
Fixpoint commands (evs : list sel) : list Pool.Command :=
  match evs with
  | GotCommand cmd :: evs => cmd :: commands evs
  | _ => []
  end.

(** The commands a stream takes before it fails, and the error of the one it fails on. *)
Fixpoint accepted (stream_Send : Pool.Command → option string) (cmds : list Pool.Command)
    : list Pool.Command * list string :=
  match cmds with
  | [] => ([], [])
  | cmd :: cmds =>
      match stream_Send cmd with
      | Some err => ([], [err])
      | None => let '(ok, err) := accepted stream_Send cmds in (cmd :: ok, err)
      end
  end.

(** Whatever the loop finds, the stream carries the accepted commands in order, each
    command that was taken is reported exactly once, and the loop stops at the first
    failure. *)
Lemma sendData_reports stream_Send evs l :
  let '(s, reports) := sendData stream_Send evs (mkSender true l) in
  let '(ok, err) := accepted stream_Send (commands evs) in
  sent s = l ++ ok ∧ reports = ((λ _, None) <$> ok) ++ (Some <$> err) ∧ (err ≠ [] → alive s = false).
Proof.
  revert l. induction evs as [|[| |cmd] evs IH]; intros l; cbn [sendData commands accepted sendData_iter alive sent];
    [by rewrite app_nil_r..|].
  destruct (stream_Send cmd) as [err|]; cbn [alive sent option_list].
  { by rewrite app_nil_r. }
  specialize (IH (l ++ [cmd])). destruct (sendData _ evs _) as [s rs].
  destruct (accepted stream_Send (commands evs)) as [ok err]. destruct IH as (-> & -> & Ha).
  by rewrite <- app_assoc.
Qed.

(** ** Commands reach the stream *)

Section commands.
Context {Fl : Type} `{Ranger}.

Lemma hand_over_other stream_Send t c cmd ss ss' r c' :
  hand_over stream_Send t c cmd ss = (ss', r) → c' ≠ c → ss' !! c' = ss !! c'.
Proof.
  unfold hand_over. intros E Hne.
  destruct (ss !! c) as [[[|] l]|]; destruct t; try (by injection E as <- _);
    destruct (sendData_iter _ _ _); injection E as <- _; by rewrite lookup_insert_ne.
Qed.

Lemma hand_over_taken stream_Send t c cmd ss l :
  ss !! c = Some (mkSender true l) → t ≠ SendTimeout → stream_Send c cmd = None →
  hand_over stream_Send t c cmd ss =
    (<[c := mkSender true (l ++ [cmd])]> ss, match t with InTime => Pool.Replied None | _ => Pool.NoReply end).
Proof. intros Hc Ht Hs. unfold hand_over. rewrite Hc. destruct t; try done; simpl; by rewrite Hs. Qed.

(** The stream of the agent's connection carries the command: the agent is connected, its
    sending goroutine runs and takes the command before the timer fires, and the stream
    accepts it. *)
Definition carried (stream_Send : nat → Pool.Command → option string) (t : timing) (agentID : string)
    (cmd : Pool.Command) (g : Pool.GRPCPool) (ss : gmap nat sender) (c : nat) (l : list Pool.Command) : Prop :=
  Pool.connPool g !! agentID = Some c ∧ ss !! c = Some (mkSender true l) ∧ t ≠ SendTimeout ∧ stream_Send c cmd = None.

Definition full := "the sendPool of the agent is full".
Definition timed_out := "the command has been sent but get results timed out".


End commands.

(** ** The receiving loop *)

Section receiving.
Context {Fl : Type} `{Ranger} (parse_float : string → option Fl).

(** The packets before the first error. *)
Fixpoint packets (rs : list recv) : list (AgentCenter.RawData * Z * (Pool.GRPCPool → Pool.GRPCPool)) :=
  match rs with
  | Recv req now others :: rs => (req, now, others) :: packets rs
  | _ => []
  end.

(** A message that is forwarded for a record: it is marked with the tenant and host of
    the connection. *)
Definition forwarded (c : Pool.Connection (Fl:=Fl)) (rn : AgentCenter.RawData * Z * AgentCenter.Record_)
    (m : AgentCenter.MQData) : Prop :=
  ∃ extra, m = AgentCenter.mq_message rn.1.1 rn.1.2 c extra rn.2.

(** The records of the packets that are not dropped. *)
Definition kept (ps : list (AgentCenter.RawData * Z * (Pool.GRPCPool → Pool.GRPCPool)))
    : list (AgentCenter.RawData * Z * AgentCenter.Record_) :=
  ps ≫= λ p, pair p.1 <$> filter (λ r, AgentCenter.dropped r = false) (AgentCenter.Data p.1.1).

Lemma forwarded_owner c c' rn m :
  AgentCenter.same_owner c c' → forwarded c' rn m → forwarded c rn m.
Proof. intros Ho [extra ->]. exists extra. by apply AgentCenter.mq_message_owner. Qed.

(** Over the whole life of a stream, whatever other goroutines do to the pool in between,
    every record of every packet is forwarded in order with the owner of the connection,
    unless it is a report that does not decode; the loop does not panic if no report
    has an empty body. *)
Lemma recvData_forwards rs c g kafka :
  Forall (λ p, ∀ r, r ∈ AgentCenter.Data p.1.1 → ¬ AgentCenter.empty_task r) (packets rs) →
  ∃ c' g' msgs, recvData parse_float rs c g kafka = Ret (c', g', kafka ++ msgs) ∧
    AgentCenter.same_owner c c' ∧ Forall2 (forwarded c) (kept (packets rs)) msgs.
Proof.
  revert c g kafka. induction rs as [|[err|req now others] rs IH]; intros c g kafka Hsafe; cbn [recvData packets].
  1, 2: by exists c, g, []; rewrite app_nil_r; split_and!; [done| |constructor].
  inversion Hsafe as [|? ? Hr Hrs]; subst.
  destruct (AgentCenter.handleRawData_spec parse_float req now c (others g) kafka Hr) as (c1 & g1 & -> & Ho1).
  cbn [obind]. edestruct (λ k, IH c1 g1 k Hrs) as (c2 & g2 & msgs & -> & Ho2 & HF).
  eexists c2, g2, _. rewrite <- app_assoc. split_and!; [done|by eapply AgentCenter.same_owner_trans|].
  unfold kept. cbn [mbind list_bind]. apply Forall2_app.
  - apply Forall2_fmap, Forall_Forall2_diag, Forall_forall. intros r _. by eexists.
  - eapply Forall2_impl; [exact HF|]. intros. by eapply forwarded_owner.
Qed.

End receiving.

(** ** Resetting connections *)

Section reset.
Context {Fl : Type} `{Ranger}.

Lemma close_conn_result t id (g : Pool.GRPCPool) ss ss' err :
  close_conn t id g ss = (ss', err) →
  (err = None → ∃ c l, Pool.connPool g !! id = Some c ∧ ss !! c = Some (mkSender true l) ∧
                       ss' = <[c := mkSender false l]> ss) ∧
  (err ≠ None → ss' = ss).
Proof.
  unfold close_conn, Pool.Close, Pool.GetByID. destruct (Pool.connPool g !! id) as [c|].
  - destruct (ss !! c) as [[[|] l]|] eqn:Hc; destruct t; intros [= <- <-]; split; try done; intros _; by exists c, l.
  - by intros [= <- <-].
Qed.

(** A goroutine that runs after the resets was not closed by any, and none has put
    anything on a stream. *)
Lemma reset_all_spec timings i ids (g : Pool.GRPCPool) ss det :
  let '(ss', det') := reset_all timings i ids g ss det in
  (∀ id, id ∈ dom det' ↔ id ∈ dom det ∨ id ∈ ids) ∧
  (∀ c, sent <$> ss' !! c = sent <$> ss !! c) ∧
  (∀ c l, ss' !! c = Some (mkSender true l) → ss !! c = Some (mkSender true l)) ∧
  (∀ c, (∀ id, id ∈ ids → Pool.connPool g !! id ≠ Some c) → ss' !! c = ss !! c).
Proof.
  revert i ss det. induction ids as [|id ids IH]; intros i ss det; cbn [reset_all].
  { split_and!; try done. intros id. split; [by left|]. intros [?|Hn]; [done|]. by apply elem_of_nil in Hn. }
  destruct (close_conn (timings i) id g ss) as [ss1 err] eqn:Hc.
  apply close_conn_result in Hc as [Hok Hno].
  specialize (IH (S i) ss1 (<[id := default "ok" err]> det)).
  destruct (reset_all timings (S i) ids g ss1 _) as [ss' det'].
  destruct IH as (Hdom & Hsent & Hal & Hoth).
  assert (∀ c, sent <$> ss1 !! c = sent <$> ss !! c) as Hsent1.
  { intros c. destruct err as [err|]; [by rewrite Hno|]. destruct (Hok eq_refl) as (c0 & l & _ & Hl & ->).
    destruct (decide (c = c0)) as [->|Hne]; [by rewrite lookup_insert_eq, Hl|by rewrite lookup_insert_ne]. }
  split_and!.
  - intros id'. rewrite Hdom, dom_insert, elem_of_union, elem_of_singleton, elem_of_cons. tauto.
  - intros c. by rewrite Hsent.
  - intros c l Hl. apply Hal in Hl. destruct err as [err|]; [by rewrite <-Hno|].
    destruct (Hok eq_refl) as (c0 & l0 & _ & Hl0 & ->).
    destruct (decide (c = c0)) as [->|Hne]; [by rewrite lookup_insert_eq in Hl|by rewrite lookup_insert_ne in Hl].
  - intros c Hc. rewrite Hoth by (intros ? ?; apply Hc; by right).
    destruct err as [err|]; [by rewrite Hno|]. destruct (Hok eq_refl) as (c0 & l0 & Hg & _ & ->).
    rewrite lookup_insert_ne; [done|]. intros ->. by apply (Hc id); [left|].
Qed.

(** A reset answers for exactly the agents it was asked for (or for the first [Count] of
    the pool), sends no command, and closes no connection of another agent. *)
Theorem ConnReset_effect timings param conns (g : Pool.GRPCPool) ss :
  let ids := if decide (rType param = ConnResetRandom)
             then agent_id conns <$> take (Z.to_nat (Count param)) (Pool.GetList g) else IDList param in
  rType param = ConnResetRandom ∨ rType param = ConnResetStrict →
  ∃ ss' det, ConnReset (Fl:=Fl) timings (inl param) conns g ss =
      (ss', CreateResponse SuccessCode (DReset (length ids) det)) ∧
    (∀ id, id ∈ dom det ↔ id ∈ ids) ∧
    (∀ c, sent <$> ss' !! c = sent <$> ss !! c) ∧
    (∀ c, (∀ id, id ∈ ids → Pool.connPool g !! id ≠ Some c) → ss' !! c = ss !! c).
Proof.
  intros ids Ht.
  pose proof (reset_all_spec timings 0 ids g ss ∅) as Hr.
  destruct (reset_all timings 0 ids g ss ∅) as [ss' det] eqn:E. destruct Hr as (Hd & Hs & _ & Ho).
  exists ss', det. split; [|split_and!; [|done..]].
  - unfold ConnReset. subst ids. destruct (decide (rType param = ConnResetRandom)) as [Hr|Hr].
    + assert (take (Nat.min (Z.to_nat (Count param)) (length (Pool.GetList g))) (Pool.GetList g) =
              take (Z.to_nat (Count param)) (Pool.GetList g)) as ->.
      { destruct (Nat.le_gt_cases (Z.to_nat (Count param)) (length (Pool.GetList g))).
        - by rewrite Nat.min_l.
        - by rewrite Nat.min_r, !take_ge by lia. }
      rewrite E. by rewrite length_fmap, length_take.
    + rewrite decide_True by tauto. by rewrite E.
  - intros id. rewrite Hd. set_solver.
Qed.

End reset.

End AcServer.
