(* ===== verification/AcUpload.v ===== *)
(** * The agent center: uploaded files

    Models [server/agent_center/grpctrans/grpc_handler/file_handler.go]: a file arrives
    in chunks on a stream, is stored under the name of its token, packed, handed to the
    manager and reported as the result of the task that asked for it.  The file system
    is a map from paths to contents; its failures, the archive format, the digest and the
    answer of the manager are arguments. *)

From Stdlib Require Import Ascii.
From S2P Require Import Prelude GoStrings GoPath Wire Pool AcServer Transfer.
From stdpp Require Import options.

Module AcUpload.

(** ** Storing and packing *)

Abbreviation fs := (gmap string bytes).

Section upload.
(** Errors of creating a file and of writing the i-th chunk, of flushing; the archive of
    a named file and the one of no file; errors while packing; the digest; the manager's
    answer to a posted file with its digest. *)
Context (os_Create : string → option string) (write_err : nat → option string) (flush_err : option string)
  (zip : string → bytes → bytes) (empty_zip : bytes) (zip_err : option string) (md5 : bytes → string)
  (post_file : bytes → string → string + string).

Definition ErrNotExist := "no such file or directory".

(** [filepath.Base] of a clean path. *)
Definition path_Base (p : string) : string := default "" (last (str_split "/" p)).

Definition zipFile (zipFilePath srcFilePath : string) (f : fs) : fs * option string :=
  match os_Create zipFilePath with
  | Some err => (f, Some err)
  | None =>
      let f := <[zipFilePath := []]> f in
      match f !! srcFilePath with
      | None => (<[zipFilePath := empty_zip]> f, Some ErrNotExist)
      | Some content =>
          match zip_err with
          | Some err => (<[zipFilePath := empty_zip]> f, Some err)
          | None => (<[zipFilePath := zip (path_Base srcFilePath) content]> f, None)
          end
      end
  end.

Definition fileMD5 (filePath : string) (f : fs) : string + string :=
  match f !! filePath with
  | None => inr ErrNotExist
  | Some content => inl (hex_EncodeToString (md5 content))
  end.

(** [client.UploadFile] of a path. *)
Definition UploadFile (filePath hash : string) (f : fs) : string + string :=
  match f !! filePath with
  | None => inr ErrNotExist
  | Some content => post_file content hash
  end.

Definition TaskStatusFail := "failed".
Definition TaskStatusSuccess := "succeed".

Definition report (token status msg : string) : gmap string string :=
  <["token" := token]> (<["status" := status]> (<["data_type" := "5100"]> {["msg" := msg]})).

(** [handlerFile] without its deferred part: status and message of the report. *)
Definition process_file (filePath : string) (f : fs) : fs * (string * string) :=
  let zipPath := filePath +:+ ".zip" in
  let fail what err := (TaskStatusFail,
    "handlerFile, " +:+ what +:+ " error " +:+ err +:+ ", path " +:+ filePath +:+ ".") in
  let '(f, err) := zipFile zipPath filePath f in
  match err with
  | Some err => (f, fail "zipFile" err)
  | None =>
      match fileMD5 zipPath f with
      | inr err => (f, fail "fileMD5" err)
      | inl hash =>
          match UploadFile zipPath hash f with
          | inr err => (f, fail "UploadFile" err)
          | inl newPath => (f, (TaskStatusSuccess, newPath))
          end
      end
  end.

Definition handlerFile (token filePath : string) (f : fs) (g : Pool.GRPCPool) : fs * Pool.GRPCPool :=
  let '(f, (status, msg)) := process_file filePath f in
  (delete (filePath +:+ ".zip") (delete filePath f), (Pool.PushTask2Manager (report token status msg) g).1).

(** ** The stream *)

(** What [stream.Recv] returns. *)
Inductive recv := REOF | RError (err : string) | RChunk (token : string) (d : bytes).

(** The loop: the open file with its token and what was written to it; at the end the
    error, if any, and whether it failed with the file open. *)
Fixpoint upload_loop (dir : string) (i : nat) (rs : list recv) (fp : option (string * string * bytes)) (f : fs)
    : option (string * string * bytes) * fs * option string :=
  match rs with
  | [] | REOF :: _ => (fp, f, None)
  | RError err :: _ => (fp, f, Some err)
  | RChunk token d :: rs =>
      let opened :=
        match fp with
        | Some x => inl (x, f)
        | None =>
            let filePath := path_Join dir token in
            match os_Create filePath with
            | Some err => inr err
            | None => inl ((filePath, token, []), <[filePath := []]> f)
            end
        end in
      match opened with
      | inr err => (None, f, Some err)
      | inl ((filePath, token, buf), f) =>
          match write_err i with
          | Some err => (Some (filePath, token, buf), f, Some err)
          | None => upload_loop dir (S i) rs (Some (filePath, token, buf ++ d)) f
          end
      end
  end.

(** [Upload]; [sent] is the error of the final answer. *)
Definition Upload (dir : string) (rs : list recv) (sent : option string) (f : fs) (g : Pool.GRPCPool)
    : fs * Pool.GRPCPool * option string :=
  let fail fp f err :=
    (match fp with Some (filePath, _, _) => delete filePath f | None => f end, g, Some err) in
  let '(fp, f, err) := upload_loop dir 0 rs None f in
  match err, fp with
  | Some err, _ => fail fp f err
  | None, None =>
      let '(f, g) := handlerFile "" "" f g in (f, g, sent)
  | None, Some (filePath, token, buf) =>
      match flush_err with
      | Some err => fail fp f err
      | None =>
          let '(f, g) := handlerFile token filePath (<[filePath := buf]> f) g in (f, g, sent)
      end
  end.

(** ** What the manager gets *)

Lemma str_app_suffix_ne (s t : string) : t ≠ "" → s +:+ t ≠ s.
Proof.
  intros Ht E. apply (f_equal String.length) in E. rewrite str_length_app in E.
  destruct t; [done|]. simpl in E. lia.
Qed.

Lemma upload_loop_chunks dir i token0 token filePath buf chunks f :
  (∀ i, write_err i = None) →
  upload_loop dir i ((RChunk token <$> chunks) ++ [REOF]) (Some (filePath, token0, buf)) f =
    (Some (filePath, token0, buf ++ concat chunks), f, None).
Proof using Type.
  intros Hw. revert i buf. induction chunks as [|d chunks IH]; intros i buf; simpl; [by rewrite app_nil_r|].
  rewrite Hw, IH. by rewrite <- app_assoc.
Qed.

(** The report of a task whose file was packed, by the manager's answer. *)
Definition outcome_of (filePath : string) (answer : string + string) : string * string :=
  match answer with
  | inl newPath => (TaskStatusSuccess, newPath)
  | inr err => (TaskStatusFail, "handlerFile, UploadFile error " +:+ err +:+ ", path " +:+ filePath +:+ ".")
  end.

Lemma Upload_posts dir token chunks sent f g :
  chunks ≠ [] → os_Create (path_Join dir token) = None → os_Create (path_Join dir token +:+ ".zip") = None →
  (∀ i, write_err i = None) → flush_err = None → zip_err = None →
  let filePath := path_Join dir token in
  let archive := zip (path_Base filePath) (concat chunks) in
  let '(status, msg) := outcome_of filePath (post_file archive (hex_EncodeToString (md5 archive))) in
  Upload dir ((RChunk token <$> chunks) ++ [REOF]) sent f g =
    (delete (filePath +:+ ".zip") (delete filePath f), (Pool.PushTask2Manager (report token status msg) g).1, sent).
Proof using Type.
  intros Hne Hc Hz Hw Hf Hzip filePath archive.
  destruct chunks as [|d chunks]; [done|]. unfold Upload. cbn [fmap list_fmap app upload_loop].
  fold filePath in Hc |- *. rewrite Hc, Hw, upload_loop_chunks by done. rewrite Hf. cbn [app].
  unfold handlerFile, process_file, zipFile. fold filePath in Hz. rewrite Hz.
  assert (filePath +:+ ".zip" ≠ filePath) as Hsep by by apply str_app_suffix_ne.
  rewrite lookup_insert_ne, lookup_insert_eq by done. rewrite Hzip. unfold fileMD5, UploadFile.
  rewrite !lookup_insert_eq. fold archive. unfold archive at 1 2. cbn [concat].
  change (d ++ concat chunks) with (concat (d :: chunks)). fold archive.
  assert (∀ a b c x : bytes, delete (filePath +:+ ".zip") (delete filePath
    (<[filePath +:+ ".zip" := a]> (<[filePath +:+ ".zip" := b]> (<[filePath := c]> (<[filePath := x]> f)))))
    = delete (filePath +:+ ".zip") (delete filePath f)) as Hdel.
  { intros. rewrite (delete_delete _ _ filePath), !delete_insert_eq by done.
    rewrite (delete_delete _ filePath), !delete_insert_eq. by rewrite delete_delete. }
  unfold outcome_of. destruct (post_file archive _); by rewrite Hdel.
Qed.

(** [C35] A file that the agent reads to its end within the time of an upload is stored by the
    agent center chunk by chunk, packed and posted to the manager exactly as it was, the
    result is reported under the token of the task, and nothing is left on disk. *)
Theorem upload_intact dir token BufSize file sent f g :
  (0 < BufSize < 2 ^ 50)%Z → (Z.of_nat (length file) < 600 * Z.min BufSize (500 * 1024))%Z →
  os_Create (path_Join dir token) = None → os_Create (path_Join dir token +:+ ".zip") = None →
  (∀ i, write_err i = None) → flush_err = None → zip_err = None →
  let filePath := path_Join dir token in
  let archive := zip (path_Base filePath) file in
  let '(status, msg) := outcome_of filePath (post_file archive (hex_EncodeToString (md5 archive))) in
  ∃ chunks, Transfer.handleUpload BufSize file = Ret (Transfer.Uploaded chunks true) ∧
    Upload dir ((RChunk token <$> chunks) ++ [REOF]) sent f g =
      (delete (filePath +:+ ".zip") (delete filePath f), (Pool.PushTask2Manager (report token status msg) g).1, sent).
Proof using Type.
  intros Hb Hlen Hc Hz Hw Hf Hzip filePath archive.
  destruct (Transfer.upload_chunks BufSize file) as (chunks & Hu & Hcat & _); [done|lia|].
  rewrite bool_decide_eq_true_2 in Hu by lia. rewrite take_ge in Hcat by lia.
  pose proof (Upload_posts dir token chunks sent f g) as Hp. rewrite Hcat in Hp.
  assert (chunks ≠ []) as Hne.
  { intros ->. apply Transfer.handleUpload_nonempty in Hu. done. }
  specialize (Hp Hne Hc Hz Hw Hf Hzip). cbv zeta in Hp. fold filePath archive in Hp. destruct (outcome_of _ _). exists chunks. by split.
Qed.

End upload.

(** The token is part of the path: one that climbs out of the directory makes the agent
    center overwrite a file of its own and then remove it. *)
Lemma upload_escapes :
  let f : fs := {["/etc/agent_center.yml" := bytes_of "keys"]} in
  let r := Upload (λ _, None) (λ _, None) None (λ _ c, c) [] None (λ _, "") (λ _ _, inl "id") "/data/upload"
             [RChunk "../../etc/agent_center.yml" []; REOF] None f (Pool.NewGRPCPool Pool.NewConfig) in
  r.1.1 = ∅ ∧ r.2 = None.
Proof. by vm_compute. Qed.

Lemma upload_intact_witness :
  let file := bytes_of "abcdefg" in
  ∃ chunks, Transfer.handleUpload 3 file = Ret (Transfer.Uploaded chunks true) ∧
    (Upload (λ _, None) (λ _, None) None (λ _ c, c) [] None (λ _, "") (λ _ _, inl "id") "/data/upload"
       ((RChunk "tok" <$> chunks) ++ [REOF]) None ∅ (Pool.NewGRPCPool Pool.NewConfig)).1.1 = ∅.
Proof.
  destruct (upload_intact (λ _, None) (λ _, None) None (λ _ c, c) [] None (λ _, "") (λ _ _, inl "id")
    "/data/upload" "tok" 3 (bytes_of "abcdefg") None ∅ (Pool.NewGRPCPool Pool.NewConfig))
    as (chunks & Hu & Hr); [lia|simpl; lia|done..|].
  exists chunks. split; [exact Hu|]. by rewrite Hr.
Defined.

End AcUpload.
