(* ===== verification/AgentConfig.v ===== *)
(** * The manager: configurations and commands for agents

    Models [server/manager/internal/atask/job.go]: [updateConfig], which applies the
    changes of a task to the configuration of an agent, [AgentControlDistribute], which
    turns a task into one job per agent, [AgentControlDo], which posts a job to the agent
    center, and the second versions of both.  Configurations are Go slices: an array on a heap
    and a length.  Several agents can share the array of the default configuration, and
    the code writes into it, so the heap is explicit here.  The database cursor, the
    tokens, the clock and the answers of the agent center are arguments. *)

From S2P Require Import Prelude GoStrings.
From stdpp Require Import options.

Module AgentConfig.

Record AgentConfigMsg := mkMsg {
  Name : string; Type_ : string; Signature : string; Version : string; SHA256 : string;
  DownloadURL : list string; Detail : string
}.

#[export] Instance AgentConfigMsg_eq_dec : EqDecision AgentConfigMsg.
Proof. solve_decision. Defined.

Record AgentTaskMsg := mkTaskMsg { tName : string; tData : string; tToken : string; tDataType : Z }.

Record ConfigRequest := mkRequest { AgentCtrl : Z; Task : AgentTaskMsg; Config : list AgentConfigMsg }.

(** ** Slices of configuration items *)

(** A heap of arrays; the length of an array is the capacity of the slices on it. *)
Abbreviation heap := (list (list AgentConfigMsg)).

Record slice := mkSlice { arr : nat; slen : nat }.

Definition zero_msg : AgentConfigMsg := mkMsg "" "" "" "" "" [] "".

Definition contents (h : heap) (s : slice) : list AgentConfigMsg :=
  take (slen s) (default [] (h !! arr s)).

Definition slice_wf (h : heap) (s : slice) : Prop :=
  ∃ a, h !! arr s = Some a ∧ slen s ≤ length a.

(** A new array with the given elements and room for [extra] more. *)
Definition new_slice (l : list AgentConfigMsg) (extra : nat) (h : heap) : heap * slice :=
  (h ++ [l ++ replicate extra zero_msg], mkSlice (length h) (length l)).

Section slices.
(** The room [append] leaves in a new array. *)
Context (grow : nat → nat).

(** [append(s, v)]. *)
Definition append1 (s : slice) (v : AgentConfigMsg) (h : heap) : heap * slice :=
  if decide (slen s < length (default [] (h !! arr s)))
  then (alter (<[slen s := v]>) (arr s) h, mkSlice (arr s) (S (slen s)))
  else new_slice (contents h s ++ [v]) (grow (slen s)) h.

(** [append(s[:k], s[k+1:]...)]: the elements behind [k] move down in place. *)
Definition remove_at (s : slice) (k : nat) (h : heap) : heap * slice :=
  (alter (λ a, take k a ++ drop (S k) (take (slen s) a) ++ drop (slen s - 1) a) (arr s) h,
   mkSlice (arr s) (slen s - 1)).

(** ** [updateConfig] *)

Definition all_empty (v : AgentConfigMsg) : bool :=
  bool_decide (DownloadURL v = [] ∧ Version v = "" ∧ SHA256 v = "" ∧ Detail v = "" ∧
               Type_ v = "" ∧ Signature v = "").

Definition over (new old : string) : string := if decide (new = "") then old else new.

(** The fields of [v] that are set replace those of the item. *)
Definition overwrite (v m : AgentConfigMsg) : AgentConfigMsg :=
  mkMsg (Name m) (over (Type_ v) (Type_ m)) (over (Signature v) (Signature m))
    (over (Version v) (Version m)) (over (SHA256 v) (SHA256 m))
    (if decide (DownloadURL v = []) then DownloadURL m else DownloadURL v)
    (over (Detail v) (Detail m)).

Definition update_item (hs : heap * slice) (v : AgentConfigMsg) : heap * slice :=
  let '(h, s) := hs in
  match list_find (λ m, Name m = Name v) (contents h s) with
  | Some (k1, _) =>
      if all_empty v then remove_at s k1 h
      else (alter (alter (overwrite v) k1) (arr s) h, s)
  | None => if all_empty v then (h, s) else append1 s v h
  end.

Definition updateConfig (changes : list AgentConfigMsg) (hs : heap * slice) : heap * slice :=
  foldl update_item hs changes.

End slices.

(** ** Jobs *)

Definition TypeAgentConfig := "Agent_Config".
Definition TypeAgentTask := "Agent_Task".
Definition TypeAgentCtrl := "Agent_Ctrl".

Definition TaskStatusCreated := "created".
Definition TaskStatusRunning := "running".
Definition TaskStatusFinished := "finished".
Definition TaskStatusStopped := "cancelled".
Definition TaskStatusFail := "failed".
Definition TaskStatusSuccess := "succeed".
Definition TaskStatusResultFail := "result_failed".
Definition TaskStatusResultSuccess := "result_succeed".

(** The fields of a heartbeat document that are used here. *)
Record AgentHBInfo := mkHB { AgentId : string; SourceIp : string; SourcePort : Z; hbConfig : list AgentConfigMsg }.

Record Api := mkApi { apiPath : string; apiMethod : string; apiScheme : string; apiTimeout : Z }.

Definition HttpMethodGet := "GET".
Definition HttpMethodPost := "POST".

Definition command_api := mkApi "/command" HttpMethodPost "https" 15.

Definition ApiMap (name : string) : option Api :=
  if decide (name = "Server_AgentStat") then Some (mkApi "/conn/stat" HttpMethodGet "https" 15)
  else if decide (name = "Server_AgentList") then Some (mkApi "/conn/list" HttpMethodGet "https" 15)
  else if decide (name ∈ ["Agent_Config"; "Agent_Ctrl"; "Agent_Task"; "Agent_Quick_Config"; "Agent_Config_v2"])
  then Some command_api
  else None.

(** The command of a job; a configuration is still the slice. *)
Inductive command := CmdConfig (s : slice) | CmdTask (t : AgentTaskMsg) | CmdCtrl (n : Z).

Record JobArgs := mkJob {
  jName : string; jHost : string; jApi : Api; jToken : string; jAgent : string; jCommand : command
}.

Record AgentJobParam := mkParam { ConfigTask : ConfigRequest; TaskID : string; JobID : string }.

(** What is written back for a subtask when it is distributed. *)
Record SubTaskStart := mkStart {
  sTask : string; sAgent : string; sData : command; sToken : string; sStatus : string;
  sStartTime : Z; sJob : string; sUpdateTime : Z
}.

(** A distribution in progress. *)
Record dist := mkDist {
  dheap : heap; agentIDMap : gset string; djobs : list JobArgs; dsubs : list SubTaskStart;
  dhbs : list (string * Z * slice)
}.

Section distribute.
Context (grow : nat → nat).

(** The command for an agent: its own configuration, or the default one if it has none,
    with the changes of the task. *)
Definition command_for (name : string) (req : ConfigRequest) (defaultConfig : slice) (token : string)
    (hb : AgentHBInfo) (room : nat) (h : heap) : heap * option command :=
  if decide (name = TypeAgentConfig) then
    let '(h, own) := new_slice (hbConfig hb) room h in
    let cfg := if decide (slen own = 0) then defaultConfig else own in
    let '(h, cfg) := updateConfig grow (Config req) (h, cfg) in
    (h, Some (CmdConfig cfg))
  else if decide (name = TypeAgentTask) then
    (h, Some (CmdTask (mkTaskMsg (tName (Task req)) (tData (Task req)) token (tDataType (Task req)))))
  else if decide (name = TypeAgentCtrl) then (h, Some (CmdCtrl (AgentCtrl req)))
  else (h, None).

Definition distribute_one (name : string) (p : AgentJobParam) (defaultConfig : slice)
    (token : string) (clock : Z * Z * Z) (room : nat) (api : Api) (hb : AgentHBInfo) (d : dist) : dist :=
  if decide (AgentId hb ∈ agentIDMap d) then d
  else
    let seen := {[AgentId hb]} ∪ agentIDMap d in
    match command_for name (ConfigTask p) defaultConfig token hb room (dheap d) with
    | (h, None) => mkDist h seen (djobs d) (dsubs d) (dhbs d)
    | (h, Some cmd) =>
        let '(updated, started, now) := clock in
        mkDist h seen
          (djobs d ++ [mkJob name (host_port (SourceIp hb) (SourcePort hb)) api token (AgentId hb) cmd])
          (dsubs d ++ [mkStart (TaskID p) (AgentId hb) cmd token TaskStatusRunning started (JobID p) now])
          (match cmd with CmdConfig s => dhbs d ++ [(AgentId hb, updated, s)] | _ => dhbs d end)
    end.

Context (tokens : nat → string) (clock : nat → Z * Z * Z) (room : nat → nat).

(** The documents of the cursor; one that cannot be decoded is skipped. *)
Fixpoint distribute_loop (name : string) (p : AgentJobParam) (defaultConfig : slice) (api : Api)
    (i : nat) (cursor : list (AgentHBInfo + string)) (d : dist) : dist :=
  match cursor with
  | [] => d
  | inr _ :: cursor => distribute_loop name p defaultConfig api (S i) cursor d
  | inl hb :: cursor =>
      distribute_loop name p defaultConfig api (S i) cursor
        (distribute_one name p defaultConfig (tokens i) (clock i) (room i) api hb d)
  end.

(** [found]: what the query for the agents of the job returns; [default]: the default
    configuration. *)
Definition AgentControlDistribute (name : string) (p : AgentJobParam) (default_items : list AgentConfigMsg)
    (default_room : nat) (found : list (AgentHBInfo + string) + string) : dist + string :=
  let '(h, defaultConfig) :=
    if decide (name = TypeAgentConfig) then new_slice default_items default_room [] else ([], mkSlice 0 0) in
  match found with
  | inr err => inr err
  | inl cursor =>
      (* the three kinds of jobs that reach the table are in it *)
      let api := default command_api (ApiMap name) in
      inl (distribute_loop name p defaultConfig api 0 cursor (mkDist h ∅ [] [] []))
  end.

End distribute.

(** The second version: the command is in the subtask already, so a job names the agent
    and the task only. *)
Record JobArgsV2 := mkJobV2 { vName : string; vHost : string; vApi : Api; vAgent : string; vTask : string }.

Record SubTaskStartV2 := mkStartV2 {
  v_task : string; v_agent : string; v_status : string; v_job : string; v_update : Z; v_start : Z
}.

Fixpoint distributeV2_loop (name : string) (p : AgentJobParam) (api : Api) (clock : nat → Z * Z) (i : nat)
    (seen : gset string) (cursor : list (AgentHBInfo + string)) : list (JobArgsV2 * SubTaskStartV2) :=
  match cursor with
  | [] => []
  | inr _ :: cursor => distributeV2_loop name p api clock (S i) seen cursor
  | inl hb :: cursor =>
      if decide (AgentId hb ∈ seen) then distributeV2_loop name p api clock (S i) seen cursor
      else
        (mkJobV2 name (host_port (SourceIp hb) (SourcePort hb)) api (AgentId hb) (TaskID p),
         mkStartV2 (TaskID p) (AgentId hb) TaskStatusRunning (JobID p) (clock i).1 (clock i).2)
        :: distributeV2_loop name p api clock (S i) ({[AgentId hb]} ∪ seen) cursor
  end.

Definition AgentControlDistributeV2 (name : string) (p : AgentJobParam) (clock : nat → Z * Z)
    (found : list (AgentHBInfo + string) + string) : outcome (list (JobArgsV2 * SubTaskStartV2) + string) :=
  match found with
  | inr err => Ret (inr err)
  | inl cursor =>
      match ApiMap name with
      | Some api => Ret (inl (distributeV2_loop name p api clock 0 ∅ cursor))
      | None =>
          if forallb (λ x, match x with inr _ => true | inl _ => false end) cursor then Ret (inl [])
          else Panic "interface conversion: interface {} is nil, not string"
      end
  end.

(** ** Posting a job *)

(** The answer of the agent center to a request: an error of the connection, or a status
    code with a body. *)
Record response := mkResponse { StatusCode : Z; body : string }.

Definition resp_Ok (r : response) : bool := bool_decide (200 ≤ StatusCode r < 300)%Z.

(** What is written back for a subtask when its job has been posted. *)
Record SubTaskDone := mkDone { dToken : string; dUrl : string; dStatus : string; dUpdate : Z; dResp : string }.

(** The arguments of a job as they are decoded: its fields, the host, the path, and what
    [Args] holds: [None] is no map, [Some None] a map without a token. *)
Record job_msg := mkJobMsg {
  mScheme : string; mHost : string; mPath : string; mMethod : string; mArgs : option (option string)
}.

Section do.
(** The code of the answer, or the error of decoding it. *)
Context (svr_code : string → Z + string).

(** The status of a posted job and the error that is returned. *)
Definition post_status (r : response + string) : string * string * option string :=
  match r with
  | inr err => (TaskStatusFail, err, Some err)
  | inl r =>
      if resp_Ok r then
        match svr_code (body r) with
        | inr err => (TaskStatusFail, body r +:+ " Unmarshal error " +:+ err, Some err)
        | inl code =>
            if decide (code = 0%Z) then (TaskStatusSuccess, body r, None)
            else (TaskStatusFail, "svr response error " +:+ body r, None)
        end
      else (TaskStatusFail, "StatusCode is " +:+ itoa (StatusCode r), None)
  end.

Definition AgentControlDo (now : Z) (args : job_msg + string) (post : string → response + string)
  : outcome (option string * option SubTaskDone) :=
  match args with
  | inr err => Ret (Some err, None)
  | inl ja =>
      match mArgs ja with
      | None => Ret (None, None)
      | Some token =>
          let url := mScheme ja +:+ "://" +:+ mHost ja +:+ mPath ja in
          if decide (mMethod ja = HttpMethodGet ∨ mMethod ja = HttpMethodPost) then
            match token with
            | None => Panic "interface conversion: interface {} is nil, not string"
            | Some token =>
                let '(status, resp, err) := post_status (post url) in
                Ret (err, Some (mkDone token url status now resp))
            end
          else Ret (Some "request method not support", None)
      end
  end.

(** The second version finds the command in the subtask that [found] returns, if it is
    there. *)
Definition AgentControlDoV2 (now : Z) (args : job_msg + string) (found : option string)
    (post : string → response + string) : option string * option SubTaskDone :=
  match args with
  | inr err => (Some err, None)
  | inl ja =>
      match mArgs ja with
      | None => (None, None)
      | Some _ =>
          let url := mScheme ja +:+ "://" +:+ mHost ja +:+ mPath ja in
          match found with
          | Some err => (Some err, Some (mkDone "" url TaskStatusFail now err))
          | None =>
              if decide (mMethod ja = HttpMethodGet ∨ mMethod ja = HttpMethodPost) then
                let '(status, resp, err) := post_status (post url) in
                (err, Some (mkDone "" url status now resp))
              else (Some "request method not support", None)
          end
      end
  end.

End do.

(** ** Reference: the same changes on lists and on maps *)

Definition ref_item (l : list AgentConfigMsg) (v : AgentConfigMsg) : list AgentConfigMsg :=
  match list_find (λ m, Name m = Name v) l with
  | Some (k, _) => if all_empty v then delete k l else alter (overwrite v) k l
  | None => if all_empty v then l else l ++ [v]
  end.

Definition by_name (l : list AgentConfigMsg) : gmap string AgentConfigMsg :=
  list_to_map ((λ m, (Name m, m)) <$> l).

(** The item that names a plugin and says nothing else of it. *)
Definition bare (n : string) : AgentConfigMsg := mkMsg n "" "" "" "" [] "".

(** The item [new] on top of the item [old]: a field that is not set keeps its value. *)
Definition on_top {A} `{EqDecision A} (unset : A) (f : AgentConfigMsg → A) (new old : AgentConfigMsg) : A :=
  if decide (f new = unset) then f old else f new.
Definition patched (new old : AgentConfigMsg) : AgentConfigMsg :=
  let text f := on_top "" f new old in
  mkMsg (Name new) (text Type_) (text Signature) (text Version) (text SHA256)
    (on_top [] DownloadURL new old) (text Detail).

(** What a change means for a configuration as a map: the bare item removes, another item
    is put on top of the one there is, or added. *)
Definition change_map (m : gmap string AgentConfigMsg) (v : AgentConfigMsg) : gmap string AgentConfigMsg :=
  if decide (v = bare (Name v)) then delete (Name v) m
  else <[Name v := from_option (patched v) v (m !! Name v)]> m.

(** ** Slices behave as lists *)

Section lemmas.
Context (grow : nat → nat).

Lemma new_slice_spec l extra h h' s :
  new_slice l extra h = (h', s) →
  slice_wf h' s ∧ contents h' s = l ∧ (∀ i, i < length h → h' !! i = h !! i) ∧
  length h ≤ length h' ∧ length h = arr s.
Proof.
  unfold new_slice. intros [= <- <-]. unfold slice_wf, contents. cbn [arr slen].
  assert ((h ++ [l ++ replicate extra zero_msg]) !! length h = Some (l ++ replicate extra zero_msg)) as Hl.
  { by rewrite lookup_app_r, Nat.sub_diag by lia. }
  repeat split.
  - eexists. split; [done|]. rewrite length_app. lia.
  - rewrite Hl. cbn [from_option id]. by rewrite take_app_length.
  - intros i Hi. by rewrite lookup_app_l.
  - rewrite length_app. lia.
Qed.

(** What an operation on a slice may do to the heap: it writes the array of the slice or
    a new one. *)
Definition only_touches (h : heap) (s : slice) (h' : heap) (s' : slice) : Prop :=
  length h ≤ length h' ∧ (∀ i, i < length h → i ≠ arr s → h' !! i = h !! i) ∧
  (arr s' = arr s ∨ length h ≤ arr s').

Lemma contents_at h s a : h !! arr s = Some a → contents h s = take (slen s) a.
Proof. intros Ha. unfold contents. by rewrite Ha. Qed.

Lemma contents_alter h i a n f :
  h !! i = Some a → contents (alter f i h) (mkSlice i n) = take n (f a).
Proof. intros Ha. unfold contents. cbn [arr slen]. by rewrite list_lookup_alter_eq, Ha. Qed.

Lemma alter_wf h i a n f :
  h !! i = Some a → n ≤ length (f a) → slice_wf (alter f i h) (mkSlice i n).
Proof. intros Ha Hn. exists (f a). cbn [arr slen]. by rewrite list_lookup_alter_eq, Ha. Qed.

Lemma alter_touches h s f n : only_touches h s (alter f (arr s) h) (mkSlice (arr s) n).
Proof.
  repeat split; [by rewrite length_alter | | by left].
  intros i _ Hi. by rewrite list_lookup_alter_ne.
Qed.

Lemma touches_refl h s : only_touches h s h s.
Proof. repeat split; auto with lia. Qed.

Lemma remove_at_spec h s k h' s' :
  slice_wf h s → k < slen s → remove_at s k h = (h', s') →
  slice_wf h' s' ∧ contents h' s' = delete k (contents h s).
Proof.
  intros (a & Ha & Hlen) Hk. unfold remove_at. intros [= <- <-].
  split.
  - eapply alter_wf; [done|]. rewrite !length_app, length_drop, !length_take. lia.
  - erewrite contents_alter, (contents_at h s) by done. rewrite delete_take_drop, take_take, app_assoc, take_app_le.
    2:{ rewrite length_app, length_drop, !length_take. lia. }
    rewrite take_ge; [by rewrite Nat.min_l by lia|].
    rewrite length_app, length_drop, !length_take. lia.
Qed.

Lemma overwrite_spec h s k f :
  slice_wf h s →
  slice_wf (alter (alter f k) (arr s) h) s ∧
  contents (alter (alter f k) (arr s) h) s = alter f k (contents h s).
Proof.
  intros (a & Ha & Hlen). destruct s as [i n]. cbn [arr slen] in *.
  split.
  - eapply alter_wf; [done|]. by rewrite length_alter.
  - erewrite contents_alter, (contents_at h (mkSlice i n)) by done. cbn [slen].
    apply list_eq. intros j. destruct (decide (j < n)).
    + rewrite lookup_take_lt by done. destruct (decide (j = k)) as [->|].
      * by rewrite !list_lookup_alter_eq, lookup_take_lt.
      * by rewrite !list_lookup_alter_ne, lookup_take_lt by done.
    + rewrite !lookup_ge_None_2; [done|..]; rewrite ?length_alter, length_take; lia.
Qed.

Lemma append1_touches h s v h' s' : append1 grow s v h = (h', s') → only_touches h s h' s'.
Proof.
  unfold append1. case_decide; [intros [= <- <-]; apply alter_touches|].
  intros (_ & _ & Hf & Hl & Ha)%new_slice_spec. repeat split; [done| |lia].
  intros i Hi _. by apply Hf.
Qed.

Lemma append1_spec h s v h' s' :
  slice_wf h s → append1 grow s v h = (h', s') →
  slice_wf h' s' ∧ contents h' s' = contents h s ++ [v].
Proof.
  intros (a & Ha & Hlen). unfold append1. rewrite Ha. cbn [from_option id]. case_decide as Hroom.
  - intros [= <- <-]. split.
    + eapply alter_wf; [done|]. rewrite length_insert. lia.
    + erewrite contents_alter, (contents_at h s) by done.
      erewrite take_S_r by (by apply list_lookup_insert_eq). f_equal. by apply take_insert_ge.
  - by intros (Hw & Hc & _)%new_slice_spec.
Qed.

Lemma touches_trans h s h1 s1 h2 s2 :
  only_touches h s h1 s1 → only_touches h1 s1 h2 s2 → only_touches h s h2 s2.
Proof.
  intros (Hl1 & Hf1 & Ha1) (Hl & Hf & Ha). repeat split; [lia| |lia].
  intros i Hi Hne. rewrite Hf by lia. by apply Hf1.
Qed.

Lemma update_item_touches h s v h' s' : update_item grow (h, s) v = (h', s') → only_touches h s h' s'.
Proof.
  unfold update_item. destruct (list_find _ (contents h s)) as [[k x]|]; destruct (all_empty v).
  - intros [= <- <-]. apply alter_touches.
  - destruct s as [i n]. intros [= <- <-]. apply (alter_touches h (mkSlice i n)).
  - intros [= <- <-]. apply touches_refl.
  - apply append1_touches.
Qed.

Lemma updateConfig_touches changes h s h' s' :
  updateConfig grow changes (h, s) = (h', s') → only_touches h s h' s'.
Proof.
  unfold updateConfig. revert h s. induction changes as [|v changes IH]; intros h s; cbn [foldl].
  { intros [= <- <-]. apply touches_refl. }
  destruct (update_item grow (h, s) v) as [h1 s1] eqn:E. intros Hu.
  eapply touches_trans; [by eapply update_item_touches | by apply IH].
Qed.

Lemma update_item_spec h s v h' s' :
  slice_wf h s → update_item grow (h, s) v = (h', s') →
  slice_wf h' s' ∧ contents h' s' = ref_item (contents h s) v.
Proof.
  intros Hs. unfold update_item, ref_item.
  destruct (list_find _ (contents h s)) as [[k x]|] eqn:Hf; destruct (all_empty v).
  - apply remove_at_spec; [done|]. apply list_find_Some in Hf as (Hk%lookup_lt_Some & _).
    revert Hk. unfold contents. rewrite length_take. lia.
  - intros [= <- <-]. by apply overwrite_spec.
  - by intros [= <- <-].
  - by apply append1_spec.
Qed.

Lemma updateConfig_spec changes h s h' s' :
  slice_wf h s → updateConfig grow changes (h, s) = (h', s') →
  slice_wf h' s' ∧ contents h' s' = foldl ref_item (contents h s) changes.
Proof.
  unfold updateConfig. revert h s. induction changes as [|v changes IH]; intros h s Hs; cbn [foldl].
  { by intros [= <- <-]. }
  destruct (update_item grow (h, s) v) as [h1 s1] eqn:E.
  destruct (update_item_spec _ _ _ _ _ Hs E) as (Hs1 & <-). by apply IH.
Qed.

(** ** Lists of items behave as maps *)

Lemma by_name_lookup l n x :
  NoDup (Name <$> l) → by_name l !! n = Some x ↔ x ∈ l ∧ Name x = n.
Proof.
  intros Hnd. unfold by_name. rewrite <-elem_of_list_to_map.
  - rewrite list_elem_of_fmap. naive_solver.
  - rewrite <-list_fmap_compose. done.
Qed.

Lemma list_find_name l n :
  NoDup (Name <$> l) →
  match list_find (λ m, Name m = n) l with
  | Some (k, x) => l !! k = Some x ∧ Name x = n ∧ by_name l !! n = Some x
  | None => by_name l !! n = None
  end.
Proof.
  intros Hnd. destruct (list_find (λ m, Name m = n) l) as [[k x]|] eqn:Hf.
  - apply list_find_Some in Hf as (Hk & Hn & _). split_and!; [done|done|].
    apply by_name_lookup; [done|]. split; [|done]. by eapply list_elem_of_lookup_2.
  - apply list_find_None in Hf. rewrite Forall_forall in Hf.
    destruct (by_name l !! n) as [x|] eqn:E; [|done].
    apply by_name_lookup in E as [Hin ?]; [|done]. by destruct (Hf x Hin).
Qed.

Lemma alter_middle {A} (f : A → A) l1 x l2 : alter f (length l1) (l1 ++ x :: l2) = l1 ++ f x :: l2.
Proof. induction l1 as [|y l1 IH]; cbn; [done|]. by f_equal. Qed.

Lemma by_name_middle l1 x l2 :
  NoDup (Name <$> l1 ++ x :: l2) →
  NoDup (Name <$> l1 ++ l2) ∧ Name x ∉ Name <$> l1 ++ l2 ∧
  by_name (l1 ++ x :: l2) = <[Name x := x]> (by_name (l1 ++ l2)).
Proof.
  intros Hnd. assert (l1 ++ x :: l2 ≡ₚ x :: l1 ++ l2) as Hp by (by rewrite Permutation_middle).
  pose proof Hnd as Hnd'. rewrite Hp in Hnd'. cbn in Hnd'. apply NoDup_cons in Hnd' as [Hx Hnd'].
  split_and!; [done|done|]. unfold by_name.
  change (<[Name x := x]> (list_to_map ((λ m, (Name m, m)) <$> l1 ++ l2)) : gmap _ _)
    with (list_to_map ((Name x, x) :: ((λ m, (Name m, m)) <$> l1 ++ l2)) : gmap string AgentConfigMsg).
  apply list_to_map_proper; [by rewrite <-list_fmap_compose|].
  change ((Name x, x) :: ((λ m, (Name m, m)) <$> l1 ++ l2)) with ((λ m, (Name m, m)) <$> x :: l1 ++ l2).
  by rewrite Hp.
Qed.

Lemma by_name_None l n : n ∉ Name <$> l → by_name l !! n = None.
Proof. intros Hn. unfold by_name. apply not_elem_of_list_to_map_1. by rewrite <-list_fmap_compose. Qed.

Lemma all_empty_bare v : all_empty v = bool_decide (v = bare (Name v)).
Proof.
  unfold all_empty, bare. apply bool_decide_ext. destruct v. simpl. split; [naive_solver|by intros [=->->->->->->]].
Qed.

Lemma overwrite_patched v m : Name m = Name v → overwrite v m = patched v m.
Proof. intros Hn. unfold overwrite, patched, on_top, over. rewrite Hn. f_equal. by repeat case_decide. Qed.

Lemma ref_item_map l v :
  NoDup (Name <$> l) →
  NoDup (Name <$> ref_item l v) ∧ by_name (ref_item l v) = change_map (by_name l) v.
Proof.
  intros Hnd. pose proof (list_find_name l (Name v) Hnd) as Hf. unfold ref_item, change_map.
  rewrite all_empty_bare.
  destruct (list_find _ l) as [[k x]|]; [destruct Hf as (Hk & Hx & ->)|rewrite Hf].
  - apply list_elem_of_split_length in Hk as (l1 & l2 & -> & ->).
    destruct (by_name_middle _ _ _ Hnd) as (Hnd' & Hnot & Hmap).
    rewrite Hmap, <-Hx. cbn [from_option].
    case_bool_decide as Hb; [rewrite decide_True by congruence|rewrite decide_False by congruence].
    + rewrite delete_middle. split; [done|]. rewrite delete_insert_eq. symmetry. apply delete_id, by_name_None, Hnot.
    + rewrite alter_middle, insert_insert_eq, <-overwrite_patched by done. change (Name x) with (Name (overwrite v x)).
      assert (NoDup (Name <$> l1 ++ overwrite v x :: l2)) as Hnd''.
      { revert Hnd. by rewrite !fmap_app. }
      split; [done|]. apply by_name_middle, Hnd''.
  - case_bool_decide; [rewrite decide_True, delete_id by done; done|rewrite decide_False by done].
    cbn [from_option]. assert (Name v ∉ Name <$> l) as Hnot.
    { intros (y & Hy & Hin)%list_elem_of_fmap.
      assert (by_name l !! Name v = Some y) as E by (apply by_name_lookup; done). congruence. }
    assert (NoDup (Name <$> l ++ [v])) as Hnd'.
    { rewrite fmap_app. apply NoDup_app. split_and!; [done| |apply NoDup_singleton].
      intros n Hn ->%list_elem_of_singleton. done. }
    split; [done|]. destruct (by_name_middle _ _ _ Hnd') as (_ & _ & ->). by rewrite app_nil_r.
Qed.

Lemma ref_items_map changes l :
  NoDup (Name <$> l) →
  NoDup (Name <$> foldl ref_item l changes) ∧
  by_name (foldl ref_item l changes) = foldl change_map (by_name l) changes.
Proof.
  revert l. induction changes as [|v changes IH]; intros l Hl; [done|]. cbn [foldl].
  destruct (ref_item_map l v Hl) as [Hl' <-]. by apply IH.
Qed.

(** ** Distribution *)

(** A job and the subtask written for it. *)
Definition recorded (p : AgentJobParam) (j : JobArgs) (s : SubTaskStart) : Prop :=
  sAgent s = jAgent j ∧ sToken s = jToken j ∧ sData s = jCommand j ∧
  sTask s = TaskID p ∧ sJob s = JobID p ∧ sStatus s = TaskStatusRunning.

Definition dist_ok (p : AgentJobParam) (d : dist) : Prop :=
  NoDup (jAgent <$> djobs d) ∧ (∀ a, a ∈ jAgent <$> djobs d ↔ a ∈ agentIDMap d) ∧
  Forall2 (recorded p) (djobs d) (dsubs d).

Definition supported : list string := [TypeAgentConfig; TypeAgentTask; TypeAgentCtrl].

Lemma command_for_supported name req dft token hb rm h :
  name ∈ supported → is_Some (command_for grow name req dft token hb rm h).2.
Proof.
  intros Hn. unfold command_for. repeat case_decide; [|by eexists..|].
  - destruct (new_slice _ _ _) as [h1 own]. destruct (updateConfig _ _ _). by eexists.
  - exfalso. clear -Hn H H0 H1. unfold supported in Hn. set_solver.
Qed.

Lemma distribute_one_ok name p dft token ck rm api hb d :
  name ∈ supported → dist_ok p d → dist_ok p (distribute_one grow name p dft token ck rm api hb d).
Proof.
  intros Hn (Hnd & Hin & HF). unfold distribute_one. case_decide as Hseen; [done|].
  pose proof (command_for_supported name (ConfigTask p) dft token hb rm (dheap d) Hn) as [cmd Hcmd].
  destruct (command_for _ _ _ _ _ _ _ _) as [h' ?]. cbn [snd] in Hcmd. subst. destruct ck as [[? ?] ?].
  split_and!; cbn [djobs dsubs agentIDMap].
  - rewrite fmap_app. apply NoDup_app. split_and!; [done| |apply NoDup_singleton].
    intros a Ha%Hin ->%list_elem_of_singleton. done.
  - intros a. rewrite fmap_app, elem_of_app, Hin, elem_of_union, elem_of_singleton.
    cbn. rewrite list_elem_of_singleton. tauto.
  - apply Forall2_app; [done|]. by constructor.
Qed.

Context (tokens : nat → string) (clock : nat → Z * Z * Z) (room : nat → nat).

(** A step of the distribution writes new arrays and that of the default configuration. *)
Lemma command_for_frame name req dft token hb rm h h' cmd :
  command_for grow name req dft token hb rm h = (h', cmd) →
  length h ≤ length h' ∧ ∀ i, i < length h → i ≠ arr dft → h' !! i = h !! i.
Proof.
  unfold command_for. case_decide; [|repeat case_decide; intros [= <- <-]; by auto].
  destruct (new_slice (hbConfig hb) rm h) as [h1 own] eqn:En. apply new_slice_spec in En as (_ & _ & Hf & Hl & Ha).
  assert (∀ i, i < length h → i ≠ arr dft → i ≠ arr (if decide (slen own = 0) then dft else own)) as Hne.
  { intros i Hi Hd. case_decide; [done|lia]. }
  destruct (updateConfig grow (Config req) _) as [h2 s2] eqn:Eu. intros [= <- <-].
  apply updateConfig_touches in Eu as (Hl2 & Hf2 & _). split; [lia|].
  intros i Hi Hd. rewrite Hf2 by (lia || by apply Hne). by apply Hf.
Qed.

Lemma distribute_one_frame name p dft token ck rm api hb d :
  let d' := distribute_one grow name p dft token ck rm api hb d in
  length (dheap d) ≤ length (dheap d') ∧
  (∀ i, i < length (dheap d) → i ≠ arr dft → dheap d' !! i = dheap d !! i) ∧
  djobs d `prefix_of` djobs d'.
Proof.
  unfold distribute_one. case_decide; [by cbn; auto|].
  destruct (command_for _ _ _ _ _ _ _ _) as [h' cmd] eqn:E. apply command_for_frame in E as [Hl Hf].
  destruct cmd; [|by cbn; auto]. destruct ck as [[? ?] ?]. cbn. split_and!; [done|done|by eexists].
Qed.

Lemma distribute_loop_frame name p dft api i cursor d :
  let d' := distribute_loop grow tokens clock room name p dft api i cursor d in
  length (dheap d) ≤ length (dheap d') ∧
  (∀ i, i < length (dheap d) → i ≠ arr dft → dheap d' !! i = dheap d !! i) ∧
  djobs d `prefix_of` djobs d'.
Proof.
  revert i d. induction cursor as [|[hb|err] cursor IH]; intros i d; cbn [distribute_loop]; [by cbn; auto| |apply IH].
  pose proof (distribute_one_frame name p dft (tokens i) (clock i) (room i) api hb d) as (Hl & Hf & Hp).
  pose proof (IH (S i) (distribute_one grow name p dft (tokens i) (clock i) (room i) api hb d)) as (Hl' & Hf' & Hp').
  split_and!; [lia| |by etrans]. intros j Hj Hne. rewrite Hf' by lia. by apply Hf.
Qed.

(** What a job for an agent with a configuration of its own carries. *)
Definition carries_own (changes : list AgentConfigMsg) (hb : AgentHBInfo) (dft : slice) (h : heap) (j : JobArgs) : Prop :=
  jAgent j = AgentId hb ∧ jHost j = host_port (SourceIp hb) (SourcePort hb) ∧
  ∃ s, jCommand j = CmdConfig s ∧ contents h s = foldl ref_item (hbConfig hb) changes ∧
       arr s < length h ∧ arr s ≠ arr dft.

Lemma distribute_one_own p dft token ck rm api hb d :
  arr dft < length (dheap d) → AgentId hb ∉ agentIDMap d → hbConfig hb ≠ [] →
  let d' := distribute_one grow TypeAgentConfig p dft token ck rm api hb d in
  ∃ j, j ∈ djobs d' ∧ carries_own (Config (ConfigTask p)) hb dft (dheap d') j.
Proof.
  intros Hd Hseen Hown. unfold distribute_one. rewrite decide_False by done.
  unfold command_for. rewrite decide_True by done.
  destruct (new_slice (hbConfig hb) rm (dheap d)) as [h1 own] eqn:En. pose proof En as En'.
  apply new_slice_spec in En as (Hw & Hc & Hf & Hl & Ha).
  assert (slen own ≠ 0) as Hne.
  { injection En' as <- <-. cbn. by destruct (hbConfig hb). }
  rewrite decide_False by done.
  destruct (updateConfig grow (Config (ConfigTask p)) (h1, own)) as [h2 s2] eqn:Eu.
  destruct (updateConfig_spec _ _ _ _ _ Hw Eu) as [(a & Ha2 & _) Hc2].
  apply updateConfig_touches in Eu as (Hl2 & _ & Harr). destruct ck as [[? ?] ?]. cbn.
  eexists. split; [apply elem_of_app; right; by apply list_elem_of_singleton|].
  split_and!; [done|done|]. exists s2. split_and!; [done|by rewrite Hc2, Hc| |lia].
  by eapply lookup_lt_Some.
Qed.

Lemma carries_own_frame changes hb dft h h' j :
  (∀ i, i < length h → i ≠ arr dft → h' !! i = h !! i) → length h ≤ length h' →
  carries_own changes hb dft h j → carries_own changes hb dft h' j.
Proof.
  intros Hf Hl (Ha & Hh & s & Hs & Hc & Hlt & Hne). split_and!; [done|done|].
  exists s. split_and!; [done| |lia|done]. rewrite <-Hc. unfold contents. by rewrite Hf.
Qed.

Lemma distribute_loop_seen name p dft api i cursor d a :
  a ∈ agentIDMap (distribute_loop grow tokens clock room name p dft api i cursor d) ↔
  a ∈ agentIDMap d ∨ ∃ hb, inl hb ∈ cursor ∧ AgentId hb = a.
Proof.
  revert i d. induction cursor as [|[hb|err] cursor IH]; intros i d; cbn [distribute_loop].
  - split; [by left|]. intros [|(? & []%elem_of_nil & _)]; done.
  - rewrite IH. setoid_rewrite elem_of_cons.
    assert (agentIDMap (distribute_one grow name p dft (tokens i) (clock i) (room i) api hb d)
            = {[AgentId hb]} ∪ agentIDMap d) as ->.
    { unfold distribute_one. case_decide; [set_solver|].
      destruct (command_for _ _ _ _ _ _ _ _) as [? [|]]; destruct (clock i) as [[? ?] ?]; done. }
    set_solver.
  - rewrite IH. setoid_rewrite elem_of_cons. naive_solver.
Qed.

Lemma distribute_loop_own p dft api i pre hb post d :
  arr dft < length (dheap d) → AgentId hb ∉ agentIDMap d →
  (∀ hb', inl hb' ∈ pre → AgentId hb' ≠ AgentId hb) → hbConfig hb ≠ [] →
  let d' := distribute_loop grow tokens clock room TypeAgentConfig p dft api i (pre ++ inl hb :: post) d in
  ∃ j, j ∈ djobs d' ∧ carries_own (Config (ConfigTask p)) hb dft (dheap d') j.
Proof.
  revert i d. induction pre as [|[hb'|err] pre IH]; intros i d Hd Hseen Hpre Hown; cbn [distribute_loop app].
  - destruct (distribute_one_own p dft (tokens i) (clock i) (room i) api hb d Hd Hseen Hown) as (j & Hj & Hc).
    pose proof (distribute_loop_frame TypeAgentConfig p dft api (S i) post
      (distribute_one grow TypeAgentConfig p dft (tokens i) (clock i) (room i) api hb d)) as (Hl & Hf & Hp).
    exists j. split; [by eapply elem_of_prefix | by eapply carries_own_frame].
  - apply IH; [| |set_solver|done].
    + destruct (distribute_one_frame TypeAgentConfig p dft (tokens i) (clock i) (room i) api hb' d) as [Hl _]. lia.
    + pose proof (distribute_loop_seen TypeAgentConfig p dft api i [inl hb'] d (AgentId hb)) as Hs.
      cbn [distribute_loop] in Hs. rewrite Hs. intros [|(? & ?%list_elem_of_singleton & ?)]; [done|].
      simplify_eq. eapply Hpre; [by left|done].
  - apply IH; [done|done|set_solver|done].
Qed.

Lemma distribute_loop_ok name p dft api i cursor d :
  name ∈ supported → dist_ok p d →
  dist_ok p (distribute_loop grow tokens clock room name p dft api i cursor d).
Proof.
  intros Hn. revert i d. induction cursor as [|[hb|err] cursor IH]; intros i d Hd; cbn [distribute_loop];
    [done| |by apply IH]. by apply IH, distribute_one_ok.
Qed.

Lemma distribute_jobs name p dft rm cursor d :
  name ∈ supported →
  AgentControlDistribute grow tokens clock room name p dft rm (inl cursor) = inl d →
  NoDup (jAgent <$> djobs d) ∧
  (∀ a, a ∈ jAgent <$> djobs d ↔ ∃ hb, inl hb ∈ cursor ∧ AgentId hb = a) ∧
  Forall2 (recorded p) (djobs d) (dsubs d).
Proof.
  intros Hn. unfold AgentControlDistribute.
  destruct (if decide (name = TypeAgentConfig) then new_slice dft rm [] else ([], mkSlice 0 0)) as [h s].
  intros [= <-].
  destruct (distribute_loop_ok name p s (default command_api (ApiMap name)) 0 cursor (mkDist h ∅ [] [] []) Hn)
    as (Hnd & Hin & HF).
  { split_and!; [constructor|set_solver|constructor]. }
  split_and!; [done| |done]. intros a. rewrite Hin, distribute_loop_seen. set_solver.
Qed.

(** A distribution makes exactly one job for each agent the query returns, however
    often it returns it, and writes one running subtask for each job, with the same
    agent, token and command. *)
Theorem one_job_per_agent name p dft rm cursor d :
  name ∈ supported →
  AgentControlDistribute grow tokens clock room name p dft rm (inl cursor) = inl d →
  NoDup (jAgent <$> djobs d) ∧
  (∀ a, a ∈ jAgent <$> djobs d ↔ ∃ hb, inl hb ∈ cursor ∧ AgentId hb = a) ∧
  Forall2 (recorded p) (djobs d) (dsubs d).
Proof. by apply distribute_jobs. Qed.

Lemma own_config_job p dft rm pre hb post d :
  AgentControlDistribute grow tokens clock room TypeAgentConfig p dft rm (inl (pre ++ inl hb :: post)) = inl d →
  (∀ hb', inl hb' ∈ pre → AgentId hb' ≠ AgentId hb) →
  hbConfig hb ≠ [] → NoDup (Name <$> hbConfig hb) →
  ∃ j s, j ∈ djobs d ∧ jAgent j = AgentId hb ∧ jHost j = host_port (SourceIp hb) (SourcePort hb) ∧
    jCommand j = CmdConfig s ∧ NoDup (Name <$> contents (dheap d) s) ∧
    by_name (contents (dheap d) s) = foldl change_map (by_name (hbConfig hb)) (Config (ConfigTask p)).
Proof.
  unfold AgentControlDistribute. rewrite decide_True by done.
  destruct (new_slice dft rm []) as [h s0] eqn:En. intros [= <-] Hpre Hown Hnd.
  apply new_slice_spec in En as ((a & Ha & _) & _ & _ & _ & Harr).
  destruct (distribute_loop_own p s0 (default command_api (ApiMap TypeAgentConfig)) 0 pre hb post
              (mkDist h ∅ [] [] [])) as (j & Hj & Hag & Hh & s & Hs & Hc & _); [|set_solver|done|done|].
  { by eapply lookup_lt_Some. }
  destruct (ref_items_map (Config (ConfigTask p)) (hbConfig hb) Hnd) as [Hnd' Hmap].
  rewrite <-Hc in Hnd', Hmap. by exists j, s.
Qed.

(** An agent with a configuration of its own is sent that configuration with the
    changes of the task applied item by item (an item with only a name deletes, the set
    fields of any other item replace, an unknown item is added), whichever other agents
    are served by the same job and whatever arrays they share. *)
Theorem own_config_sent p dft rm pre hb post d :
  AgentControlDistribute grow tokens clock room TypeAgentConfig p dft rm (inl (pre ++ inl hb :: post)) = inl d →
  (∀ hb', inl hb' ∈ pre → AgentId hb' ≠ AgentId hb) →
  hbConfig hb ≠ [] → NoDup (Name <$> hbConfig hb) →
  ∃ j s, j ∈ djobs d ∧ jAgent j = AgentId hb ∧ jHost j = host_port (SourceIp hb) (SourcePort hb) ∧
    jCommand j = CmdConfig s ∧ NoDup (Name <$> contents (dheap d) s) ∧
    by_name (contents (dheap d) s) = foldl change_map (by_name (hbConfig hb)) (Config (ConfigTask p)).
Proof. by apply own_config_job. Qed.

End lemmas.

(** ** The default configuration is shared *)

Definition w_item (n : string) : AgentConfigMsg := mkMsg n "bin" "s" "1.0" "d" ["u"] "".
Definition w_del (n : string) : AgentConfigMsg := mkMsg n "" "" "" "" [] "".
Definition w_hb (a : string) (cfg : list AgentConfigMsg) : AgentHBInfo := mkHB a "10.0.0.1" 6751 cfg.
Definition w_param : AgentJobParam :=
  mkParam (mkRequest 0 (mkTaskMsg "" "" "" 0) [w_del "driver"; w_del "scanner"]) "task" "job".
Definition w_tokens (n : nat) : string := itoa (Z.of_nat n).

(** The configurations that the jobs of a distribution carry. *)
Definition sent (r : dist + string) : list (string * list string) :=
  match r with
  | inl d => (λ j, (jAgent j, match jCommand j with
                               | CmdConfig s => Name <$> contents (dheap d) s
                               | _ => [] end)) <$> djobs d
  | inr _ => []
  end.

(** Agents without a configuration of their own are not treated alike: when a task
    removes the plugins "driver" and "scanner" from the default configuration, the first
    such agent keeps only "journal", but the second is still sent "scanner".  The removal
    moves the items of the array that both configurations share. *)
Theorem shared_default_diverges :
  sent (AgentControlDistribute (λ n, n) w_tokens (λ _, (1, 1, 1)%Z) (λ _, 0) TypeAgentConfig w_param
          [w_item "driver"; w_item "journal"; w_item "scanner"] 0
          (inl [inl (w_hb "a" []); inl (w_hb "b" [])]))
  = [("a", ["journal"]); ("b", ["journal"; "scanner"])].
Proof. vm_compute. reflexivity. Qed.

Lemma own_config_sent_witness :
  ∃ d j s, AgentControlDistribute (λ n, n) w_tokens (λ _, (1, 1, 1)%Z) (λ _, 0) TypeAgentConfig w_param
      [w_item "driver"; w_item "journal"] 0
      (inl [inl (w_hb "a" []); inl (w_hb "b" [w_item "driver"; w_item "rasp"])]) = inl d ∧
    j ∈ djobs d ∧ jAgent j = "b" ∧ jCommand j = CmdConfig s ∧
    by_name (contents (dheap d) s) = {["rasp" := w_item "rasp"]}.
Proof.
  eexists _. edestruct (own_config_sent (λ n, n) w_tokens (λ _, (1, 1, 1)%Z) (λ _, 0) w_param
    [w_item "driver"; w_item "journal"] 0 [inl (w_hb "a" [])] (w_hb "b" [w_item "driver"; w_item "rasp"]) [])
    as (j & s & Hj & Ha & _ & Hc & _ & Hm); [reflexivity|..].
  - intros hb' [= ->]%list_elem_of_singleton. by vm_compute.
  - done.
  - vm_compute. repeat constructor; set_solver.
  - exists j, s. split_and!; [reflexivity|exact Hj|exact Ha|exact Hc|].
    etransitivity; [exact Hm|]. vm_compute. reflexivity.
Defined.

Lemma one_job_per_agent_witness :
  ∃ d, AgentControlDistribute (λ n, n) w_tokens (λ _, (1, 1, 1)%Z) (λ _, 0) TypeAgentTask w_param [] 0
      (inl [inl (w_hb "a" []); inr "decode"; inl (w_hb "a" []); inl (w_hb "b" [])]) = inl d ∧
    NoDup (jAgent <$> djobs d) ∧ Forall2 (recorded w_param) (djobs d) (dsubs d).
Proof.
  eexists. split; [reflexivity|].
  edestruct (one_job_per_agent (λ n, n) w_tokens (λ _, (1, 1, 1)%Z) (λ _, 0) TypeAgentTask w_param [] 0
    [inl (w_hb "a" []); inr "decode"; inl (w_hb "a" []); inl (w_hb "b" [])]) as (H1 & _ & H2); [|reflexivity|].
  - vm_compute. right. left.
  - by split.
Defined.

(** The second version makes one job per agent, too. *)
Lemma distributeV2_jobs name p api ck i seen cursor :
  let l := distributeV2_loop name p api ck i seen cursor in
  NoDup ((λ js, vAgent js.1) <$> l) ∧
  (∀ a, a ∈ (λ js, vAgent js.1) <$> l ↔ a ∉ seen ∧ ∃ hb, inl hb ∈ cursor ∧ AgentId hb = a) ∧
  Forall (λ js, v_agent js.2 = vAgent js.1 ∧ v_status js.2 = TaskStatusRunning) l.
Proof.
  revert i seen. induction cursor as [|[hb|e] cursor IH]; intros i seen; cbn [distributeV2_loop].
  - split_and!; [constructor|set_solver|constructor].
  - case_decide as Hs.
    + destruct (IH (S i) seen) as (Hnd & Hin & HF). split_and!; [done| |done].
      intros a. rewrite Hin. set_solver.
    + destruct (IH (S i) ({[AgentId hb]} ∪ seen)) as (Hnd & Hin & HF). rewrite fmap_cons. split_and!.
      * constructor; [|done]. cbn [fst vAgent]. rewrite Hin. set_solver.
      * intros a. rewrite elem_of_cons, Hin. cbn [fst vAgent]. destruct (decide (a = AgentId hb)) as [->|]; set_solver.
      * by constructor.
  - destruct (IH (S i) seen) as (Hnd & Hin & HF). split_and!; [done| |done].
    intros a. rewrite Hin. set_solver.
Qed.

(** The status of a posted job. *)
Lemma post_status_success svr_code r :
  (post_status svr_code r).1.1 = TaskStatusSuccess ↔
  ∃ r', r = inl r' ∧ (200 ≤ StatusCode r' < 300)%Z ∧ svr_code (body r') = inl 0%Z.
Proof.
  unfold post_status, resp_Ok. destruct r as [r|err].
  - case_bool_decide as Hok; [destruct (svr_code (body r)) as [code|err] eqn:Ec; [case_decide as Hc|]|]; cbn [fst].
    + subst code. split; [intros _; by exists r | done].
    + split; [done|]. intros (r' & [= <-] & _ & Hr). congruence.
    + split; [done|]. intros (r' & [= <-] & _ & Hr). congruence.
    + split; [done|]. by intros (r' & [= <-] & Hr & _).
  - split; [done|]. by intros (r' & [=] & _).
Qed.

(** In both versions, a posted job is recorded as succeeded exactly if the agent center
    answered with a status of success and with code 0 (and, in the second version, the
    command was found). *)
Theorem AgentControlDo_status svr_code now ja token found post :
  mArgs ja = Some (Some token) → mMethod ja ∈ [HttpMethodGet; HttpMethodPost] →
  let url := mScheme ja +:+ "://" +:+ mHost ja +:+ mPath ja in
  let accepted := ∃ r, post url = inl r ∧ (200 ≤ StatusCode r < 300)%Z ∧ svr_code (body r) = inl 0%Z in
  (∃ err done, AgentControlDo svr_code now (inl ja) post = Ret (err, Some done) ∧
     dToken done = token ∧ dUrl done = url ∧ (dStatus done = TaskStatusSuccess ↔ accepted)) ∧
  (∃ err done, AgentControlDoV2 svr_code now (inl ja) found post = (err, Some done) ∧
     dUrl done = url ∧ (dStatus done = TaskStatusSuccess ↔ found = None ∧ accepted)).
Proof.
  intros Ha Hm url accepted. unfold AgentControlDo, AgentControlDoV2. rewrite Ha, !decide_True by set_solver. fold url.
  pose proof (post_status_success svr_code (post url)) as Hp. fold accepted in Hp.
  destruct (post_status svr_code (post url)) as [[st resp] err]. cbn [fst] in Hp. split.
  - eexists _, _. by split.
  - destruct found as [e|]; eexists _, _; (split; [done|]); (split; [done|]); cbn [dStatus];
      [split; [done|by intros [[=] _]]|]. rewrite Hp. split; [by split|by intros [_ ?]].
Qed.

Lemma AgentControlDo_status_witness :
  ∃ err done, AgentControlDo (λ _, inl 0%Z) 7 (inl (mkJobMsg "https" "10.0.0.2:6752" "/command" "POST" (Some (Some "t"))))
      (λ _, inl (mkResponse 200 "{}")) = Ret (err, Some done) ∧ dStatus done = TaskStatusSuccess.
Proof.
  destruct (AgentControlDo_status (λ _, inl 0%Z) 7 (mkJobMsg "https" "10.0.0.2:6752" "/command" "POST" (Some (Some "t")))
    "t" None (λ _, inl (mkResponse 200 "{}"))) as [(err & d & Hd & _ & _ & Hs) _].
  - reflexivity.
  - right. left.
  - exists err, d. split; [exact Hd|]. apply Hs. exists (mkResponse 200 "{}"). split_and!; [reflexivity|vm_compute; done|vm_compute; done|reflexivity].
Defined.

End AgentConfig.
