(* ===== verification/AgentTask.v ===== *)
(** * The manager: the life of a task

    Models [server/manager/internal/atask/task.go]: how the agents of a task are
    collected ([CreateTask]), how runs hand parts of the to-do list to jobs ([RunTask]),
    how a task is cancelled ([CancelTask]) and how its status is computed from the
    subtasks ([computeTaskStat]).  The database, the distributed lock and the job manager
    are services: an operation takes their answers as arguments and returns the calls it
    makes.  The second part puts the operations on one task together as a transition
    system, with the documented effect of a lock and of [$set] on a document.  [float64]
    is the IEEE 754 arithmetic of the standard library. *)

From Stdlib Require Import SpecFloat.
From S2P Require Import Prelude GoStrings AgentConfig.
From stdpp Require Import options.

Local Open Scope Z_scope.

Module AgentTask.
Import AgentConfig(TypeAgentConfig, TypeAgentTask, TypeAgentCtrl, TaskStatusCreated, TaskStatusRunning,
  TaskStatusFinished, TaskStatusStopped, TaskStatusFail, TaskStatusSuccess, TaskStatusResultFail,
  TaskStatusResultSuccess).

(** ** Floating point *)

(** [float64(n)]. *)
Definition float64 (n : Z) : spec_float := binary_normalize 53 1024 n 0 false.
Definition float_mul (x y : spec_float) : spec_float := SFmul 53 1024 x y.

(** [int(x)]: truncation; a value that is not an [int] becomes the least one (amd64). *)
Definition float_int (x : spec_float) : Z :=
  let keep z := if decide (in_s 64 z) then z else (- 2 ^ 63)%Z in
  match x with
  | S754_zero _ => 0%Z
  | S754_finite s m e =>
      let n := if decide (0 ≤ e)%Z then (Z.pos m * 2 ^ e)%Z else (Z.pos m / 2 ^ (- e))%Z in
      keep (if s then (- n)%Z else n)
  | _ => (- 2 ^ 63)%Z
  end.

(** ** Tasks *)

(** The fields of a task document that control it. *)
Record AgentTask := mkTask {
  TaskID : string; TaskType : string; Action : string; SubTaskRunningTimeout : Z;
  InnerStatus : string; TaskStatus : string; ToDoList : list string; IDCount : spec_float;
  DistributedCount : Z; JobList : list string;
  SubTaskCreated : Z; SubTaskRunning : Z; SubTaskFailed : Z; SubTaskSucceed : Z;
  CreateTime : Z; UpdateTime : Z
}.

(** The [$set] documents of the updates. *)
Inductive setter :=
| SetTodo (todo : list string) (count : spec_float) (time : Z)
| SetFinished (time : Z)
| SetRun (todo : list string) (inner : string) (distributed : Z) (jobs : list string) (time : Z)
| SetCancelled (time : Z)
| SetStat (created failed succeed running : Z) (status : string) (time : Z).

Definition apply_set (u : setter) (t : AgentTask) : AgentTask :=
  match u with
  | SetTodo todo count time =>
      mkTask (TaskID t) (TaskType t) (Action t) (SubTaskRunningTimeout t) (InnerStatus t) (TaskStatus t)
        todo count (DistributedCount t) (JobList t) (SubTaskCreated t) (SubTaskRunning t)
        (SubTaskFailed t) (SubTaskSucceed t) (CreateTime t) time
  | SetFinished time =>
      mkTask (TaskID t) (TaskType t) (Action t) (SubTaskRunningTimeout t) TaskStatusFinished (TaskStatus t)
        (ToDoList t) (IDCount t) (DistributedCount t) (JobList t) (SubTaskCreated t) (SubTaskRunning t)
        (SubTaskFailed t) (SubTaskSucceed t) (CreateTime t) time
  | SetRun todo inner distributed jobs time =>
      mkTask (TaskID t) (TaskType t) (Action t) (SubTaskRunningTimeout t) inner TaskStatusRunning
        todo (IDCount t) distributed jobs (SubTaskCreated t) (SubTaskRunning t)
        (SubTaskFailed t) (SubTaskSucceed t) (CreateTime t) time
  | SetCancelled time =>
      mkTask (TaskID t) (TaskType t) (Action t) (SubTaskRunningTimeout t) TaskStatusStopped TaskStatusStopped
        (ToDoList t) (IDCount t) (DistributedCount t) (JobList t) (SubTaskCreated t) (SubTaskRunning t)
        (SubTaskFailed t) (SubTaskSucceed t) (CreateTime t) time
  | SetStat created failed succeed running status time =>
      mkTask (TaskID t) (TaskType t) (Action t) (SubTaskRunningTimeout t) (InnerStatus t) status
        (ToDoList t) (IDCount t) (DistributedCount t) (JobList t) created running failed succeed
        (CreateTime t) time
  end.

(** The calls an operation makes: an update of the document, the release of the lock, the
    start of the goroutine that distributes a job, and what that goroutine does. *)
Inductive call :=
| CSet (u : setter)
| CUnlock
| CGo (job type : string) (todo : list string)
| CDistribute (job type : string) (todo : list string).

(** ** [RunTask] *)

(** The answers of the lock, the database, the job manager and the clock. *)
Record answers := mkAnswers {
  a_lock : bool + string; a_find : AgentTask + string; a_job : string + string; a_now : Z
}.

Definition run_result : Type := string * Z * option string.
Definition run_error (e : string) : run_result := ("", 0%Z, Some e).

Definition len {A} (l : list A) : Z := Z.of_nat (length l).

(** The number of agents a run asks for. *)
Definition run_count (rollPercent : spec_float) (runCount : Z) (t : AgentTask) : Z :=
  if SFltb (S754_zero false) rollPercent then
    let nCount := float_int (float_mul (IDCount t) rollPercent) in
    if decide (nCount = 0%Z) then 1%Z else nCount
  else runCount.

(** The part of the to-do list that is handed out, the rest, and the inner status. *)
Definition split_todo (nCount : Z) (todo : list string) : outcome (list string * list string * string) :=
  if decide (nCount < len todo)%Z then
    if decide (nCount < 0)%Z then Panic "slice bounds out of range"
    else Ret (take (Z.to_nat nCount) todo, drop (Z.to_nat nCount) todo, TaskStatusRunning)
  else Ret (todo, [], TaskStatusFinished).

Definition RunTask (rollPercent : spec_float) (runCount : Z) (a : answers) : outcome (list call * run_result) :=
  if SFleb rollPercent (S754_zero false) && bool_decide (runCount ≤ 0)%Z
  then Ret ([], run_error "rollPercent and runCount is 0")
  else
    match a_lock a with
    | inr e => Ret ([], run_error e)
    | inl false =>
        Ret ([], run_error "jobs is not not initialized or cannot be executed concurrently, please try later")
    | inl true =>
        match a_find a with
        | inr e => Ret ([CUnlock], run_error e)
        | inl dbTask =>
            if decide (InnerStatus dbTask = TaskStatusStopped ∨ InnerStatus dbTask = TaskStatusFinished)
            then Ret ([CUnlock], run_error "task is finished/stopped or the todo_list is empty")
            else if decide (ToDoList dbTask = [])
            then Ret ([CSet (SetFinished (UpdateTime dbTask)); CUnlock],
                      run_error "task is finished/stopped or the todo_list is empty")
            else
              let! (todoList, rest, inner) := split_todo (run_count rollPercent runCount dbTask) (ToDoList dbTask) in
              match a_job a with
              | inr e => Ret ([CUnlock], run_error e)
              | inl jID =>
                  Ret ([CGo jID (TaskType dbTask) todoList;
                        CSet (SetRun rest inner (DistributedCount dbTask + len todoList)
                                (JobList dbTask ++ [jID]) (a_now a))],
                       (jID, len todoList, None))
              end
        end
    end.

(** [CancelTask]; the lock is released when the function returns. *)
Definition CancelTask (a : answers) : list call * option string :=
  match a_lock a with
  | inr e => ([], Some e)
  | inl false => ([], Some "jobs is running, please try later")
  | inl true => ([CSet (SetCancelled (a_now a)); CUnlock], None)
  end.

(** ** [CreateTask] *)

(** The agents of a task: the heartbeats of the cursor that can be decoded, each agent
    once. *)
Fixpoint collect (seen : gset string) (cursor : list (string + string)) : list string :=
  match cursor with
  | [] => []
  | inr _ :: cursor => collect seen cursor
  | inl id :: cursor =>
      if decide (id ∈ seen) then collect seen cursor
      else id :: collect ({[id]} ∪ seen) cursor
  end.

(** The bulk writes of the subtasks: whenever 100 are pending, and the rest at the end. *)
Fixpoint bulk_writes (writes : list string) (todo : list string) : list (list string) :=
  match todo with
  | [] => if decide (0 < length writes)%nat then [writes] else []
  | id :: todo =>
      let writes := writes ++ [id] in
      if decide (length writes < 100)%nat then bulk_writes writes todo
      else writes :: bulk_writes [] todo
  end.

(** The goroutine that writes the subtasks: the bulk writes and the update of the task. *)
Definition write_subtasks (cursor : list (string + string)) (now : Z) : list (list string) * setter :=
  let todoList := collect ∅ cursor in
  (bulk_writes [] todoList, SetTodo todoList (float64 (len todoList)) now).

(** The document [CreateTask] inserts. *)
Definition new_task (taskID tType : string) (request : AgentTask) (now : Z) : AgentTask :=
  mkTask taskID tType (Action request) (SubTaskRunningTimeout request) TaskStatusCreated TaskStatusCreated
    [] (S754_zero false) 0 [] (SubTaskCreated request) (SubTaskRunning request) (SubTaskFailed request)
    (SubTaskSucceed request) now now.

(** ** [computeTaskStat] *)

(** The counts of the subtasks of a task by status, in the order the database returns
    them. *)
Definition add_count (agent_task : bool) (t : AgentTask) (g : string * Z) : AgentTask :=
  let '(st, n) := g in
  let upd created running failed succeed :=
    mkTask (TaskID t) (TaskType t) (Action t) (SubTaskRunningTimeout t) (InnerStatus t) (TaskStatus t)
      (ToDoList t) (IDCount t) (DistributedCount t) (JobList t)
      (SubTaskCreated t + created) (SubTaskRunning t + running) (SubTaskFailed t + failed)
      (SubTaskSucceed t + succeed) (CreateTime t) (UpdateTime t) in
  if decide (st = TaskStatusCreated) then upd n 0 0 0
  else if decide (st = TaskStatusSuccess) then if agent_task then upd 0 n 0 0 else upd 0 0 0 n
  else if decide (st = TaskStatusFail) then upd 0 0 n 0
  else if decide (st = TaskStatusRunning) then upd 0 n 0 0
  else if agent_task : bool then
    if decide (st = TaskStatusResultFail) then upd 0 0 n 0
    else if decide (st = TaskStatusResultSuccess) then upd 0 0 0 n
    else t
  else t.

Definition clear_counts (t : AgentTask) : AgentTask :=
  mkTask (TaskID t) (TaskType t) (Action t) (SubTaskRunningTimeout t) (InnerStatus t) (TaskStatus t)
    (ToDoList t) (IDCount t) (DistributedCount t) (JobList t) 0 0 0 0 (CreateTime t) (UpdateTime t).

(** The update [computeTaskStat] writes for the groups the database counted. *)
Definition computeTaskStat (task : AgentTask) (res : list (string * Z)) (now : Z) : setter :=
  let agent_task := bool_decide (TaskType task = TypeAgentTask ∧ Action task ≠ "reboot_agent") in
  let t := foldl (add_count agent_task) (clear_counts task) res in
  let status :=
    if decide (InnerStatus t ≠ TaskStatusCreated ∧ InnerStatus t ≠ TaskStatusRunning ∧
               DistributedCount t ≠ 0%Z ∧ SubTaskRunning t = 0%Z ∧
               DistributedCount t = (SubTaskSucceed t + SubTaskFailed t)%Z)
    then TaskStatusFinished else TaskStatus t in
  SetStat (SubTaskCreated t) (SubTaskFailed t) (SubTaskSucceed t) (SubTaskRunning t) status now.

(** ** One task, its lock and its runs *)

(** The document and the lock of a task, the calls still to be made by the functions and
    goroutines that work on it, and the lists of agents handed to jobs so far. *)
Record Sys := mkSys {
  doc : AgentTask; lock : bool; threads : list (list call); handed : list (list string)
}.

(** The effect of a call, and the goroutine it starts. *)
Definition perform (c : call) (s : Sys) : Sys :=
  match c with
  | CSet u => mkSys (apply_set u (doc s)) (lock s) (threads s) (handed s)
  | CUnlock => mkSys (doc s) false (threads s) (handed s)
  | CGo job ty todo => mkSys (doc s) (lock s) (threads s ++ [[CDistribute job ty todo; CUnlock]]) (handed s)
  | CDistribute _ _ todo => mkSys (doc s) (lock s) (threads s) (handed s ++ [todo])
  end.

Definition is_set (c : call) : bool := match c with CSet _ => true | _ => false end.
Definition no_set (l : list call) : Prop := Forall (λ c, is_set c = false) l.

(** A request that gets as far as the lock. *)
Definition asks (roll : spec_float) (n : Z) : bool :=
  negb (SFleb roll (S754_zero false) && bool_decide (n ≤ 0)).

(** [strict]: every update reaches the database, and none is still to be made when the lock
    is released. *)
Inductive step (strict : bool) : Sys → Sys → Prop :=
| step_run d ths hd roll n job now calls res :
    asks roll n = true →
    RunTask roll n (mkAnswers (inl true) (inl d) job now) = Ret (calls, res) →
    step strict (mkSys d false ths hd) (mkSys d true (calls :: ths) hd)
| step_panic d ths hd roll n job now why :
    (* the panic leaves the lock behind *)
    asks roll n = true →
    RunTask roll n (mkAnswers (inl true) (inl d) job now) = Panic why →
    step strict (mkSys d false ths hd) (mkSys d true ths hd)
| step_cancel d ths hd find job now :
    step strict (mkSys d false ths hd)
      (mkSys d true ((CancelTask (mkAnswers (inl true) find job now)).1 :: ths) hd)
| step_call d lk hd pre c rest post :
    (strict = true → c = CUnlock → Forall no_set (rest :: pre ++ post)) →
    step strict (mkSys d lk (pre ++ (c :: rest) :: post) hd)
      (perform c (mkSys d lk (pre ++ rest :: post) hd))
| step_lost d lk hd pre u rest post :
    strict = false →
    step strict (mkSys d lk (pre ++ (CSet u :: rest) :: post) hd) (mkSys d lk (pre ++ rest :: post) hd)
| step_stat d lk ths hd created failed succeed running status now :
    step strict (mkSys d lk ths hd)
      (mkSys (apply_set (SetStat created failed succeed running status now) d) lk ths hd).

(** A task whose subtasks have been written and that has not been run. *)
Definition ready (todo : list string) (s : Sys) : Prop :=
  ToDoList (doc s) = todo ∧ DistributedCount (doc s) = 0 ∧ JobList (doc s) = [] ∧
  lock s = false ∧ threads s = [] ∧ handed s = [].

(** *** The invariant of strict steps *)

Definition active (s : Sys) : list (list call) := filter (λ l, l ≠ []) (threads s).

(** The accounts of a document for the agents handed out. *)
Definition accounts (todo0 : list string) (d : AgentTask) (hd : list (list string)) : Prop :=
  concat hd ++ ToDoList d = todo0 ∧ DistributedCount d = len (concat hd) ∧ length (JobList d) = length hd.

(** Where a run stands: nothing running; only a release, or an update that leaves the list
    alone; before the goroutine starts; the goroutine running beside the update; the
    goroutine alone. *)
Inductive inv (todo0 : list string) (s : Sys) : Prop :=
| inv_idle : active s = [] → accounts todo0 (doc s) (handed s) → inv todo0 s
| inv_tail l : lock s = true → active s = [l] →
    (l = [CUnlock] ∨ (∃ u, l = [CSet u; CUnlock] ∧ ∀ d, ToDoList (apply_set u d) = ToDoList d ∧
       DistributedCount (apply_set u d) = DistributedCount d ∧ JobList (apply_set u d) = JobList d)) →
    accounts todo0 (doc s) (handed s) → inv todo0 s
| inv_run j ty todo rest inner n jobs now : lock s = true →
    active s = [[CGo j ty todo; CSet (SetRun rest inner n jobs now)]] →
    ToDoList (doc s) = todo ++ rest → n = DistributedCount (doc s) + len todo →
    jobs = JobList (doc s) ++ [j] → accounts todo0 (doc s) (handed s) → inv todo0 s
| inv_both m b rest inner n jobs now todo : lock s = true → active s ≡ₚ [m; b] →
    m = [CSet (SetRun rest inner n jobs now)] →
    ToDoList (doc s) = todo ++ rest → n = DistributedCount (doc s) + len todo →
    length jobs = S (length (JobList (doc s))) →
    (∃ j ty, b = [CDistribute j ty todo; CUnlock] ∧ accounts todo0 (doc s) (handed s)) ∨
    (b = [CUnlock] ∧ ∃ hd, handed s = hd ++ [todo] ∧ accounts todo0 (doc s) hd) → inv todo0 s
| inv_back todo j ty : lock s = true → active s = [[CDistribute j ty todo; CUnlock]] →
    accounts todo0 (doc s) (handed s ++ [todo]) → inv todo0 s.

Lemma split_todo_app n todo l r inner : split_todo n todo = Ret (l, r, inner) → todo = l ++ r.
Proof.
  unfold split_todo. repeat case_decide; intros [= <- <- <-]; [by rewrite take_drop | by rewrite app_nil_r].
Qed.

(** The calls of a run that holds the lock. *)
Lemma RunTask_calls roll n d job now calls res :
  asks roll n = true → RunTask roll n (mkAnswers (inl true) (inl d) job now) = Ret (calls, res) →
  calls = [CUnlock] ∨ calls = [CSet (SetFinished (UpdateTime d)); CUnlock] ∨
  ∃ j todo rest inner, ToDoList d = todo ++ rest ∧
    calls = [CGo j (TaskType d) todo;
             CSet (SetRun rest inner (DistributedCount d + len todo) (JobList d ++ [j]) now)].
Proof.
  unfold asks, RunTask. intros ->%negb_true_iff. cbn [a_lock a_find a_job a_now].
  case_decide; [intros [= <- <-]; by left|]. case_decide; [intros [= <- <-]; right; by left|].
  destruct (split_todo _ _) as [[[l rest] inner]|] eqn:Es; [|done]. cbn [obind].
  apply split_todo_app in Es. destruct job as [j|e]; intros [= <- <-]; [|by left].
  right. right. by exists j, l, rest, inner.
Qed.

Lemma active_call pre c rest post d lk hd :
  active (mkSys d lk (pre ++ (c :: rest) :: post) hd)
  = filter (λ l, l ≠ []) pre ++ (c :: rest) :: filter (λ l, l ≠ []) post.
Proof. unfold active. cbn [threads]. rewrite filter_app, filter_cons. by rewrite decide_True. Qed.

Lemma active_rest pre rest post d lk hd :
  active (mkSys d lk (pre ++ rest :: post) hd)
  = filter (λ l, l ≠ []) pre ++ filter (λ l, l ≠ []) [rest] ++ filter (λ l, l ≠ []) post.
Proof. unfold active. cbn [threads]. by rewrite <-!filter_app. Qed.

Lemma active_cons l ths d d' lk lk' hd :
  l ≠ [] → active (mkSys d' lk' ths hd) = [] → active (mkSys d lk (l :: ths) hd) = [l].
Proof. unfold active. cbn [threads]. intros Hl E. by rewrite filter_cons, decide_True, E. Qed.

(** A single active thread is the one that steps. *)
Lemma active_one pre (x y : list call) post :
  pre ++ x :: post = [y] → pre = [] ∧ post = [] ∧ x = y.
Proof. destruct pre as [|? [|]]; intros [=]; by subst. Qed.

Lemma active_two {A} (pre post : list A) x m b :
  pre ++ x :: post ≡ₚ [m; b] → (x = m ∧ pre ++ post = [b]) ∨ (x = b ∧ pre ++ post = [m]).
Proof.
  rewrite <-Permutation_middle. intros Hp. symmetry in Hp.
  apply Permutation_length_2_inv in Hp as [Hp|Hp]; injection Hp as -> ->; [by left|by right].
Qed.

Lemma accounts_same todo0 d d' hd :
  ToDoList d' = ToDoList d → DistributedCount d' = DistributedCount d → JobList d' = JobList d →
  accounts todo0 d hd → accounts todo0 d' hd.
Proof. unfold accounts. by intros -> -> ->. Qed.

(** Writing the result of a run balances the accounts. *)
Lemma accounts_run todo0 d hd todo rest inner n jobs now :
  ToDoList d = todo ++ rest → n = DistributedCount d + len todo → length jobs = S (length (JobList d)) →
  accounts todo0 d hd → accounts todo0 (apply_set (SetRun rest inner n jobs now) d) (hd ++ [todo]).
Proof.
  unfold accounts. cbn. intros Ht -> -> (<- & -> & ->). rewrite concat_app, Ht. cbn. rewrite app_nil_r.
  unfold len. rewrite !length_app, <-app_assoc. cbn. split_and!; [done|lia|lia].
Qed.

Lemma inv_call_tail todo0 d lk hd pre c rest post l :
  lk = true → active (mkSys d lk (pre ++ (c :: rest) :: post) hd) = [l] →
  l = [CUnlock] ∨ (∃ u, l = [CSet u; CUnlock] ∧ ∀ d, ToDoList (apply_set u d) = ToDoList d ∧
     DistributedCount (apply_set u d) = DistributedCount d ∧ JobList (apply_set u d) = JobList d) →
  accounts todo0 d hd → inv todo0 (perform c (mkSys d lk (pre ++ rest :: post) hd)).
Proof.
  rewrite active_call. intros -> (Hpre & Hpost & <-)%active_one Hl Hacc.
  destruct Hl as [[= -> ->]|(u & [= -> ->] & Hu)].
  - apply inv_idle; [|done]. cbn [perform doc lock threads handed]. by rewrite active_rest, Hpre, Hpost.
  - eapply inv_tail; [done| |by left|].
    + cbn [perform doc lock threads handed]. by rewrite active_rest, Hpre, Hpost.
    + cbn [perform doc lock threads handed]. destruct (Hu d) as (? & ? & ?). by eapply accounts_same.
Qed.

Lemma inv_call_run todo0 d lk hd pre c rest post j ty todo rest' inner n jobs now :
  lk = true →
  active (mkSys d lk (pre ++ (c :: rest) :: post) hd) = [[CGo j ty todo; CSet (SetRun rest' inner n jobs now)]] →
  ToDoList d = todo ++ rest' → n = DistributedCount d + len todo → jobs = JobList d ++ [j] →
  accounts todo0 d hd → inv todo0 (perform c (mkSys d lk (pre ++ rest :: post) hd)).
Proof.
  rewrite active_call. intros -> (Hpre & Hpost & [= -> ->])%active_one Ht Hn Hj Hacc.
  eapply (inv_both todo0 _ _ [CDistribute j ty todo; CUnlock] rest' inner n jobs now todo);
    [done| |done|done|done| |left; by exists j, ty].
  - cbn [perform doc lock threads handed]. unfold active. cbn [threads]. rewrite !filter_app, Hpre, filter_cons. rewrite decide_True by done.
    by rewrite Hpost.
  - cbn. rewrite Hj, length_app. cbn. lia.
Qed.

Lemma inv_call_both todo0 d lk hd pre c rest post m b rest' inner n jobs now todo :
  (c = CUnlock → Forall no_set (rest :: pre ++ post)) →
  lk = true → active (mkSys d lk (pre ++ (c :: rest) :: post) hd) ≡ₚ [m; b] →
  m = [CSet (SetRun rest' inner n jobs now)] →
  ToDoList d = todo ++ rest' → n = DistributedCount d + len todo → length jobs = S (length (JobList d)) →
  (∃ j ty, b = [CDistribute j ty todo; CUnlock] ∧ accounts todo0 d hd) ∨
    (b = [CUnlock] ∧ ∃ hd', hd = hd' ++ [todo] ∧ accounts todo0 d hd') →
  inv todo0 (perform c (mkSys d lk (pre ++ rest :: post) hd)).
Proof.
  rewrite active_call. intros Hstrict -> [[Hx Ho]|[Hx Ho]]%active_two Hm Ht Hn Hj Hb; rewrite <-Hx in *.
  - (* the update *)
    injection Hm as -> ->.
    destruct Hb as [(j & ty & -> & Hacc)|(-> & hd' & -> & Hacc)].
    + eapply (inv_back todo0 _ todo j ty); [done| |by apply accounts_run].
      cbn [perform doc lock threads handed]. by rewrite active_rest.
    + eapply inv_tail; [done| |by left|by apply accounts_run]. cbn [perform doc lock threads handed]. by rewrite active_rest.
  - destruct Hb as [(j & ty & [= -> ->] & Hacc)|([= -> ->] & hd' & -> & Hacc)].
    + (* the distribution *)
      eapply (inv_both todo0 _ m [CUnlock]); [done| |done|done|done|done|right; split; [done|by exists hd]].
      cbn [perform doc lock threads handed]. rewrite active_rest.
      change (filter (λ l : list call, l ≠ []) [[CUnlock]]) with [[CUnlock]].
      rewrite (Permutation_app_comm [[CUnlock]]), app_assoc, Ho. done.
    + (* the release is not made before the update *)
      exfalso. specialize (Hstrict eq_refl). apply Forall_cons in Hstrict as [_ Hns].
      assert (m ∈ pre ++ post) as Hin.
      { assert (m ∈ filter (λ l : list call, l ≠ []) (pre ++ post)) as [_ ?]%list_elem_of_filter; [|done].
        rewrite filter_app, Ho. by apply list_elem_of_singleton. }
      rewrite Forall_forall in Hns. specialize (Hns m Hin). subst m.
      by apply Forall_cons in Hns as [? _].
Qed.

Lemma inv_call_back todo0 d lk hd pre c rest post todo j ty :
  lk = true → active (mkSys d lk (pre ++ (c :: rest) :: post) hd) = [[CDistribute j ty todo; CUnlock]] →
  accounts todo0 d (hd ++ [todo]) → inv todo0 (perform c (mkSys d lk (pre ++ rest :: post) hd)).
Proof.
  rewrite active_call. intros -> (Hpre & Hpost & [= -> ->])%active_one Hacc.
  eapply inv_tail; [done| |by left|done]. cbn [perform doc lock threads handed]. by rewrite active_rest, Hpre, Hpost.
Qed.

Lemma step_inv todo0 s s' : step true s s' → inv todo0 s → inv todo0 s'.
Proof.
  intros [d ths hd roll n job now calls res Ha Hr|d ths hd roll n job now why Ha Hr|d ths hd find job now
         |d lk hd pre c rest post Hs|d lk hd pre u rest post Hs|d lk ths hd cr fa su ru st now] Hinv; [..|done|].
  - assert (active (mkSys d false ths hd) = [] ∧ accounts todo0 d hd) as [Hact Hacc] by (by destruct Hinv).
    destruct (RunTask_calls _ _ _ _ _ _ _ Ha Hr) as [->|[->|(j & todo & rest & inner & Ht & ->)]].
    + eapply inv_tail; [done| |by left|done]. by eapply active_cons.
    + apply (inv_tail _ _ [CSet (SetFinished (UpdateTime d)); CUnlock]); [done| |right; eexists; by repeat split|done]. by eapply active_cons.
    + eapply inv_run; [done| |done|done|done|done]. by eapply active_cons.
  - assert (active (mkSys d false ths hd) = [] ∧ accounts todo0 d hd) as [Hact Hacc] by (by destruct Hinv).
    by apply inv_idle.
  - assert (active (mkSys d false ths hd) = [] ∧ accounts todo0 d hd) as [Hact Hacc] by (by destruct Hinv).
    apply (inv_tail _ _ [CSet (SetCancelled now); CUnlock]); [done| |right; eexists; by repeat split|done]. by eapply active_cons.
  - specialize (Hs eq_refl). destruct Hinv as [Hact Hacc|l Hl Hact Hc Hacc|j ty todo rest' inner n jobs now Hl Hact Ht Hn Hj Hacc
      |m b rest' inner n jobs now todo Hl Hact Hm Ht Hn Hj Hb|todo j ty Hl Hact Hacc].
    + rewrite active_call in Hact. by destruct (filter _ pre).
    + by eapply inv_call_tail.
    + by eapply inv_call_run.
    + by eapply inv_call_both.
    + by eapply inv_call_back.
  - (* the status of a task is no part of the accounts *)
    destruct Hinv as [Hact Hacc|l Hl Hact Hc Hacc|j ty todo rest' inner n jobs now' Hl Hact Ht Hn Hj Hacc
      |m b rest' inner n jobs now' todo Hl Hact Hm Ht Hn Hj Hb|todo j ty Hl Hact Hacc].
    + by apply inv_idle.
    + by eapply inv_tail.
    + by eapply inv_run.
    + by eapply inv_both.
    + by eapply inv_back.
Qed.

(** [C6] Whatever runs and cancellations are asked for and however their goroutines and the
    computation of the status interleave, if every update reaches the database before the
    lock is released, the agents handed to jobs are a prefix of the to-do list of the task,
    in order and each once; and when nothing is running the document holds exactly the
    agents not handed out and the number of those that were. *)
Theorem runs_partition todo0 s0 s :
  reachable (λ s, s = s0) (step true) s → ready todo0 s0 →
  (∃ rest, concat (handed s) ++ rest = todo0) ∧
  (Forall (λ l, l = []) (threads s) →
     concat (handed s) ++ ToDoList (doc s) = todo0 ∧ DistributedCount (doc s) = len (concat (handed s)) ∧
     length (JobList (doc s)) = length (handed s)).
Proof.
  intros Hr (Ht & Hd & Hj & Hl & Hth & Hh).
  assert (inv todo0 s) as Hinv.
  { eapply reachable_invariant; [| |exact Hr].
    - intros s' ->. apply inv_idle; [by unfold active; rewrite Hth|]. unfold accounts. by rewrite Hh, Ht, Hd, Hj.
    - intros. by eapply step_inv. }
  split.
  - destruct Hinv as [? [? _]|? ? ? ? [? _]|? ? ? ? ? ? ? ? ? ? ? ? ? [? _]
      |? ? ? ? ? ? ? ? ? ? ? ? ? ? [(? & ? & _ & [? _])|(_ & hd' & -> & [Hc _])]|? ? ? ? ? [Hc _]]; eauto.
    + rewrite concat_app. cbn. rewrite app_nil_r. match goal with H : ToDoList _ = _ |- _ => rewrite H in Hc end.
      eexists. by rewrite <-app_assoc.
    + rewrite concat_app in Hc. cbn in Hc. rewrite app_nil_r, <-app_assoc in Hc. eauto.
  - intros Hnone. assert (active s = []) as Hact.
    { unfold active. induction Hnone as [|l ls -> _ IH]; [done|]. rewrite filter_cons. by rewrite decide_False by naive_solver. }
    destruct Hinv as [_ Hacc|? ? Ha|? ? ? ? ? ? ? ? ? Ha|? ? ? ? ? ? ? ? ? Ha|? ? ? ? Ha]; [done|..];
      rewrite Hact in Ha; try done. by apply Permutation_nil in Ha.
Qed.

(** ** Without that order *)

Definition w_task (todo : list string) : AgentTask :=
  mkTask "t1" TypeAgentTask "" 0 TaskStatusCreated TaskStatusCreated todo (float64 (len todo)) 0 [] 0 0 0 0 1 1.

Definition w_sys (todo : list string) : Sys := mkSys (w_task todo) false [] [].

(** The order matters: the goroutine that distributes a job releases the lock, and it
    does not wait for the update of the document.  There is a run in which every call
    succeeds and the only agent of a task is handed to two jobs, while the document counts
    one. *)
Theorem early_unlock_hands_twice :
  ∃ s, reachable (λ s, s = w_sys ["a"]) (step false) s ∧
    handed s = [["a"]; ["a"]] ∧ DistributedCount (doc s) = 1 ∧ JobList (doc s) = ["j2"].
Proof.
  set (set1 j := CSet (SetRun [] TaskStatusFinished 1 [j] 5)).
  assert (∀ j, RunTask (S754_zero false) 1 (mkAnswers (inl true) (inl (w_task ["a"])) (inl j) 5)
             = Ret ([CGo j TypeAgentTask ["a"]; set1 j], (j, 1, None))) as Hrun by done.
  eexists. split.
  - eapply reach_step. { eapply reach_step. { eapply reach_step. { eapply reach_step.
    { eapply reach_step. { eapply reach_step. { eapply reach_step. { eapply reach_step.
    { eapply reach_step. { by apply reach_init. }
    { by eapply (step_run false _ _ _ (S754_zero false) 1 (inl "j1")). } }
    { by eapply (step_call false _ _ _ [] _ [set1 "j1"] []). } }
    { by eapply (step_call false _ _ _ [[set1 "j1"]] _ [CUnlock] []). } }
    { by eapply (step_call false _ _ _ [[set1 "j1"]] CUnlock [] []). } }
    { by eapply (step_run false _ _ _ (S754_zero false) 1 (inl "j2")). } }
    { by eapply (step_call false _ _ _ [] _ [set1 "j2"] _). } }
    { by eapply (step_call false _ _ _ [[set1 "j2"]; [set1 "j1"]; []] _ [CUnlock] []). } }
    { by eapply (step_call false _ _ _ [[set1 "j2"]] (set1 "j1") [] _). } }
    by eapply (step_call false _ _ _ [] (set1 "j2") [] _).
  - done.
Qed.

Lemma runs_partition_witness :
  ∃ s, reachable (λ s, s = w_sys ["a"; "b"]) (step true) s ∧ handed s = [["a"]] ∧
    concat (handed s) ++ ToDoList (doc s) = ["a"; "b"].
Proof.
  set (run := [CGo "j1" TypeAgentTask ["a"]; CSet (SetRun ["b"] TaskStatusRunning 1 ["j1"] 5)]).
  assert (reachable (λ s, s = w_sys ["a"; "b"]) (step true)
    (mkSys (apply_set (SetRun ["b"] TaskStatusRunning 1 ["j1"] 5) (w_task ["a"; "b"])) false [[]; []] [["a"]])) as Hr.
  { eapply reach_step. { eapply reach_step. { eapply reach_step. { eapply reach_step. { eapply reach_step.
    { by apply reach_init. }
    { by eapply (step_run true _ _ _ (S754_zero false) 1 (inl "j1") 5 run). } }
    { by eapply (step_call true _ _ _ [] _ _ []). } }
    { by eapply (step_call true _ _ _ [] _ [] _). } }
    { by eapply (step_call true _ _ _ [[]] _ [CUnlock] []). } }
    { eapply (step_call true _ _ _ [[]] CUnlock [] []). intros _ _. repeat constructor. } }
  eexists. split; [exact Hr|]. split; [reflexivity|].
  destruct (runs_partition ["a"; "b"] (w_sys ["a"; "b"]) _ Hr) as [_ Hp].
  - repeat split.
  - destruct Hp as [Hp _]; [repeat constructor|]. exact Hp.
Defined.

(** ** Creation *)

Lemma collect_spec seen cursor :
  NoDup (collect seen cursor) ∧ ∀ id, id ∈ collect seen cursor ↔ inl id ∈ cursor ∧ id ∉ seen.
Proof.
  revert seen. induction cursor as [|[id|e] cursor IH]; intros seen; cbn [collect].
  - split; [constructor|]. set_solver.
  - destruct (IH seen) as [Hnd Hin], (IH ({[id]} ∪ seen)) as [Hnd' Hin'].
    case_decide as Hs; [split; [done|]; intros x; rewrite Hin; set_solver|].
    split; [constructor; [rewrite Hin'; set_solver|done]|].
    intros x. rewrite elem_of_cons, Hin'. destruct (decide (x = id)) as [->|]; set_solver.
  - destruct (IH seen) as [Hnd Hin]. split; [done|]. intros x. rewrite Hin. set_solver.
Qed.

Lemma bulk_writes_spec writes todo :
  (length writes < 100)%nat →
  concat (bulk_writes writes todo) = writes ++ todo ∧
  Forall (λ l, 1 ≤ length l ≤ 100)%nat (bulk_writes writes todo).
Proof.
  revert writes. induction todo as [|id todo IH]; intros writes Hl; cbn [bulk_writes].
  - case_decide; cbn [concat].
    + split; [done|]. apply Forall_singleton. lia.
    + destruct writes; [done|]. cbn in *. lia.
  - rewrite length_app. cbn [length]. case_decide as Hf.
    + destruct (IH (writes ++ [id])) as [-> HF]; [rewrite length_app; cbn; lia|]. by rewrite <-app_assoc.
    + destruct (IH []) as [Hc HF]; [cbn; lia|]. cbn [concat]. rewrite Hc. split; [by rewrite <-app_assoc|].
      constructor; [|done]. rewrite length_app. cbn. lia.
Qed.

(** The document after the insertion and the update of the to-do list; an update of a
    document that is not there yet changes nothing. *)
Definition created (insert_first : bool) (t : AgentTask) (u : setter) : AgentTask :=
  if insert_first then apply_set u t else t.

(** The subtasks of a new task are written once for each distinct agent that the query
    returns, in batches of 1 to 100, and its to-do list holds these agents, provided the
    task document is inserted before the goroutine updates it; nothing enforces this, and
    otherwise the task keeps an empty list and the first run closes it. *)
Theorem CreateTask_todo taskID tType request cursor now now' :
  let '(batches, u) := write_subtasks cursor now' in
  let t := new_task taskID tType request now in
  concat batches = ToDoList (created true t u) ∧ Forall (λ l, 1 ≤ length l ≤ 100)%nat batches ∧
  NoDup (ToDoList (created true t u)) ∧
  (∀ id, id ∈ ToDoList (created true t u) ↔ inl id ∈ cursor) ∧
  ∀ roll n job time, asks roll n = true →
    RunTask roll n (mkAnswers (inl true) (inl (created false t u)) job time)
    = Ret ([CSet (SetFinished now); CUnlock], run_error "task is finished/stopped or the todo_list is empty").
Proof.
  cbn. destruct (collect_spec ∅ cursor) as [Hnd Hin].
  destruct (bulk_writes_spec [] (collect ∅ cursor)) as [Hc HF]; [cbn; lia|].
  split_and!; [done|done|done|intros id; rewrite Hin; set_solver|].
  intros roll n job time Ha%negb_true_iff. unfold RunTask. by rewrite Ha.
Qed.

(** ** Status *)

Definition counted (sts : list string) (res : list (string * Z)) : Z :=
  zsum (λ g, if decide (g.1 ∈ sts) then g.2 else 0) res.

Definition final_statuses (agent_task : bool) : list string :=
  if agent_task then [TaskStatusFail; TaskStatusResultFail; TaskStatusResultSuccess]
  else [TaskStatusFail; TaskStatusSuccess].
Definition running_statuses (agent_task : bool) : list string :=
  if agent_task then [TaskStatusSuccess; TaskStatusRunning] else [TaskStatusRunning].

(** Decide closed statements about statuses by evaluation. *)
Ltac by_compute := apply (bool_decide_unpack _); vm_compute; exact I.
Ltac status_decide :=
  repeat match goal with
  | |- context [decide (?s = ?s')] =>
      first [rewrite (decide_True (P := s = s')) by by_compute | rewrite (decide_False (P := s = s')) by first [assumption | by_compute]]
  | |- context [decide (?s ∈ ?l)] =>
      first [rewrite (decide_True (P := s ∈ l)) by by_compute
            | rewrite (decide_False (P := s ∈ l)) by first [by_compute | rewrite !not_elem_of_cons; repeat split; first [assumption | apply not_elem_of_nil]]]
  end.

Lemma add_count_spec at_ t g :
  let t' := add_count at_ t g in
  InnerStatus t' = InnerStatus t ∧ DistributedCount t' = DistributedCount t ∧ TaskStatus t' = TaskStatus t ∧
  SubTaskRunning t' = SubTaskRunning t + (if decide (g.1 ∈ running_statuses at_) then g.2 else 0) ∧
  SubTaskSucceed t' + SubTaskFailed t' =
    SubTaskSucceed t + SubTaskFailed t + (if decide (g.1 ∈ final_statuses at_) then g.2 else 0).
Proof.
  destruct g as [st n]. unfold add_count, running_statuses, final_statuses. cbn [fst snd].
  destruct (decide (st = TaskStatusCreated)) as [->|]; [|
  destruct (decide (st = TaskStatusSuccess)) as [->|]; [|
  destruct (decide (st = TaskStatusFail)) as [->|]; [|
  destruct (decide (st = TaskStatusRunning)) as [->|]; [|
  destruct (decide (st = TaskStatusResultFail)) as [->|]; [|
  destruct (decide (st = TaskStatusResultSuccess)) as [->|]]]]]];
  destruct at_; status_decide; cbn [InnerStatus DistributedCount TaskStatus SubTaskRunning SubTaskSucceed SubTaskFailed];
  split_and!; try reflexivity; lia.
Qed.

Lemma add_counts_spec at_ res t :
  let t' := foldl (add_count at_) t res in
  InnerStatus t' = InnerStatus t ∧ DistributedCount t' = DistributedCount t ∧ TaskStatus t' = TaskStatus t ∧
  SubTaskRunning t' = SubTaskRunning t + counted (running_statuses at_) res ∧
  SubTaskSucceed t' + SubTaskFailed t' = SubTaskSucceed t + SubTaskFailed t + counted (final_statuses at_) res.
Proof.
  revert t. induction res as [|g res IH]; intros t; cbn [foldl].
  { unfold counted. cbn. split_and!; try done; lia. }
  pose proof (add_count_spec at_ t g) as (H1 & H2 & H3 & H4 & H5).
  pose proof (IH (add_count at_ t g)) as (I1 & I2 & I3 & I4 & I5).
  unfold counted in *. cbn [zsum foldr]. unfold zsum in *. cbn [foldr].
  rewrite I1, I2, I3, I4, I5, H1, H2, H3, H4, H5. split_and!; try done; lia.
Qed.

(** A task that was not finished is marked finished exactly when all of its to-do list
    has been handed out or it was cancelled, something was handed out, no subtask is
    waiting for the agent center or for the agent, and as many have ended, one way or the
    other, as were handed out. *)
Theorem finished_means_done task res now :
  TaskStatus task ≠ TaskStatusFinished →
  let agent_task := bool_decide (TaskType task = TypeAgentTask ∧ Action task ≠ "reboot_agent") in
  (∃ c f u r, computeTaskStat task res now = SetStat c f u r TaskStatusFinished now) ↔
  InnerStatus task ∉ [TaskStatusCreated; TaskStatusRunning] ∧ DistributedCount task ≠ 0 ∧
  counted (running_statuses agent_task) res = 0 ∧
  counted (final_statuses agent_task) res = DistributedCount task.
Proof.
  intros Hst at_. unfold computeTaskStat. fold at_.
  destruct (add_counts_spec at_ res (clear_counts task)) as (H1 & H2 & H3 & H4 & H5).
  cbn [SubTaskRunning SubTaskSucceed SubTaskFailed InnerStatus DistributedCount TaskStatus clear_counts] in *.
  rewrite H1, H2, H3, H4, H5, !Z.add_0_l. rewrite !not_elem_of_cons.
  split.
  - intros (c & f & u & r & Hs). case_decide as Hd; [|by injection Hs as ?].
    destruct Hd as (? & ? & ? & ? & ?). split_and!; try done. apply not_elem_of_nil.
  - intros ((Hi1 & Hi2 & _) & Hd & Hr & Hf). rewrite decide_True by done. by repeat eexists.
Qed.

Lemma finished_means_done_witness :
  ∃ c f u r, computeTaskStat (apply_set (SetRun [] TaskStatusFinished 2 ["j1"] 5) (w_task ["a"; "b"]))
    [(TaskStatusResultSuccess, 1); (TaskStatusFail, 1)] 9 = SetStat c f u r TaskStatusFinished 9.
Proof.
  apply (finished_means_done (apply_set (SetRun [] TaskStatusFinished 2 ["j1"] 5) (w_task ["a"; "b"]))).
  - discriminate.
  - split_and!; [|discriminate|reflexivity|reflexivity]. vm_compute. intros Hin.
    repeat (apply elem_of_cons in Hin as [Hin|Hin]; [discriminate|]). by apply elem_of_nil in Hin.
Defined.

End AgentTask.
