(* ===== verification/Jobs.v ===== *)
(** * The manager: distributed jobs

    Models [server/manager/internal/distribute/job/]: [job.go] (a job is cut into items
    that are published round robin to the managers of the cluster, each of which runs a
    number of workers) and [manage.go] (the table of running jobs, and how a job is
    announced to the other managers).  Redis is a service: [Publish] answers with the
    number of subscribers, a subscription is a queue, counters and lists are part of the
    state.  What an item does ([Do]) is an argument. *)

From Stdlib Require Import Ascii Sorting.Sorted.
From S2P Require Import Prelude GoStrings AgentConfig.
From stdpp Require Import options.

Module Jobs.

Definition FinishFlag := "FINISH".
Definition retriesMax : nat := 10.
Definition gradient : nat := 50.

Definition jobChannel (host id : string) : string := "chan-" +:+ host +:+ "-" +:+ id.

(** ** Distributing *)

(** A publication: its channel, its payload, and the number of subscribers it reached. *)
Record pub := mkPub { pChan : string; pPayload : string; pVal : Z }.

(** The loop of publications of one item; [val] numbers the answers of Redis. *)
Fixpoint publish_loop (tries : nat) (val : nat → Z) (k : nat) (ch payload : string) : list pub * nat * bool :=
  match tries with
  | 0 => ([], k, false)
  | S tries =>
      let p := mkPub ch payload (val k) in
      if decide (val k = 1)%Z then ([p], S k, true)
      else let '(ps, k, ok) := publish_loop tries val (S k) ch payload in (p :: ps, k, ok)
  end.

Section distribute.
Context {A : Type} (Marshal : A → string + string) (val : nat → Z).

(** The items from the [i]-th on; [k] is the number of publications so far. *)
Fixpoint distribute_items (id : string) (hosts : list string) (i k : nat) (items : list A)
    : outcome (list pub * nat * nat) :=
  match items with
  | [] => Ret ([], 0, 0)
  | item :: items =>
      match hosts !! (i mod length hosts) with
      | None => Panic "integer divide by zero"
      | Some host =>
          match Marshal item with
          | inr _ =>
              let! (ps, ok, failed) := distribute_items id hosts (S i) k items in Ret (ps, ok, S failed)
          | inl payload =>
              let '(ps, k, b) := publish_loop retriesMax val k (jobChannel host id) payload in
              let! (ps', ok, failed) := distribute_items id hosts (S i) k items in
              Ret (ps ++ ps', if b : bool then S ok else ok, if b then failed else S failed)
          end
      end
  end.

(** What a distribution writes to Redis. *)
Record dist_info := mkInfo { ok_count : nat; failed_count : nat; un_distribute : nat }.

Definition Distribute (id : string) (hosts : list string) (jobs : list A + string)
    : outcome (list pub * option dist_info * string * option string) :=
  match jobs with
  | inr err => Ret ([], None, "failed", Some err)
  | inl items =>
      let! (ps, ok, failed) := distribute_items id hosts 0 0 items in
      Ret (ps, Some (mkInfo ok failed 0), "ok", None)
  end.

End distribute.

(** [Finish]: as many flags as a host has workers, to every host; the answers are not
    looked at. *)
Fixpoint finish_host (n : nat) (val : nat → Z) (k : nat) (ch : string) : list pub :=
  match n with
  | 0 => []
  | S n => mkPub ch FinishFlag (val k) :: finish_host n val (S k) ch
  end.

Fixpoint Finish (id : string) (ConNum : nat) (val : nat → Z) (k : nat) (hosts : list string) : list pub :=
  match hosts with
  | [] => []
  | host :: hosts => finish_host ConNum val k (jobChannel host id) ++ Finish id ConNum val (k + ConNum) hosts
  end.

(** [Retry] takes the items from the right end of the list. *)
Fixpoint retry_loop (id : string) (hosts : list string) (val : nat → Z) (n i : nat) (l : list string)
    : outcome (list pub * list string) :=
  match n with
  | 0 => Ret ([], l)
  | S n =>
      let jobData := default "" (last l) in
      let l := take (length l - 1) l in
      match hosts !! (i mod length hosts) with
      | None => Panic "integer divide by zero"
      | Some host =>
          let! (ps, l) := retry_loop id hosts val n (S i) l in
          Ret (mkPub (jobChannel host id) jobData (val i) :: ps, l)
      end
  end.

Definition Retry (id : string) (hosts : list string) (val : nat → Z) (l : list string)
    : outcome (list pub * list string) :=
  retry_loop id hosts val (length l) 0 l.

(** ** Results *)

(** [LPUSH key v1 .. vn]: the last value ends up first. *)
Definition LPush (vs l : list string) : list string := reverse vs ++ l.

(** [push2Redis]: the loop over [i]; with more fuel than chunks it runs to its end. *)
Fixpoint push_loop (fuel i : nat) (vs l : list string) : list string :=
  match fuel with
  | 0 => l
  | S fuel =>
      if decide (i + gradient < length vs)
      then push_loop fuel (i + gradient) vs (LPush (take gradient (drop i vs)) l)
      else if decide (drop i vs = []) then l
      else LPush (drop i vs) l
  end.

Definition push2Redis (vs l : list string) : list string := push_loop (S (length vs)) 0 vs l.

(** ** The workers of a host *)

(** The local variables of a worker. *)
Record worker := mkWorker { doOKCount : Z; doFailCount : Z; resultList : list string; retryList : list string }.

Definition new_worker : worker := mkWorker 0 0 [] [].

(** A host that runs a job: the messages of its subscription that no worker has taken,
    its workers ([None] once they have returned), whether the job was stopped, and what
    is in Redis.  [taken] records the messages the workers have taken. *)
Record host := mkHost {
  queue : list string; workers : gmap nat (option worker); done : bool;
  do_ok_count : Z; do_failed_count : Z; resp : list string; retry : list string;
  taken : list string
}.

Section run.
(** What [Do] does with the [k]-th message: the result, if it is a [JobResWithArgs], and
    whether it fails.  [NeedRes]: whether results are kept. *)
Context (Do : nat → string → option string * bool) (NeedRes : bool).

Definition work (k : nat) (payload : string) (w : worker) : worker :=
  let '(rlt, failed) := Do k payload in
  mkWorker (doOKCount w + 1) (if failed then doFailCount w + 1 else doFailCount w)%Z
    (match rlt with Some r => if NeedRes then resultList w ++ [r] else resultList w | None => resultList w end)
    (if failed then retryList w ++ [payload] else retryList w).

(** What a worker does when it returns. *)
Definition flush (w : worker) (h : host) : host :=
  mkHost (queue h) (workers h) (done h) (do_ok_count h + doOKCount w) (do_failed_count h + doFailCount w)
    (if NeedRes then push2Redis (resultList w) (resp h) else resp h) (push2Redis (retryList w) (retry h)) (taken h).

Definition set_worker (i : nat) (w : option worker) (h : host) : host :=
  mkHost (queue h) (<[i := w]> (workers h)) (done h) (do_ok_count h) (do_failed_count h) (resp h) (retry h) (taken h).

Definition return_worker (i : nat) (w : worker) (h : host) : host := set_worker i None (flush w h).

(** The message at the head of the queue is taken by worker [i]. *)
Definition take_message (i : nat) (w : worker) (m : string) (h : host) : host :=
  let k := length (taken h) in
  let h := mkHost (tail (queue h)) (workers h) (done h) (do_ok_count h) (do_failed_count h) (resp h) (retry h)
             (taken h ++ [m]) in
  if decide (m = FinishFlag) then return_worker i w h
  else set_worker i (Some (work k m w)) h.

(** What the [select] of a worker lets it do: take a message, or return before it was told
    to (on its timer, because the job was stopped, because the channel was closed). *)
Inductive takes : host → host → Prop :=
| t_take h i w m q : workers h !! i = Some (Some w) → queue h = m :: q → takes h (take_message i w m h).

Inductive early : host → host → Prop :=
| e_timeout h i w : workers h !! i = Some (Some w) → early h (return_worker i w h)
| e_done h i w : workers h !! i = Some (Some w) → done h = true → early h (return_worker i w h)
| e_closed h i w : workers h !! i = Some (Some w) → early h (return_worker i w h).

Inductive wstep (h h' : host) : Prop :=
| w_take : takes h h' → wstep h h'
| w_early : early h h' → wstep h h'.

(** What happens to a host: a message arrives, the job is stopped. *)
Inductive outside : host → host → Prop :=
| o_arrive h m :
    outside h (mkHost (queue h ++ [m]) (workers h) (done h) (do_ok_count h) (do_failed_count h) (resp h) (retry h) (taken h))
| o_stop h :
    outside h (mkHost (queue h) (workers h) true (do_ok_count h) (do_failed_count h) (resp h) (retry h) (taken h)).

(** The steps of a host. *)
Inductive step (h h' : host) : Prop :=
| step_outside : outside h h' → step h h'
| step_worker : wstep h h' → step h h'.

End run.

(** [Run] after the subscription: [n] workers, nothing taken. *)
Definition start (n : nat) (q rs rt : list string) : host :=
  mkHost q (list_to_map ((λ i, (i, Some new_worker)) <$> seq 0 n)) false 0 0 rs rt [].

(** ** Results are complete *)

Lemma push_loop_spec fuel i vs l :
  i ≤ length vs → length vs - i < fuel → push_loop fuel i vs l = reverse (drop i vs) ++ l.
Proof.
  revert i l. induction fuel as [|fuel IH]; intros i l Hi Hf; [lia|]. cbn [push_loop].
  case_decide as Hlt.
  - rewrite IH by (unfold gradient in *; lia). unfold LPush. rewrite app_assoc, <- reverse_app. do 2 f_equal.
    rewrite <- drop_drop. apply take_drop.
  - case_decide as Hd; [by rewrite Hd|done].
Qed.

(** Pushing in chunks of 50 is pushing the whole list. *)
Lemma push2Redis_spec vs l : push2Redis vs l = reverse vs ++ l.
Proof. unfold push2Redis. rewrite push_loop_spec by lia. done. Qed.

(** ** Bookkeeping of the workers *)

Section run_facts.
Context (Do : nat → string → option string * bool) (NeedRes : bool).
Local Abbreviation work := (work Do NeedRes).
Local Abbreviation flush := (flush NeedRes).
Local Abbreviation return_worker := (return_worker NeedRes).
Local Abbreviation take_message := (take_message Do NeedRes).
Local Abbreviation early := (early NeedRes).
Local Abbreviation takes := (takes Do NeedRes).
Local Abbreviation wstep := (wstep Do NeedRes).
Local Abbreviation step := (step Do NeedRes).

(** The items among messages from the [k]-th on, with what [Do] does with them. *)
Fixpoint items_from (k : nat) (ms : list string) : list (string * (option string * bool)) :=
  match ms with
  | [] => []
  | m :: ms => if decide (m = FinishFlag) then items_from (S k) ms else (m, Do k m) :: items_from (S k) ms
  end.
Definition items (ms : list string) : list (string * (option string * bool)) := items_from 0 ms.

Definition failing (l : list (string * (option string * bool))) : list string := (filter (λ x, x.2.2 = true) l).*1.
Definition results (l : list (string * (option string * bool))) : list string := omap (λ x, x.2.1) l.

Definition flags (ms : list string) : nat := length (filter (λ m, m = FinishFlag) ms).

Lemma items_from_app k ms ms' : items_from k (ms ++ ms') = items_from k ms ++ items_from (k + length ms) ms'.
Proof using Type.
  revert k. induction ms as [|m ms IH]; intros k; simpl; [by rewrite Nat.add_0_r|].
  rewrite IH. replace (S k + length ms) with (k + S (length ms)) by lia. by case_decide.
Qed.

Lemma items_snoc ms m :
  items (ms ++ [m]) = items ms ++ (if decide (m = FinishFlag) then [] else [(m, Do (length ms) m)]).
Proof using Type. unfold items. rewrite items_from_app. simpl. by case_decide. Qed.

(** The workers that run. *)
Definition running_of (ws : gmap nat (option worker)) : list worker := omap snd (map_to_list ws).
Definition running (h : host) : list worker := running_of (workers h).

Lemma running_insert i o (ws : gmap nat (option worker)) :
  running_of (<[i := o]> ws) ≡ₚ option_list o ++ running_of (delete i ws).
Proof using Type.
  unfold running_of. rewrite <- insert_delete_eq, map_to_list_insert by apply lookup_delete_eq. simpl. by destruct o.
Qed.

Lemma running_lookup i w (ws : gmap nat (option worker)) :
  ws !! i = Some (Some w) → running_of ws ≡ₚ w :: running_of (delete i ws).
Proof using Type. intros Hi. rewrite <- (insert_id ws i (Some w) Hi) at 1. by rewrite running_insert. Qed.

Lemma running_elem w (ws : gmap nat (option worker)) : w ∈ running_of ws → ∃ i, ws !! i = Some (Some w).
Proof using Type.
  unfold running_of. rewrite list_elem_of_omap. intros ([i o] & Hin & Ho). simpl in Ho. subst o.
  exists i. by apply elem_of_map_to_list.
Qed.

(** Counters, retries and results of the host and its running workers together are those
    of the messages that were taken; the lists held [rs] and [rt] before. *)
Definition accounted (rs rt : list string) (h : host) : Prop :=
  let l := items (taken h) in
  (do_ok_count h + zsum doOKCount (running h) = Z.of_nat (length l))%Z ∧
  (do_failed_count h + zsum doFailCount (running h) = Z.of_nat (length (failing l)))%Z ∧
  retry h ++ (running h ≫= retryList) ≡ₚ rt ++ failing l ∧
  resp h ++ (running h ≫= resultList) ≡ₚ rs ++ (if NeedRes then results l else []).

Lemma accounted_return rs rt i w h :
  workers h !! i = Some (Some w) → (NeedRes = false → resultList w = []) →
  accounted rs rt h → accounted rs rt (return_worker i w h).
Proof using Type.
  intros Hi Hres (Hok & Hf & Hrt & Hrs). pose proof (running_lookup i w (workers h) Hi) as Hrun.
  unfold accounted, running, return_worker, flush, set_worker in *.
  cbn [workers taken do_ok_count do_failed_count retry resp] in *.
  set (rest := running_of (delete i (workers h))) in *.
  assert (running_of (<[i := None]> (workers h)) ≡ₚ rest) as Hrun' by apply running_insert.
  rewrite (zsum_perm doOKCount _ _ Hrun) in Hok. rewrite (zsum_perm doFailCount _ _ Hrun) in Hf.
  rewrite Hrun in Hrt, Hrs.
  rewrite (zsum_perm doOKCount _ _ Hrun'), (zsum_perm doFailCount _ _ Hrun'), !push2Redis_spec. cbn [zsum foldr] in Hok, Hf. fold (zsum doOKCount rest) in Hok.
  fold (zsum doFailCount rest) in Hf. split_and!; [lia|lia| |].
  - rewrite Hrun', <- Hrt. rewrite reverse_Permutation. cbn [mbind list_bind]. solve_Permutation.
  - rewrite Hrun', <- Hrs. cbn [mbind list_bind]. destruct NeedRes.
    + rewrite reverse_Permutation. solve_Permutation.
    + by rewrite Hres.
Qed.

(** Without [NeedRes] the workers keep no results. *)
Definition quiet (h : host) : Prop :=
  NeedRes = false → ∀ i w, workers h !! i = Some (Some w) → resultList w = [].

Lemma quiet_set i o h : quiet h → (NeedRes = false → ∀ w, o = Some w → resultList w = []) → quiet (set_worker i o h).
Proof using Type.
  intros Hq Ho Hn j w. cbn [set_worker workers]. destruct (decide (j = i)) as [->|Hne].
  - rewrite lookup_insert_eq. intros [= ->]. by apply Ho.
  - rewrite lookup_insert_ne by done. by apply Hq.
Qed.

Lemma accounted_work rs rt i w m q h :
  workers h !! i = Some (Some w) → queue h = m :: q → m ≠ FinishFlag →
  accounted rs rt h → accounted rs rt (take_message i w m h).
Proof using Type.
  intros Hi Hq Hm (Hok & Hf & Hrt & Hrs). pose proof (running_lookup i w (workers h) Hi) as Hrun.
  unfold take_message. rewrite decide_False by done. unfold accounted, running, set_worker in *.
  cbn [workers taken do_ok_count do_failed_count retry resp] in *.
  set (rest := running_of (delete i (workers h))) in *. set (w' := work _ m w).
  assert (running_of (<[i := Some w']> (workers h)) ≡ₚ w' :: rest) as Hrun' by apply running_insert.
  rewrite (zsum_perm doOKCount _ _ Hrun) in Hok. rewrite (zsum_perm doFailCount _ _ Hrun) in Hf.
  rewrite Hrun in Hrt, Hrs. rewrite items_snoc, decide_False by done.
  rewrite (zsum_perm doOKCount _ _ Hrun'), (zsum_perm doFailCount _ _ Hrun'), Hrun'.
  unfold failing, results in *. rewrite length_app, filter_app, fmap_app, omap_app, length_app.
  cbn [zsum foldr mbind list_bind] in *. fold (zsum doOKCount rest) (zsum doFailCount rest) in *.
  subst w'. unfold work. rewrite filter_cons. cbn [snd]. destruct (Do (length (taken h)) m) as [rlt failed].
  cbn [doOKCount doFailCount retryList resultList fst snd omap list_omap].
  split_and!.
  - simpl. lia.
  - destruct failed; simpl; lia.
  - destruct failed; simpl; [|by rewrite app_nil_r]. rewrite !app_assoc, <- Hrt. solve_Permutation.
  - destruct NeedRes; [|by destruct rlt]. destruct rlt as [r|]; simpl; [|by rewrite app_nil_r].
    rewrite !app_assoc, <- Hrs. solve_Permutation.
Qed.

Lemma accounted_frame rs rt h h' :
  workers h' = workers h → taken h' = taken h → do_ok_count h' = do_ok_count h →
  do_failed_count h' = do_failed_count h → retry h' = retry h → resp h' = resp h →
  accounted rs rt h → accounted rs rt h'.
Proof using Type. unfold accounted, running. by intros -> -> -> -> -> ->. Qed.

Lemma accounted_take rs rt i w m q h :
  workers h !! i = Some (Some w) → queue h = m :: q → quiet h →
  accounted rs rt h → accounted rs rt (take_message i w m h).
Proof using Type.
  intros Hi Hq Hquiet Ha. destruct (decide (m = FinishFlag)) as [->|Hm]; [|by eapply accounted_work].
  unfold take_message. rewrite decide_True by done. apply accounted_return; [done|intros Hn; by eapply Hquiet|].
  destruct Ha as (Hok & Hf & Hrt & Hrs). unfold accounted, running in *.
  cbn [workers taken do_ok_count do_failed_count retry resp]. rewrite items_snoc, decide_True, app_nil_r by done. done.
Qed.

Lemma quiet_take i w m h : workers h !! i = Some (Some w) → quiet h → quiet (take_message i w m h).
Proof using Type.
  intros Hi Hq. unfold take_message. case_decide; apply quiet_set; try done.
  intros Hn w' [= <-]. unfold work. destruct (Do _ m) as [[r|] ?]; simpl; rewrite ?Hn; by eapply Hq.
Qed.

Lemma early_returns h h' : early h h' → ∃ i w, workers h !! i = Some (Some w) ∧ h' = return_worker i w h.
Proof using Type. intros [h0 i w Hi|h0 i w Hi _|h0 i w Hi]; by eexists _, _. Qed.

(** The bookkeeping holds under all interleavings. *)
Lemma accounted_step rs rt h h' :
  step h h' → accounted rs rt h ∧ quiet h → accounted rs rt h' ∧ quiet h'.
Proof using Type.
  intros Hs [Ha Hq]. destruct Hs as [Ho|[Ht|He]].
  - destruct Ho; (split; [by eapply accounted_frame|done]).
  - destruct Ht. split; [by eapply accounted_take|by apply quiet_take].
  - destruct (early_returns _ _ He) as (i & w & Hi & ->).
    split; [apply accounted_return; [done|intros Hn; by eapply Hq|done]|by apply quiet_set].
Qed.

Lemma start_workers n i w : workers (start n [] [] []) !! i = Some w → w = Some new_worker.
Proof using Type.
  cbn [start workers]. intros Hw%elem_of_list_to_map_2.
  apply list_elem_of_fmap in Hw as (j & [= -> ->] & _). done.
Qed.

Lemma start_running n : running_of (list_to_map ((λ i, (i, Some new_worker)) <$> seq 0 n)) ≡ₚ replicate n new_worker.
Proof using Type.
  unfold running_of. rewrite map_to_list_to_map.
  - generalize 0. induction n as [|n IH]; intros k; simpl; [done|]. by rewrite IH.
  - rewrite <- list_fmap_compose. change (fst ∘ _) with (@id nat). rewrite list_fmap_id. apply NoDup_seq.
Qed.

Lemma accounted_start n q rs rt : accounted rs rt (start n q rs rt) ∧ quiet (start n q rs rt).
Proof using Type.
  split.
  - unfold accounted, running, start. cbn [workers taken do_ok_count do_failed_count retry resp].
    rewrite (zsum_perm doOKCount _ _ (start_running n)), (zsum_perm doFailCount _ _ (start_running n)).
    rewrite start_running.
    assert (∀ (f : worker → Z), f new_worker = 0%Z → zsum f (replicate n new_worker) = 0%Z) as Hz.
    { intros f Hf. induction n as [|n IH]; simpl; [done|]. rewrite Hf. exact IH. }
    assert (∀ (f : worker → list string), f new_worker = [] → replicate n new_worker ≫= f = []) as Hc.
    { clear Hz. intros f Hf. induction n as [|n IH]; simpl; [done|]. rewrite Hf. exact IH. }
    rewrite !Hz, !Hc by done. split_and!; try done. by destruct NeedRes.
  - intros _ i w Hi. by injection (start_workers n i (Some w) Hi) as ->.
Qed.

(** ** A job that is finished is complete *)

(** A host that began with [n] workers, and how many of them have returned before they were
    told to. *)
Inductive run (n : nat) (rs rt : list string) : nat → host → Prop :=
| run_start : run n rs rt 0 (start n [] rs rt)
| run_outside k h h' : run n rs rt k h → outside h h' → run n rs rt k h'
| run_takes k h h' : run n rs rt k h → takes h h' → run n rs rt k h'
| run_early k h h' : run n rs rt k h → early h h' → run n rs rt (S k) h'.

(** These are the hosts that the steps reach. *)
Lemma run_reachable n rs rt h : (∃ k, run n rs rt k h) ↔ reachable (λ h, h = start n [] rs rt) step h.
Proof using Type.
  split.
  - intros [k Hr]. induction Hr as [|k h h' _ IH Hs|k h h' _ IH Hs|k h h' _ IH Hs]; [by apply reach_init|..];
      (eapply reach_step; [exact IH|]).
    + by apply step_outside.
    + by apply step_worker, w_take.
    + by apply step_worker, w_early.
  - intros Hr. induction Hr as [h ->|h h' _ [k IH] Hs]; [exists 0; constructor|].
    destruct Hs as [Ho|[Ht|He]]; [exists k; by eapply run_outside|exists k; by eapply run_takes|exists (S k); by eapply run_early].
Qed.

Lemma take_message_queue i w m q h :
  queue h = m :: q → queue (take_message i w m h) = q ∧ taken (take_message i w m h) = taken h ++ [m].
Proof using Type. intros Hq. unfold take_message. rewrite Hq. by case_decide. Qed.

Lemma flags_snoc ms m : flags (ms ++ [m]) = flags ms + (if decide (m = FinishFlag) then 1 else 0).
Proof using Type. unfold flags. rewrite filter_app, length_app, filter_cons, filter_nil. by case_decide. Qed.

Lemma running_take i w m q h :
  workers h !! i = Some (Some w) → queue h = m :: q →
  length (running (take_message i w m h)) + flags (taken (take_message i w m h)) = length (running h) + flags (taken h).
Proof using Type.
  intros Hi Hq. destruct (take_message_queue i w m q h Hq) as [_ ->]. rewrite flags_snoc.
  unfold running. rewrite (running_lookup _ _ _ Hi). unfold take_message. cbn [length].
  case_decide; cbn [set_worker return_worker flush workers]; rewrite running_insert; simpl; lia.
Qed.

Lemma running_return i w h :
  workers h !! i = Some (Some w) → S (length (running (return_worker i w h))) = length (running h).
Proof using Type.
  intros Hi. unfold running. rewrite (running_lookup _ _ _ Hi). cbn [set_worker return_worker flush workers].
  by rewrite running_insert.
Qed.

(** A worker that does not run has returned for a flag or before it was told to. *)
Lemma run_workers n rs rt k h : run n rs rt k h → length (running h) + flags (taken h) + k = n.
Proof using Type.
  induction 1 as [|k h h' _ IH Ho|k h h' _ IH Ht|k h h' _ IH He].
  - unfold running. cbn [start workers taken]. rewrite start_running, length_replicate. unfold flags. simpl. lia.
  - by destruct Ho.
  - destruct Ht as [h0 i w m q Hi Hq]. rewrite (running_take i w m q h0 Hi Hq). exact IH.
  - destruct (early_returns _ _ He) as (i & w & Hi & ->). pose proof (running_return i w h Hi) as Hl.
    change (taken (return_worker i w h)) with (taken h). lia.
Qed.

Lemma run_accounted n rs rt k h : run n rs rt k h → accounted rs rt h ∧ quiet h.
Proof using Type.
  intros Hr. assert (reachable (λ h, h = start n [] rs rt) step h) as Hreach by (apply run_reachable; by eexists).
  clear Hr. revert h Hreach. apply reachable_invariant; [intros h ->; apply accounted_start|].
  intros h h' Ha Hs. by eapply accounted_step.
Qed.

(** What a job leaves in Redis that has done [l]: the items are counted, the failed ones are
    on the retry list, the results are on the result list. *)
Definition recorded (l : list (string * (option string * bool))) (rs rt : list string) (h : host) : Prop :=
  do_ok_count h = Z.of_nat (length l) ∧ do_failed_count h = Z.of_nat (length (failing l)) ∧
  retry h ≡ₚ rt ++ failing l ∧ resp h ≡ₚ rs ++ (if NeedRes then results l else []).

Lemma items_from_all k jobs : FinishFlag ∉ jobs → (items_from k jobs).*1 = jobs.
Proof using Type.
  revert k. induction jobs as [|m jobs IH]; intros k Hn; simpl; [done|].
  apply not_elem_of_cons in Hn as [Hm Hn]. rewrite decide_False by done. simpl. by rewrite IH.
Qed.

Lemma items_from_flags k n : items_from k (replicate n FinishFlag) = [].
Proof using Type. revert k. induction n as [|n IH]; intros k; simpl; [done|]. apply IH. Qed.

Lemma flags_app ms ms' : flags (ms ++ ms') = flags ms + flags ms'.
Proof using Type. unfold flags. by rewrite filter_app, length_app. Qed.

Lemma flags_replicate n : flags (replicate n FinishFlag) = n.
Proof using Type.
  unfold flags. induction n as [|n IH]; [done|]. cbn [replicate]. rewrite filter_cons, decide_True by done. simpl. by rewrite IH.
Qed.

Lemma flags_none ms : FinishFlag ∉ ms → flags ms = 0.
Proof using Type.
  intros Hn. unfold flags. rewrite filter_none; [done|]. intros m Hm ->. done.
Qed.

(** If all flags have been taken, nothing is left in the queue. *)
Lemma all_flags_taken jobs n tk q :
  FinishFlag ∉ jobs → tk ++ q = jobs ++ replicate n FinishFlag → flags tk = n → 0 < n → q = [].
Proof using Type.
  intros Hj E Hf Hn. destruct q as [|m q] using rev_ind; [done|exfalso].
  apply (f_equal reverse) in E as E'. destruct n as [|n]; [lia|].
  rewrite replicate_S_end, !app_assoc in E. apply app_inj_tail in E as [E ->].
  apply (f_equal flags) in E. rewrite !flags_app, flags_replicate, (flags_none jobs Hj) in E. lia.
Qed.

(** When the last worker has returned, what was taken is recorded. *)
Lemma over_recorded rs rt h : accounted rs rt h → running h = [] → recorded (items (taken h)) rs rt h.
Proof using Type.
  intros (Hok & Hf & Hrt & Hrs) He. rewrite He in *. cbn [zsum foldr mbind list_bind] in *. rewrite app_nil_r in Hrt, Hrs.
  split_and!; try done; lia.
Qed.

(** The steps of the workers that are left at most. *)
Definition left (h : host) : nat := length (queue h) + length (running h).

Lemma wstep_left h h' : wstep h h' → left h' < left h.
Proof using Type.
  intros [Ht|He]; unfold left.
  - destruct Ht as [h0 i w m q Hi Hq]. pose proof (running_take i w m q h0 Hi Hq) as Hr. destruct (take_message_queue i w m q h0 Hq) as [-> Ht].
    rewrite Ht, flags_snoc in Hr. rewrite Hq. cbn [length]. case_decide; lia.
  - destruct (early_returns _ _ He) as (i & w & Hi & ->). pose proof (running_return i w h Hi) as Hl.
    change (queue (return_worker i w h)) with (queue h). lia.
Qed.

Lemma wstep_keeps h h' : wstep h h' → taken h ++ queue h = taken h' ++ queue h'.
Proof using Type.
  intros [Ht|He].
  - destruct Ht as [h0 i w m q Hi Hq]. destruct (take_message_queue i w m q h0 Hq) as [-> ->]. by rewrite Hq, <- app_assoc.
  - by destruct (early_returns _ _ He) as (i & w & Hi & ->).
Qed.

(** Once the items and a flag for every worker have arrived, a worker that runs finds a
    message. *)
Lemma run_progress n jobs rs rt k h :
  FinishFlag ∉ jobs → run n rs rt k h → taken h ++ queue h = jobs ++ replicate n FinishFlag →
  running h ≠ [] → ∃ h', wstep h h'.
Proof using Type.
  intros Hj Hr Harr Hne. pose proof (run_workers _ _ _ _ _ Hr) as Hw.
  destruct (running h) as [|w ws] eqn:Hrun; [done|].
  destruct (running_elem w (workers h)) as [i Hi]; [unfold running in Hrun; rewrite Hrun; left|].
  destruct (queue h) as [|m q] eqn:Hq; [|eexists; by eapply w_take, t_take].
  exfalso. rewrite app_nil_r in Harr. rewrite Harr, flags_app, flags_replicate, (flags_none jobs Hj) in Hw.
  simpl in Hw. lia.
Qed.

(** If no worker returned before it was told to, everything was done. *)
Lemma run_complete n jobs rs rt h :
  FinishFlag ∉ jobs → 0 < n → run n rs rt 0 h → taken h ++ queue h = jobs ++ replicate n FinishFlag →
  running h = [] → queue h = [] ∧ (items (taken h)).*1 = jobs.
Proof using Type.
  intros Hj Hn Hr Harr He. pose proof (run_workers _ _ _ _ _ Hr) as Hw. rewrite He in Hw. simpl in Hw.
  assert (queue h = []) as Hq by (eapply all_flags_taken; [done|done|lia|done]). split; [done|].
  rewrite Hq, app_nil_r in Harr. unfold items. rewrite Harr, items_from_app, items_from_flags, app_nil_r.
  by apply items_from_all.
Qed.

(** [C7] A job on a host comes to its end: whatever has happened so far, timeouts and a stop
    included, once the items and one finish flag for each of the [n] workers have arrived,
    the workers take at most [left h] further steps, they can go on as long as one of them
    runs, and when all have returned, each message that was taken was done exactly once and
    the counters, the results and the retry list in Redis account for all of them; these
    messages are all the items if no worker returned on its timer, because of a stop or
    because its channel was closed (otherwise items may stay undone). *)
Theorem job_completes n jobs rs rt k h :
  FinishFlag ∉ jobs → 0 < n → run n rs rt k h →
  taken h ++ queue h = jobs ++ replicate n FinishFlag →
  (∀ i h', nsteps wstep i h h' → i ≤ left h) ∧
  (∀ h', rtc wstep h h' → (∃ h'', wstep h' h'') ∨ running h' = [] ∧ recorded (items (taken h')) rs rt h') ∧
  (running h = [] → k = 0 → queue h = [] ∧ (items (taken h)).*1 = jobs).
Proof using Type.
  intros Hj Hn Hr Harr. split_and!.
  - intros i h' Hi. clear Hr Harr. induction Hi as [|i h h1 h' Hs _ IH]; [lia|]. apply wstep_left in Hs. lia.
  - intros h' Hrtc. revert k Hr. induction Hrtc as [h|h h1 h' Hs _ IH]; intros k Hr.
    + destruct (running h) as [|w ws] eqn:Hrun.
      * right. split; [done|]. apply over_recorded; [|done]. eapply run_accounted. exact Hr.
      * left. eapply run_progress; [done|exact Hr|done|]. by rewrite Hrun.
    + assert (taken h1 ++ queue h1 = jobs ++ replicate n FinishFlag) as Harr1 by (rewrite <- (wstep_keeps _ _ Hs); exact Harr).
      destruct Hs as [Ht|He]; [apply (IH Harr1 k); by eapply run_takes|apply (IH Harr1 (S k)); by eapply run_early].
  - intros He ->. by eapply run_complete.
Qed.

End run_facts.

(** ** Every item goes to one host *)

Lemma publish_loop_spec tries val k ch payload :
  let '(ps, k', b) := publish_loop tries val k ch payload in
  length ps ≤ tries ∧ Forall (λ p, pChan p = ch ∧ pPayload p = payload) ps ∧
  (b = false → length ps = tries) ∧
  filter (λ p, pVal p = 1%Z) ps = (if b : bool then [mkPub ch payload 1] else []).
Proof.
  revert k. induction tries as [|tries IH]; intros k; cbn [publish_loop]; [done|].
  case_decide as Hv.
  - rewrite Hv. simpl. split_and!; [lia|by constructor|done|]. by rewrite filter_cons.
  - specialize (IH (S k)). destruct (publish_loop tries val (S k) ch payload) as [[ps k'] b].
    destruct IH as (Hl & HF & Hb & Hfil). simpl. split_and!; [lia|by constructor|intros Hbf; by rewrite Hb|].
    rewrite filter_cons, decide_False by done. done.
Qed.

Section distribute_facts.
Context {A : Type} (Marshal : A → string + string) (val : nat → Z).

(** Publication [p] is for item [j] of a list that begins with item [i], on the channel of
    the host whose turn it is. *)
Definition is_for (id : string) (hosts : list string) (i : nat) (items : list A) (j : nat) (p : pub) : Prop :=
  i ≤ j ∧ ∃ item host, items !! (j - i) = Some item ∧ hosts !! (j mod length hosts) = Some host ∧
    Marshal item = inl (pPayload p) ∧ pChan p = jobChannel host id.

(** The publications that reached a subscriber, in the order of their items, no item
    twice. *)
Definition reached (id : string) (hosts : list string) (i : nat) (items : list A) (ps : list pub) (ok : nat) : Prop :=
  ∃ idx, StronglySorted lt idx ∧ length idx = ok ∧
    Forall2 (is_for id hosts i items) idx (filter (λ p, pVal p = 1%Z) ps).

Lemma is_for_skip id hosts i item items j p :
  is_for id hosts (S i) items j p → is_for id hosts i (item :: items) j p.
Proof using Type.
  intros (Hj & x & h & Hx & Hrest). split; [lia|]. exists x, h. split; [|done].
  replace (j - i) with (S (j - S i)) by lia. exact Hx.
Qed.

Lemma reached_skip id hosts i item items ps ps' ok :
  filter (λ p, pVal p = 1%Z) ps = [] →
  reached id hosts (S i) items ps' ok → reached id hosts i (item :: items) (ps ++ ps') ok.
Proof using Type.
  intros Hps (idx & Hs & Hl & HF). exists idx. split_and!; [done..|]. rewrite filter_app, Hps.
  eapply Forall2_impl; [exact HF|]. intros. by apply is_for_skip.
Qed.

Lemma reached_here id hosts i item items ps ps' ok host payload :
  hosts !! (i mod length hosts) = Some host → Marshal item = inl payload →
  filter (λ p, pVal p = 1%Z) ps = [mkPub (jobChannel host id) payload 1] →
  reached id hosts (S i) items ps' ok → reached id hosts i (item :: items) (ps ++ ps') (S ok).
Proof using Type.
  intros Hh Hm Hps (idx & Hs & Hl & HF). exists (i :: idx). split_and!.
  - constructor; [done|]. clear Hs Hl. induction HF as [|j p idx' ? [Hj _] _ IH]; constructor; [lia|done].
  - simpl. by rewrite Hl.
  - rewrite filter_app, Hps. constructor.
    + split; [lia|]. exists item, host. rewrite Nat.sub_diag. done.
    + eapply Forall2_impl; [exact HF|]. intros. by apply is_for_skip.
Qed.

Lemma distribute_items_spec id hosts i k items :
  hosts ≠ [] →
  ∃ ps ok failed, distribute_items Marshal val id hosts i k items = Ret (ps, ok, failed) ∧
    ok + failed = length items ∧ reached id hosts i items ps ok ∧ length ps ≤ retriesMax * length items.
Proof using Type.
  intros Hne. revert i k. induction items as [|item items IH]; intros i k; cbn [distribute_items].
  { exists [], 0, 0. split_and!; [done..| |simpl; lia]. exists []. by repeat constructor. }
  destruct (lookup_lt_is_Some_2 hosts (i mod length hosts)) as [host Hh].
  { apply Nat.mod_upper_bound. by destruct hosts. }
  rewrite Hh. destruct (Marshal item) as [payload|err] eqn:Hm.
  - pose proof (publish_loop_spec retriesMax val k (jobChannel host id) payload) as Hp.
    destruct (publish_loop retriesMax val k (jobChannel host id) payload) as [[ps k'] b].
    destruct Hp as (Hl & _ & _ & Hfil).
    destruct (IH (S i) k') as (ps' & ok & failed & -> & Hsum & Hr & Hlen). cbn [obind].
    destruct b; eexists _, _, _; (split; [done|]); cbn [length]; rewrite length_app, Nat.mul_succ_r;
      (split; [lia|]); (split; [|lia]); [by eapply reached_here|by apply reached_skip].
  - destruct (IH (S i) k) as (ps' & ok & failed & -> & Hsum & Hr & Hlen). cbn [obind].
    eexists _, _, _. split; [done|]. cbn [length]. rewrite Nat.mul_succ_r. split; [lia|]. split; [|lia].
    by apply (reached_skip id hosts i item items []).
Qed.

(** A distribution accounts for every item: the counts add up to the number of items, and
    the publications that reached a subscriber are for different items, as many as are
    counted, each on the channel of the host whose turn the item is (round robin); no item
    is tried more than ten times.  Without any host the manager panics. *)
Theorem Distribute_effect id hosts (items : list A) :
  (hosts ≠ [] →
   ∃ ps info, Distribute Marshal val id hosts (inl items) = Ret (ps, Some info, "ok", None) ∧
     ok_count info + failed_count info = length items ∧ un_distribute info = 0 ∧
     reached id hosts 0 items ps (ok_count info) ∧ length ps ≤ retriesMax * length items) ∧
  (hosts = [] → items ≠ [] → panics (Distribute Marshal val id hosts (inl items))).
Proof using Type.
  split.
  - intros Hne. unfold Distribute.
    destruct (distribute_items_spec id hosts 0 0 items Hne) as (ps & ok & failed & -> & Hsum & Hr & Hl).
    cbn [obind]. by eexists _, _.
  - intros -> Hne. destruct items as [|item items]; [done|]. by eexists.
Qed.

End distribute_facts.

(** ** Retries *)

Lemma retry_loop_spec id hosts val i l :
  hosts ≠ [] →
  ∃ ps, retry_loop id hosts val (length l) i l = Ret (ps, []) ∧ pPayload <$> ps = reverse l.
Proof.
  intros Hne. revert i. induction l as [|x l IH] using rev_ind; intros i; [by exists []|].
  rewrite length_app, Nat.add_comm. cbn [length Nat.add retry_loop].
  destruct (lookup_lt_is_Some_2 hosts (i mod length hosts)) as [h Hh].
  { apply Nat.mod_upper_bound. by destruct hosts. }
  rewrite Hh, last_snoc, length_app. replace (length l + length [x] - 1) with (length l) by (simpl; lia).
  rewrite take_app_length. destruct (IH (S i)) as (ps & -> & Hps). cbn [obind].
  eexists. split; [done|]. rewrite reverse_app, fmap_cons, Hps. done.
Qed.

(** ** The job manager ([manage.go]) *)

(** [NewSimpleJob], [NewApiJob]: the parameters of a job, and whether it was stopped. *)
Record SimpleJob := mkSimpleJob {
  Id : string; jName : string; ConNum : nat; Timeout : Z; sNeedRes : bool; Done : bool
}.

(** A new job without id gets one from its name and the clock; only registered names have
    jobs. *)
Definition NewApiJob (id name : string) (conNum : nat) (timeout : Z) (needRes : bool) (nano : Z) : option SimpleJob :=
  match AgentConfig.ApiMap name with
  | None => None
  | Some _ =>
      let id := if decide (id = "") then "id-" +:+ name +:+ "-" +:+ itoa nano else id in
      Some (mkSimpleJob id name conNum timeout needRes false)
  end.

(** [close(sj.Done)]. *)
Definition Stop (j : SimpleJob) : outcome SimpleJob :=
  if Done j then Panic "close of closed channel"
  else Ret (mkSimpleJob (Id j) (jName j) (ConNum j) (Timeout j) (sNeedRes j) true).

Record NewSyncInfo := mkNewSync { nId : string; nName : string; nConNum : nat; nTimeout : Z; nNeedRes : bool }.

Record TransInfo := mkTrans { Action : string; Data : string }.

Definition newAction := "new".
Definition stopAction := "stop".

(** The table of running jobs of a manager. *)
Abbreviation jobManager := (gmap string SimpleJob).

(** [inform] enters the job; when [Run] is over it is removed again. *)
Definition inform (j : SimpleJob) (jm : jobManager) : jobManager := <[Id j := j]> jm.
Definition run_over (id : string) (jm : jobManager) : jobManager := delete id jm.

Section manager.
(** The encodings of the messages. *)
Context (new_Marshal : NewSyncInfo → string) (new_Unmarshal : string → NewSyncInfo + string)
  (stop_Marshal : string → string) (stop_Unmarshal : string → string + string).

(** [newJob]: the job runs here and is announced to the others ([None]: no such job). *)
Definition newJob (name : string) (conNum : nat) (timeout : Z) (needRes : bool) (nano : Z) (jm : jobManager)
    : jobManager * option (SimpleJob * TransInfo) :=
  match NewApiJob "" name conNum timeout needRes nano with
  | None => (jm, None)
  | Some job =>
      let newInfo := mkNewSync (Id job) name conNum timeout false in
      (inform job jm, Some (job, mkTrans newAction (new_Marshal newInfo)))
  end.

Definition stop_local (id : string) (jm : jobManager) : outcome jobManager :=
  match jm !! id with
  | None => Ret jm
  | Some j => let! j := Stop j in Ret (<[id := j]> jm)
  end.

Definition syncRecv (t : TransInfo) (nano : Z) (jm : jobManager) : outcome jobManager :=
  if decide (Action t = newAction) then
    match new_Unmarshal (Data t) with
    | inr _ => Ret jm
    | inl i =>
        match NewApiJob (nId i) (nName i) (nConNum i) (nTimeout i) (nNeedRes i) nano with
        | None => Ret jm
        | Some job => Ret (inform job jm)
        end
    end
  else if decide (Action t = stopAction) then
    match stop_Unmarshal (Data t) with
    | inr _ => Ret jm
    | inl id => stop_local id jm
    end
  else Ret jm.

Definition stopJob (jobId : string) (jm : jobManager) : outcome (jobManager * TransInfo) :=
  let! jm := stop_local jobId jm in Ret (jm, mkTrans stopAction (stop_Marshal jobId)).

(** [distribute], [retry] and [finish] look the job up; an unknown one is left alone. *)
Definition with_job {B} (jobId : string) (f : SimpleJob → B) (jm : jobManager) : option B := f <$> jm !! jobId.

Section sync.
Context (Hnew : ∀ i, new_Unmarshal (new_Marshal i) = inl i) (Hstop : ∀ id, stop_Unmarshal (stop_Marshal id) = inl id).

Lemma new_id_nonempty name nano : "id-" +:+ name +:+ "-" +:+ itoa nano ≠ "".
Proof using Type. done. Qed.

(** A job that one manager starts runs on every manager the announcement reaches, under
    the same id, with the same name, number of workers and time limit.  Whether results
    are kept is not announced: the other managers never keep them. *)
Theorem newJob_everywhere name conNum timeout needRes nano jm jm' job t :
  newJob name conNum timeout needRes nano jm = (jm', Some (job, t)) →
  jm' !! Id job = Some job ∧ sNeedRes job = needRes ∧
  ∀ nano2 jm2, ∃ jm2', syncRecv t nano2 jm2 = Ret jm2' ∧
    jm2' = <[Id job := mkSimpleJob (Id job) name conNum timeout false false]> jm2 ∧
    (jName job, ConNum job, Timeout job) = (name, conNum, timeout).
Proof using Hnew.
  unfold newJob, NewApiJob. destruct (AgentConfig.ApiMap name) eqn:Ha; [|done].
  rewrite decide_True by done. intros [= <- <- <-]. split; [apply lookup_insert_eq|]. split; [done|].
  intros nano2 jm2. unfold syncRecv. cbn [Action Data]. rewrite decide_True by done. rewrite Hnew.
  cbn [nId nName nConNum nTimeout nNeedRes]. unfold NewApiJob. rewrite Ha.
  rewrite decide_False by apply new_id_nonempty. by eexists.
Qed.

(** A job that is stopped while it is being stopped: the channel is closed twice and the
    manager goes down. *)
Lemma stop_twice_panics id j jm :
  jm !! id = Some j → Done j = false →
  ∃ jm1 t, stopJob id jm = Ret (jm1, t) ∧ panics (stopJob id jm1) ∧ panics (syncRecv t 0 jm1).
Proof using Hstop.
  intros Hj Hd. unfold stopJob, stop_local. rewrite Hj. unfold Stop at 1. rewrite Hd. cbn [obind].
  eexists _, _. split; [done|]. unfold syncRecv, stop_local. cbn [Action Data].
  rewrite decide_False, decide_True by done. rewrite Hstop, !lookup_insert_eq. split; by eexists.
Qed.

End sync.

End manager.

(** ** Instances *)

Definition w_do : nat → string → option string * bool := λ _ m, (Some m, bool_decide (m = "bad")).

Lemma messages_arrive Do NeedRes n q rs rt :
  run Do NeedRes n rs rt 0 (mkHost q (workers (start n [] rs rt)) false 0 0 rs rt []).
Proof.
  induction q as [|m q IH] using rev_ind; [by apply run_start|].
  eapply run_outside; [exact IH|]. by apply (o_arrive (mkHost q _ false 0 0 rs rt [])).
Qed.

(** An encoding of the announcements, for the instances only. *)
Fixpoint bits (p : positive) : string :=
  match p with
  | xH => ""
  | xO p => String "0"%char (bits p)
  | xI p => String "1"%char (bits p)
  end.
Fixpoint unbits (s : string) : positive :=
  match s with
  | "" => xH
  | String c s => if decide (c = "0"%char) then xO (unbits s) else xI (unbits s)
  end.

Lemma unbits_bits p : unbits (bits p) = p.
Proof. induction p as [p IH|p IH|]; cbn [bits unbits]; [by rewrite decide_False, IH|by rewrite decide_True, IH|done]. Qed.

Definition w_enc (i : NewSyncInfo) : string := bits (encode (nId i, nName i, nConNum i, nTimeout i, nNeedRes i)).
Definition w_dec (s : string) : NewSyncInfo + string :=
  match decode (unbits s) with
  | Some (a, b, c, d, e) => inl (mkNewSync a b c d e)
  | None => inr "invalid character"
  end.

Lemma w_dec_enc i : w_dec (w_enc i) = inl i.
Proof. unfold w_dec, w_enc. rewrite unbits_bits, decode_encode. by destruct i. Qed.

Definition w_host : host :=
  mkHost (["x"; "bad"] ++ replicate 2 FinishFlag) (workers (start 2 [] [] [])) false 0 0 [] [] [].

Lemma job_completes_witness :
  left w_host = 6 ∧ (∃ h', wstep w_do true w_host h') ∧ ∀ i h', nsteps (wstep w_do true) i w_host h' → i ≤ 6.
Proof.
  destruct (job_completes w_do true 2 ["x"; "bad"] [] [] 0 w_host) as (Hbound & Hfin & _).
  - intros Hin. repeat (apply elem_of_cons in Hin as [[=]|Hin]). by apply elem_of_nil in Hin.
  - lia.
  - apply messages_arrive.
  - reflexivity.
  - split_and!; [reflexivity| |exact Hbound]. destruct (Hfin w_host ltac:(reflexivity)) as [Hs|[He _]]; [exact Hs|discriminate].
Defined.

Lemma Distribute_effect_witness :
  ∃ ps info, Distribute (λ s, if decide (s = "bad") then inr "unsupported type" else inl s) (λ k, Z.of_nat (k mod 2))
      "id" ["h1"; "h2"] (inl ["a"; "bad"; "c"]) = Ret (ps, Some info, "ok", None) ∧
    ok_count info = 2 ∧ failed_count info = 1 ∧ length ps = 4.
Proof.
  destruct (Distribute_effect (λ s, if decide (s = "bad") then inr "unsupported type" else inl s)
    (λ k, Z.of_nat (k mod 2)) "id" ["h1"; "h2"] ["a"; "bad"; "c"]) as [Hd _].
  destruct (Hd ltac:(done)) as (ps & info & E & _). vm_compute in E. injection E as E1 E2.
  exists ps, info. subst ps info. by vm_compute.
Defined.

Lemma newJob_everywhere_witness :
  ∃ job t jm2, newJob w_enc "Agent_Task" 4 60 true 7 ∅ = ({[Id job := job]}, Some (job, t)) ∧
    sNeedRes job = true ∧ syncRecv w_dec inl t 8 ∅ = Ret jm2 ∧
    jm2 = {["id-Agent_Task-7" := mkSimpleJob "id-Agent_Task-7" "Agent_Task" 4 60 false false]}.
Proof.
  destruct (newJob w_enc "Agent_Task" 4 60 true 7 ∅) as [jm' [[job t]|]] eqn:E; [|discriminate].
  pose proof E as (Hj & Hn & Hs)%(newJob_everywhere w_enc w_dec inl w_dec_enc).
  destruct (Hs 8%Z ∅) as (jm2 & Hr & Hjm & _).
  exists job, t, jm2. unfold newJob in E. simpl in E. injection E as <- <- <-.
  split_and!; [reflexivity|exact Hn|exact Hr|exact Hjm].
Defined.

End Jobs.
