(* ===== verification/ManagerAuth.v ===== *)
(** * The manager: users, sessions and access control

    Models the token and role checks every request to the manager's API passes
    ([server/manager/biz/midware/tokenAuth.go], [rbacAuth.go]), the user table
    ([internal/login/user.go]) and the handlers that log users in and out and manage
    their passwords ([biz/handler/v1/user.go]).  The digest, the JWT library, the regular
    expressions, the sorting routine and the answers of the database and of Redis are
    parameters or arguments. *)

From S2P Require Import Prelude GoStrings.
From stdpp Require Import sorting.
From stdpp Require Import options.

Local Open Scope Z_scope.

Module ManagerAuth.

(** ** Users *)

Record UserConfig := mkUserConfig { Workspace : string; Favor : gmap string (list string) }.

Record User := mkUser {
  Username : string; Password : string; Salt : string; Avatar : string; Level : Z;
  uConfig : list UserConfig; Xml : bool; PasswordUpdateTime : Z
}.

Abbreviation UserTable := (gmap string User).

Definition GetUser (table : UserTable) (userName : string) : option User := table !! userName.

(** [loadUserFromDB]: the documents of the cursor, those that cannot be decoded skipped; a
    later document of a name replaces an earlier one. *)
Definition loadUserFromDB (found : list (User + string) + string) : option UserTable :=
  match found with
  | inr _ => None
  | inl cur =>
      Some (foldl (λ t d, match d with inl u => <[Username u := u]> t | inr _ => t end) ∅ cur)
  end.

(** One round of the refresh of [initUser]. *)
Definition refresh_users (table : UserTable) (found : list (User + string) + string) : UserTable :=
  default table (loadUserFromDB found).

(** ** Passwords and tokens *)

Inductive claim := CString (s : string) | COther.

Class Crypto := {
  sha1_Sum : string → string;
  (** [jwt.Parse]: the key function is told whether the method is HMAC. *)
  jwt_Parse : (bool → string + string) → string → (gmap string claim * bool) + string;
  SignedString : string → Z → string → string + string
}.

(** What [jwt.Parse] promises: a token is only reported as valid if the key function gave a
    key for the method the token names, and the signature is one of the claims, by that
    method, with that key. *)
Class Jwt `{Crypto} := {
  hmac_method : string → bool;
  signed_with : string → string → gmap string claim → Prop;
  jwt_law : ∀ keyFunc token claims, jwt_Parse keyFunc token = inl (claims, true) →
    ∃ key, keyFunc (hmac_method token) = inl key ∧ signed_with key token claims
}.

Section auth.
Context `{Crypto} (APITokenSecret : string).

Definition GenPassword (password salt : string) : string := hex_EncodeToString (sha1_Sum (password +:+ salt)).

Definition checkPassword (password salt hash : string) : bool :=
  bool_decide (hex_EncodeToString (sha1_Sum (password +:+ salt)) = hash).

Definition CheckUser (table : UserTable) (username password : string) : option User * option string :=
  match GetUser table username with
  | None => (None, Some "user not found")
  | Some u =>
      if checkPassword password (Salt u) (Password u) then (Some u, None)
      else (Some u, Some "verify password failed")
  end.

Definition VerifyToken (tokenString : string) : gmap string claim + string :=
  match jwt_Parse (λ hmac, if hmac : bool then inl APITokenSecret else inr "parser failed") tokenString with
  | inr err => inr err
  | inl (claims, true) => inl claims
  | inl (_, false) => inr "verify token failed"
  end.

Definition JWTExpireMinute : Z := 720.

Definition GeneralJwtToken (now : Z) (userName : string) : string + string :=
  SignedString userName (now + JWTExpireMinute * 60) APITokenSecret.

Definition GeneralSession (xid1 xid2 : string) : string := "seesion-" +:+ xid1 +:+ "-" +:+ xid2.

(** ** [TokenAuth] *)

Definition whiteUrlList : list string :=
  ["/api/v6/investigate/file/DownloadFileByToken"; "/api/v1/agent/heartbeat/join";
   "/api/v1/agent/heartbeat/evict"; "/api/v1/user/login"; "/api/v1/user/sso_url";
   "/api/v1/user/sso_logout"; "/api/v1/user/sso_token"; "/api/v1/agent/updateSubTask";
   "/api/v1/agent/subTask/update"; "/api/v6/shared/Upload"; "/api/v1/agent/queryInfo";
   "/api/v6/kube/inner/cluster/list"; "/api/v6/component/GetComponentInstances";
   "/api/v6/user/getCaptcha"; "/api/v6/systemRouter/InsertAlert"].

(** What a middleware does with a request: pass it on, perhaps for a user, or end it. *)
Inductive verdict := Next (user : option string) | Abort (status : Z).

Definition StatusUnauthorized : Z := 401.
Definition StatusForbidden : Z := 403.

Definition white (path : string) : bool :=
  has_prefix "/api/v1/agent/getConfig/" path || bool_decide (path ∈ whiteUrlList).

(** [rds_Get]: the value of a key in Redis, empty if there is none. *)
Definition TokenAuth (ApiAuth : bool) (rds_Get : string → string) (path token : string) : outcome verdict :=
  if negb ApiAuth then Ret (Next None)
  else if white path then Ret (Next None)
  else if decide (token = "") then Ret (Abort StatusUnauthorized)
  else if has_prefix "seesion-" token then
    let userName := rds_Get token in
    if decide (userName = "") then Ret (Abort StatusUnauthorized) else Ret (Next (Some userName))
  else
    match VerifyToken token with
    | inr _ => Ret (Abort StatusUnauthorized)
    | inl payload =>
        match payload !! "username" with
        | None | Some (CString "") => Ret (Abort StatusUnauthorized)
        | Some (CString userName) => Ret (Next (Some userName))
        | Some COther => Panic "interface conversion: interface {} is not string"
        end
    end.

End auth.

(** ** Roles *)

Record MetaRule := mkMetaRule {
  ID : Z; Desc : string; PathEqual : list string; PathPre : list string; PathRegex : list string;
  AuthorizedRoles : list Z; AllowAnyone : bool
}.

Section rbac.
Context {R : Type} (regexp_Compile : string → R + string) (MatchString : R → string → bool).
Context (sort_rules : list MetaRule → list MetaRule).

Record AcRule := mkAcRule { rule : MetaRule; pathRegexList : list R; roleMap : gset Z }.

Definition NewAcRule (r : MetaRule) : AcRule :=
  mkAcRule r (omap (λ v, match regexp_Compile v with inl reg => Some reg | inr _ => None end) (PathRegex r))
    (list_to_set (AuthorizedRoles r)).

Definition MatchPath (c : AcRule) (path : string) : bool :=
  existsb (λ v, bool_decide (v = path)) (PathEqual (rule c)) ||
  existsb (λ v, has_prefix v path) (PathPre (rule c)) ||
  existsb (λ v, MatchString v path) (pathRegexList c).

Definition MatchRole (table : UserTable) (c : AcRule) (role : string) : bool :=
  if AllowAnyone (rule c) then true
  else match GetUser table role with
       | None => false
       | Some u => bool_decide (Level u ∈ roleMap c)
       end.

Definition RuleIDSort (one other : MetaRule) : bool := bool_decide (ID one > ID other).

(** The rules, or the error of reading and decoding their file. *)
Definition NewAcController (rules : list MetaRule + string) : list AcRule + string :=
  match rules with
  | inr err => inr err
  | inl rules => inl (NewAcRule <$> sort_rules rules)
  end.

Fixpoint IsRequestGranted (table : UserTable) (ruleList : list AcRule) (path role : string) : bool :=
  match ruleList with
  | [] => true
  | v :: ruleList =>
      if MatchPath v path then MatchRole table v role else IsRequestGranted table ruleList path role
  end.

(** [RBACAuth]; without a controller every request passes. *)
Definition RBACAuth (table : UserTable) (ACWorker : list AcRule + string) (path : string)
    (user : option string) : verdict :=
  match ACWorker with
  | inr _ => Next user
  | inl ruleList =>
      if IsRequestGranted table ruleList path (default "" user) then Next user else Abort StatusForbidden
  end.

(** The middlewares of the groups [/api/v1] and [/api/v6], in order. *)
Definition api_auth `{Crypto} (secret : string) (ApiAuth : bool) (rds_Get : string → string)
    (table : UserTable) (ACWorker : list AcRule + string) (path token : string) : outcome verdict :=
  let! v := TokenAuth secret ApiAuth rds_Get path token in
  match v with
  | Abort st => Ret (Abort st)
  | Next user => Ret (RBACAuth table ACWorker path user)
  end.

(** The groups of routes behind a login: [/api/v0/job] has no access control. *)
Inductive route_group := ApiV0Job | ApiV1 | ApiV6.

Definition group_auth `{Crypto} (g : route_group) (secret : string) (ApiAuth : bool) (rds_Get : string → string)
    (table : UserTable) (ACWorker : list AcRule + string) (path token : string) : outcome verdict :=
  match g with
  | ApiV0Job => TokenAuth secret ApiAuth rds_Get path token
  | ApiV1 | ApiV6 => api_auth secret ApiAuth rds_Get table ACWorker path token
  end.

End rbac.

(** ** Handlers ([biz/handler/v1/user.go]) *)

Definition SuccessCode : Z := 0.
Definition AuthFailedErrorCode : Z := 1.
Definition DuplicateFieldErrorCode : Z := 2.
Definition DBOperateErrorCode : Z := 3.
Definition ParamInvalidErrorCode : Z := 5.
Definition UnknownErrorCode : Z := 10.

(** The answers of the handlers, with the data that matters here. *)
Inductive answer := Answer (code : Z) (data : string) | Token (token : string) | Checked (ok : bool) | Info (u : User).

Record AuthRequest := mkAuthRequest { aUsername : string; aPassword : string }.

Section handlers.
Context `{Crypto} (APITokenSecret : string).

(** The answer, and the key and value put into Redis for the session. *)
Definition UserLogin (table : UserTable) (now : Z) (xid1 xid2 : string) (body : AuthRequest + string)
  : answer * option (string * string) :=
  match body with
  | inr err => (Answer ParamInvalidErrorCode err, None)
  | inl user =>
      let '(_, err) := CheckUser table (aUsername user) (aPassword user) in
      if decide (aUsername user = "root") then
        match err with
        | Some e => (Answer AuthFailedErrorCode e, None)
        | None =>
            match GeneralJwtToken APITokenSecret now (aUsername user) with
            | inr e => (Answer AuthFailedErrorCode e, None)
            | inl token => (Token token, None)
            end
        end
      else
        match err with
        | Some _ => (Answer AuthFailedErrorCode "verify password failed", None)
        | None =>
            let token := GeneralSession xid1 xid2 in
            (Token token, Some (token, aUsername user))
        end
  end.

(** What a handler asks of the user collection. *)
Inductive db_op :=
| SetPassword (username salt password : string) (time : Z)
| SetLevel (username : string) (level : Z) (avatar : string)
| InsertUser (u : User)
| DeleteUser (username : string).

(** The answer to an operation with the error it ended with, if any. *)
Definition db_answer (code : Z) (err : option string) : answer :=
  match err with Some e => Answer code e | None => Answer SuccessCode "ok" end.

Definition with_password (password salt : string) (time : Z) (u : User) : User :=
  mkUser (Username u) (GenPassword password salt) salt (Avatar u) (Level u) (uConfig u) (Xml u) time.

(** [count]: the number of documents with the name; [result]: the error of the write. *)
Definition ResetPassword (user : option string) (salt : string) (now : Z) (count : Z + string)
    (result : option string) (body : User + string) : answer * option db_op :=
  match body with
  | inr err => (Answer ParamInvalidErrorCode err, None)
  | inl userParam =>
      if decide (Password userParam = "") then (Answer ParamInvalidErrorCode "password cannot be empty", None)
      else match user with
           | None => (Answer UnknownErrorCode "user not login", None)
           | Some user =>
               if decide (user ≠ Username userParam) then (Answer UnknownErrorCode "permission denied", None)
               else match count with
                    | inr err => (Answer DBOperateErrorCode err, None)
                    | inl count =>
                        if decide (count ≠ 1)
                        then (Answer UnknownErrorCode ("user is not in db, count :" +:+ itoa count), None)
                        else
                          let u := with_password (Password userParam) salt now userParam in
                          (db_answer ParamInvalidErrorCode result,
                           Some (SetPassword (Username u) (Salt u) (Password u) (PasswordUpdateTime u)))
                    end
           end
  end.

(** [found]: the level of the document with the name, or the error of reading it. *)
Definition CreateUserV6 (salt : string) (now : Z) (count : Z + string) (found : Z + string)
    (result : option string) (body : User + string) : answer * option db_op :=
  match body with
  | inr err => (Answer ParamInvalidErrorCode err, None)
  | inl userParam =>
      match count with
      | inr err => (Answer DBOperateErrorCode err, None)
      | inl count =>
          if decide (count ≠ 0) then
            match found with
            | inr err => (Answer ParamInvalidErrorCode err, None)
            | inl level =>
                if decide (level ≠ 0 ∧ level ≠ 2 ∧ level ≠ 3)
                then (Answer DuplicateFieldErrorCode "username locking, please change", None)
                else (Answer DuplicateFieldErrorCode "用户名重复", None)
            end
          else
            (db_answer ParamInvalidErrorCode result,
             Some (InsertUser (with_password (Password userParam) salt now userParam)))
      end
  end.

Definition UpdateUser (count : Z + string) (result : option string) (body : User + string) : answer * option db_op :=
  match body with
  | inr err => (Answer ParamInvalidErrorCode err, None)
  | inl userParam =>
      match count with
      | inr err => (Answer DBOperateErrorCode err, None)
      | inl count =>
          if decide (count ≠ 1)
          then (Answer UnknownErrorCode ("user is not in db, count :" +:+ itoa count), None)
          else (db_answer ParamInvalidErrorCode result,
                Some (SetLevel (Username userParam) (Level userParam) (Avatar userParam)))
      end
  end.

Definition DelUser (result : option string) (body : User + string) : answer * option db_op :=
  match body with
  | inr err => (Answer ParamInvalidErrorCode err, None)
  | inl userParam => (db_answer DBOperateErrorCode result, Some (DeleteUser (Username userParam)))
  end.

(** [None]: the body cannot be decoded and the handler writes no answer of its own. *)
Definition CheckPassword (user : option string) (found : User + string) (body : AuthRequest + string) : option answer :=
  match body with
  | inr _ => None
  | inl req =>
      Some match user with
           | None => Answer UnknownErrorCode "user not login"
           | Some user =>
               if decide (user ≠ aUsername req) then Answer UnknownErrorCode "permission denied"
               else match found with
                    | inr err => Answer DBOperateErrorCode err
                    | inl u => Checked (checkPassword (aPassword req) (Salt u) (Password u))
                    end
           end
  end.

Definition UserInfo (user : string) (found : User + string) : answer :=
  if decide (user = "") then Answer SuccessCode ""
  else match found with
       | inr err => Answer ParamInvalidErrorCode err
       | inl u => Info (mkUser (Username u) "***" "***" (Avatar u) (Level u) (uConfig u) (Xml u) (PasswordUpdateTime u))
       end.

(** The answer, and the key deleted from Redis. *)
Definition UserLoginout (token : string) (result : option string) : answer * string :=
  (Answer SuccessCode (default "" result), token).

End handlers.

(** ** Access control *)

Section rbac_theorems.
Context {R : Type} (regexp_Compile : string → R + string) (MatchString : R → string → bool).

(** A rule that applies to a path, and one that admits a user. *)
Definition applies (path : string) (r : MetaRule) : Prop :=
  MatchPath MatchString (NewAcRule regexp_Compile r) path = true.
Definition admits (table : UserTable) (role : string) (r : MetaRule) : Prop :=
  AllowAnyone r = true ∨ ∃ u, table !! role = Some u ∧ Level u ∈ AuthorizedRoles r.

#[local] Instance applies_dec path r : Decision (applies path r).
Proof. unfold applies. apply _. Defined.

Lemma MatchRole_admits table role r :
  MatchRole table (NewAcRule regexp_Compile r) role = true ↔ admits table role r.
Proof.
  unfold MatchRole, admits, GetUser. cbn [rule NewAcRule roleMap].
  destruct (AllowAnyone r); [by split; [left|]|].
  destruct (table !! role) as [u|].
  - rewrite bool_decide_eq_true, elem_of_list_to_set. naive_solver.
  - naive_solver.
Qed.

(** The first rule of a sorted list that applies has the greatest id. *)
Lemma granted_sorted table path role l :
  StronglySorted (λ a b, ID b ≤ ID a) l →
  IsRequestGranted MatchString table (NewAcRule regexp_Compile <$> l) path role = true →
  Forall (λ r, ¬ applies path r) l ∨
  ∃ r, r ∈ l ∧ applies path r ∧ Forall (λ r', applies path r' → ID r' ≤ ID r) l ∧ admits table role r.
Proof.
  induction 1 as [|r l Hs IH Hle]; [by left; constructor|]. cbn [fmap list_fmap IsRequestGranted].
  destruct (MatchPath MatchString (NewAcRule regexp_Compile r) path) eqn:Hm.
  - rewrite MatchRole_admits. intros Ha. right. exists r. split_and!; [by left|done| |done].
    constructor; [done|]. eapply Forall_impl; [exact Hle|]. auto.
  - intros Hg. destruct (IH Hg) as [Hn|(r' & Hin & Hap & Hmax & Had)].
    + left. constructor; [|done]. unfold applies. by rewrite Hm.
    + right. exists r'. split_and!; [by right|done| |done]. constructor; [|done].
      unfold applies. by rewrite Hm.
Qed.

Lemma refused_sorted table path role l :
  StronglySorted (λ a b, ID b ≤ ID a) l →
  IsRequestGranted MatchString table (NewAcRule regexp_Compile <$> l) path role = false →
  ∃ r, r ∈ l ∧ applies path r ∧ Forall (λ r', applies path r' → ID r' ≤ ID r) l ∧ ¬ admits table role r.
Proof.
  induction 1 as [|r l Hs IH Hle]; [done|]. cbn [fmap list_fmap IsRequestGranted].
  destruct (MatchPath MatchString (NewAcRule regexp_Compile r) path) eqn:Hm.
  - rewrite <-not_true_iff_false, MatchRole_admits. intros Ha. exists r. split_and!; [by left|done| |done].
    constructor; [done|]. eapply Forall_impl; [exact Hle|]. auto.
  - intros Hg. destruct (IH Hg) as (r' & Hin & Hap & Hmax & Had).
    exists r'. split_and!; [by right|done| |done]. constructor; [|done]. unfold applies. by rewrite Hm.
Qed.

Context (sort_rules : list MetaRule → list MetaRule).
Context (sort_spec : ∀ l, sort_rules l ≡ₚ l ∧ StronglySorted (λ a b, ID b ≤ ID a) (sort_rules l)).

(** The requirement of the deciding rule. *)
Definition decided (rules : list MetaRule) (table : UserTable) (path role : string) : Prop :=
  ∀ r, r ∈ rules → applies path r → (∀ r', r' ∈ rules → applies path r' → ID r' ≤ ID r) → admits table role r.

Lemma granted_decided table rules path role :
  NoDup (ID <$> rules) →
  IsRequestGranted MatchString table (NewAcRule regexp_Compile <$> sort_rules rules) path role = true ↔
  decided rules table path role.
Proof using sort_spec.
  intros Hids. destruct (sort_spec rules) as [Hp Hs].
  assert (∀ P : MetaRule → Prop, Forall P (sort_rules rules) ↔ ∀ r, r ∈ rules → P r) as HF.
  { intros P. rewrite Forall_forall. by setoid_rewrite Hp. }
  assert (∀ r r', r ∈ rules → r' ∈ rules → ID r = ID r' → r = r') as Hinj.
  { intros r r' (i & Hi)%list_elem_of_lookup (j & Hj)%list_elem_of_lookup Heq.
    assert (i = j) as <-; [|congruence].
    apply (NoDup_lookup (ID <$> rules) i j (ID r)); [done|..]; rewrite list_lookup_fmap.
    - by rewrite Hi.
    - rewrite Hj. cbn. by rewrite Heq. }
  split.
  - intros Hg r Hr Ha Hmax. apply granted_sorted in Hg as [Hn|(r' & Hr' & Ha' & Hmax' & Had)]; [..|done].
    + rewrite HF in Hn. by destruct (Hn r Hr).
    + rewrite Hp in Hr'. rewrite HF in Hmax'. rewrite (Hinj r r'); [done|done|done|]. apply Z.le_antisymm; eauto.
  - intros Hall. destruct (IsRequestGranted _ _ _ _ _) eqn:Hg; [done|].
    apply refused_sorted in Hg as (r & Hr & Ha & Hmax & Hn); [|done]. rewrite Hp in Hr. rewrite HF in Hmax.
    destruct Hn. by apply Hall.
Qed.

(** The rule with the greatest id among those that apply to the path decides: a request
    is granted if no rule applies or if that rule admits its user, and refused if that rule
    does not, in whatever order the file lists the rules. *)
Theorem greatest_rule_decides table rules path role :
  NoDup (ID <$> rules) →
  ∃ ac, NewAcController regexp_Compile sort_rules (inl rules) = inl ac ∧
    (IsRequestGranted MatchString table ac path role = true ↔ decided rules table path role).
Proof using sort_spec. intros Hids. eexists. split; [done|]. by apply granted_decided. Qed.

Lemma TokenAuth_user `{Jwt} secret rds_Get path token user :
  white path = false → TokenAuth secret true rds_Get path token = Ret (Next user) →
  ∃ u, user = Some u ∧ u ≠ "" ∧
    ((has_prefix "seesion-" token = true ∧ rds_Get token = u) ∨
     (has_prefix "seesion-" token = false ∧ hmac_method token = true ∧
        ∃ claims, signed_with secret token claims ∧ claims !! "username" = Some (CString u))).
Proof.
  intros Hw. unfold TokenAuth. cbn [negb]. rewrite Hw. destruct (decide (token = "")); [done|].
  destruct (has_prefix "seesion-" token).
  - case_decide as Hu; [done|]. intros [= <-]. eexists. split_and!; [done|done|]. by left.
  - unfold VerifyToken. destruct (jwt_Parse _ token) as [[claims []]|] eqn:Hj; [|done|done].
    apply jwt_law in Hj as (key & Hk & Hs). destruct (hmac_method token) eqn:Hm; [|done]. injection Hk as <-.
    destruct (claims !! "username") as [[u|]|] eqn:Hc; [|done|done]. destruct u as [|c u]; [done|]. intros [= <-].
    eexists. split_and!; [done|done|]. right. split_and!; [done|done|]. by exists claims.
Qed.


End rbac_theorems.

(** ** Logging in *)

Section login_theorems.
Context `{Crypto} (secret : string).

Lemma loadUserFromDB_last pre u post :
  (∀ u', inl u' ∈ post → Username u' ≠ Username u) →
  ∃ table, loadUserFromDB (inl (pre ++ inl u :: post)) = Some table ∧ GetUser table (Username u) = Some u.
Proof.
  intros Hpost. eexists. split; [done|]. unfold GetUser. rewrite foldl_app. cbn [foldl].
  generalize (foldl (λ t d, match d with inl u => <[Username u := u]> t | inr _ => t end) (∅ : UserTable) pre).
  intros t. assert ((<[Username u := u]> t : UserTable) !! Username u = Some u) as Hu by apply lookup_insert_eq.
  revert Hu. generalize (<[Username u := u]> t : UserTable). clear t. induction post as [|[u'|e] post IH]; intros t Hu; [done|..]; cbn [foldl].
  - apply IH; [set_solver|]. rewrite lookup_insert_ne; [done|]. apply Hpost. by left.
  - apply IH; [set_solver|done].
Qed.

(** A user who has been created can log in with that password once the table has been
    refreshed, and with no password whose digest differs; the session the login opens
    authenticates requests as that user for as long as Redis keeps it. *)
Theorem login_roundtrip userParam salt now count found op pre post cursor now' xid1 xid2 path rds_Get pw :
  CreateUserV6 salt now (inl count) found None (inl userParam) = (Answer SuccessCode "ok", op) →
  Username userParam ≠ "root" → Username userParam ≠ "" →
  (∀ u, op = Some (InsertUser u) → cursor = pre ++ inl u :: post) →
  (∀ u', inl u' ∈ post → Username u' ≠ Username userParam) →
  white path = false →
  ∃ table token,
    loadUserFromDB (inl cursor) = Some table ∧
    UserLogin secret table now' xid1 xid2 (inl (mkAuthRequest (Username userParam) (Password userParam)))
      = (Token token, Some (token, Username userParam)) ∧
    (rds_Get token = Username userParam →
       TokenAuth secret true rds_Get path token = Ret (Next (Some (Username userParam)))) ∧
    (sha1_Sum (pw +:+ salt) ≠ sha1_Sum (Password userParam +:+ salt) →
       UserLogin secret table now' xid1 xid2 (inl (mkAuthRequest (Username userParam) pw))
         = (Answer AuthFailedErrorCode "verify password failed", None)).
Proof.
  unfold CreateUserV6. case_decide as Hcount; [destruct found; [case_decide|]; done|].
  intros [= <-] Hroot Hne Hcur Hpost Hw. specialize (Hcur _ eq_refl). subst cursor.
  destruct (loadUserFromDB_last pre (with_password (Password userParam) salt now userParam) post Hpost)
    as (table & Ht & Hu). cbn [Username with_password] in Hu.
  exists table, (GeneralSession xid1 xid2).
  assert (∀ p, CheckUser table (Username userParam) p =
    if checkPassword p salt (GenPassword (Password userParam) salt)
    then (Some (with_password (Password userParam) salt now userParam), None)
    else (Some (with_password (Password userParam) salt now userParam), Some "verify password failed")) as Hchk.
  { intros p. unfold CheckUser. by rewrite Hu. }
  split_and!; [done|..].
  - unfold UserLogin. cbn [aUsername aPassword]. rewrite Hchk. unfold checkPassword, GenPassword.
    rewrite bool_decide_eq_true_2 by done. by rewrite decide_False.
  - intros Hg. unfold TokenAuth. cbn [negb]. rewrite Hw, decide_False by done.
    assert (has_prefix "seesion-" (GeneralSession xid1 xid2) = true) as -> by (apply has_prefix_true; by eexists).
    rewrite Hg. by rewrite decide_False.
  - intros Hpw. unfold UserLogin. cbn [aUsername aPassword]. rewrite Hchk. unfold checkPassword, GenPassword.
    rewrite bool_decide_eq_false_2; [by rewrite decide_False|].
    intros He. apply Hpw. apply (f_equal hex_DecodeString) in He.
    rewrite !hex_DecodeString_EncodeToString in He. by injection He.
Qed.

End login_theorems.

(** ** A small installation *)

#[local] Instance w_crypto : Crypto := {|
  sha1_Sum s := s;
  jwt_Parse key s := match key true with inl k => if decide (s = k) then inl ({["username" := CString "root"]}, true) else inr "bad" | inr e => inr e end;
  SignedString u t k := inl k
|}.

Definition w_le (a b : MetaRule) : Prop := ID b ≤ ID a.
#[local] Instance w_le_dec a b : Decision (w_le a b).
Proof. unfold w_le. apply _. Defined.
Definition w_sort (l : list MetaRule) : list MetaRule := merge_sort w_le l.

Lemma w_sort_spec l : w_sort l ≡ₚ l ∧ StronglySorted (λ a b, ID b ≤ ID a) (w_sort l).
Proof.
  split; [apply merge_sort_Permutation|].
  assert (Transitive w_le) by (intros a b c; unfold w_le; lia).
  assert (Total w_le) by (intros a b; unfold w_le; lia).
  by apply (StronglySorted_merge_sort w_le).
Qed.

Definition w_compile (s : string) : string + string := inl s.
Definition w_match (r path : string) : bool := has_prefix r path.

Definition w_rules : list MetaRule :=
  [mkMetaRule 0 "" [] ["/"] [] [0; 1; 2; 3] false; mkMetaRule 1 "" ["/api/v1/user/del"] [] [] [0] false;
   mkMetaRule 5 "" ["/api/v1/user/login"] [] [] [] true].

Definition w_user (n : string) (l : Z) : User := mkUser n "" "" "" l [] false 0.
Definition w_table : UserTable := {["alice" := w_user "alice" 3; "bob" := w_user "bob" 0]}.

Lemma greatest_rule_decides_witness :
  ∃ ac, NewAcController w_compile w_sort (inl w_rules) = inl ac ∧
    (IsRequestGranted w_match w_table ac "/api/v1/user/del" "alice" = true ↔
     decided w_compile w_match w_rules w_table "/api/v1/user/del" "alice").
Proof.
  apply (greatest_rule_decides w_compile w_match w_sort w_sort_spec w_table w_rules).
  apply (bool_decide_unpack _). vm_compute. exact I.
Defined.

(** The tokens of the instance are their own key. *)
Definition w_signed (k s : string) (claims : gmap string claim) : Prop := s = k ∧ claims = {["username" := CString "root"]}.

Lemma w_jwt_law keyFunc token claims :
  jwt_Parse keyFunc token = inl (claims, true) → ∃ key, keyFunc true = inl key ∧ w_signed key token claims.
Proof.
  simpl. destruct (keyFunc true) as [k|]; [|done]. case_decide; [|done]. intros [= <-]. by exists k.
Qed.

#[local] Instance w_jwt : Jwt := {| hmac_method _ := true; signed_with := w_signed; jwt_law := w_jwt_law |}.


Lemma login_roundtrip_witness :
  ∃ table token,
    loadUserFromDB (inl [inl (w_user "bob" 0); inl (mkUser "carol" (GenPassword "secret" "salt") "salt" "" 2 [] false 7)]) = Some table ∧
    UserLogin "k" table 9 "1" "2" (inl (mkAuthRequest "carol" "secret")) = (Token token, Some (token, "carol")) ∧
    UserLogin "k" table 9 "1" "2" (inl (mkAuthRequest "carol" "guess")) = (Answer AuthFailedErrorCode "verify password failed", None).
Proof.
  destruct (login_roundtrip "k" (mkUser "carol" "secret" "" "" 2 [] false 0) "salt" 7 0 (inl 0) 
    (Some (InsertUser (mkUser "carol" (GenPassword "secret" "salt") "salt" "" 2 [] false 7)))
    [inl (w_user "bob" 0)] []
    [inl (w_user "bob" 0); inl (mkUser "carol" (GenPassword "secret" "salt") "salt" "" 2 [] false 7)]
    9 "1" "2" "/api/v1/user/info" (λ _, "carol") "guess") as (table & token & H1 & H2 & _ & H4).
  - reflexivity.
  - discriminate.
  - discriminate.
  - intros u [= <-]. reflexivity.
  - intros u []%elem_of_nil.
  - reflexivity.
  - exists table, token. split; [exact H1|]. split; [exact H2|]. apply H4. discriminate.
Defined.

End ManagerAuth.
