(* ===== verification/Component.v ===== *)
(** * Components of agents: publishing and distribution

    Models [server/manager/biz/handler/v6/component.go] and the client of the download server
    ([infra/tos/tos.go]): a component (a plugin or the agent itself) is created, versions of
    it are published with one file per platform, a policy releases a version, and agents ask
    for the instances that are meant for them.  The database is modelled by the documents of
    the three collections with the operations the handlers use; the download server by the
    contents it serves.  Regular expressions, the hash function, the reader of archives and
    the answers of the network are parameters. *)

From Stdlib Require Import Ascii.
From S2P Require Import Prelude GoStrings GoPath ManagerAuth.
From stdpp Require Import options.

Module Component.

Local Open Scope Z_scope.

(** ** Data *)

Record Component := mkComponent {
  cID : Z; cName : string; cType : string; ArchRequirements : list string;
  PlatformFamilyRequirements : list string; Owner : string; CreateTime : Z }.

Record ComponentFile := mkFile {
  PlarformFamily : string; Arch : string; DownloadURL : list string; SHA256 : string; Signature : string }.

Record ComponentVersion := mkVersion {
  vID : Z; Version : string; Files : list ComponentFile; Publisher : string; PublishTime : Z; vComponent : Component }.

Record PolicyRule := mkRule { Key : string; Operator : string; Value : string }.

Record Policy := mkPolicy {
  pID : Z; pVersion : ComponentVersion; pType : string; pCreateTime : Z; Creator : string; Rules : list PolicyRule }.

Record ComponentInstance := mkInstance {
  iName : string; iVersion : string; iSHA256 : string; iDownloadURL : list string; iSignature : string; iType : string }.

Record ContextInfo := mkInfo {
  AgentID : string; KernelVersion : string; PlatformFamily : string; cArch : string; Tags : list string }.

#[export] Instance file_eq_dec : EqDecision ComponentFile.
Proof. solve_decision. Defined.
#[export] Instance component_eq_dec : EqDecision Component.
Proof. solve_decision. Defined.
#[export] Instance version_eq_dec : EqDecision ComponentVersion.
Proof. solve_decision. Defined.
#[export] Instance rule_eq_dec : EqDecision PolicyRule.
Proof. solve_decision. Defined.
#[export] Instance policy_eq_dec : EqDecision Policy.
Proof. solve_decision. Defined.

(** ** The patterns of names and versions *)

Definition digit (c : ascii) : bool := bool_decide (48 ≤ Z.of_nat (nat_of_ascii c) ≤ 57).
Definition name_char (c : ascii) : bool :=
  let n := Z.of_nat (nat_of_ascii c) in
  digit c || bool_decide (65 ≤ n ≤ 90) || bool_decide (97 ≤ n ≤ 122) || bool_decide (n = 95) || bool_decide (n = 45).

(** [nameRegex]. *)
Definition valid_name (s : string) : bool := bool_decide (s ≠ "") && str_forall name_char s.

(** A part of a version: 0, or up to four digits of which the first is not 0. *)
Definition valid_part (s : string) : bool :=
  bool_decide (s = "0") ||
  match s with
  | EmptyString => false
  | String c r => digit c && bool_decide (c ≠ "0"%char) && str_forall digit r && bool_decide (String.length r ≤ 3)%nat
  end.

(** [versionRegex]. *)
Definition valid_version (s : string) : bool :=
  match str_split "." s with
  | [a; b; c; d] => valid_part a && valid_part b && valid_part c && valid_part d
  | _ => false
  end.

(** ** The download server *)

(** A client: the URLs under which the server is reached. *)
Record NginxClient := mkNginx { url : list string }.

Definition getURL (c : NginxClient) (object : string) : list string := (λ u, u +:+ object) <$> url c.

(** What is served: by client and object. *)
Abbreviation store := (gmap (nat * string) string).

(** The answer to a post: a status, or an error. *)
Abbreviation post_answer := (Z + string)%type.

(** [PutObject]: the server keeps the body of a post it accepts; the client does not look
    at the status. *)
Definition PutObject (i : nat) (c : NginxClient) (object content : string) (answer : post_answer) (st : store)
    : (list string + string) * store :=
  match answer with
  | inr err => (inr err, st)
  | inl status =>
      (inl (getURL c object), if decide (200 ≤ status < 300) then <[(i, object) := content]> st else st)
  end.

Section component.
(** [regexp.Compile] and [FindStringSubmatch(v) != nil]; SHA-256; the entries of a gzipped
    archive (name, size of the header, contents or error) and the error that ends them; the
    answers of the download server by client and object; [primitive.ObjectIDFromHex] without
    its error; the name of the agent. *)
Context (regexp_Compile : string → option (string → bool)) (sha256 : string → string)
  (read_tar : string → (list (string * Z * (string + string)) * option string) + string)
  (answer : nat → string → post_answer) (from_hex : string → Z) (AgentName : string).

(** ** Policies *)

Inductive fvalue := FNil | FStr (s : string) | FStrs (l : list string).

Abbreviation regexes := (gmap string (string → bool)).

(** [Find]: the result, and the cache of compiled expressions. *)
Definition Find (r : PolicyRule) (v : fvalue) (rc : regexes) : (bool * option string) * regexes :=
  if decide (Operator r = "$in") then
    let splits := str_split "," (Value r) in
    match v with
    | FStr s => (bool_decide (s ∈ splits), None, rc)
    | FStrs l => (existsb (λ sp, bool_decide (sp ∈ l)) splits, None, rc)
    | FNil => (false, None, rc)
    end
  else if decide (Operator r = "$regex") then
    let match_ reg rc :=
      match v with
      | FStr s => (reg s : bool, None, rc)
      | _ => (false, Some "unknown type", rc)
      end in
    match rc !! Operator r with
    | Some reg => match_ reg rc
    | None =>
        match regexp_Compile (Value r) with
        | None => (false, Some "error parsing regexp", rc)
        | Some reg => match_ reg (<[Value r := reg]> rc)
        end
    end
  else (false, None, rc).

(** The caches of the process. *)
Record caches := mkCaches { regexCache : regexes; tagsCache : gmap string (list string) }.

(** The value a rule looks at; [tags] is the answer of the database for an agent. *)
Definition rule_value (tags : string → list string + string) (r : PolicyRule) (info : ContextInfo) (c : caches)
    : fvalue * caches :=
  if decide (Key r = "agent_id") then (FStr (AgentID info), c)
  else if decide (Key r = "tag") then
    match tagsCache c !! AgentID info with
    | Some l => (FStrs l, c)
    | None =>
        match tags (AgentID info) with
        | inr _ => (FNil, c)
        | inl l => (FStrs l, mkCaches (regexCache c) (<[AgentID info := l]> (tagsCache c)))
        end
    end
  else if decide (Key r = "kernel_version") then (FStr (KernelVersion info), c)
  else (FNil, c).

(** The loop over the rules: whether one of them shoots. *)
Fixpoint shot (tags : string → list string + string) (rules : list PolicyRule) (info : ContextInfo) (c : caches)
    : bool * caches :=
  match rules with
  | [] => (false, c)
  | r :: rules =>
      let '(v, c) := rule_value tags r info c in
      let '(find, _, rc) := Find r v (regexCache c) in
      let c := mkCaches rc (tagsCache c) in
      if find then (true, c) else shot tags rules info c
  end.

(** Whether a file is meant for the platform of an agent. *)
Definition suits (comp : Component) (info : ContextInfo) (f : ComponentFile) : bool :=
  let noArch := bool_decide (ArchRequirements comp = []) in
  let noFamily := bool_decide (PlatformFamilyRequirements comp = []) in
  let arch := bool_decide (cArch info = Arch f) in
  let family := bool_decide (PlatformFamily info = PlarformFamily f) in
  (noArch && noFamily) || (negb noArch && negb noFamily && (family && arch)) ||
  (negb noArch && noFamily && arch) || (noArch && negb noFamily && family).

Definition instance_of (p : Policy) (f : ComponentFile) : ComponentInstance :=
  let comp := vComponent (pVersion p) in
  mkInstance (cName comp) (Version (pVersion p)) (SHA256 f) (DownloadURL f) (Signature f) (cType comp).

Definition GetIntance (tags : string → list string + string) (p : Policy) (info : ContextInfo) (c : caches)
    : option ComponentInstance * caches :=
  let '(s, c) := if decide (AgentID info ≠ "") then shot tags (Rules p) info c else (false, c) in
  if s then (None, c)
  else
    match filter (λ f, suits (vComponent (pVersion p)) info f = true) (Files (pVersion p)) with
    | f :: _ => (Some (instance_of p f), c)
    | [] => (None, c)
    end.

(** ** The handlers *)

(** The collections, the download server and the local state of the process. *)
Record sys := mkSys {
  comps : list Component; vers : list ComponentVersion; pols : list Policy; served : store;
  policiesCache : option (Z * list Policy); local : caches }.

Inductive response := Answer (code : Z) (msg : string) | Inserted (id : Z) | Deleted (n : nat) | Instances (l : list ComponentInstance).

(** [UpdateOne] with [$setOnInsert] and [upsert]: nothing changes if a document matches. *)
Definition upsert {A} (matches : A → bool) (x : A) (l : list A) : list A * bool :=
  if existsb matches l then (l, false) else (l ++ [x], true).

Record CreateComponentReqBody := mkCreate {
  rName : string; rType : string; rArch : option (list string); rFamily : option (list string) }.

(** The conditions of the binding: a nil list is refused, an empty one is not. *)
Definition one_of (allowed : list string) (l : option (list string)) : bool :=
  match l with
  | None => false
  | Some l => bool_decide (length l ≤ 2)%nat && bool_decide (NoDup l) && forallb (λ x, bool_decide (x ∈ allowed)) l
  end.

Definition bind_create (r : CreateComponentReqBody) : bool :=
  (bool_decide (rType r = "agent") || bool_decide (rName r ≠ "")) &&
  bool_decide (rType r ∈ ["tar.gz"; "exec"; "agent"]) &&
  one_of ["x86_64"; "aarch64"] (rArch r) && one_of ["debian"; "rhel"] (rFamily r).

(** [CreateComponent]; [fault]: the error of the database, if any. *)
Definition CreateComponent (r : CreateComponentReqBody) (user : string) (now id : Z) (fault : option string) (s : sys)
    : sys * response :=
  if bind_create r then
    if negb (bool_decide (rType r = "agent")) && negb (valid_name (rName r))
    then (s, Answer ManagerAuth.ParamInvalidErrorCode "invalid component name")
    else
      let name := if decide (rType r = "agent") then AgentName else rName r in
      match fault with
      | Some err => (s, Answer ManagerAuth.DBOperateErrorCode err)
      | None =>
          let c := mkComponent id name (rType r) (default [] (rArch r)) (default [] (rFamily r)) user now in
          match upsert (λ c', bool_decide (cName c' = name)) c (comps s) with
          | (l, true) => (mkSys l (vers s) (pols s) (served s) (policiesCache s) (local s), Inserted id)
          | (_, false) => (s, Answer ManagerAuth.UnknownErrorCode "create component failed")
          end
      end
  else (s, Answer ManagerAuth.ParamInvalidErrorCode "binding").

(** The names of the files a version has. *)
Definition file_names (c : Component) : list string :=
  match ArchRequirements c, PlatformFamilyRequirements c with
  | [], [] => ["default"]
  | [], fams => fams
  | archs, [] => archs
  | archs, fams => concat ((λ p, (λ a, p +:+ "_" +:+ a) <$> archs) <$> fams)
  end.

(** The platform a name stands for. *)
Definition platform (name : string) : string * string :=
  if decide (name = "x86_64" ∨ name = "aarch64") then ("", name)
  else match str_cut "_" name with Some (f, a) => (f, a) | None => (name, "") end.

Definition ext_of (ty family : string) : string :=
  if decide (ty = "exec") then ".plg"
  else if decide (ty = "tar.gz") then ".tar.gz"
  else if decide (ty = "agent") then
    (if decide (family = "debian") then ".deb" else if decide (family = "rhel") then ".rpm" else ".pkg")
  else "".

Definition or_default (s : string) : string := if decide (s = "") then "default" else s.

Definition object_name (comp : Component) (family arch version : string) : string :=
  "/agent/component/" +:+ cName comp +:+ "/" +:+ cName comp +:+ "-" +:+ or_default family +:+ "-" +:+ or_default arch
    +:+ "-" +:+ version +:+ ext_of (cType comp) family.

(** The upload of a file to every client; [cf] gets the URLs. *)
Fixpoint put_all (i : nat) (clients : list NginxClient) (comp : Component) (version content : string)
    (cf : ComponentFile) (st : store) : (ComponentFile + string) * store :=
  match clients with
  | [] => (inl cf, st)
  | c :: clients =>
      let object := object_name comp (PlarformFamily cf) (Arch cf) version in
      match PutObject i c object content (answer i object) st with
      | (inr err, st) => (inr err, st)
      | (inl urls, st) =>
          put_all (S i) clients comp version content
            (mkFile (or_default (PlarformFamily cf)) (or_default (Arch cf)) (DownloadURL cf ++ urls) (SHA256 cf) (Signature cf)) st
      end
  end.

(** The search for the main file of an archive: its digest. *)
Fixpoint main_signature (name : string) (entries : list (string * Z * (string + string))) (end_ : option string)
    : string + string :=
  match entries with
  | [] => match end_ with None => inl "" | Some err => inr err end
  | (n, size, data) :: entries =>
      if decide (name = path_Clean n) then
        match data with
        | inr err => inr err
        | inl d => if decide (Z.of_nat (String.length d) ≠ size) then inr "invalid main file size"
                   else inl (hex_EncodeToString (sha256 d))
        end
      else main_signature name entries end_
  end.

Definition signature_of (comp : Component) (content : string) : string + string :=
  if decide (cType comp = "tar.gz") then
    match read_tar content with
    | inr err => inr err
    | inl (entries, end_) =>
        match main_signature (cName comp) entries end_ with
        | inr err => inr err
        | inl sig => if decide (sig = "") then inr "can't find main file or invalid signature" else inl sig
        end
    end
  else inl "".

Definition MaxComponentSize : Z := 512 * 1024 * 1024.

(** A file of the form: absent, or its size and what reading it gives. *)
Inductive upload := NoFile (err : string) | Uploaded (size : Z) (content : string + string).

(** What is made of a file of the form before it is uploaded. *)
Definition prepare_file (comp : Component) (form : string → upload) (name : string)
    : (string * ComponentFile) + (Z * string) :=
  let '(family, arch) := platform name in
  match form name with
  | NoFile err => inr (ManagerAuth.ParamInvalidErrorCode, err)
  | Uploaded size content =>
      if decide (size > MaxComponentSize) then inr (ManagerAuth.ParamInvalidErrorCode, "size of component exceeds limit")
      else
        match content with
        | inr err => inr (ManagerAuth.ParamInvalidErrorCode, err)
        | inl content =>
            match signature_of comp content with
            | inr err => inr (ManagerAuth.ParamInvalidErrorCode, err)
            | inl sig => inl (content, mkFile family arch [] (hex_EncodeToString (sha256 content)) sig)
            end
        end
  end.

(** The loop over the names. *)
Fixpoint publish_files (clients : list NginxClient) (comp : Component) (version : string) (form : string → upload)
    (names : list string) (st : store) : (list ComponentFile + (Z * string)) * store :=
  match names with
  | [] => (inl [], st)
  | name :: names =>
      match prepare_file comp form name with
      | inr e => (inr e, st)
      | inl (content, cf) =>
          match put_all 0 clients comp version content cf st with
          | (inr err, st) => (inr (ManagerAuth.UnknownErrorCode, err), st)
          | (inl cf, st) =>
              match publish_files clients comp version form names st with
              | (inl files, st) => (inl (cf :: files), st)
              | (inr e, st) => (inr e, st)
              end
          end
      end
  end.

Definition set_served (st : store) (s : sys) : sys := mkSys (comps s) (vers s) (pols s) st (policiesCache s) (local s).

Definition same_version (id : Z) (version : string) (v : ComponentVersion) : bool :=
  bool_decide (cID (vComponent v) = id) && bool_decide (Version v = version).

(** [PublishComponentVersion], in the three parts between which other requests may run: the
    checks, the uploads and the insertion.  [faults]: the errors of the three requests to
    the database. *)
Definition publish_check (componentID version : string) (faults : nat → option string) (s : sys) : Component + response :=
  if decide (componentID = "" ∨ valid_version version = false) then inr (Answer ManagerAuth.ParamInvalidErrorCode "binding")
  else
    match faults 0%nat, filter (λ c, cID c = from_hex componentID) (comps s) with
    | None, comp :: _ =>
        match faults 1%nat, existsb (same_version (from_hex componentID) version) (vers s) with
        | None, false => inl comp
        | _, _ => inr (Answer ManagerAuth.ParamInvalidErrorCode "version of component duplicated")
        end
    | Some err, _ => inr (Answer ManagerAuth.DBOperateErrorCode err)
    | None, [] => inr (Answer ManagerAuth.DBOperateErrorCode "mongo: no documents in result")
    end.

Definition publish_insert (componentID version : string) (comp : Component) (files : list ComponentFile)
    (user : string) (now id : Z) (faults : nat → option string) (s : sys) : sys * response :=
  match faults 2%nat with
  | Some err => (s, Answer ManagerAuth.DBOperateErrorCode err)
  | None =>
      match upsert (same_version (from_hex componentID) version) (mkVersion id version files user now comp) (vers s) with
      | (l, true) => (mkSys (comps s) l (pols s) (served s) (policiesCache s) (local s), Inserted id)
      | (_, false) => (s, Answer ManagerAuth.UnknownErrorCode "create policy failed")
      end
  end.

Definition PublishComponentVersion (clients : list NginxClient) (componentID version : string) (form : string → upload)
    (user : string) (now id : Z) (faults : nat → option string) (s : sys) : sys * response :=
  match publish_check componentID version faults s with
  | inr r => (s, r)
  | inl comp =>
      match publish_files clients comp version form (file_names comp) (served s) with
      | (inr (code, err), st) => (set_served st s, Answer code err)
      | (inl files, st) => publish_insert componentID version comp files user now id faults (set_served st s)
      end
  end.

(** *** Publishing, one post at a time *)

(** A request that is publishing a version: the names that are left, the file it is uploading
    (its name, its contents, what is known of it, and the next client), and the files that
    are done. *)
Record job := mkJob {
  jComp : Component; jVersion : string; jForm : string → upload; jTodo : list string;
  jCur : option (string * string * ComponentFile * nat); jFiles : list ComponentFile }.

Definition begin_job (comp : Component) (version : string) (form : string → upload) : job :=
  mkJob comp version form (file_names comp) None [].

(** Its next step; [ans] is the answer of the download server, should it post. *)
Definition job_step (clients : list NginxClient) (ans : post_answer) (j : job) (sv : store) : (job + (Z * string)) * store :=
  match jCur j with
  | Some (name, content, cf, i) =>
      match clients !! i with
      | None => (inl (mkJob (jComp j) (jVersion j) (jForm j) (jTodo j) None (jFiles j ++ [cf])), sv)
      | Some c =>
          let object := object_name (jComp j) (PlarformFamily cf) (Arch cf) (jVersion j) in
          match PutObject i c object content ans sv with
          | (inr err, sv) => (inr (ManagerAuth.UnknownErrorCode, err), sv)
          | (inl urls, sv) =>
              let cf := mkFile (or_default (PlarformFamily cf)) (or_default (Arch cf)) (DownloadURL cf ++ urls) (SHA256 cf) (Signature cf) in
              (inl (mkJob (jComp j) (jVersion j) (jForm j) (jTodo j) (Some (name, content, cf, S i)) (jFiles j)), sv)
          end
      end
  | None =>
      match jTodo j with
      | [] => (inl j, sv)
      | name :: todo =>
          match prepare_file (jComp j) (jForm j) name with
          | inr e => (inr e, sv)
          | inl (content, cf) => (inl (mkJob (jComp j) (jVersion j) (jForm j) todo (Some (name, content, cf, 0%nat)) (jFiles j)), sv)
          end
      end
  end.

(** [CreatePolicy]; the binding asks for known keys and operators and a value. *)
Definition bind_rule (r : PolicyRule) : bool :=
  bool_decide (Key r ∈ ["agent_id"; "tag"; "kernel_version"]) && bool_decide (Operator r ∈ ["$in"; "$regex"]) &&
  bool_decide (Value r ≠ "").

Definition compiles (r : PolicyRule) : bool :=
  negb (bool_decide (Operator r = "$regex")) || match regexp_Compile (Value r) with Some _ => true | None => false end.

Definition CreatePolicy (versionID : Z) (rules : list PolicyRule) (user : string) (now id : Z)
    (faults : nat → option string) (s : sys) : sys * response :=
  if decide (versionID = 0 ∨ forallb bind_rule rules = false) then (s, Answer ManagerAuth.ParamInvalidErrorCode "binding")
  else if forallb compiles rules then
    match faults 0%nat, filter (λ v, vID v = versionID) (vers s) with
    | None, cv :: _ =>
        match faults 1%nat with
        | Some err => (s, Answer ManagerAuth.DBOperateErrorCode err)
        | None =>
            match upsert (λ p, bool_decide (cID (vComponent (pVersion p)) = cID (vComponent cv)))
                    (mkPolicy id cv "release" now user rules) (pols s) with
            | (l, true) => (mkSys (comps s) (vers s) l (served s) (policiesCache s) (local s), Inserted id)
            | (_, false) => (s, Answer ManagerAuth.UnknownErrorCode "create policy failed")
            end
        end
    | Some err, _ => (s, Answer ManagerAuth.DBOperateErrorCode err)
    | None, [] => (s, Answer ManagerAuth.DBOperateErrorCode "mongo: no documents in result")
    end
  else (s, Answer ManagerAuth.ParamInvalidErrorCode "error parsing regexp").

(** [DeleteOne] removes the first document that matches. *)
Fixpoint delete_one {A} (matches : A → bool) (l : list A) : list A * nat :=
  match l with
  | [] => ([], 0%nat)
  | x :: l => if matches x then (l, 1%nat) else let '(l, n) := delete_one matches l in (x :: l, n)
  end.

Definition DeletePolicy (policyID : Z) (fault : option string) (s : sys) : sys * response :=
  if decide (policyID = 0) then (s, Answer ManagerAuth.ParamInvalidErrorCode "binding")
  else
    match fault with
    | Some err => (s, Answer ManagerAuth.DBOperateErrorCode err)
    | None =>
        let '(l, n) := delete_one (λ p, bool_decide (pID p = policyID)) (pols s) in
        (mkSys (comps s) (vers s) l (served s) (policiesCache s) (local s), Deleted n)
    end.

(** The answer of the database to the search for policies. *)
Inductive find_answer := Found | NoDocuments | FindError (err : string) | DecodeError (err : string).

Definition released (s : sys) : list Policy := filter (λ p, pType p = "release") (pols s).

(** The instances for an agent, with the caches they go through. *)
Fixpoint instances (tags : string → list string + string) (info : ContextInfo) (ps : list Policy) (c : caches)
    : list ComponentInstance * caches :=
  match ps with
  | [] => ([], c)
  | p :: ps =>
      let '(i, c) := GetIntance tags p info c in
      let '(l, c) := instances tags info ps c in
      (match i with Some i => i :: l | None => l end, c)
  end.

(** The policies a request works with, or what is answered at once; [now] is the time of the
    test, [now'] the time of the load. *)
Definition load_policies (now now' : Z) (fa : find_answer) (s : sys) : (list Policy + response) * option (Z * list Policy) :=
  match policiesCache s with
  | Some (t, ps) =>
      if decide (now - t < 60) then (inl ps, policiesCache s)
      else
        match fa with
        | Found => (inl (released s), Some (now', released s))
        | NoDocuments => (inr (Instances []), policiesCache s)
        | FindError _ | DecodeError _ => (inl ps, policiesCache s)
        end
  | None =>
      match fa with
      | Found => (inl (released s), Some (now', released s))
      | NoDocuments => (inr (Instances []), None)
      | FindError err | DecodeError err => (inr (Answer ManagerAuth.DBOperateErrorCode err), None)
      end
  end.

Definition GetComponentInstances (tags : string → list string + string) (info : ContextInfo + string) (now now' : Z)
    (fa : find_answer) (s : sys) : sys * response :=
  match info with
  | inr err => (s, Answer ManagerAuth.ParamInvalidErrorCode err)
  | inl info =>
      match load_policies now now' fa s with
      | (inr r, pc) => (mkSys (comps s) (vers s) (pols s) (served s) pc (local s), r)
      | (inl ps, pc) =>
          let '(l, c) := instances tags info ps (local s) in
          (mkSys (comps s) (vers s) (pols s) (served s) pc c, Instances l)
      end
  end.

(** A heartbeat document, as far as the refresh of the tags looks at it: its agent, its tags
    and its fields that are numbers. *)
Record hb_doc := mkHb { hAgent : string; hTags : list string; hNumbers : gmap string Z }.

(** One round of [InitComponent]: the field it compares is [last_heatrbeat_time]. *)
Definition refresh_tags (docs : list hb_doc) (now : Z) (c : caches) : caches :=
  mkCaches (regexCache c)
    (foldl (λ m d, <[hAgent d := hTags d]> m) (tagsCache c)
       (filter (λ d, match hNumbers d !! "last_heatrbeat_time" with
                     | Some t => bool_decide (t > now - 24 * 60 * 60)
                     | None => false
                     end = true) docs)).

(** [DescribeRecommendComponentVersion]: [latest] is the version that comes last in the order
    of strings. *)
Definition bump (v : Z * Z * Z * Z) : Z * Z * Z * Z :=
  let '(a, b, c, d) := v in
  let d := d + 1 in
  let '(c, d) := if decide (d > 9999) then (c + 1, 0) else (c, d) in
  let '(b, c) := if decide (c > 9999) then (b + 1, 0) else (b, c) in
  let '(a, b) := if decide (b > 9999) then (a + 1, 0) else (a, b) in
  if decide (a > 9999) then (9999, 9999, 9999, 9999) else (a, b, c, d).

Definition print_version (v : Z * Z * Z * Z) : string :=
  let '(a, b, c, d) := v in itoa a +:+ "." +:+ itoa b +:+ "." +:+ itoa c +:+ "." +:+ itoa d.

(** [strings.SplitN(s, ".", 4)]. *)
Definition split4 (s : string) : list string :=
  match str_cut "." s with
  | None => [s]
  | Some (a, s) =>
      match str_cut "." s with
      | None => [a; s]
      | Some (b, s) => match str_cut "." s with None => [a; b; s] | Some (c, d) => [a; b; c; d] end
      end
  end.

Definition recommend (latest : option string) : string + string :=
  match latest with
  | None => inl "0.0.0.0"
  | Some v =>
      match split4 v with
      | [a; b; c; d] =>
          match atoi a, atoi b, atoi c, atoi d with
          | (a, None), (b, None), (c, None), (d, None) => inl (print_version (bump (a, b, c, d)))
          | _, _, _, _ => inr ("component has a invalid version: " +:+ v)
          end
      | _ => inr ("component has a invalid version: " +:+ v)
      end
  end.

(** The greatest string of a list. *)
Definition last_string (l : list string) : option string :=
  foldr (λ v m, match m with None => Some v | Some w => if String.ltb w v then Some v else Some w end) None l.

Definition DescribeRecommendComponentVersion (componentID : string) (fault : option string) (s : sys) : string + string :=
  match fault with
  | Some err => inr err
  | None => recommend (last_string (Version <$> filter (λ v, cID (vComponent v) = from_hex componentID) (vers s)))
  end.

(** ** The files of a version *)

Definition family_of (name : string) : string := (platform name).1.
Definition arch_of (name : string) : string := (platform name).2.
Definition object (comp : Component) (version name : string) : string :=
  object_name comp (family_of name) (arch_of name) version.

Definition urls (clients : list NginxClient) (obj : string) : list string := concat ((λ c, getURL c obj) <$> clients).

Lemma or_default_idem s : or_default (or_default s) = or_default s.
Proof using Type. unfold or_default. by repeat case_decide. Qed.

Lemma ext_of_default ty f : ext_of ty (or_default f) = ext_of ty f.
Proof using Type. unfold ext_of, or_default. repeat case_decide; congruence. Qed.

Lemma object_name_default comp f a v : object_name comp (or_default f) (or_default a) v = object_name comp f a v.
Proof using Type. unfold object_name. by rewrite !or_default_idem, ext_of_default. Qed.

(** A request that is not disturbed does what the handler does in one go. *)
Definition answer_for (j : job) : post_answer :=
  match jCur j with
  | Some (_, _, cf, i) => answer i (object_name (jComp j) (PlarformFamily cf) (Arch cf) (jVersion j))
  | None => inl 0
  end.

Definition jrun (clients : list NginxClient) (x y : job * store) : Prop :=
  job_step clients (answer_for x.1) x.1 x.2 = (inl y.1, y.2).

Definition jfails (clients : list NginxClient) (x : job * store) (e : Z * string) (sv : store) : Prop :=
  ∃ y, rtc (jrun clients) x y ∧ job_step clients (answer_for y.1) y.1 y.2 = (inr e, sv).

Lemma put_all_runs comp version form todo name content fs pre cls cf sv :
  let j cf i := mkJob comp version form todo (Some (name, content, cf, i)) fs in
  match put_all (length pre) cls comp version content cf sv with
  | (inl cf', sv') => rtc (jrun (pre ++ cls)) (j cf (length pre), sv) (mkJob comp version form todo None (fs ++ [cf']), sv')
  | (inr err, sv') => jfails (pre ++ cls) (j cf (length pre), sv) (ManagerAuth.UnknownErrorCode, err) sv'
  end.
Proof using Type.
  intros j. subst j. revert pre cf sv. induction cls as [|c cls IH]; intros pre cf sv; cbn [put_all].
  - rewrite app_nil_r. apply rtc_once. unfold jrun. cbn [fst snd]. unfold job_step. cbn [jCur].
    by rewrite lookup_ge_None_2.
  - set (obj := object_name comp (PlarformFamily cf) (Arch cf) version).
    assert ((pre ++ c :: cls) !! length pre = Some c) as Hc by (rewrite lookup_app_r, Nat.sub_diag by done; done).
    destruct (PutObject (length pre) c obj content (answer (length pre) obj) sv) as [[us|err] sv1] eqn:Hput.
    + set (cf1 := mkFile _ _ _ _ _). specialize (IH (pre ++ [c]) cf1 sv1). rewrite length_app, Nat.add_1_r, <- app_assoc in IH.
      assert (jrun (pre ++ c :: cls) (mkJob comp version form todo (Some (name, content, cf, length pre)) fs, sv)
        (mkJob comp version form todo (Some (name, content, cf1, S (length pre))) fs, sv1)) as Hs.
      { unfold jrun. cbn [fst snd]. unfold job_step, answer_for. cbn [jCur jComp jVersion jForm jTodo jFiles]. rewrite Hc.
        fold obj. by rewrite Hput. }
      destruct (put_all (S (length pre)) cls comp version content cf1 sv1) as [[cf'|err] sv'].
      * by eapply rtc_l.
      * destruct IH as (y & Hrtc & Hf). exists y. split; [by eapply rtc_l|done].
    + eexists. split; [reflexivity|]. cbn [fst snd]. unfold job_step, answer_for. cbn [jCur jComp jVersion]. rewrite Hc.
      fold obj. by rewrite Hput.
Qed.

(** Undisturbed, the steps of a request are the loop of the handler. *)
Lemma publish_runs clients comp version form names fs sv :
  match publish_files clients comp version form names sv with
  | (inl files, sv') =>
      rtc (jrun clients) (mkJob comp version form names None fs, sv) (mkJob comp version form [] None (fs ++ files), sv')
  | (inr e, sv') => jfails clients (mkJob comp version form names None fs, sv) e sv'
  end.
Proof using Type.
  revert fs sv. induction names as [|name names IH]; intros fs sv; cbn [publish_files]; [by rewrite app_nil_r|].
  destruct (prepare_file comp form name) as [[content cf]|e] eqn:Hprep.
  - assert (jrun clients (mkJob comp version form (name :: names) None fs, sv)
      (mkJob comp version form names (Some (name, content, cf, 0%nat)) fs, sv)) as Hs.
    { unfold jrun, job_step. cbn. by rewrite Hprep. }
    pose proof (put_all_runs comp version form names name content fs [] clients cf sv) as Hput. cbn in Hput.
    destruct (put_all 0 clients comp version content cf sv) as [[cf'|err] sv1].
    + specialize (IH (fs ++ [cf']) sv1). destruct (publish_files clients comp version form names sv1) as [[files|e] sv2].
      * rewrite <- app_assoc in IH. eapply rtc_l; [exact Hs|]. by etrans.
      * destruct IH as (y & Hrtc & Hf). exists y. split; [|done]. eapply rtc_l; [exact Hs|]. by etrans.
    + destruct Hput as (y & Hrtc & Hf). exists y. split; [by eapply rtc_l|done].
  - eexists. split; [reflexivity|]. unfold job_step. cbn. by rewrite Hprep.
Qed.

(** Objects of different files have different names. *)
Lemma object_name_inj comp comp' f f' a a' v v' :
  lacks "/" (cName comp) = true → lacks "/" (cName comp') = true →
  lacks "-" (or_default f) = true → lacks "-" (or_default f') = true →
  lacks "-" (or_default a) = true → lacks "-" (or_default a') = true →
  (cName comp = cName comp' → cType comp = cType comp') →
  object_name comp f a v = object_name comp' f' a' v' →
  cName comp = cName comp' ∧ or_default f = or_default f' ∧ or_default a = or_default a' ∧ v = v'.
Proof using Type.
  intros Hn Hn' Hf Hf' Ha Ha' Hty E. unfold object_name in E. apply (inj (String.app "/agent/component/")) in E.
  apply str_cut_inj in E as [En E]; [|done|done]. rewrite <- En in E. apply (inj (String.app (cName comp))) in E.
  apply (inj (String.app "-")) in E. apply str_cut_inj in E as [Ef E]; [|done|done].
  apply str_cut_inj in E as [Ea E]; [|done|done]. split_and!; [done..|].
  rewrite <- (ext_of_default _ f), <- (ext_of_default _ f'), Ef, <- Hty in E by done. by apply str_app_inv_tail in E.
Qed.

(** The requirements a component can have. *)
Definition choices (x y : string) : list (list string) := [[]; [x]; [y]; [x; y]; [y; x]].

Lemma one_of_choices x y l : one_of [x; y] (Some l) = true → l ∈ choices x y.
Proof using Type.
  clear. unfold one_of. intros [[Hlen%bool_decide_eq_true Hnd%bool_decide_eq_true]%andb_true_iff Hall]%andb_true_iff.
  assert (∀ z, z ∈ l → z = x ∨ z = y) as Hin.
  { intros z Hz. rewrite forallb_forall in Hall. apply list_elem_of_In, Hall in Hz.
    apply bool_decide_eq_true in Hz. set_solver. }
  unfold choices. destruct l as [|a [|b [|]]]; [set_solver| | |simpl in Hlen; lia].
  - destruct (Hin a) as [->| ->]; set_solver.
  - apply NoDup_cons in Hnd as [Hne _]. destruct (Hin a) as [->| ->], (Hin b) as [->| ->]; set_solver.
Qed.

Definition good_component (c : Component) : Prop :=
  lacks "/" (cName c) = true ∧ ArchRequirements c ∈ choices "x86_64" "aarch64" ∧
  PlatformFamilyRequirements c ∈ choices "debian" "rhel".

Definition slot (name : string) : string * string := (or_default (family_of name), or_default (arch_of name)).

(** The names of files stand for different platforms. *)
Definition names_ok (l : list string) : bool :=
  bool_decide (NoDup (slot <$> l)) && forallb (λ n, lacks "-" (slot n).1 && lacks "-" (slot n).2) l.

Lemma names_ok_all :
  forallb (λ ar, forallb (λ fr, names_ok (file_names (mkComponent 0 "" "" ar fr "" 0))) (choices "debian" "rhel"))
    (choices "x86_64" "aarch64") = true.
Proof using Type. vm_compute. reflexivity. Qed.

Lemma file_names_req c : file_names c = file_names (mkComponent 0 "" "" (ArchRequirements c) (PlatformFamilyRequirements c) "" 0).
Proof using Type. done. Qed.

Lemma good_names c : good_component c → names_ok (file_names c) = true.
Proof using Type.
  intros (_ & Ha & Hf). rewrite file_names_req. pose proof names_ok_all as H. rewrite forallb_forall in H.
  apply list_elem_of_In in Ha, Hf. specialize (H _ Ha). rewrite forallb_forall in H. by apply H.
Qed.

Lemma good_names_spec c :
  good_component c → NoDup (slot <$> file_names c) ∧
    ∀ n, n ∈ file_names c → lacks "-" (slot n).1 = true ∧ lacks "-" (slot n).2 = true.
Proof using Type.
  intros Hc%good_names. unfold names_ok in Hc. apply andb_true_iff in Hc as [Hnd Hall].
  split; [by apply bool_decide_eq_true in Hnd|]. intros n Hn. rewrite forallb_forall in Hall.
  apply list_elem_of_In, Hall in Hn. by apply andb_true_iff in Hn.
Qed.

Lemma object_inj c c' v v' n n' :
  good_component c → good_component c' → (cName c = cName c' → cType c = cType c') →
  n ∈ file_names c → n' ∈ file_names c' →
  object c v n = object c' v' n' → cName c = cName c' ∧ slot n = slot n' ∧ v = v'.
Proof using Type.
  intros Hc Hc' Hty Hn Hn' E. destruct (proj2 (good_names_spec c Hc) n Hn) as [H1 H2].
  destruct (proj2 (good_names_spec c' Hc') n' Hn') as [H3 H4]. destruct Hc as (Hs & _), Hc' as (Hs' & _).
  apply object_name_inj in E as (? & Ef & Ea & ?); try done. split_and!; [done| |done].
  unfold slot. by rewrite Ef, Ea.
Qed.

Lemma NoDup_objects comp version : good_component comp → NoDup (object comp version <$> file_names comp).
Proof using Type.
  intros Hc. destruct (good_names_spec comp Hc) as [Hnd _]. apply NoDup_fmap_2_strong.
  - intros n n' Hn Hn' E. apply object_inj in E as (_ & E & _); try done.
    apply list_elem_of_lookup in Hn as [i Hi], Hn' as [k Hk].
    assert (i = k) as ->; [|congruence]. eapply NoDup_lookup; [exact Hnd|..]; rewrite list_lookup_fmap.
    + by rewrite Hi.
    + rewrite Hk. simpl. by rewrite E.
  - by eapply NoDup_fmap_1.
Qed.

(** The objects whose last answered post was accepted, for a version that was not published
    by two requests at a time. *)
Record view := mkView { served_ : store; raced : list (Z * string); refused : gset (nat * string) }.

Definition reliable (x : view) (comp : Component) (version name : string) (j : nat) : Prop :=
  ((cID comp, version) ∉ raced x) ∧ ((j, object comp version name) ∉ refused x).

(** A file of a version: its digest, its URLs and its platform, and what is served. *)
Definition stored (clients : list NginxClient) (x : view) (comp : Component) (version name content : string)
    (f : ComponentFile) : Prop :=
  SHA256 f = hex_EncodeToString (sha256 content) ∧ DownloadURL f = urls clients (object comp version name) ∧
  (PlarformFamily f, Arch f) = (if decide (clients = []) then platform name else slot name) ∧
  ∀ j, (j < length clients)%nat → reliable x comp version name j → served_ x !! (j, object comp version name) = Some content.

(** ** The manager over time *)

(** The state of the process and the services, the time; the requests that are publishing;
    the searches for policies whose result is not stored yet, with their time.  For the
    statements: the policies that were deleted and when, the ids of policies, the time of the
    search behind the local copy, the versions that two requests were publishing at a time,
    and the objects whose last answered post was refused. *)
Record world := mkWorld {
  st : sys; clock : Z; jobs : gmap nat job; loads : list (Z * list Policy);
  gone : list (Z * Z); used : list Z; read : Z; races : list (Z * string); refusals : gset (nat * string) }.

Definition on_st (s : sys) (w : world) : world :=
  mkWorld s (clock w) (jobs w) (loads w) (gone w) (used w) (read w) (races w) (refusals w).

Definition view_of (w : world) : view := mkView (served (st w)) (races w) (refusals w).

Definition job_key (j : job) : Z * string := (cID (jComp j), jVersion j).

Definition key_in_flight (k : Z * string) (js : gmap nat job) : Prop := map_Exists (λ _ j, job_key j = k) js.

Definition set_local (c : caches) (s : sys) : sys := mkSys (comps s) (vers s) (pols s) (served s) (policiesCache s) c.

(** What an answer says about an object. *)
Definition note_answer (clients : list NginxClient) (ans : post_answer) (j : job) (refused : gset (nat * string))
    : gset (nat * string) :=
  match jCur j, ans with
  | Some (name, content, cf, i), inl status =>
      if decide (i < length clients)%nat then
        let k := (i, object_name (jComp j) (PlarformFamily cf) (Arch cf) (jVersion j)) in
        if decide (200 ≤ status < 300) then refused ∖ {[k]} else {[k]} ∪ refused
      else refused
  | _, _ => refused
  end.

(** Requests of users and agents, interleaved: a request that publishes is checked, posts its
    files one by one and inserts the version; a search for policies is stored when its result
    has arrived.  Ids of new documents are fresh. *)
Inductive step (clients : list NginxClient) : world → world → Prop :=
| w_time w t : clock w ≤ t →
    step clients w (mkWorld (st w) t (jobs w) (loads w) (gone w) (used w) (read w) (races w) (refusals w))
| w_create w r user now id fault :
    id ∉ cID <$> comps (st w) → step clients w (on_st (CreateComponent r user now id fault (st w)).1 w)
| w_begin w k cid version form faults comp :
    publish_check cid version faults (st w) = inl comp → jobs w !! k = None →
    step clients w (mkWorld (st w) (clock w) (<[k := begin_job comp version form]> (jobs w)) (loads w) (gone w) (used w) (read w)
      (if decide (key_in_flight (cID comp, version) (jobs w)) then (cID comp, version) :: races w else races w) (refusals w))
| w_post w k j ans j' sv :
    jobs w !! k = Some j → job_step clients ans j (served (st w)) = (inl j', sv) →
    step clients w (mkWorld (set_served sv (st w)) (clock w) (<[k := j']> (jobs w)) (loads w) (gone w) (used w) (read w)
      (races w) (note_answer clients ans j (refusals w)))
| w_fail w k j ans e sv :
    jobs w !! k = Some j → job_step clients ans j (served (st w)) = (inr e, sv) →
    step clients w (mkWorld (set_served sv (st w)) (clock w) (delete k (jobs w)) (loads w) (gone w) (used w) (read w)
      (races w) (refusals w))
| w_insert w k j cid user now id faults :
    jobs w !! k = Some j → jTodo j = [] → jCur j = None → from_hex cid = cID (jComp j) →
    step clients w (mkWorld (publish_insert cid (jVersion j) (jComp j) (jFiles j) user now id faults (st w)).1 (clock w)
      (delete k (jobs w)) (loads w) (gone w) (used w) (read w) (races w) (refusals w))
| w_policy w vid rules user now id faults :
    id ∉ used w →
    step clients w (mkWorld (CreatePolicy vid rules user now id faults (st w)).1 (clock w) (jobs w) (loads w) (gone w)
      (id :: used w) (read w) (races w) (refusals w))
| w_delete w pid fault s r :
    DeletePolicy pid fault (st w) = (s, r) →
    step clients w (mkWorld s (clock w) (jobs w) (loads w)
      (match r with Deleted 1 => (pid, clock w) :: gone w | _ => gone w end) (used w) (read w) (races w) (refusals w))
| w_search w :
    step clients w (mkWorld (st w) (clock w) (jobs w) ((clock w, released (st w)) :: loads w) (gone w) (used w) (read w)
      (races w) (refusals w))
| w_store w r ps :
    (r, ps) ∈ loads w →
    step clients w (mkWorld (mkSys (comps (st w)) (vers (st w)) (pols (st w)) (served (st w)) (Some (clock w, ps)) (local (st w)))
      (clock w) (jobs w) (loads w) (gone w) (used w) r (races w) (refusals w))
| w_answer w tags info ps :
    step clients w (on_st (set_local (instances tags info ps (local (st w))).2 (st w)) w)
| w_refresh w docs now :
    step clients w (on_st (set_local (refresh_tags docs now (local (st w))) (st w)) w).

Definition initial (w : world) : Prop :=
  ∃ t, w = mkWorld (mkSys [] [] [] ∅ None (mkCaches ∅ ∅)) t ∅ [] [] [] t [] ∅.

Definition key (v : ComponentVersion) : Z * string := (cID (vComponent v), Version v).
Definition comp_of (p : Policy) : Z := cID (vComponent (pVersion p)).

(** The files of a version are served. *)
Definition files_stored (clients : list NginxClient) (x : view) (comp : Component) (version : string)
    (names : list string) (files : list ComponentFile) : Prop :=
  Forall2 (λ name f, ∃ content, stored clients x comp version name content f) names files.

Definition version_served (clients : list NginxClient) (x : view) (v : ComponentVersion) : Prop :=
  files_stored clients x (vComponent v) (Version v) (file_names (vComponent v)) (Files v).

(** The file that a request is uploading. *)
Definition uploading (clients : list NginxClient) (x : view) (comp : Component) (version name content : string)
    (cf : ComponentFile) (i : nat) : Prop :=
  (i ≤ length clients)%nat ∧ SHA256 cf = hex_EncodeToString (sha256 content) ∧
  DownloadURL cf = urls (take i clients) (object comp version name) ∧
  (PlarformFamily cf, Arch cf) = (if decide (i = 0%nat) then platform name else slot name) ∧
  ∀ j, (j < i)%nat → reliable x comp version name j → served_ x !! (j, object comp version name) = Some content.

Definition job_ok (clients : list NginxClient) (x : view) (cs : list Component) (vs : list ComponentVersion) (j : job) : Prop :=
  jComp j ∈ cs ∧ (job_key j ∉ raced x → ∀ v, v ∈ vs → key v ≠ job_key j) ∧
  ∃ done, files_stored clients x (jComp j) (jVersion j) done (jFiles j) ∧
    match jCur j with
    | None => file_names (jComp j) = done ++ jTodo j
    | Some (name, content, cf, i) =>
        file_names (jComp j) = done ++ name :: jTodo j ∧ uploading clients x (jComp j) (jVersion j) name content cf i
    end.

(** Some policies that were read at time [r]. *)
Definition read_at (w : world) (r : Z) (ps : list Policy) : Prop :=
  r ≤ clock w ∧ NoDup (comp_of <$> ps) ∧
  ∀ p, p ∈ ps → pVersion p ∈ vers (st w) ∧ (p ∈ pols (st w) ∨ ∃ d, (pID p, d) ∈ gone w ∧ r ≤ d).

Record inv (clients : list NginxClient) (w : world) : Prop := mkInv {
  inv_names : NoDup (cName <$> comps (st w));
  inv_ids : NoDup (cID <$> comps (st w));
  inv_good : ∀ c, c ∈ comps (st w) → good_component c;
  inv_vers : ∀ v, v ∈ vers (st w) → vComponent v ∈ comps (st w) ∧ version_served clients (view_of w) v;
  inv_keys : NoDup (key <$> vers (st w));
  inv_jobs : map_Forall (λ _ j, job_ok clients (view_of w) (comps (st w)) (vers (st w)) j) (jobs w);
  inv_raced : ∀ k k' j j', jobs w !! k = Some j → jobs w !! k' = Some j' → k ≠ k' → job_key j = job_key j' →
    job_key j ∈ races w;
  inv_pols : ∀ p, p ∈ pols (st w) → pVersion p ∈ vers (st w) ∧ pID p ∈ used w;
  inv_released : NoDup (comp_of <$> pols (st w));
  inv_pids : NoDup (pID <$> pols (st w));
  inv_loads : ∀ r ps, (r, ps) ∈ loads w → read_at w r ps;
  inv_cache : ∀ t ps, policiesCache (st w) = Some (t, ps) → t ≤ clock w ∧ read w ≤ t ∧ read_at w (read w) ps }.

(** *** What the steps of the services keep *)

Lemma stored_mono clients x x' comp version name content f :
  (∀ j, reliable x' comp version name j → reliable x comp version name j ∧
     served_ x' !! (j, object comp version name) = served_ x !! (j, object comp version name)) →
  stored clients x comp version name content f → stored clients x' comp version name content f.
Proof using Type.
  intros Hm (? & ? & ? & Hj). split_and!; [done..|]. intros j Hl Hrel. destruct (Hm j Hrel) as [Hr ->]. by apply Hj.
Qed.

Lemma files_stored_mono clients x x' comp version names files :
  (∀ name j, name ∈ names → reliable x' comp version name j → reliable x comp version name j ∧
     served_ x' !! (j, object comp version name) = served_ x !! (j, object comp version name)) →
  files_stored clients x comp version names files → files_stored clients x' comp version names files.
Proof using Type.
  intros Hm Hs. unfold files_stored in *. apply Forall2_same_length_lookup in Hs as [Hl Hs].
  apply Forall2_same_length_lookup. split; [done|]. intros i name f Hn Hf. destruct (Hs i name f Hn Hf) as [content Hst].
  exists content. eapply stored_mono; [|exact Hst]. intros j. apply Hm. by eapply list_elem_of_lookup_2.
Qed.

Lemma uploading_mono clients x x' comp version name content cf i :
  (∀ j, reliable x' comp version name j → reliable x comp version name j ∧
     served_ x' !! (j, object comp version name) = served_ x !! (j, object comp version name)) →
  uploading clients x comp version name content cf i → uploading clients x' comp version name content cf i.
Proof using Type.
  intros Hm (? & ? & ? & ? & Hj). split_and!; [done..|]. intros j Hl Hrel. destruct (Hm j Hrel) as [Hr ->]. by apply Hj.
Qed.

(** What holds of the objects of one version in two views. *)
Definition same_for (x x' : view) (comp : Component) (version : string) : Prop :=
  ∀ name j, name ∈ file_names comp → reliable x' comp version name j → reliable x comp version name j ∧
    served_ x' !! (j, object comp version name) = served_ x !! (j, object comp version name).

Lemma job_ok_mono clients x x' cs cs' vs vs' j :
  same_for x x' (jComp j) (jVersion j) → (∀ c, c ∈ cs → c ∈ cs') → (job_key j ∉ raced x' → job_key j ∉ raced x) →
  (job_key j ∉ raced x' → ∀ v, v ∈ vs' → v ∈ vs ∨ key v ≠ job_key j) →
  job_ok clients x cs vs j → job_ok clients x' cs' vs' j.
Proof using Type.
  intros Hm Hcs Hr Hvs (Hc & Hk & done & Hf & Hcur). split_and!; [auto| |].
  - intros Hnr v Hv. destruct (Hvs Hnr v Hv) as [Hv'|?]; [|done]. by apply (Hk (Hr Hnr)).
  - exists done. assert (∀ n, n ∈ done → n ∈ file_names (jComp j)) as Hsub.
    { intros n Hn. destruct (jCur j) as [[[[name content] cf] i]|]; [destruct Hcur as [-> _]|rewrite Hcur]; apply elem_of_app; by left. }
    split; [eapply files_stored_mono; [|exact Hf]; intros n m Hn; apply Hm; by apply Hsub|].
    destruct (jCur j) as [[[[name content] cf] i]|]; [|done]. destruct Hcur as [E Hup]. split; [done|].
    eapply uploading_mono; [|exact Hup]. intros m. apply Hm. rewrite E. apply elem_of_app. right. left.
Qed.

Lemma version_served_mono clients x x' v :
  same_for x x' (vComponent v) (Version v) → version_served clients x v → version_served clients x' v.
Proof using Type. intros Hm. apply files_stored_mono. intros n j Hn. by apply Hm. Qed.

Lemma same_for_refl x comp version : same_for x x comp version.
Proof using Type. intros name j _ Hr. done. Qed.

Lemma same_for_race x k comp version : same_for x (mkView (served_ x) (k :: raced x) (refused x)) comp version.
Proof using Type. intros name j _ [Hr Hf]. split; [|done]. split; [|done]. simpl in Hr. by apply not_elem_of_cons in Hr as [_ ?]. Qed.


(** A post of one version leaves the objects of the others alone. *)
Lemma post_other clients w comp version name i content ans c urls_ sv name' comp' version' :
  inv clients w → comp ∈ comps (st w) → comp' ∈ comps (st w) → name ∈ file_names comp → name' ∈ file_names comp' →
  (cID comp', version') ≠ (cID comp, version) →
  PutObject i c (object comp version name) content ans (served (st w)) = (urls_, sv) →
  object comp' version' name' ≠ object comp version name ∧
  ∀ m, sv !! (m, object comp' version' name') = served (st w) !! (m, object comp' version' name').
Proof using Type.
  intros Hi Hc Hc' Hn Hn' Hk Hput.
  assert (∀ c c', c ∈ comps (st w) → c' ∈ comps (st w) → cName c = cName c' → c = c') as Hinj.
  { intros c1 c2 [a Ha]%list_elem_of_lookup [b Hb]%list_elem_of_lookup Ec.
    assert (a = b) as ->; [|congruence]. eapply NoDup_lookup; [exact (inv_names _ _ Hi)|..]; rewrite list_lookup_fmap.
    - by rewrite Ha.
    - rewrite Hb. simpl. by rewrite Ec. }
  assert (object comp' version' name' ≠ object comp version name) as Hne.
  { intros E. apply object_inj in E as (Ec & _ & Ev); [|by apply (inv_good _ _ Hi)|by apply (inv_good _ _ Hi)| |done|done].
    - apply Hk. apply Hinj in Ec; [|done|done]. by rewrite Ec, Ev.
    - intros Ec. by apply Hinj in Ec as ->. }
  split; [done|]. intros m. unfold PutObject in Hput. destruct ans as [status|]; injection Hput as <- <-; [|done].
  case_decide; [|done]. apply lookup_insert_ne. intros E. apply Hne. by apply (f_equal snd) in E.
Qed.

Lemma upsert_spec {A} (m : A → bool) x l l' b :
  upsert m x l = (l', b) → if b then l' = l ++ [x] ∧ ∀ y, y ∈ l → m y = false else l' = l.
Proof using Type.
  unfold upsert. destruct (existsb m l) eqn:E; intros [= <- <-]; [done|]. split; [done|]. intros y Hy.
  destruct (m y) eqn:Hm; [|done]. assert (existsb m l = true); [|congruence].
  apply existsb_exists. exists y. by rewrite <- list_elem_of_In.
Qed.

Lemma NoDup_snoc_fmap {A B} (g : A → B) l x : NoDup (g <$> l) → (∀ y, y ∈ l → g y ≠ g x) → NoDup (g <$> (l ++ [x])).
Proof using Type.
  intros Hl Hx. rewrite fmap_app. apply NoDup_app. split_and!; [done| |apply NoDup_singleton].
  intros z (y & -> & Hy)%list_elem_of_fmap Hz. apply list_elem_of_singleton in Hz. by apply (Hx y Hy).
Qed.

Lemma delete_one_spec {A} (m : A → bool) l :
  sublist (delete_one m l).1 l ∧
  (∀ x, x ∈ l → x ∈ (delete_one m l).1 ∨ m x = true ∧ (delete_one m l).2 = 1%nat).
Proof using Type.
  induction l as [|x l [IHs IHx]]; simpl; [split; [done|]; by intros x ?%elem_of_nil|].
  destruct (m x) eqn:Hm.
  - split; [by apply sublist_cons|]. intros y [->|Hy]%elem_of_cons; [by right|by left].
  - destruct (delete_one m l) as [l' n]. simpl in *. split; [by constructor|].
    intros y [->|Hy]%elem_of_cons; [left; left|]. destruct (IHx y Hy) as [?|?]; [left; by right|by right].
Qed.

Lemma valid_name_lacks n : valid_name n = true → lacks "/" n = true.
Proof using Type.
  unfold valid_name. intros [_ Hn]%andb_true_iff. revert Hn. apply str_forall_impl. intros c Hc.
  apply bool_decide_eq_true. by intros ->.
Qed.

Lemma read_at_mono w w' r ps :
  clock w ≤ clock w' → (∀ v, v ∈ vers (st w) → v ∈ vers (st w')) →
  (∀ p, p ∈ pols (st w) → p ∈ pols (st w') ∨ ∃ d, (pID p, d) ∈ gone w' ∧ clock w ≤ d) →
  (∀ x, x ∈ gone w → x ∈ gone w') → read_at w r ps → read_at w' r ps.
Proof using Type.
  intros Ht Hv Hp Hg (Hr & Hnd & Hall). split_and!; [lia|done|]. intros p Hin. destruct (Hall p Hin) as [Hpv Hcase].
  split; [by apply Hv|]. destruct Hcase as [Hpp|(d & Hd & Hle)].
  - destruct (Hp p Hpp) as [?|(d & Hd & Hle)]; [by left|]. right. exists d. split; [done|lia].
  - right. exists d. split; [by apply Hg|done].
Qed.

(** Steps that change nothing of what the invariant says of versions and requests. *)
Lemma inv_frame clients w w' :
  comps (st w') = comps (st w) → vers (st w') = vers (st w) → served (st w') = served (st w) → jobs w' = jobs w →
  races w' = races w → refusals w' = refusals w →
  (∀ p, p ∈ pols (st w') → pVersion p ∈ vers (st w') ∧ pID p ∈ used w') →
  NoDup (comp_of <$> pols (st w')) → NoDup (pID <$> pols (st w')) →
  (∀ r ps, (r, ps) ∈ loads w' → read_at w' r ps) →
  (∀ t ps, policiesCache (st w') = Some (t, ps) → t ≤ clock w' ∧ read w' ≤ t ∧ read_at w' (read w') ps) →
  inv clients w → inv clients w'.
Proof using Type.
  intros E1 E2 E3 E4 E5 E6 Hp Hr Hi Hl Hc [H1 H2 H3 H4 H5 H6 H7 H8 H9 H10 H11 H12].
  assert (view_of w' = view_of w) as Ev by (unfold view_of; by rewrite E3, E5, E6).
  split; rewrite ?Ev, ?E1, ?E2, ?E4, ?E5; rewrite ?E2 in *; try done.
Qed.

(** The local copy and the searches, when policies and time move on. *)
Lemma reads_mono w w' :
  loads w' = loads w → policiesCache (st w') = policiesCache (st w) → read w' = read w → clock w ≤ clock w' →
  (∀ v, v ∈ vers (st w) → v ∈ vers (st w')) →
  (∀ p, p ∈ pols (st w) → p ∈ pols (st w') ∨ ∃ d, (pID p, d) ∈ gone w' ∧ clock w ≤ d) →
  (∀ x, x ∈ gone w → x ∈ gone w') →
  (∀ r ps, (r, ps) ∈ loads w → read_at w r ps) →
  (∀ t ps, policiesCache (st w) = Some (t, ps) → t ≤ clock w ∧ read w ≤ t ∧ read_at w (read w) ps) →
  (∀ r ps, (r, ps) ∈ loads w' → read_at w' r ps) ∧
  (∀ t ps, policiesCache (st w') = Some (t, ps) → t ≤ clock w' ∧ read w' ≤ t ∧ read_at w' (read w') ps).
Proof using Type.
  intros -> -> -> Ht Hv Hp Hg Hl Hc. split.
  - intros r ps Hin. eapply read_at_mono; [done..|]. by apply Hl.
  - intros t ps Hin. destruct (Hc t ps Hin) as (? & ? & Hr). split_and!; [lia|done|]. by eapply read_at_mono.
Qed.

Lemma inv_create clients w r user now id fault :
  lacks "/" AgentName = true → id ∉ cID <$> comps (st w) → inv clients w →
  inv clients (on_st (CreateComponent r user now id fault (st w)).1 w).
Proof using Type.
  intros HN Hid Hi.
  assert (inv clients (on_st (st w) w)) as Hsame by (by destruct Hi).
  unfold CreateComponent. destruct (bind_create r) eqn:Hb; [|done].
  destruct (negb _ && negb _) eqn:Hn; [done|]. destruct fault; [done|].
  set (name := if decide (rType r = "agent") then AgentName else rName r).
  match goal with |- context [upsert ?m ?x ?l] => destruct (upsert m x l) as [l' b] eqn:Hu end.
  apply upsert_spec in Hu. destruct b; [|done]. destruct Hu as [-> Hnew].
  destruct Hi as [H1 H2 H3 H4 H5 H6 H7 H8 H9 H10 H11 H12]. split; simpl; try done.
  - apply NoDup_snoc_fmap; [done|]. intros c Hc. apply Hnew in Hc. by apply bool_decide_eq_false in Hc.
  - apply NoDup_snoc_fmap; [done|]. intros c Hc E. apply Hid, list_elem_of_fmap. by exists c.
  - intros c [Hc| ->%list_elem_of_singleton]%elem_of_app; [by apply H3|].
    unfold bind_create in Hb. apply andb_true_iff in Hb as [[_ Ha]%andb_true_iff Hf].
    destruct (rArch r) as [la|]; [|done]. destruct (rFamily r) as [lf|]; [|done]. split_and!; simpl.
    + subst name. case_decide as Hty; [done|]. rewrite bool_decide_eq_false_2 in Hn by done. simpl in Hn.
      apply negb_false_iff in Hn. by apply valid_name_lacks.
    + by apply one_of_choices.
    + by apply one_of_choices.
  - intros v [Hv Hs]%H4. split; [|done]. apply elem_of_app. by left.
  - intros k j Hj. eapply job_ok_mono; [apply same_for_refl| |done| |exact (H6 k j Hj)].
    + intros c Hc. apply elem_of_app. by left.
    + intros _ v Hv. by left.
Qed.

Lemma publish_check_ok cid version faults s comp :
  publish_check cid version faults s = inl comp →
  comp ∈ comps s ∧ cID comp = from_hex cid ∧ ∀ v, v ∈ vers s → key v ≠ (cID comp, version).
Proof using Type.
  unfold publish_check. case_decide; [done|]. destruct (faults 0%nat); [done|].
  destruct (filter _ (comps s)) as [|comp' l] eqn:Hfil; [done|].
  assert (comp' ∈ comps s ∧ cID comp' = from_hex cid) as [Hc Hid].
  { assert (comp' ∈ filter (λ c, cID c = from_hex cid) (comps s)) as Hf by (rewrite Hfil; left).
    by apply list_elem_of_filter in Hf as [? ?]. }
  destruct (faults 1%nat); [done|].
  destruct (existsb (same_version (from_hex cid) version) (vers s)) eqn:Hex; [done|]. intros [= <-].
  split_and!; [done..|]. intros v Hv E.
  assert (existsb (same_version (from_hex cid) version) (vers s) = true); [|congruence].
  apply existsb_exists. exists v. rewrite <- list_elem_of_In. split; [done|]. unfold key in E.
  injection E as E1 E2. unfold same_version. by rewrite !bool_decide_eq_true_2 by congruence.
Qed.

Lemma inv_begin clients w k cid version form faults comp :
  publish_check cid version faults (st w) = inl comp → jobs w !! k = None → inv clients w →
  inv clients (mkWorld (st w) (clock w) (<[k := begin_job comp version form]> (jobs w)) (loads w) (gone w) (used w) (read w)
      (if decide (key_in_flight (cID comp, version) (jobs w)) then (cID comp, version) :: races w else races w) (refusals w)).
Proof using Type.
  intros (Hc & _ & Hnew)%publish_check_ok Hk [H1 H2 H3 H4 H5 H6 H7 H8 H9 H10 H11 H12].
  set (rs := if decide _ then _ else _).
  assert (∀ c v, same_for (view_of w) (mkView (served (st w)) rs (refusals w)) c v) as Hsame.
  { intros c v. subst rs. case_decide; [apply (same_for_race (view_of w))|apply same_for_refl]. }
  assert (∀ x, x ∉ rs → x ∉ races w) as Hrs.
  { intros x Hx. subst rs. case_decide; [|done]. by apply not_elem_of_cons in Hx as [_ ?]. }
  split; simpl; try done.
  - intros v Hv. destruct (H4 v Hv). split; [done|]. eapply version_served_mono; [|done]. apply Hsame.
  - apply map_Forall_insert_2.
    + split_and!; [done|done|]. exists []. split; [constructor|done].
    + intros k' j Hj. eapply job_ok_mono; [apply Hsame|done|apply Hrs| |exact (H6 k' j Hj)]. intros _ v Hv. by left.
  - assert (∀ k' j, jobs w !! k' = Some j → job_key j = (cID comp, version) → (cID comp, version) ∈ rs) as Hfl.
    { intros k' j Hj E. subst rs. rewrite decide_True; [left|]. exists k', j. done. }
    intros k1 k2 j1 j2 Hj1 Hj2 Hne E. destruct (decide (k1 = k)) as [->|Hn1], (decide (k2 = k)) as [->|Hn2]; [done|..].
    + rewrite lookup_insert_eq in Hj1. injection Hj1 as <-. rewrite lookup_insert_ne in Hj2 by done.
      change (job_key (begin_job comp version form)) with (cID comp, version) in E |- *. by eapply Hfl.
    + rewrite lookup_insert_eq in Hj2. injection Hj2 as <-. rewrite lookup_insert_ne in Hj1 by done.
      change (job_key (begin_job comp version form)) with (cID comp, version) in E. rewrite E. by eapply Hfl.
    + rewrite lookup_insert_ne in Hj1, Hj2 by done. pose proof (H7 k1 k2 j1 j2 Hj1 Hj2 Hne E) as Hr.
      subst rs. case_decide; [by right|done].
Qed.

Lemma same_for_raced x x' comp version : (cID comp, version) ∈ raced x' → same_for x x' comp version.
Proof using Type. intros Hr name j _ [Hn _]. by destruct Hn. Qed.

(** A step of one request that may touch the objects of its own version only. *)
Lemma inv_job clients w k j j' sv rf :
  jobs w !! k = Some j → job_key j' = job_key j →
  (∀ c v, c ∈ comps (st w) → (cID c, v) ≠ job_key j → same_for (view_of w) (mkView sv (races w) rf) c v) →
  job_ok clients (mkView sv (races w) rf) (comps (st w)) (vers (st w)) j' → inv clients w →
  inv clients (mkWorld (set_served sv (st w)) (clock w) (<[k := j']> (jobs w)) (loads w) (gone w) (used w) (read w) (races w) rf).
Proof using Type.
  intros Hj Ek Hsame Hok [H1 H2 H3 H4 H5 H6 H7 H8 H9 H10 H11 H12]. destruct (H6 k j Hj) as (_ & Hfresh & _).
  assert (∀ v, v ∈ vers (st w) → same_for (view_of w) (mkView sv (races w) rf) (vComponent v) (Version v)) as Hvs.
  { intros v Hv. destruct (decide (job_key j ∈ races w)) as [Hr|Hr], (decide (key v = job_key j)) as [E|E].
    - apply same_for_raced. simpl. change (cID (vComponent v), Version v) with (key v). by rewrite E.
    - apply Hsame; [by apply H4|done].
    - by destruct (Hfresh Hr v Hv).
    - apply Hsame; [by apply H4|done]. }
  split; simpl; try done.
  - intros v Hv. destruct (H4 v Hv). split; [done|]. eapply version_served_mono; [by apply Hvs|done].
  - intros k' j0 Hj0. destruct (decide (k' = k)) as [->|Hne].
    + rewrite lookup_insert_eq in Hj0. by injection Hj0 as <-.
    + rewrite lookup_insert_ne in Hj0 by done. pose proof (H6 k' j0 Hj0) as Hok0.
      apply (job_ok_mono clients (view_of w) _ (comps (st w)) _ (vers (st w))); [|done|done|intros _ v Hv; by left|exact Hok0].
      destruct (decide (job_key j0 = job_key j)) as [E|E].
      * apply same_for_raced. simpl. change (cID (jComp j0), jVersion j0) with (job_key j0). by eapply (H7 k' k j0 j).
      * apply Hsame; [apply Hok0|done].
  - intros k1 k2 j1 j2 Hj1 Hj2 Hne E. destruct (decide (k1 = k)) as [->|Hn1], (decide (k2 = k)) as [->|Hn2]; [done|..].
    + rewrite lookup_insert_eq in Hj1. injection Hj1 as <-. rewrite lookup_insert_ne in Hj2 by done.
      rewrite Ek. rewrite Ek in E. by eapply (H7 k k2 j j2).
    + rewrite lookup_insert_eq in Hj2. injection Hj2 as <-. rewrite lookup_insert_ne in Hj1 by done.
      rewrite Ek in E. by eapply (H7 k1 k j1 j).
    + rewrite lookup_insert_ne in Hj1, Hj2 by done. by eapply (H7 k1 k2).
Qed.

(** The object of a file that is being uploaded. *)
Lemma upload_object comp version name cf i :
  (PlarformFamily cf, Arch cf) = (if decide (i = 0%nat) then platform name else slot name) →
  object_name comp (PlarformFamily cf) (Arch cf) version = object comp version name.
Proof using Type.
  unfold object, family_of, arch_of, slot. case_decide.
  - intros <-. done.
  - intros [= -> ->]. unfold family_of, arch_of. apply object_name_default.
Qed.

Lemma upload_slot name cf i :
  (PlarformFamily cf, Arch cf) = (if decide (i = 0%nat) then platform name else slot name) →
  (or_default (PlarformFamily cf), or_default (Arch cf)) = slot name.
Proof using Type.
  unfold slot, family_of, arch_of. case_decide.
  - intros <-. done.
  - intros [= -> ->]. by rewrite !or_default_idem.
Qed.

Lemma urls_snoc cls c obj : urls (cls ++ [c]) obj = urls cls obj ++ getURL c obj.
Proof using Type. unfold urls. rewrite fmap_app, concat_app. simpl. by rewrite app_nil_r. Qed.

(** One post. *)
Lemma inv_put clients w k j name content cf i c ans us sv :
  inv clients w → jobs w !! k = Some j → jCur j = Some (name, content, cf, i) → clients !! i = Some c →
  PutObject i c (object_name (jComp j) (PlarformFamily cf) (Arch cf) (jVersion j)) content ans (served (st w)) = (inl us, sv) →
  inv clients (mkWorld (set_served sv (st w)) (clock w)
    (<[k := mkJob (jComp j) (jVersion j) (jForm j) (jTodo j) (Some (name, content,
       mkFile (or_default (PlarformFamily cf)) (or_default (Arch cf)) (DownloadURL cf ++ us) (SHA256 cf) (Signature cf), S i)) (jFiles j)]> (jobs w))
    (loads w) (gone w) (used w) (read w) (races w) (note_answer clients ans j (refusals w))).
Proof using Type.
  intros Hi Hj Hcur Hc Hput. destruct (inv_jobs _ _ Hi k j Hj) as (Hcomp & Hfresh & done & Hf & Hcur').
  rewrite Hcur in Hcur'. destruct Hcur' as (Enames & Hle & Hsha & Hurl & Hpl & Hserved).
  assert (name ∈ file_names (jComp j)) as Hname by (rewrite Enames; apply elem_of_app; right; left).
  rewrite (upload_object _ _ _ _ _ Hpl) in Hput. set (obj := object (jComp j) (jVersion j) name) in *.
  assert (∃ status, ans = inl status ∧ us = getURL c obj ∧
    sv = (if decide (200 ≤ status < 300) then <[(i, obj) := content]> (served (st w)) else served (st w))) as (status & -> & -> & Esv).
  { unfold PutObject in Hput. destruct ans as [status|]; [|done]. injection Hput as <- <-. by exists status. }
  assert (note_answer clients (inl status) j (refusals w) =
    if decide (200 ≤ status < 300) then refusals w ∖ {[(i, obj)]} else {[(i, obj)]} ∪ refusals w) as Enote.
  { unfold note_answer. rewrite Hcur, decide_True by (by eapply lookup_lt_Some). by rewrite (upload_object _ _ _ _ _ Hpl). }
  set (rf := note_answer clients (inl status) j (refusals w)) in *. set (x' := mkView sv (races w) rf).
  assert (∀ m o, (m, o) ≠ (i, obj) → sv !! (m, o) = served (st w) !! (m, o) ∧ ((m, o) ∉ rf → (m, o) ∉ refusals w)) as Hother.
  { intros m o Hne. rewrite Esv, Enote. case_decide.
    - split; [by rewrite lookup_insert_ne|]. intros Hn Hin. apply Hn, elem_of_difference. by rewrite elem_of_singleton.
    - split; [done|]. intros Hn Hin. apply Hn, elem_of_union. by right. }
  assert (∀ n m, object (jComp j) (jVersion j) n ≠ obj ∨ m ≠ i → reliable x' (jComp j) (jVersion j) n m →
    reliable (view_of w) (jComp j) (jVersion j) n m ∧
    served_ x' !! (m, object (jComp j) (jVersion j) n) = served (st w) !! (m, object (jComp j) (jVersion j) n)) as Hown.
  { intros n m Hne [Hr1 Hr2]. destruct (Hother m (object (jComp j) (jVersion j) n)) as [E1 E2].
    - intros E. pose proof (f_equal fst E) as E1. pose proof (f_equal snd E) as E2. cbn [fst snd] in E1, E2.
      by destruct Hne as [Hne|Hne].
    - split; [|done]. split; [done|by apply E2]. }
  assert (∀ n, n ∈ done → object (jComp j) (jVersion j) n ≠ obj) as Hdone.
  { intros n Hn E. pose proof (NoDup_objects (jComp j) (jVersion j) (inv_good _ _ Hi _ Hcomp)) as Hnd.
    rewrite Enames, fmap_app, fmap_cons in Hnd. apply NoDup_app in Hnd as (_ & Hdis & _).
    apply (Hdis (object (jComp j) (jVersion j) n)); [by apply list_elem_of_fmap_2|]. rewrite E. left. }
  apply (inv_job clients w k j); [done|done| | |done].
  - intros c' v' Hc' Hk n m Hn [Hr1 Hr2].
    destruct (post_other clients w (jComp j) (jVersion j) name i content (inl status) c _ _ n c' v' Hi Hcomp Hc' Hname Hn Hk Hput)
      as [Hne Hsv]. split; [|apply Hsv]. split; [done|]. apply (Hother m); [|done]. intros E. by apply (f_equal snd) in E.
  - split_and!; [done|done|]. exists done. cbn [jComp jVersion jFiles jCur jTodo]. split; [|split; [done|]].
    + eapply files_stored_mono; [|exact Hf]. intros n m Hn. apply Hown. left. by apply Hdone.
    + split_and!.
      * by apply lookup_lt_Some in Hc.
      * done.
      * cbn [DownloadURL]. rewrite Hurl, (take_S_r clients i c Hc), urls_snoc. done.
      * cbn [PlarformFamily Arch]. by eapply upload_slot.
      * intros m Hm Hrel. destruct (decide (m = i)) as [->|Hne].
        -- destruct Hrel as [_ Hrel]. subst x'. cbn [refused served_] in *. fold obj in Hrel |- *.
           rewrite Esv. rewrite Enote in Hrel. case_decide; [apply lookup_insert_eq|]. destruct Hrel.
           apply elem_of_union. left. by apply elem_of_singleton.
        -- destruct (Hown name m (or_intror Hne) Hrel) as [Hr' E']. etrans; [exact E'|]. apply Hserved; [lia|done].
Qed.

Lemma set_served_same s : set_served (served s) s = s.
Proof using Type. by destruct s. Qed.

Lemma world_eta w : mkWorld (st w) (clock w) (jobs w) (loads w) (gone w) (used w) (read w) (races w) (refusals w) = w.
Proof using Type. by destruct w. Qed.

Lemma prepare_file_ok comp form name content cf :
  prepare_file comp form name = inl (content, cf) →
  SHA256 cf = hex_EncodeToString (sha256 content) ∧ DownloadURL cf = [] ∧ (PlarformFamily cf, Arch cf) = platform name.
Proof using Type.
  unfold prepare_file. destruct (platform name) as [family arch]. destruct (form name) as [|size ct]; [done|].
  case_decide; [done|]. destruct ct as [ct|]; [|done]. destruct (signature_of comp ct); [|done]. by intros [= <- <-].
Qed.

(** A request goes on without a post. *)
Lemma inv_quiet clients w k j j' :
  inv clients w → jobs w !! k = Some j → job_key j' = job_key j →
  job_ok clients (view_of w) (comps (st w)) (vers (st w)) j' →
  inv clients (mkWorld (set_served (served (st w)) (st w)) (clock w) (<[k := j']> (jobs w)) (loads w) (gone w) (used w) (read w)
    (races w) (refusals w)).
Proof using Type. intros Hi Hj Ek Hok. apply (inv_job clients w k j); [done|done| |done|done]. intros c v _ _. apply same_for_refl. Qed.

Lemma inv_post clients w k j ans j' sv :
  jobs w !! k = Some j → job_step clients ans j (served (st w)) = (inl j', sv) → inv clients w →
  inv clients (mkWorld (set_served sv (st w)) (clock w) (<[k := j']> (jobs w)) (loads w) (gone w) (used w) (read w)
      (races w) (note_answer clients ans j (refusals w))).
Proof using Type.
  intros Hj Hs Hi. pose proof (inv_jobs _ _ Hi k j Hj) as (Hcomp & Hfresh & done & Hf & Hcur).
  unfold job_step in Hs. destruct (jCur j) as [[[[name content] cf] i]|] eqn:Ecur.
  - destruct (clients !! i) as [c|] eqn:Hc.
    + destruct (PutObject _ _ _ _ _ _) as [[us|err] sv1] eqn:Hput; [|done]. injection Hs as <- <-.
      by eapply inv_put.
    + injection Hs as <- <-. assert (note_answer clients ans j (refusals w) = refusals w) as ->.
      { unfold note_answer. rewrite Ecur. destruct ans; [|done]. apply lookup_ge_None in Hc. rewrite decide_False by lia. done. }
      apply (inv_quiet clients w k j); [done..|]. destruct Hcur as (Enames & Hle & Hsha & Hurl & Hpl & Hserved).
      apply lookup_ge_None in Hc. assert (i = length clients) as -> by lia. rewrite take_ge in Hurl by done.
      split_and!; [done|done|]. exists (done ++ [name]). cbn [jComp jVersion jFiles jCur jTodo]. split; [|by rewrite <- app_assoc].
      apply Forall2_app; [done|]. constructor; [|constructor]. exists content. split_and!; [done|done| |done].
      rewrite Hpl. by destruct clients.
  - assert (note_answer clients ans j (refusals w) = refusals w) as -> by (unfold note_answer; by rewrite Ecur).
    destruct (jTodo j) as [|name todo] eqn:Etodo.
    + injection Hs as <- <-. apply (inv_quiet clients w k j); [done..|]. exact (inv_jobs _ _ Hi k j Hj).
    + destruct (prepare_file (jComp j) (jForm j) name) as [[content cf]|e] eqn:Hprep; [|done]. injection Hs as <- <-.
      apply prepare_file_ok in Hprep as (Hsha & Hurl & Hpl).
      apply (inv_quiet clients w k j); [done..|]. split_and!; [done|done|]. exists done.
      cbn [jComp jVersion jFiles jCur jTodo]. split; [done|]. split; [done|].
      split_and!; [lia|done|by rewrite Hurl|done|lia].
Qed.

Lemma inv_drop clients w k :
  inv clients w →
  inv clients (mkWorld (st w) (clock w) (delete k (jobs w)) (loads w) (gone w) (used w) (read w) (races w) (refusals w)).
Proof using Type.
  intros [H1 H2 H3 H4 H5 H6 H7 H8 H9 H10 H11 H12]. split; simpl; try done.
  - by apply map_Forall_delete.
  - intros k1 k2 j1 j2 [_ Hj1]%lookup_delete_Some [_ Hj2]%lookup_delete_Some. by apply (H7 k1 k2).
Qed.

Lemma inv_fail clients w k j ans e sv :
  jobs w !! k = Some j → job_step clients ans j (served (st w)) = (inr e, sv) → inv clients w →
  inv clients (mkWorld (set_served sv (st w)) (clock w) (delete k (jobs w)) (loads w) (gone w) (used w) (read w)
      (races w) (refusals w)).
Proof using Type.
  intros Hj Hs Hi. assert (sv = served (st w)) as ->; [|rewrite set_served_same; by apply inv_drop].
  unfold job_step in Hs. destruct (jCur j) as [[[[name content] cf] i]|].
  - destruct (clients !! i); [|done]. unfold PutObject in Hs. destruct ans; [done|]. by injection Hs as _ <-.
  - destruct (jTodo j); [done|]. destruct (prepare_file _ _ _) as [[]|]; [done|]. by injection Hs as _ <-.
Qed.

Lemma inv_insert clients w k j cid user now id faults :
  jobs w !! k = Some j → jTodo j = [] → jCur j = None → from_hex cid = cID (jComp j) → inv clients w →
  inv clients (mkWorld (publish_insert cid (jVersion j) (jComp j) (jFiles j) user now id faults (st w)).1 (clock w)
      (delete k (jobs w)) (loads w) (gone w) (used w) (read w) (races w) (refusals w)).
Proof using Type.
  intros Hj Htodo Hcur Hid Hi. pose proof (inv_drop clients w k Hi) as Hd. unfold publish_insert.
  destruct (faults 2%nat); [done|].
  match goal with |- context [upsert ?m ?x ?l] => destruct (upsert m x l) as [l' b] eqn:Hu end.
  apply upsert_spec in Hu. destruct b; [|done]. destruct Hu as [-> Hnew].
  assert (∀ v, v ∈ vers (st w) → key v ≠ job_key j) as Hfresh.
  { intros v Hv E. unfold key, job_key in E. injection E as E1 E2. specialize (Hnew v Hv). unfold same_version in Hnew.
    rewrite !bool_decide_eq_true_2 in Hnew by congruence. done. }
  pose proof (inv_jobs _ _ Hi k j Hj) as (Hcomp & _ & done & Hf & Hnames). rewrite Hcur, Htodo, app_nil_r in Hnames. subst done.
  destruct Hi as [_ _ _ _ _ H6 H7 _ _ _ _ _]. destruct Hd as [H1 H2 H3 H4 H5 _ H7' H8 H9 H10 H11 H12].
  destruct (reads_mono w (mkWorld (mkSys (comps (st w)) (vers (st w) ++ [mkVersion id (jVersion j) (jFiles j) user now (jComp j)])
    (pols (st w)) (served (st w)) (policiesCache (st w)) (local (st w))) (clock w) (delete k (jobs w)) (loads w) (gone w) (used w)
    (read w) (races w) (refusals w))) as [Hl' Hc']; try done; [intros v Hv; apply elem_of_app; by left|by left|].
  split; simpl in *; try done.
  - intros v [Hv| ->%list_elem_of_singleton]%elem_of_app; [by apply H4|]. by split.
  - apply NoDup_snoc_fmap; [done|]. exact Hfresh.
  - intros k' j' Hj'. pose proof Hj' as [Hne Hj0]%lookup_delete_Some.
    apply (job_ok_mono clients (view_of w) _ (comps (st w)) _ (vers (st w)));
      [apply same_for_refl|done|done| |exact (H6 k' j' Hj0)].
    intros Hnr v [Hv| ->%list_elem_of_singleton]%elem_of_app; [by left|]. right. intros E. apply Hnr.
    apply (H7 k' k j' j Hj0 Hj); [congruence|]. symmetry. exact E.
  - intros p Hp. destruct (H8 p Hp). split; [|done]. apply elem_of_app. by left.
Qed.

Lemma inv_policy clients w vid rules user now id faults :
  id ∉ used w → inv clients w →
  inv clients (mkWorld (CreatePolicy vid rules user now id faults (st w)).1 (clock w) (jobs w) (loads w) (gone w)
      (id :: used w) (read w) (races w) (refusals w)).
Proof using Type.
  intros Hid Hi.
  assert (inv clients (mkWorld (st w) (clock w) (jobs w) (loads w) (gone w) (id :: used w) (read w) (races w) (refusals w))) as Hsame.
  { destruct Hi as [H1 H2 H3 H4 H5 H6 H7 H8 H9 H10 H11 H12]. split; simpl; try done. intros p Hp. destruct (H8 p Hp).
    split; [done|by right]. }
  unfold CreatePolicy. case_decide; [done|]. destruct (forallb compiles rules); [|done].
  destruct (faults 0%nat); [done|]. destruct (filter _ (vers (st w))) as [|cv l] eqn:Hfil; [done|].
  assert (cv ∈ vers (st w)) as Hcv.
  { assert (cv ∈ filter (λ v, vID v = vid) (vers (st w))) as Hf by (rewrite Hfil; left).
    by apply list_elem_of_filter in Hf as [? ?]. }
  destruct (faults 1%nat); [done|].
  match goal with |- context [upsert ?m ?x ?l] => destruct (upsert m x l) as [l' b] eqn:Hu end.
  apply upsert_spec in Hu. destruct b; [|done]. destruct Hu as [-> Hnew].
  pose proof Hi as [_ _ _ _ _ _ _ H8 H9 H10 H11 H12]. cbn [fst].
  match goal with |- inv _ ?w' => destruct (reads_mono w w') as [Hl' Hc']; try done end.
  { intros p Hp. left. apply elem_of_app. by left. }
  apply (inv_frame clients w); try done; simpl.
  - intros p [Hp| ->%list_elem_of_singleton]%elem_of_app; [|split; [done|left]].
    destruct (H8 p Hp). split; [done|by right].
  - apply NoDup_snoc_fmap; [done|]. intros p Hp. apply Hnew in Hp. by apply bool_decide_eq_false in Hp.
  - apply NoDup_snoc_fmap; [done|]. intros p Hp E. simpl in E. apply Hid. rewrite <- E. by apply H8.
Qed.

Lemma inv_delete clients w pid fault s r :
  DeletePolicy pid fault (st w) = (s, r) → inv clients w →
  inv clients (mkWorld s (clock w) (jobs w) (loads w)
      (match r with Deleted 1 => (pid, clock w) :: gone w | _ => gone w end) (used w) (read w) (races w) (refusals w)).
Proof using Type.
  unfold DeletePolicy. intros Hd Hi. case_decide; [injection Hd as <- <-; by rewrite world_eta|].
  destruct fault; [injection Hd as <- <-; by rewrite world_eta|].
  destruct (delete_one_spec (λ p, bool_decide (pID p = pid)) (pols (st w))) as [Hsub Hone].
  destruct (delete_one _ (pols (st w))) as [l n]. simpl in Hsub, Hone. injection Hd as <- <-.
  pose proof Hi as [_ _ _ _ _ _ _ H8 H9 H10 H11 H12].
  match goal with |- inv _ ?w' => destruct (reads_mono w w') as [Hl' Hc']; try done end.
  { intros p Hp. destruct (Hone p Hp) as [?|[Hm ->]]; [by left|]. right. apply bool_decide_eq_true in Hm. subst pid.
    exists (clock w). split; [left|done]. }
  { intros x Hx. destruct n as [|[|]]; [done|by right|done]. }
  apply (inv_frame clients w); try done; simpl.
  - intros p Hp. apply H8. by eapply elem_of_sublist.
  - eapply sublist_NoDup; [exact H9|]. by apply fmap_sublist.
  - eapply sublist_NoDup; [exact H10|]. by apply fmap_sublist.
Qed.

Lemma released_spec s p : p ∈ released s → p ∈ pols s.
Proof using Type. unfold released. by intros [_ ?]%list_elem_of_filter. Qed.

Lemma inv_time clients w t :
  clock w ≤ t → inv clients w →
  inv clients (mkWorld (st w) t (jobs w) (loads w) (gone w) (used w) (read w) (races w) (refusals w)).
Proof using Type.
  intros Ht Hi. pose proof Hi as [_ _ _ _ _ _ _ H8 H9 H10 H11 H12].
  match goal with |- inv _ ?w' => destruct (reads_mono w w') as [Hl' Hc']; try done end; [by left|].
  by apply (inv_frame clients w).
Qed.

Lemma inv_search clients w :
  inv clients w →
  inv clients (mkWorld (st w) (clock w) (jobs w) ((clock w, released (st w)) :: loads w) (gone w) (used w) (read w)
      (races w) (refusals w)).
Proof using Type.
  intros Hi. pose proof Hi as [_ _ _ _ _ _ _ H8 H9 H10 H11 H12]. apply (inv_frame clients w); try done; simpl.
  intros r ps [[= -> ->]|Hin]%elem_of_cons; [|by apply H11]. split_and!; [done| |].
  - eapply sublist_NoDup; [exact H9|]. apply fmap_sublist, sublist_filter.
  - intros p Hp%released_spec. split; [by apply H8|by left].
Qed.

Lemma inv_store clients w r ps :
  (r, ps) ∈ loads w → inv clients w →
  inv clients (mkWorld (mkSys (comps (st w)) (vers (st w)) (pols (st w)) (served (st w)) (Some (clock w, ps)) (local (st w)))
      (clock w) (jobs w) (loads w) (gone w) (used w) r (races w) (refusals w)).
Proof using Type.
  intros Hin Hi. pose proof Hi as [_ _ _ _ _ _ _ H8 H9 H10 H11 H12]. pose proof (H11 r ps Hin) as Hr.
  apply (inv_frame clients w); try done; simpl. intros t ps' [= <- <-]. split_and!; [done|apply Hr|exact Hr].
Qed.

Lemma inv_local clients w c : inv clients w → inv clients (on_st (set_local c (st w)) w).
Proof using Type. intros Hi. pose proof Hi as [_ _ _ _ _ _ _ H8 H9 H10 H11 H12]. by apply (inv_frame clients w). Qed.

Lemma inv_reachable clients w :
  lacks "/" AgentName = true → reachable initial (step clients) w → inv clients w.
Proof using Type.
  intros HN Hr. eapply (reachable_invariant initial (step clients) (inv clients)); [..|exact Hr]; clear w Hr.
  - intros s [t ->]. split; simpl; try done; try apply NoDup_nil_2; try (by intros ? ?%elem_of_nil); by intros ? ? ?%elem_of_nil.
  - intros w0 w1 Hi. inversion 1; subst.
    + by apply inv_time.
    + by apply inv_create.
    + by eapply inv_begin.
    + by eapply inv_post.
    + by eapply inv_fail.
    + by eapply inv_insert.
    + by apply inv_policy.
    + by eapply inv_delete.
    + by apply inv_search.
    + by eapply inv_store.
    + by apply inv_local.
    + by apply inv_local.
Qed.

(** *** The handlers in one go *)

(** A request of an agent that nothing comes in between is a search, its storing and the
    evaluation of the rules. *)
Lemma request_steps clients w tags info now' fa :
  clock w ≤ now' →
  ∃ w', rtc (step clients) w w' ∧ st w' = (GetComponentInstances tags (inl info) (clock w) now' fa (st w)).1.
Proof using Type.
  intros Ht. unfold GetComponentInstances.
  assert (∀ w0 ps, ∃ w', rtc (step clients) w0 w' ∧
    st w' = set_local (instances tags info ps (local (st w0))).2 (st w0)) as Heval.
  { intros w0 ps. eexists. split; [apply rtc_once, (w_answer clients w0 tags info ps)|done]. }
  assert (∃ w', rtc (step clients) w w' ∧
    st w' = mkSys (comps (st w)) (vers (st w)) (pols (st w)) (served (st w)) (Some (now', released (st w)))
      (instances tags info (released (st w)) (local (st w))).2) as Hload.
  { set (w1 := mkWorld (st w) (clock w) (jobs w) ((clock w, released (st w)) :: loads w) (gone w) (used w) (read w) (races w) (refusals w)).
    set (w2 := mkWorld (st w) now' (jobs w) ((clock w, released (st w)) :: loads w) (gone w) (used w) (read w) (races w) (refusals w)).
    pose proof (w_store clients w2 (clock w) (released (st w)) ltac:(left)) as H3. simpl in H3.
    match type of H3 with step _ _ ?w3 => destruct (Heval w3 (released (st w))) as (w' & Hrtc & Hst) end.
    exists w'. split; [|exact Hst]. eapply rtc_l; [apply (w_search clients w)|]. eapply rtc_l; [apply (w_time clients w1 now' Ht)|].
    by eapply rtc_l. }
  assert (∀ ps, ∃ w', rtc (step clients) w w' ∧
    st w' = mkSys (comps (st w)) (vers (st w)) (pols (st w)) (served (st w)) (policiesCache (st w))
      (instances tags info ps (local (st w))).2) as Hkeep by (intros ps; apply Heval).
  assert (∃ w', rtc (step clients) w w' ∧ st w' = mkSys (comps (st w)) (vers (st w)) (pols (st w)) (served (st w)) (policiesCache (st w)) (local (st w))) as Hsame.
  { exists w. split; [done|]. by destruct (st w). }
  unfold load_policies. destruct (policiesCache (st w)) as [[t ps]|]; [case_decide|]; [|destruct fa..];
    repeat match goal with |- context [instances ?a ?b ?c ?d] => destruct (instances a b c d) eqn:? end; cbn [fst snd] in *;
    first [exact Hload|exact Hsame|idtac].
  all: specialize (Hkeep ps); by match goal with H : instances _ _ _ _ = _ |- _ => rewrite H in Hkeep end.
Qed.

(** ** What an agent is given *)

(** A list rule on the ID or the kernel version that names the agent. *)
Definition blocks (info : ContextInfo) (r : PolicyRule) : Prop :=
  Operator r = "$in" ∧
  (Key r = "agent_id" ∧ AgentID info ∈ str_split "," (Value r) ∨
   Key r = "kernel_version" ∧ KernelVersion info ∈ str_split "," (Value r)).

Lemma shot_blocks tags rules info c r : r ∈ rules → blocks info r → (shot tags rules info c).1 = true.
Proof using Type.
  intros Hr [Hop Hk]. revert c. induction rules as [|r' rules IH]; intros c; [by apply elem_of_nil in Hr|]. cbn [shot].
  destruct (rule_value tags r' info c) as [v c1] eqn:Hv. destruct (Find r' v (regexCache c1)) as [[find e] rc] eqn:Hf.
  destruct find; [done|]. apply elem_of_cons in Hr as [->|Hr]; [|by apply IH]. exfalso.
  unfold rule_value in Hv. unfold Find in Hf. rewrite decide_True in Hf by done.
  destruct Hk as [[Hk Hin]|[Hk Hin]]; rewrite Hk in Hv; simpl in Hv; injection Hv as <- <-;
    rewrite bool_decide_eq_true_2 in Hf by done; done.
Qed.

Lemma GetIntance_Some tags p info c i :
  (GetIntance tags p info c).1 = Some i →
  (∃ f, f ∈ Files (pVersion p) ∧ suits (vComponent (pVersion p)) info f = true ∧ i = instance_of p f) ∧
  (AgentID info ≠ "" → ∀ r, r ∈ Rules p → ¬ blocks info r).
Proof using Type.
  unfold GetIntance. destruct (if decide (AgentID info ≠ "") then _ else _) as [sh c1] eqn:Hs.
  destruct sh; [done|]. destruct (filter _ _) as [|f fs] eqn:Hf; [done|]. intros [= <-]. split.
  - exists f. assert (f ∈ filter (λ f, suits (vComponent (pVersion p)) info f = true) (Files (pVersion p))) as Hin
      by (rewrite Hf; left). by apply list_elem_of_filter in Hin as [? ?].
  - intros Hid r Hr Hb. rewrite decide_True in Hs by done. pose proof (shot_blocks tags _ _ c r Hr Hb) as Hsh. clear Hb. rename Hsh into Hb.
    by rewrite Hs in Hb.
Qed.

Lemma instances_from tags info ps c i :
  i ∈ (instances tags info ps c).1 → ∃ p c', p ∈ ps ∧ (GetIntance tags p info c').1 = Some i.
Proof using Type.
  revert c. induction ps as [|p ps IH]; intros c; simpl; [by intros ?%elem_of_nil|].
  destruct (GetIntance tags p info c) as [oi c1] eqn:Hg. destruct (instances tags info ps c1) as [l c2] eqn:Hl.
  assert (i ∈ l → ∃ p0 c', p0 ∈ p :: ps ∧ (GetIntance tags p0 info c').1 = Some i) as Hrest.
  { intros Hi. destruct (IH c1) as (p0 & c' & Hp & Hc); [by rewrite Hl|]. exists p0, c'. split; [by right|done]. }
  destruct oi as [i'|]; [|done]. intros [->|Hi]%elem_of_cons; [|by apply Hrest].
  exists p, c. split; [left|by rewrite Hg].
Qed.

Lemma instances_names tags info ps c :
  sublist (iName <$> (instances tags info ps c).1) ((λ p, cName (vComponent (pVersion p))) <$> ps).
Proof using Type.
  revert c. induction ps as [|p ps IH]; intros c; simpl; [done|].
  destruct (GetIntance tags p info c) as [oi c1] eqn:Hg. specialize (IH c1).
  destruct (instances tags info ps c1) as [l c2]. simpl in *. destruct oi as [i|]; [|by apply sublist_cons].
  destruct (GetIntance_Some tags p info c i) as [(f & _ & _ & ->) _]; [by rewrite Hg|]. by apply sublist_skip.
Qed.

Lemma NoDup_fmap_coarser {A B C} (f : A → B) (g : A → C) (l : list A) :
  NoDup (f <$> l) → (∀ x y, x ∈ l → y ∈ l → g x = g y → f x = f y) → NoDup (g <$> l).
Proof using Type.
  intros Hf Hg. induction l as [|x l IH]; [constructor|]. rewrite fmap_cons in *. apply NoDup_cons in Hf as [Hx Hf].
  apply NoDup_cons. split.
  - intros (y & E & Hy)%list_elem_of_fmap. apply Hx, list_elem_of_fmap. exists y. split; [|done].
    apply Hg; [left|by right|done].
  - apply IH; [done|]. intros a b Ha Hb. apply Hg; by right.
Qed.

(** The search for policies failed. *)
Definition failed (fa : find_answer) : Prop := match fa with FindError _ | DecodeError _ => True | _ => False end.

(** The policies a request works with: they are there, or they were deleted after the search
    for the local copy, which is less than a minute old or used because a new search failed. *)
Definition current (w : world) (now : Z) (fa : find_answer) (p : Policy) : Prop :=
  pVersion p ∈ vers (st w) ∧
  (p ∈ pols (st w) ∨
   ∃ t ps d, policiesCache (st w) = Some (t, ps) ∧ p ∈ ps ∧ (pID p, d) ∈ gone w ∧ read w ≤ d ∧ read w ≤ t ∧
     (now < t + 60 ∨ failed fa)).

Lemma loaded clients w now now' fa ps pc :
  inv clients w → load_policies now now' fa (st w) = (inl ps, pc) →
  NoDup (comp_of <$> ps) ∧ ∀ p, p ∈ ps → current w now fa p.
Proof using Type.
  intros [_ _ _ _ _ _ _ H6 H7 _ _ H9] Hl.
  assert (NoDup (comp_of <$> released (st w)) ∧ ∀ p, p ∈ released (st w) → current w now fa p) as Hrel.
  { split; [eapply sublist_NoDup; [exact H7|]; apply fmap_sublist, sublist_filter|].
    intros p Hp%released_spec. split; [by apply H6|by left]. }
  assert (∀ t ps0, policiesCache (st w) = Some (t, ps0) → (now < t + 60 ∨ failed fa) →
    NoDup (comp_of <$> ps0) ∧ ∀ p, p ∈ ps0 → current w now fa p) as Hcache.
  { intros t ps0 Hc Hcase. destruct (H9 t ps0 Hc) as (_ & Hrt & _ & Hnd & Hall). split; [done|]. intros p Hp.
    destruct (Hall p Hp) as [Hv [?|(d & Hg & Hd)]]; (split; [done|]); [by left|]. right. by exists t, ps0, d. }
  unfold load_policies in Hl. destruct (policiesCache (st w)) as [[t ps0]|] eqn:Hc.
  - case_decide as Ht; [injection Hl as <- _; apply (Hcache t ps0 eq_refl); left; lia|].
    destruct fa; try done; injection Hl as <- _; [done|by apply (Hcache t ps0 eq_refl); right..].
  - destruct fa; try done. by injection Hl as <- _.
Qed.

(** The instances that a request is answered with. *)
Lemma answered tags info now now' fa s s' l :
  GetComponentInstances tags (inl info) now now' fa s = (s', Instances l) →
  l = [] ∨ ∃ ps pc, load_policies now now' fa s = (inl ps, pc) ∧ l = (instances tags info ps (local s)).1.
Proof using Type.
  unfold GetComponentInstances. destruct (load_policies now now' fa s) as [[ps|r] pc] eqn:Hl.
  - destruct (instances tags info ps (local s)) as [l' c] eqn:E. intros [= _ <-]. right. exists ps, pc. by rewrite E.
  - intros [= _ ->]. left. unfold load_policies in Hl.
    destruct (policiesCache s) as [[t ps]|]; [case_decide; [done|]|]; destruct fa; try done; by injection Hl as <- _.
Qed.

(** What the instances of an answer are. *)
Lemma instances_spec clients w tags info now now' fa s l :
  lacks "/" AgentName = true → reachable initial (step clients) w →
  GetComponentInstances tags (inl info) now now' fa (st w) = (s, Instances l) →
  NoDup (iName <$> l) ∧
  ∀ i, i ∈ l → ∃ v f name content,
    v ∈ vers (st w) ∧ f ∈ Files v ∧ name ∈ file_names (vComponent v) ∧ suits (vComponent v) info f = true ∧
    iName i = cName (vComponent v) ∧ iVersion i = Version v ∧
    iDownloadURL i = urls clients (object (vComponent v) (Version v) name) ∧
    iSHA256 i = hex_EncodeToString (sha256 content) ∧
    ∀ j, (j < length clients)%nat → key v ∉ races w → (j, object (vComponent v) (Version v) name) ∉ refusals w →
      served (st w) !! (j, object (vComponent v) (Version v) name) = Some content.
Proof using Type.
  intros HN Hr Hget. pose proof (inv_reachable _ _ HN Hr) as Hi.
  destruct (answered _ _ _ _ _ _ _ _ Hget) as [->|(ps & pc & Hl & ->)].
  { split; [constructor|]. by intros i ?%elem_of_nil. }
  destruct (loaded clients w now now' fa ps pc Hi Hl) as [Hnd Hps].
  pose proof (instances_names tags info ps (local (st w))) as Hsub.
  pose proof (instances_from tags info ps (local (st w))) as Hfrom.
  assert (∀ p, p ∈ ps → vComponent (pVersion p) ∈ comps (st w)) as Hcomp.
  { intros p Hp. apply (inv_vers _ _ Hi). by apply Hps. }
  split.
  - eapply sublist_NoDup; [|exact Hsub]. eapply NoDup_fmap_coarser; [exact Hnd|]. intros p q Hp Hq E.
    apply Hcomp in Hp as [a Ha]%list_elem_of_lookup, Hq as [b Hb]%list_elem_of_lookup.
    assert (a = b) as ->; [|unfold comp_of; congruence]. eapply NoDup_lookup; [exact (inv_names _ _ Hi)|..];
      rewrite list_lookup_fmap; [by rewrite Ha|rewrite Hb; simpl; by rewrite E].
  - intros i Hin. destruct (Hfrom i Hin) as (p & c' & Hp & Hg).
    apply GetIntance_Some in Hg as [(f & Hf & Hsuits & ->) _]. destruct (Hps p Hp) as [Hv _].
    destruct (inv_vers _ _ Hi _ Hv) as [_ Hserved]. apply list_elem_of_lookup in Hf as [k Hk].
    destruct (Forall2_lookup_r _ _ _ _ _ Hserved Hk) as (name & Hname & content & Hsha & Hurl & _ & Hst).
    exists (pVersion p), f, name, content. split_and!; try done; try by eapply list_elem_of_lookup_2.
    intros j Hj Hr1 Hr2. by apply Hst.
Qed.

(** [C17] The instances an agent is given are intact, whatever requests of users and agents are
    interleaved (the checks, posts and the insertion of several requests that publish too),
    and whether or not the search for policies succeeds: at most one of each component; each
    is made from a file of a published version that is meant for the agent's platform; and
    what the download server has under each of its URLs is a content with the digest that the
    instance carries, unless two requests were publishing that version at the same time or
    the server refused the post of the object (the client does not look at the status). *)
Theorem instances_intact clients w tags info now now' fa s l :
  lacks "/" AgentName = true → reachable initial (step clients) w →
  GetComponentInstances tags (inl info) now now' fa (st w) = (s, Instances l) →
  NoDup (iName <$> l) ∧
  ∀ i, i ∈ l → ∃ v f name content,
    v ∈ vers (st w) ∧ f ∈ Files v ∧ name ∈ file_names (vComponent v) ∧ suits (vComponent v) info f = true ∧
    iName i = cName (vComponent v) ∧ iVersion i = Version v ∧
    iDownloadURL i = urls clients (object (vComponent v) (Version v) name) ∧
    iSHA256 i = hex_EncodeToString (sha256 content) ∧
    ∀ j, (j < length clients)%nat → key v ∉ races w → (j, object (vComponent v) (Version v) name) ∉ refusals w →
      served (st w) !! (j, object (vComponent v) (Version v) name) = Some content.
Proof using Type. apply instances_spec. Qed.

(** [C18] Releases are withdrawn and blocked: an agent is only given an instance of a version
    that is released at that time, or whose policy was deleted after the search behind the
    local copy of the policies, which was stored less than a minute ago, or is older but used
    because a new search failed; and an agent that gives its ID is never given one whose
    policy has a list rule that names this ID or its kernel. *)
Theorem release_withdrawn clients w tags info now now' fa s l :
  lacks "/" AgentName = true → reachable initial (step clients) w →
  GetComponentInstances tags (inl info) now now' fa (st w) = (s, Instances l) →
  ∀ i, i ∈ l → ∃ p f, i = instance_of p f ∧ f ∈ Files (pVersion p) ∧
    (p ∈ pols (st w) ∨
     ∃ t ps d, policiesCache (st w) = Some (t, ps) ∧ p ∈ ps ∧ (pID p, d) ∈ gone w ∧ read w ≤ d ∧ read w ≤ t ∧
       (now < t + 60 ∨ failed fa)) ∧
    (AgentID info ≠ "" → ∀ r, r ∈ Rules p → ¬ blocks info r).
Proof using Type.
  intros HN Hr Hget i Hin. pose proof (inv_reachable _ _ HN Hr) as Hi.
  destruct (answered _ _ _ _ _ _ _ _ Hget) as [->|(ps & pc & Hl & ->)]; [by apply elem_of_nil in Hin|].
  destruct (loaded clients w now now' fa ps pc Hi Hl) as [_ Hps].
  destruct (instances_from tags info ps (local (st w)) i Hin) as (p & c' & Hp & Hg).
  apply GetIntance_Some in Hg as [(f & Hf & _ & ->) Hb]. destruct (Hps p Hp) as [_ Hcur]. by exists p, f.
Qed.

Lemma choices_in x y l z : l ∈ choices x y → z ∈ l → z = x ∨ z = y.
Proof using Type.
  clear. unfold choices. intros Hl Hz. rewrite !elem_of_cons, elem_of_nil in Hl.
  destruct Hl as [->|[->|[->|[->|[->|[]]]]]]; rewrite ?elem_of_cons, elem_of_nil in Hz; tauto.
Qed.

(** The platform of an agent is one a component is built for. *)
Definition supported (comp : Component) (info : ContextInfo) : Prop :=
  (ArchRequirements comp = [] ∨ cArch info ∈ ArchRequirements comp) ∧
  (PlatformFamilyRequirements comp = [] ∨ PlatformFamily info ∈ PlatformFamilyRequirements comp).

(** Decides which platform a concrete name stands for. *)
Ltac eval_platform H :=
  repeat match type of H with
  | context [platform ?n] => let r := eval vm_compute in (platform n) in change (platform n) with r in H
  | context [slot ?n] => let r := eval vm_compute in (slot n) in change (slot n) with r in H
  end.

(** Some file of such a component is for that platform, whether or not the names of its
    platform were filled up. *)
Lemma supported_name comp info :
  good_component comp → supported comp info →
  ∃ name, name ∈ file_names comp ∧ ∀ f, (PlarformFamily f, Arch f) ∈ [platform name; slot name] → suits comp info f = true.
Proof using Type.
  intros (_ & Ha & Hf) [Hsa Hsf]. unfold suits, file_names.
  destruct (ArchRequirements comp) as [|a0 ar] eqn:Ea, (PlatformFamilyRequirements comp) as [|f0 fr] eqn:Ef.
  - exists "default". split; [left|done].
  - destruct Hsf as [?|Hsf]; [done|]. exists (PlatformFamily info). split; [done|]. intros f Hpl.
    assert (PlatformFamily info = PlarformFamily f) as ->;
      [|by rewrite (bool_decide_eq_true_2 (PlarformFamily f = _)) by done].
    destruct (choices_in _ _ _ _ Hf Hsf) as [E|E]; rewrite E in Hpl |- *; eval_platform Hpl;
      apply elem_of_cons in Hpl as [[= -> _]|[[= -> _]|[]%elem_of_nil]%elem_of_cons]; done.
  - destruct Hsa as [?|Hsa]; [done|]. exists (cArch info). split; [done|]. intros f Hpl.
    assert (cArch info = Arch f) as ->; [|by rewrite (bool_decide_eq_true_2 (Arch f = _)) by done].
    destruct (choices_in _ _ _ _ Ha Hsa) as [E|E]; rewrite E in Hpl |- *; eval_platform Hpl;
      apply elem_of_cons in Hpl as [[= _ ->]|[[= _ ->]|[]%elem_of_nil]%elem_of_cons]; done.
  - destruct Hsa as [?|Hsa]; [done|]. destruct Hsf as [?|Hsf]; [done|].
    exists (PlatformFamily info +:+ "_" +:+ cArch info). split.
    + apply list_elem_of_In, in_concat. exists ((λ a, PlatformFamily info +:+ "_" +:+ a) <$> a0 :: ar). rewrite <- !list_elem_of_In.
      split; [by apply (list_elem_of_fmap_2 (λ p, (λ a, p +:+ "_" +:+ a) <$> a0 :: ar))
             |by apply (list_elem_of_fmap_2 (λ a, PlatformFamily info +:+ "_" +:+ a))].
    + intros f Hpl. assert (PlatformFamily info = PlarformFamily f ∧ cArch info = Arch f) as [-> ->];
        [|by rewrite (bool_decide_eq_true_2 (PlarformFamily f = _)), (bool_decide_eq_true_2 (Arch f = _)) by done].
      destruct (choices_in _ _ _ _ Ha Hsa) as [E|E], (choices_in _ _ _ _ Hf Hsf) as [E'|E']; rewrite E, E' in Hpl |- *; eval_platform Hpl;
        apply elem_of_cons in Hpl as [[= -> ->]|[[= -> ->]|[]%elem_of_nil]%elem_of_cons]; done.
Qed.

(** Whether the rules of a policy let an agent pass, when its turn comes in a request: the
    policies before it may have changed the caches. *)
Definition passes (tags : string → list string + string) (info : ContextInfo) (before : list Policy) (c : caches) (p : Policy)
    : bool :=
  bool_decide (AgentID info = "") || negb (shot tags (Rules p) info (instances tags info before c).2).1.

Lemma instances_split tags info ps1 p ps2 c :
  ∃ l2, (instances tags info (ps1 ++ p :: ps2) c).1 =
    (instances tags info ps1 c).1 ++ option_list (GetIntance tags p info (instances tags info ps1 c).2).1 ++ l2 ∧
    sublist (iName <$> l2) ((λ p, cName (vComponent (pVersion p))) <$> ps2).
Proof using Type.
  revert c. induction ps1 as [|q ps1 IH]; intros c; cbn [app instances].
  - cbn [fst snd]. destruct (GetIntance tags p info c) as [oi c1]. pose proof (instances_names tags info ps2 c1) as Hn.
    destruct (instances tags info ps2 c1) as [l2 c2]. exists l2. cbn [fst snd]. split; [by destruct oi|done].
  - destruct (GetIntance tags q info c) as [oi c1]. destruct (IH c1) as (l2 & E & Hn). exists l2. split; [|done].
    destruct (instances tags info (ps1 ++ p :: ps2) c1) as [l c2]. destruct (instances tags info ps1 c1) as [l1 c3].
    cbn [fst snd] in *. rewrite E. by destruct oi.
Qed.

Lemma GetIntance_passes tags p info c f :
  f ∈ Files (pVersion p) → suits (vComponent (pVersion p)) info f = true →
  is_Some (GetIntance tags p info c).1 ↔ bool_decide (AgentID info = "") || negb (shot tags (Rules p) info c).1 = true.
Proof using Type.
  intros Hf Hs. unfold GetIntance.
  destruct (filter (λ f, suits (vComponent (pVersion p)) info f = true) (Files (pVersion p))) as [|g gs] eqn:Hfil.
  { assert (f ∈ filter (λ f, suits (vComponent (pVersion p)) info f = true) (Files (pVersion p))) as Hin by (by apply list_elem_of_filter).
    rewrite Hfil in Hin. by apply elem_of_nil in Hin. }
  destruct (decide (AgentID info = "")) as [Hid|Hid].
  - rewrite decide_False by (by intros []). rewrite bool_decide_eq_true_2 by done. simpl. split; [done|by eexists].
  - rewrite decide_True by done. rewrite bool_decide_eq_false_2 by done. simpl.
    destruct (shot tags (Rules p) info c) as [[] c1]; simpl.
    + split; [intros Hx; by apply is_Some_None in Hx|done].
    + split; [done|]. intros _. by eexists.
Qed.


(** *** Running a request to its end *)

Fixpoint run_job (fuel : nat) (clients : list NginxClient) (k : nat) (w : world) : world :=
  match fuel, jobs w !! k with
  | S fuel, Some j =>
      match job_step clients (answer_for j) j (served (st w)) with
      | (inl j', sv) =>
          run_job fuel clients k (mkWorld (set_served sv (st w)) (clock w) (<[k := j']> (jobs w)) (loads w) (gone w) (used w)
            (read w) (races w) (note_answer clients (answer_for j) j (refusals w)))
      | (inr _, _) => w
      end
  | _, _ => w
  end.

Lemma run_job_reachable fuel clients k w :
  reachable initial (step clients) w → reachable initial (step clients) (run_job fuel clients k w).
Proof using Type.
  revert w. induction fuel as [|fuel IH]; intros w Hr; cbn [run_job]; [done|].
  destruct (jobs w !! k) as [j|] eqn:Hj; [|done].
  destruct (job_step clients (answer_for j) j (served (st w))) as [[j'|e] sv] eqn:Hs; [|done].
  apply IH. eapply reach_step; [exact Hr|]. by eapply w_post.
Qed.

(** ** What the rules miss *)

(** A rule on tags with an expression never blocks: it is compared with a text only. *)
Lemma tag_regex_never_blocks r l rc : Operator r = "$regex" → (Find r (FStrs l) rc).1.1 = false.
Proof using Type.
  intros Hop. unfold Find. rewrite Hop. simpl. destruct (rc !! "$regex"); [done|]. by destruct (regexp_Compile (Value r)).
Qed.

(** Compiled expressions are stored under the expression and looked up under the operator:
    after a rule whose expression is the text [$regex] has been evaluated, every rule with an
    expression is decided by that one. *)
Lemma regex_cache_poisoned r0 reg0 v rc :
  Operator r0 = "$regex" → Value r0 = "$regex" → regexp_Compile "$regex" = Some reg0 → rc !! "$regex" = None →
  ∀ r s, Operator r = "$regex" → (Find r (FStr s) (Find r0 v rc).2).1 = (reg0 s, None).
Proof using Type.
  intros Ho Hv Hc Hn r s Hop. unfold Find at 2. rewrite Ho, Hv, Hn, Hc. simpl.
  unfold Find. rewrite Hop. simpl.
  assert ((match v with FStr s0 => (reg0 s0, None, <["$regex":=reg0]> rc) | _ => (false, Some "unknown type", <["$regex":=reg0]> rc) end).2
    = <["$regex":=reg0]> rc) as E by (by destruct v).
  rewrite E, lookup_insert_eq. done.
Qed.

(** The refresh of the tags compares a field that heartbeats do not have, so the tags of an
    agent stay as they were first read. *)
Lemma tags_never_refreshed docs now c :
  (∀ d, d ∈ docs → hNumbers d !! "last_heatrbeat_time" = None) → tagsCache (refresh_tags docs now c) = tagsCache c.
Proof using Type.
  intros Hd. unfold refresh_tags. simpl. induction docs as [|d docs IH]; [done|].
  rewrite filter_cons_False by (rewrite Hd by left; done). apply IH. intros d' Hd'. apply Hd. by right.
Qed.

End component.

(** ** An instance *)

Definition w_clients : list NginxClient := [mkNginx ["http://d"]].
Definition w_answer_ (i : nat) (o : string) : post_answer := inl 200.
Definition w_hex (s : string) : Z := 1.
Abbreviation w_step := (step (λ _, None) id (λ _, inr "") w_hex "elkeid-agent" w_clients).
Abbreviation w_publish_ := (PublishComponentVersion id (λ _, inr "") w_answer_ w_hex w_clients).

Definition w_0 : sys := mkSys [] [] [] ∅ None (mkCaches ∅ ∅).
Definition w_form (name : string) : upload := Uploaded 4 (inl ("for " +:+ name)).
Definition no_fault (i : nat) : option string := None.
Definition w_1 : sys :=
  (CreateComponent "elkeid-agent" (mkCreate "driver" "exec" (Some ["x86_64"; "aarch64"]) (Some [])) "u" 5 1 None w_0).1.
Definition w_2 : sys := (w_publish_ "1" "1.0.0.9" w_form "u" 6 2 no_fault w_1).1.
Definition w_3 : sys :=
  (CreatePolicy (λ _, None) 2 [mkRule "agent_id" "$in" "a,b"] "u" 7 3 no_fault w_2).1.
Definition w_after (s : sys) (used_ : list Z) : world := mkWorld s 10 ∅ [] [] used_ 10 [] ∅.
Definition w_begun : world :=
  mkWorld w_1 10 {[0%nat := begin_job (default (mkComponent 0 "" "" [] [] "" 0) (head (comps w_1))) "1.0.0.9" w_form]} [] [] [] 10 [] ∅.
Definition w_posted : world := run_job id (λ _, inr "") w_answer_ 9 w_clients 0 w_begun.
Definition w_world : world := w_after w_3 [3].
Definition w_info : ContextInfo := mkInfo "c" "5.4" "debian" "aarch64" [].

(** The state after the last post: the files are served. *)
Definition w_job : job :=
  mkJob (default (mkComponent 0 "" "" [] [] "" 0) (head (comps w_1))) "1.0.0.9" w_form [] None
    (match vers w_2 with v :: _ => Files v | [] => [] end).
Definition w_ready : world := mkWorld (set_served (served w_2) w_1) 10 {[0%nat := w_job]} [] [] [] 10 [] ∅.

Lemma w_posted_eq : w_posted = w_ready.
Proof. vm_compute. reflexivity. Qed.

Lemma w_inserted :
  w_after w_2 [] = mkWorld (publish_insert w_hex "1" (jVersion w_job) (jComp w_job) (jFiles w_job) "u" 6 2 no_fault (st w_ready)).1
    10 (delete 0%nat (jobs w_ready)) [] [] [] 10 [] ∅.
Proof. vm_compute. reflexivity. Qed.

Lemma w_reachable : reachable initial w_step w_world.
Proof.
  eapply reach_step; [|apply (w_policy _ _ _ _ _ w_clients (w_after w_2 []) 2 _ "u" 7 3 no_fault); set_solver].
  assert (reachable initial w_step w_posted) as Hp.
  { apply run_job_reachable. eapply reach_step.
    2:{ apply (w_begin _ _ _ _ _ w_clients (w_after w_1 []) 0 "1" "1.0.0.9" w_form no_fault); vm_compute; reflexivity. }
    eapply reach_step; [|apply (w_create _ _ _ _ _ w_clients (w_after w_0 []) _ "u" 5 1 None); set_solver].
    apply reach_init. by exists 10. }
  rewrite w_posted_eq in Hp. eapply reach_step; [exact Hp|]. rewrite w_inserted.
  by apply (w_insert _ _ _ w_hex _ w_clients w_ready 0 w_job "1" "u" 6 2 no_fault).
Qed.

Definition w_get := GetComponentInstances (λ _, None) (λ _, inr "") (inl w_info) 10 10 Found w_3.
Definition w_list : list ComponentInstance := match w_get.2 with Instances l => l | _ => [] end.

Lemma w_get_eq : w_get = (w_get.1, Instances w_list).
Proof. vm_compute. reflexivity. Qed.

Lemma instances_intact_witness :
  w_list ≠ [] ∧ NoDup (iName <$> w_list) ∧ races w_world = [] ∧ refusals w_world = ∅.
Proof.
  split; [by vm_compute|]. split; [|split; reflexivity].
  exact (proj1 (instances_intact (λ _, None) id (λ _, inr "") w_hex "elkeid-agent" w_clients w_world (λ _, inr "")
    w_info 10 10 Found w_get.1 w_list eq_refl w_reachable w_get_eq)).
Defined.

Lemma release_withdrawn_witness :
  w_list ≠ [] ∧ Forall (λ i, ∃ p f, i = instance_of p f ∧ f ∈ Files (pVersion p) ∧
    (p ∈ pols w_3 ∨ ∃ t ps d, policiesCache w_3 = Some (t, ps) ∧ p ∈ ps ∧ (pID p, d) ∈ ([] : list (Z * Z)) ∧ 10 ≤ d ∧ 10 ≤ t ∧
      (10 < t + 60 ∨ failed Found)) ∧
    (AgentID w_info ≠ "" → ∀ r, r ∈ Rules p → ¬ blocks w_info r)) w_list.
Proof.
  split; [by vm_compute|]. apply Forall_forall.
  exact (release_withdrawn (λ _, None) id (λ _, inr "") w_hex "elkeid-agent" w_clients w_world (λ _, inr "")
    w_info 10 10 Found w_get.1 w_list eq_refl w_reachable w_get_eq).
Defined.

Definition w_pol : Policy := default (mkPolicy 0 (mkVersion 0 "" [] "" 0 (mkComponent 0 "" "" [] [] "" 0)) "" 0 "" []) (head (pols w_3)).


(** Two requests that publish the same version at the same time both pass the check and both
    upload: the version of the first is inserted with its digest, but the second's contents
    are served. *)
Definition race_comp : Component := mkComponent 1 "driver" "exec" ["x86_64"; "aarch64"] [] "u" 5.
Definition race_upload (content : string) (sv : store) : (list ComponentFile + (Z * string)) * store :=
  publish_files id (λ _, inr "") w_answer_ w_clients race_comp "1.0.0.0" (λ _, Uploaded 1 (inl content))
    (file_names race_comp) sv.
Definition race_files : list ComponentFile := match (race_upload "1" ∅).1 with inl l => l | inr _ => [] end.
Definition race_store : store := (race_upload "2" (race_upload "1" ∅).2).2.
Definition race_end : sys * response :=
  publish_insert w_hex "1" "1.0.0.0" race_comp race_files "u" 6 2 no_fault (set_served race_store w_1).

Lemma racing_publishes :
  publish_check w_hex "1" "1.0.0.0" no_fault w_1 = inl race_comp ∧ race_end.2 = Inserted 2 ∧
  ((λ v, SHA256 <$> Files v) <$> vers race_end.1) = [[hex_EncodeToString "1"; hex_EncodeToString "1"]] ∧
  served race_end.1 !! (0%nat, object race_comp "1.0.0.0" "x86_64") = Some "2".
Proof. split_and!; vm_compute; reflexivity. Qed.

(** A refused upload counts as done. *)
Lemma refused_upload_accepted i c o content st : PutObject i c o content (inl 403) st = (inl (getURL c o), st).
Proof. done. Qed.

(** Versions are compared as texts: the recommended version may be one that exists. *)
Lemma recommended_exists : recommend (last_string ["1.0.0.9"; "1.0.0.10"]) = inl "1.0.0.10".
Proof. vm_compute. reflexivity. Qed.

End Component.
