(* ===== verification/Bson.v ===== *)
(** * Documents and the document database

    Values of Go type [interface{}] as JSON and BSON carry them, documents
    ([map[string]interface{}], [bson.M]) and the requests the manager makes of MongoDB.
    The database itself is an interface: class [Mongo] states what its manual documents
    of the requests the manager uses; the theorems of the writers are proved against it. *)

From stdpp Require Import base tactics decidable list strings gmap pretty.
From Stdlib Require Import ZArith Lia Floats.SpecFloat.
From S2P Require Import Prelude GoStrings.
Local Open Scope nat_scope.
Local Open Scope string_scope.
Set Default Proof Using "Type".

(** ** Values *)

(** A JSON number decodes to a [float64]; integers appear where Go code stores them. *)
Inductive value :=
| VNull
| VBool (b : bool)
| VInt (z : Z)
| VFloat (f : spec_float)
| VStr (s : string)
| VArr (l : list value)
| VDoc (fields : list (string * value)).

#[export] Instance spec_float_eq_dec : EqDecision spec_float.
Proof. solve_decision. Defined.

#[export] Instance value_eq_dec : EqDecision value.
Proof.
  refine (fix go (v w : value) : Decision (v = w) := let _ : EqDecision value := @go in
    match v, w with
    | VNull, VNull => left eq_refl
    | VBool a, VBool b => cast_if (decide (a = b))
    | VInt a, VInt b => cast_if (decide (a = b))
    | VFloat a, VFloat b => cast_if (decide (a = b))
    | VStr a, VStr b => cast_if (decide (a = b))
    | VArr a, VArr b => cast_if (decide (a = b))
    | VDoc a, VDoc b => cast_if (decide (a = b))
    | _, _ => right _
    end); abstract congruence.
Defined.

(** [map[string]interface{}], [bson.M]. *)
Abbreviation doc := (gmap string value).

(** A document as a field of another one. *)
Definition VMap (d : doc) : value := VDoc (map_to_list d).

(** The type assertions [x.(string)] and [x.(float64)]. *)
Definition as_string (v : option value) : option string :=
  match v with Some (VStr s) => Some s | _ => None end.
Definition as_float (v : option value) : option spec_float :=
  match v with Some (VFloat f) => Some f | _ => None end.

(** [d[k]] for a field that is stored as it is: [nil] if absent. *)
Definition field (k : string) (d : doc) : value := default VNull (d !! k).

Definition VStrs (l : list string) : value := VArr (VStr <$> l).

(** [int64(f)]: truncation towards zero; the value of amd64 if the result is no int64. *)
Definition int64_of_float (f : spec_float) : Z :=
  let limit z := if decide (in_s 64 z) then z else (- 2 ^ 63)%Z in
  match f with
  | S754_zero _ => 0
  | S754_infinity _ | S754_nan => - 2 ^ 63
  | S754_finite s m e =>
      let a := if decide (0 ≤ e)%Z then (Z.pos m * 2 ^ e)%Z else (Z.pos m / 2 ^ (- e))%Z in
      limit (if s then - a else a)%Z
  end%Z.

(** ** Requests *)

Inductive write_model :=
| InsertOne (d : doc)
| UpdateOne (filter set setOnInsert : doc) (upsert : bool).

(** The conditions of the deletions and queries: equality with a value, [$ne], [$lte]. *)
Inductive cond := Equals (v : value) | Ne (v : value) | Lte (z : Z).

Inductive db_call :=
| BulkWrite (ws : list write_model)
| DeleteMany (conds : list (string * cond)).

(** The calls made of a collection, for a call that changes more than one. *)
Record db_op := mkOp { op_coll : string; op_call : db_call }.

(** A condition on a scalar holds of a field that is equal or an array with an equal
    element; a comparison with a number holds of numbers only; [$ne] also holds of a
    document without the field. *)
Definition equals (v w : value) : bool :=
  bool_decide (w = v) || match w with VArr l => bool_decide (v ∈ l) | _ => false end.

Definition holds (c : cond) (w : option value) : bool :=
  match c, w with
  | Equals v, Some w => equals v w
  | Equals v, None => bool_decide (v = VNull)
  | Ne v, Some w => negb (equals v w)
  | Ne v, None => bool_decide (v ≠ VNull)
  | Lte z, Some (VInt x) => bool_decide (x ≤ z)%Z
  | Lte _, _ => false
  end.

Definition matches (conds : list (string * cond)) (d : doc) : bool :=
  forallb (λ kc, holds kc.2 (d !! kc.1)) conds.

Definition conds_of (filter : doc) : list (string * cond) :=
  (λ kv, (kv.1, Equals kv.2)) <$> map_to_list filter.

(** ** The interface of a collection *)

(** [contents] are the documents of a collection, in no particular order.  The elements of
    an unordered bulk write are applied in some order the server chooses. *)
Class Mongo (C : Type) := {
  contents : C → list doc;
  apply_write : write_model → C → C;
  delete_many : list (string * cond) → C → C;
  insert_law : ∀ d c, contents (apply_write (InsertOne d) c) ≡ₚ d :: contents c;
  update_one_law : ∀ f set ins up c,
    (∃ d rest, matches (conds_of f) d = true ∧ contents c ≡ₚ d :: rest ∧
       contents (apply_write (UpdateOne f set ins up) c) ≡ₚ (set ∪ d) :: rest) ∨
    (Forall (λ d, matches (conds_of f) d = false) (contents c) ∧
       contents (apply_write (UpdateOne f set ins up) c) ≡ₚ
         (if up then (set ∪ ins ∪ f) :: contents c else contents c));
  delete_law : ∀ cs c, contents (delete_many cs c) ≡ₚ filter (λ d, matches cs d = false) (contents c);
}.

Definition bulk `{Mongo C} (ws : list write_model) (c : C) : C := foldl (λ c w, apply_write w c) c ws.

(** A call, with the order in which the server applies the elements of a bulk write. *)
Definition call_effect `{Mongo C} (call : db_call) (c c' : C) : Prop :=
  match call with
  | BulkWrite ws => ∃ ws', ws' ≡ₚ ws ∧ c' = bulk ws' c
  | DeleteMany cs => c' = delete_many cs c
  end.

Inductive calls_effect `{Mongo C} : list db_call → C → C → Prop :=
| calls_nil c : calls_effect [] c c
| calls_cons call calls c c1 c2 :
    call_effect call c c1 → calls_effect calls c1 c2 → calls_effect (call :: calls) c c2.

Section facts.
Context `{Mongo C}.

Lemma calls_effect_app xs ys (c c' : C) :
  calls_effect (xs ++ ys) c c' ↔ ∃ c1, calls_effect xs c c1 ∧ calls_effect ys c1 c'.
Proof.
  split.
  - revert c. induction xs as [|x xs IH]; intros c; simpl; [exists c; split; [constructor|done]|].
    inversion 1; subst. destruct (IH _ ltac:(done)) as (c2 & ? & ?). exists c2. split; [by econstructor|done].
  - intros (c1 & H1 & H2). induction H1; simpl; [done|]. econstructor; [done|auto].
Qed.

Lemma calls_effect_one call (c c' : C) : calls_effect [call] c c' ↔ call_effect call c c'.
Proof.
  split; [|intros; econstructor; [done|constructor]].
  inversion 1 as [|? ? ? c1 c2 He Hn]; subst. by inversion Hn; subst.
Qed.

(** One effect of a sequence of calls: every bulk write in the order of its elements. *)
Definition play (calls : list db_call) (c : C) : C :=
  foldl (λ c call, match call with BulkWrite ws => bulk ws c | DeleteMany cs => delete_many cs c end) c calls.

Lemma play_effect calls (c : C) : calls_effect calls c (play calls c).
Proof.
  revert c. induction calls as [|call calls IH]; intros c; [constructor|]. econstructor; [|apply IH].
  destruct call as [ws|cs]; [by exists ws|done].
Qed.

(** Inserting documents only adds them, in whatever order. *)
Lemma bulk_inserts (ds : list doc) (c : C) : contents (bulk (InsertOne <$> ds) c) ≡ₚ ds ++ contents c.
Proof.
  unfold bulk. revert c. induction ds as [|d ds IH]; intros c; simpl; [done|]. rewrite IH, insert_law. solve_Permutation.
Qed.

Lemma inserts_effect (ds : list doc) (c c' : C) :
  call_effect (BulkWrite (InsertOne <$> ds)) c c' → contents c' ≡ₚ ds ++ contents c.
Proof.
  intros (ws' & Hp & ->). apply Permutation_map_inv in Hp as (ds' & -> & Hp). change (map InsertOne ds') with (InsertOne <$> ds').
  by rewrite bulk_inserts, Hp.
Qed.

End facts.

(** ** A collection as a list *)

(** Replaces the first document that matches. *)
Fixpoint update_first (f : list (string * cond)) (set : doc) (l : list doc) : option (list doc) :=
  match l with
  | [] => None
  | d :: l => if matches f d then Some ((set ∪ d) :: l) else (d ::.) <$> update_first f set l
  end.

Definition list_write (w : write_model) (l : list doc) : list doc :=
  match w with
  | InsertOne d => d :: l
  | UpdateOne f set ins up =>
      default (if up then (set ∪ ins ∪ f) :: l else l) (update_first (conds_of f) set l)
  end.

Lemma update_first_spec f set l :
  match update_first f set l with
  | Some l' => ∃ d rest, matches f d = true ∧ l ≡ₚ d :: rest ∧ l' ≡ₚ (set ∪ d) :: rest
  | None => Forall (λ d, matches f d = false) l
  end.
Proof.
  induction l as [|d l IH]; simpl; [constructor|]. destruct (matches f d) eqn:E.
  - exists d, l. done.
  - destruct (update_first f set l) as [l'|]; simpl; [|by constructor].
    destruct IH as (d' & rest & Hm & H1 & H2). exists d', (d :: rest). split; [done|].
    rewrite H1, H2. split; apply perm_swap.
Qed.

#[export] Program Instance list_mongo : Mongo (list doc) := {|
  contents := λ l, l; apply_write := list_write;
  delete_many := λ cs l, filter (λ d, matches cs d = false) l |}.
Next Obligation. done. Qed.
Next Obligation.
  intros f set ins up c. simpl. pose proof (update_first_spec (conds_of f) set c) as H.
  destruct (update_first (conds_of f) set c) as [l'|]; simpl; [left|right; by destruct up].
  destruct H as (d & rest & ? & ? & ?). by exists d, rest.
Qed.
Next Obligation. done. Qed.
