(* ===== verification/WhiteList.v ===== *)
(** * Alarms and white lists

    Models [biz/common/filter.go], [internal/alarm_whitelist] and the handlers that add alarms
    ([biz/handler/v6/alarm.go], [rasp_alarm.go], [kube_sec.go]): queries made from filters,
    the white lists, the worker that applies their changes to the alarms, and the checker
    that looks at every new alarm and reports those that no white list matches.  Worker,
    checker and requests run side by side; a step is one operation on the database. *)

From stdpp Require Import base tactics decidable list strings gmap pretty functions.
From Stdlib Require Import ZArith Lia.
From S2P Require Import Prelude GoStrings ManagerAuth Bson.
Local Open Scope nat_scope.
Local Open Scope string_scope.
Local Open Scope go_scope.
Local Open Scope list_scope.
Set Default Proof Using "Type".

Module WhiteList.

(** ** Filters ([biz/common/filter.go]) *)

Record FilterRule := mkRule { Operator : string; Value : value }.
Record FilterContent := mkContent { Key : string; Rules : list FilterRule; Condition : string }.
Record FilterQuery := mkQuery { Filter : list FilterContent; qCondition : string }.

(** A query: a comparison of a field, a range of times, a combination, or [bson.M{}]. *)
Inductive query :=
| QField (key op : string) (v : value) (regex : bool)
| QRange (key : string) (gte lte : Z)
| QCond (cond : string) (l : list query)
| QAll.

Section filters.
(** [time.ParseInLocation] with the layout of the filters, as a Unix time; the zero time if
    the text does not parse. *)
Variable parse_time : string → Z.

(** The value under a key of a decoded object. *)
Definition entry (k dflt : string) (fields : list (string * value)) : outcome string :=
  match list_find (λ kv, kv.1 = k) fields with
  | None => Ret dflt
  | Some (_, (_, VStr s)) => Ret s
  | Some _ => Panic "interface conversion"
  end.

Definition transform_rule (key : string) (r : FilterRule) : outcome query :=
  if decide (Operator r = "$regex") then
    match Value r with
    | VStr s => Ret (QField key "$regex" (VStr s) true)
    | _ => Panic "interface conversion"
    end
  else if decide (Operator r = "$time") then
    match Value r with
    | VDoc fields =>
        let! start := entry "start" "1970-01-01 00:00" fields in
        let! end_ := entry "end" "9999-01-01 00:00" fields in
        Ret (QRange key (parse_time start) (parse_time end_))
    | _ => Panic "interface conversion"
    end
  else Ret (QField key (Operator r) (Value r) false).

Fixpoint transform_rules (key : string) (rs : list FilterRule) : outcome (list query) :=
  match rs with
  | [] => Ret []
  | r :: rs =>
      let! q := transform_rule key r in
      let! qs := transform_rules key rs in
      Ret (q :: qs)
  end.

Fixpoint transform_contents (cs : list FilterContent) : outcome (list query) :=
  match cs with
  | [] => Ret []
  | c :: cs =>
      if decide (Rules c = []) then transform_contents cs
      else
        let! part := transform_rules (Key c) (Rules c) in
        let! rest := transform_contents cs in
        Ret (QCond (Condition c) part :: rest)
  end.

Definition Transform (f : FilterQuery) : outcome query :=
  let! statement := transform_contents (Filter f) in
  if decide (statement = []) then Ret QAll else Ret (QCond (qCondition f) statement).

End filters.

(** What a query selects, as the manual of the database says; [holds] and [in_range] are its
    comparisons of a field with a value. *)
Section meaning.
Context (holds : string → string → value → doc → bool) (in_range : string → Z → Z → doc → bool).

Fixpoint selects (q : query) (d : doc) : bool :=
  match q with
  | QField key op v _ => holds key op v d
  | QRange key lo hi => in_range key lo hi d
  | QCond cond l =>
      if decide (cond = "$and") then forallb (λ q, selects q d) l
      else if decide (cond = "$or") then existsb (λ q, selects q d) l
      else if decide (cond = "$nor") then negb (existsb (λ q, selects q d) l)
      else false
  | QAll => true
  end.

End meaning.

(** ** Alarms *)

(** [AddOneAlarm]: what is written; [None] is the body [null], a nil map. *)
Definition AddOneAlarm (body : option doc) (now : Z) (xid : string) : outcome doc :=
  match body with
  | None => Panic "assignment to entry in nil map"
  | Some d =>
      let d := <["__alarm_status" := VInt 0]> d in
      let d := <["__update_time" := VInt now]> d in
      let d := <["__insert_time" := VInt now]> d in
      let d := <["__checked" := VBool false]> d in
      let d := <["__checker" := VStr ""]> d in
      let d := <["__hit_wl" := VBool false]> d in
      let d := <["__handler_user" := VStr ""]> d in
      Ret (<["alarm_id" := VStr xid]> d)
  end.

(** Where an alarm of a host goes: true for the collection of virus alarms. *)
Definition is_virus (VirusDetectionDataTypeList : list string) (d : doc) : bool :=
  match as_string (d !! "data_type") with
  | Some dt => bool_decide (dt ∈ VirusDetectionDataTypeList)
  | None => false
  end.

(** An alarm of the collection: its document and the fields that white lists change. *)
Record alarm := mkAlarm { aID : string; fields : doc; checked : bool; checker : string; hit : bool; wl : list Z }.

(** The alarm that is inserted for a document of [AddOneAlarm]. *)
Definition new_alarm (xid : string) (d : doc) : alarm := mkAlarm xid d false "" false [].

Definition mark_hit (v : Z) (a : alarm) : alarm :=
  mkAlarm (aID a) (fields a) (checked a) (checker a) true (if decide (v ∈ wl a) then wl a else wl a ++ [v]).
Definition set_unhit (a : alarm) : alarm := mkAlarm (aID a) (fields a) (checked a) (checker a) false (wl a).
Definition pull (v : Z) (a : alarm) : alarm :=
  mkAlarm (aID a) (fields a) (checked a) (checker a) (hit a) (filter (λ x, x ≠ v) (wl a)).
Definition unclaimed (a : alarm) : bool := negb (checked a) && bool_decide (checker a = "").
Definition claim (me : string) (a : alarm) : alarm :=
  if unclaimed a
  then mkAlarm (aID a) (fields a) (checked a) me (hit a) (wl a) else a.
Definition mine (me : string) (a : alarm) : bool := negb (checked a) && bool_decide (checker a = me).
Definition mark_checked (me : string) (a : alarm) : alarm :=
  if mine me a then mkAlarm (aID a) (fields a) true (checker a) (hit a) (wl a) else a.

(** ** White lists *)

Record white_list := mkWhite { wID : Z; wQuery : query }.

(** A message to the worker: [Hit] for a new white list, [Unhit] and [Pull] for a deleted
    one. *)
Inductive update := Hit (w : white_list) | Unhit (v : Z) | Pull (v : Z).

Section worker.
Context (match_ : query → doc → bool).

(** What [UpdateMany] makes of an alarm. *)
Definition apply (u : update) (a : alarm) : alarm :=
  match u with
  | Hit w => if match_ (wQuery w) (fields a) then mark_hit (wID w) a else a
  | Unhit v => if decide (wl a = [v]) then set_unhit a else a
  | Pull v => pull v a
  end.

(** The checker's update for one white list. *)
Definition check_one (me : string) (w : white_list) (a : alarm) : alarm :=
  if mine me a && match_ (wQuery w) (fields a) then mark_hit (wID w) a else a.

End worker.

(** The request that adds a white list. *)
Record WhiteListContent := mkWLC { MatchKey : string; MatchType : Z; MatchContent : string }.
Record WhiteListAddReq := mkAddReq {
  RangeType : Z; RangeIndex : string; rFilter : list WhiteListContent; Name : string; AlertType : string;
  RangeIndexType : option string; WhiteRuleName : option string; WhiteRuleDesc : option string }.

Definition WhitelistKeyDbFieldMap : list string :=
  ["argv"; "exe"; "md5_hash"; "ppid_argv"; "pgid_argv"; "socket_argv"; "sip"; "connect_info"; "pid_tree"; "ld_preload";
   "ko_file"; "module_name"; "run_path"; "top_chain"; "static_file"; "name"; "class"; "stack_trace_hash"; "stack_trace";
   "source_ip"; "user_agent"; "real_user_name"; "real_user_groups"; "verb"; "resource_namespace"; "resource_kind";
   "resource_name"; "images"; "read_write_mounts"; "read_only_mounts"; "exec_command"; "args_array"].

Definition WhitelistMatchTypeMap (t : Z) : option string :=
  if decide (t = 0)%Z then Some "$eq" else if decide (t = 1)%Z then Some "$regex" else None.

Definition WhitelistTypes : list string := ["hids"; "rasp"; "kube"; "virus"].

Definition GetWhiteListRuleNameFieldName (t : string) : string :=
  if decide (t = "rasp") then "rule_name" else "SMITH_ALERT_DATA.RULE_INFO.RuleName".

Definition eq_content (key v : string) : FilterContent := mkContent key [mkRule "$eq" (VStr v)] "$and".

(** The filters of the request; entries that are not understood are left out. *)
Definition match_content (keyPrefix : string) (k : WhiteListContent) : option FilterContent :=
  if decide (MatchContent k = "") then None
  else if decide (MatchKey k ∈ WhitelistKeyDbFieldMap) then
    let y := MatchKey k in
    let fy := if decide (keyPrefix = "node_list." ∧ y = "top_chain") then y else keyPrefix +:+ y in
    match WhitelistMatchTypeMap (MatchType k) with
    | Some t => Some (mkContent fy [mkRule t (VStr (MatchContent k))] "$and")
    | None => None
    end
  else None.

(** [WhiteListAddMultiWithCombine] up to the insertion: an error, nothing to do, or the
    filters of the new white list. *)
Definition add_filters (whitelistType : string) (r : WhiteListAddReq) : option (list FilterContent) + string :=
  if decide (RangeType r = 1%Z ∧ RangeIndex r = "") then inr "empty asset id for single range"
  else if decide (rFilter r = []) then inl None
  else if decide (Name r = "") then inr "empty data type"
  else
    match WhiteRuleName r with
    | None => inr "empty white rule name"
    | Some _ =>
        let keyPrefix := if decide (AlertType r = "killchain") then "node_list." else "" in
        let range := if decide (RangeType r = 1%Z)
          then [eq_content (if decide (RangeIndexType r = Some "cluster") then "cluster_id" else "agent_id") (RangeIndex r)]
          else [] in
        if decide (whitelistType ∈ WhitelistTypes) then
          inl (Some (range ++ [eq_content (GetWhiteListRuleNameFieldName whitelistType) (Name r)] ++
                     omap (match_content keyPrefix) (rFilter r)))
        else inr "Unkown whitelist type"
    end.

(** The white list that is inserted: its filters are combined by [$and]. *)
Definition white_of (parse_time : string → Z) (id : Z) (fs : list FilterContent) : outcome white_list :=
  let! q := Transform parse_time (mkQuery fs "$and") in Ret (mkWhite id q).

(** [WhiteListDelMulti]: the ids that are deleted, and the messages to the worker. *)
Definition del_ids (from_hex : string → option Z) (idList : list string) : list Z := omap from_hex idList.
Definition del_updates (ids : list Z) : list update := concat ((λ v, [Unhit v; Pull v]) <$> ids).

(** ** The system *)

(** The round of a checker between two operations on the database. *)
Inductive phase := Idle | Claimed | Applying (rem : list white_list) | Notified.

(** The collections of alarms and white lists, which all managers share, and of every
    manager, by the name its checker uses, the messages in the channel of its worker and the
    round of its checker; [requests] are the handlers that run, with the messages they still
    have to send to the worker of their manager.  The other fields only record what has
    happened: the white lists that were ever added, the ids that have been used, the alarms
    that were handed to the outputs, those that were looked at and left out, those that a
    checker could not mark after that, and the lists that could not be applied. *)
Record sys := mkSys {
  alarms : list alarm; whites : list white_list; requests : list (string * list update);
  queue : string → list update; ph : string → phase;
  added : list white_list; used : list Z; reported : list string; suppressed : list string;
  redo : list string; failed : list Z }.

Definition set_alarms (l : list alarm) (s : sys) : sys :=
  mkSys l (whites s) (requests s) (queue s) (ph s) (added s) (used s) (reported s) (suppressed s) (redo s) (failed s).
Definition set_ph (m : string) (p : phase) (s : sys) : sys :=
  mkSys (alarms s) (whites s) (requests s) (queue s) (<[m := p]> (ph s)) (added s) (used s) (reported s) (suppressed s) (redo s) (failed s).

(** [InsertOne] of a new white list; the message to the worker is still to be sent. *)
Definition insert_white (m : string) (w : white_list) (s : sys) : sys :=
  mkSys (alarms s) (whites s ++ [w]) (requests s ++ [(m, [Hit w])]) (queue s) (ph s)
    (added s ++ [w]) (wID w :: used s) (reported s) (suppressed s) (redo s) (failed s).

(** [DeleteMany]; the messages to the worker are still to be sent. *)
Definition delete_whites (m : string) (ids : list Z) (s : sys) : sys :=
  mkSys (alarms s) (filter (λ w, wID w ∉ ids) (whites s)) (requests s ++ [(m, del_updates ids)]) (queue s) (ph s)
    (added s) (ids ++ used s) (reported s) (suppressed s) (redo s) (failed s).

(** A handler sends a message to the worker. *)
Definition send (rs : list (string * list update)) (m : string) (u : update) (s : sys) : sys :=
  mkSys (alarms s) (whites s) rs (<[m := queue s m ++ [u]]> (queue s)) (ph s)
    (added s) (used s) (reported s) (suppressed s) (redo s) (failed s).

(** [UpdateMany]: every alarm of the collection is updated; if it fails, some of them. *)
Definition update_many (f : alarm → alarm) (ok : bool) : list alarm → list alarm → Prop :=
  Forall2 (λ a a', a' = f a ∨ ok = false ∧ a' = a).

(** The lists that a message was to put on alarms. *)
Definition hits_of (u : update) : list Z := match u with Hit w => [wID w] | _ => [] end.

(** The worker takes a message and applies it. *)
Definition worked (m : string) (u : update) (q : list update) (ok : bool) (l : list alarm) (s : sys) : sys :=
  mkSys l (whites s) (requests s) (<[m := q]> (queue s)) (ph s) (added s) (used s) (reported s) (suppressed s) (redo s)
    (if ok then failed s else hits_of u ++ failed s).

(** The checker applies a list it has loaded. *)
Definition applied (m : string) (w : white_list) (rem : list white_list) (ok : bool) (l : list alarm) (s : sys) : sys :=
  mkSys l (whites s) (requests s) (queue s) (<[m := Applying rem]> (ph s)) (added s) (used s) (reported s) (suppressed s) (redo s)
    (if ok then failed s else wID w :: failed s).

(** The checker hands the alarms of its round that are not hit to the outputs. *)
Definition notified (m : string) (s : sys) : sys :=
  mkSys (alarms s) (whites s) (requests s) (queue s) (<[m := Notified]> (ph s)) (added s) (used s)
    (reported s ++ (aID <$> filter (λ a, mine m a = true ∧ hit a = false) (alarms s)))
    (suppressed s ++ (aID <$> filter (λ a, mine m a = true ∧ hit a = true) (alarms s))) (redo s) (failed s).

(** The checker marks the alarms of its round. *)
Definition marked (m : string) (ok : bool) (l : list alarm) (s : sys) : sys :=
  mkSys l (whites s) (requests s) (queue s) (<[m := Idle]> (ph s)) (added s) (used s) (reported s) (suppressed s)
    (if ok then redo s else redo s ++ (aID <$> filter (λ a, mine m a = true) l)) (failed s).

(** The name of a manager's checker. *)
Definition checker_name (LocalIP HttpPort : string) : string := LocalIP +:+ ":" +:+ HttpPort.

Section system.
Context (match_ : query → doc → bool).

(** One operation on the database or on a channel, of a handler, a worker or a checker of
    any manager.  Ids of new documents are fresh.  A round of a checker ends at once when an
    operation fails, except that lists that could not be applied are only logged, as is an
    error of the last operation; a tick without the lock does nothing. *)
Inductive step : sys → sys → Prop :=
| s_alarm s xid d :
    xid ∉ aID <$> alarms s → step s (set_alarms (alarms s ++ [new_alarm xid d]) s)
| s_add s m id q :
    id ∉ used s → step s (insert_white m (mkWhite id q) s)
| s_delete s m ids :
    step s (delete_whites m ids s)
| s_send s m u us l1 l2 :
    requests s = l1 ++ (m, u :: us) :: l2 → (length (queue s m) < 1024)%nat → step s (send (l1 ++ (m, us) :: l2) m u s)
| s_worker s m u q ok l :
    queue s m = u :: q → update_many (apply match_ u) ok (alarms s) l → step s (worked m u q ok l s)
| s_claim s ip port ok l :
    let m := checker_name ip port in
    ph s m = Idle → update_many (claim m) ok (alarms s) l →
    step s (set_ph m (if ok && existsb unclaimed (alarms s) then Claimed else Idle) (set_alarms l s))
| s_load s m (ok : bool) :
    ph s m = Claimed → step s (set_ph m (if ok then Applying (whites s) else Idle) s)
| s_check s m w rem ok l :
    ph s m = Applying (w :: rem) → update_many (check_one match_ m w) ok (alarms s) l → step s (applied m w rem ok l s)
| s_notify s m (ok : bool) :
    ph s m = Applying [] → step s (if ok then notified m s else set_ph m Idle s)
| s_mark s m ok l :
    ph s m = Notified → update_many (mark_checked m) ok (alarms s) l → step s (marked m ok l s).

Definition initial (s : sys) : Prop := s = mkSys [] [] [] (λ _, []) (λ _, Idle) [] [] [] [] [] [].

(** ** The invariant *)

Definition pending (s : sys) (u : update) : Prop :=
  (∃ m, u ∈ queue s m) ∨ (∃ r, r ∈ requests s ∧ u ∈ r.2).

(** The list may still be applied to the alarm by a checker. *)
Definition missing (s : sys) (a : alarm) (w : white_list) : Prop :=
  checked a = false ∧ match ph s (checker a) with Applying rem => w ∈ rem | Notified => False | _ => True end.

(** The alarm need not be on the list (yet). *)
Definition excused (s : sys) (a : alarm) (w : white_list) : Prop :=
  wID w ∈ failed s ∨ pending s (Hit w) ∨ missing s a w.

Record alarm_ok (s : sys) (a : alarm) : Prop := mkAok {
  ok_src : ∀ v, v ∈ wl a → ∃ w, w ∈ added s ∧ wID w = v ∧ match_ (wQuery w) (fields a) = true;
  ok_hit : hit a = true → ∃ w, w ∈ added s ∧ match_ (wQuery w) (fields a) = true;
  ok_keep : ∀ w, w ∈ whites s → wID w ∈ wl a → hit a = true;
  ok_all : ∀ w, w ∈ whites s → match_ (wQuery w) (fields a) = true → wID w ∈ wl a ∨ excused s a w }.

Record book (s : sys) : Prop := mkBook {
  bk_whites : ∀ w, w ∈ whites s → w ∈ added s;
  bk_used : ∀ w, w ∈ added s → wID w ∈ used s;
  bk_pending : ∀ u, pending s u → match u with
    | Hit w => w ∈ added s
    | Unhit v | Pull v => v ∈ used s ∧ v ∉ wID <$> whites s end;
  bk_rem : ∀ m rem w, ph s m = Applying rem → w ∈ rem → w ∈ added s;
  bk_none : ph s "" = Idle }.

Definition inv (s : sys) : Prop := book s ∧ ∀ a, a ∈ alarms s → alarm_ok s a.

(** *** One alarm *)

Lemma elem_of_mark_hit v x a : x ∈ wl (mark_hit v a) ↔ x ∈ wl a ∨ x = v.
Proof. simpl. case_decide; [|rewrite elem_of_app, list_elem_of_singleton; done]. split; [by left|by intros [?| ->]]. Qed.

(** What updates of white lists look at and change. *)
Definition view (a : alarm) : doc * bool * list Z := (fields a, hit a, wl a).

Lemma view_claim m a : view (claim m a) = view a.
Proof. unfold claim. by destruct (unclaimed a). Qed.
Lemma view_mark m a : view (mark_checked m a) = view a.
Proof. unfold mark_checked. by destruct (mine m a). Qed.

Lemma alarm_ok_mono s s' a a' :
  view a' = view a → (∀ w, w ∈ added s → w ∈ added s') →
  (∀ w, w ∈ whites s' → w ∈ whites s ∨ wID w ∉ wl a) →
  (∀ w, w ∈ whites s' → match_ (wQuery w) (fields a) = true → wID w ∉ wl a → (w ∈ whites s → excused s a w) → excused s' a' w) →
  alarm_ok s a → alarm_ok s' a'.
Proof.
  destruct a as [i f c k h l], a' as [i' f' c' k' h' l']. unfold view. cbn [fields hit wl]. intros [= -> -> ->] Hadd Hwh Hex [H1 H2 H3 H4].
  cbn [fields hit wl] in *. split; cbn [fields hit wl].
  - intros v Hv. destruct (H1 v Hv) as (w & ? & ? & ?). eauto.
  - intros Hh. destruct (H2 Hh) as (w & ? & ?). eauto.
  - intros w Hw Hin. destruct (Hwh w Hw) as [?|?]; [eauto|done].
  - intros w Hw Hm. destruct (decide (wID w ∈ l)) as [?|Hn]; [by left|right]. apply Hex; [done|done|done|].
    intros Hin. by destruct (H4 w Hin Hm).
Qed.

Lemma alarm_ok_mark s a w :
  w ∈ added s → match_ (wQuery w) (fields a) = true → alarm_ok s a → alarm_ok s (mark_hit (wID w) a).
Proof.
  intros Hw Hm [H1 H2 H3 H4]. split.
  - intros v [Hv| ->]%elem_of_mark_hit; [by apply H1|by exists w].
  - intros _. by exists w.
  - done.
  - intros w' Hw' Hm'. destruct (H4 w' Hw' Hm') as [Hin|Hex]; [left; apply elem_of_mark_hit; by left|right].
    exact Hex.
Qed.

Lemma alarm_ok_unhit s a v : v ∉ wID <$> whites s → alarm_ok s a → alarm_ok s (apply match_ (Unhit v) a).
Proof.
  intros Hv [H1 H2 H3 H4]. simpl. case_decide as Hwl; [|by split]. split; [done|done| |done].
  intros w Hw Hin. simpl in Hin. rewrite Hwl in Hin. apply list_elem_of_singleton in Hin as <-.
  exfalso. by apply Hv, list_elem_of_fmap_2.
Qed.

Lemma alarm_ok_pull s a v : v ∉ wID <$> whites s → alarm_ok s a → alarm_ok s (apply match_ (Pull v) a).
Proof.
  intros Hv [H1 H2 H3 H4]. split.
  - intros x [_ Hx]%list_elem_of_filter. by apply H1.
  - done.
  - intros w Hw [_ Hin]%list_elem_of_filter. by eapply H3.
  - intros w Hw Hm. destruct (H4 w Hw Hm) as [Hin|?]; [left|by right]. apply list_elem_of_filter. split; [|done].
    intros <-. by apply Hv, list_elem_of_fmap_2.
Qed.

Lemma alarm_ok_apply s a u : book s → pending s u → alarm_ok s a → alarm_ok s (apply match_ u a).
Proof.
  intros Hb Hp%(bk_pending s Hb). destruct u as [w|v|v]; [|apply alarm_ok_unhit, Hp|apply alarm_ok_pull, Hp].
  simpl. destruct (match_ _ _) eqn:Hm; [by apply alarm_ok_mark|done].
Qed.

Lemma update_many_elem f ok l l' a' :
  update_many f ok l l' → a' ∈ l' → ∃ a, a ∈ l ∧ (a' = f a ∨ ok = false ∧ a' = a).
Proof.
  intros Hu Ha'. apply list_elem_of_lookup in Ha' as [i Hi].
  destruct (Forall2_lookup_r _ _ _ _ _ Hu Hi) as (a & Ha & H). exists a. split; [by eapply list_elem_of_lookup_2|done].
Qed.

(** *** Steps *)

Lemma inv_alarm s xid d : inv s → inv (set_alarms (alarms s ++ [new_alarm xid d]) s).
Proof.
  intros [Hb Ha]. split; [by destruct Hb|]. intros a [Hin| ->%list_elem_of_singleton]%elem_of_app.
  - by destruct (Ha a Hin).
  - split; simpl; [by intros v ?%elem_of_nil|done|by intros w _ ?%elem_of_nil|]. intros w _ _. right. right. right.
    split; [done|]. simpl. by rewrite (bk_none s Hb).
Qed.

Lemma inv_add s m id q : id ∉ used s → inv s → inv (insert_white m (mkWhite id q) s).
Proof.
  intros Hid [Hb Ha]. set (w0 := mkWhite id q). assert (∀ u, pending s u → pending (insert_white m w0 s) u) as Hp.
  { intros u [?|(r & ? & ?)]; [by left|right]. exists r. split; [|done]. apply elem_of_app. by left. }
  split.
  - destruct Hb as [B1 B2 B3 B4 B5]. split; simpl; [| | | |done].
    + intros w [Hw| ->%list_elem_of_singleton]%elem_of_app; apply elem_of_app; [left; by apply B1|right; left].
    + intros w [Hw| ->%list_elem_of_singleton]%elem_of_app; [right; by apply B2|left].
    + assert (∀ v, v ∈ used s ∧ v ∉ wID <$> whites s → v ∈ id :: used s ∧ v ∉ wID <$> whites s ++ [w0]) as Hv.
      { intros v [Hu Hn]. split; [by right|]. rewrite fmap_app. intros [?|E%list_elem_of_singleton]%elem_of_app; [done|].
        simpl in E. by subst. }
      intros u [[m' Hu]|(r & [Hr| ->%list_elem_of_singleton]%elem_of_app & Hu)].
      * assert (pending s u) as H%B3 by (left; by exists m'). destruct u; [apply elem_of_app; by left|by apply Hv..].
      * assert (pending s u) as H%B3 by (right; by exists r). destruct u; [apply elem_of_app; by left|by apply Hv..].
      * apply list_elem_of_singleton in Hu as ->. apply elem_of_app. right. left.
    + intros m' rem w Hph Hw. apply elem_of_app. left. by eapply B4.
  - intros a Hin. specialize (Ha a Hin). apply (alarm_ok_mono s _ a); [done| | | |done].
    + intros w Hw. apply elem_of_app. by left.
    + intros w [?| ->%list_elem_of_singleton]%elem_of_app; [by left|right]. intros (w & Hw & E & _)%(ok_src s a Ha).
      apply Hid. simpl in E. rewrite <- E. by apply (bk_used s Hb).
    + intros w [Hw| ->%list_elem_of_singleton]%elem_of_app _ _ Hex.
      * destruct (Hex Hw) as [?|[?|?]]; [by left|right; left; by apply Hp|by right; right].
      * right. left. right. exists (m, [Hit w0]). split; [apply elem_of_app; right; left|left].
Qed.

Lemma inv_deleted s m ids : inv s → inv (delete_whites m ids s).
Proof.
  intros [Hb Ha]. assert (∀ v, v ∉ wID <$> whites s → v ∉ wID <$> filter (λ w, wID w ∉ ids) (whites s)) as Hsub.
  { intros v Hv (w & -> & [_ Hw]%list_elem_of_filter)%list_elem_of_fmap. by apply Hv, list_elem_of_fmap_2. }
  split.
  - destruct Hb as [B1 B2 B3 B4 B5]. split; simpl; [| | | |done].
    + intros w [_ Hw]%list_elem_of_filter. by apply B1.
    + intros w Hw. apply elem_of_app. right. by apply B2.
    + intros u [[m' Hu]|(r & [Hr| ->%list_elem_of_singleton]%elem_of_app & Hu)].
      * assert (pending s u) as H%B3 by (left; by exists m').
        destruct u; [done|..]; (destruct H; split; [apply elem_of_app; by right|by apply Hsub]).
      * assert (pending s u) as H%B3 by (right; by exists r).
        destruct u; [done|..]; (destruct H; split; [apply elem_of_app; by right|by apply Hsub]).
      * unfold del_updates in Hu. apply list_elem_of_In, in_concat in Hu as (l & Hl & Hu).
        apply list_elem_of_In in Hl, Hu. apply list_elem_of_fmap in Hl as (v & -> & Hv).
        assert (v ∈ ids ++ used s ∧ v ∉ wID <$> filter (λ w, wID w ∉ ids) (whites s)).
        { split; [apply elem_of_app; by left|]. by intros (w & -> & [? _]%list_elem_of_filter)%list_elem_of_fmap. }
        rewrite !elem_of_cons, elem_of_nil in Hu. by destruct Hu as [->|[->|[]]].
    + intros m' rem w Hph Hw. by eapply B4.
  - intros a Hin. apply (alarm_ok_mono s _ a); [done|done| | |by apply Ha].
    + intros w [_ Hw]%list_elem_of_filter. by left.
    + intros w [_ Hw]%list_elem_of_filter _ _ Hex. destruct (Hex Hw) as [?|[[?|(r & ? & ?)]|?]]; [by left| |
        |by right; right]; right; left; [by left|right]. exists r. split; [|done]. apply elem_of_app. by left.
Qed.

Lemma pending_send s m u us l1 l2 x :
  requests s = l1 ++ (m, u :: us) :: l2 → pending (send (l1 ++ (m, us) :: l2) m u s) x ↔ pending s x.
Proof.
  intros Hr. unfold pending. simpl. rewrite Hr. split.
  - intros [[m' Hx]|(r & Hin & Hx)].
    + destruct (decide (m' = m)) as [->|Hne]; [|left; exists m'; by rewrite fn_lookup_insert_ne in Hx].
      rewrite fn_lookup_insert in Hx. apply elem_of_app in Hx as [?| ->%list_elem_of_singleton]; [left; by exists m|right].
      exists (m, u :: us). split; [|left]. apply elem_of_app. right. left.
    + right. apply elem_of_app in Hin as [?|[->|?]%elem_of_cons].
      * exists r. split; [apply elem_of_app; by left|done].
      * exists (m, u :: us). split; [apply elem_of_app; right; left|by right].
      * exists r. split; [apply elem_of_app; right; by right|done].
  - intros [[m' Hx]|(r & Hin & Hx)].
    + left. exists m'. destruct (decide (m' = m)) as [->|Hne]; [|by rewrite fn_lookup_insert_ne].
      rewrite fn_lookup_insert. apply elem_of_app. by left.
    + apply elem_of_app in Hin as [?|[->|?]%elem_of_cons].
      * right. exists r. split; [apply elem_of_app; by left|done].
      * simpl in Hx. apply elem_of_cons in Hx as [->|Hx].
        -- left. exists m. rewrite fn_lookup_insert. apply elem_of_app. right. left.
        -- right. exists (m, us). split; [apply elem_of_app; right; left|done].
      * right. exists r. split; [apply elem_of_app; right; by right|done].
Qed.

Lemma inv_send s m u us l1 l2 :
  requests s = l1 ++ (m, u :: us) :: l2 → inv s → inv (send (l1 ++ (m, us) :: l2) m u s).
Proof.
  intros Hr [Hb Ha]. assert (∀ x, pending (send (l1 ++ (m, us) :: l2) m u s) x ↔ pending s x) as Hp.
  { intros x. by apply pending_send. }
  split.
  - destruct Hb as [B1 B2 B3 B4 B5]. split; [done..| |done|done]. intros x Hx%Hp. by apply B3.
  - intros a Hin. apply (alarm_ok_mono s _ a); [done|done|by left| |by apply Ha].
    intros w Hw _ _ Hex. destruct (Hex Hw) as [?|[?|?]]; [by left|right; left; by apply Hp|by right; right].
Qed.

Lemma inv_worker s m u q ok l :
  queue s m = u :: q → update_many (apply match_ u) ok (alarms s) l → inv s → inv (worked m u q ok l s).
Proof.
  intros Hq Hu [Hb Ha]. assert (pending s u) as Hpu by (left; exists m; rewrite Hq; left).
  assert (∀ x, pending (worked m u q ok l s) x → pending s x) as Hp.
  { intros x [[m' Hx]|?]; [|by right]. left. exists m'. simpl in Hx. destruct (decide (m' = m)) as [->|Hne].
    - rewrite fn_lookup_insert in Hx. rewrite Hq. by right.
    - by rewrite fn_lookup_insert_ne in Hx. }
  assert (∀ x, pending s x → x = u ∨ pending (worked m u q ok l s) x) as Hp'.
  { intros x [[m' Hx]|?]; [|by right; right]. destruct (decide (m' = m)) as [->|Hne].
    - rewrite Hq in Hx. apply elem_of_cons in Hx as [->|Hx]; [by left|]. right. left. exists m. simpl. by rewrite fn_lookup_insert.
    - right. left. exists m'. simpl. by rewrite fn_lookup_insert_ne. }
  split.
  - destruct Hb as [B1 B2 B3 B4 B5]. split; [done..| |done|done]. intros x Hx%Hp. by apply B3.
  - intros a' Hin'. destruct (update_many_elem _ _ _ _ _ Hu Hin') as (a & Hin & Hcase). specialize (Ha a Hin).
    assert (alarm_ok s a') as Ha' by (destruct Hcase as [->|[_ ->]]; [by apply alarm_ok_apply|done]).
    apply (alarm_ok_mono s _ a'); [done|done|by left| |done].
    intros w Hw Hm Hnw Hex. destruct (Hex Hw) as [Hf|[Hpe|Hmi]]; [|apply Hp' in Hpe as [<-|?]|by right; right].
    + left. simpl. destruct ok; [done|]. apply elem_of_app. by right.
    + destruct Hcase as [->|[-> ->]]; [|left; left]. exfalso. simpl in Hm, Hnw.
      destruct (match_ (wQuery w) (fields a)) eqn:E; [|congruence]. by apply Hnw, elem_of_mark_hit; right.
    + right. by left.
Qed.

(** Steps of a checker that change neither the hits nor the lists of alarms. *)
Lemma inv_round s s' (g : alarm → alarm) ok :
  whites s' = whites s → requests s' = requests s → queue s' = queue s → added s' = added s → used s' = used s → failed s' = failed s →
  update_many g ok (alarms s) (alarms s') → (∀ a, view (g a) = view a) → ph s' "" = Idle →
  (∀ m rem w, ph s' m = Applying rem → w ∈ rem → w ∈ added s) →
  (∀ a a' w, a ∈ alarms s → w ∈ whites s → a' = g a ∨ a' = a ∧ ok = false → missing s a w → missing s' a' w) →
  inv s → inv s'.
Proof.
  intros Ew Er Eq Ea Eu Ef Hu Hg H0 Hrem Hmi [Hb Ha].
  assert (∀ x, pending s' x ↔ pending s x) as Hp by (intros x; unfold pending; by rewrite Er, Eq).
  split.
  - destruct Hb as [B1 B2 B3 B4 B5]. split; rewrite ?Ew, ?Ea, ?Eu; try done. intros u Hu'%Hp. by apply B3.
  - intros a' Hin'. destruct (update_many_elem _ _ _ _ _ Hu Hin') as (a & Hin & Hcase).
    apply (alarm_ok_mono s _ a); [|by rewrite Ea|rewrite Ew; by left| |by apply Ha].
    { destruct Hcase as [->|[_ ->]]; [apply Hg|done]. }
    rewrite Ew. intros w Hw _ _ Hex. destruct (Hex Hw) as [?|[?|?]]; [left; by rewrite Ef|right; left; by apply Hp|].
    right. right. eapply Hmi; [done..| |done]. destruct Hcase as [?|[? ?]]; [by left|by right].
Qed.

Lemma checker_name_ne ip port : checker_name ip port ≠ "".
Proof. unfold checker_name. by destruct ip. Qed.

Lemma inv_claim s ip port ok l :
  let m := checker_name ip port in
  ph s m = Idle → update_many (claim m) ok (alarms s) l → inv s →
  inv (set_ph m (if ok && existsb unclaimed (alarms s) then Claimed else Idle) (set_alarms l s)).
Proof.
  intros m Hph Hu Hi. pose proof Hi as [Hb _]. set (p := if ok && _ then Claimed else Idle).
  assert (p = Idle ∨ p = Claimed) as Hpp by (subst p; destruct (ok && _); auto).
  apply (inv_round s _ (claim m) ok); try done; simpl.
  - intros a. apply view_claim.
  - rewrite fn_lookup_insert_ne by apply checker_name_ne. apply (bk_none s Hb).
  - intros m' rem w. destruct (decide (m' = m)) as [->|Hne].
    + rewrite fn_lookup_insert. by destruct Hpp as [->| ->].
    + rewrite fn_lookup_insert_ne by done. apply (bk_rem s Hb).
  - intros a a' w _ _ Hcase [Hc Hm].
    assert (checked a' = false ∧ (checker a' = checker a ∨ checker a' = m)) as [Hc' Hk].
    { destruct Hcase as [->|[-> _]]; [|auto]. unfold claim. destruct (unclaimed a); simpl; auto. }
    split; [done|]. simpl. destruct (decide (checker a' = m)) as [->|Hne].
    + rewrite fn_lookup_insert. by destruct Hpp as [->| ->].
    + rewrite fn_lookup_insert_ne by done. destruct Hk as [->|?]; done.
Qed.

(** Steps of a checker that change no alarm. *)
Lemma inv_phase s s' m p :
  whites s' = whites s → requests s' = requests s → queue s' = queue s → added s' = added s → used s' = used s → failed s' = failed s →
  alarms s' = alarms s → ph s' = <[m := p]> (ph s) → ph s m ≠ Idle →
  (∀ rem w, p = Applying rem → w ∈ rem → w ∈ added s) →
  (∀ w, w ∈ whites s → match ph s m with Applying rem => w ∈ rem | Notified => False | _ => True end →
    match p with Applying rem => w ∈ rem | Notified => False | _ => True end) →
  inv s → inv s'.
Proof.
  intros Ew Er Eq Ea Eu Ef El Ep Hm Hrem Hmi Hi. pose proof Hi as [Hb _].
  apply (inv_round s s' id true); try done.
  - rewrite El. apply Forall2_same_length_lookup_2; [done|]. intros i a a' H1 H2. left. simpl. congruence.
  - rewrite Ep. rewrite fn_lookup_insert_ne; [apply (bk_none s Hb)|]. intros ->. by rewrite (bk_none s Hb) in Hm.
  - intros m' rem w. rewrite Ep. destruct (decide (m' = m)) as [->|Hne]; [rewrite fn_lookup_insert; apply Hrem|].
    rewrite fn_lookup_insert_ne by done. apply (bk_rem s Hb).
  - intros a a' w _ Hw [->|[_ ?]] [Hc Hs]; [|done]. split; [done|]. simpl. rewrite Ep.
    destruct (decide (checker a = m)) as [E|Hne]; [|by rewrite fn_lookup_insert_ne].
    rewrite E, fn_lookup_insert. apply Hmi; [done|]. by rewrite E in Hs.
Qed.

Lemma inv_check s m w rem ok l :
  ph s m = Applying (w :: rem) → update_many (check_one match_ m w) ok (alarms s) l → inv s → inv (applied m w rem ok l s).
Proof.
  intros Hph Hu [Hb Ha]. assert (w ∈ added s) as Hwa by (eapply (bk_rem s Hb); [done|left]).
  assert (∀ x, pending (applied m w rem ok l s) x ↔ pending s x) as Hp by done. split.
  - destruct Hb as [B1 B2 B3 B4 B5]. split; [done..| |]; simpl.
    + intros m' rem' w'. destruct (decide (m' = m)) as [->|Hne].
      * rewrite fn_lookup_insert. intros [= <-] Hw'. eapply B4; [done|by right].
      * rewrite fn_lookup_insert_ne by done. apply B4.
    + rewrite fn_lookup_insert_ne; [done|]. intros ->. congruence.
  - intros a' Hin'. destruct (update_many_elem _ _ _ _ _ Hu Hin') as (a & Hin & Hcase). specialize (Ha a Hin).
    assert (alarm_ok s a' ∧ checked a' = checked a ∧ checker a' = checker a ∧ fields a' = fields a) as (Ha' & Hc & Hk & Hf).
    { destruct Hcase as [->|[_ ->]]; [|done]. unfold check_one. destruct (mine m a && _) eqn:E; [|done].
      apply andb_true_iff in E as [_ E]. split; [by apply alarm_ok_mark|done]. }
    apply (alarm_ok_mono s _ a'); [done|done|by left| |done].
    intros w' Hw' Hm Hnw Hex. destruct (Hex Hw') as [?|[?|[Hch Hph']]]; [left|by right; left|].
    { simpl. destruct ok; [done|by right]. }
    destruct (decide (checker a' = m)) as [E|Hne]; [|right; right; split; [done|]; simpl; by rewrite fn_lookup_insert_ne].
    rewrite E, Hph in Hph'. apply elem_of_cons in Hph' as [->|Hr].
    + destruct Hcase as [->|[-> ->]]; [|left; left]. exfalso. apply Hnw. rewrite Hf in Hm. unfold check_one, mine.
      rewrite <- Hc, Hch, <- Hk, bool_decide_eq_true_2, Hm by done. simpl. apply elem_of_mark_hit. by right.
    + right. right. split; [done|]. simpl. by rewrite E, fn_lookup_insert.
Qed.

Lemma inv_mark s m ok l :
  ph s m = Notified → update_many (mark_checked m) ok (alarms s) l → inv s → inv (marked m ok l s).
Proof.
  intros Hph Hu Hi. pose proof Hi as [Hb _]. apply (inv_round s _ (mark_checked m) ok); try done; simpl.
  - intros a. apply view_mark.
  - rewrite fn_lookup_insert_ne; [apply (bk_none s Hb)|]. intros ->. by rewrite (bk_none s Hb) in Hph.
  - intros m' rem w. destruct (decide (m' = m)) as [->|Hne]; [by rewrite fn_lookup_insert|].
    rewrite fn_lookup_insert_ne by done. apply (bk_rem s Hb).
  - intros a a' w _ _ Hcase [Hc Hm]. destruct (decide (checker a = m)) as [E|Hne]; [rewrite E, Hph in Hm; done|].
    assert (a' = a) as ->.
    { destruct Hcase as [->|[-> _]]; [|done]. unfold mark_checked, mine. by rewrite bool_decide_eq_false_2, andb_false_r. }
    split; [done|]. simpl. by rewrite fn_lookup_insert_ne.
Qed.

Lemma inv_step s s' : inv s → step s s' → inv s'.
Proof.
  intros Hi. inversion 1; subst.
  - by apply inv_alarm.
  - by apply inv_add.
  - by apply inv_deleted.
  - by apply inv_send.
  - by apply inv_worker.
  - by apply inv_claim.
  - apply (inv_phase s _ m (if ok then Applying (whites s) else Idle)); try done; [congruence| |by destruct ok].
    intros rem w E Hw. destruct ok; [|done]. injection E as <-. by apply Hi.
  - by apply inv_check.
  - match goal with Hp : ph s m = _ |- _ => destruct ok;
      [apply (inv_phase s _ m Notified)|apply (inv_phase s _ m Idle)]; try done; try congruence; rewrite Hp end.
    by intros w _ ?%elem_of_nil.
  - by eapply inv_mark.
Qed.

Lemma inv_always s : reachable initial step s → inv s.
Proof.
  intros Hr. eapply (reachable_invariant initial step inv); [..|exact Hr].
  - intros s0 ->. split; [|by intros a ?%elem_of_nil]. split; simpl; try done; try (by intros w ?%elem_of_nil).
    intros u [[m Hu]|(r & Hr' & _)]; [by apply elem_of_nil in Hu|by apply elem_of_nil in Hr'].
  - intros s0 s1 H0 Hst. by eapply inv_step.
Qed.

(** What a step hands to the outputs. *)
Lemma reported_by s s' new x :
  step s s' → reported s' = reported s ++ new → x ∈ new →
  ∃ m a, a ∈ alarms s ∧ aID a = x ∧ ph s m = Applying [] ∧ mine m a = true ∧ hit a = false.
Proof.
  intros Hst. assert (∀ new, reported s = reported s ++ new → new = []) as Hnil.
  { intros n E. apply (f_equal length) in E. rewrite length_app in E. destruct n; [done|simpl in E; lia]. }
  destruct Hst; simpl; intros Hrep Hx; try (apply Hnil in Hrep; subst; by apply elem_of_nil in Hx).
  destruct ok; simpl in Hrep; [|apply Hnil in Hrep; subst; by apply elem_of_nil in Hx].
  apply app_inv_head in Hrep as <-. apply list_elem_of_fmap in Hx as (a & -> & [[? ?] ?]%list_elem_of_filter). by exists m, a.
Qed.

(** [C25] White lists take effect, in every interleaving of alarms that come, lists that are added
    and deleted, and the workers and checkers of any number of managers, with operations of
    the database that may fail at any point: an alarm counts as hit only if a list that was
    added matches it; an alarm that has been checked counts as hit if a list in force
    matches it, its message to the worker has been worked off and no operation that should
    have applied it failed; and an alarm is handed to the outputs only if every list in
    force that matches it failed to be applied, or was added meanwhile (its message to the
    worker is on its way). *)
Theorem lists_take_effect s :
  reachable initial step s →
  (∀ a, a ∈ alarms s → hit a = true → ∃ w, w ∈ added s ∧ match_ (wQuery w) (fields a) = true) ∧
  (∀ a w, a ∈ alarms s → checked a = true → w ∈ whites s → match_ (wQuery w) (fields a) = true →
    wID w ∉ failed s → ¬ pending s (Hit w) → hit a = true) ∧
  (∀ s' new x, step s s' → reported s' = reported s ++ new → x ∈ new →
    ∃ a, a ∈ alarms s ∧ aID a = x ∧
      ∀ w, w ∈ whites s → match_ (wQuery w) (fields a) = true → wID w ∈ failed s ∨ pending s (Hit w)).
Proof.
  intros Hr. destruct (inv_always s Hr) as [_ Ha]. split_and!.
  - intros a Hin. apply (ok_hit s a (Ha a Hin)).
  - intros a w Hin Hc Hw Hm Hf Hp. destruct (Ha a Hin) as [_ _ Hk Hall].
    destruct (Hall w Hw Hm) as [?|[?|[?|[? _]]]]; [by eapply Hk|done|done|congruence].
  - intros s' new x Hst Hrep Hx. destruct (reported_by s s' new x Hst Hrep Hx) as (m & a & Hin & <- & Hph & Hmine & Hh).
    exists a. split_and!; [done|done|]. intros w Hw Hm. destruct (Ha a Hin) as [_ _ Hk Hall].
    destruct (Hall w Hw Hm) as [Hin'|[?|[?|[_ Hmi]]]]; [|by left|by right|].
    + rewrite (Hk w Hw Hin') in Hh. done.
    + unfold mine in Hmine. apply andb_true_iff in Hmine as [_ Hc%bool_decide_eq_true]. rewrite Hc, Hph in Hmi. by apply elem_of_nil in Hmi.
Qed.

(** ** Reports *)

(** An alarm that has been looked at. *)
Definition seen (p : string → phase) (a : alarm) : bool :=
  checked a || match p (checker a) with Notified => true | _ => false end.

(** Two lists of alarms that are the same but for what has been looked at. *)
Lemma split_perm (f g h : alarm → bool) l l' :
  Forall2 (λ a a', aID a' = aID a ∧ f a = g a' || h a' ∧ g a' && h a' = false) l l' →
  aID <$> filter (λ a, f a = true) l ≡ₚ (aID <$> filter (λ a, h a = true) l') ++ (aID <$> filter (λ a, g a = true) l').
Proof.
  induction 1 as [|a a' l l' (Hid & Hf & Hgh) _ IH]; [done|]. rewrite !filter_cons, Hf.
  destruct (g a'), (h a'); [done|..]; simpl; rewrite ?Hid; [|by f_equiv|done]. rewrite IH. by rewrite Permutation_middle.
Qed.

Lemma same_perm (f g : alarm → bool) l l' :
  Forall2 (λ a a', aID a' = aID a ∧ f a = g a') l l' →
  aID <$> filter (λ a, f a = true) l ≡ₚ aID <$> filter (λ a, g a = true) l'.
Proof.
  intros Hf. rewrite (split_perm f g (λ _, false) l l').
  - rewrite (filter_none (λ _, false = true)); [done|]. by intros a _.
  - eapply Forall2_impl; [exact Hf|]. intros a a' [? ->]. by rewrite orb_false_r, andb_false_r.
Qed.

Record reports (s : sys) : Prop := mkReports {
  rep_ids : NoDup (aID <$> alarms s);
  rep_seen : reported s ++ suppressed s ≡ₚ redo s ++ (aID <$> filter (λ a, seen (ph s) a = true) (alarms s));
  rep_none : ph s "" = Idle;
  rep_supp : ∀ x, x ∈ suppressed s → ∃ a w, a ∈ alarms s ∧ aID a = x ∧ w ∈ added s ∧ match_ (wQuery w) (fields a) = true }.

(** Alarms stay, with their ids and documents. *)
Definition same (a a' : alarm) : Prop := aID a' = aID a ∧ fields a' = fields a.

Lemma same_ids l l' : Forall2 same l l' → aID <$> l' = aID <$> l.
Proof. induction 1 as [|a a' l l' [E _] _ IH]; [done|]. rewrite !fmap_cons. by f_equal. Qed.

Lemma update_many_same f ok l l' : (∀ a, same a (f a)) → update_many f ok l l' → Forall2 same l l'.
Proof. intros Hf Hu. eapply Forall2_impl; [exact Hu|]. intros a a' [->|[_ ->]]; [apply Hf|done]. Qed.

(** A step that reports nothing: what has been looked at stays or is to be done again. *)
Lemma reports_update s s' (again : alarm → bool) :
  reported s' = reported s → suppressed s' = suppressed s →
  redo s' = redo s ++ (aID <$> filter (λ a, again a = true) (alarms s')) →
  added s ⊆ added s' → ph s' "" = Idle →
  Forall2 (λ a a', same a a' ∧ seen (ph s) a = seen (ph s') a' || again a' ∧ seen (ph s') a' && again a' = false) (alarms s) (alarms s') →
  reports s → reports s'.
Proof.
  intros Er Es Ed Ea H0 Hf [R1 R2 R3 R4]. assert (Forall2 same (alarms s) (alarms s')) as Hsame.
  { eapply Forall2_impl; [exact Hf|]. by intros a a' [? _]. }
  split; rewrite ?Er, ?Es, ?Ed; [by rewrite (same_ids _ _ Hsame)| |done|].
  - rewrite R2, <- app_assoc. f_equiv. apply split_perm. eapply Forall2_impl; [exact Hf|]. by intros a a' [[? _] ?].
  - intros x Hx. destruct (R4 x Hx) as (a & w & Hin & Hid & Hw & Hm). apply list_elem_of_lookup in Hin as [i Hi].
    destruct (Forall2_lookup_l _ _ _ _ _ Hsame Hi) as (a' & Hi' & E1 & E2). exists a', w.
    split_and!; [by eapply list_elem_of_lookup_2|congruence|by apply Ea|by rewrite E2].
Qed.

Lemma reports_keep s s' :
  reported s' = reported s → suppressed s' = suppressed s → redo s' = redo s → added s ⊆ added s' → ph s' "" = Idle →
  Forall2 (λ a a', same a a' ∧ seen (ph s) a = seen (ph s') a') (alarms s) (alarms s') → reports s → reports s'.
Proof.
  intros Er Es Ed Ea H0 Hf. apply (reports_update s s' (λ _, false)); try done.
  - rewrite Ed, filter_none; [by rewrite app_nil_r|]. by intros a _.
  - eapply Forall2_impl; [exact Hf|]. intros a a' [? ->]. by rewrite orb_false_r, andb_false_r.
Qed.

Lemma Forall2_diag {A} (R : A → A → Prop) l : (∀ a, R a a) → Forall2 R l l.
Proof. intros Hr. induction l; by constructor. Qed.

Lemma apply_static u a :
  same a (apply match_ u a) ∧ checked (apply match_ u a) = checked a ∧ checker (apply match_ u a) = checker a.
Proof. destruct u; simpl; [by destruct (match_ _ _)|by case_decide|done]. Qed.

Lemma check_static m w a :
  same a (check_one match_ m w a) ∧ checked (check_one match_ m w a) = checked a ∧ checker (check_one match_ m w a) = checker a.
Proof. unfold check_one. by destruct (mine m a && _). Qed.

Lemma filter_split (me : string) (l : list alarm) :
  (aID <$> filter (λ a, mine me a = true ∧ hit a = false) l) ++ (aID <$> filter (λ a, mine me a = true ∧ hit a = true) l)
    ≡ₚ aID <$> filter (λ a, mine me a = true) l.
Proof.
  rewrite <- fmap_app. apply fmap_Permutation. induction l as [|a l IH]; [done|].
  destruct (mine me a) eqn:Hm; [destruct (hit a) eqn:Hh|].
  - rewrite filter_cons_False by (intros [_ ?]; congruence). rewrite (filter_cons_True (λ a, mine me a = true ∧ hit a = true)) by done.
    rewrite (filter_cons_True (λ a, mine me a = true)) by done. by rewrite <- Permutation_middle, IH.
  - rewrite filter_cons_True by done. rewrite filter_cons_False by (intros [_ ?]; congruence).
    rewrite (filter_cons_True (λ a, mine me a = true)) by done. by rewrite <- app_comm_cons, IH.
  - by rewrite !filter_cons_False by (congruence || (intros [? _]; congruence)).
Qed.

(** A checker's phase changes, and none of the phases counts as having looked. *)
Lemma seen_phase s m p a :
  ph s m ≠ Notified → p ≠ Notified → seen (<[m := p]> (ph s)) a = seen (ph s) a.
Proof.
  intros H1 H2. unfold seen. f_equal. destruct (decide (checker a = m)) as [->|Hne].
  - rewrite fn_lookup_insert. by destruct p, (ph s m).
  - by rewrite fn_lookup_insert_ne.
Qed.

Lemma none_insert s m p : ph s "" = Idle → ph s m ≠ Idle → <[m := p]> (ph s) "" = Idle.
Proof. intros H0 Hm. rewrite fn_lookup_insert_ne; [done|]. by intros ->. Qed.

Lemma reports_notified s m : ph s m = Applying [] → inv s → reports s → reports (notified m s).
Proof.
  intros Hph [_ Ha] [R1 R2 R3 R4]. split; simpl; [done| |by apply none_insert; [|rewrite Hph]|].
  - rewrite (split_perm (seen (<[m:=Notified]> (ph s))) (seen (ph s)) (mine m) (alarms s) (alarms s)).
    + assert ((aID <$> filter (λ a, mine m a = true ∧ hit a = false) (alarms s)) ++ (aID <$> filter (λ a, mine m a = true ∧ hit a = true) (alarms s))
        ≡ₚ aID <$> filter (λ a, mine m a = true) (alarms s)) as <- by apply filter_split.
      rewrite (Permutation_app_comm _ (aID <$> filter (λ a, seen (ph s) a = true) (alarms s))), (app_assoc (redo s)), <- R2. solve_Permutation.
    + apply Forall2_diag. intros a. split; [done|]. unfold seen, mine. destruct (decide (checker a = m)) as [->|Hne].
      * rewrite fn_lookup_insert, Hph, bool_decide_eq_true_2 by done. by destruct (checked a).
      * rewrite fn_lookup_insert_ne, bool_decide_eq_false_2, andb_false_r, orb_false_r, andb_false_r by done. done.
  - intros x [Hx|(a & -> & [[_ Hh] Hin]%list_elem_of_filter)%list_elem_of_fmap]%elem_of_app; [by apply R4|].
    destruct (ok_hit s a (Ha a Hin) Hh) as (w & ? & ?). by exists a, w.
Qed.

Lemma marked_all m l l' : update_many (mark_checked m) true l l' → filter (λ a, mine m a = true) l' = [].
Proof.
  intros Hu. apply filter_none. intros a' Hin Hm. destruct (update_many_elem _ _ _ _ _ Hu Hin) as (a & _ & [->|[? _]]); [|done].
  unfold mark_checked in Hm. destruct (mine m a) eqn:E; [done|congruence].
Qed.

Lemma reports_marked s m ok l :
  ph s m = Notified → update_many (mark_checked m) ok (alarms s) l → reports s → reports (marked m ok l s).
Proof.
  intros Hph Hu Hr. apply (reports_update s _ (mine m)); try done; simpl.
  - destruct ok; [|done]. by rewrite (marked_all _ _ _ Hu), app_nil_r.
  - apply none_insert; [apply Hr|by rewrite Hph].
  - eapply Forall2_impl; [exact Hu|]. intros a a' Hcase. destruct (decide (checker a = m)) as [E|Hne].
    + destruct Hcase as [->|[_ ->]]; unfold mark_checked, seen, mine; rewrite E, Hph, ?bool_decide_eq_true_2, ?andb_true_r by done.
      * destruct (checked a) eqn:Hc; simpl; rewrite ?Hc, ?E, ?fn_lookup_insert, ?bool_decide_eq_true_2 by done; done.
      * rewrite fn_lookup_insert. by destruct (checked a).
    + assert (mine m a = false) as Hm by (unfold mine; by rewrite bool_decide_eq_false_2, andb_false_r).
      assert (a' = a) as -> by (destruct Hcase as [->|[_ ->]]; [unfold mark_checked; by rewrite Hm|done]).
      rewrite Hm, orb_false_r, andb_false_r. split; [done|]. split; [|done]. unfold seen. by rewrite fn_lookup_insert_ne.
Qed.

Lemma reports_claim s ip port ok l p :
  let m := checker_name ip port in
  ph s m = Idle → p ≠ Notified → update_many (claim m) ok (alarms s) l → reports s → reports (set_ph m p (set_alarms l s)).
Proof.
  intros m Hph Hp Hu Hr. apply (reports_keep s); try done; simpl.
  - rewrite fn_lookup_insert_ne by apply checker_name_ne. apply Hr.
  - eapply Forall2_impl; [exact Hu|]. intros a a' Hcase. rewrite seen_phase; [|by rewrite Hph|done].
    destruct Hcase as [->|[_ ->]]; [|done]. unfold claim. destruct (unclaimed a) eqn:E; [|done]. split; [done|].
    unfold unclaimed in E. apply andb_true_iff in E as [E1%negb_true_iff E2%bool_decide_eq_true]. unfold seen. simpl.
    by rewrite E1, E2, Hph, (rep_none s Hr).
Qed.

Lemma reports_alarm s xid d :
  xid ∉ aID <$> alarms s → reports s → reports (set_alarms (alarms s ++ [new_alarm xid d]) s).
Proof.
  intros Hx [R1 R2 R3 R4]. split; simpl; [| |done|].
  - rewrite fmap_app. apply NoDup_app. split_and!; [done| |apply NoDup_singleton]. intros y Hy E.
    apply list_elem_of_singleton in E as ->. done.
  - rewrite filter_app, (filter_cons_False _ (new_alarm xid d)), filter_nil, app_nil_r; [done|].
    unfold seen. simpl. by rewrite R3.
  - intros y Hy. destruct (R4 y Hy) as (a & w & ? & ?). exists a, w. split; [apply elem_of_app; by left|done].
Qed.

Lemma reports_step s s' : inv s → reports s → step s s' → reports s'.
Proof.
  intros Hi Hr. inversion 1; subst.
  - by apply reports_alarm.
  - apply (reports_keep s); try done; [intros w Hw; apply elem_of_app; by left|apply Hr|by apply Forall2_diag].
  - apply (reports_keep s); try done; [apply Hr|by apply Forall2_diag].
  - apply (reports_keep s); try done; [apply Hr|by apply Forall2_diag].
  - apply (reports_keep s); try done; [apply Hr|]. eapply Forall2_impl; [eassumption|].
    intros a a' [->|[_ ->]]; [|done]. destruct (apply_static u a) as (? & Hc & Hk). split; [done|]. unfold seen. by rewrite Hc, Hk.
  - eapply reports_claim; try done. by destruct (ok && _).
  - apply (reports_keep s); try done; simpl; [apply none_insert; [apply Hr|congruence]|].
    apply Forall2_diag. intros a. split; [done|]. rewrite seen_phase; [done|congruence|by destruct ok].
  - apply (reports_keep s); try done; simpl; [apply none_insert; [apply Hr|congruence]|].
    eapply Forall2_impl; [eassumption|]. intros a a' Hcase. rewrite seen_phase by congruence.
    destruct Hcase as [->|[_ ->]]; [|done]. destruct (check_static m w a) as (? & Hc & Hk). split; [done|]. unfold seen. by rewrite Hc, Hk.
  - destruct ok; [by apply reports_notified|]. apply (reports_keep s); try done; simpl; [apply none_insert; [apply Hr|congruence]|].
    apply Forall2_diag. intros a. split; [done|]. by rewrite seen_phase by congruence.
  - by apply reports_marked.
Qed.


(** ** Deletions *)

(** An alarm after some messages. *)
Definition final (q : list update) (a : alarm) : alarm := foldl (λ a u, apply match_ u a) a q.

(** The alarm is on no other list than the live ones that match it, and hit if on any. *)
Definition exact (live : white_list → Prop) (a : alarm) : Prop :=
  (∀ v, v ∈ wl a → ∃ w, live w ∧ wID w = v ∧ match_ (wQuery w) (fields a) = true) ∧ (hit a = true ↔ wl a ≠ []).

Lemma NoDup_apply u a : NoDup (wl a) → NoDup (wl (apply match_ u a)).
Proof.
  intros Hnd. destruct u as [w|v|v]; simpl.
  - destruct (match_ _ _); [|done]. simpl. case_decide; [done|]. apply NoDup_app.
    split_and!; [done|set_solver|apply NoDup_singleton].
  - by case_decide.
  - by apply NoDup_filter.
Qed.

Lemma exact_delete live v a :
  NoDup (wl a) → exact live a → exact (λ w, live w ∧ wID w ≠ v) (apply match_ (Pull v) (apply match_ (Unhit v) a)).
Proof.
  intros Hnd [H1 H2]. split.
  - intros x Hx. assert (x ∈ wl a ∧ x ≠ v) as [Hin Hne].
    { simpl in Hx. apply list_elem_of_filter in Hx as [? Hx]. split; [|done]. by case_decide. }
    destruct (H1 x Hin) as (w & ? & Hid & Hm). exists w. split_and!; [done|congruence|done|].
    simpl. by case_decide.
  - cbn [apply]. case_decide as Hw; simpl.
    + rewrite Hw. rewrite filter_cons_False by (by intros ?). done.
    + split; [|intros Hne; apply H2; intros E; by rewrite E in Hne]. intros Hh%H2.
      destruct (wl a) as [|x l]; [done|]. apply NoDup_cons in Hnd as [Hx _].
      destruct (decide (x = v)) as [->|Hxv]; [|by rewrite filter_cons_True].
      rewrite filter_cons_False by (by intros ?). destruct l as [|y l]; [done|].
      rewrite filter_cons_True; [done|]. intros ->. apply Hx. left.
Qed.

Lemma exact_iff (live live' : white_list → Prop) a : (∀ w, live w → live' w) → exact live a → exact live' a.
Proof. intros Hl [H1 H2]. split; [|done]. intros v Hv. destruct (H1 v Hv) as (w & ? & ? & ?). exists w. auto. Qed.

(** A deletion whose messages the worker gets in a row: the alarm is then on the lists that
    are left, and hit if there are any. *)
Lemma exact_deletes live ids a :
  NoDup (wl a) → exact live a → exact (λ w, live w ∧ wID w ∉ ids) (final (del_updates ids) a).
Proof.
  revert live a. induction ids as [|v ids IH]; intros live a Hnd Ha.
  - eapply exact_iff; [|exact Ha]. intros w Hw. split; [done|]. apply not_elem_of_nil.
  - change (final (del_updates (v :: ids)) a)
      with (final (del_updates ids) (apply match_ (Pull v) (apply match_ (Unhit v) a))).
    eapply exact_iff; [|apply IH; [by apply NoDup_apply, NoDup_apply|by apply exact_delete]].
    intros w [[Hw Hv] Hids]. split; [done|]. by apply not_elem_of_cons.
Qed.

End system.

(** ** What a white list matches *)

Section lists.
Context (parse_time : string → Z) (holds : string → string → value → doc → bool) (in_range : string → Z → Z → doc → bool).

(** The filters the requests make: one comparison with a text. *)
Definition simple (c : FilterContent) (op v : string) : Prop :=
  Rules c = [mkRule op (VStr v)] ∧ Condition c = "$and" ∧ op ∈ ["$eq"; "$regex"].

Lemma transform_simple fs :
  Forall (λ c, ∃ op v, simple c op v) fs →
  ∃ qs, transform_contents parse_time fs = Ret qs ∧ List.length qs = List.length fs ∧
    ∀ d, forallb (λ q, selects holds in_range q d) qs = true ↔
      ∀ c op v, c ∈ fs → simple c op v → holds (Key c) op (VStr v) d = true.
Proof.
  induction 1 as [|c fs (op & v & Hc) Hfs (qs & Hq & Hl & Hsel)].
  { exists []. split_and!; [done|done|]. intros d. split; [by intros _ c op v ?%elem_of_nil|done]. }
  destruct c as [key rules cond]. destruct Hc as (Hr & Hcd & Hop). simpl in Hr, Hcd. subst rules cond.
  assert (∃ b, transform_rule parse_time key (mkRule op (VStr v)) = Ret (QField key op (VStr v) b)) as [b Hrule].
  { rewrite !elem_of_cons, elem_of_nil in Hop. destruct Hop as [->|[->|[]]]; by eexists. }
  exists (QCond "$and" [QField key op (VStr v) b] :: qs). split_and!; [|simpl; by rewrite Hl|].
  - cbn [transform_contents Rules Key Condition]. rewrite decide_False by done. cbn [transform_rules].
    rewrite Hrule. cbn [obind]. by rewrite Hq.
  - intros d. cbn [forallb]. rewrite andb_true_iff, Hsel. cbn [selects]. rewrite decide_True by done. cbn [forallb].
    rewrite andb_true_r. split.
    + intros [H1 H2] c op' v' [->|Hc]%elem_of_cons; [|by apply H2]. intros (E & _ & _). simpl in E. injection E as <- <-. done.
    + intros H. split; [|intros c op' v' Hc Hs; apply H; [by right|done]].
      apply (H (mkContent key [mkRule op (VStr v)] "$and")); [left|done].
Qed.

Lemma match_content_simple pre k c :
  match_content pre k = Some c → ∃ op, simple c op (MatchContent k) ∧ WhitelistMatchTypeMap (MatchType k) = Some op.
Proof.
  clear. unfold match_content. case_decide; [done|]. case_decide; [|done].
  destruct (WhitelistMatchTypeMap (MatchType k)) as [op|] eqn:Hop; [|done]. intros [= <-]. exists op. split; [|done].
  split_and!; [done|done|]. unfold WhitelistMatchTypeMap in Hop. repeat case_decide; simplify_eq; [left|right; left].
Qed.

(** A white list matches what its request asks for: the alarms of the rule it names, on the
    host or cluster it is limited to, for which every comparison that was understood
    holds. *)
Theorem white_list_meaning t r fs id :
  add_filters t r = inl (Some fs) →
  ∃ w, white_of parse_time id fs = Ret w ∧ wID w = id ∧
    ∀ d, selects holds in_range (wQuery w) d = true ↔
      (RangeType r = 1%Z →
        holds (if decide (RangeIndexType r = Some "cluster") then "cluster_id" else "agent_id") "$eq" (VStr (RangeIndex r)) d = true) ∧
      holds (GetWhiteListRuleNameFieldName t) "$eq" (VStr (Name r)) d = true ∧
      (∀ k c op, k ∈ rFilter r →
        match_content (if decide (AlertType r = "killchain") then "node_list." else "") k = Some c →
        WhitelistMatchTypeMap (MatchType k) = Some op → holds (Key c) op (VStr (MatchContent k)) d = true).
Proof.
  unfold add_filters. case_decide; [done|]. case_decide; [done|]. case_decide; [done|].
  destruct (WhiteRuleName r); [|done]. case_decide; [|done]. intros [= <-].
  set (pre := if decide (AlertType r = "killchain") then "node_list." else "").
  set (range := if decide (RangeType r = 1%Z) then _ else []).
  set (fs := range ++ _).
  assert (∀ key v, simple (eq_content key v) "$eq" v) as Heq by (intros; split_and!; [done|done|left]).
  assert (Forall (λ c, ∃ op v, simple c op v) fs) as Hfs.
  { subst fs range. apply Forall_app. split.
    - case_decide; [|constructor]. apply Forall_singleton. eauto.
    - apply Forall_cons. split; [eauto|]. apply Forall_forall. intros c (k & _ & Hk)%list_elem_of_omap.
      apply match_content_simple in Hk as (op & ? & _). eauto. }
  destruct (transform_simple fs Hfs) as (qs & Hqs & Hl & Hsel).
  assert (qs ≠ []) as Hne by (intros ->; subst fs; rewrite length_app in Hl; simpl in Hl; lia).
  exists (mkWhite id (QCond "$and" qs)). split_and!; [|done|].
  { unfold white_of, Transform. cbn [Filter]. rewrite Hqs. cbn [obind]. by rewrite decide_False. }
  intros d. cbn [wQuery selects]. rewrite decide_True by done. rewrite Hsel. subst fs. split.
  - intros Hall. split_and!.
    + intros Ht. eapply (Hall (eq_content (if decide (RangeIndexType r = Some "cluster") then "cluster_id" else "agent_id")
        (RangeIndex r))); [|apply Heq]. apply elem_of_app. left. subst range.
      rewrite (decide_True (P := RangeType r = 1%Z)) by done. left.
    + apply (Hall (eq_content (GetWhiteListRuleNameFieldName t) (Name r))); [|apply Heq]. apply elem_of_app. right. left.
    + intros k c op Hk Hc Hop. destruct (match_content_simple _ _ _ Hc) as (op' & Hs & Hop').
      assert (op' = op) as -> by congruence. apply (Hall c); [|done]. apply elem_of_app. right. right.
      apply list_elem_of_omap. by exists k.
  - intros (Hrange & Hname & Hents) c op v Hc Hs. apply elem_of_app in Hc as [Hc|Hc].
    + subst range. case_decide; [|by apply elem_of_nil in Hc]. apply list_elem_of_singleton in Hc as ->.
      destruct Hs as (E & _). simpl in E. injection E as <- <-. by apply Hrange.
    + apply elem_of_cons in Hc as [->|Hc]; [destruct Hs as (E & _); simpl in E; injection E as <- <-; done|].
      apply list_elem_of_omap in Hc as (k & Hk & Hc). destruct (match_content_simple _ _ _ Hc) as (op' & Hs' & Hop').
      destruct Hs as (E & _), Hs' as (E' & _). rewrite E in E'. injection E' as -> ->. by apply (Hents k).
Qed.

End lists.

(** ** Instances and limits *)

Definition w_match (q : query) (d : doc) : bool :=
  selects (λ k _ v d, bool_decide (d !! k = Some v)) (λ _ _ _ _, false) q d.
Definition w_doc : doc := {["agent_id" := VStr "h"; "SMITH_ALERT_DATA.RULE_INFO.RuleName" := VStr "r"; "exe" := VStr "/bin/x"]}.
Definition w_req (k : WhiteListContent) : WhiteListAddReq := mkAddReq 1 "h" [k] "r" "" None (Some "n") None.

Lemma white_list_meaning_witness :
  ∃ w, white_of (λ _, 0%Z) 7 [eq_content "agent_id" "h"; eq_content "SMITH_ALERT_DATA.RULE_INFO.RuleName" "r";
      eq_content "exe" "/bin/x"] = Ret w ∧ w_match (wQuery w) w_doc = true.
Proof.
  destruct (white_list_meaning (λ _, 0%Z) (λ k _ v d, bool_decide (d !! k = Some v)) (λ _ _ _ _, false) "hids"
    (w_req (mkWLC "exe" 0 "/bin/x")) _ 7 eq_refl) as (w & Hw & _ & Hsel).
  exists w. split; [exact Hw|]. apply Hsel. split_and!; [reflexivity|reflexivity|].
  intros k c op Hk Hc Hop. apply list_elem_of_singleton in Hk as ->. vm_compute in Hc, Hop. injection Hc as <-.
  injection Hop as <-. reflexivity.
Defined.

Definition w_white : white_list := mkWhite 7 (QField "exe" "$eq" (VStr "/bin/x") false).
Definition w_me : string := checker_name "10.0.0.1" "6701".

(** A list is added and its message worked off; two alarms come, and a round of the checker
    reports the one that the list does not match. *)
Definition w0 : sys := mkSys [] [] [] (λ _, []) (λ _, Idle) [] [] [] [] [] [].
Definition w1 : sys := insert_white w_me w_white w0.
Definition w2 : sys := send [(w_me, [])] w_me (Hit w_white) w1.
Definition w3 : sys := worked w_me (Hit w_white) [] true [] w2.
Definition w4 : sys := set_alarms (alarms w3 ++ [new_alarm "a1" w_doc]) w3.
Definition w5 : sys := set_alarms (alarms w4 ++ [new_alarm "a2" ∅]) w4.
Definition w6 : sys := set_ph w_me Claimed (set_alarms (claim w_me <$> alarms w5) w5).
Definition w7 : sys := set_ph w_me (Applying (whites w6)) w6.
Definition w8 : sys := applied w_me w_white [] true (check_one w_match w_me w_white <$> alarms w7) w7.
Definition w9 : sys := notified w_me w8.
Definition w10 : sys := marked w_me true (mark_checked w_me <$> alarms w9) w9.

Lemma update_all f l : update_many f true l (f <$> l).
Proof. induction l; constructor; [by left|done]. Qed.

Lemma w8_reachable : reachable initial (step w_match) w8.
Proof.
  assert (reachable initial (step w_match) w0) as H0 by (by apply reach_init).
  assert (reachable initial (step w_match) w1) as H1 by (eapply reach_step; [exact H0|]; apply s_add; apply not_elem_of_nil).
  assert (reachable initial (step w_match) w2) as H2.
  { eapply reach_step; [exact H1|]. apply (s_send w_match w1 w_me (Hit w_white) [] [] []); [reflexivity|]. vm_compute. lia. }
  assert (reachable initial (step w_match) w3) as H3.
  { eapply reach_step; [exact H2|]. apply (s_worker w_match w2 w_me (Hit w_white) [] true []); [vm_compute; reflexivity|constructor]. }
  assert (reachable initial (step w_match) w4) as H4 by (eapply reach_step; [exact H3|]; apply s_alarm; apply not_elem_of_nil).
  assert (reachable initial (step w_match) w5) as H5.
  { eapply reach_step; [exact H4|]. apply s_alarm. apply (bool_decide_unpack _). by vm_compute. }
  assert (reachable initial (step w_match) w6) as H6.
  { eapply reach_step; [exact H5|]. apply (s_claim w_match w5 "10.0.0.1" "6701" true (claim w_me <$> alarms w5)); [reflexivity|apply update_all]. }
  assert (reachable initial (step w_match) w7) as H7.
  { eapply reach_step; [exact H6|]. apply (s_load w_match w6 w_me true). vm_compute. reflexivity. }
  eapply reach_step; [exact H7|]. apply (s_check w_match w7 w_me w_white [] true); [vm_compute; reflexivity|apply update_all].
Qed.

Lemma w9_step : step w_match w8 w9.
Proof. apply (s_notify w_match w8 w_me true). vm_compute. reflexivity. Qed.

Lemma w10_reachable : reachable initial (step w_match) w10.
Proof.
  eapply reach_step; [eapply reach_step; [exact w8_reachable|exact w9_step]|].
  apply (s_mark w_match w9 w_me true); [vm_compute; reflexivity|apply update_all].
Qed.

Lemma lists_take_effect_witness :
  (∃ a, a ∈ alarms w10 ∧ aID a = "a1" ∧ checked a = true ∧ hit a = true) ∧
  (∃ a, a ∈ alarms w8 ∧ aID a = "a2" ∧
    ∀ w, w ∈ whites w8 → w_match (wQuery w) (fields a) = true → wID w ∈ failed w8 ∨ pending w8 (Hit w)).
Proof.
  split.
  - destruct (lists_take_effect w_match w10 w10_reachable) as (_ & Hc & _).
    exists (mkAlarm "a1" w_doc true w_me true [7%Z]). assert (mkAlarm "a1" w_doc true w_me true [7%Z] ∈ alarms w10) as Hin.
    { apply list_elem_of_lookup. exists 0. vm_compute. reflexivity. }
    split_and!; [exact Hin|reflexivity|reflexivity|]. eapply (Hc _ w_white Hin); [reflexivity|left|vm_compute; reflexivity|apply not_elem_of_nil|].
    intros [[m Hm]|(r & Hr & Hu)].
    + assert (queue w10 m = []) as E; [|rewrite E in Hm; by apply elem_of_nil in Hm].
      change (queue w10) with (<[w_me := []]> (<[w_me := [Hit w_white]]> (λ _ : string, @nil update))).
      destruct (decide (m = w_me)) as [->|Hne]; [apply fn_lookup_insert|]. by rewrite !fn_lookup_insert_ne.
    + change (requests w10) with [(w_me, @nil update)] in Hr. apply list_elem_of_singleton in Hr as ->. by apply elem_of_nil in Hu.
  - destruct (lists_take_effect w_match w8 w8_reachable) as (_ & _ & Hn).
    apply (Hn w9 ["a2"] "a2" w9_step); [vm_compute; reflexivity|left].
Defined.


(** A mark that cannot be written: the next round reports the same alarm again. *)
Lemma failed_mark_repeats :
  let a := mkAlarm "a2" ∅ false w_me false [] in
  let s := mkSys [a] [] [] (λ _, []) (<[w_me := Applying []]> (λ _, Idle)) [] [] [] [] [] [] in
  let s' := marked w_me false [a] (notified w_me s) in
  step w_match s (notified w_me s) ∧ step w_match (notified w_me s) s' ∧
  reported (notified w_me (set_ph w_me (Applying []) s')) = ["a2"; "a2"].
Proof.
  split_and!; [apply (s_notify w_match _ w_me true); vm_compute; reflexivity| |vm_compute; reflexivity].
  apply (s_mark w_match _ w_me false); [vm_compute; reflexivity|]. constructor; [by right|constructor].
Qed.

(** An entry whose key is not known is left out, which widens the list: here it hides every
    alarm of the rule on the host. *)
Lemma unknown_entry_widens :
  add_filters "hids" (w_req (mkWLC "comm" 0 "sh")) =
    inl (Some [eq_content "agent_id" "h"; eq_content "SMITH_ALERT_DATA.RULE_INFO.RuleName" "r"]).
Proof. vm_compute. reflexivity. Qed.

(** Two requests that delete at the same time may mix their messages; an alarm that was on
    both lists then stays hit, on no list at all. *)
Lemma mixed_deletes_stay_hit :
  final w_match [Unhit 1; Unhit 2; Pull 1; Pull 2] (mkAlarm "a" ∅ true "m" true [1%Z; 2%Z]) = mkAlarm "a" ∅ true "m" true [].
Proof. vm_compute. reflexivity. Qed.

(** A list that is deleted while the checker goes through the lists it has loaded: the alarm
    is put on it after the worker has removed it, and stays hit. *)
Lemma deleted_while_checking :
  check_one w_match "m" w_white (final w_match [Unhit 7; Pull 7] (mkAlarm "a" w_doc false "m" false [])) =
    mkAlarm "a" w_doc false "m" true [7%Z].
Proof. vm_compute. reflexivity. Qed.

End WhiteList.
