(* ===== verification/DbWriter.v ===== *)
(** * Batch writers of the manager (server/manager/internal/dbtask)

    A writer drains a channel into bulk writes of a collection.  [Module BatchWriter] is
    the loop the writers share, over the function that turns an item into write models;
    [Module DbWriter] has the writers of heartbeats, subtasks, alarms and assets, and
    their registration. *)

From stdpp Require Import base tactics decidable list strings gmap pretty.
From Stdlib Require Import ZArith Lia.
From S2P Require Import Prelude GoStrings Bson.
Local Open Scope string_scope.
Local Open Scope nat_scope.
Local Open Scope go_scope.
Local Open Scope list_scope.
Set Default Proof Using "Type".

Module BatchWriter.

Section writer.
Context {A St : Type}.
(** The collection written to, the number of pending models that forces a write (none if the
    writer only writes on its timer), and what an item leads to: models to write, or [None]
    if it is passed over ([continue]), after calls of its own. *)
Variable target : string.
Variable limit : option nat.
Variable prepare : Z → A → St → outcome (St * list db_op * option (list write_model)).

(** The variables [writes] and [count] of a goroutine. *)
Record worker := mkWorker { writes : list write_model; count : nat }.

Record writer := mkWriter {
  queue : chan A; workers : list worker; st : St; calls : list db_op;
  (** the items taken so far and when *)
  taken : list (Z * A) }.

(** [Init] and the start of [n] goroutines. *)
Definition init (n : nat) (s : St) : writer := mkWriter (make_chan (1024 * 4)) (replicate n (mkWorker [] 0)) s [] [].

(** [Add]: an item is dropped when the channel is full. *)
Definition Add (x : A) (w : writer) : writer :=
  mkWriter (send_or_drop x (queue w)) (workers w) (st w) (calls w) (taken w).

Definition write_out (i : nat) (k : worker) (w : writer) : writer :=
  mkWriter (queue w) (<[i := mkWorker [] 0]> (workers w)) (st w)
    (calls w ++ [mkOp target (BulkWrite (writes k))]) (taken w).

(** The test at the end of a round. *)
Definition check_count (i : nat) (w : writer) : writer :=
  match workers w !! i, limit with
  | Some k, Some n => if decide (n ≤ count k) then write_out i k w else w
  | _, _ => w
  end.

(** [case tmp := <-w.queue] of goroutine [i]; it waits while the channel is empty. *)
Definition take (i : nat) (now : Z) (w : writer) : outcome writer :=
  match workers w !! i, try_recv (queue w) with
  | Some k, Some (x, q) =>
      let! r := prepare now x (st w) in
      let '(s, ops, ms) := r in
      match ms with
      | None => Ret (mkWriter q (workers w) s (calls w ++ ops) (taken w ++ [(now, x)]))
      | Some ms =>
          Ret (check_count i (mkWriter q (<[i := mkWorker (writes k ++ ms) (count k + length ms)]> (workers w))
            s (calls w ++ ops) (taken w ++ [(now, x)])))
      end
  | _, _ => Ret w
  end.

(** [case <-timer.C]. *)
Definition timer (i : nat) (w : writer) : writer :=
  match workers w !! i with
  | Some k => if decide (count k < 1) then w else check_count i (write_out i k w)
  | None => w
  end.

Inductive event := EAdd (x : A) | ETake (i : nat) (now : Z) | ETimer (i : nat).

Definition step (e : event) (w : writer) : outcome writer :=
  match e with
  | EAdd x => Ret (Add x w)
  | ETake i now => take i now w
  | ETimer i => Ret (timer i w)
  end.

Fixpoint run (es : list event) (w : writer) : outcome writer :=
  match es with
  | [] => Ret w
  | e :: es => let! w := step e w in run es w
  end.

(** ** What a writer promises *)

(** The items given to the writer, and the effect of treating items one after the other. *)
Fixpoint added (es : list event) : list A :=
  match es with
  | [] => []
  | EAdd x :: es => x :: added es
  | _ :: es => added es
  end.

Fixpoint prepare_all (xs : list (Z * A)) (s : St) : outcome (St * list db_op * list write_model) :=
  match xs with
  | [] => Ret (s, [], [])
  | (now, x) :: xs =>
      let! r := prepare now x s in
      let '(s, ops, ms) := r in
      let! r := prepare_all xs s in
      let '(s, ops', ms') := r in
      Ret (s, ops ++ ops', default [] ms ++ ms')
  end.

(** The bulk writes among the calls on the collection, and the other calls. *)
Definition batch_of (o : db_op) : option (list write_model) :=
  if decide (op_coll o = target) then match op_call o with BulkWrite ws => Some ws | _ => None end else None.
Definition batches (ops : list db_op) : list (list write_model) := omap batch_of ops.
Definition others (ops : list db_op) : list db_op := filter (λ o, batch_of o = None) ops.

Definition pending (w : writer) : list write_model := concat (writes <$> workers w).

(** The calls [prepare] makes are not bulk writes of the collection itself. *)
Definition foreign : Prop :=
  ∀ now x s s' ops ms, prepare now x s = Ret (s', ops, ms) → batches ops = [].

(** Whatever has happened: the accepted items are treated in their order, every model made
    of them is in exactly one batch or pending (in order, with one goroutine), no batch is
    empty, and the counters are exact and below the limit. *)
Definition accounted (s0 : St) (w : writer) : Prop :=
  chcap (queue w) = 1024 * 4 ∧ chan_wf (queue w) ∧ Forall (λ k, count k = length (writes k)) (workers w) ∧
  Forall (λ b, b ≠ []) (batches (calls w)) ∧
  ∃ ops ms, prepare_all (taken w) s0 = Ret (st w, ops, ms) ∧
    others (calls w) = others ops ∧ concat (batches (calls w)) ++ pending w ≡ₚ ms ∧
    (length (workers w) = 1 → concat (batches (calls w)) ++ pending w = ms).

Definition below (k : worker) : Prop := ∀ n, limit = Some n → 0 < n → count k < n.

Definition invariant (s0 : St) (w : writer) : Prop := accounted s0 w ∧ Forall below (workers w).

Lemma prepare_all_app xs ys s :
  prepare_all (xs ++ ys) s =
    let! r := prepare_all xs s in
    let '(s, ops, ms) := r in
    let! r := prepare_all ys s in
    let '(s, ops', ms') := r in
    Ret (s, ops ++ ops', ms ++ ms').
Proof.
  revert s. induction xs as [|[now x] xs IH]; intros s; simpl.
  - by destruct (prepare_all ys s) as [[[] ]|].
  - destruct (prepare now x s) as [[[s1 ops] ms]|]; simpl; [|done]. rewrite IH.
    destruct (prepare_all xs s1) as [[[s2 ops2] ms2]|]; simpl; [|done].
    destruct (prepare_all ys s2) as [[[s3 ops3] ms3]|]; simpl; [|done]. by rewrite !app_assoc.
Qed.

Lemma batches_app o1 o2 : batches (o1 ++ o2) = batches o1 ++ batches o2.
Proof. apply omap_app. Qed.

Lemma batches_snoc ops ws : batches (ops ++ [mkOp target (BulkWrite ws)]) = batches ops ++ [ws].
Proof. rewrite batches_app. unfold batches, batch_of. simpl. by rewrite decide_True. Qed.

Lemma others_snoc ops ws : others (ops ++ [mkOp target (BulkWrite ws)]) = others ops.
Proof.
  unfold others. rewrite filter_app, filter_cons_False, filter_nil, app_nil_r; [done|].
  unfold batch_of. simpl. by rewrite decide_True.
Qed.

Lemma pending_insert i k k' (ks : list worker) :
  ks !! i = Some k →
  concat (writes <$> <[i := k']> ks) ≡ₚ writes k' ++ concat (writes <$> delete i ks) ∧
  concat (writes <$> ks) ≡ₚ writes k ++ concat (writes <$> delete i ks).
Proof.
  intros Hi. pose proof (lookup_lt_Some _ _ _ Hi) as Hlt. split.
  - assert (<[i:=k']> ks !! i = Some k') as Hk by (by apply list_lookup_insert_eq).
    rewrite (delete_Permutation _ _ _ Hk) at 1. rewrite delete_insert_same.
    by rewrite fmap_cons.
  - rewrite (delete_Permutation _ _ _ Hi) at 1. by rewrite fmap_cons.
Qed.

Lemma sole_worker i k (ks : list worker) : length ks = 1 → ks !! i = Some k → i = 0 ∧ ks = [k].
Proof. destruct ks as [|k' [|]]; try done. intros _. destruct i; simpl; [|by destruct i]. intros [= ->]. done. Qed.

(** Writing the models of a goroutine out moves them from the pending ones to a batch. *)
Lemma write_out_accounted s0 i k w :
  accounted s0 w → workers w !! i = Some k → writes k ≠ [] → accounted s0 (write_out i k w).
Proof.
  intros (Hcap & Hwf & Hk & Hb & ops & ms & Hp & Ho & Hc & Hone) Hi Hne. unfold write_out.
  split_and!; cbn [queue workers st calls taken]; [done|done|..].
  - by apply Forall_insert.
  - rewrite batches_snoc. apply Forall_app. split; [done|]. by constructor.
  - destruct (pending_insert i k (mkWorker [] 0) (workers w) Hi) as [H1 H2]. exists ops, ms.
    unfold pending in *. cbn [workers]. rewrite others_snoc, batches_snoc, concat_app, length_insert.
    simpl. rewrite app_nil_r. split_and!; [done|done|..].
    + rewrite H1. rewrite H2 in Hc. simpl. by rewrite <- app_assoc.
    + intros Hlen. destruct (sole_worker i k _ Hlen Hi) as [-> Heq]. rewrite Heq in Hone |- *.
      simpl in Hone |- *. rewrite app_nil_r in Hone. rewrite app_nil_r. by apply Hone.
Qed.

Lemma below_empty : below (mkWorker [] 0).
Proof. by intros n _ Hn. Qed.

Lemma count_pos_writes s0 w i k : accounted s0 w → workers w !! i = Some k → 0 < count k → writes k ≠ [].
Proof.
  intros (_ & _ & Hk & _) Hi Hpos He. pose proof (Forall_lookup_1 _ _ _ _ Hk Hi) as Hc. simpl in Hc.
  rewrite He in Hc. simpl in Hc. lia.
Qed.

Lemma check_count_invariant s0 i k w :
  accounted s0 w → workers w !! i = Some k → Forall below (<[i := mkWorker [] 0]> (workers w)) →
  limit ≠ Some 0 → invariant s0 (check_count i w).
Proof.
  intros Ha Hi Hb Hz. unfold check_count. rewrite Hi. destruct limit as [n|] eqn:Hl.
  - case_decide as Hn.
    + split; [|done]. apply write_out_accounted; [done..|]. eapply (count_pos_writes s0 w i); [done..|].
      destruct n; [congruence|]. lia.
    + split; [done|]. apply Forall_lookup. intros j k' Hj. destruct (decide (i = j)) as [<-|Hij].
      * simplify_eq. intros n' Hn' _. rewrite Hl in Hn'. simplify_eq. lia.
      * eapply Forall_lookup_1; [exact Hb|]. by rewrite list_lookup_insert_ne.
  - split; [done|]. apply Forall_forall. intros k' _ n Hn. rewrite Hl in Hn. done.
Qed.

Lemma others_app o1 o2 : others (o1 ++ o2) = others o1 ++ others o2.
Proof. apply filter_app. Qed.

Lemma prepare_all_snoc xs now x s s1 ops ms s2 ops' ms' :
  prepare_all xs s = Ret (s1, ops, ms) → prepare now x s1 = Ret (s2, ops', ms') →
  prepare_all (xs ++ [(now, x)]) s = Ret (s2, ops ++ ops', ms ++ default [] ms').
Proof. intros H1 H2. rewrite prepare_all_app, H1. simpl. rewrite H2. simpl. by rewrite !app_nil_r. Qed.

Lemma take_accounted s0 i k now x q w s ops ms :
  foreign → accounted s0 w → workers w !! i = Some k → try_recv (queue w) = Some (x, q) →
  prepare now x (st w) = Ret (s, ops, ms) →
  accounted s0 (mkWriter q (<[i := mkWorker (writes k ++ default [] ms) (count k + length (default [] ms))]> (workers w))
    s (calls w ++ ops) (taken w ++ [(now, x)])).
Proof.
  intros Hf (Hcap & Hwf & Hk & Hb & ops0 & ms0 & Hp & Ho & Hc & Hone) Hi Hrecv Hprep.
  pose proof (Hf _ _ _ _ _ _ Hprep) as Hbs.
  pose proof (proj1 (try_recv_Some _ _ _) Hrecv) as [Hq Hqcap].
  split_and!; cbn [queue workers st calls taken].
  - congruence.
  - by eapply try_recv_wf.
  - apply Forall_insert; [done|]. simpl. rewrite length_app. f_equal. by eapply (Forall_lookup_1 _ _ _ _ Hk).
  - by rewrite batches_app, Hbs, app_nil_r.
  - eexists _, _. split; [by eapply prepare_all_snoc|].
    unfold pending in *. cbn [workers]. rewrite !others_app, Ho, batches_app, Hbs, app_nil_r, length_insert.
    split_and!; [done|..].
    + destruct (pending_insert i k (mkWorker (writes k ++ default [] ms) (count k + length (default [] ms)))
        (workers w) Hi) as [H1 H2]. rewrite H1. rewrite H2 in Hc. rewrite <- Hc. simpl. solve_Permutation.
    + intros Hlen. destruct (sole_worker i k _ Hlen Hi) as [-> Heq]. rewrite Heq in Hone |- *.
      rewrite <- (Hone eq_refl). simpl. by rewrite !app_nil_r, app_assoc.
Qed.

Lemma take_invariant s0 i now w w' :
  foreign → limit ≠ Some 0 → invariant s0 w → take i now w = Ret w' → invariant s0 w'.
Proof.
  intros Hf Hz [Ha Hb]. unfold take. destruct (workers w !! i) as [k|] eqn:Hi; [|by intros [= <-]].
  destruct (try_recv (queue w)) as [[x q]|] eqn:Hq; [|by intros [= <-]].
  destruct (prepare now x (st w)) as [[[s ops] ms]|] eqn:Hp; simpl; [|done].
  pose proof (take_accounted s0 i k now x q w s ops ms Hf Ha Hi Hq Hp) as Ht.
  destruct ms as [ms|]; simpl in Ht.
  - intros [= <-]. eapply check_count_invariant; [exact Ht|..|done]; cbn [workers].
    + apply list_lookup_insert_eq. by eapply lookup_lt_Some.
    + rewrite list_insert_insert_eq. apply Forall_insert; [done|apply below_empty].
  - intros [= <-]. split; [|done]. rewrite app_nil_r, Nat.add_0_r, list_insert_id in Ht; [done|].
    rewrite Hi. by destruct k.
Qed.

Lemma timer_invariant s0 i w : limit ≠ Some 0 → invariant s0 w → invariant s0 (timer i w).
Proof.
  intros Hz [Ha Hb]. unfold timer. destruct (workers w !! i) as [k|] eqn:Hi; [|done].
  case_decide as Hc; [done|]. assert (i < length (workers w)) as Hlt by (by eapply lookup_lt_Some).
  eapply (check_count_invariant s0 i (mkWorker [] 0)); [|..|done].
  - apply write_out_accounted; [done..|]. eapply count_pos_writes; [done..|lia].
  - by apply list_lookup_insert_eq.
  - cbn [write_out workers]. rewrite list_insert_insert_eq. apply Forall_insert; [done|apply below_empty].
Qed.

Lemma step_invariant s0 e w w' :
  foreign → limit ≠ Some 0 → invariant s0 w → step e w = Ret w' → invariant s0 w'.
Proof.
  intros Hf Hz Hinv. destruct e as [x|i now|i]; simpl; [|by apply take_invariant|].
  - intros [= <-]. destruct Hinv as [(Hcap & Hwf & Hr) Hb]. split; [|done]. unfold Add.
    split_and!; cbn [queue workers st calls taken]; [|by apply send_or_drop_wf|by apply Hr..].
    by rewrite send_or_drop_cap.
  - intros [= <-]. by apply timer_invariant.
Qed.

Lemma init_invariant n s0 : limit ≠ Some 0 → invariant s0 (init n s0).
Proof.
  intros Hz. assert (∀ m, concat (writes <$> replicate m (mkWorker [] 0)) = []) as Hp.
  { intros m. induction m; simpl; done. }
  split; [|apply Forall_replicate, below_empty]. split_and!; [done|apply make_chan_wf|by apply Forall_replicate|constructor|].
  exists [], []. unfold pending, init. cbn [workers]. rewrite Hp. done.
Qed.

(** The items that have been accepted so far. *)
Definition accepted (w : writer) : list A := (taken w).*2 ++ chbuf (queue w).

Lemma check_count_keeps i w : queue (check_count i w) = queue w ∧ taken (check_count i w) = taken w.
Proof. unfold check_count. destruct (workers w !! i); [|done]. destruct limit; [|done]. by case_decide. Qed.

Lemma timer_keeps i w : queue (timer i w) = queue w ∧ taken (timer i w) = taken w.
Proof.
  unfold timer. destruct (workers w !! i) as [k|]; [|done]. case_decide; [done|].
  by destruct (check_count_keeps i (write_out i k w)) as [-> ->].
Qed.

(** A goroutine that takes a message takes the first one and records it. *)
Lemma take_keeps i now w w' :
  take i now w = Ret w' →
  (queue w' = queue w ∧ taken w' = taken w) ∨
  ∃ x q, try_recv (queue w) = Some (x, q) ∧ queue w' = q ∧ taken w' = taken w ++ [(now, x)].
Proof.
  unfold take. destruct (workers w !! i) as [k|]; [|intros [= <-]; by left].
  destruct (try_recv (queue w)) as [[x q]|]; [|intros [= <-]; by left].
  destruct (prepare now x (st w)) as [[[s ops] ms]|]; simpl; [|done]. intros H. right. exists x, q.
  destruct ms as [ms|]; injection H as <-; [|done].
  match goal with |- context [check_count i ?v] => by destruct (check_count_keeps i v) as [-> ->] end.
Qed.

Lemma step_accepted e w w' :
  step e w = Ret w' →
  match e with
  | EAdd x =>
      if decide (length (chbuf (queue w)) < chcap (queue w))
      then accepted w' = accepted w ++ [x] ∧ length (chbuf (queue w')) = S (length (chbuf (queue w)))
      else accepted w' = accepted w
  | _ => accepted w' = accepted w ∧ length (chbuf (queue w')) ≤ length (chbuf (queue w))
  end.
Proof.
  unfold accepted. destruct e as [x|i now|i]; simpl.
  - intros [= <-]. unfold Add, send_or_drop, try_send. cbn [queue taken]. case_decide; simpl; [|done].
    rewrite length_app, app_assoc. simpl. split; [done|lia].
  - intros [[-> ->]|(x & q & [Hq _]%try_recv_Some & -> & ->)]%take_keeps; [done|].
    rewrite Hq, fmap_app, <- app_assoc. simpl. split; [done|lia].
  - intros [= <-]. by destruct (timer_keeps i w) as [-> ->].
Qed.

Lemma run_accepted s0 es w w' :
  foreign → limit ≠ Some 0 → invariant s0 w → run es w = Ret w' →
  invariant s0 w' ∧ ∃ l, l `sublist_of` added es ∧ accepted w' = accepted w ++ l ∧
    (length (chbuf (queue w)) + length (added es) ≤ 1024 * 4 → l = added es).
Proof.
  intros Hf Hz. revert w. induction es as [|e es IH]; intros w Hinv; cbn -[Nat.mul].
  { intros [= <-]. split; [done|]. exists []. rewrite app_nil_r. done. }
  destruct (step e w) as [w1|] eqn:Hs; [|done]. cbn -[Nat.mul]. intros Hr.
  destruct (IH w1 (step_invariant s0 e w w1 Hf Hz Hinv Hs) Hr) as (Hinv' & l & Hsub & Hacc & Hall). split; [done|].
  pose proof (step_accepted e w w1 Hs) as Ha. destruct Hinv as [(Hcap & _) _].
  destruct e as [x|i now|i]; simpl in Ha; [|destruct Ha as [Ha Hlen]; exists l; rewrite Hacc, Ha..].
  - case_decide as Hfull; cbn -[Nat.mul].
    + destruct Ha as [Ha Hlen]. exists (x :: l).
      split_and!; [by apply sublist_skip|by rewrite Hacc, Ha, <- app_assoc|]. intros ?. f_equal. apply Hall. lia.
    + exists l. split_and!; [by apply sublist_cons|by rewrite Hacc, Ha|]. lia.
  - split_and!; [done..|]. intros. apply Hall. lia.
  - split_and!; [done..|]. intros. apply Hall. lia.
Qed.

(** ** Size of the batches *)

Definition sized (n m : nat) (w : writer) : Prop := Forall (λ b, length b < n + m) (batches (calls w)).

Lemma write_out_sized s0 n m i k w :
  accounted s0 w → workers w !! i = Some k → count k < n + m → sized n m w → sized n m (write_out i k w).
Proof.
  intros (_ & _ & Hk & _) Hi Hc Hs. unfold sized, write_out. cbn [calls]. rewrite batches_snoc.
  apply Forall_app. split; [done|]. constructor; [|done].
  pose proof (Forall_lookup_1 _ _ _ _ Hk Hi) as Hl. simpl in Hl. lia.
Qed.

Lemma step_sized s0 n m e w w' :
  limit = Some n → 0 < n → foreign →
  (∀ now x s s' ops ms, prepare now x s = Ret (s', ops, Some ms) → length ms ≤ m) →
  invariant s0 w → sized n m w → step e w = Ret w' → sized n m w'.
Proof.
  intros Hl Hn Hf Hm Hinv Hs. pose proof Hinv as [Ha Hb]. destruct e as [x|i now|i]; simpl.
  - by intros [= <-].
  - unfold take. destruct (workers w !! i) as [k|] eqn:Hi; [|by intros [= <-]].
    destruct (try_recv (queue w)) as [[x q]|] eqn:Hq; [|by intros [= <-]].
    destruct (prepare now x (st w)) as [[[s ops] ms]|] eqn:Hp; simpl; [|done].
    pose proof (take_accounted s0 i k now x q w s ops ms Hf Ha Hi Hq Hp) as Ht.
    assert (batches (calls w ++ ops) = batches (calls w)) as Hbs by (by rewrite batches_app, (Hf _ _ _ _ _ _ Hp), app_nil_r).
    destruct ms as [ms|]; intros [= <-]; [|unfold sized; cbn [calls]; by rewrite Hbs].
    unfold check_count. cbn [workers]. rewrite list_lookup_insert_eq by (by eapply lookup_lt_Some). rewrite Hl.
    pose proof (Forall_lookup_1 _ _ _ _ Hb Hi n Hl Hn) as Hlt. specialize (Hm _ _ _ _ _ _ Hp).
    case_decide; [|unfold sized; cbn [calls]; by rewrite Hbs].
    eapply write_out_sized; [exact Ht|..]; cbn [workers count].
    + by rewrite list_lookup_insert_eq by (by eapply lookup_lt_Some).
    + lia.
    + unfold sized. cbn [calls]. by rewrite Hbs.
  - intros [= <-]. unfold timer. destruct (workers w !! i) as [k|] eqn:Hi; [|done]. case_decide; [done|].
    pose proof (Forall_lookup_1 _ _ _ _ Hb Hi n Hl Hn) as Hlt.
    assert (sized n m (write_out i k w)) as Hw by (eapply write_out_sized; [done..|lia|done]).
    unfold check_count. cbn [write_out workers]. rewrite list_lookup_insert_eq by (by eapply lookup_lt_Some).
    rewrite Hl. rewrite decide_False; [done|simpl; lia].
Qed.

Lemma run_sized s0 n m es w w' :
  limit = Some n → 0 < n → foreign →
  (∀ now x s s' ops ms, prepare now x s = Ret (s', ops, Some ms) → length ms ≤ m) →
  invariant s0 w → sized n m w → run es w = Ret w' → sized n m w'.
Proof.
  intros Hl Hn Hf Hm. revert w. induction es as [|e es IH]; intros w Hi Hs; simpl; [by intros [= <-]|].
  destruct (step e w) as [w1|] eqn:E; [|done]. simpl. apply IH.
  - eapply step_invariant; [done| |done..]. rewrite Hl. intros [= ->]. lia.
  - by eapply step_sized.
Qed.

(** ** The contract of a writer *)

(** [m] is a bound on the models made of one item, if there is one. *)
Definition delivers (n : nat) (s0 : St) (m : option nat) : Prop :=
  ∀ es w, run es (init n s0) = Ret w →
    (accepted w `sublist_of` added es ∧ (length (added es) ≤ 1024 * 4 → accepted w = added es)) ∧
    (∃ ops ms, prepare_all (taken w) s0 = Ret (st w, ops, ms) ∧ others (calls w) = others ops ∧
      concat (batches (calls w)) ++ pending w ≡ₚ ms ∧
      (n = 1 → concat (batches (calls w)) ++ pending w = ms)) ∧
    Forall (λ b, b ≠ [] ∧ ∀ k j, limit = Some k → m = Some j → length b < k + j) (batches (calls w)).

Lemma length_workers_step e w w' : step e w = Ret w' → length (workers w') = length (workers w).
Proof.
  assert (∀ i v, length (workers (check_count i v)) = length (workers v)) as Hc.
  { intros i v. unfold check_count. destruct (workers v !! i); [|done]. destruct limit; [|done].
    case_decide; [apply length_insert|done]. }
  destruct e as [x|i now|i]; simpl; [by intros [= <-]|..].
  - unfold take. destruct (workers w !! i); [|by intros [= <-]].
    destruct (try_recv (queue w)) as [[x q]|]; [|by intros [= <-]].
    destruct (prepare now x (st w)) as [[[s ops] ms]|]; simpl; [|done].
    destruct ms; intros [= <-]; [|done]. rewrite Hc. apply length_insert.
  - intros [= <-]. unfold timer. destruct (workers w !! i); [|done]. case_decide; [done|]. rewrite Hc. apply length_insert.
Qed.

Lemma length_workers_run es w w' : run es w = Ret w' → length (workers w') = length (workers w).
Proof.
  revert w. induction es as [|e es IH]; intros w; simpl; [by intros [= <-]|].
  destruct (step e w) as [w1|] eqn:E; [|done]. simpl. intros Hr. rewrite (IH _ Hr). by eapply length_workers_step.
Qed.

Lemma writer_delivers n s0 m :
  foreign → limit ≠ Some 0 →
  (∀ j now x s s' ops ms, m = Some j → prepare now x s = Ret (s', ops, Some ms) → length ms ≤ j) → delivers n s0 m.
Proof.
  intros Hf Hz Hm es w Hr. pose proof (init_invariant n s0 Hz) as Hi.
  destruct (run_accepted s0 es _ w Hf Hz Hi Hr) as ([Ha Hb] & l & Hsub & Hacc & Hall).
  unfold accepted at 2 in Hacc. simpl in Hacc. rewrite Hacc. split_and!.
  - done.
  - intros Hlen. apply Hall. done.
  - destruct Ha as (_ & _ & _ & _ & ops & ms & Hp & Ho & Hc & Hone). exists ops, ms. split_and!; [done..|].
    intros ->. apply Hone. rewrite (length_workers_run _ _ _ Hr). done.
  - apply Forall_and. split; [by destruct Ha as (_ & _ & _ & ? & _)|].
    destruct limit as [k|] eqn:Hl; [|by apply Forall_forall]. assert (0 < k) by (destruct k; [done|lia]).
    destruct m as [j|]; [|by apply Forall_forall].
    assert (sized k j w) as Hs by (eapply run_sized; [done| |done|naive_solver|done|constructor|done]; lia).
    eapply Forall_impl; [exact Hs|]. simpl. intros b Hlt k' j' [= <-] [= <-]. done.
Qed.

(** A tick of the timer of every goroutine leaves nothing pending. *)
Lemma timer_empties s0 i k w :
  accounted s0 w → workers w !! i = Some k → writes (default (mkWorker [] 0) (workers (timer i w) !! i)) = [].
Proof.
  intros Ha Hi. assert (i < length (workers w)) as Hlt by (by eapply lookup_lt_Some).
  unfold timer. rewrite Hi. case_decide as Hc.
  - rewrite Hi. simpl. destruct Ha as (_ & _ & Hk & _). pose proof (Forall_lookup_1 _ _ _ _ Hk Hi) as Hl.
    simpl in Hl. apply nil_length_inv. lia.
  - unfold check_count. cbn [write_out workers]. rewrite list_lookup_insert_eq by done. destruct limit as [n|].
    + case_decide; cbn [write_out workers]; rewrite ?list_insert_insert_eq; by rewrite list_lookup_insert_eq.
    + cbn [write_out workers]. by rewrite list_lookup_insert_eq.
Qed.

End writer.
End BatchWriter.

(** ** The writers *)

Module DbWriter.

Definition SendCountWeight : nat := 1000.

(** The result of a writer that makes at most one model of an item and no other calls. *)
Definition one {St} (s : St) (m : option write_model) : outcome (St * list db_op * option (list write_model)) :=
  Ret (s, [], (λ m, [m]) <$> m).

(** *** Heartbeats (agent_hb.go) *)

Record ConnStat := mkConnStat { AgentInfo : option doc; PluginsInfo : option (list doc) }.

Section hb.
(** [time.Unix(t, 0).Format("2006-01-02 15:04:05")]. *)
Variable format_time : Z → string.

Definition hb_info (conn : ConnStat) (info : doc) : doc :=
  let info := match as_float (info !! "last_heartbeat_time") with
              | Some f => <["last_heartbeat_time_format" := VStr (format_time (int64_of_float f))]> info
              | None => info
              end in
  match PluginsInfo conn with
  | Some ps => <["plugins" := VArr (VMap <$> ps)]> info
  | None => info
  end.

Definition hb_model (now : Z) (conn : ConnStat) : option write_model :=
  match AgentInfo conn with
  | Some info =>
      match info !! "agent_id" with
      | Some agentID =>
          Some (UpdateOne {["agent_id" := agentID]} (hb_info conn info)
            {["first_heartbeat_time" := VInt now; "first_heartbeat_time_format" := VStr (format_time now)]} true)
      | None => None
      end
  | None => None
  end.

Definition hbWriter : Z → ConnStat → unit → outcome (unit * list db_op * option (list write_model)) :=
  λ now conn s, one s (hb_model now conn).
Definition AgentHeartBeatCollection := "agent_heartbeat".
End hb.

(** *** Subtasks (agent_subtask.go, agent_update_subtask.go) *)

Definition AgentSubTaskCollection := "agent_subtask".

Definition subTaskWriter : Z → doc → unit → outcome (unit * list db_op * option (list write_model)) :=
  λ _ d s, one s (Some (InsertOne d)).

Definition subtask_filter (item : doc) : option doc :=
  match item !! "task_id", item !! "agent_id", item !! "token" with
  | Some taskID, Some agentID, _ => Some {["task_id" := taskID; "agent_id" := agentID]}
  | _, _, Some token => Some {["token" := token]}
  | _, _, _ => None
  end.

Definition subtask_model (now : Z) (item : doc) : option write_model :=
  (λ f, UpdateOne f (<["update_time" := VInt now]> item) ∅ true) <$> subtask_filter item.

Definition subTaskUpdateWriter : Z → doc → unit → outcome (unit * list db_op * option (list write_model)) :=
  λ now item s, one s (subtask_model now item).

(** *** Alarms (hub_alarm.go, rasp_alarm.go, kube_alarm.go, virus_detection.go) *)

Definition hubAlarmWriter : Z → doc → unit → outcome (unit * list db_op * option (list write_model)) :=
  λ _ item s, one s (Some (InsertOne item)).
Definition raspAlarmWriter := hubAlarmWriter.
Definition kubeAlarmWriter := hubAlarmWriter.
Definition virusDetectionWriter := hubAlarmWriter.
Definition HubAlarmCollectionV1 := "hub_alarm_v1".
Definition RaspAlarmCollectionV1 := "rasp_alarm_v1".
Definition KubeAlarmCollectionV1 := "kube_alarm_v1".
Definition VirusDetectionCollectionV1 := "virus_detection_alarm_v1".

(** *** Assets (hub_asset.go) *)

Definition fieldSeq := "package_seq".
Definition asset_coll (dt : string) : string := "agent_asset_" +:+ dt.
Definition dtList : list string :=
  ["5050"; "5051"; "5052"; "5053"; "5054"; "5055"; "5056"; "5057"; "5058"; "5059"; "5060"; "5061"; "5062"; "5063"; "5064"; "5065"].

(** A field with a comma-separated list becomes an array of strings under another name. *)
Definition split_field (from to : string) (item : doc) : doc :=
  <[to := match as_string (item !! from) with
          | Some s => if decide (s = "") then VStrs [] else VStrs (str_split "," s)
          | None => VStrs []
          end]> item.

(** A field with a number as text becomes an integer; what [ParseInt] returns with an error
    is stored too. *)
Definition int_field (k : string) (item : doc) : doc :=
  match as_string (item !! k) with
  | Some s => <[k := VInt (parse_int s).1]> item
  | None => item
  end.

Definition address_lists : list (string * string) :=
  [("in_ipv4_list", "intranet_ipv4"); ("in_ipv6_list", "intranet_ipv6");
   ("ex_ipv4_list", "extranet_ipv4"); ("ex_ipv6_list", "extranet_ipv6")].
Definition split_addresses (item : doc) : doc :=
  foldl (λ d ab, delete ab.1 d) (foldl (λ d ab, split_field ab.1 ab.2 d) item address_lists) address_lists.

Definition time_fields : list string := ["start_time"; "last_login_time"; "modify_time"; "create_time"].

(** Whether a process is one of the common ones; only processes (5050) are marked. *)
Definition mark_common (dt : string) (commCache : gset string) (item : doc) : doc :=
  if decide (dt = "5050") then
    let item := <["common" := VBool false]> item in
    match as_string (item !! "checksum") with
    | Some cs => if decide (cs ∈ commCache) then <["common" := VBool true]> item else item
    | None => item
    end
  else item.

Definition asset_doc (dt : string) (commCache : gset string) (now : Z) (item : doc) : doc :=
  <["update_time" := VInt now]>
    (mark_common dt commCache (foldl (λ d k, int_field k d) (split_addresses item) time_fields)).

(** [WriterRun] of a data type: the first item of a new sequence number has the older
    documents of the agent deleted.  The cache maps an agent to its last sequence number. *)
Definition WriterRun (dt : string) (commCache : gset string) (now : Z) (item : doc) (seqCache : gmap string string) :
    outcome (gmap string string * list db_op * option (list write_model)) :=
  match as_string (item !! fieldSeq), as_string (item !! "agent_id") with
  | Some seq, Some agentID =>
      let m := [InsertOne (asset_doc dt commCache now item)] in
      if decide (default "" (seqCache !! agentID) ≠ seq) then
        Ret (<[agentID := seq]> seqCache,
          [mkOp (asset_coll dt) (DeleteMany [("agent_id", Equals (VStr agentID)); (fieldSeq, Ne (VStr seq))])], Some m)
      else Ret (seqCache, [], Some m)
  | _, _ => Ret (seqCache, [], None)
  end.

(** [Run]: the goroutine that passes items on to the worker of their data type, and
    [updateCommCache] with the checksums found. *)
Definition dispatch (item : doc) (workerQueue : gmap string (chan doc)) : gmap string (chan doc) :=
  match as_string (item !! "data_type") with
  | Some dT => match workerQueue !! dT with Some q => <[dT := send_or_drop item q]> workerQueue | None => workerQueue end
  | None => workerQueue
  end.

Definition init_queues : gmap string (chan doc) := list_to_map ((λ dt, (dt, make_chan (1024 * 4))) <$> dtList).

(** A row that does not decode is left out; a failed query keeps the old set. *)
Definition updateCommCache (found : list (option string) + string) (commCache : gset string) : gset string :=
  match found with
  | inl rows => list_to_set (omap id rows)
  | inr _ => commCache
  end.

(** *** The goroutines of the writers *)

Definition hbWriter_Run (format_time : Z → string) :=
  BatchWriter.run AgentHeartBeatCollection (Some SendCountWeight) (hbWriter format_time).
Definition subTaskWriter_Run := BatchWriter.run AgentSubTaskCollection (Some SendCountWeight) subTaskWriter.
Definition subTaskUpdateWriter_Run := BatchWriter.run AgentSubTaskCollection (Some SendCountWeight) subTaskUpdateWriter.
Definition hubAlarmWriter_Run := BatchWriter.run HubAlarmCollectionV1 (Some 100) hubAlarmWriter.
Definition raspAlarmWriter_Run := BatchWriter.run RaspAlarmCollectionV1 (Some 100) raspAlarmWriter.
Definition kubeAlarmWriter_Run := BatchWriter.run KubeAlarmCollectionV1 (Some 100) kubeAlarmWriter.
Definition virusDetectionWriter_Run := BatchWriter.run VirusDetectionCollectionV1 (Some 100) virusDetectionWriter.
Definition hubAssetWriter_WriterRun (dt : string) (commCache : gset string) :=
  BatchWriter.run (asset_coll dt) (Some 100) (WriterRun dt commCache).

(** *** Registration (db_writer.go) *)

(** [asyncWrite]: the item goes to the channel of the registered writer.  Each of the
    exported functions registers its writer once, at its first call, and then calls it. *)
Definition asyncWrite {V} (key : string) (v : V) (writerMap : gmap string (chan V)) : gmap string (chan V) :=
  match writerMap !! key with
  | Some q => <[key := send_or_drop v q]> writerMap
  | None => writerMap
  end.

Definition registerWriter {V} (name : string) (writerMap : gmap string (chan V)) : gmap string (chan V) :=
  <[name := make_chan (1024 * 4)]> writerMap.

Definition AsyncWrite {V} (key : string) (v : V) (st : gset string * gmap string (chan V)) :
    gset string * gmap string (chan V) :=
  let '(once, writerMap) := st in
  let '(once, writerMap) :=
    if decide (key ∈ once) then (once, writerMap) else (once ∪ {[key]}, registerWriter key writerMap) in
  (once, asyncWrite key v writerMap).

(** ** The writers keep the contract *)

Lemma one_foreign {A St} target (f : Z → A → option write_model) :
  BatchWriter.foreign target (λ now x (s : St), one s (f now x)).
Proof. by intros now x s s' ops ms [= _ <- _]. Qed.

Lemma one_model {A St} (f : Z → A → option write_model) now x (s s' : St) ops ms :
  one s (f now x) = Ret (s', ops, Some ms) → length ms ≤ 1.
Proof. unfold one. destruct (f now x); simpl; [|done]. intros [= _ _ <-]. done. Qed.

Lemma simple_delivers {A} target n (f : Z → A → option write_model) :
  0 < n → BatchWriter.delivers target (Some n) (λ now x (s : unit), one s (f now x)) 1 tt (Some 1).
Proof.
  intros Hn. apply BatchWriter.writer_delivers; [apply one_foreign|intros [= ->]; lia|].
  intros j now x s s' ops ms [= <-]. apply one_model.
Qed.

Lemma asset_foreign dt commCache : BatchWriter.foreign (asset_coll dt) (WriterRun dt commCache).
Proof.
  intros now x s s' ops ms. unfold WriterRun. go_cases; intros [= _ <- _]; [|done..].
  unfold BatchWriter.batches, BatchWriter.batch_of. simpl. by case_decide.
Qed.

(** [C9] Every one of these writers, from its start and under every schedule of calls of [Add],
    messages and ticks: an item given while the channel has room is treated, in order;
    every model made of an item is in exactly one bulk write or pending, in order; no bulk
    write is empty or larger than the limit; only [WriterRun] makes other calls, those its
    items lead to. *)
Theorem writers_deliver format_time dt commCache :
  BatchWriter.delivers AgentHeartBeatCollection (Some SendCountWeight) (hbWriter format_time) 1 tt (Some 1) ∧
  BatchWriter.delivers AgentSubTaskCollection (Some SendCountWeight) subTaskWriter 1 tt (Some 1) ∧
  BatchWriter.delivers AgentSubTaskCollection (Some SendCountWeight) subTaskUpdateWriter 1 tt (Some 1) ∧
  BatchWriter.delivers HubAlarmCollectionV1 (Some 100) hubAlarmWriter 1 tt (Some 1) ∧
  BatchWriter.delivers RaspAlarmCollectionV1 (Some 100) raspAlarmWriter 1 tt (Some 1) ∧
  BatchWriter.delivers KubeAlarmCollectionV1 (Some 100) kubeAlarmWriter 1 tt (Some 1) ∧
  BatchWriter.delivers VirusDetectionCollectionV1 (Some 100) virusDetectionWriter 1 tt (Some 1) ∧
  BatchWriter.delivers (asset_coll dt) (Some 100) (WriterRun dt commCache) 1 ∅ (Some 1).
Proof.
  unfold SendCountWeight. split_and!; try (apply simple_delivers; lia).
  apply BatchWriter.writer_delivers; [apply asset_foreign|done|].
  intros j now x s s' ops ms [= <-]. unfold WriterRun. go_cases; by intros [= _ _ <-].
Qed.

End DbWriter.
