(* ===== verification/AssetStore.v ===== *)
(** * Assets in the database

    What the collection of a data type holds after a run of its writer
    (server/manager/internal/dbtask/hub_asset.go), against the interface of the database:
    the documents are well typed, and an agent has documents of its latest sequence number
    only, provided a sequence number never changes while documents of the agent are
    pending. *)

From stdpp Require Import base tactics decidable list strings gmap pretty.
From Stdlib Require Import ZArith Lia.
From S2P Require Import Prelude GoStrings Bson DbWriter.
Local Open Scope string_scope.
Local Open Scope nat_scope.
Local Open Scope go_scope.
Local Open Scope list_scope.
Set Default Proof Using "Type".

Module AssetStore.
Import DbWriter.

(** ** Documents *)

(** A field other than the ones a step sets or deletes is kept. *)
Lemma split_field_ne a b k d : k ≠ b → split_field a b d !! k = d !! k.
Proof. intros Hne. unfold split_field. by rewrite lookup_insert_ne. Qed.

Lemma int_field_ne a k d : k ≠ a → int_field a d !! k = d !! k.
Proof. intros Hne. unfold int_field. destruct (as_string _); [|done]. by rewrite lookup_insert_ne. Qed.

Lemma mark_common_ne dt cc k d : k ≠ "common" → mark_common dt cc d !! k = d !! k.
Proof.
  intros Hne. unfold mark_common. case_decide; [|done]. simpl.
  destruct (as_string _); [case_decide|]; by rewrite ?lookup_insert_ne.
Qed.

Ltac field_of :=
  repeat first
    [ rewrite lookup_insert_ne by done | rewrite lookup_insert_eq
    | rewrite mark_common_ne by done | rewrite int_field_ne by done | rewrite split_field_ne by done
    | rewrite lookup_delete_ne by done | rewrite lookup_delete_eq ].

Lemma asset_doc_keeps dt cc now item :
  asset_doc dt cc now item !! "agent_id" = item !! "agent_id" ∧
  asset_doc dt cc now item !! fieldSeq = item !! fieldSeq.
Proof. unfold asset_doc, split_addresses, address_lists, time_fields, fieldSeq. simpl. split; by field_of. Qed.

Lemma int_field_typed k d : as_string (int_field k d !! k) = None.
Proof.
  unfold int_field. destruct (as_string (d !! k)) eqn:E; [|done]. by rewrite lookup_insert_eq.
Qed.

(** The type of the documents of a collection. *)
Definition typed (dt : string) (d : doc) : Prop :=
  (∀ a b, (a, b) ∈ address_lists → d !! a = None ∧ ∃ l, d !! b = Some (VStrs l)) ∧
  (∀ k, k ∈ time_fields → as_string (d !! k) = None) ∧
  (∃ now, d !! "update_time" = Some (VInt now)) ∧
  (dt = "5050" → ∃ b, d !! "common" = Some (VBool b)) ∧
  (∃ agent seq, d !! "agent_id" = Some (VStr agent) ∧ d !! fieldSeq = Some (VStr seq)).

Lemma split_field_typed a b d : ∃ l, split_field a b d !! b = Some (VStrs l).
Proof.
  unfold split_field. rewrite lookup_insert_eq. destruct (as_string _) as [s|]; [case_decide|]; eauto.
Qed.

Lemma mark_common_typed cc d : ∃ b, mark_common "5050" cc d !! "common" = Some (VBool b).
Proof.
  unfold mark_common. rewrite decide_True by done. simpl.
  destruct (as_string _); [case_decide|]; rewrite lookup_insert_eq; eauto.
Qed.

Lemma asset_doc_typed dt cc now item agent seq :
  as_string (item !! "agent_id") = Some agent → as_string (item !! fieldSeq) = Some seq →
  typed dt (asset_doc dt cc now item).
Proof.
  intros Ha Hs. destruct (asset_doc_keeps dt cc now item) as [Hka Hks].
  split_and!; [..|exists agent, seq; rewrite Hka, Hks; destruct (item !! "agent_id") as [[]|], (item !! fieldSeq) as [[]|]; simplify_eq/=; done].
  - intros a b Hin. unfold asset_doc, split_addresses, address_lists, time_fields. simpl.
    repeat (apply elem_of_cons in Hin as [[= -> ->]|Hin]; [split; [by field_of|]; field_of; apply split_field_typed|]).
    by apply elem_of_nil in Hin.
  - intros k Hin. unfold asset_doc, time_fields. simpl.
    repeat (apply elem_of_cons in Hin as [->|Hin]; [field_of; apply int_field_typed|]). by apply elem_of_nil in Hin.
  - exists now. unfold asset_doc. by rewrite lookup_insert_eq.
  - intros ->. unfold asset_doc. rewrite lookup_insert_ne by done. apply mark_common_typed.
Qed.

(** ** The collection *)

Section store.
Context `{Mongo C} (dt : string) (cc : gset string).

Abbreviation writer := (BatchWriter.writer (A:=doc) (St:=gmap string string)).
Abbreviation run := (hubAssetWriter_WriterRun dt cc).
Abbreviation step := (BatchWriter.step (asset_coll dt) (Some 100) (WriterRun dt cc)).
Abbreviation event := (BatchWriter.event (A:=doc)).

(** What the calls of a run make of a collection. *)
Definition effect (w : writer) (c c' : C) : Prop := calls_effect (op_call <$> BatchWriter.calls w) c c'.

(** A document of the agent is not of another sequence number than its last one. *)
Definition current (seqs : gmap string string) (d : doc) : Prop :=
  ∀ a s, seqs !! a = Some s → d !! "agent_id" = Some (VStr a) → holds (Ne (VStr s)) (d !! fieldSeq) = false.

(** The state of a run: one goroutine with the documents [ds] pending. *)
Definition holding (w : writer) (ds : list doc) : Prop :=
  BatchWriter.workers w = [BatchWriter.mkWorker (InsertOne <$> ds) (length ds)].

Definition inv (P : gmap string string → doc → Prop) (c0 : C) (w : writer) : Prop :=
  ∃ ds, holding w ds ∧ Forall (P (BatchWriter.st w)) ds ∧
    ∀ c, effect w c0 c → Forall (P (BatchWriter.st w)) (contents c).

Lemma effect_snoc ops (w w' : writer) c0 c :
  BatchWriter.calls w' = BatchWriter.calls w ++ ops →
  effect w' c0 c ↔ ∃ c1, effect w c0 c1 ∧ calls_effect (op_call <$> ops) c1 c.
Proof. intros E. unfold effect. rewrite E, fmap_app. apply calls_effect_app. Qed.

(** Writing the pending documents out keeps what holds of them and of the collection. *)
Lemma write_out_inv P c0 w ds k :
  holding w ds → BatchWriter.workers w = [k] → inv P c0 w →
  inv P c0 (BatchWriter.write_out (asset_coll dt) 0 k w).
Proof.
  intros Hh Hk (ds' & Hh' & Hp & Hc). unfold holding in Hh, Hh'. rewrite Hk in Hh'. injection Hh' as ->.
  exists []. unfold holding, BatchWriter.write_out. cbn [BatchWriter.workers BatchWriter.st]. rewrite Hk. simpl.
  split_and!; [done|constructor|]. intros c He. eapply (effect_snoc _ w) in He; [|reflexivity].
  destruct He as (c1 & H1 & H2%calls_effect_one). rewrite (inserts_effect ds' c1 c H2).
  apply Forall_app. split; [done|by apply Hc].
Qed.

Lemma check_count_inv P c0 w : inv P c0 w → inv P c0 (BatchWriter.check_count (asset_coll dt) (Some 100) 0 w).
Proof.
  intros Hi. pose proof Hi as (ds & Hh & _). unfold BatchWriter.check_count. unfold holding in Hh. rewrite Hh. simpl.
  case_decide; [|done]. by eapply write_out_inv.
Qed.

(** What an item must keep for the invariant to hold. *)
Definition keeps (P : gmap string string → doc → Prop) (now : Z) (w : writer) : Prop :=
  ∀ x q s ops ms ds,
    try_recv (BatchWriter.queue w) = Some (x, q) → holding w ds →
    WriterRun dt cc now x (BatchWriter.st w) = Ret (s, ops, ms) →
    (Forall (P (BatchWriter.st w)) ds → Forall (P s) ds) ∧
    (∀ c c' : C, calls_effect (op_call <$> ops) c c' → Forall (P (BatchWriter.st w)) (contents c) → Forall (P s) (contents c')) ∧
    (ms = None ∨ ∃ d, ms = Some [InsertOne d] ∧ P s d).

Lemma take_inv P c0 i now w w' :
  keeps P now w → inv P c0 w →
  BatchWriter.take (asset_coll dt) (Some 100) (WriterRun dt cc) i now w = Ret w' → inv P c0 w'.
Proof.
  intros Hk Hi. pose proof Hi as (ds & Hh & Hp & Hc). unfold BatchWriter.take.
  destruct i as [|i]; [|rewrite Hh; simpl; by intros [= <-]].
  rewrite Hh. simpl. destruct (try_recv (BatchWriter.queue w)) as [[x q]|] eqn:Hq; [|by intros [= <-]].
  destruct (WriterRun dt cc now x (BatchWriter.st w)) as [[[s ops] ms]|] eqn:Hw; simpl; [|done].
  destruct (Hk x q s ops ms ds Hq Hh Hw) as (Hds & Hcs & Hms).
  assert (∀ ks t, ∀ c, effect (BatchWriter.mkWriter q ks s (BatchWriter.calls w ++ ops) t) c0 c → Forall (P s) (contents c)) as Hc'.
  { intros ks t c He. eapply (effect_snoc ops w) in He; [|reflexivity]. destruct He as (c1 & H1 & H2).
    eapply Hcs; [exact H2|]. by apply Hc. }
  destruct Hms as [->|(d & -> & Hd)]; intros [= <-].
  - exists ds. split_and!; [done|by apply Hds|]. apply Hc'.
  - apply check_count_inv. exists (ds ++ [d]). split_and!.
    + unfold holding. cbn [BatchWriter.workers]. rewrite Hh. simpl. by rewrite fmap_app, length_app.
    + apply Forall_app. split; [by apply Hds|by repeat constructor].
    + apply Hc'.
Qed.

Lemma asset_step_inv P c0 e w w' :
  (∀ i now, e = BatchWriter.ETake i now → keeps P now w) → inv P c0 w → step e w = Ret w' → inv P c0 w'.
Proof.
  intros Hk Hi. destruct e as [x|i now|i]; simpl.
  - by intros [= <-].
  - eapply take_inv; [by eapply Hk|done].
  - intros [= <-]. unfold BatchWriter.timer. pose proof Hi as (ds & Hh & _). unfold holding in Hh. rewrite Hh.
    destruct i as [|i]; simpl; [|done]. case_decide; [done|]. apply check_count_inv. by eapply write_out_inv.
Qed.

Lemma WriterRun_cases now x s s' ops ms :
  WriterRun dt cc now x s = Ret (s', ops, ms) →
  (s' = s ∧ ops = [] ∧ ms = None) ∨
  ∃ seq a, as_string (x !! fieldSeq) = Some seq ∧ as_string (x !! "agent_id") = Some a ∧
    ms = Some [InsertOne (asset_doc dt cc now x)] ∧
    ((default "" (s !! a) = seq ∧ s' = s ∧ ops = []) ∨
     (default "" (s !! a) ≠ seq ∧ s' = <[a := seq]> s ∧
      ops = [mkOp (asset_coll dt) (DeleteMany [("agent_id", Equals (VStr a)); (fieldSeq, Ne (VStr seq))])])).
Proof.
  unfold WriterRun. destruct (as_string (x !! fieldSeq)) as [seq|] eqn:E1; [|intros [= <- <- <-]; by left].
  destruct (as_string (x !! "agent_id")) as [a|] eqn:E2; [|intros [= <- <- <-]; by left].
  case_decide as Hd; intros [= <- <- <-]; right; exists seq, a; (split_and!; [done..|naive_solver]).
Qed.

(** *** Every document is well typed *)

Lemma keeps_typed now w (D : doc → Prop) : keeps (λ _ d, D d ∨ typed dt d) now w.
Proof.
  intros x q s ops ms ds Hq Hh Hw. split; [done|].
  apply WriterRun_cases in Hw as [(-> & -> & ->)|(seq & a & Hs & Ha & -> & Hcase)].
  - split; [|by left]. intros c c' He. by inversion He.
  - split; [|right; eexists; split; [done|]; right; by eapply asset_doc_typed].
    intros c c'. destruct Hcase as [(_ & -> & ->)|(_ & -> & ->)]; simpl.
    + intros He. by inversion He.
    + intros ->%calls_effect_one Hf. rewrite delete_law. apply Forall_forall.
      intros d [_ Hd]%list_elem_of_filter. rewrite Forall_forall in Hf. by apply Hf.
Qed.

Lemma init_inv P c0 : (∀ d, d ∈ contents c0 → P ∅ d) → inv P c0 (BatchWriter.init 1 ∅).
Proof.
  intros Hp. exists []. split_and!; [done|constructor|]. intros c He. inversion He; subst. by apply Forall_forall.
Qed.

(** [C28] Every document that a run puts into the collection of a data type is well typed:
    addresses are arrays of strings, times are no strings, [update_time] is a number, and a
    process says whether it is common. *)
Theorem assets_typed es w (c0 c : C) d :
  run es (BatchWriter.init 1 ∅) = Ret w → effect w c0 c → d ∈ contents c → d ∈ contents c0 ∨ typed dt d.
Proof.
  intros Hr He Hd. assert (inv (λ _ d, d ∈ contents c0 ∨ typed dt d) c0 w) as (ds & _ & _ & Hc).
  { revert Hr. generalize (init_inv (λ _ d, d ∈ contents c0 ∨ typed dt d) c0 ltac:(naive_solver)).
    generalize (BatchWriter.init (A:=doc) 1 (∅ : gmap string string)).
    induction es as [|e es IH]; intros w0 Hi; simpl; [by intros [= <-]|].
    destruct (step e w0) as [w1|] eqn:E; [|done]. simpl. apply IH. eapply asset_step_inv; [|done..]. intros. apply keeps_typed. }
  specialize (Hc c He). rewrite Forall_forall in Hc. by apply Hc.
Qed.

(** *** Only the latest sequence number *)

(** Nothing of an agent is pending when its sequence number changes. *)
Definition fits (now : Z) (w : writer) : Prop :=
  ∀ x q a seq ds,
    try_recv (BatchWriter.queue w) = Some (x, q) → holding w ds →
    as_string (x !! "agent_id") = Some a → as_string (x !! fieldSeq) = Some seq →
    default "" (BatchWriter.st w !! a) ≠ seq → Forall (λ d, d !! "agent_id" ≠ Some (VStr a)) ds.

Fixpoint spaced (es : list event) (w : writer) : Prop :=
  match es with
  | [] => True
  | e :: es =>
      (∀ i now, e = BatchWriter.ETake i now → fits now w) ∧ ∀ w', step e w = Ret w' → spaced es w'
  end.

Lemma as_string_Some v s : as_string v = Some s → v = Some (VStr s).
Proof. by destruct v as [[]|]; simpl; intros [= ->]. Qed.

Lemma equals_self v : equals v v = true.
Proof. unfold equals. by rewrite bool_decide_true. Qed.

(** The deletion leaves no document of the agent with another sequence number. *)
Lemma deleted_current a seq seqs ds :
  Forall (current seqs) ds →
  Forall (current (<[a := seq]> seqs))
    (filter (λ d, matches [("agent_id", Equals (VStr a)); (fieldSeq, Ne (VStr seq))] d = false) ds).
Proof.
  intros Hf. apply Forall_forall. intros d [Hm Hd]%list_elem_of_filter. rewrite Forall_forall in Hf.
  intros b s Hb Hag. destruct (decide (a = b)) as [<-|Hne].
  - rewrite lookup_insert_eq in Hb. injection Hb as <-. unfold matches in Hm. cbn [forallb fst snd] in Hm.
    rewrite Hag in Hm. simpl holds in Hm at 1. rewrite equals_self in Hm. by rewrite andb_true_r in Hm.
  - rewrite lookup_insert_ne in Hb by done. by eapply Hf.
Qed.

Lemma current_insert a seq seqs d :
  d !! "agent_id" ≠ Some (VStr a) → current seqs d → current (<[a := seq]> seqs) d.
Proof. intros Hne Hc b s Hb Hag. rewrite lookup_insert_ne in Hb by congruence. by eapply Hc. Qed.

Lemma new_doc_current seqs now x a seq :
  as_string (x !! "agent_id") = Some a → as_string (x !! fieldSeq) = Some seq →
  default "" (seqs !! a) = seq → current seqs (asset_doc dt cc now x).
Proof.
  intros Ha%as_string_Some Hs%as_string_Some He b s Hb. destruct (asset_doc_keeps dt cc now x) as [-> ->].
  rewrite Ha, Hs. intros [= <-]. rewrite Hb in He. simpl in He. subst seq. simpl. by rewrite equals_self.
Qed.

Lemma keeps_current now w : fits now w → keeps current now w.
Proof.
  intros Hfit x q s ops ms ds Hq Hh Hw.
  apply WriterRun_cases in Hw as [(-> & -> & ->)|(seq & a & Hs & Ha & -> & Hcase)].
  - split_and!; [done| |by left]. intros c c' He. by inversion He.
  - destruct Hcase as [(He & -> & ->)|(Hne & -> & ->)]; simpl.
    + split_and!; [done|intros c c' Hc; by inversion Hc|right; eexists; split; [done|by eapply new_doc_current]].
    + split_and!.
      * pose proof (Hfit x q a seq ds Hq Hh Ha Hs Hne) as Hno. rewrite !Forall_forall in *.
        intros Hc d Hd. apply current_insert; auto.
      * intros c c' ->%calls_effect_one Hc. rewrite delete_law. by apply deleted_current.
      * right. eexists. split; [done|]. eapply new_doc_current; [done..|]. by rewrite lookup_insert_eq.
Qed.

(** [C27] In a run that never has documents of an agent pending when its sequence number changes,
    the collection never has a document of an agent with another sequence number than the
    last one that has been taken, whatever it held before. *)
Theorem assets_current es w (c0 c : C) a s d :
  spaced es (BatchWriter.init 1 ∅) → run es (BatchWriter.init 1 ∅) = Ret w → effect w c0 c →
  BatchWriter.st w !! a = Some s → d ∈ contents c → d !! "agent_id" = Some (VStr a) →
  holds (Ne (VStr s)) (d !! fieldSeq) = false.
Proof.
  intros Hsp Hr He Ha Hd Hag. assert (inv current c0 w) as (ds & _ & _ & Hc).
  { revert Hsp Hr. generalize (init_inv current c0 ltac:(done)).
    generalize (BatchWriter.init (A:=doc) 1 (∅ : gmap string string)).
    induction es as [|e es IH]; intros w0 Hi; simpl; [by intros _ [= <-]|].
    intros [Hfit Hsp]. destruct (step e w0) as [w1|] eqn:E; [|done]. simpl. apply IH; [|by apply Hsp].
    eapply asset_step_inv; [|done..]. intros i now Hi'. eapply keeps_current, Hfit, Hi'. }
  specialize (Hc c He). rewrite Forall_forall in Hc. by eapply Hc.
Qed.

End store.

(** ** Witnesses *)

Section witnesses.
(** A test that implies [spaced]: nothing at all is pending when a message is taken. *)
Fixpoint unhurried (dt : string) (cc : gset string) (es : list (BatchWriter.event (A:=doc))) (w : BatchWriter.writer) : bool :=
  match es with
  | [] => true
  | e :: es =>
      match e with
      | BatchWriter.ETake _ _ => forallb (λ k, Nat.eqb (BatchWriter.count k) 0) (BatchWriter.workers w)
      | _ => true
      end &&
      match BatchWriter.step (asset_coll dt) (Some 100) (WriterRun dt cc) e w with
      | Ret w' => unhurried dt cc es w'
      | Panic _ => true
      end
  end.

Lemma unhurried_spaced dt cc es w : unhurried dt cc es w = true → spaced dt cc es w.
Proof.
  revert w. induction es as [|e es IH]; intros w; [done|]. simpl. intros [He Hes]%andb_prop. split.
  - intros i now -> x q a seq ds _ Hh. unfold holding in Hh. rewrite Hh in He. simpl in He.
    destruct ds; [|done]. intros. constructor.
  - intros w' Hw. rewrite Hw in Hes. by apply IH.
Qed.

Definition w_item (seq name : string) : doc :=
  {["agent_id" := VStr "a"; fieldSeq := VStr seq; "name" := VStr name; "in_ipv4_list" := VStr "10.0.0.1,10.0.0.2"; "start_time" := VStr "17"]}.
Definition w_run (es : list (BatchWriter.event (A:=doc))) : BatchWriter.writer :=
  match hubAssetWriter_WriterRun "5050" ∅ es (BatchWriter.init 1 ∅) with Ret w => w | Panic _ => BatchWriter.init 1 ∅ end.

Lemma w_run_eq es :
  match hubAssetWriter_WriterRun "5050" ∅ es (BatchWriter.init 1 ∅) with Ret _ => true | Panic _ => false end = true →
  hubAssetWriter_WriterRun "5050" ∅ es (BatchWriter.init 1 ∅) = Ret (w_run es).
Proof. unfold w_run. by destruct (hubAssetWriter_WriterRun _ _ _ _). Qed.

Definition w_events : list (BatchWriter.event (A:=doc)) :=
  [BatchWriter.EAdd (w_item "1" "old"); BatchWriter.ETake 0 7; BatchWriter.ETimer 0;
   BatchWriter.EAdd (w_item "2" "new"); BatchWriter.ETake 0 8; BatchWriter.ETimer 0].
Definition w_store : list doc := play (op_call <$> BatchWriter.calls (w_run w_events)) [w_item "1" "older"].

Lemma w_events_eq : hubAssetWriter_WriterRun "5050" ∅ w_events (BatchWriter.init 1 ∅) = Ret (w_run w_events).
Proof. apply w_run_eq. vm_compute. reflexivity. Qed.

Lemma w_store_effect : effect (C:=list doc) (w_run w_events) [w_item "1" "older"] w_store.
Proof. apply play_effect. Qed.

Lemma assets_typed_witness :
  length w_store = 1 ∧ ∀ d, d ∈ w_store → d = w_item "1" "older" ∨ typed "5050" d.
Proof.
  split; [vm_compute; reflexivity|]. intros d Hd.
  destruct (assets_typed (C:=list doc) "5050" ∅ w_events (w_run w_events) [w_item "1" "older"] w_store d
    w_events_eq w_store_effect Hd) as [Hin|Ht];
    [left; by apply list_elem_of_singleton in Hin|by right].
Defined.

Lemma assets_current_witness :
  length w_store = 1 ∧
  ∀ d, d ∈ w_store → d !! "agent_id" = Some (VStr "a") → holds (Ne (VStr "2")) (d !! fieldSeq) = false.
Proof.
  split; [vm_compute; reflexivity|]. intros d Hd Ha.
  apply (assets_current (C:=list doc) "5050" ∅ w_events (w_run w_events) [w_item "1" "older"] w_store "a" "2" d).
  - apply unhurried_spaced. vm_compute. reflexivity.
  - exact w_events_eq.
  - exact w_store_effect.
  - vm_compute. reflexivity.
  - exact Hd.
  - exact Ha.
Defined.

(** A document that is pending when the agent starts a new sequence is inserted after the
    older ones have been deleted, and stays. *)
Definition hurried : list (BatchWriter.event (A:=doc)) :=
  [BatchWriter.EAdd (w_item "1" "old"); BatchWriter.ETake 0 7; BatchWriter.EAdd (w_item "2" "new"); BatchWriter.ETake 0 8;
   BatchWriter.ETimer 0].

Lemma stale_asset :
  ∃ w c,
    hubAssetWriter_WriterRun "5050" ∅ hurried (BatchWriter.init 1 ∅) = Ret w ∧
    effect (C:=list doc) w [] c ∧ BatchWriter.st w !! "a" = Some "2" ∧ BatchWriter.pending w = [] ∧
    ((λ d : doc, (d !! "agent_id", d !! fieldSeq)) <$> c) =
      [(Some (VStr "a"), Some (VStr "2")); (Some (VStr "a"), Some (VStr "1"))].
Proof.
  exists (w_run hurried), (play (op_call <$> BatchWriter.calls (w_run hurried)) []).
  split; [apply w_run_eq; vm_compute; reflexivity|]. split; [apply play_effect|].
  split_and!; vm_compute; reflexivity.
Qed.

End witnesses.

End AssetStore.
