(* ===== verification/SubTask.v ===== *)
(** * Subtasks (server/manager/internal/atask/subtask.go, fast.go)

    The reports of agents on finished tasks: the handler [UpdateSubTask]
    (biz/handler/v1/agent_subtask.go), the functions that turn a report into an update of
    the subtask, and the path of reports from the agent center's queue to the database.
    Tasks sent to a single agent without a job ([SendFastTask]). *)

From stdpp Require Import base tactics decidable list strings gmap pretty.
From Stdlib Require Import ZArith Lia.
From S2P Require Import Prelude GoStrings Pool AcServer AgentConfig ManagerAuth Bson DbWriter.
Local Open Scope string_scope.
Local Open Scope nat_scope.
Local Open Scope go_scope.
Local Open Scope list_scope.
Set Default Proof Using "Type".

Module SubTask.

(** ** Reports *)

(** A function of [ResMap]: the update it passes to [SubTaskUpdateAsyncWrite]. *)
Definition result_update (ok failed : string) (data : doc) : doc :=
  let status := match as_string (data !! "status") with
                | Some s => if decide (s = "succeed") then ok else failed
                | None => failed
                end in
  {["token" := field "token" data; "task_result" := VMap data; "status" := VStr status;
    "status_msg" := field "msg" data]}.

Definition ResFuncOld : doc → doc := result_update AgentConfig.TaskStatusSuccess AgentConfig.TaskStatusFail.
Definition DefaultResFunc : doc → doc := result_update AgentConfig.TaskStatusResultSuccess AgentConfig.TaskStatusResultFail.

Definition RegistryResFunc (dt : string) (f : option (doc → doc)) (ResMap : gmap string (doc → doc)) : gmap string (doc → doc) :=
  <[dt := default DefaultResFunc f]> ResMap.

Definition ResMap : gmap string (doc → doc) :=
  RegistryResFunc "6000" None (RegistryResFunc "8010" None (RegistryResFunc "5100" None ∅)).

(** [PushSubTask]: the update written for a report, if any. *)
Definition PushSubTask (data : doc) : option doc :=
  match as_string (data !! "token") with
  | None => None
  | Some token =>
      if decide (token = "") then None
      else
        match as_string (data !! "data_type") ≫= λ sdt, ResMap !! sdt with
        | Some f => Some (f data)
        | None => Some {["token" := field "token" data; "task_result" := VMap data]}
        end
  end.

(** [UpdateSubTask]: the updates written and the code of the response. *)
Definition UpdateSubTask (request : list doc + string) : list doc * Z :=
  match request with
  | inr _ => ([], ManagerAuth.ParamInvalidErrorCode)
  | inl request => (omap PushSubTask request, ManagerAuth.SuccessCode)
  end.

(** ** Fast tasks *)

Record AgentSubTask := mkSubTask {
  AppendData : doc; TaskType : string; TaskDataType : Z; sAgentID : string; TaskID : string;
  TaskData : AcServer.CommandRequest; TaskUrl : string; Token : string; Status : string;
  InsertTime : Z; UpdateTime : Z; JobTimeOutTime : Z; JobStartTime : Z; TaskResult : string; TaskResp : string }.

(** The address of the agent center that serves an agent: from Redis, else from the last
    heartbeat in the database. *)
Definition getSvrAddr (redis : string + string) (heartbeat : string * Z + string) : string + string :=
  match redis with
  | inl host => inl host
  | inr _ => match heartbeat with inl (ip, port) => inl (host_port ip port) | inr err => inr err end
  end.

Section fast.
(** The outcome of the post, and the decoder of the agent center's answer. *)
Variable Post : string → AcServer.CommandRequest → (Z * string) + string.
Variable decode : string → (Z * string) + string.

(** The url, and the body of the response or an error. *)
Definition sendAgentCommand (agentID : string) (request : AcServer.CommandDetail)
    (redis : string + string) (heartbeat : string * Z + string) : string * (string + string) :=
  match getSvrAddr redis heartbeat with
  | inr err => ("", inr err)
  | inl addr =>
      let url := "https://" +:+ addr +:+ "/command/" in
      match Post url (AcServer.mkRequest agentID request) with
      | inr err => (url, inr err)
      | inl (code, body) =>
          if decide (code ≠ 200)%Z then (url, inr ("resp code is " +:+ itoa code +:+ ", resp body is " +:+ body))
          else
            match decode body with
            | inr err => (url, inr err)
            | inl (rcode, msg) => if decide (rcode ≠ 0)%Z then (url, inr msg) else (url, inl body)
            end
      end
  end.

(** The task id or an error, the request that was made, and the subtask written.  [token]
    and [xid] are what [xid.New] returns. *)
Definition SendFastTask (agentID : string) (taskMsg : AcServer.TaskMsg) (needAgentResp : bool) (timeout : Z)
    (appendData : doc) (token xid : string) (now : Z)
    (redis : string + string) (heartbeat : string * Z + string) : (string + string) * option AgentSubTask :=
  let tok := if needAgentResp then token else "" in
  let task := AcServer.mkTaskMsg (AcServer.DataType taskMsg) (AcServer.Name taskMsg) (AcServer.tData taskMsg) tok in
  let request := AcServer.mkDetail 0 (Some task) None in
  match sendAgentCommand agentID request redis heartbeat with
  | (_, inr err) => (inr err, None)
  | (url, inl body) =>
      if needAgentResp then
        let taskID := "task-" +:+ xid in
        (inl taskID, Some (mkSubTask appendData AgentConfig.TypeAgentTask (AcServer.DataType taskMsg) agentID taskID
          (AcServer.mkRequest agentID request) url tok AgentConfig.TaskStatusSuccess now now
          (if decide (0 < timeout)%Z then int64 (now + timeout) else 0%Z) now "" body))
      else (inl "", None)
  end.

(** A fast task is recorded exactly if it was accepted and an answer is wanted, and then
    under the token that went to the agent, so that its report finds it; a task that was
    not accepted leaves nothing behind. *)
Lemma SendFastTask_effect agentID taskMsg need timeout appendData token xid now redis heartbeat :
  match SendFastTask agentID taskMsg need timeout appendData token xid now redis heartbeat with
  | (inr _, st) => st = None
  | (inl id, Some st) =>
      need = true ∧ id = TaskID st ∧ sAgentID st = agentID ∧
      ∃ addr t code msg, getSvrAddr redis heartbeat = inl addr ∧ TaskUrl st = "https://" +:+ addr +:+ "/command/" ∧
        AcServer.AgentID (TaskData st) = agentID ∧ AcServer.Task (AcServer.Command (TaskData st)) = Some t ∧
        AcServer.Token t = Token st ∧ Token st = token ∧
        Post (TaskUrl st) (TaskData st) = inl (200%Z, TaskResp st) ∧
        decode (TaskResp st) = inl (code, msg) ∧ code = 0%Z
  | (inl id, None) => need = false ∧ id = ""
  end.
Proof.
  unfold SendFastTask, sendAgentCommand. destruct (getSvrAddr redis heartbeat) as [addr|]; [|done]. simpl.
  match goal with |- context [Post ?u ?b] => destruct (Post u b) as [[code body]|] eqn:HP; [|done] end.
  case_decide as Hcode; [done|]. subst code.
  destruct (decode body) as [[rcode msg]|] eqn:HD; [|done].
  case_decide as Hr; [done|]. subst rcode. destruct need; [|done]. simpl.
  split_and!; [done..|]. by eexists addr, _, 0%Z, msg.
Qed.

End fast.

(** ** The path of reports *)

(** A report as it is posted by the agent center: a JSON object of strings. *)
Definition json_report (rep : gmap string string) : doc := VStr <$> rep.

(** What becomes of the subtask a report names: the report is kept with it; for three data
    types its status says whether the agent succeeded, for all others it is left alone. *)
Definition reconciles (rep : gmap string string) (m : write_model) : Prop :=
  ∃ token now set, rep !! "token" = Some token ∧ token ≠ "" ∧
    m = UpdateOne {["token" := VStr token]} set ∅ true ∧
    set !! "update_time" = Some (VInt now) ∧ set !! "task_result" = Some (VMap (json_report rep)) ∧
    (rep !! "data_type" ∈ [Some "5100"; Some "8010"; Some "6000"] →
      set !! "status" = Some (VStr (if decide (rep !! "status" = Some "succeed")
        then AgentConfig.TaskStatusResultSuccess else AgentConfig.TaskStatusResultFail))) ∧
    (rep !! "data_type" ∉ [Some "5100"; Some "8010"; Some "6000"] → set !! "status" = None).

Definition has_token (rep : gmap string string) : Prop := rep !! "token" ≠ None ∧ rep !! "token" ≠ Some "".
#[export] Instance has_token_dec rep : Decision (has_token rep) := _.

Lemma as_string_report k rep : as_string (json_report rep !! k) = rep !! k.
Proof. unfold json_report. rewrite lookup_fmap. by destruct (rep !! k). Qed.

Lemma ResMap_lookup dt :
  ResMap !! dt = if decide (dt ∈ ["5100"; "8010"; "6000"]) then Some DefaultResFunc else None.
Proof.
  unfold ResMap, RegistryResFunc. simpl. case_decide as Hd.
  - repeat (apply elem_of_cons in Hd as [->|Hd]; [by repeat first [rewrite lookup_insert_eq|rewrite lookup_insert_ne by done]|]). by apply elem_of_nil in Hd.
  - rewrite !lookup_insert_ne by (intros <-; apply Hd; set_solver). done.
Qed.

Lemma PushSubTask_none rep : ¬ has_token rep → PushSubTask (json_report rep) = None.
Proof.
  intros Hn. unfold PushSubTask. rewrite as_string_report. destruct (rep !! "token") as [t|] eqn:E; [|done].
  case_decide as Ht; [done|]. destruct Hn. unfold has_token. rewrite E. naive_solver.
Qed.

Lemma PushSubTask_reconciles rep now :
  has_token rep →
  ∃ upd m, PushSubTask (json_report rep) = Some upd ∧ DbWriter.subtask_model now upd = Some m ∧ reconciles rep m.
Proof.
  intros [H1 H2]. destruct (rep !! "token") as [t|] eqn:E; [|done].
  assert (field "token" (json_report rep) = VStr t) as Hf by (unfold field, json_report; by rewrite lookup_fmap, E).
  unfold PushSubTask. rewrite as_string_report, E. rewrite decide_False by congruence. rewrite as_string_report.
  assert (∀ upd : doc, upd !! "token" = Some (VStr t) → upd !! "task_id" = None →
    DbWriter.subtask_model now upd = Some (UpdateOne {["token" := VStr t]} (<["update_time" := VInt now]> upd) ∅ true)) as Hm.
  { intros upd Htok Htask. unfold DbWriter.subtask_model, DbWriter.subtask_filter. by rewrite Htask, Htok. }
  destruct (rep !! "data_type") as [dt|] eqn:Hdt; simpl.
  - rewrite ResMap_lookup. case_decide as Hd.
    + eexists _, _. split; [done|]. split; [apply Hm; [|done]; unfold DefaultResFunc, result_update; rewrite lookup_insert_eq; by rewrite Hf|].
      exists t, now, (<["update_time" := VInt now]> (DefaultResFunc (json_report rep))).
      split_and!; [done|congruence|done|by rewrite lookup_insert_eq|done|..].
      * intros _. rewrite lookup_insert_ne by done. unfold DefaultResFunc, result_update. rewrite as_string_report.
        do 2 rewrite lookup_insert_ne by done. rewrite lookup_insert_eq.
        destruct (rep !! "status") as [st|]; [|done]. repeat case_decide; congruence.
      * intros Hnin. destruct Hnin. set_solver.
    + eexists _, _. split; [done|]. split; [apply Hm; [rewrite lookup_insert_eq; by rewrite Hf|done]|].
      eexists t, now, _. split_and!; [done|congruence|done|by rewrite lookup_insert_eq|done| |done].
      intros Hin. destruct Hd. set_solver.
  - eexists _, _. split; [done|]. split; [apply Hm; [rewrite lookup_insert_eq; by rewrite Hf|done]|].
    eexists t, now, _. split_and!; [done|congruence|done|by rewrite lookup_insert_eq|done| |done].
    intros Hin. set_solver.
Qed.

Lemma reconciles_all (reps : list (gmap string string)) xs :
  xs.*2 = omap PushSubTask (json_report <$> reps) →
  ∃ ms ops, BatchWriter.prepare_all DbWriter.subTaskUpdateWriter xs tt = Ret (tt, ops, ms) ∧
    Forall2 reconciles (filter has_token reps) ms.
Proof.
  revert xs. induction reps as [|rep reps IH]; intros xs; simpl.
  - intros Hx. destruct xs as [|[now x] xs]; [|done]. exists [], []. by split; [|constructor].
  - destruct (decide (has_token rep)) as [Ht|Ht].
    + rewrite filter_cons_True by done. destruct (PushSubTask (json_report rep)) as [upd|] eqn:Hu.
      2:{ destruct (PushSubTask_reconciles rep 0 Ht) as (u & _ & He & _). congruence. }
      intros Hx. destruct xs as [|[now x] xs]; [done|]. injection Hx as -> Hx.
      destruct (IH xs Hx) as (ms & ops & Hp & Hf).
      destruct (PushSubTask_reconciles rep now Ht) as (u & m & Hu' & Hm & Hr). rewrite Hu in Hu'. injection Hu' as <-.
      exists (m :: ms), ops. simpl. rewrite Hm. simpl. rewrite Hp. simpl. by split; [|constructor].
    + rewrite filter_cons_False by done. rewrite PushSubTask_none by done. apply IH.
Qed.

(** The manager's side of a list of posts. *)
Definition updates (posts : list (list (gmap string string))) : list doc :=
  concat ((λ post, (UpdateSubTask (inl (json_report <$> post))).1) <$> posts).

Lemma updates_concat posts : updates posts = omap PushSubTask (json_report <$> concat posts).
Proof.
  induction posts as [|p posts IH]; [done|]. change (updates (p :: posts)) with (omap PushSubTask (json_report <$> p) ++ updates posts).
  simpl. by rewrite IH, fmap_app, omap_app.
Qed.

(** What the database is asked for. *)
Lemma reports_written evs (g g' : Pool.GRPCPool) posts es w :
  1 ≤ Pool.TaskCountWeight (Pool.conf g) → length (Pool.taskList g) < Pool.TaskCountWeight (Pool.conf g) →
  Pool.run_tasks evs g = (g', posts) → Pool.pending_tasks g' = [] →
  BatchWriter.added es = updates posts → length (updates posts) ≤ 1024 * 4 →
  DbWriter.subTaskUpdateWriter_Run es (BatchWriter.init 1 tt) = Ret w →
  chbuf (BatchWriter.queue w) = [] → BatchWriter.pending w = [] →
  Forall2 reconciles (filter has_token (Pool.pending_tasks g))
    (concat (BatchWriter.batches DbWriter.AgentSubTaskCollection (BatchWriter.calls w))).
Proof.
  intros Hw Hl Hrun Hnil Hadd Hlen Hr Hq Hp.
  pose proof (Pool.tasks_complete evs g Hw Hl) as Ht. rewrite Hrun in Ht. destruct Ht as [Ht _].
  rewrite Hnil, app_nil_r in Ht.
  destruct (DbWriter.simple_delivers DbWriter.AgentSubTaskCollection DbWriter.SendCountWeight DbWriter.subtask_model
    ltac:(unfold DbWriter.SendCountWeight; lia) es w Hr) as ([_ Hacc] & (ops & ms & Hprep & _ & _ & Hone) & _).
  specialize (Hone eq_refl). rewrite Hp, app_nil_r in Hone. rewrite Hone.
  rewrite Hadd in Hacc. specialize (Hacc Hlen). unfold BatchWriter.accepted in Hacc.
  rewrite Hq, app_nil_r, updates_concat, Ht in Hacc.
  destruct (reconciles_all _ _ Hacc) as (ms' & ops' & Hprep' & Hf).
  change (BatchWriter.prepare_all (λ now x (s : unit), DbWriter.one s (DbWriter.subtask_model now x)) (BatchWriter.taken w) tt)
    with (BatchWriter.prepare_all DbWriter.subTaskUpdateWriter (BatchWriter.taken w) tt) in Hprep.
  rewrite Hprep' in Hprep. by injection Hprep as _ _ <-.
Qed.

(** [C8] Reports of finished tasks are reconciled: when the agent center has posted all it had
    queued (at most 4096 updates, the capacity of the manager's channel), and the manager's
    writer has drained its channel and its pending updates, the database has been asked
    exactly once for each report with a token, in order, and for nothing else, to update the
    subtask with that token: to record the report and, for the data types 5100, 8010 and
    6000, whether the agent succeeded; the status of subtasks of other data types (2001,
    2003, 5101) is left alone. *)
Theorem reports_reconciled evs (g g' : Pool.GRPCPool) posts es w :
  1 ≤ Pool.TaskCountWeight (Pool.conf g) → length (Pool.taskList g) < Pool.TaskCountWeight (Pool.conf g) →
  Pool.run_tasks evs g = (g', posts) → Pool.pending_tasks g' = [] →
  BatchWriter.added es = updates posts → length (updates posts) ≤ 1024 * 4 →
  DbWriter.subTaskUpdateWriter_Run es (BatchWriter.init 1 tt) = Ret w →
  chbuf (BatchWriter.queue w) = [] → BatchWriter.pending w = [] →
  Forall2 reconciles (filter has_token (Pool.pending_tasks g))
    (concat (BatchWriter.batches DbWriter.AgentSubTaskCollection (BatchWriter.calls w))).
Proof. apply reports_written. Qed.

(** ** Witnesses *)

Definition w_report : gmap string string := {["token" := "t"; "status" := "succeed"; "data_type" := "5100"; "msg" := ""]}.
Definition w_pool : Pool.GRPCPool :=
  Pool.set_taskChan (Chan 8 [w_report; {["x" := "y"]}]) (Pool.NewGRPCPool (Pool.mkConfig 4 8 2 2 10 2 240)).
Definition w_posts := (Pool.run_tasks [Pool.TaskArrives; Pool.TimerFires; Pool.TaskArrives; Pool.TimerFires] w_pool).2.
Definition w_events : list (BatchWriter.event (A:=doc)) :=
  (BatchWriter.EAdd <$> updates w_posts) ++ [BatchWriter.ETake 0 7; BatchWriter.ETimer 0].

Definition w_pool' : Pool.GRPCPool :=
  (Pool.run_tasks [Pool.TaskArrives; Pool.TimerFires; Pool.TaskArrives; Pool.TimerFires] w_pool).1.
Definition w_writer : BatchWriter.writer :=
  match DbWriter.subTaskUpdateWriter_Run w_events (BatchWriter.init 1 tt) with Ret w => w | Panic _ => BatchWriter.init 1 tt end.

Lemma w_writer_eq : DbWriter.subTaskUpdateWriter_Run w_events (BatchWriter.init 1 tt) = Ret w_writer.
Proof.
  assert (match DbWriter.subTaskUpdateWriter_Run w_events (BatchWriter.init 1 tt) with Ret _ => true | Panic _ => false end
    = true) as Hr by (vm_compute; reflexivity).
  unfold w_writer. by destruct (DbWriter.subTaskUpdateWriter_Run w_events _).
Qed.

Lemma reports_reconciled_witness :
  Forall2 reconciles (filter has_token (Pool.pending_tasks w_pool))
    (concat (BatchWriter.batches DbWriter.AgentSubTaskCollection (BatchWriter.calls w_writer))).
Proof.
  apply (reports_reconciled [Pool.TaskArrives; Pool.TimerFires; Pool.TaskArrives; Pool.TimerFires] w_pool w_pool' w_posts
    w_events w_writer ltac:(vm_compute; lia) ltac:(vm_compute; lia));
    [apply surjective_pairing|vm_compute; reflexivity|vm_compute; reflexivity|vm_compute; lia|exact w_writer_eq
    |vm_compute; reflexivity|vm_compute; reflexivity].
Defined.

(** A report that is written before the subtask it belongs to has been inserted makes a
    document of its own; the inserted subtask keeps its status. *)
Lemma report_before_insert :
  let sub : doc := {["token" := VStr "t"; "status" := VStr "succeed"; "agent_id" := VStr "a"]} in
  ∃ upd m c, PushSubTask (json_report w_report) = Some upd ∧ DbWriter.subtask_model 9 upd = Some m ∧
    calls_effect [BulkWrite [m]; BulkWrite [InsertOne sub]] ([] : list doc) c ∧
    length (filter (λ d : doc, d !! "token" = Some (VStr "t")) c) = 2 ∧ sub ∈ c.
Proof.
  intros sub. set (upd := default ∅ (PushSubTask (json_report w_report))).
  set (m := default (InsertOne ∅) (DbWriter.subtask_model 9 upd)).
  exists upd, m, (play [BulkWrite [m]; BulkWrite [InsertOne sub]] []).
  split; [subst upd; vm_compute; reflexivity|]. split; [subst m upd; vm_compute; reflexivity|]. split; [apply play_effect|].
  split; [subst m upd sub; vm_compute; reflexivity|left].
Qed.

(** Two updates of a subtask in one unordered bulk write may be applied in the wrong
    order: the older status then stays. *)
Lemma unordered_updates :
  let upd s : doc := {["token" := VStr "t"; "status" := VStr s]} in
  ∃ m1 m2 c, DbWriter.subtask_model 1 (upd "running") = Some m1 ∧ DbWriter.subtask_model 2 (upd "succeed") = Some m2 ∧
    call_effect (BulkWrite [m1; m2]) ([] : list doc) c ∧ ((λ d : doc, d !! "status") <$> c) = [Some (VStr "running")].
Proof.
  eexists _, _, _. split; [vm_compute; reflexivity|]. split; [vm_compute; reflexivity|].
  split; [eexists; split; [apply perm_swap|reflexivity]|vm_compute; reflexivity].
Qed.

End SubTask.
