(* ===== verification/Versions.v ===== *)
(** * Versions and vulnerability matching (server/manager/internal/dbtask/leader_vuln.go)

    Names and versions of packages are normalised, versions are compared as numbers, and
    the known vulnerabilities of a package are those whose entry names the version or has
    a range around it.  [compareVersion] computes with [float64]; all values are integers
    below [2^53] ([version_number_exact]), so the model computes with integers. *)

From stdpp Require Import base tactics decidable list strings gmap pretty.
From Stdlib Require Import ZArith Lia Ascii.
From S2P Require Import Prelude GoStrings.
Local Open Scope string_scope.
Local Open Scope nat_scope.
Local Open Scope go_scope.
Local Open Scope list_scope.
Set Default Proof Using "Type".

Module Versions.

(** ** Packages *)

Record PkgInfo := mkPkg {
  AgentId : string; PackageSeq : string; Type_ : string; Token : string; Name : string; Version : string;
  Source : string; Status : string; Vendor : string; Cmdline : string; Pid : string; Path : string;
  ContainerName : string; ContainerId : string }.

(** [strings.Index] and [strings.Trim(s, " ")]. *)
Definition str_index (sub s : string) : option nat := String.length ∘ fst <$> str_cut sub s.

Fixpoint trim_left_sp (s : string) : string :=
  match s with String " "%char s => trim_left_sp s | _ => s end.
Definition str_rev (s : string) : string := String.string_of_list_ascii (reverse (String.list_ascii_of_string s)).
Definition trim_sp (s : string) : string := str_rev (trim_left_sp (str_rev (trim_left_sp s))).

(** [s[i:j]]. *)
Definition str_slice (i j : Z) (s : string) : outcome string :=
  if decide (0 ≤ i ≤ j ∧ j ≤ Z.of_nat (String.length s))%Z then Ret (str_take (Z.to_nat (j - i)) (str_drop (Z.to_nat i) s))
  else Panic "slice bounds out of range".

(** [-1] where there is no occurrence. *)
Definition str_Index (sub s : string) : Z := match str_index sub s with Some n => Z.of_nat n | None => (-1)%Z end.

(** The part before the first [sep], and the part after it, where it occurs. *)
Definition cut_before (sep s : string) : string := match str_cut sep s with Some (a, _) => a | None => s end.
Definition cut_after (sep s : string) : string := match str_cut sep s with Some (_, b) => b | None => s end.

Definition formatNameVersion (p : PkgInfo) : outcome PkgInfo :=
  let ret name version vendor :=
    mkPkg (AgentId p) (PackageSeq p) "" "" name version "" "" vendor "" "" "" "" "" in
  if decide (Type_ p = "dpkg") then
    let! nv :=
      if decide (Source p ≠ "") then
        let versionStart := str_Index "(" (Source p) in
        if decide (versionStart ≠ -1)%Z then
          let! version := str_slice (versionStart + 1) (str_Index ")" (Source p)) (Source p) in
          let! name := str_slice 0 versionStart (Source p) in
          Ret (trim_sp name, version)
        else Ret (trim_sp (Source p), Version p)
      else Ret (Name p, Version p) in
    Ret (ret nv.1 (cut_after ":" (cut_before "-" nv.2)) "")
  else if decide (Type_ p = "jar") then Ret (ret (cut_before "-" (Name p)) (Version p) "apache")
  else Ret (ret (Name p) (Version p) "").

(** ** Comparison *)

Section compare.
(** What the loop over the runes of a version makes of one that is not ASCII. *)
Variable normalise_unicode : string → string.

Definition normalise_char (c : ascii) : ascii :=
  if decide (c = "_"%char ∨ c = "-"%char) then "."%char
  else if is_digit c || bool_decide (c = "."%char) then c
  else "0"%char.

Fixpoint map_chars (f : ascii → ascii) (s : string) : string :=
  match s with "" => "" | String c s => String (f c) (map_chars f s) end.

Definition normalise (v : string) : string :=
  if is_ascii v then map_chars normalise_char v else normalise_unicode v.

(** The value of a component, of which at most three bytes count: [None] if [ParseFloat]
    fails. *)
Definition component (s : string) : option Z :=
  match parse_uint (str_take 3 s) with (n, None) => Some (Z.of_N n) | _ => None end.

(** The sum over the components [i = 0, ..., 3] of [component * 1000^(4-i)]. *)
Fixpoint version_sum (i : nat) (parts : list string) : Z :=
  match parts with
  | [] => 0
  | s :: parts =>
      if decide (4 ≤ i) then 0%Z
      else
        match component s with
        | Some n => (n * 1000 ^ Z.of_nat (4 - i) + version_sum (S i) parts)%Z
        | None => version_sum (S i) parts
        end
  end.

Definition version_number (v : string) : Z := version_sum 0 (str_split "." (normalise v)).

Definition compareVersion (v1 symbol v2 : string) : bool :=
  let a := version_number v1 in
  let b := version_number v2 in
  if decide (symbol = "<") then bool_decide (a < b)%Z
  else if decide (symbol = ">") then bool_decide (a > b)%Z
  else if decide (symbol = "=") then bool_decide (a = b)
  else if decide (symbol = ">=") then bool_decide (a >= b)%Z
  else if decide (symbol = "<=") then bool_decide (a ≤ b)%Z
  else false.

(** ** Matching *)

Record CpeInfo := mkCpe {
  VulnId : Z; VersionEndExcluding : string; VersionEndIncluding : string;
  VersionStartExcluding : string; VersionStartIncluding : string }.

(** The tests on the range of an entry. *)
Definition in_range (version : string) (c : CpeInfo) : bool :=
  if decide (VersionEndExcluding c = "" ∧ VersionEndIncluding c = "" ∧
             VersionStartExcluding c = "" ∧ VersionStartIncluding c = "") then false
  else if bool_decide (VersionEndExcluding c ≠ "") && compareVersion version ">=" (VersionEndExcluding c) then false
  else if bool_decide (VersionEndIncluding c ≠ "") && compareVersion version ">" (VersionEndIncluding c) then false
  else if bool_decide (VersionStartExcluding c ≠ "") && compareVersion version "<=" (VersionStartExcluding c) then false
  else if bool_decide (VersionStartIncluding c ≠ "") && compareVersion version "<" (VersionStartIncluding c) then false
  else true.

(** The ids of the entries found for the exact version, and the entries found for the name;
    a failed query leaves a nil cursor. *)
Definition range_loop (version : string) (ids : gset Z) (cur : list CpeInfo) : gset Z :=
  foldl (λ ids c, if decide (VulnId c ∈ ids) then ids
                  else if in_range version c then {[VulnId c]} ∪ ids else ids) ids cur.

Definition vulnMatch (p : PkgInfo) (exact : option (list Z)) (entries : option (list CpeInfo)) : outcome (gset Z) :=
  match exact, entries with
  | Some ids, Some cur => Ret (range_loop (Version p) (list_to_set ids) cur)
  | _, _ => Panic "nil pointer dereference"
  end.

(** ** What the comparison means *)

(** The four numbers a version is compared by: the value of the first three digits of each
    of its first four components, 0 for a component that is missing or empty. *)
Definition numbers (v : string) : list Z :=
  (λ s, default 0%Z (component s)) <$> take 4 (str_split "." (normalise v) ++ replicate 4 "").

(** Lexicographic order. *)
Fixpoint lex_lt (l1 l2 : list Z) : bool :=
  match l1, l2 with
  | a :: l1, b :: l2 => bool_decide (a < b)%Z || (bool_decide (a = b) && lex_lt l1 l2)
  | _, _ => false
  end.

Lemma parse_uint_go_bound s acc n :
  parse_uint_go acc s = (n, None) → (n < (acc + 1) * 10 ^ N.of_nat (String.length s))%N.
Proof.
  revert acc. induction s as [|c s IH]; intros acc; cbn [parse_uint_go String.length].
  - intros [= <-]. change (N.of_nat 0) with 0%N. rewrite N.pow_0_r. lia.
  - unfold digit_of. case_bool_decide as Hd; [|done]. case_decide; [done|]. intros Hgo%IH.
    rewrite Nat2N.inj_succ, N.pow_succ_r'. nia.
Qed.

Lemma str_take_length n s : String.length (str_take n s) ≤ n.
Proof. revert s. induction n as [|n IH]; intros [|c s]; simpl; [lia..|]. specialize (IH s). lia. Qed.

Lemma component_bound s n : component s = Some n → (0 ≤ n < 1000)%Z.
Proof.
  unfold component, parse_uint. case_decide; [done|].
  destruct (parse_uint_go 0 (str_take 3 s)) as [m [e|]] eqn:E; [done|]. intros [= <-].
  apply parse_uint_go_bound in E. pose proof (str_take_length 3 s) as Hl.
  assert (10 ^ N.of_nat (String.length (str_take 3 s)) ≤ 10 ^ 3)%N by (apply N.pow_le_mono_r; lia).
  change (10 ^ 3)%N with 1000%N in *. lia.
Qed.

(** The number of a version in terms of its four numbers. *)
Definition weigh (l : list Z) : Z :=
  match l with
  | [a; b; c; d] => (a * 1000 ^ 4 + b * 1000 ^ 3 + c * 1000 ^ 2 + d * 1000)%Z
  | _ => 0%Z
  end.

Lemma version_sum_step i s parts :
  i < 4 → version_sum i (s :: parts) = (default 0 (component s) * 1000 ^ Z.of_nat (4 - i) + version_sum (S i) parts)%Z.
Proof. intros Hi. cbn [version_sum]. rewrite decide_False by lia. by destruct (component s). Qed.

Lemma version_sum_pad i parts : i ≤ 4 → version_sum i parts = version_sum i (take (4 - i) (parts ++ replicate 4 "")).
Proof.
  revert i. assert (∀ k i, i + k = 4 → version_sum i (take k (replicate 4 "")) = 0%Z) as Hz.
  { intros k i Hk. destruct k as [|[|[|[|[]]]]]; try lia; assert (i = 4 ∨ i = 3 ∨ i = 2 ∨ i = 1 ∨ i = 0) as Hi by lia;
      destruct Hi as [->|[->|[->|[->| ->]]]]; try lia; reflexivity. }
  induction parts as [|s parts IH]; intros i Hi.
  - symmetry. apply Hz. lia.
  - destruct (decide (i = 4)) as [->|Hne]; [reflexivity|].
    replace (4 - i) with (S (4 - S i)) by lia. cbn [app take].
    rewrite !version_sum_step by lia. f_equal. apply IH. lia.
Qed.

Lemma numbers_length v : length (numbers v) = 4.
Proof. unfold numbers. rewrite length_fmap, length_take, length_app, length_replicate. lia. Qed.

Lemma numbers_bound v : Forall (λ n, 0 ≤ n < 1000)%Z (numbers v).
Proof.
  unfold numbers. apply Forall_fmap, Forall_true. intros s. simpl.
  destruct (component s) as [n|] eqn:E; simpl; [by apply component_bound in E|lia].
Qed.

Lemma version_number_weigh v : version_number v = weigh (numbers v).
Proof.
  unfold version_number, numbers. rewrite version_sum_pad by lia. change (4 - 0) with 4.
  assert (length (take 4 (str_split "." (normalise v) ++ replicate 4 "")) = 4) as Hl.
  { rewrite length_take, length_app, length_replicate. lia. }
  destruct (take 4 _) as [|a [|b [|c [|d [|]]]]]; try done.
  rewrite !version_sum_step by lia. cbn [version_sum fmap list_fmap weigh Nat.sub]. lia.
Qed.

Lemma four_numbers v : ∃ a b c d, numbers v = [a; b; c; d] ∧
  (0 ≤ a < 1000 ∧ 0 ≤ b < 1000 ∧ 0 ≤ c < 1000 ∧ 0 ≤ d < 1000)%Z.
Proof.
  pose proof (numbers_length v) as Hl. pose proof (numbers_bound v) as Hb.
  destruct (numbers v) as [|a [|b [|c [|d [|]]]]]; try done. exists a, b, c, d. split; [done|].
  by repeat (apply Forall_cons in Hb as [? Hb]).
Qed.

(** All the numbers [compareVersion] computes are integers a [float64] represents exactly. *)
Lemma version_number_exact v : (0 ≤ version_number v < 2 ^ 53)%Z.
Proof. rewrite version_number_weigh. destruct (four_numbers v) as (a & b & c & d & -> & ?). simpl. lia. Qed.

Lemma lex_lt_weigh v1 v2 :
  lex_lt (numbers v1) (numbers v2) = bool_decide (version_number v1 < version_number v2)%Z.
Proof.
  rewrite !version_number_weigh.
  destruct (four_numbers v1) as (a & b & c & d & -> & ?). destruct (four_numbers v2) as (a' & b' & c' & d' & -> & ?).
  cbn [weigh lex_lt]. repeat case_bool_decide; simpl; try done; lia.
Qed.

Lemma numbers_inj v1 v2 : numbers v1 = numbers v2 ↔ version_number v1 = version_number v2.
Proof.
  rewrite !version_number_weigh. split; [by intros ->|].
  destruct (four_numbers v1) as (a & b & c & d & -> & ?). destruct (four_numbers v2) as (a' & b' & c' & d' & -> & ?).
  cbn [weigh]. intros Heq. repeat f_equal; lia.
Qed.

Lemma compareVersion_lex v1 v2 :
  compareVersion v1 "<" v2 = lex_lt (numbers v1) (numbers v2) ∧
  compareVersion v1 ">" v2 = lex_lt (numbers v2) (numbers v1) ∧
  compareVersion v1 "=" v2 = bool_decide (numbers v1 = numbers v2) ∧
  compareVersion v1 "<=" v2 = negb (lex_lt (numbers v2) (numbers v1)) ∧
  compareVersion v1 ">=" v2 = negb (lex_lt (numbers v1) (numbers v2)).
Proof.
  unfold compareVersion. simpl. rewrite !lex_lt_weigh, <- !bool_decide_not.
  split_and!; apply bool_decide_ext; rewrite ?numbers_inj; lia.
Qed.

(** Versions are compared lexicographically by their four numbers. *)
Theorem compareVersion_lexicographic v1 v2 :
  compareVersion v1 "<" v2 = lex_lt (numbers v1) (numbers v2) ∧
  compareVersion v1 ">" v2 = lex_lt (numbers v2) (numbers v1) ∧
  compareVersion v1 "=" v2 = bool_decide (numbers v1 = numbers v2) ∧
  compareVersion v1 "<=" v2 = negb (lex_lt (numbers v2) (numbers v1)) ∧
  compareVersion v1 ">=" v2 = negb (lex_lt (numbers v1) (numbers v2)).
Proof. apply compareVersion_lex. Qed.

(** ** What the matching means *)

Definition before (v1 v2 : string) : Prop := lex_lt (numbers v1) (numbers v2) = true.

(** The version is within the bounds of an entry that has bounds. *)
Definition within (v : string) (c : CpeInfo) : Prop :=
  ¬ (VersionEndExcluding c = "" ∧ VersionEndIncluding c = "" ∧ VersionStartExcluding c = "" ∧ VersionStartIncluding c = "") ∧
  (VersionEndExcluding c ≠ "" → before v (VersionEndExcluding c)) ∧
  (VersionEndIncluding c ≠ "" → ¬ before (VersionEndIncluding c) v) ∧
  (VersionStartExcluding c ≠ "" → before (VersionStartExcluding c) v) ∧
  (VersionStartIncluding c ≠ "" → ¬ before v (VersionStartIncluding c)).

Lemma in_range_within v c : in_range v c = true ↔ within v c.
Proof.
  unfold in_range, within, before.
  destruct (compareVersion_lex v (VersionEndExcluding c)) as (_ & _ & _ & _ & ->).
  destruct (compareVersion_lex v (VersionEndIncluding c)) as (_ & -> & _ & _ & _).
  destruct (compareVersion_lex v (VersionStartExcluding c)) as (_ & _ & _ & -> & _).
  destruct (compareVersion_lex v (VersionStartIncluding c)) as (-> & _ & _ & _ & _).
  case_decide as Hnone; [naive_solver|].
  repeat case_bool_decide; repeat match goal with |- context [lex_lt ?a ?b] => destruct (lex_lt a b) end; simpl; naive_solver.
Qed.

Lemma range_loop_elem v ids cur id :
  id ∈ range_loop v ids cur ↔ id ∈ ids ∨ ∃ c, c ∈ cur ∧ VulnId c = id ∧ within v c.
Proof.
  unfold range_loop. revert ids. induction cur as [|c cur IH]; intros ids; simpl; [set_solver|]. rewrite IH.
  setoid_rewrite elem_of_cons. pose proof (in_range_within v c) as Hw.
  case_decide; [|destruct (in_range v c)]; rewrite ?elem_of_union, ?elem_of_singleton; naive_solver.
Qed.

(** The vulnerabilities of a package are those with an entry for its version, or with an
    entry whose range contains its version. *)
Theorem vulnMatch_sound_complete p ids cur :
  ∃ m, vulnMatch p (Some ids) (Some cur) = Ret m ∧
    ∀ id, id ∈ m ↔ id ∈ ids ∨ ∃ c, c ∈ cur ∧ VulnId c = id ∧ within (Version p) c.
Proof. eexists. split; [done|]. intros id. rewrite range_loop_elem, elem_of_list_to_set. done. Qed.

End compare.

(** ** Normalisation of names *)

Lemma str_index_bound sub s n : str_index sub s = Some n → n + String.length sub ≤ String.length s.
Proof.
  unfold str_index. destruct (str_cut sub s) as [[a b]|] eqn:E; [|done]. simpl. intros [= <-].
  apply str_cut_Some in E as ->. rewrite !str_length_app. lia.
Qed.

(** A package makes [formatNameVersion] panic exactly if it is a Debian package whose source
    has an opening parenthesis with no closing one after the first. *)
Lemma formatNameVersion_panics p :
  panics (formatNameVersion p) ↔
  Type_ p = "dpkg" ∧ ∃ i, str_index "(" (Source p) = Some i ∧ ∀ j, str_index ")" (Source p) = Some j → j ≤ i.
Proof.
  unfold formatNameVersion. case_decide as Ht.
  2:{ split; [|naive_solver]. case_decide; intros [? [=]]. }
  case_decide as Hs.
  2:{ rewrite Hs. simpl. split; [intros [? [=]]|intros (_ & i & [=] & _)]. }
  unfold str_Index. destruct (str_index "(" (Source p)) as [i|] eqn:Hi; [|simpl; split; [intros [? [=]]|naive_solver]].
  rewrite decide_True by lia. pose proof (str_index_bound _ _ _ Hi) as Hb. simpl in Hb.
  destruct (str_index ")" (Source p)) as [j|] eqn:Hj.
  - pose proof (str_index_bound _ _ _ Hj) as Hb'. simpl in Hb'. unfold str_slice at 1. case_decide as Hd; simpl.
    + unfold str_slice. rewrite decide_True by lia. simpl. split; [intros [? [=]]|].
      intros (_ & i' & [= <-] & Hle). specialize (Hle j eq_refl). lia.
    + split; [|by eexists]. intros _. split; [done|]. exists i. split; [done|]. intros j' [= <-]. lia.
  - unfold str_slice at 1. rewrite decide_False by lia. simpl. split; [|by eexists].
    intros _. split; [done|]. exists i. naive_solver.
Qed.

(** Components of more than three digits are cut: 1.2019 counts as older than 1.202. *)
Lemma long_component_cut : compareVersion (λ v, v) "1.2019" "<" "1.202" = true.
Proof. vm_compute. done. Qed.

(** A letter counts as the digit 0 behind the ones before it: 1.0.2k is newer than 1.0.3. *)
Lemma letter_is_zero : compareVersion (λ v, v) "1.0.2k" ">" "1.0.3" = true.
Proof. vm_compute. done. Qed.

End Versions.
