(* ===== verification/Vuln.v ===== *)
(** * Vulnerabilities of hosts (server/manager/internal/dbtask/leader_vuln.go,
    biz/handler/v6/vuln.go)

    Packages reported by agents are collected per agent, looked up (through two caches) and
    the vulnerabilities found are written to the database, keeping what users have decided
    about known ones.  The answers of the database are an argument ([Env]); a call reads the
    clock once, where the code reads it at every use. *)

From stdpp Require Import base tactics decidable list strings gmap pretty sorting.
From Stdlib Require Import ZArith Lia.
From S2P Require Import Prelude GoStrings Bson DbWriter Versions.
Local Open Scope string_scope.
Local Open Scope nat_scope.
Local Open Scope go_scope.
Local Open Scope list_scope.
Set Default Proof Using "Type".

Module Vuln.
Import Versions.

(** ** Data *)

Record AgentVulnInfo := mkVuln {
  vAgentId : string; vVulnId : Z; CveId : string; vStatus : string; Level : string; CreateTime : Z;
  vUpdateTime : Z; ControlTime : Z; DropStatus : string; vAction : string; OperateReason : string }.

Record AgentVulnSoftInfo := mkSoft {
  sAgentId : string; sVulnId : Z; sType : string; PackageName : string; PackageVersion : string;
  PackageSource : string; PackagePath : string; sContainerName : string; sContainerId : string;
  sCmdline : string; sUpdateTime : Z; PidList : list (string * string) }.

Record VulnInfoLess := mkLess {
  Id : Z; PublishedTime : Z; Severity : string; Cve : string; VulnNameEn : string; Action : string; Score : Z }.

Definition VulnStatusUnProcessed := "unprocessed".
Definition VulnStatusIgnored := "ignored".
Definition VulnDropStatusUse := "using".
Definition VulnActionBlock := "block".
Definition MuchVulnAgent : Z := 2000.
Definition hitMax : nat := 7.

(** The documents of the two structures. *)
Definition vuln_doc (v : AgentVulnInfo) : doc :=
  {["agent_id" := VStr (vAgentId v); "vuln_id" := VInt (vVulnId v); "cve_id" := VStr (CveId v); "status" := VStr (vStatus v);
    "level" := VStr (Level v); "create_time" := VInt (CreateTime v); "update_time" := VInt (vUpdateTime v);
    "control_time" := VInt (ControlTime v); "drop_status" := VStr (DropStatus v); "action" := VStr (vAction v);
    "operate_reason" := VStr (OperateReason v)]}.

Definition pid_value (pc : string * string) : value := VDoc [("pid", VStr pc.1); ("cmd", VStr pc.2)].

Definition soft_doc (s : AgentVulnSoftInfo) : doc :=
  {["agent_id" := VStr (sAgentId s); "vuln_id" := VInt (sVulnId s); "type" := VStr (sType s);
    "package_name" := VStr (PackageName s); "package_version" := VStr (PackageVersion s);
    "package_source" := VStr (PackageSource s); "package_path" := VStr (PackagePath s);
    "container_name" := VStr (sContainerName s); "container_id" := VStr (sContainerId s);
    "cmdline" := VStr (sCmdline s); "update_time" := VInt (sUpdateTime s);
    "pid_list" := if decide (PidList s = []) then VNull else VArr (pid_value <$> PidList s)]}.

(** ** Lookup *)

(** The answers of the database: entries for a version and for a name, the vulnerabilities
    with given ids (an entry that does not decode is [None]), the number of hosts online,
    the old vulnerabilities of an agent and the ignored ones with their reasons.  A failed
    query, where its error is dropped, is [None].  [recent] is the day three years ago. *)
Record Env := mkEnv {
  exact : PkgInfo → option (list Z); entries : PkgInfo → option (list CpeInfo);
  infos : list Z → option (list (option VulnInfoLess)); online : Z + string; recent : Z;
  olds : string → option (list AgentVulnInfo); ignored : option (list (Z * string)) }.

Record caches := mkCaches { CpeCache : gmap string (list Z); VulnCache : gmap string (list VulnInfoLess); IfLarge : option Z }.

Section lookup.
Context `{RangerZ}.
Variable normalise_unicode : string → string.
(** [sort.Slice] by descending score. *)
Variable sort_slice : list VulnInfoLess → list VulnInfoLess.
Variable env : Env.

Definition CpeSearch (p : PkgInfo) (c : caches) : outcome (caches * list Z) :=
  let cpeKey := Name p +:+ "-" +:+ Version p +:+ "-" +:+ Vendor p in
  match CpeCache c !! cpeKey with
  | Some ids => Ret (c, ids)
  | None =>
      let! m := vulnMatch normalise_unicode p (exact env p) (entries env p) in
      let ids := (range_z "CpeSearch" (gset_to_gmap "" m)).*1 in
      Ret (mkCaches (<[cpeKey := ids]> (CpeCache c)) (VulnCache c) (IfLarge c), ids)
  end.

(** The number of hosts, counted once a day. *)
Definition agent_num (c : caches) : caches * Z :=
  match IfLarge c with
  | Some n => (c, n)
  | None =>
      match online env with
      | inl n => (mkCaches (CpeCache c) (VulnCache c) (Some n), n)
      | inr _ => (c, 0%Z)
      end
  end.

(** The vulnerabilities kept: none of Mac OS; those to be blocked; others only in small
    installations and if recent. *)
Definition scored (agentNum : Z) (v : VulnInfoLess) : option VulnInfoLess :=
  let with_score s := Some (mkLess (Id v) (PublishedTime v) (Severity v) (Cve v) (VulnNameEn v) (Action v)
    (int64 (s * 10000000000 + PublishedTime v))) in
  if str_contains "mac os" (VulnNameEn v) then None
  else if decide (Action v = VulnActionBlock) then with_score 6%Z
  else if decide (agentNum > MuchVulnAgent)%Z then None
  else if decide (PublishedTime v < recent env)%Z then None
  else with_score (parse_int (Severity v)).1.

Definition FileterVuln (ids : list Z) (c : caches) : outcome (caches * list VulnInfoLess) :=
  match ids with
  | [] => Ret (c, [])
  | _ =>
      let '(c, agentNum) := agent_num c in
      match infos env ids with
      | None => Panic "nil pointer dereference"
      | Some cur =>
          let l := omap (λ v, v ≫= scored agentNum) cur in
          Ret (c, if decide (hitMax < length l) then take hitMax (sort_slice l) else l)
      end
  end.

(** The vulnerabilities of a package, from the cache if its name, version and vendor have
    been seen. *)
Definition package_vulns (p : PkgInfo) (c : caches) : outcome (caches * list VulnInfoLess) :=
  let vulnKey := Name p +:+ "--" +:+ Version p +:+ "--" +:+ Vendor p in
  match VulnCache c !! vulnKey with
  | Some l => Ret (c, l)
  | None =>
      let! q := formatNameVersion p in
      let! r := CpeSearch q c in
      let! r := FileterVuln r.2 r.1 in
      Ret (mkCaches (CpeCache r.1) (<[vulnKey := r.2]> (VulnCache r.1)) (IfLarge r.1), r.2)
  end.

Fixpoint lookup_all (ps : list PkgInfo) (c : caches) : outcome (caches * list (PkgInfo * list VulnInfoLess)) :=
  match ps with
  | [] => Ret (c, [])
  | p :: ps =>
      let! r := package_vulns p c in
      let! r' := lookup_all ps r.1 in
      Ret (r'.1, (p, r.2) :: r'.2)
  end.

(** ** Writing *)

Definition levelMap (severity : string) : string :=
  if decide (severity = "1") then "low" else if decide (severity = "2") then "low"
  else if decide (severity = "3") then "mid" else if decide (severity = "4") then "high"
  else if decide (severity = "5") then "danger" else "".

Definition agent_vuln (p : PkgInfo) (v : VulnInfoLess) : AgentVulnInfo :=
  mkVuln (AgentId p) (Id v) (Cve v) "" (levelMap (Severity v)) (PublishedTime v) 0 0 "" (Action v) "".

Definition agent_soft (now : Z) (p : PkgInfo) (v : VulnInfoLess) : AgentVulnSoftInfo :=
  mkSoft (AgentId p) (Id v) (Type_ p) (Name p) (Version p)
    (if decide (Type_ p = "dpkg") then Source p +:+ "(dpkg)" else Type_ p) (Path p) (ContainerName p) (ContainerId p)
    "" now (if decide (Pid p ≠ "") then [(Pid p, Cmdline p)] else []).

(** The maps of the vulnerabilities found and of the packages that have them. *)
Definition found (now : Z) (hits : list (PkgInfo * list VulnInfoLess)) :
    gmap Z AgentVulnInfo * gmap Z (list AgentVulnSoftInfo) :=
  foldl (λ acc pl, foldl (λ '(vs, ss) v,
      (<[Id v := agent_vuln pl.1 v]> vs,
       <[Id v := default [] (ss !! Id v) ++ [agent_soft now pl.1 v]]> ss)) acc pl.2)
    (∅, ∅) hits.

Definition vuln_filter (vulnId : Z) (agentId : string) : doc := {["vuln_id" := VInt vulnId; "agent_id" := VStr agentId]}.

(** The write for a vulnerability, and whether its packages are written too. *)
Definition vuln_write (now : Z) (agentId : string) (oldMap : gmap Z AgentVulnInfo) (ignoredMap : gmap Z string)
    (vulnId : Z) (v : AgentVulnInfo) : write_model * bool :=
  let upsert status create control reason :=
    (UpdateOne (vuln_filter vulnId agentId)
      (vuln_doc (mkVuln agentId vulnId (CveId v) status (Level v) create now control VulnDropStatusUse (vAction v) reason))
      ∅ true, true) in
  match oldMap !! vulnId with
  | None =>
      match ignoredMap !! vulnId with
      | Some reason => upsert VulnStatusIgnored now now reason
      | None => upsert VulnStatusUnProcessed now now ""
      end
  | Some o =>
      if decide (vStatus o = VulnStatusUnProcessed) then upsert VulnStatusUnProcessed (CreateTime o) (ControlTime o) ""
      else (UpdateOne (vuln_filter vulnId agentId) {["update_time" := VInt 0]} ∅ false, false)
  end.

Definition soft_write (s : AgentVulnSoftInfo) : write_model :=
  UpdateOne {["agent_id" := VStr (sAgentId s); "vuln_id" := VInt (sVulnId s); "package_name" := VStr (PackageName s)]}
    (soft_doc s) ∅ true.

(** [DealPkgList]: the caches, the calls on the other collections (an [UpdateOne] call is a
    bulk write of one) and the writes. *)
Definition DealPkgList (now : Z) (ps : list PkgInfo) (c : caches) :
    outcome (caches * list db_op * option (list write_model)) :=
  match ps with
  | [] => Panic "index out of range"
  | p0 :: _ =>
      let agentId := AgentId p0 in
      let! r := lookup_all ps c in
      let '(newVulnInfoMap, newVulnSoftMap) := found now r.2 in
      match olds env agentId, ignored env with
      | Some old, Some ign =>
          let oldMap := map_by vVulnId old in
          let ignoredMap : gmap Z string := snd <$> map_by fst ign in
          let ws := (λ '(id, v), (id, vuln_write now agentId oldMap ignoredMap id v)) <$> range_z "DealPkgList" newVulnInfoMap in
          let softs := mjoin ((λ '(id, w), if (w : write_model * bool).2 then default [] (newVulnSoftMap !! id) else []) <$> ws) in
          Ret (r.1, [mkOp "agent_vuln_soft_info" (BulkWrite (soft_write <$> softs));
                     mkOp "vuln_task_status" (BulkWrite [UpdateOne {["agent_id" := VStr agentId]} {["status" := VStr "finished"]} ∅ false])],
            Some ((λ x, (x.2).1) <$> ws))
      | _, _ => Panic "nil pointer dereference"
      end
  end.

(** ** The most severe vulnerabilities are kept *)

Lemma StronglySorted_split {A} (R : A → A → Prop) n (l : list A) x y :
  StronglySorted R l → x ∈ take n l → y ∈ drop n l → R x y.
Proof.
  intros Hs. revert n. induction Hs as [|a l Hs IH Ha]; intros [|n]; simpl; try (intros Hx; set_solver).
  intros [->|Hx]%elem_of_cons Hy; [|by eapply IH]. rewrite Forall_forall in Ha. apply Ha.
  rewrite <- (take_drop n l). set_solver.
Qed.

Section top.
Hypothesis sort_law : ∀ l, sort_slice l ≡ₚ l ∧ StronglySorted (λ a b, Score b ≤ Score a)%Z (sort_slice l).

(** At most seven vulnerabilities are kept of those that qualify, and none with a greater
    score is left out. *)
Lemma FileterVuln_top ids c c' l :
  FileterVuln ids c = Ret (c', l) →
  length l ≤ 7 ∧
  (ids ≠ [] → ∃ cur rest, infos env ids = Some cur ∧ omap (λ v, v ≫= scored (agent_num c).2) cur ≡ₚ l ++ rest ∧
    ∀ x y, x ∈ l → y ∈ rest → (Score y ≤ Score x)%Z).
Proof using sort_law.
  unfold FileterVuln. destruct ids as [|i ids]; [intros [= _ <-]; simpl; split; [lia|done]|].
  destruct (agent_num c) as [c1 n] eqn:En. destruct (infos env (i :: ids)) as [cur|] eqn:Ei; [|done].
  intros [= _ <-]. case_decide as Hlen.
  - rewrite length_take. split; [unfold hitMax; lia|]. intros _.
    set (k := omap (λ v, v ≫= scored n) cur) in *. destruct (sort_law k) as [Hp Hs].
    exists cur, (drop hitMax (sort_slice k)). split_and!; [done|by rewrite take_drop, Hp|].
    intros x y Hx Hy. exact (StronglySorted_split (λ a b, Score b ≤ Score a)%Z hitMax (sort_slice k) x y Hs Hx Hy).
  - unfold hitMax in Hlen. split; [lia|]. intros _. exists cur, []. rewrite app_nil_r. split_and!; [done..|]. intros. set_solver.
Qed.

End top.

(** ** Decisions of users are kept *)

(** The pairs of packages and vulnerabilities. *)
Definition flat (hits : list (PkgInfo * list VulnInfoLess)) : list (PkgInfo * VulnInfoLess) :=
  hits ≫= λ pl, (λ v, (pl.1, v)) <$> pl.2.

Lemma found_flat now hits :
  found now hits = foldl (λ '(vs, ss) '(p, v),
      (<[Id v := agent_vuln p v]> vs, <[Id v := default [] (ss !! Id v) ++ [agent_soft now p v]]> ss))
    (∅, ∅) (flat hits).
Proof.
  unfold found. generalize (∅ : gmap Z AgentVulnInfo, ∅ : gmap Z (list AgentVulnSoftInfo)).
  induction hits as [|[p l] hits IH]; intros acc; simpl; [done|]. rewrite foldl_app, IH. f_equal.
  revert acc. induction l as [|v l IHl]; intros [vs ss]; simpl; [done|]. by rewrite <- IHl.
Qed.

Lemma found_spec now hits :
  (∀ id, is_Some ((found now hits).1 !! id) ↔ ∃ p v, (p, v) ∈ flat hits ∧ Id v = id) ∧
  (∀ id, default [] ((found now hits).2 !! id) =
     (λ pv, agent_soft now pv.1 pv.2) <$> filter (λ pv, Id pv.2 = id) (flat hits)).
Proof.
  rewrite found_flat. induction (flat hits) as [|[p v] l IH] using rev_ind.
  { split; intros id; simpl; rewrite lookup_empty; [|done]. split; [by intros []|set_solver]. }
  rewrite foldl_snoc. destruct (foldl _ _ l) as [vs ss]. simpl in *. destruct IH as [IH1 IH2]. split; intros id.
  - destruct (decide (Id v = id)) as [<-|Hne].
    + rewrite lookup_insert_eq. split; [|by eexists]. intros _. exists p, v. set_solver.
    + rewrite lookup_insert_ne, IH1 by done. setoid_rewrite elem_of_app. set_solver.
  - rewrite filter_app, fmap_app. destruct (decide (Id v = id)) as [<-|Hne].
    + rewrite lookup_insert_eq, filter_cons_True by done. simpl. by rewrite IH2.
    + rewrite lookup_insert_ne, IH2, filter_cons_False by done. by rewrite app_nil_r.
Qed.

(** What is written about vulnerability [id] of an agent: one that is not known yet is new,
    ignored if users ignore it everywhere; one that nobody has handled stays so, with the
    time it was found; for one that has been handled, no decision is touched (its
    [update_time] becomes 0). *)
Definition verdict (now : Z) (agentId : string) (old : list AgentVulnInfo) (ign : list (Z * string)) (id : Z) (w : write_model) : Prop :=
  match last (filter (λ o, vVulnId o = id) old) with
  | Some o =>
      if decide (vStatus o = VulnStatusUnProcessed)
      then ∃ set, w = UpdateOne (vuln_filter id agentId) set ∅ true ∧ set !! "status" = Some (VStr VulnStatusUnProcessed) ∧
        set !! "create_time" = Some (VInt (CreateTime o)) ∧ set !! "control_time" = Some (VInt (ControlTime o))
      else ∃ set, w = UpdateOne (vuln_filter id agentId) set ∅ false ∧ set !! "update_time" = Some (VInt 0) ∧
        ∀ k, k ≠ "update_time" → set !! k = None
  | None =>
      ∃ set, w = UpdateOne (vuln_filter id agentId) set ∅ true ∧ set !! "create_time" = Some (VInt now) ∧
        set !! "status" = Some (VStr (if decide (id ∈ ign.*1) then VulnStatusIgnored else VulnStatusUnProcessed))
  end.

Lemma vuln_write_verdict now agentId old ign id v :
  verdict now agentId old ign id
    (vuln_write now agentId (map_by vVulnId old) (snd <$> map_by fst ign) id v).1.
Proof.
  unfold verdict, vuln_write. rewrite map_by_lookup. destruct (last (filter (λ o, vVulnId o = id) old)) as [o|].
  - case_decide; simpl; eexists; (split; [reflexivity|]); split_and!; try reflexivity.
    intros k Hk. by rewrite lookup_singleton_ne.
  - rewrite lookup_fmap. destruct (map_by fst ign !! id) as [[i reason]|] eqn:E; simpl.
    + rewrite decide_True. { eexists. split; [reflexivity|]. by split. }
      apply dec_stable. intros Hn. apply (map_by_none fst ign id) in Hn. congruence.
    + rewrite decide_False by (by apply map_by_none). eexists. split; [reflexivity|]. by split.
Qed.

(** Elements in groups by a key are the elements. *)
Lemma groups_cons {A} (k : A → Z) (ids : list Z) x l :
  NoDup ids → k x ∈ ids →
  mjoin ((λ i, filter (λ y, k y = i) (x :: l)) <$> ids) ≡ₚ x :: mjoin ((λ i, filter (λ y, k y = i) l) <$> ids).
Proof using Type.
  clear. induction 1 as [|i ids Hi Hnd IH]; intros Hx; [by apply elem_of_nil in Hx|]. rewrite !fmap_cons. cbn [mjoin list_join].
  rewrite filter_cons. apply elem_of_cons in Hx as [<-|Hx].
  - rewrite decide_True by done. cbn [app]. apply perm_skip, Permutation_app_head. apply reflexive_eq. f_equal.
    apply list_fmap_ext. intros j i' Hj. rewrite filter_cons, decide_False; [done|]. intros E. apply Hi. rewrite E.
    by eapply list_elem_of_lookup_2.
  - rewrite decide_False by (by intros <-). rewrite IH by done. by rewrite <- Permutation_middle.
Qed.

Lemma groups_perm {A} (k : A → Z) (ids : list Z) l :
  NoDup ids → (∀ x, x ∈ l → k x ∈ ids) → mjoin ((λ i, filter (λ y, k y = i) l) <$> ids) ≡ₚ l.
Proof using Type.
  clear. intros Hnd. induction l as [|x l IH]; intros Hl.
  - assert (mjoin ((λ i, filter (λ y, k y = i) ([] : list A)) <$> ids) = []) as ->; [|done].
    clear. induction ids as [|i ids IH]; [done|]. exact IH.
  - rewrite groups_cons by (try done; apply Hl; left). apply perm_skip, IH. intros y Hy. apply Hl. by right.
Qed.

(** The elements whose group is wanted. *)
Lemma groups_wanted {A B} (k : A → Z) (P : Z → Prop) `{!∀ i, Decision (P i)} (f : A → B) (ids : list Z) l :
  NoDup ids → (∀ x, x ∈ l → k x ∈ ids) →
  mjoin ((λ i, if bool_decide (P i) then f <$> filter (λ y, k y = i) l else []) <$> ids) ≡ₚ f <$> filter (λ y, P (k y)) l.
Proof using Type.
  intros Hnd Hl. etrans; [|apply fmap_Permutation, (groups_perm k ids); [done|]].
  2:{ intros x [_ Hx]%list_elem_of_filter. by apply Hl. }
  apply reflexive_eq. clear Hnd Hl. induction ids as [|i ids IH]; [done|]. rewrite !fmap_cons.
  assert (∀ C (x : list C) ys, mjoin (x :: ys) = x ++ mjoin ys) as Hj by done. rewrite !Hj, fmap_app, IH. f_equal.
  rewrite list_filter_filter. case_bool_decide as Hi.
  - f_equal. apply list_filter_iff. intros x. split; [intros <-; by split|by intros [? ?]].
  - clear IH. induction l as [|x l IHl]; [done|]. rewrite filter_cons_False; [done|]. by intros [<- ?].
Qed.

(** The vulnerability is new for the agent, or nobody has decided about it. *)
Definition undecided (old : list AgentVulnInfo) (id : Z) : Prop :=
  match last (filter (λ o, vVulnId o = id) old) with Some o => vStatus o = VulnStatusUnProcessed | None => True end.

#[local] Instance undecided_dec old id : Decision (undecided old id).
Proof. unfold undecided. destruct (last _); apply _. Defined.

Lemma vuln_write_softs now agentId old ign id v :
  (vuln_write now agentId (map_by vVulnId old) ign id v).2 = bool_decide (undecided old id).
Proof using Type.
  apply Bool.eq_true_iff_eq. rewrite bool_decide_eq_true. unfold vuln_write, undecided. rewrite map_by_lookup.
  destruct (last (filter (λ o, vVulnId o = id) old)) as [o|]; [by case_decide|by destruct (ign !! id)].
Qed.


(** ** The writer *)

(** [MyRun] of eight goroutines that share the channel and the caches. *)
Definition leaderVulnWriter_MyRun := BatchWriter.run "agent_vuln_info" (Some 100) DealPkgList.

Lemma vuln_writer_delivers c0 :
  BatchWriter.delivers "agent_vuln_info" (Some 100) DealPkgList 8 c0 None.
Proof using Type.
  apply BatchWriter.writer_delivers; [|done|done]. intros now ps c c' ops ms. unfold DealPkgList.
  destruct ps; [done|]. destruct (lookup_all _ c) as [r|]; [|done]. cbn [obind]. destruct (found now r.2).
  destruct (olds env _); [|done]. destruct (ignored env); [|done]. intros [= _ <- _]. done.
Qed.

End lookup.

(** ** Collecting packages (vuln.go) *)

Section collecting.
Context `{Ranger}.

Abbreviation pkgs := (gmap string (list PkgInfo)).

(** A list of 100 packages of an agent is passed to the writer. *)
Definition GetAgentPkgList (p : PkgInfo) (pkgMap : pkgs) : pkgs * list (list PkgInfo) :=
  let l := default [] (pkgMap !! AgentId p) ++ [p] in
  if decide (100 ≤ length l) then (delete (AgentId p) pkgMap, [l]) else (<[AgentId p := l]> pkgMap, []).

(** A tick of the flush: every list that is not empty is passed on. *)
Definition flush (pkgMap : pkgs) : pkgs * list (list PkgInfo) :=
  foldl (λ '(m, out) '(a, l), if decide (0 < length l) then (delete a m, out ++ [l]) else (m, out))
    (pkgMap, []) (range_kv "FlushPkgInfo" pkgMap).

Inductive pevent := PReport (p : PkgInfo) | PTick.

Definition pstep (e : pevent) (m : pkgs) : pkgs * list (list PkgInfo) :=
  match e with PReport p => GetAgentPkgList p m | PTick => flush m end.

Fixpoint prun (es : list pevent) (m : pkgs) : pkgs * list (list PkgInfo) :=
  match es with
  | [] => (m, [])
  | e :: es => let '(m, out) := pstep e m in let '(m, out') := prun es m in (m, out ++ out')
  end.

Definition reported (es : list pevent) : list PkgInfo := omap (λ e, match e with PReport p => Some p | PTick => None end) es.
Definition of_agent (a : string) (l : list PkgInfo) : list PkgInfo := filter (λ p, AgentId p = a) l.

(** Lists are filed under the agent of their packages, are not empty and have less than 100
    packages. *)
Definition filed (m : pkgs) : Prop :=
  ∀ a l, m !! a = Some l → l ≠ [] ∧ length l < 100 ∧ Forall (λ p, AgentId p = a) l.

Definition list_ok (l : list PkgInfo) : Prop := l ≠ [] ∧ length l ≤ 100 ∧ ∃ a, Forall (λ p, AgentId p = a) l.

Lemma of_agent_all a l : Forall (λ p, AgentId p = a) l → of_agent a l = l.
Proof. induction 1 as [|p l Hp _ IH]; [done|]. unfold of_agent in *. rewrite filter_cons_True by done. by f_equal. Qed.

Lemma of_agent_other a b l : a ≠ b → Forall (λ p, AgentId p = b) l → of_agent a l = [].
Proof. intros Hne Hf. apply filter_none. intros p Hp Ha. rewrite Forall_forall in Hf. specialize (Hf _ Hp). simpl in Hf. congruence. Qed.

Lemma report_step p m m' out :
  filed m → GetAgentPkgList p m = (m', out) →
  filed m' ∧ Forall list_ok out ∧
  ∀ a, of_agent a (concat out) ++ default [] (m' !! a) = default [] (m !! a) ++ of_agent a [p].
Proof.
  intros Hm. unfold GetAgentPkgList. set (l := default [] (m !! AgentId p) ++ [p]).
  assert (length l ≤ 100 ∧ Forall (λ q, AgentId q = AgentId p) l) as [Hlen Hag].
  { unfold l. destruct (m !! AgentId p) as [l0|] eqn:E; simpl; [|split; [lia|by constructor]].
    destruct (Hm _ _ E) as (_ & Hl & Hf). rewrite length_app. simpl. split; [lia|]. apply Forall_app. by split; [|constructor]. }
  assert (l ≠ []) as Hne by (unfold l; by destruct (default [] (m !! AgentId p))).
  case_decide as Hd; intros [= <- <-].
  - split_and!.
    + intros a l' Ha. apply lookup_delete_Some in Ha as [_ Ha]. by apply Hm.
    + constructor; [|done]. split_and!; [done..|by eexists].
    + intros a. simpl. rewrite app_nil_r. destruct (decide (a = AgentId p)) as [->|Hn].
      * rewrite lookup_delete_eq, of_agent_all by done. simpl. unfold l.
        rewrite app_nil_r. unfold of_agent. by rewrite filter_cons_True.
      * rewrite lookup_delete_ne by done. rewrite (of_agent_other a (AgentId p)) by done.
        unfold of_agent. rewrite filter_cons_False by done. simpl. by rewrite app_nil_r.
  - split_and!; [|constructor|].
    + intros a l' Ha. destruct (decide (a = AgentId p)) as [->|Hn].
      * rewrite lookup_insert_eq in Ha. injection Ha as <-. split_and!; [done|lia|done].
      * rewrite lookup_insert_ne in Ha by done. by apply Hm.
    + intros a. simpl. destruct (decide (a = AgentId p)) as [->|Hn].
      * rewrite lookup_insert_eq. simpl. unfold l, of_agent. by rewrite filter_cons_True.
      * rewrite lookup_insert_ne by done. unfold of_agent. rewrite filter_cons_False by done. by rewrite app_nil_r.
Qed.

Lemma of_agent_app a l l' : of_agent a (l ++ l') = of_agent a l ++ of_agent a l'.
Proof. apply filter_app. Qed.

(** With no empty list, a tick passes all of them on and leaves the map empty. *)
Lemma flush_all m : filed m → flush m = (∅, (range_kv "FlushPkgInfo" m).*2).
Proof.
  intros Hm. unfold flush.
  assert (∀ (ps : list (string * list PkgInfo)) (m0 : pkgs) out, (∀ a l, (a, l) ∈ ps → l ≠ []) →
    foldl (λ '(m, out) '(a, l), if decide (0 < length l) then (delete a m, out ++ [l]) else (m, out)) (m0, out) ps =
    (foldl (λ m a, delete a m) m0 ps.*1, out ++ ps.*2)) as Hf.
  { induction ps as [|[a l] ps IH]; intros m0 out Hne; simpl; [by rewrite app_nil_r|].
    rewrite decide_True by (specialize (Hne a l ltac:(left)); destruct l; simpl; [done|lia]).
    rewrite IH by (intros; eapply Hne; by right). by rewrite <- app_assoc. }
  rewrite Hf by (intros a l Hin%range_kv_elem; by eapply Hm). simpl. f_equal.
  assert (∀ ks (m0 : pkgs) a, foldl (λ m k, delete k m) m0 ks !! a = if decide (a ∈ ks) then None else m0 !! a) as Hd.
  { induction ks as [|k ks IH]; intros m0 a; simpl; [done|]. rewrite IH. destruct (decide (a = k)) as [->|Hn].
    - rewrite lookup_delete_eq. rewrite (decide_True (P := k ∈ k :: ks)) by left. by case_decide.
    - rewrite lookup_delete_ne by done. repeat case_decide; set_solver. }
  apply map_eq. intros a. rewrite Hd, lookup_empty. case_decide as Ha; [done|]. apply eq_None_not_Some. intros [l Hl].
  apply Ha, list_elem_of_fmap. exists (a, l). split; [done|]. by apply range_kv_elem.
Qed.

Lemma of_agent_lists a (ps : list (string * list PkgInfo)) :
  NoDup ps.*1 → (∀ b l, (b, l) ∈ ps → Forall (λ p, AgentId p = b) l) →
  of_agent a (concat ps.*2) = default [] ((list_to_map ps : pkgs) !! a).
Proof.
  induction ps as [|[b l] ps IH]; intros Hnd Hag; [done|]. apply NoDup_cons in Hnd as [Hb Hnd].
  rewrite fmap_cons. cbn [concat snd list_to_map foldr]. rewrite of_agent_app, IH by (done || (intros; eapply Hag; by right)).
  specialize (Hag b l ltac:(left)) as Hl. destruct (decide (a = b)) as [->|Hne].
  - rewrite lookup_insert_eq, of_agent_all by done. simpl. rewrite (not_elem_of_list_to_map_1 ps b) by done. apply app_nil_r.
  - rewrite lookup_insert_ne by done. by rewrite (of_agent_other a b).
Qed.

Lemma flush_step m m' out :
  filed m → flush m = (m', out) →
  filed m' ∧ Forall list_ok out ∧ ∀ a, of_agent a (concat out) ++ default [] (m' !! a) = default [] (m !! a).
Proof.
  intros Hm. rewrite flush_all by done. intros [= <- <-]. split_and!.
  - intros a l. by rewrite lookup_empty.
  - apply Forall_fmap, Forall_forall. intros [a l] Hin%range_kv_elem. destruct (Hm _ _ Hin) as (? & ? & ?).
    split_and!; simpl; [done|lia|by eexists].
  - intros a. rewrite lookup_empty, app_nil_r. rewrite of_agent_lists.
    + f_equal. assert (list_to_map (range_kv "FlushPkgInfo" m) = m) as ->; [|done].
      apply map_eq. intros k. apply option_eq. intros l.
      rewrite <- elem_of_list_to_map by apply range_kv_NoDup_fst. apply range_kv_elem.
    + apply range_kv_NoDup_fst.
    + intros b l Hin%range_kv_elem. by eapply Hm.
Qed.

(** The packages an agent reports reach the vulnerability writer: after any sequence of
    reports and ticks the lists passed on are of one agent each, with 1 to 100 packages, and
    for every agent the lists passed on followed by the list that is still collected are its
    reports in order; a tick leaves nothing behind. *)
Theorem packages_collected es m out :
  prun es ∅ = (m, out) →
  Forall list_ok out ∧
  (∀ a, of_agent a (concat out) ++ default [] (m !! a) = of_agent a (reported es)) ∧
  (flush m).1 = ∅.
Proof.
  intros Hr. assert (filed ∅) as H0 by (intros a l; by rewrite lookup_empty).
  assert (∀ m0, filed m0 → prun es m0 = (m, out) → filed m ∧ Forall list_ok out ∧
    ∀ a, of_agent a (concat out) ++ default [] (m !! a) = default [] (m0 !! a) ++ of_agent a (reported es)) as Hg.
  { clear Hr. revert m out. induction es as [|e es IH]; intros m out m0 Hm0; simpl.
    - intros [= <- <-]. split_and!; [done|constructor|]. intros a. simpl. by rewrite app_nil_r.
    - destruct (pstep e m0) as [m1 o1] eqn:E. destruct (prun es m1) as [m2 o2] eqn:E2. intros [= <- <-].
      assert (filed m1 ∧ Forall list_ok o1 ∧ ∀ a, of_agent a (concat o1) ++ default [] (m1 !! a) =
        default [] (m0 !! a) ++ of_agent a (reported [e])) as (Hm1 & Ho1 & Ha1).
      { destruct e as [p|]; simpl in E; [by apply report_step|].
        destruct (flush_step _ _ _ Hm0 E) as (? & ? & Ha). split_and!; [done..|]. intros a. rewrite Ha. simpl. by rewrite app_nil_r. }
      destruct (IH m2 o2 m1 Hm1 E2) as (Hm2 & Ho2 & Ha2). split_and!; [done|by apply Forall_app|]. intros a.
      rewrite concat_app, of_agent_app, <- app_assoc, Ha2, app_assoc, Ha1, <- app_assoc, <- of_agent_app.
      f_equal. by destruct e. }
  destruct (Hg ∅ H0 Hr) as (Hm & Ho & Ha). split_and!; [done| |by rewrite flush_all]. intros a. rewrite Ha. done.
Qed.

End collecting.
(** ** Witnesses *)

Definition w_pkg (ty name version : string) : PkgInfo :=
  mkPkg "a" "1" ty "" name version "" "" "" "" "7" "" "" "".
Definition w_info (id : Z) : VulnInfoLess := mkLess id 100 "4" "CVE" "" "" 0.
(** An entry of the product [foo] for versions before 2, and one of [foo-bar] 1.0. *)
Definition w_env : Env :=
  mkEnv (λ p, Some (if decide (Name p = "foo-bar") then [1%Z] else []))
    (λ p, Some (if decide (Name p = "foo") then [mkCpe 2 "2" "" "" ""] else []))
    (λ ids, Some ((λ i, Some (w_info i)) <$> ids)) (inl 10%Z) 0
    (λ _, Some [mkVuln "a" 1 "CVE" "processed" "high" 5 6 7 "using" "" ""]) (Some [(2%Z, "known")]).
Definition w_caches : caches := mkCaches ∅ ∅ None.

Definition w_packages : list PkgInfo := [w_pkg "rpm" "foo-bar" "1.0"; w_pkg "jar" "foo-1" "1.0"].
Definition w_result : caches * list db_op * list write_model :=
  match DealPkgList (λ v, v) (λ l, l) w_env 9 w_packages w_caches with
  | Ret (c, ops, Some ws) => (c, ops, ws)
  | _ => (w_caches, [], [])
  end.

Lemma w_result_eq :
  DealPkgList (λ v, v) (λ l, l) w_env 9 w_packages w_caches = Ret (w_result.1.1, w_result.1.2, Some w_result.2).
Proof. vm_compute. reflexivity. Qed.


Definition w_reports : list pevent := [PReport (w_pkg "rpm" "x" "1"); PTick; PReport (w_pkg "rpm" "y" "1")].

Lemma packages_collected_witness :
  of_agent "a" (concat (prun w_reports ∅).2) ++ default [] ((prun w_reports ∅).1 !! "a") =
    [w_pkg "rpm" "x" "1"; w_pkg "rpm" "y" "1"].
Proof.
  destruct (packages_collected w_reports (prun w_reports ∅).1 (prun w_reports ∅).2) as (_ & Hc & _).
  - by destruct (prun w_reports ∅).
  - rewrite (Hc "a"). reflexivity.
Defined.

(** The caches do not tell the types of packages apart: a package of another type with the
    same name and version gets the vulnerabilities of the one looked up first. *)
Lemma cache_confuses_types :
  let vulns (ps : list PkgInfo) : list (list Z) :=
    match lookup_all (λ v, v) (λ l, l) w_env ps w_caches with
    | Ret r => (λ h : PkgInfo * list VulnInfoLess, Id <$> h.2) <$> r.2
    | Panic _ => []
    end in
  vulns [w_pkg "jar" "foo-bar" "1.0"] = [[2%Z]] ∧
  vulns [w_pkg "rpm" "foo-bar" "1.0"; w_pkg "jar" "foo-bar" "1.0"] = [[1%Z]; [1%Z]].
Proof. vm_compute. done. Qed.

End Vuln.
