(* ===== verification/LeaderBaseline.v ===== *)
(** * Baseline results of hosts (server/manager/internal/dbtask/leader_baseline.go)

    The report of a baseline check by an agent updates the document of every check item,
    except those users have white-listed, and a summary of the host. *)

From stdpp Require Import base tactics decidable list strings gmap pretty.
From Stdlib Require Import ZArith Lia.
From S2P Require Import Prelude GoStrings Bson DbWriter.
Local Open Scope string_scope.
Local Open Scope nat_scope.
Local Open Scope go_scope.
Local Open Scope list_scope.
Set Default Proof Using "Type".

Module LeaderBaseline.

(** The fields of a check item that the manager reads. *)
Record CheckInfo := mkCheck {
  CheckId : Z; Type_ : string; Title : string; Description : string; Solution : string; Security : string;
  TitleCn : string; TypeCn : string; DescriptionCn : string; SolutionCn : string; Result : Z; Msg : string }.

Record AgentBaseline := mkReport {
  AgentId : string; BaselineId : Z; BaselineVersion : string; CheckList : list CheckInfo }.

Record AgentCacheStruct := mkAgent { Hostname : string; Tags : option (list string);
  ExtranetIpv4 : option (list string); IntranetIpv4 : option (list string) }.

Record AgentBaselineInfo := mkInfo {
  iAgentId : string; iBaselineId : Z; iBaselineVersion : string; iCheckId : Z; iType : string; CheckName : string;
  iDescription : string; iSolution : string; iTypeCn : string; CheckNameCn : string; iDescriptionCn : string;
  iSolutionCn : string; CheckLevel : string; Status : string; CreateTime : Z; UpdateTime : Z; IfWhite : bool;
  WhiteReason : string; ErrReason : string; TaskStatus : string; iAgent : AgentCacheStruct }.

Record BaselineTaskStatus := mkStatus {
  HighRiskNum : nat; MediumRiskNum : nat; LowRiskNum : nat; PassNum : nat }.

Definition BaselineStatusPassed := "passed".
Definition BaselineStatusFailed := "failed".
Definition BaselineStatusError := "error".
Definition highLevel := "high".
Definition mediumLevel := "mid".
Definition lowLevel := "low".

(** A nil slice is written as null. *)
Definition strings_value (l : option (list string)) : value := match l with Some l => VStrs l | None => VNull end.

Definition info_doc (i : AgentBaselineInfo) : doc :=
  list_to_map [
    ("agent_id", VStr (iAgentId i)); ("baseline_id", VInt (iBaselineId i)); ("baseline_version", VStr (iBaselineVersion i));
    ("check_id", VInt (iCheckId i)); ("type", VStr (iType i)); ("check_name", VStr (CheckName i));
    ("description", VStr (iDescription i)); ("solution", VStr (iSolution i)); ("type_cn", VStr (iTypeCn i));
    ("check_name_cn", VStr (CheckNameCn i)); ("description_cn", VStr (iDescriptionCn i)); ("solution_cn", VStr (iSolutionCn i));
    ("check_level", VStr (CheckLevel i)); ("status", VStr (Status i)); ("create_time", VInt (CreateTime i));
    ("update_time", VInt (UpdateTime i)); ("if_white", VBool (IfWhite i)); ("white_reason", VStr (WhiteReason i));
    ("err_reason", VStr (ErrReason i)); ("task_status", VStr (TaskStatus i)); ("hostname", VStr (Hostname (iAgent i)));
    ("tags", strings_value (Tags (iAgent i))); ("extranet_ipv4", strings_value (ExtranetIpv4 (iAgent i)));
    ("intranet_ipv4", strings_value (IntranetIpv4 (iAgent i)))].

(** [AgentInfoSearch]: a failed query is cached as an agent without facts, the result of a
    successful one is not cached. *)
Abbreviation agentCache := (gmap string AgentCacheStruct).
Definition AgentInfoSearch (agentId : string) (findOne : AgentCacheStruct + string) (c : agentCache) :
    agentCache * AgentCacheStruct :=
  match c !! agentId with
  | Some a => (c, a)
  | None =>
      match findOne with
      | inl a => (c, a)
      | inr _ => let zero := mkAgent "" None None None in (<[agentId := zero]> c, zero)
      end
  end.

(** The status of a check and its reason, from the code of the plugin. *)
Definition check_status (i : CheckInfo) : string * string :=
  if decide (Result i = 1)%Z then (BaselineStatusPassed, "")
  else if decide (Result i = 2)%Z then (BaselineStatusFailed, Msg i)
  else (BaselineStatusError,
    if decide (Result i = -2)%Z then "主机中的配置文件不规范，无法获取检查信息"
    else if decide (Result i = -3)%Z then "文件读取失败" else Msg i).

Definition new_info (b : AgentBaseline) (agent : AgentCacheStruct) (i : CheckInfo) : AgentBaselineInfo :=
  let '(status, reason) := check_status i in
  mkInfo (AgentId b) (BaselineId b) (BaselineVersion b) (CheckId i) (Type_ i) (Title i) (Description i) (Solution i)
    (TypeCn i) (TitleCn i) (DescriptionCn i) (SolutionCn i) (Security i) status 0 0 false "" reason "" agent.

(** The map of the checks reported; the agent is looked up for each. *)
Fixpoint new_infos (b : AgentBaseline) (findOne : AgentCacheStruct + string) (l : list CheckInfo)
    (c : agentCache) (m : gmap Z AgentBaselineInfo) : agentCache * gmap Z AgentBaselineInfo :=
  match l with
  | [] => (c, m)
  | i :: l =>
      let '(c, agent) := AgentInfoSearch (AgentId b) findOne c in
      new_infos b findOne l c (<[CheckId i := new_info b agent i]> m)
  end.

(** The document written for a check: [CreateTime] is only set for a check that is new. *)
Definition stamped (now : Z) (isNew : bool) (i : AgentBaselineInfo) : AgentBaselineInfo :=
  mkInfo (iAgentId i) (iBaselineId i) (iBaselineVersion i) (iCheckId i) (iType i) (CheckName i) (iDescription i) (iSolution i)
    (iTypeCn i) (CheckNameCn i) (iDescriptionCn i) (iSolutionCn i) (CheckLevel i) (Status i)
    (if isNew then now else CreateTime i) now (IfWhite i) (WhiteReason i) (ErrReason i) "finished" (iAgent i).

Definition check_filter (checkId : Z) (b : AgentBaseline) : doc :=
  {["check_id" := VInt checkId; "agent_id" := VStr (AgentId b); "baseline_id" := VInt (BaselineId b)]}.

Definition update_loop (now : Z) (b : AgentBaseline) (l : list (Z * AgentBaselineInfo)) (old : gmap Z AgentBaselineInfo) :
    list write_model * gmap Z AgentBaselineInfo :=
  foldl (λ '(ws, old) '(checkId, info),
      let put isNew :=
        let info := stamped now isNew info in
        (ws ++ [UpdateOne (check_filter checkId b) (info_doc info) ∅ true], <[checkId := info]> old) in
      match old !! checkId with
      | None => put true
      | Some o => if IfWhite o then (ws, old) else put false
      end) ([], old) l.

(** The summary over all checks of the baseline on the host. *)
Definition count_info (s : BaselineTaskStatus) (i : AgentBaselineInfo) : BaselineTaskStatus :=
  let '(mkStatus h m l p) := s in
  if IfWhite i then s
  else if decide (Status i = BaselineStatusFailed) then
    if decide (CheckLevel i = highLevel) then mkStatus (S h) m l p
    else if decide (CheckLevel i = mediumLevel) then mkStatus h (S m) l p
    else if decide (CheckLevel i = lowLevel) then mkStatus h m (S l) p
    else s
  else if decide (Status i = BaselineStatusPassed) then mkStatus h m l (S p)
  else s.

Definition status_doc (now : Z) (b : AgentBaseline) (agent : AgentCacheStruct) (s : BaselineTaskStatus) : doc :=
  list_to_map [
    ("agent_id", VStr (AgentId b)); ("baseline_id", VInt (BaselineId b)); ("last_check_time", VInt now);
    ("high_risk_num", VInt (Z.of_nat (HighRiskNum s))); ("medium_risk_num", VInt (Z.of_nat (MediumRiskNum s))); ("low_risk_num", VInt (Z.of_nat (LowRiskNum s)));
    ("pass_num", VInt (Z.of_nat (PassNum s))); ("status", VStr "finished"); ("msg", VStr ""); ("hostname", VStr (Hostname agent));
    ("tags", strings_value (Tags agent)); ("extranet_ipv4", strings_value (ExtranetIpv4 agent));
    ("intranet_ipv4", strings_value (IntranetIpv4 agent))].

Section deal.
Context `{RangerZ}.
(** The answers of the database: the facts of an agent, and the checks on record (the error
    of that query is dropped, and a nil cursor panics). *)
Variable findOne : string → AgentCacheStruct + string.
Variable olds : string → Z → option (list AgentBaselineInfo).

Definition DealBaselineList (now : Z) (b : AgentBaseline) (c : agentCache) :
    outcome (agentCache * list db_op * option (list write_model)) :=
  let '(c, new) := new_infos b (findOne (AgentId b)) (CheckList b) c ∅ in
  match olds (AgentId b) (BaselineId b) with
  | None => Panic "nil pointer dereference"
  | Some old =>
      let '(ws, merged) := update_loop now b (range_z "DealBaselineList" new) (map_by iCheckId old) in
      let '(c, agent) := AgentInfoSearch (AgentId b) (findOne (AgentId b)) c in
      let status := foldl count_info (mkStatus 0 0 0 0) (range_z "status" merged).*2 in
      Ret (c,
        [mkOp "baseline_info" (BulkWrite [UpdateOne {["baseline_id" := VInt (BaselineId b)]} {["last_check_time" := VInt now]} ∅ false]);
         mkOp "baseline_task_status" (BulkWrite [UpdateOne {["agent_id" := VStr (AgentId b); "baseline_id" := VInt (BaselineId b)]}
           (status_doc now b agent status) ∅ true])],
        Some ws)
  end.

Definition leaderBaselineWriter_Run := BatchWriter.run "agent_baseline" (Some 100) DealBaselineList.

Lemma baseline_writer_delivers c0 : BatchWriter.delivers "agent_baseline" (Some 100) DealBaselineList 1 c0 None.
Proof.
  apply BatchWriter.writer_delivers; [|done|done]. intros now b c c' ops ms. unfold DealBaselineList.
  destruct (new_infos _ _ _ c ∅). destruct (olds _ _); [|done]. destruct (update_loop _ _ _ _).
  destruct (AgentInfoSearch _ _ _). by intros [= _ <- _].
Qed.

(** ** What a report leads to *)

(** Searching for an agent again gives the same facts. *)
Lemma AgentInfoSearch_again a f c : (AgentInfoSearch a f (AgentInfoSearch a f c).1).2 = (AgentInfoSearch a f c).2.
Proof.
  unfold AgentInfoSearch. destruct (c !! a) eqn:E; simpl; [by rewrite E|].
  destruct f; simpl; [by rewrite E|by rewrite lookup_insert_eq].
Qed.

Lemma new_infos_agent b f l c m :
  (AgentInfoSearch (AgentId b) f (new_infos b f l c m).1).2 = (AgentInfoSearch (AgentId b) f c).2.
Proof.
  revert c m. induction l as [|i l IH]; intros c m; simpl; [done|].
  pose proof (AgentInfoSearch_again (AgentId b) f c) as Hag. destruct (AgentInfoSearch (AgentId b) f c) as [c1 ag].
  simpl in *. by rewrite IH.
Qed.

(** The last report of a check counts, with the facts of the agent. *)
Lemma new_infos_lookup b f l c m id :
  (new_infos b f l c m).2 !! id =
    match last (filter (λ i, CheckId i = id) l) with
    | Some i => Some (new_info b (AgentInfoSearch (AgentId b) f c).2 i)
    | None => m !! id
    end.
Proof.
  revert c m. induction l as [|i l IH]; intros c m; simpl; [done|].
  pose proof (AgentInfoSearch_again (AgentId b) f c) as Hag. destruct (AgentInfoSearch (AgentId b) f c) as [c1 ag].
  simpl in Hag |- *. rewrite IH, Hag. destruct (decide (CheckId i = id)) as [<-|Hne].
  - rewrite filter_cons_True, last_cons by done. destruct (last _); [done|]. by rewrite lookup_insert_eq.
  - rewrite filter_cons_False by done. destruct (last _); [done|]. by rewrite lookup_insert_ne.
Qed.

(** What is written for a check, and what is on record after it. *)
Definition updated (now : Z) (old : gmap Z AgentBaselineInfo) (id : Z) (info : AgentBaselineInfo) : option AgentBaselineInfo :=
  match old !! id with
  | None => Some (stamped now true info)
  | Some o => if IfWhite o then None else Some (stamped now false info)
  end.

Lemma update_loop_spec now b l old :
  NoDup l.*1 →
  (update_loop now b l old).1 =
    omap (λ '(id, info), (λ i, UpdateOne (check_filter id b) (info_doc i) ∅ true) <$> updated now old id info) l ∧
  ∀ id, (update_loop now b l old).2 !! id =
    match (list_to_map l : gmap Z AgentBaselineInfo) !! id ≫= updated now old id with
    | Some i => Some i
    | None => old !! id
    end.
Proof.
  unfold update_loop. induction l as [|[id info] l IH] using rev_ind; [done|]. rewrite fmap_app. intros Hnd.
  apply NoDup_app in Hnd as (Hnd & Hid & _). destruct (IH Hnd) as [IH1 IH2]. rewrite foldl_snoc, omap_app.
  assert ((list_to_map l : gmap Z AgentBaselineInfo) !! id = None) as Hno.
  { apply not_elem_of_list_to_map_1. intros Hin. apply (Hid id Hin). left. }
  destruct (foldl _ _ l) as [ws m] eqn:E. simpl in IH1, IH2. pose proof (IH2 id) as Hm. rewrite Hno in Hm. simpl in Hm.
  rewrite Hm. assert (∀ k, (list_to_map (l ++ [(id, info)]) : gmap Z AgentBaselineInfo) !! k =
    if decide (k = id) then Some info else (list_to_map l : gmap Z AgentBaselineInfo) !! k) as Hk.
  { intros k. rewrite list_to_map_snoc by (by apply not_elem_of_list_to_map_2). case_decide as Hd; [subst; by rewrite lookup_insert_eq|].
    by rewrite lookup_insert_ne. }
  destruct (old !! id) as [o|] eqn:Eo; [destruct (IfWhite o) eqn:Ew|]; (split; [simpl; unfold updated at 2; rewrite Eo, ?Ew; simpl; by rewrite IH1, ?app_nil_r|]);
    intros k; simpl; rewrite Hk; case_decide as Hd; subst; rewrite ?lookup_insert_eq, ?lookup_insert_ne by done; simpl;
    try (rewrite IH2; done); unfold updated; rewrite Eo, ?Ew; done.
Qed.

(** The items a summary counts. *)
Definition counts (P : AgentBaselineInfo → Prop) `{∀ i, Decision (P i)} (l : list AgentBaselineInfo) : nat :=
  length (filter (λ i, IfWhite i = false ∧ P i) l).

Definition failed_at (level : string) (i : AgentBaselineInfo) : Prop := Status i = BaselineStatusFailed ∧ CheckLevel i = level.
#[local] Instance failed_at_dec level i : Decision (failed_at level i) := _.
Definition passed (i : AgentBaselineInfo) : Prop := Status i = BaselineStatusPassed.
#[local] Instance passed_dec i : Decision (passed i) := _.

Definition summary_of (l : list AgentBaselineInfo) : BaselineTaskStatus :=
  mkStatus (counts (failed_at highLevel) l) (counts (failed_at mediumLevel) l) (counts (failed_at lowLevel) l) (counts passed l).

Lemma count_info_spec l : foldl count_info (mkStatus 0 0 0 0) l = summary_of l.
Proof.
  induction l as [|i l IH] using rev_ind; [done|]. rewrite foldl_snoc, IH. unfold summary_of, counts, count_info.
  rewrite !filter_app, !length_app, !filter_cons, !filter_nil. unfold failed_at, passed.
  destruct (IfWhite i); simpl; [rewrite !Nat.add_0_r; done|].
  unfold BaselineStatusFailed, BaselineStatusPassed, highLevel, mediumLevel, lowLevel.
  repeat case_decide; destruct_and?; simpl; try (f_equal; lia); exfalso; try congruence; tauto.
Qed.

(** The record of a check after the report: the reported result if the check is not
    white-listed, else what was on record. *)
Definition on_record (now : Z) (b : AgentBaseline) (agent : AgentCacheStruct) (old : list AgentBaselineInfo) (id : Z) : option AgentBaselineInfo :=
  let prev := last (filter (λ o, iCheckId o = id) old) in
  match last (filter (λ i, CheckId i = id) (CheckList b)), prev with
  | Some i, None => Some (stamped now true (new_info b agent i))
  | Some i, Some o => if IfWhite o then prev else Some (stamped now false (new_info b agent i))
  | None, _ => prev
  end.

(** A check that is reported and not white-listed. *)
Definition to_write (b : AgentBaseline) (old : list AgentBaselineInfo) (id : Z) : Prop :=
  id ∈ CheckId <$> CheckList b ∧ ∀ o, last (filter (λ o, iCheckId o = id) old) = Some o → IfWhite o = false.

Lemma on_record_updated now b agent old (new : gmap Z AgentBaselineInfo) id :
  new !! id = new_info b agent <$> last (filter (λ i, CheckId i = id) (CheckList b)) →
  on_record now b agent old id =
    match new !! id ≫= updated now (map_by iCheckId old) id with
    | Some i => Some i
    | None => map_by iCheckId old !! id
    end.
Proof.
  intros ->. unfold on_record, updated. rewrite !map_by_lookup.
  destruct (last (filter (λ i, CheckId i = id) (CheckList b))) as [i|]; simpl; [|done].
  destruct (last (filter (λ o, iCheckId o = id) old)) as [o|]; [|done]. by destruct (IfWhite o).
Qed.

(** The ids written, and what is written for them. *)
Definition written (now : Z) (old : gmap Z AgentBaselineInfo) (l : list (Z * AgentBaselineInfo)) : list Z :=
  omap (λ '(id, info), (λ _, id) <$> updated now old id info) l.

Lemma written_sublist now old l : written now old l `sublist_of` l.*1.
Proof.
  induction l as [|[id info] l IH]; simpl; [done|]. destruct (updated now old id info); simpl; by constructor.
Qed.

Lemma written_elem now old l id :
  id ∈ written now old l ↔ ∃ info, (id, info) ∈ l ∧ is_Some (updated now old id info).
Proof.
  unfold written. rewrite list_elem_of_omap. split.
  - intros ([k info] & Hin & Hs). destruct (updated now old k info) eqn:E; simplify_eq/=. exists info. by rewrite E.
  - intros (info & Hin & i & Hi). exists (id, info). by rewrite Hi.
Qed.

Lemma written_writes now b old l :
  Forall2 (λ id w, ∃ info i, (id, info) ∈ l ∧ updated now old id info = Some i ∧
      w = UpdateOne (check_filter id b) (info_doc i) ∅ true)
    (written now old l)
    (omap (λ '(id, info), (λ i, UpdateOne (check_filter id b) (info_doc i) ∅ true) <$> updated now old id info) l).
Proof.
  induction l as [|[id info] l IH]; simpl; [constructor|].
  assert (∀ ids ws, Forall2 (λ id w, ∃ info i, (id, info) ∈ l ∧ updated now old id info = Some i ∧ w = UpdateOne (check_filter id b) (info_doc i) ∅ true) ids ws →
    Forall2 (λ k w, ∃ inf i, (k, inf) ∈ (id, info) :: l ∧ updated now old k inf = Some i ∧ w = UpdateOne (check_filter k b) (info_doc i) ∅ true) ids ws) as Hmono.
  { intros ids ws Hf. eapply Forall2_impl; [exact Hf|]. intros k w (inf & i & Hin & Hi & Hw). exists inf, i. split; [by right|done]. }
  destruct (updated now old id info) as [i|] eqn:E; simpl; [|by apply Hmono].
  constructor; [|by apply Hmono]. exists info, i. split; [left|done].
Qed.

(** A report makes exactly one write for every check it names that is not white-listed, of
    the result on record then; and the summary of the host counts, by level, the failed and
    the passed checks on record after these writes, without those white-listed. *)
Theorem DealBaselineList_effect now b c c' ops ws :
  DealBaselineList now b c = Ret (c', ops, Some ws) →
  ∃ agent old ids rec,
    agent = (AgentInfoSearch (AgentId b) (findOne (AgentId b)) c).2 ∧ olds (AgentId b) (BaselineId b) = Some old ∧
    NoDup ids ∧ (∀ id, id ∈ ids ↔ to_write b old id) ∧
    Forall2 (λ id w, ∃ i, on_record now b agent old id = Some i ∧ w = UpdateOne (check_filter id b) (info_doc i) ∅ true) ids ws ∧
    (∀ id, (rec : gmap Z AgentBaselineInfo) !! id = on_record now b agent old id) ∧
    ∃ l, l ≡ₚ (map_to_list rec).*2 ∧
      mkOp "baseline_task_status" (BulkWrite [UpdateOne {["agent_id" := VStr (AgentId b); "baseline_id" := VInt (BaselineId b)]}
        (status_doc now b agent (summary_of l)) ∅ true]) ∈ ops.
Proof.
  unfold DealBaselineList. pose proof (new_infos_lookup b (findOne (AgentId b)) (CheckList b) c ∅) as Hnew.
  pose proof (new_infos_agent b (findOne (AgentId b)) (CheckList b) c ∅) as Hag.
  set (agent := (AgentInfoSearch (AgentId b) (findOne (AgentId b)) c).2) in *.
  destruct (new_infos b (findOne (AgentId b)) (CheckList b) c ∅) as [c1 new]. simpl in Hnew, Hag.
  destruct (olds (AgentId b) (BaselineId b)) as [old|]; [|done].
  set (om := map_by iCheckId old). set (l := range_z "DealBaselineList" new).
  assert (∀ id, new !! id = new_info b agent <$> last (filter (λ i, CheckId i = id) (CheckList b))) as Hn.
  { intros id. rewrite Hnew, lookup_empty. by destruct (last _). }
  destruct (update_loop_spec now b l om (range_z_NoDup_fst _ _)) as [Hws Hrec].
  destruct (update_loop now b l om) as [ws' rec]. simpl in Hws, Hrec. subst ws'.
  destruct (AgentInfoSearch (AgentId b) (findOne (AgentId b)) c1) as [c2 ag]. simpl in Hag. subst ag.
  rewrite count_info_spec. intros [= <- <- <-].
  assert (∀ id, rec !! id = on_record now b agent old id) as Hr.
  { intros id. rewrite Hrec. unfold l. rewrite range_z_map. symmetry. apply on_record_updated, Hn. }
  exists agent, old, (written now om l), rec. split_and!; [done|done|..|exact Hr|].
  - eapply sublist_NoDup; [apply (range_z_NoDup_fst "DealBaselineList" new)|apply written_sublist].
  - intros id. rewrite written_elem. unfold l, to_write. setoid_rewrite range_z_elem. setoid_rewrite Hn.
    unfold updated, om. rewrite map_by_lookup.
    pose proof (map_by_none CheckId (CheckList b) id) as Hin. rewrite map_by_lookup in Hin.
    destruct (last (filter (λ i, CheckId i = id) (CheckList b))) as [i|]; simpl.
    + assert (id ∈ CheckId <$> CheckList b) by (apply dec_stable; rewrite <- Hin; done).
      destruct (last (filter (λ o, iCheckId o = id) old)) as [o|]; [destruct (IfWhite o) eqn:Ew|]; split.
      * intros (info & _ & []%is_Some_None).
      * intros [_ Hw]. specialize (Hw o eq_refl). congruence.
      * intros _. split; [done|]. by intros ? [= <-].
      * intros _. eauto.
      * intros _. split; [done|]. by intros ? [=].
      * intros _. eauto.
    + split; [intros (? & [=] & _)|]. intros [Hi _]. by apply Hin in Hi.
  - eapply Forall2_impl; [apply written_writes|]. intros id w (info & i & Hin & Hi & ->). exists i. split; [|done].
    rewrite <- Hr, Hrec. unfold l. rewrite range_z_map. unfold l in Hin. apply range_z_elem in Hin. rewrite Hin. simpl. by rewrite Hi.
  - exists (range_z "status" rec).*2. split; [by rewrite range_z_perm|]. right. left.
Qed.

End deal.
(** ** Witness *)

Definition w_old (id : Z) (white : bool) : AgentBaselineInfo :=
  mkInfo "a" 1 "1" id "" "" "" "" "" "" "" "" highLevel BaselineStatusFailed 5 5 white "" "" "" (mkAgent "" None None None).
Definition w_check (id r : Z) : CheckInfo := mkCheck id "" "" "" "" highLevel "" "" "" "" r "bad".
Definition w_report : AgentBaseline := mkReport "a" 1 "1" [w_check 1 1; w_check 2 2; w_check 3 2].
Definition w_olds : string → Z → option (list AgentBaselineInfo) := λ _ _, Some [w_old 1 false; w_old 2 true].
Definition w_find : string → AgentCacheStruct + string := λ _, inl (mkAgent "h" None None None).
Definition w_result : agentCache * list db_op * list write_model :=
  match DealBaselineList w_find w_olds 9 w_report ∅ with Ret (c, ops, Some ws) => (c, ops, ws) | _ => (∅, [], []) end.

Lemma w_baseline_eq : DealBaselineList w_find w_olds 9 w_report ∅ = Ret (w_result.1.1, w_result.1.2, Some w_result.2).
Proof. vm_compute. reflexivity. Qed.

(** Check 1 passes now, check 2 is white-listed, check 3 is new and fails. *)
Lemma DealBaselineList_effect_witness :
  ∃ ids : list Z, length w_result.2 = 2 ∧ 3%Z ∈ ids ∧ 2%Z ∉ ids.
Proof.
  destruct (DealBaselineList_effect w_find w_olds 9 w_report ∅ _ _ _ w_baseline_eq) as (agent & old & ids & rec & _ & Ho & _ & Hids & _).
  injection Ho as <-. exists ids. split; [vm_compute; reflexivity|]. split.
  - apply Hids. split; [by vm_compute; right; right; left|]. intros o Ho. vm_compute in Ho. discriminate.
  - intros H2. apply Hids in H2 as [_ H2]. specialize (H2 (w_old 2 true) ltac:(vm_compute; reflexivity)). discriminate.
Defined.

(** The time a known check was created is lost with the next report. *)
Lemma create_time_lost :
  ∃ set, UpdateOne (check_filter 1 w_report) set ∅ true ∈ w_result.2 ∧ set !! "create_time" = Some (VInt 0) ∧
    CreateTime (w_old 1 false) = 5%Z.
Proof.
  exists (info_doc (stamped 9 false (new_info w_report (mkAgent "h" None None None) (w_check 1 1)))).
  split; [vm_compute; by (left || (right; left))|split; [vm_compute; reflexivity|done]].
Qed.

End LeaderBaseline.
