(* ===== verification/RaspWriter.v ===== *)
(** * RASP heartbeats (server/manager/internal/dbtask/rasp_heartbeat.go)

    The processes with a RASP probe report their state (data type 2997) and their
    configuration (2996).  A report is written if it has not been seen; a report that has
    been seen only renews the time of its document, every 5 minutes, or every hour in large
    installations.  The digest and the expiry of cache entries are parameters. *)

From stdpp Require Import base tactics decidable list strings gmap pretty.
From Stdlib Require Import ZArith Lia.
From S2P Require Import Prelude GoStrings Bson DbWriter.
Local Open Scope string_scope.
Local Open Scope nat_scope.
Local Open Scope go_scope.
Local Open Scope list_scope.
Set Default Proof Using "Type".

Module RaspWriter.

Definition RaspHB2997 := "2997".
Definition RaspConfig2996 := "2996".
Definition runtimeConfigList : list string := ["Golang"; "JVM"; "PHP"; "CPython"; "NodeJS"].
Definition FingerprintRaspCollection := "agent_asset_2997".

Record caches := mkCaches { rasp2997Cache : gmap string Z; rasp2996Cache : gmap string Z; IfLarge : option Z }.

Section rasp.
(** [hex(md5(s))]; whether the entry of a hash has expired at a time; the count of hosts
    online at a time. *)
Variable md5_hex : string → string.
Variable expired : Z → string → bool.
Variable online : Z → Z + string.

(** The string fields of a report, if all are there. *)
Definition strings_of (keys : list string) (d : doc) : option (list string) := mapM (λ k, as_string (d !! k)) keys.

Definition getRaspHash (raspInfo : doc) (datatype : string) : string :=
  if decide (datatype = RaspHB2997) then
    match strings_of ["pid"; "agent_id"; "runtime"; "exe_name"; "trace_state"] raspInfo with
    | Some l => md5_hex (str_join "" l)
    | None => ""
    end
  else if decide (datatype = RaspConfig2996) then
    match strings_of ["agent_id"; "pid"; "filter"; "block"; "limit"] raspInfo with
    | Some l => md5_hex (str_join "" l)
    | None => ""
    end
  else md5_hex "".

Definition check_table (now : Z) (hash : string) (t : gmap string Z) : gmap string Z * (bool * Z) :=
  match t !! hash with
  | Some v => if expired now hash then (<[hash := now]> t, (false, now)) else (t, (true, v))
  | None => (<[hash := now]> t, (false, now))
  end.

Definition checkRaspCache (now : Z) (hash datatype : string) (c : caches) : caches * (bool * Z) :=
  if decide (datatype = RaspHB2997) then
    let '(t, r) := check_table now hash (rasp2997Cache c) in (mkCaches t (rasp2996Cache c) (IfLarge c), r)
  else if decide (datatype = RaspConfig2996) then
    let '(t, r) := check_table now hash (rasp2996Cache c) in (mkCaches (rasp2997Cache c) t (IfLarge c), r)
  else (c, (false, now)).

(** The number of hosts and the error of counting them. *)
Definition agent_num (now : Z) (c : caches) : caches * Z * option string :=
  match IfLarge c with
  | Some n => (c, n, None)
  | None =>
      match online now with
      | inl n => (mkCaches (rasp2997Cache c) (rasp2996Cache c) (Some n), n, None)
      | inr err => (c, 0%Z, Some err)
      end
  end.

(** The document of a new report, and the error its [uptime] leads to; without an [uptime]
    the error of before stays.  A string that is no number is replaced by the error. *)
Definition rasp_doc (now : Z) (raspInfo : doc) (err : option string) : doc * option string :=
  let d := <["update_time" := VInt now]> raspInfo in
  let '(d, err) :=
    match as_string (d !! "uptime") with
    | Some s =>
        match atoi s with
        | (z, None) => (<["uptime" := VInt z]> d, None)
        | (_, Some _) => (<["uptime" := VDoc []]> d, Some "strconv.Atoi")
        end
    | None => (d, err)
    end in
  (DbWriter.split_addresses d, err).

Definition process_filter (agent_id pid : string) : doc := {["agent_id" := VStr agent_id; "pid" := VStr pid]}.

Definition rasp2Mongo (now : Z) (raspInfo : doc) (c : caches) : caches * option write_model * option string :=
  match as_string (raspInfo !! "agent_id"), as_string (raspInfo !! "pid"), as_string (raspInfo !! "data_type") with
  | None, _, _ => (c, None, Some "no agent_id")
  | _, None, _ => (c, None, Some "no pid")
  | _, _, None => (c, None, Some "no pid")
  | Some agent_id, Some pid, Some datatype =>
      if decide (as_string (raspInfo !! "tags") = Some "rasp_online") then (c, None, None)
      else
        let '(c, (ifExist, cacheTime)) := checkRaspCache now (getRaspHash raspInfo datatype) datatype c in
        if decide (datatype = RaspHB2997) then
          let '(c, agentNum, err) := agent_num now c in
          let updateCacheTime := (if decide (5000 ≤ agentNum) then 3600 else 300)%Z in
          if ifExist && bool_decide (now - cacheTime > updateCacheTime)%Z then
            (c, Some (UpdateOne (process_filter agent_id pid) {["update_time" := VInt now]} ∅ false), err)
          else if ifExist then (c, None, None)
          else
            let '(d, err) := rasp_doc now raspInfo err in
            (c, Some (UpdateOne (process_filter agent_id pid) d ∅ true), err)
        else if decide (datatype = RaspConfig2996) then
          if ifExist then (c, None, None)
          else
            match strings_of ["filter"; "block"; "limit"] raspInfo with
            | Some [f; b; l] =>
                (c, Some (UpdateOne (process_filter agent_id pid)
                  {["filter" := VStr f; "block" := VStr b; "limit" := VStr l]} ∅ false), None)
            | _ => (c, None, None)
            end
        else (c, None, None)
  end.

(** Only heartbeats of the configured run-times are written. *)
Definition dealRaspList (now : Z) (raspData : doc) (c : caches) : caches * option write_model * option string :=
  match as_string (raspData !! "runtime") with
  | None => (c, None, Some "no runtime")
  | Some runtime => if decide (runtime ∈ runtimeConfigList) then rasp2Mongo now raspData c else (c, None, None)
  end.

Definition dealRaspConfigList := rasp2Mongo.

(** [case tmp := <-w.queue] of [Run]. *)
Definition leaderRaspWriter (now : Z) (raspInfo : doc) (c : caches) : outcome (caches * list db_op * option (list write_model)) :=
  let use (r : caches * option write_model * option string) :=
    let '(c, m, err) := r in
    match err, m with
    | None, Some m => Ret (c, [], Some [m])
    | _, _ => Ret (c, [], None)
    end in
  match as_string (raspInfo !! "data_type") with
  | None => Ret (c, [], None)
  | Some datatype =>
      if decide (datatype = RaspHB2997) then use (dealRaspList now raspInfo c)
      else if decide (datatype = RaspConfig2996) then use (dealRaspConfigList now raspInfo c)
      else Ret (c, [], None)
  end.

(** [Run] but for the clean-up. *)
Definition leaderRaspWriter_Run := BatchWriter.run FingerprintRaspCollection None leaderRaspWriter.

(** [case <-cleanTimer.C]. *)
Definition clean (now : Z) : db_op := mkOp FingerprintRaspCollection (DeleteMany [("update_time", Lte (now - 3600))]).

(** The writer has no limit: the test of the count is inside the case of the timer, where
    the count has just been set to 0. *)
Lemma rasp_writer_delivers c0 :
  BatchWriter.delivers FingerprintRaspCollection None leaderRaspWriter 1 c0 (Some 1).
Proof.
  apply BatchWriter.writer_delivers; [|done|].
  - intros now x c c' ops ms. unfold leaderRaspWriter. go_cases; intros [= _ <- _]; done.
  - intros j now x c c' ops ms [= <-]. unfold leaderRaspWriter. go_cases; intros [= _ _ <-]; done.
Qed.

(** A heartbeat that has been seen does not change the cache; what is written renews the
    time of the document, and only if the entry is older than the period. *)
Lemma seen_heartbeat now d c agent pid t :
  as_string (d !! "agent_id") = Some agent → as_string (d !! "pid") = Some pid →
  as_string (d !! "data_type") = Some RaspHB2997 → as_string (d !! "tags") ≠ Some "rasp_online" →
  rasp2997Cache c !! getRaspHash d RaspHB2997 = Some t → expired now (getRaspHash d RaspHB2997) = false →
  ∃ n err, agent_num now c = (mkCaches (rasp2997Cache c) (rasp2996Cache c) (IfLarge (agent_num now c).1.1), n, err) ∧
    (rasp2Mongo now d c).1.2 =
      if decide (now - t > if decide (5000 ≤ n) then 3600 else 300)%Z
      then Some (UpdateOne (process_filter agent pid) {["update_time" := VInt now]} ∅ false) else None.
Proof.
  intros Ha Hp Hd Ht Hc He. unfold rasp2Mongo. rewrite Ha, Hp, Hd. rewrite decide_False by done.
  unfold checkRaspCache, check_table. rewrite (decide_True (P := RaspHB2997 = RaspHB2997)) by done. rewrite Hc, He.
  rewrite decide_True by done. destruct c as [t1 t2 l]. simpl.
  destruct (agent_num now (mkCaches t1 t2 l)) as [[c' n] err] eqn:En. exists n, err. split.
  - f_equal. f_equal. unfold agent_num in En. simpl in En. destruct l; [by simplify_eq|].
    destruct (online now); by simplify_eq.
  - repeat case_bool_decide; repeat case_decide; simpl; try done; lia.
Qed.

End rasp.

(** ** A running process that is lost *)

Definition w_heartbeat : doc :=
  {["agent_id" := VStr "a"; "pid" := VStr "7"; "data_type" := VStr "2997"; "runtime" := VStr "JVM";
    "exe_name" := VStr "java"; "trace_state" := VStr "ATTACHED"]}.

Definition w_run := leaderRaspWriter_Run (λ s, s) (λ _ _, false) (λ _, inl 5000%Z).

(** A heartbeat a minute, the same for 61 minutes, in an installation of 5000 hosts. *)
Definition w_beats (from n : nat) : list (BatchWriter.event (A:=doc)) :=
  seq from n ≫= λ i, [BatchWriter.EAdd w_heartbeat; BatchWriter.ETake 0 (Z.of_nat (60 * i)); BatchWriter.ETimer 0].

Definition w_after (es : list (BatchWriter.event (A:=doc))) (w : BatchWriter.writer (A:=doc)) : BatchWriter.writer :=
  match w_run es w with Ret w => w | Panic _ => w end.

(** The first hour; then the documents older than an hour are removed; then the next one. *)
Definition w_hour1 := w_after (w_beats 0 61) (BatchWriter.init 1 (mkCaches ∅ ∅ None)).
Definition w_hour2 := w_after (w_beats 61 59) (BatchWriter.mkWriter (BatchWriter.queue w_hour1) (BatchWriter.workers w_hour1)
  (BatchWriter.st w_hour1) [] []).

(** The process that has sent a heartbeat every minute is not in the database any more: the
    heartbeats of its first hour left the time of its document alone, the hourly clean-up
    removed it, and the later ones renew a document that is no longer there. *)
Lemma rasp_process_lost :
  ∃ c1 c2 : list doc,
    calls_effect (op_call <$> BatchWriter.calls w_hour1) [] c1 ∧
    length c1 = 1 ∧
    calls_effect (op_call (clean 3600) :: (op_call <$> BatchWriter.calls w_hour2)) c1 c2 ∧ c2 = [].
Proof.
  assert (∀ (cs : list db_call) (c : list doc), ∃ c', calls_effect cs c c' ∧
    c' = foldl (λ c call, match call with BulkWrite ws => bulk ws c | DeleteMany f => delete_many f c end) c cs) as Hrun.
  { induction cs as [|call cs IH]; intros c; [exists c; by split; [constructor|]|]. simpl.
    destruct (IH (match call with BulkWrite ws => bulk ws c | DeleteMany f => delete_many f c end)) as (c' & Hc & ->).
    eexists. split; [|reflexivity]. econstructor; [|exact Hc]. destruct call; simpl; [by eexists|done]. }
  destruct (Hrun (op_call <$> BatchWriter.calls w_hour1) []) as (c1 & H1 & E1).
  destruct (Hrun (op_call (clean 3600) :: (op_call <$> BatchWriter.calls w_hour2)) c1) as (c2 & H2 & E2).
  exists c1, c2. split; [exact H1|]. split; [rewrite E1; vm_compute; reflexivity|]. split; [exact H2|].
  rewrite E2, E1. vm_compute. reflexivity.
Qed.

End RaspWriter.
