(* ===== verification/BinRead.v ===== *)
(** * Reading binary files

    What the readers of archives and package databases of the collector plugin share:
    integers in little- and big-endian order, slices with Go's bounds checks, and a file
    as the list of its bytes with [io.ReaderAt], [io.SectionReader] and [io.ReadFull]. *)

From Stdlib Require Import Ascii.
From S2P Require Import Prelude Wire.
From stdpp Require Import options.

Local Open Scope Z_scope.

(** ** Integers *)

(** [binary.LittleEndian] and [binary.BigEndian] on as many bytes as the list has. *)
Fixpoint le (b : bytes) : Z :=
  match b with [] => 0 | c :: b => zb c + 256 * le b end.
Definition be (b : bytes) : Z := le (reverse b).

Fixpoint le_bytes (n : nat) (v : Z) : bytes :=
  match n with O => [] | S n => u8 v :: le_bytes n (v / 256) end.
Definition be_bytes (n : nat) (v : Z) : bytes := reverse (le_bytes n v).

Lemma length_le_bytes n v : length (le_bytes n v) = n.
Proof. revert v. induction n as [|n IH]; intros v; simpl; [done|by rewrite IH]. Qed.

Lemma length_be_bytes n v : length (be_bytes n v) = n.
Proof. unfold be_bytes. by rewrite length_reverse, length_le_bytes. Qed.

Lemma zb_u8_mod v : zb (u8 v) = v `mod` 256.
Proof.
  unfold zb, u8. pose proof (Z.mod_pos_bound v 256 ltac:(lia)). rewrite N_ascii_embedding; lia.
Qed.

Lemma le_le_bytes n v : 0 ≤ v < 256 ^ Z.of_nat n → le (le_bytes n v) = v.
Proof.
  revert v. induction n as [|n IH]; intros v Hv.
  - simpl in *. lia.
  - cbn [le_bytes le]. rewrite zb_u8_mod.
    rewrite Nat2Z.inj_succ, Z.pow_succ_r in Hv by lia.
    rewrite IH; [pose proof (Z.div_mod v 256); lia|].
    split; [apply Z.div_pos; lia|apply Z.div_lt_upper_bound; lia].
Qed.

Lemma be_be_bytes n v : 0 ≤ v < 256 ^ Z.of_nat n → be (be_bytes n v) = v.
Proof. intros Hv. unfold be, be_bytes. by rewrite reverse_involutive, le_le_bytes. Qed.

Lemma le_bound b : 0 ≤ le b < 256 ^ Z.of_nat (length b).
Proof.
  induction b as [|c b IH]; [simpl; lia|]. cbn [le length]. rewrite Nat2Z.inj_succ, Z.pow_succ_r by lia.
  pose proof (zb_range c). lia.
Qed.

Lemma be_bound b : 0 ≤ be b < 256 ^ Z.of_nat (length b).
Proof. unfold be. rewrite <- length_reverse. apply le_bound. Qed.

(** ** Slices *)

(** [b[n:]] and [b[i:j]] for non-negative bounds. *)
Definition slice_from (b : bytes) (n : nat) : outcome bytes :=
  if decide (n ≤ length b)%nat then Ret (drop n b) else Panic "slice bounds out of range".
Definition slice (b : bytes) (i j : nat) : outcome bytes :=
  if decide (i ≤ j ≤ length b)%nat then Ret (take (j - i) (drop i b)) else Panic "slice bounds out of range".
Definition index (b : bytes) (i : nat) : outcome Z :=
  match b !! i with Some c => Ret (zb c) | None => Panic "index out of range" end.

(** [b.uint16()] and its like: [n] bytes are read off the front of the slice. *)
Definition uint (n : nat) (b : bytes) : outcome (Z * bytes) :=
  if decide (n ≤ length b)%nat then Ret (le (take n b), drop n b) else Panic "index out of range".

Lemma uint_long n b : (n ≤ length b)%nat → uint n b = Ret (le (take n b), drop n b).
Proof. intros. unfold uint. by rewrite decide_True. Qed.

Lemma slice_from_long n b : (n ≤ length b)%nat → slice_from b n = Ret (drop n b).
Proof. intros. unfold slice_from. by rewrite decide_True. Qed.

Lemma slice_long i j b : (i ≤ j ≤ length b)%nat → slice b i j = Ret (take (j - i) (drop i b)).
Proof. intros. unfold slice. by rewrite decide_True. Qed.

Lemma index_in i b : (i < length b)%nat → ∃ z, index b i = Ret z.
Proof. intros [c Hc]%lookup_lt_is_Some_2. unfold index. rewrite Hc. eauto. Qed.

(** A read within bounds, and the fact a chain of reads needs of the next. *)
Lemma uint_ret n b : (n ≤ length b)%nat → ∃ v b', uint n b = Ret (v, b') ∧ (length b = n + length b')%nat ∧ in_u (8 * Z.of_nat n) v.
Proof.
  intros Hn. exists (le (take n b)), (drop n b). rewrite uint_long, length_drop by done. split_and!; [done|lia|].
  pose proof (le_bound (take n b)) as Hb. rewrite length_take, Nat.min_l in Hb by done.
  unfold in_u. rewrite Z.pow_mul_r by lia. exact Hb.
Qed.

Lemma slice_from_ret n b : (n ≤ length b)%nat → ∃ b', slice_from b n = Ret b' ∧ (length b = n + length b')%nat.
Proof. intros Hn. exists (drop n b). rewrite slice_from_long, length_drop by done. split; [done|lia]. Qed.

(** Goes through the reads at the head of a term, with their bounds. *)
Ltac eat :=
  match goal with
  | |- context [uint ?n ?b] =>
      let v := fresh "v" in let b' := fresh "b" in let E := fresh "E" in let H := fresh "Hlen" in let Hv := fresh "Hv" in
      destruct (uint_ret n b) as (v & b' & E & H & Hv); [lia|]; rewrite E; clear E; cbn [obind]
  | |- context [slice_from ?b ?n] =>
      let b' := fresh "b" in let E := fresh "E" in let H := fresh "Hlen" in
      destruct (slice_from_ret n b) as (b' & E & H); [lia|]; rewrite E; clear E; cbn [obind]
  | |- context [slice ?b ?i ?j] => rewrite (slice_long i j b) by lia; cbn [obind]
  end.

(** What was written in front is read. *)
Lemma uint_bytes n v rest : 0 ≤ v < 256 ^ Z.of_nat n → uint n (le_bytes n v ++ rest) = Ret (v, rest).
Proof.
  intros Hv. rewrite uint_long by (rewrite length_app, length_le_bytes; lia).
  rewrite take_app_length', drop_app_length' by (by rewrite length_le_bytes). by rewrite le_le_bytes.
Qed.

(** ** Files *)

Inductive io_error := IOErr (e : error) | ErrNegativeOffset.

(** [f[off:]] of a file. *)
Definition from (off : Z) (f : bytes) : bytes :=
  if decide (Z.of_nat (length f) ≤ off) then [] else drop (Z.to_nat off) f.

Definition zeros (n : nat) : bytes := replicate n (u8 0).

(** [f.ReadAt(buf, off)] with a fresh buffer of [n] bytes: what the buffer holds then. *)
Definition ReadAt (f : bytes) (n : nat) (off : Z) : bytes * option io_error :=
  if decide (off < 0) then (zeros n, Some ErrNegativeOffset)
  else
    let got := take n (from off f) in
    (got ++ zeros (n - length got), if decide (length got < n)%nat then Some (IOErr EOF) else None).

(** A reader over the [n] bytes of a file from [off]: a read of [need] bytes from it with
    [io.ReadFull], and the reader after. *)
Definition section (f : bytes) (off : Z) (n : nat) : bytes + io_error :=
  if decide (off < 0) then inr ErrNegativeOffset else inl (take n (from off f)).

Definition read_full (need : nat) (r : bytes) : (bytes * bytes) + io_error :=
  match ReadFull need r with inl x => inl x | inr e => inr (IOErr e) end.

Lemma length_zeros n : length (zeros n) = n.
Proof. apply length_replicate. Qed.

Lemma length_ReadAt f n off : length (ReadAt f n off).1 = n.
Proof.
  unfold ReadAt. case_decide; simpl; [apply length_zeros|]. rewrite length_app, length_zeros, length_take. lia.
Qed.

Lemma from_app a b : from (Z.of_nat (length a)) (a ++ b) = b.
Proof.
  unfold from. case_decide as Hd.
  - rewrite length_app in Hd. destruct b; [done|]. simpl in Hd. lia.
  - by rewrite Nat2Z.id, drop_app_length.
Qed.

Lemma ReadAt_app a b c off :
  off = Z.of_nat (length a) → ReadAt (a ++ b ++ c) (length b) off = (b, None).
Proof.
  intros ->. unfold ReadAt. rewrite decide_False by lia. rewrite from_app, take_app_length.
  rewrite Nat.sub_diag, decide_False by lia. simpl. by rewrite app_nil_r.
Qed.

Lemma read_full_app b c : read_full (length b) (b ++ c) = inl (b, c).
Proof.
  unfold read_full, ReadFull. rewrite decide_True by (rewrite length_app; lia).
  by rewrite take_app_length, drop_app_length.
Qed.

Lemma read_full_inl n r b r' :
  read_full n r = inl (b, r') → length b = n ∧ r = b ++ r'.
Proof.
  unfold read_full, ReadFull. case_decide; [|by case_decide]. intros [= <- <-].
  rewrite length_take, take_drop. split; [lia|done].
Qed.
