(* ===== verification/Zip.v ===== *)
(** * The archive reader of the collector plugin

    Models [plugins/collector/zip/zip.go], with which the collector lists the jar files
    inside a jar file: the search for the end of the central directory, also in the 64-bit
    format, the walk over the directory, and the location and the checks of the contents of
    an entry.  An archive is the list of its bytes; every access to a slice is checked as Go
    does it, so a theorem that the reader returns says that no archive makes it panic. *)

From Stdlib Require Import Ascii.
From S2P Require Import Prelude Wire BinRead.
From stdpp Require Import options.

Local Open Scope Z_scope.

Module Zip.

(** ** Constants and data *)

Definition fileHeaderSignature : Z := 0x04034b50.
Definition directoryHeaderSignature : Z := 0x02014b50.
Definition directoryEndSignature : Z := 0x06054b50.
Definition directory64LocSignature : Z := 0x07064b50.
Definition directory64EndSignature : Z := 0x06064b50.
Definition dataDescriptorSignature : Z := 0x08074b50.
Definition fileHeaderLen : nat := 30.
Definition directoryHeaderLen : nat := 46.
Definition directoryEndLen : nat := 22.
Definition dataDescriptorLen : nat := 16.
Definition dataDescriptor64Len : nat := 24.
Definition directory64LocLen : nat := 20.
Definition directory64EndLen : nat := 56.
Definition uint32max : Z := 2 ^ 32 - 1.
Definition zip64ExtraID : Z := 1.

Inductive zip_error := IO (e : io_error) | ErrFormat | ErrAlgorithm | ErrChecksum | ErrComment.

Record directoryEnd := mkEnd {
  diskNbr : Z; dirDiskNbr : Z; dirRecordsThisDisk : Z; directoryRecords : Z; directorySize : Z;
  directoryOffset : Z; commentLen : Z; comment : string }.

(** What an entry says of itself; the last fields are those of [File]. *)
Record File := mkFile {
  Name : string; NonUTF8 : bool; CreatorVersion : Z; ReaderVersion : Z; Flags : Z; Method : Z; CRC32 : Z;
  CompressedSize : Z; UncompressedSize : Z; CompressedSize64 : Z; UncompressedSize64 : Z; Extra : bytes;
  headerOffset : Z; zip64 : bool; descErr : option zip_error }.

Definition isZip64 (f : File) : bool :=
  bool_decide (uint32max ≤ CompressedSize64 f ∨ uint32max ≤ UncompressedSize64 f).
Definition hasDataDescriptor (f : File) : bool := bool_decide (Z.land (Flags f) 8 ≠ 0).

Definition set_desc (crc : Z) (e : option zip_error) (f : File) : File :=
  mkFile (Name f) (NonUTF8 f) (CreatorVersion f) (ReaderVersion f) (Flags f) (Method f) crc (CompressedSize f)
    (UncompressedSize f) (CompressedSize64 f) (UncompressedSize64 f) (Extra f) (headerOffset f) (zip64 f) e.

(** ** The end of the directory *)

(** [findSignatureInBlock]: the test at [i], and the loop down from [i]. *)
Definition signature_at (b : bytes) (i : nat) : outcome bool :=
  let! b0 := index b i in
  if decide (b0 ≠ 0x50) then Ret false else
  let! b1 := index b (i + 1) in
  if decide (b1 ≠ 0x4b) then Ret false else
  let! b2 := index b (i + 2) in
  if decide (b2 ≠ 5) then Ret false else
  let! b3 := index b (i + 3) in
  if decide (b3 ≠ 6) then Ret false else
  let! lo := index b (i + directoryEndLen - 2) in
  let! hi := index b (i + directoryEndLen - 1) in
  let n := Z.lor lo (Z.shiftl hi 8) in
  Ret (bool_decide (n + Z.of_nat directoryEndLen + Z.of_nat i ≤ Z.of_nat (length b))).

Fixpoint find_down (b : bytes) (i : nat) : outcome (option nat) :=
  let! found := signature_at b i in
  if found : bool then Ret (Some i)
  else match i with O => Ret None | S i => find_down b i end.

Definition findSignatureInBlock (b : bytes) : outcome (option nat) :=
  if decide (length b < directoryEndLen)%nat then Ret None else find_down b (length b - directoryEndLen).

(** [findDirectory64End]: [None] for the result -1 without an error. *)
Definition findDirectory64End (r : bytes) (directoryEndOffset : Z) : outcome (option Z + zip_error) :=
  let locOffset := directoryEndOffset - Z.of_nat directory64LocLen in
  if decide (locOffset < 0) then Ret (inl None)
  else
    match ReadAt r directory64LocLen locOffset with
    | (_, Some e) => Ret (inr (IO e))
    | (b, None) =>
        let! (sig, b) := uint 4 b in
        if decide (sig ≠ directory64LocSignature) then Ret (inl None) else
        let! (disk, b) := uint 4 b in
        if decide (disk ≠ 0) then Ret (inl None) else
        let! (p, b) := uint 8 b in
        let! (disks, b) := uint 4 b in
        if decide (disks ≠ 1) then Ret (inl None) else Ret (inl (Some (int64 p)))
    end.

Definition readDirectory64End (r : bytes) (offset : Z) (d : directoryEnd) : outcome (directoryEnd + zip_error) :=
  match ReadAt r directory64EndLen offset with
  | (_, Some e) => Ret (inr (IO e))
  | (b, None) =>
      let! (sig, b) := uint 4 b in
      if decide (sig ≠ directory64EndSignature) then Ret (inr ErrFormat) else
      let! b := slice_from b 12 in
      let! (disk, b) := uint 4 b in
      let! (dirDisk, b) := uint 4 b in
      let! (thisDisk, b) := uint 8 b in
      let! (records, b) := uint 8 b in
      let! (size, b) := uint 8 b in
      let! (offset, b) := uint 8 b in
      Ret (inl (mkEnd disk dirDisk thisDisk records size offset (commentLen d) (comment d)))
  end.

(** The search in the last 1 KB and then in the last 65 KB: the block from the signature
    on, and its offset. *)
Definition search_block (r : bytes) (bLen : Z) : outcome ((option (bytes * Z)) + zip_error) :=
  let size := Z.of_nat (length r) in
  let bLen := if decide (bLen > size) then size else bLen in
  match ReadAt r (Z.to_nat bLen) (size - bLen) with
  | (_, Some ErrNegativeOffset) => Ret (inr (IO ErrNegativeOffset))
  | (buf, _) =>
      let! p := findSignatureInBlock buf in
      match p with
      | Some p => let! buf := slice_from buf p in Ret (inl (Some (buf, size - bLen + Z.of_nat p)))
      | None => Ret (inl None)
      end
  end.

Definition search_end (r : bytes) : outcome ((bytes * Z) + zip_error) :=
  let! first := search_block r 1024 in
  match first with
  | inr e => Ret (inr e)
  | inl (Some x) => Ret (inl x)
  | inl None =>
      if decide (Z.of_nat (length r) ≤ 1024) then Ret (inr ErrFormat)
      else
        let! second := search_block r (65 * 1024) in
        match second with
        | inr e => Ret (inr e)
        | inl (Some x) => Ret (inl x)
        | inl None => Ret (inr ErrFormat)
        end
  end.

Definition readDirectoryEnd (r : bytes) : outcome (directoryEnd + zip_error) :=
  let! found := search_end r in
  match found with
  | inr e => Ret (inr e)
  | inl (buf, directoryEndOffset) =>
      let! b := slice_from buf 4 in
      let! (disk, b) := uint 2 b in
      let! (dirDisk, b) := uint 2 b in
      let! (thisDisk, b) := uint 2 b in
      let! (records, b) := uint 2 b in
      let! (size, b) := uint 4 b in
      let! (offset, b) := uint 4 b in
      let! (l, b) := uint 2 b in
      if decide (l > Z.of_nat (length b)) then Ret (inr ErrComment) else
      let! c := slice b 0 (Z.to_nat l) in
      let d := mkEnd disk dirDisk thisDisk records size offset l (string_of c) in
      let! d :=
        (if decide (records = 0xffff ∨ size = 0xffff ∨ offset = 0xffffffff) then
           let! p := findDirectory64End r directoryEndOffset in
           match p with
           | inr e => Ret (inr e)
           | inl (Some p) => if decide (0 ≤ p) then readDirectory64End r p d else Ret (inl d)
           | inl None => Ret (inl d)
           end
         else Ret (inl d)) in
      match d with
      | inr e => Ret (inr e)
      | inl d =>
          let o := int64 (directoryOffset d) in
          if decide (o < 0 ∨ Z.of_nat (length r) ≤ o) then Ret (inr ErrFormat) else Ret (inl d)
      end
  end.

(** [OpenReader]: the bytes the reader of the directory starts with. *)
Definition OpenReader (r : bytes) : outcome (bytes + zip_error) :=
  let! d := readDirectoryEnd r in
  match d with
  | inr e => Ret (inr e)
  | inl d => Ret (inl (from (int64 (directoryOffset d)) r))
  end.

(** ** The encoding of names *)

(** [utf8.DecodeRune]: the rune and its width; [RuneError] of width 1 for bytes that are no
    encoding. *)
Definition RuneError : Z := 0xFFFD.
Definition cont (b : ascii) : bool := bool_decide (0x80 ≤ zb b ≤ 0xBF).
Definition low6 (b : ascii) : Z := Z.land (zb b) 0x3F.

Definition decode_rune (s : bytes) : Z * nat :=
  match s with
  | [] => (RuneError, 0%nat)
  | b0 :: s =>
      let z := zb b0 in
      if decide (z < 0x80) then (z, 1%nat)
      else
        match s with
        | b1 :: s =>
            if decide (0xC2 ≤ z ≤ 0xDF) then
              if cont b1 then (Z.lor (Z.shiftl (Z.land z 0x1F) 6) (low6 b1), 2%nat) else (RuneError, 1%nat)
            else
              match s with
              | b2 :: s =>
                  let lo := if decide (z = 0xE0) then 0xA0 else 0x80 in
                  let hi := if decide (z = 0xED) then 0x9F else 0xBF in
                  if decide (0xE0 ≤ z ≤ 0xEF) then
                    if decide (lo ≤ zb b1 ≤ hi) then
                      if cont b2 then
                        (Z.lor (Z.lor (Z.shiftl (Z.land z 0x0F) 12) (Z.shiftl (low6 b1) 6)) (low6 b2), 3%nat)
                      else (RuneError, 1%nat)
                    else (RuneError, 1%nat)
                  else
                    match s with
                    | b3 :: _ =>
                        let lo := if decide (z = 0xF0) then 0x90 else 0x80 in
                        let hi := if decide (z = 0xF4) then 0x8F else 0xBF in
                        if decide (0xF0 ≤ z ≤ 0xF4) then
                          if decide (lo ≤ zb b1 ≤ hi) then
                            if cont b2 && cont b3 then
                              (Z.lor (Z.lor (Z.shiftl (Z.land z 0x07) 18) (Z.shiftl (low6 b1) 12))
                                 (Z.lor (Z.shiftl (low6 b2) 6) (low6 b3)), 4%nat)
                            else (RuneError, 1%nat)
                          else (RuneError, 1%nat)
                        else (RuneError, 1%nat)
                    | [] => (RuneError, 1%nat)
                    end
              | [] => (RuneError, 1%nat)
              end
        | [] => (RuneError, 1%nat)
        end
  end.

Definition ValidRune (r : Z) : bool := bool_decide (0 ≤ r < 0xD800 ∨ 0xDFFF < r ≤ 0x10FFFF).

Fixpoint detect_loop (fuel : nat) (s : bytes) (require : bool) : bool * bool :=
  match fuel with
  | O => (true, require)
  | S fuel =>
      match s with
      | [] => (true, require)
      | _ =>
          let '(r, size) := decode_rune s in
          let s := drop size s in
          if decide (r < 0x20 ∨ 0x7d < r ∨ r = 0x5c) then
            if negb (ValidRune r) || bool_decide (r = RuneError ∧ size = 1%nat) then (false, false)
            else detect_loop fuel s true
          else detect_loop fuel s require
      end
  end.

(** A rune takes a byte or more. *)
Definition detectUTF8 (s : bytes) : bool * bool := detect_loop (length s) s false.

Definition non_utf8 (name : bytes) (flags : Z) : bool :=
  let '(valid, require) := detectUTF8 name in
  if negb valid then true else if negb require then false else bool_decide (Z.land flags 0x800 = 0).

(** ** The directory *)

Record sizes := mkSizes {
  is64 : bool; usize : Z; csize : Z; offset_ : Z; needUSize : bool; needCSize : bool; needHeaderOffset : bool }.

(** A field of 8 bytes of the zip64 block, if it is needed. *)
Definition take64 (need : bool) (old : Z) (b : bytes) : outcome ((Z * bytes) + zip_error) :=
  if need then
    if decide (length b < 8)%nat then Ret (inr ErrFormat)
    else let! (v, b) := uint 8 b in Ret (inl (v, b))
  else Ret (inl (old, b)).

Definition zip64_block (b : bytes) (s : sizes) : outcome (sizes + zip_error) :=
  let! u := take64 (needUSize s) (usize s) b in
  match u with
  | inr e => Ret (inr e)
  | inl (u, b) =>
      let! c := take64 (needCSize s) (csize s) b in
      match c with
      | inr e => Ret (inr e)
      | inl (c, b) =>
          let! o := take64 (needHeaderOffset s) (offset_ s) b in
          match o with
          | inr e => Ret (inr e)
          | inl (o, _) =>
              Ret (inl (mkSizes true u c (if needHeaderOffset s then int64 o else o) false false false))
          end
      end
  end.

(** The fields of the extra block; each takes four bytes or more. *)
Fixpoint extra_loop (fuel : nat) (extra : bytes) (s : sizes) : outcome (sizes + zip_error) :=
  match fuel with
  | O => Ret (inl s)
  | S fuel =>
      if decide (length extra < 4)%nat then Ret (inl s)
      else
        let! (fieldTag, extra) := uint 2 extra in
        let! (fieldSize, extra) := uint 2 extra in
        let n := Z.to_nat fieldSize in
        if decide (length extra < n)%nat then Ret (inl s)
        else
          let! fieldBuf := slice extra 0 n in
          let! extra := slice_from extra n in
          if decide (fieldTag = zip64ExtraID) then
            let! s := zip64_block fieldBuf s in
            match s with
            | inr e => Ret (inr e)
            | inl s => extra_loop fuel extra s
            end
          else extra_loop fuel extra s
  end.

Definition readDirectoryHeader (r : bytes) : outcome ((File * bytes) + zip_error) :=
  match read_full directoryHeaderLen r with
  | inr e => Ret (inr (IO e))
  | inl (b, r) =>
      let! (sig, b) := uint 4 b in
      if decide (sig ≠ directoryHeaderSignature) then Ret (inr ErrFormat) else
      let! (creator, b) := uint 2 b in
      let! (reader, b) := uint 2 b in
      let! (flags, b) := uint 2 b in
      let! (method, b) := uint 2 b in
      let! (_, b) := uint 2 b in
      let! (_, b) := uint 2 b in
      let! (crc, b) := uint 4 b in
      let! (compressed, b) := uint 4 b in
      let! (uncompressed, b) := uint 4 b in
      let! (filenameLen, b) := uint 2 b in
      let! (extraLen, b) := uint 2 b in
      let! (commentLen, b) := uint 2 b in
      let! b := slice_from b 4 in
      let! (_, b) := uint 4 b in
      let! (offset, b) := uint 4 b in
      match read_full (Z.to_nat (filenameLen + extraLen + commentLen)) r with
      | inr e => Ret (inr (IO e))
      | inl (d, r) =>
          let! name := slice d 0 (Z.to_nat filenameLen) in
          let! extra := slice d (Z.to_nat filenameLen) (Z.to_nat (filenameLen + extraLen)) in
          let! s := extra_loop (length extra) extra (mkSizes false uncompressed compressed offset
            (bool_decide (uncompressed = uint32max)) (bool_decide (compressed = uint32max))
            (bool_decide (offset = uint32max))) in
          match s with
          | inr e => Ret (inr e)
          | inl s =>
              if needCSize s || needHeaderOffset s then Ret (inr ErrFormat)
              else Ret (inl (mkFile (string_of name) (non_utf8 name flags) creator reader flags method crc
                compressed uncompressed (csize s) (usize s) extra (offset_ s) (is64 s) None, r))
          end
      end
  end.

(** ** The contents of an entry *)

Definition findBodyOffset (z : bytes) (f : File) : outcome (Z + zip_error) :=
  match ReadAt z fileHeaderLen (headerOffset f) with
  | (_, Some e) => Ret (inr (IO e))
  | (b, None) =>
      let! (sig, b) := uint 4 b in
      if decide (sig ≠ fileHeaderSignature) then Ret (inr ErrFormat) else
      let! b := slice_from b 22 in
      let! (filenameLen, b) := uint 2 b in
      let! (extraLen, b) := uint 2 b in
      Ret (inl (Z.of_nat fileHeaderLen + filenameLen + extraLen))
  end.

Definition DataOffset (z : bytes) (f : File) : outcome (Z + zip_error) :=
  let! o := findBodyOffset z f in
  match o with
  | inr e => Ret (inr e)
  | inl o => Ret (inl (int64 (headerOffset f + o)))
  end.

(** [OpenRaw]: the offset and the length of the section. *)
Definition OpenRaw (z : bytes) (f : File) : outcome ((Z * Z) + zip_error) :=
  let! o := findBodyOffset z f in
  match o with
  | inr e => Ret (inr e)
  | inl o => Ret (inl (int64 (headerOffset f + o), int64 (CompressedSize64 f)))
  end.

(** The descriptor behind the contents: the checksum and the sizes. *)
Definition readDataDescriptor (r : bytes) (zip64 : bool) : outcome ((Z * Z * Z) + zip_error) :=
  match read_full 4 r with
  | inr e => Ret (inr (IO e))
  | inl (head, r) =>
      let! (maybeSig, _) := uint 4 head in
      let kept := if decide (maybeSig ≠ dataDescriptorSignature) then head else [] in
      let end_ := ((if zip64 then dataDescriptor64Len else dataDescriptorLen) - 4)%nat in
      match read_full (end_ - length kept) r with
      | inr e => Ret (inr (IO e))
      | inl (d, _) =>
          let! (crc, b) := uint 4 (kept ++ d) in
          let w := if zip64 then 8%nat else 4%nat in
          let! (compressed, b) := uint w b in
          let! (uncompressed, b) := uint w b in
          Ret (inl (crc, compressed, uncompressed))
      end
  end.

(** [f.readDataDescriptor()]. *)
Definition File_readDataDescriptor (z : bytes) (f : File) : outcome File :=
  if negb (hasDataDescriptor f) then Ret f
  else
    let! o := findBodyOffset z f in
    match o with
    | inr e => Ret (set_desc (CRC32 f) (Some e) f)
    | inl o =>
        let zip64 := zip64 f || isZip64 f in
        let n := if zip64 then dataDescriptor64Len else dataDescriptorLen in
        match section z (int64 (int64 (headerOffset f + o) + int64 (CompressedSize64 f))) n with
        | inr e => Ret (set_desc (CRC32 f) (Some (IO e)) f)
        | inl r =>
            let! dd := readDataDescriptor r zip64 in
            match dd with
            | inr e => Ret (set_desc (CRC32 f) (Some e) f)
            | inl (crc, _, _) => Ret (set_desc crc None f)
            end
        end
    end.

(** [WalkFiles]: the entries passed to the function, and the error it returns.  A header
    takes 46 bytes or more. *)
Fixpoint walk (fuel : nat) (z r : bytes) : outcome (list File * zip_error) :=
  match fuel with
  | O => Panic "out of fuel"
  | S fuel =>
      let! h := readDirectoryHeader r in
      match h with
      | inr e => Ret ([], e)
      | inl (f, r) =>
          let! f := File_readDataDescriptor z f in
          let! (fs, e) := walk fuel z r in
          Ret (f :: fs, e)
      end
  end.

Definition WalkFiles (z r : bytes) : outcome (list File * zip_error) := walk (S (length r)) z r.

(** ** The checks of [checksumReader]

    [Open] reads the contents through a decompressor; [crc32] is the checksum of the Standard
    Library.  The reader keeps what it has hashed and its error. *)

Section checksum.
Context (crc32 : bytes → Z).

Record checksumReader := mkReader { hashed : bytes; rerr : option zip_error }.

(** A read that the decompressor answers with [b] and an error. *)
Definition checksumReader_Read (f : File) (b : bytes) (err : option zip_error) (r : checksumReader) :
    checksumReader * (bytes * option zip_error) :=
  match rerr r with
  | Some e => (r, ([], Some e))
  | None =>
      let r := mkReader (hashed r ++ b) None in
      match err with
      | None => (r, (b, None))
      | Some (IO (IOErr EOF)) =>
          if decide (uint64 (Z.of_nat (length (hashed r))) ≠ UncompressedSize64 f)
          then (r, ([], Some (IO (IOErr ErrUnexpectedEOF))))
          else
            let err :=
              if hasDataDescriptor f then
                match descErr f with
                | Some (IO (IOErr EOF)) => IO (IOErr ErrUnexpectedEOF)
                | Some e => e
                | None => if decide (crc32 (hashed r) ≠ CRC32 f) then ErrChecksum else IO (IOErr EOF)
                end
              else if decide (CRC32 f ≠ 0 ∧ crc32 (hashed r) ≠ CRC32 f) then ErrChecksum else IO (IOErr EOF) in
            (mkReader (hashed r) (Some err), (b, Some err))
      | Some e => (mkReader (hashed r) (Some e), (b, Some e))
      end
  end.

(** Reading to the end, as [io.ReadAll] does: what it returns when the decompressor gives
    the answers, or [None] if more of them are needed. *)
Fixpoint read_all (f : File) (answers : list (bytes * option zip_error)) (r : checksumReader) :
    option (bytes * option zip_error) :=
  match answers with
  | [] => None
  | (b, err) :: answers =>
      let '(r, (b, err)) := checksumReader_Read f b err r in
      match err with
      | None => (λ '(bs, e), (b ++ bs, e)) <$> read_all f answers r
      | Some (IO (IOErr EOF)) => Some (b, None)
      | Some e => Some (b, Some e)
      end
  end.

End checksum.

(** ** No archive makes the reader panic *)

Lemma returns_ret {A} (a : A) : returns (Ret a).
Proof. by exists a. Qed.

Lemma index_ret b i : (i < length b)%nat → returns (index b i).
Proof. intros [z ->]%index_in. apply returns_ret. Qed.

Lemma returns_bind {A B} (o : outcome A) (k : A → outcome B) :
  returns o → (∀ a, returns (k a)) → returns (obind o k).
Proof. intros [a ->] Hk. apply Hk. Qed.

Lemma signature_at_returns b i : (i + directoryEndLen ≤ length b)%nat → returns (signature_at b i).
Proof.
  unfold directoryEndLen. intros Hi. unfold signature_at, directoryEndLen.
  repeat first [apply returns_ret | case_decide | apply returns_bind; [apply index_ret; lia|intros ?]].
Qed.

Lemma findSignatureInBlock_returns b :
  ∃ p, findSignatureInBlock b = Ret p ∧ from_option (λ p, (p + directoryEndLen ≤ length b)%nat) True p.
Proof.
  unfold findSignatureInBlock. case_decide as Hd; [by exists None|].
  assert (length b - directoryEndLen + directoryEndLen ≤ length b)%nat as Hi by lia. revert Hi.
  generalize (length b - directoryEndLen)%nat. intros i. induction i as [|i IH]; intros Hi; cbn [find_down];
    destruct (signature_at_returns b _ Hi) as [[] ->]; cbn [obind].
  - by exists (Some 0%nat).
  - by exists None.
  - by exists (Some (S i)).
  - apply IH. lia.
Qed.

Lemma findDirectory64End_returns r o : returns (findDirectory64End r o).
Proof.
  unfold findDirectory64End. case_decide; [apply returns_ret|].
  pose proof (length_ReadAt r directory64LocLen (o - Z.of_nat directory64LocLen)) as Hl.
  destruct (ReadAt _ _ _) as [b [e|]]; [apply returns_ret|]. cbn [fst] in Hl. unfold directory64LocLen in Hl.
  eat. case_decide; [apply returns_ret|]. eat. case_decide; [apply returns_ret|]. do 2 eat.
  case_decide; apply returns_ret.
Qed.

Lemma readDirectory64End_returns r o d : returns (readDirectory64End r o d).
Proof.
  unfold readDirectory64End. pose proof (length_ReadAt r directory64EndLen o) as Hl.
  destruct (ReadAt _ _ _) as [b [e|]]; [apply returns_ret|]. cbn [fst] in Hl. unfold directory64EndLen in Hl.
  eat. case_decide; [apply returns_ret|]. do 7 eat. apply returns_ret.
Qed.

Lemma search_block_returns r n :
  ∃ x, search_block r n = Ret x ∧ match x with inl (Some (buf, _)) => (directoryEndLen ≤ length buf)%nat | _ => True end.
Proof.
  unfold search_block. destruct (ReadAt _ _ _) as [buf [[]|]] eqn:E; try by eexists.
  all: destruct (findSignatureInBlock_returns buf) as ([p|] & -> & Hp); cbn [obind]; [|by eexists]; simpl in Hp;
    rewrite slice_from_long by lia; cbn [obind]; eexists; (split; [reflexivity|]); cbv beta iota; rewrite length_drop; lia.
Qed.

Lemma search_end_returns r :
  ∃ x, search_end r = Ret x ∧ match x with inl (buf, _) => (directoryEndLen ≤ length buf)%nat | _ => True end.
Proof.
  unfold search_end. destruct (search_block_returns r 1024) as ([[[buf o]|]|e] & -> & Hb); cbn [obind]; try by eexists.
  case_decide; [by eexists|].
  destruct (search_block_returns r (65 * 1024)) as ([[[buf o]|]|e] & -> & Hb'); cbn [obind]; by eexists.
Qed.

Lemma readDirectoryEnd_returns r : returns (readDirectoryEnd r).
Proof.
  unfold readDirectoryEnd. destruct (search_end_returns r) as ([[buf o]|e] & -> & Hb); cbn [obind]; [|apply returns_ret].
  unfold directoryEndLen in Hb. do 8 eat. case_decide as Hl; [apply returns_ret|]. eat.
  apply returns_bind; [|intros [d|e]; [case_decide|]; apply returns_ret].
  case_decide; [|apply returns_ret]. apply returns_bind; [apply findDirectory64End_returns|].
  intros [[p|]|e]; try apply returns_ret. case_decide; [apply readDirectory64End_returns|apply returns_ret].
Qed.

Lemma take64_returns need old b : returns (take64 need old b).
Proof. unfold take64. destruct need; [case_decide; [|eat]|]; apply returns_ret. Qed.

Lemma zip64_block_returns b s : returns (zip64_block b s).
Proof.
  unfold zip64_block. apply returns_bind; [apply take64_returns|]. intros [[u b1]|e]; [|apply returns_ret].
  apply returns_bind; [apply take64_returns|]. intros [[c b2]|e]; [|apply returns_ret].
  apply returns_bind; [apply take64_returns|]. intros [[o b3]|e]; apply returns_ret.
Qed.

Lemma extra_loop_returns fuel b s : returns (extra_loop fuel b s).
Proof.
  revert b s. induction fuel as [|fuel IH]; intros b s; [apply returns_ret|]. cbn [extra_loop].
  case_decide; [apply returns_ret|]. do 2 eat. case_decide; [apply returns_ret|]. do 2 eat.
  case_decide; [|apply IH]. apply returns_bind; [apply zip64_block_returns|]. intros [s'|e]; [apply IH|apply returns_ret].
Qed.

(** A header takes its 46 bytes off the stream. *)
Lemma readDirectoryHeader_returns r :
  ∃ x, readDirectoryHeader r = Ret x ∧
    match x with inl (_, r') => (length r' + directoryHeaderLen ≤ length r)%nat | inr _ => True end.
Proof.
  unfold readDirectoryHeader. destruct (read_full directoryHeaderLen r) as [[b r1]|e] eqn:E; [|by eexists].
  apply read_full_inl in E as [Hl ->]. rewrite length_app, Hl. unfold directoryHeaderLen in *.
  eat. case_decide; [by eexists|]. do 15 eat.
  destruct (read_full _ r1) as [[d r2]|e] eqn:E2; [|by eexists]. apply read_full_inl in E2 as [Hd ->].
  unfold in_u in *. do 2 eat.
  match goal with |- context [extra_loop ?n ?e ?s] => destruct (extra_loop_returns n e s) as [[s'|e'] ->] end;
    cbn [obind]; [|by eexists]. destruct (needCSize s' || needHeaderOffset s'); eexists; (split; [done|]); [done|].
  rewrite length_app. lia.
Qed.

Lemma findBodyOffset_returns z f : returns (findBodyOffset z f).
Proof.
  unfold findBodyOffset. pose proof (length_ReadAt z fileHeaderLen (headerOffset f)) as Hl.
  destruct (ReadAt _ _ _) as [b [e|]]; [apply returns_ret|]. cbn [fst] in Hl. unfold fileHeaderLen in Hl.
  eat. case_decide; [apply returns_ret|]. do 3 eat. apply returns_ret.
Qed.

Lemma readDataDescriptor_returns r z : returns (readDataDescriptor r z).
Proof.
  unfold readDataDescriptor. destruct (read_full 4 r) as [[head r1]|e] eqn:E; [|apply returns_ret].
  apply read_full_inl in E as [Hh ->]. eat.
  set (kept := if decide (v ≠ dataDescriptorSignature) then head else []).
  assert (length kept ≤ 4)%nat as Hk by (subst kept; case_decide; simpl; lia).
  destruct (read_full _ r1) as [[d r2]|e] eqn:E2; [|apply returns_ret].
  apply read_full_inl in E2 as [Hd _]. pose proof (length_app kept d) as Ha.
  unfold dataDescriptor64Len, dataDescriptorLen in Hd. destruct z; do 3 eat; apply returns_ret.
Qed.

Lemma File_readDataDescriptor_returns z f : returns (File_readDataDescriptor z f).
Proof.
  unfold File_readDataDescriptor. destruct (negb _); [apply returns_ret|].
  apply returns_bind; [apply findBodyOffset_returns|]. intros [o|e]; [|apply returns_ret].
  destruct (section _ _ _) as [r|e]; [|apply returns_ret].
  apply returns_bind; [apply readDataDescriptor_returns|]. intros [[[crc c] u]|e]; apply returns_ret.
Qed.

Lemma walk_returns fuel z r : (length r < fuel)%nat → returns (walk fuel z r).
Proof.
  revert r. induction fuel as [|fuel IH]; intros r Hf; [lia|]. cbn [walk].
  destruct (readDirectoryHeader_returns r) as ([[f r1]|e] & -> & Hr); cbn [obind]; [|apply returns_ret].
  apply returns_bind; [apply File_readDataDescriptor_returns|]. intros f'.
  apply returns_bind; [|intros []; apply returns_ret]. apply IH. unfold directoryHeaderLen in Hr. lia.
Qed.

(** [C36] Whatever bytes a file has, opening it, walking over its directory and locating the
    contents of any entry returns: no index is out of range, no slice is too short, and the
    walk ends. *)
Theorem zip_never_panics z :
  ∃ o, OpenReader z = Ret o ∧
    ∀ r, o = inl r → ∃ fs e, WalkFiles z r = Ret (fs, e) ∧ ∀ f, f ∈ fs → returns (OpenRaw z f) ∧ returns (DataOffset z f).
Proof.
  unfold OpenReader. destruct (readDirectoryEnd_returns z) as [d ->]. cbn [obind].
  assert (∀ r, ∃ fs e, WalkFiles z r = Ret (fs, e) ∧
    ∀ f, f ∈ fs → returns (OpenRaw z f) ∧ returns (DataOffset z f)) as Hw.
  { intros r. destruct (walk_returns (S (length r)) z r ltac:(lia)) as [[fs e] Hr]. exists fs, e. split; [exact Hr|].
    intros f _. unfold OpenRaw, DataOffset. destruct (findBodyOffset_returns z f) as [[] ->]; cbn [obind]; split; apply returns_ret. }
  destruct d; eexists; (split; [done|]); intros; [apply Hw|done].
Qed.

(** ** What the reader finds in an archive

    The format, as it is specified for archives without the 64-bit extensions: the entries,
    each behind its local header and, if its flags say so, before a data descriptor, then
    the central directory, then the end record with the comment of the archive. *)

Record entry := mkEntry {
  eName : bytes; eExtra : bytes; eComment : bytes; eLocalExtra : bytes; eData : bytes;
  eCreator : Z; eReader : Z; eFlags : Z; eMethod : Z; eTime : Z; eDate : Z; eCRC : Z; eUSize : Z; eAttrs : Z }.

Abbreviation lenz l := (Z.of_nat (length l)).

Definition described (e : entry) : bool := bool_decide (Z.land (eFlags e) 8 ≠ 0).

Definition local_header (e : entry) : bytes :=
  let unless z := if described e then 0 else z in
  le_bytes 4 fileHeaderSignature ++
  (le_bytes 2 (eReader e) ++ le_bytes 2 (eFlags e) ++ le_bytes 2 (eMethod e) ++ le_bytes 2 (eTime e) ++
   le_bytes 2 (eDate e) ++ le_bytes 4 (unless (eCRC e)) ++ le_bytes 4 (unless (lenz (eData e))) ++
   le_bytes 4 (unless (eUSize e))) ++
  le_bytes 2 (lenz (eName e)) ++ le_bytes 2 (lenz (eLocalExtra e)).

Definition descriptor (e : entry) : bytes :=
  if described e then
    le_bytes 4 dataDescriptorSignature ++ le_bytes 4 (eCRC e) ++ le_bytes 4 (lenz (eData e)) ++ le_bytes 4 (eUSize e)
  else [].

Definition local (e : entry) : bytes :=
  local_header e ++ (eName e ++ eLocalExtra e) ++ eData e ++ descriptor e.

Definition central_header (off : Z) (e : entry) : bytes :=
  le_bytes 4 directoryHeaderSignature ++ le_bytes 2 (eCreator e) ++ le_bytes 2 (eReader e) ++ le_bytes 2 (eFlags e) ++
  le_bytes 2 (eMethod e) ++ le_bytes 2 (eTime e) ++ le_bytes 2 (eDate e) ++ le_bytes 4 (eCRC e) ++
  le_bytes 4 (lenz (eData e)) ++ le_bytes 4 (eUSize e) ++ le_bytes 2 (lenz (eName e)) ++ le_bytes 2 (lenz (eExtra e)) ++
  le_bytes 2 (lenz (eComment e)) ++ le_bytes 4 0 ++ le_bytes 4 (eAttrs e) ++ le_bytes 4 off.

Definition central (off : Z) (e : entry) : bytes :=
  central_header off e ++ eName e ++ eExtra e ++ eComment e.

Fixpoint centrals (off : Z) (es : list entry) : bytes :=
  match es with [] => [] | e :: es => central off e ++ centrals (off + lenz (local e)) es end.

Definition locals (es : list entry) : bytes := concat (local <$> es).

Definition end_record (es : list entry) (cm : bytes) : bytes :=
  le_bytes 4 directoryEndSignature ++ le_bytes 2 0 ++ le_bytes 2 0 ++ le_bytes 2 (lenz es) ++ le_bytes 2 (lenz es) ++
  le_bytes 4 (lenz (centrals 0 es)) ++ le_bytes 4 (lenz (locals es)) ++ le_bytes 2 (lenz cm) ++ cm.

Definition archive (es : list entry) (cm : bytes) : bytes := locals es ++ centrals 0 es ++ end_record es cm.

(** Whether the extra block has a zip64 field. *)
Definition plain_sizes : sizes := mkSizes false 0 0 0 false false false.
Definition has_zip64 (extra : bytes) : bool :=
  match extra_loop (length extra) extra plain_sizes with Ret (inl s) => is64 s | _ => true end.

(** The values fit their fields, and sizes and offsets are not the ones that stand for
    64-bit values. *)
Definition fits (off : Z) (e : entry) : Prop :=
  in_u 16 (eCreator e) ∧ in_u 16 (eReader e) ∧ in_u 16 (eFlags e) ∧ in_u 16 (eMethod e) ∧ in_u 16 (eTime e) ∧
  in_u 16 (eDate e) ∧ in_u 32 (eCRC e) ∧ in_u 32 (eAttrs e) ∧
  lenz (eName e) < 2 ^ 16 ∧ lenz (eExtra e) < 2 ^ 16 ∧ lenz (eComment e) < 2 ^ 16 ∧ lenz (eLocalExtra e) < 2 ^ 16 ∧
  lenz (eData e) < uint32max ∧ 0 ≤ eUSize e < uint32max ∧ 0 ≤ off < uint32max ∧
  (described e = true → has_zip64 (eExtra e) = false).

Fixpoint all_fit (off : Z) (es : list entry) : Prop :=
  match es with [] => True | e :: es => fits off e ∧ all_fit (off + lenz (local e)) es end.

Definition archive_fits (es : list entry) (cm : bytes) : Prop :=
  all_fit 0 es ∧ lenz es < 2 ^ 16 - 1 ∧ lenz (centrals 0 es) < 2 ^ 32 ∧ lenz (centrals 0 es) ≠ 2 ^ 16 - 1 ∧
  lenz (locals es) < uint32max ∧ (length cm ≤ 1002)%nat ∧
  ∀ k, (0 < k ≤ length cm)%nat → signature_at (end_record es cm) k = Ret false.

(** What the entry of the archive [z] is listed as. *)
Definition listed (z : bytes) (e : entry) (f : File) : Prop :=
  Name f = string_of (eName e) ∧ Flags f = eFlags e ∧ Method f = eMethod e ∧ CRC32 f = eCRC e ∧
  CompressedSize64 f = lenz (eData e) ∧ UncompressedSize64 f = eUSize e ∧ Extra f = eExtra e ∧ descErr f = None ∧
  ∃ o, OpenRaw z f = Ret (inl (o, lenz (eData e))) ∧ section z o (length (eData e)) = inl (eData e).

(** *** Reading the pieces *)

Ltac lens := rewrite ?length_app, ?length_le_bytes.

Lemma length_local_header e : length (local_header e) = 30%nat.
Proof. unfold local_header. by lens. Qed.

Lemma length_central_header off e : length (central_header off e) = 46%nat.
Proof. unfold central_header. by lens. Qed.

Lemma extra_loop_plain fuel b s :
  needUSize s = false → needCSize s = false → needHeaderOffset s = false →
  ∃ s', extra_loop fuel b s = Ret (inl s') ∧ usize s' = usize s ∧ csize s' = csize s ∧ offset_ s' = offset_ s ∧
    needUSize s' = false ∧ needCSize s' = false ∧ needHeaderOffset s' = false ∧
    ∀ t, is64 t = is64 s → needUSize t = false → needCSize t = false → needHeaderOffset t = false →
      ∃ t', extra_loop fuel b t = Ret (inl t') ∧ is64 t' = is64 s'.
Proof.
  revert b s. induction fuel as [|fuel IH]; intros b s Hu Hc Ho; cbn [extra_loop].
  { exists s. split_and!; try done. intros t Ht *. by exists t. }
  case_decide; [exists s; split_and!; try done; intros t Ht *; by exists t|].
  do 2 eat. case_decide; [exists s; split_and!; try done; intros t Ht *; by exists t|]. do 2 eat.
  case_decide as Htag; [|by apply IH].
  unfold zip64_block. rewrite Hu, Hc, Ho. cbn [take64 obind].
  match goal with |- context [extra_loop fuel ?b _] => edestruct (IH b (mkSizes true (usize s) (csize s) (offset_ s) false false false)) as
    (s' & Es & H1 & H2 & H3 & H4 & H5 & H6 & Hall); [done..|] end.
  exists s'. split_and!; try done. intros t Ht Hu' Hc' Ho'. rewrite Hu', Hc', Ho'. cbn [take64 obind]. by apply Hall.
Qed.
(** Reads what was written; the values are in range by the hypotheses. *)
Ltac rd :=
  rewrite uint_bytes by
    (first [change (256 ^ Z.of_nat 2) with 65536 | change (256 ^ Z.of_nat 4) with 4294967296];
     cbv [fileHeaderSignature directoryHeaderSignature directoryEndSignature dataDescriptorSignature]; lia);
  cbn [obind].

Definition file_of (off : Z) (e : entry) : File :=
  mkFile (string_of (eName e)) (non_utf8 (eName e) (eFlags e)) (eCreator e) (eReader e) (eFlags e) (eMethod e) (eCRC e)
    (lenz (eData e)) (eUSize e) (lenz (eData e)) (eUSize e) (eExtra e) off (has_zip64 (eExtra e)) None.

Lemma has_zip64_loop extra s :
  is64 s = false → needUSize s = false → needCSize s = false → needHeaderOffset s = false →
  ∃ s', extra_loop (length extra) extra s = Ret (inl s') ∧ usize s' = usize s ∧ csize s' = csize s ∧
    offset_ s' = offset_ s ∧ needCSize s' = false ∧ needHeaderOffset s' = false ∧ is64 s' = has_zip64 extra.
Proof.
  intros H6 Hu Hc Ho.
  destruct (extra_loop_plain (length extra) extra s Hu Hc Ho) as (s' & Es & H1 & H2 & H3 & _ & H4 & H5 & Hall).
  exists s'. split_and!; try done. destruct (Hall plain_sizes) as (t' & Et & <-); [done..|].
  unfold has_zip64. by rewrite Et.
Qed.

Lemma readDirectoryHeader_central off e rest :
  fits off e → readDirectoryHeader (central off e ++ rest) = Ret (inl (file_of off e, rest)).
Proof.
  intros Hf. unfold fits, in_u, uint32max in Hf. simpl in Hf.
  destruct Hf as (? & ? & ? & ? & ? & ? & ? & ? & ? & ? & ? & ? & ? & ? & ? & _).
  unfold readDirectoryHeader, central. rewrite <- !app_assoc.
  change directoryHeaderLen with 46%nat. rewrite <- (length_central_header off e) at 1. rewrite read_full_app.
  unfold central_header. rd. rewrite decide_False by (intros Hne; by apply Hne). do 12 rd.
  rewrite slice_from_long by (lens; lia). rewrite drop_app_length' by (by rewrite length_le_bytes). cbn [obind]. rd.
  rewrite <- (app_nil_r (le_bytes 4 off)). rd.
  replace (Z.to_nat _) with (length (eName e ++ eExtra e ++ eComment e)) by (lens; lia).
  rewrite !app_assoc, <- (app_assoc (eName e)). rewrite read_full_app.
  rewrite !Nat2Z.id. rewrite slice_long by (lens; lia). rewrite Nat.sub_0_r, drop_0, take_app_length. cbn [obind].
  replace (Z.to_nat _) with (length (eName e) + length (eExtra e))%nat by lia.
  rewrite slice_long by (lens; lia). rewrite drop_app_length. 
  replace (length (eName e) + length (eExtra e) - length (eName e))%nat with (length (eExtra e)) by lia.
  rewrite take_app_length. cbn [obind].
  rewrite !bool_decide_false by (unfold uint32max; simpl; lia).
  destruct (has_zip64_loop (eExtra e) (mkSizes false (eUSize e) (lenz (eData e)) off false false false))
    as (s' & -> & Hu & Hc & Ho & Hnc & Hno & H64); [done..|]. cbn [obind].
  by rewrite Hnc, Hno, Hu, Hc, Ho, H64.
Qed.
(** The body of an entry that lies in the archive behind [pre]. *)
Lemma findBodyOffset_local z pre e post f :
  z = pre ++ local e ++ post → fits (lenz pre) e → headerOffset f = lenz pre →
  findBodyOffset z f = Ret (inl (lenz (local_header e ++ eName e ++ eLocalExtra e))).
Proof.
  intros -> Hf Ho. unfold fits, in_u, uint32max in Hf. simpl in Hf.
  unfold findBodyOffset, local. rewrite <- !app_assoc. change fileHeaderLen with 30%nat.
  rewrite <- (length_local_header e) at 1. rewrite ReadAt_app by done. unfold local_header at 1. rd.
  rewrite decide_False by (intros Hne; by apply Hne).
  rewrite slice_from_long by (lens; lia). rewrite drop_app_length' by (by lens). cbn [obind]. rd.
  rewrite <- (app_nil_r (le_bytes 2 (lenz (eLocalExtra e)))). rd.
  rewrite !length_app, length_local_header. do 2 f_equal. lia.
Qed.

Lemma local_split e : local e = (local_header e ++ eName e ++ eLocalExtra e) ++ eData e ++ descriptor e.
Proof. unfold local. by rewrite <- !app_assoc. Qed.

Lemma fits_small off e : fits off e →
  in_s 64 (off + lenz (local_header e ++ eName e ++ eLocalExtra e) + lenz (eData e)) ∧
  in_s 64 (off + lenz (local_header e ++ eName e ++ eLocalExtra e)) ∧ in_s 64 (lenz (eData e)).
Proof.
  unfold fits, uint32max, in_s. intros Hf. simpl in Hf. rewrite !length_app, length_local_header.
  change (2 ^ (64 - 1)) with 9223372036854775808. lia.
Qed.

Lemma int64_in z : in_s 64 z → int64 z = z.
Proof. apply wrap_s_id. lia. Qed.

Lemma section_app a b c o : o = lenz a → section (a ++ b ++ c) o (length b) = inl b.
Proof. intros ->. unfold section. rewrite decide_False by lia. by rewrite from_app, take_app_length. Qed.

Lemma OpenRaw_local z pre e post f :
  z = pre ++ local e ++ post → fits (lenz pre) e → headerOffset f = lenz pre → CompressedSize64 f = lenz (eData e) →
  ∃ o, OpenRaw z f = Ret (inl (o, lenz (eData e))) ∧ section z o (length (eData e)) = inl (eData e).
Proof.
  intros Hz Hf Ho Hc. unfold OpenRaw. rewrite (findBodyOffset_local z pre e post f) by done. cbn [obind].
  destruct (fits_small _ _ Hf) as (_ & H1 & H2). rewrite Ho, Hc, (int64_in _ H1), (int64_in _ H2).
  eexists. split; [done|]. rewrite Hz, local_split.
  set (h := local_header e ++ eName e ++ eLocalExtra e). rewrite <- !app_assoc. rewrite (app_assoc pre h).
  apply section_app. rewrite length_app. lia.
Qed.

Lemma readDataDescriptor_written e off rest :
  fits off e → described e = true → readDataDescriptor (descriptor e ++ rest) false =
    Ret (inl (eCRC e, lenz (eData e), eUSize e)).
Proof.
  intros Hf Hd. unfold fits, in_u, uint32max in Hf. simpl in Hf. unfold descriptor. rewrite Hd. rewrite <- !app_assoc.
  unfold readDataDescriptor. change 4%nat with (length (le_bytes 4 dataDescriptorSignature)) at 1.
  rewrite read_full_app. rewrite <- (app_nil_r (le_bytes 4 dataDescriptorSignature)). rd.
  rewrite decide_False by (intros Hne; by apply Hne). unfold dataDescriptorLen. simpl length.
  set (d := le_bytes 4 (eCRC e) ++ le_bytes 4 (lenz (eData e)) ++ le_bytes 4 (eUSize e)).
  replace (le_bytes 4 (eCRC e) ++ _) with (d ++ rest) by (subst d; by rewrite <- !app_assoc).
  change (16 - 4 - 0)%nat with (length d). rewrite read_full_app. subst d.
  cbn [app]. do 2 rd. rewrite <- (app_nil_r (le_bytes 4 (eUSize e))). by rd.
Qed.

(** The entry after its descriptor has been read. *)
Lemma File_readDataDescriptor_local z pre e post :
  z = pre ++ local e ++ post → fits (lenz pre) e →
  File_readDataDescriptor z (file_of (lenz pre) e) = Ret (file_of (lenz pre) e).
Proof.
  intros Hz Hf. unfold File_readDataDescriptor. change (hasDataDescriptor (file_of (lenz pre) e)) with (described e).
  destruct (described e) eqn:Hd; [|done]. cbn [negb].
  rewrite (findBodyOffset_local z pre e post) by done. cbn [obind].
  destruct (fits_small _ _ Hf) as (H0 & H1 & H2). cbn [file_of headerOffset CompressedSize64].
  rewrite (int64_in _ H1), (int64_in _ H2), (int64_in _ H0).
  assert (zip64 (file_of (lenz pre) e) || isZip64 (file_of (lenz pre) e) = false) as ->.
  { cbn [file_of zip64]. destruct Hf as (_ & _ & _ & _ & _ & _ & _ & _ & _ & _ & _ & _ & Hc & Hu & _ & H6).
    rewrite (H6 Hd). unfold isZip64, uint32max in *. apply bool_decide_false. cbn [file_of CompressedSize64 UncompressedSize64].
    lia. }
  rewrite Hz, local_split. set (h := local_header e ++ eName e ++ eLocalExtra e).
  replace (pre ++ (h ++ eData e ++ descriptor e) ++ post) with ((pre ++ h ++ eData e) ++ descriptor e ++ post)
    by (by rewrite <- !app_assoc).
  assert (length (descriptor e) = dataDescriptorLen) as <- by (unfold descriptor; rewrite Hd; by lens).
  rewrite section_app by (rewrite !length_app; lia). rewrite <- (app_nil_r (descriptor e)).
  by rewrite (readDataDescriptor_written e (lenz pre) [] Hf Hd).
Qed.

(** The walk over the directory of entries that lie behind [pre]. *)
Lemma walk_centrals z pre es post tail err fuel :
  z = pre ++ locals es ++ post → all_fit (lenz pre) es → readDirectoryHeader tail = Ret (inr err) →
  (length (centrals (lenz pre) es) < fuel)%nat →
  ∃ fs, walk fuel z (centrals (lenz pre) es ++ tail) = Ret (fs, err) ∧ Forall2 (listed z) es fs.
Proof.
  revert pre fuel. induction es as [|e es IH]; intros pre fuel Hz Hfit Htail Hfuel; (destruct fuel as [|fuel]; [lia|]).
  { exists []. cbn [centrals app walk]. by rewrite Htail. }
  destruct Hfit as [Hf Hfit]. cbn [centrals walk]. rewrite <- app_assoc, readDirectoryHeader_central by done. cbn [obind].
  assert (z = pre ++ local e ++ (locals es ++ post)) as Hz1.
  { rewrite Hz. unfold locals. rewrite fmap_cons. cbn [concat]. by rewrite <- app_assoc. }
  rewrite (File_readDataDescriptor_local z pre e _ Hz1 Hf). cbn [obind].
  rewrite <- Nat2Z.inj_add, <- length_app in Hfit |- *.
  destruct (IH (pre ++ local e) fuel) as (fs & -> & Hfs); [by rewrite <- app_assoc|done|done| |].
  { cbn [centrals] in Hfuel. rewrite length_app in Hfuel. unfold central in Hfuel.
    rewrite length_app, length_central_header, <- Nat2Z.inj_add, <- length_app in Hfuel. lia. }
  cbn [obind]. eexists. split; [done|]. constructor; [|done].
  unfold listed. split_and!; try done. by eapply OpenRaw_local.
Qed.
(** *** Finding the end record *)

Lemma index_app a b i : index (a ++ b) (length a + i) = index b i.
Proof. unfold index. rewrite lookup_app_r by lia. by replace (length a + i - length a)%nat with i by lia. Qed.

Lemma signature_at_app a b k : signature_at (a ++ b) (length a + k) = signature_at b k.
Proof.
  unfold signature_at. rewrite <- !Nat.add_assoc, !index_app.
  replace (length a + (k + directoryEndLen) - 2)%nat with (length a + (k + directoryEndLen - 2))%nat
    by (unfold directoryEndLen; lia).
  replace (length a + (k + directoryEndLen) - 1)%nat with (length a + (k + directoryEndLen - 1))%nat
    by (unfold directoryEndLen; lia).
  rewrite !index_app.
  destruct (index b k) as [b0|]; [|done]. cbn [obind]. case_decide; [done|].
  destruct (index b (k + 1)) as [b1|]; [|done]. cbn [obind]. case_decide; [done|].
  destruct (index b (k + 2)) as [b2|]; [|done]. cbn [obind]. case_decide; [done|].
  destruct (index b (k + 3)) as [b3|]; [|done]. cbn [obind]. case_decide; [done|].
  destruct (index b _) as [lo|]; [|done]. cbn [obind]. destruct (index b _) as [hi|]; [|done]. cbn [obind].
  f_equal. apply bool_decide_ext. rewrite length_app. lia.
Qed.

Lemma find_down_last b p n :
  signature_at b p = Ret true → (∀ k, (0 < k ≤ n)%nat → signature_at b (p + k) = Ret false) →
  find_down b (p + n) = Ret (Some p).
Proof.
  intros Hp Hk. induction n as [|n IH].
  - rewrite Nat.add_0_r. destruct p; cbn [find_down]; by rewrite Hp.
  - rewrite Nat.add_succ_r. cbn [find_down]. rewrite <- Nat.add_succ_r, (Hk (S n)) by lia. cbn [obind].
    apply IH. intros k Hk'. apply Hk. lia.
Qed.

Lemma lor_two_bytes v : 0 ≤ v < 65536 → Z.lor (v `mod` 256) (Z.shiftl ((v / 256) `mod` 256) 8) = v.
Proof.
  intros Hv. rewrite (Z.mod_small (v / 256)) by (split; [apply Z.div_pos; lia|apply Z.div_lt_upper_bound; lia]).
  change (v / 256) with (v / 2 ^ 8). rewrite <- Z.shiftr_div_pow2, <- Z.ldiff_ones_r by lia.
  change (v `mod` 256) with (v `mod` 2 ^ 8). rewrite <- Z.land_ones by lia. rewrite Z.lor_comm. apply Z.lor_ldiff_and.
Qed.

Lemma length_end_record es cm : length (end_record es cm) = (22 + length cm)%nat.
Proof. unfold end_record. lens. lia. Qed.

Lemma end_record_signature es cm :
  (length cm ≤ 1002)%nat → signature_at (end_record es cm) 0 = Ret true.
Proof.
  intros Hc. unfold signature_at. change (index _ 0) with (Ret 0x50). change (index _ (0 + 1)) with (Ret 0x4b).
  change (index _ (0 + 2)) with (Ret 5). change (index _ (0 + 3)) with (Ret 6). cbn [obind].
  rewrite !decide_False by (intros Hne; by apply Hne).
  change (index _ (0 + directoryEndLen - 2)) with (Ret (zb (u8 (lenz cm)))).
  change (index _ (0 + directoryEndLen - 1)) with (Ret (zb (u8 (lenz cm / 256)))). cbn [obind].
  rewrite !zb_u8_mod, length_end_record. f_equal. apply bool_decide_true.
  rewrite lor_two_bytes by lia. unfold directoryEndLen. lia.
Qed.
Lemma search_block_end body es cm :
  (length cm ≤ 1002)%nat → (∀ k, (0 < k ≤ length cm)%nat → signature_at (end_record es cm) k = Ret false) →
  search_block (body ++ end_record es cm) 1024 = Ret (inl (Some (end_record es cm, lenz body))).
Proof.
  intros Hc Hq. set (en := end_record es cm). set (z := body ++ en). unfold search_block.
  assert (length en = 22 + length cm)%nat as Hen by apply length_end_record.
  assert (length z = length body + length en)%nat as Hz by apply length_app.
  set (bLen := if decide (1024 > lenz z) then lenz z else 1024).
  assert (lenz en ≤ bLen ≤ lenz z) as Hb by (subst bLen; case_decide; lia).
  set (skip := Z.to_nat (lenz z - bLen)). assert (skip ≤ length body)%nat as Hs by lia.
  assert (from (lenz z - bLen) z = drop skip body ++ en) as Hfrom.
  { unfold from. case_decide; [lia|]. fold skip. subst z. by rewrite drop_app_le. }
  unfold ReadAt. rewrite decide_False, Hfrom by lia. rewrite take_ge by (rewrite length_app, length_drop; lia).
  replace (Z.to_nat bLen - length (drop skip body ++ en))%nat with 0%nat by (rewrite length_app, length_drop; lia).
  rewrite decide_False by (rewrite length_app, length_drop; lia). cbn [zeros replicate]. rewrite app_nil_r.
  set (pre := drop skip body).
  assert (findSignatureInBlock (pre ++ en) = Ret (Some (length pre))) as ->.
  { unfold findSignatureInBlock. unfold directoryEndLen. rewrite length_app, decide_False by lia.
    replace (length pre + length en - 22)%nat with (length pre + length cm)%nat by lia. apply find_down_last.
    - rewrite <- (Nat.add_0_r (length pre)). rewrite signature_at_app. by apply end_record_signature.
    - intros k Hk. rewrite signature_at_app. by apply Hq. }
  cbn [obind]. rewrite slice_from_long by (rewrite length_app; lia). rewrite drop_app_length. cbn [obind].
  do 4 f_equal. subst pre. rewrite length_drop. lia.
Qed.

Lemma OpenReader_archive es cm :
  archive_fits es cm → OpenReader (archive es cm) = Ret (inl (centrals 0 es ++ end_record es cm)).
Proof.
  intros (_ & Hn & Hd & Hd' & Hl & Hc & Hq). unfold OpenReader, readDirectoryEnd, search_end, archive.
  rewrite app_assoc, search_block_end by done. cbn [obind]. set (z := (locals es ++ centrals 0 es) ++ end_record es cm).
  assert (lenz (locals es) < lenz z) as Hin by (subst z; rewrite !length_app, length_end_record; lia).
  unfold uint32max in Hl. simpl in Hl, Hn, Hd, Hd'. unfold end_record at 1.
  rewrite slice_from_long by (lens; lia). rewrite drop_app_length' by (by lens). cbn [obind].
  do 7 rd. rewrite decide_False by lia. rewrite slice_long by lia.
  rewrite Nat.sub_0_r, drop_0, Nat2Z.id, take_ge by done. cbn [obind]. rewrite decide_False by lia. cbn [obind directoryOffset].
  rewrite int64_in by (unfold in_s; simpl; lia). rewrite decide_False by lia. cbn [obind directoryOffset].
  rewrite int64_in by (unfold in_s; simpl; lia). subst z. by rewrite <- app_assoc, from_app.
Qed.

(** Behind the last entry the reader finds the end record. *)
Lemma readDirectoryHeader_end es cm : ∃ e, readDirectoryHeader (end_record es cm) = Ret (inr e).
Proof.
  unfold readDirectoryHeader. destruct (read_full directoryHeaderLen (end_record es cm)) as [[b r]|e] eqn:E; [|by eexists].
  apply read_full_inl in E as [Hl He]. unfold directoryHeaderLen in Hl.
  assert (uint 4 b = Ret (directoryEndSignature, drop 4 b)) as ->; [|by eexists].
  rewrite uint_long by lia. do 2 f_equal.
  assert (take 4 b = take 4 (b ++ r)) as -> by (by rewrite take_app_le by lia).
  by rewrite <- He.
Qed.

(** [C37] The collector lists exactly the entries of an archive, in order: each under its name,
    with its method, sizes and checksum, and what it opens for an entry are the bytes of
    that entry. *)
Theorem archive_listed es cm :
  archive_fits es cm →
  ∃ r fs e, OpenReader (archive es cm) = Ret (inl r) ∧ WalkFiles (archive es cm) r = Ret (fs, e) ∧
    Forall2 (listed (archive es cm)) es fs.
Proof.
  intros Hf. pose proof Hf as (Hall & _). destruct (readDirectoryHeader_end es cm) as [e He].
  destruct (walk_centrals (archive es cm) [] es (centrals 0 es ++ end_record es cm) (end_record es cm) e
    (S (length (centrals 0 es ++ end_record es cm)))) as (fs & Hw & Hfs); [done..| |].
  { change (lenz []) with 0. rewrite length_app. lia. }
  exists (centrals 0 es ++ end_record es cm), fs, e. split_and!; [by apply OpenReader_archive|exact Hw|done].
Qed.
(** ** What is read is what was stored *)

Lemma read_all_checked crc32 f answers r data :
  rerr r = None → read_all crc32 f answers r = Some (data, None) →
  uint64 (lenz (hashed r ++ data)) = UncompressedSize64 f ∧
  (hasDataDescriptor f = true ∨ CRC32 f ≠ 0 → crc32 (hashed r ++ data) = CRC32 f).
Proof.
  revert r data. induction answers as [|[b err] answers IH]; intros r data Hr; cbn [read_all]; [done|].
  unfold checksumReader_Read. rewrite Hr. destruct err as [e|].
  - destruct e as [[[]|]| | | |]; try done. case_decide as Hlen; [done|]. cbn [hashed] in *.
    destruct (hasDataDescriptor f) eqn:Hd.
    + destruct (descErr f) as [[[[]|]| | | |]|]; try done.
      case_decide as Hcrc; [done|]. intros [= <-]. done.
    + case_decide as Hcrc; [done|]. intros [= <-]. split; [done|]. intros [?|Hne]; [done|].
      destruct (decide (crc32 (hashed r ++ b) = CRC32 f)); [done|]. by destruct Hcrc.
  - destruct (read_all crc32 f answers _) as [[bs [e|]]|] eqn:E; simpl; try done. intros [= <-].
    apply IH in E; [|done]. cbn [hashed] in E. by rewrite <- app_assoc in E.
Qed.

(** Whatever the decompressor answers, contents that are read to the end without an error
    have the size the directory says, modulo 2^64, and its checksum; the checksum 0 of an
    entry without data descriptor is not compared. *)
Theorem contents_checked crc32 f answers data :
  read_all crc32 f answers (mkReader [] None) = Some (data, None) →
  uint64 (lenz data) = UncompressedSize64 f ∧
  (hasDataDescriptor f = true ∨ CRC32 f ≠ 0 → crc32 data = CRC32 f).
Proof. intros Hr. by apply (read_all_checked crc32 f answers (mkReader [] None)). Qed.

(** ** Witnesses *)

Definition w_entries : list entry :=
  [mkEntry (bytes_of "lib/a-1.2.jar") [] [] [] (bytes_of "data of a") 20 20 8 8 1 1 77 9 0;
   mkEntry (bytes_of "META-INF/MANIFEST.MF") (bytes_of "xxxx") (bytes_of "c") [] (bytes_of "Version: 1") 20 20 0 0 1 1 78 10 0].
Definition w_comment : bytes := bytes_of "hi".

Lemma archive_listed_witness :
  ∃ r fs e, OpenReader (archive w_entries w_comment) = Ret (inl r) ∧
    WalkFiles (archive w_entries w_comment) r = Ret (fs, e) ∧
    Forall2 (listed (archive w_entries w_comment)) w_entries fs.
Proof.
  apply (archive_listed w_entries w_comment). unfold archive_fits.
  split_and!; [|by vm_compute..|by vm_compute; lia|].
  - vm_compute. repeat (split; [done|] || (intros; discriminate) || done || split).
  - intros k Hk. destruct k as [|[|[|k]]]; [simpl in Hk; lia|reflexivity|reflexivity|simpl in Hk; lia].
Defined.

Lemma contents_checked_witness : uint64 (lenz (bytes_of "data of a")) = 9.
Proof.
  refine (proj1 (contents_checked (λ b, lenz b) (set_desc 9 None (file_of 0 (default (mkEntry [] [] [] [] [] 0 0 0 0 0 0 0 0 0) (head w_entries))))
    [(bytes_of "data ", None); (bytes_of "of a", Some (IO (IOErr EOF)))] (bytes_of "data of a") _)).
  vm_compute. reflexivity.
Defined.

End Zip.
