(* ===== verification/Rpm.v ===== *)
(** * The package database reader of the collector plugin

    Models [plugins/collector/rpm/rpm.go], with which the collector lists the packages of a
    host: the database file [/var/lib/rpm/Packages] is a Berkeley DB hash table, whose pages
    refer to chains of overflow pages with the header of a package each.  The file is the
    list of its bytes.  Reading it may end in a result, an error, a panic, or not end. *)

From Stdlib Require Import Ascii.
From S2P Require Import Prelude GoStrings GoPath Wire BinRead.
From stdpp Require Import options.

Local Open Scope Z_scope.

Module Rpm.

(** ** Outcomes *)

Inductive rpm_error := IO (e : error) | ErrMagic | ErrPageType.

Inductive run (A : Type) :=
| Done (a : A)
| Fails (e : rpm_error)
| Panics (why : string)
| Running.
Arguments Done {A} a.
Arguments Fails {A} e.
Arguments Panics {A} why.
Arguments Running {A}.

Definition run_bind {A B} (c : run A) (k : A → run B) : run B :=
  match c with Done a => k a | Fails e => Fails e | Panics w => Panics w | Running => Running end.

Notation "'let*' x ':=' c 'in' k" := (run_bind c (λ x, k))
  (at level 10, x pattern, c at level 200, k at level 200) : go_scope.

Definition checked {A} (o : outcome A) : run A := match o with Ret a => Done a | Panic w => Panics w end.

(** [binary.Read] of [n] bytes. *)
Definition read_struct (n : nat) (r : bytes) : run (bytes * bytes) :=
  match ReadFull n r with inl x => Done x | inr e => Fails (IO e) end.

(** The field of [n] bytes at [i] of a structure. *)
Definition fld (b : bytes) (i n : nat) : Z := le (take n (drop i b)).
Definition fld_be (b : bytes) (i n : nat) : Z := be (take n (drop i b)).

(** ** Data *)

Definition HashMagicNumber : Z := 0x061561.
Definition HashOffIndexPageType : Z := 3.
Definition OverflowPageType : Z := 7.
Definition HashMetadataPageType : Z := 8.
Definition HashPageType : Z := 13.
Definition IndexSize : nat := 2.
Definition HashOffPageSize : nat := 12.
Definition HashPageHeaderSize : nat := 26.
Definition RPM_INDEX_ENTRY_SIZE : nat := 16.

Definition RPMTAG_NAME : Z := 1000.
Definition RPMTAG_VERSION : Z := 1001.
Definition RPMTAG_RELEASE : Z := 1002.
Definition RPMTAG_EPOCH : Z := 1003.
Definition RPMTAG_ARCH : Z := 1022.
Definition RPMTAG_SOURCERPM : Z := 1044.
Definition RPMTAG_SIZE : Z := 1009.
Definition RPMTAG_LICENSE : Z := 1014.
Definition RPMTAG_VENDOR : Z := 1011.
Definition RPMTAG_DIRINDEXES : Z := 1116.
Definition RPMTAG_BASENAMES : Z := 1117.
Definition RPMTAG_DIRNAMES : Z := 1118.
Definition RPMTAG_FILEDIGESTS : Z := 1035.
Definition RPMTAG_FILEDIGESTALGO : Z := 5011.
Definition RPM_INT32_TYPE : Z := 4.
Definition RPM_STRING_TYPE : Z := 6.
Definition RPM_STRING_ARRAY_TYPE : Z := 8.

(** [DigestAlgorithm.String]. *)
Definition DigestAlgorithm_String (d : Z) : string :=
  if decide (d = 1) then "md5" else if decide (d = 2) then "sha1" else if decide (d = 3) then "ripemd160"
  else if decide (d = 5) then "md2" else if decide (d = 6) then "tiger192" else if decide (d = 7) then "haval-5-160"
  else if decide (d = 8) then "sha256" else if decide (d = 9) then "sha384" else if decide (d = 10) then "sha512"
  else if decide (d = 11) then "sha224" else "unknown-digest-algorithm".

(** The fields of the structures that are used, at their offsets on disk. *)
Record HashMetadataPage := mkMeta { Magic : Z; PageSize : Z; mPageType : Z; LastPageNo : Z }.
Definition meta_size : nat := 95.
Definition meta_of (b : bytes) : HashMetadataPage := mkMeta (fld b 12 4) (fld b 20 4) (fld b 25 1) (fld b 32 4).

Record HashPageHeader := mkHeader { NextPageNo : Z; NumEntries : Z; FreeAreaOffset : Z; PageType : Z }.
Definition header_of (b : bytes) : HashPageHeader := mkHeader (fld b 16 4) (fld b 20 2) (fld b 22 2) (fld b 25 1).

Record HashOffPageEntry := mkOff { PageNo : Z; Length : Z }.
Definition off_of (b : bytes) : HashOffPageEntry := mkOff (fld b 4 4) (fld b 8 4).

Record RPMEntryInfo := mkInfo { Tag : Z; Type_ : Z; Offset : Z; Count : Z }.
Definition info_of (b : bytes) : RPMEntryInfo :=
  mkInfo (int32 (fld_be b 0 4)) (fld_be b 4 4) (int32 (fld_be b 8 4)) (fld_be b 12 4).

Record FileInfo := mkFileInfo { Path : string; Digest : string }.
Record Package := mkPackage {
  Epoch : Z; Name : string; Version : string; Release : string; Arch : string; SourceRpm : string; Size : Z;
  License : string; Vendor : string; DigestAlgorithm : Z; Files : list FileInfo }.

(** ** Opening *)

Definition OpenDatabase (f : bytes) : run HashMetadataPage :=
  let* (b, _) := read_struct meta_size f in
  let m := meta_of b in
  if decide (Magic m ≠ HashMagicNumber) then Fails ErrMagic
  else if decide (mPageType m ≠ HashMetadataPageType) then Fails ErrPageType
  else Done m.

(** ** Decoding the header of a package *)

Definition nul : string := String Ascii.zero EmptyString.

Fixpoint drop_nuls (b : bytes) : bytes :=
  match b with [] => [] | c :: b' => if decide (c = Ascii.zero) then drop_nuls b' else b end.
(** [string(bytes.TrimRight(b, "\x00"))]. *)
Definition trim_nuls (b : bytes) : string := string_of (reverse (drop_nuls (reverse b))).

Definition decodeStringArray (dt : bytes) : list string :=
  let elements := str_split nul (string_of dt) in
  match last elements with
  | Some e => if decide (e = "") then take (length elements - 1) elements else elements
  | None => elements
  end.

Fixpoint decode_ints (fuel : nat) (dt : bytes) : list Z :=
  match fuel with
  | O => []
  | S fuel =>
      match ReadFull 4 dt with
      | inl (b, dt) => int32 (be b) :: decode_ints fuel dt
      | inr _ => []
      end
  end.
Definition decodeInt32Array (dt : bytes) : list Z := decode_ints (length dt) dt.

(** [dirNames[i]] for an [int32]. *)
Definition dir_at (dirNames : list string) (i : Z) : outcome string :=
  if decide (i < 0) then Panic "index out of range"
  else if decide (Z.of_nat (length dirNames) ≤ i) then Panic "index out of range"
  else match dirNames !! Z.to_nat i with Some d => Ret d | None => Panic "index out of range" end.

Fixpoint join_loop (dirNames digests : list string) (i : nat) (l : list (string * Z)) : outcome (list FileInfo) :=
  match l with
  | [] => Ret []
  | (bn, di) :: l =>
      let! d := dir_at dirNames di in
      let! fs := join_loop dirNames digests (S i) l in
      Ret (mkFileInfo (path_Join d bn) (default "" (digests !! i)) :: fs)
  end.

Definition joinFiles (dirNames baseNames digests : list string) (dirIndexes : list Z) : outcome (list FileInfo) :=
  if decide (dirNames = [] ∨ baseNames = [] ∨ dirIndexes = [] ∨ length dirIndexes ≠ length baseNames ∨
             (length baseNames < length dirNames)%nat) then Ret []
  else join_loop dirNames digests 0 (zip baseNames dirIndexes).

(** What the loop over the entries has collected. *)
Record collected := mkCollected {
  pkg : Package; dirNames : list string; baseNames : list string; digests : list string; dirIndexes : list Z }.

Definition on_pkg (g : Package → Package) (c : collected) : collected :=
  mkCollected (g (pkg c)) (dirNames c) (baseNames c) (digests c) (dirIndexes c).

Definition set_epoch z p := mkPackage z (Name p) (Version p) (Release p) (Arch p) (SourceRpm p) (Size p) (License p)
  (Vendor p) (DigestAlgorithm p) (Files p).
Definition set_name s p := mkPackage (Epoch p) s (Version p) (Release p) (Arch p) (SourceRpm p) (Size p) (License p)
  (Vendor p) (DigestAlgorithm p) (Files p).
Definition set_version s p := mkPackage (Epoch p) (Name p) s (Release p) (Arch p) (SourceRpm p) (Size p) (License p)
  (Vendor p) (DigestAlgorithm p) (Files p).
Definition set_release s p := mkPackage (Epoch p) (Name p) (Version p) s (Arch p) (SourceRpm p) (Size p) (License p)
  (Vendor p) (DigestAlgorithm p) (Files p).
Definition set_arch s p := mkPackage (Epoch p) (Name p) (Version p) (Release p) s (SourceRpm p) (Size p) (License p)
  (Vendor p) (DigestAlgorithm p) (Files p).
Definition set_source s p := mkPackage (Epoch p) (Name p) (Version p) (Release p) (Arch p) s (Size p) (License p)
  (Vendor p) (DigestAlgorithm p) (Files p).
Definition set_size z p := mkPackage (Epoch p) (Name p) (Version p) (Release p) (Arch p) (SourceRpm p) z (License p)
  (Vendor p) (DigestAlgorithm p) (Files p).
Definition set_license s p := mkPackage (Epoch p) (Name p) (Version p) (Release p) (Arch p) (SourceRpm p) (Size p) s
  (Vendor p) (DigestAlgorithm p) (Files p).
Definition set_vendor s p := mkPackage (Epoch p) (Name p) (Version p) (Release p) (Arch p) (SourceRpm p) (Size p)
  (License p) s (DigestAlgorithm p) (Files p).
Definition set_algo z p := mkPackage (Epoch p) (Name p) (Version p) (Release p) (Arch p) (SourceRpm p) (Size p)
  (License p) (Vendor p) z (Files p).
Definition set_files l p := mkPackage (Epoch p) (Name p) (Version p) (Release p) (Arch p) (SourceRpm p) (Size p)
  (License p) (Vendor p) (DigestAlgorithm p) l.

(** A string, an optional string ("(none)" stands for none) and a number. *)
Definition str_of (edt : bytes) : string := trim_nuls edt.
Definition opt_of (edt : bytes) : string := let s := trim_nuls edt in if decide (s = "(none)") then "" else s.
Definition int_of (edt : bytes) : option Z :=
  match ReadFull 4 edt with inl (b, _) => Some (int32 (be b)) | inr _ => None end.

(** One entry; [None] is [break out]. *)
Definition entry_step (ei : RPMEntryInfo) (edt : bytes) (c : collected) : option collected :=
  let str (g : string → Package → Package) :=
    if decide (Type_ ei ≠ RPM_STRING_TYPE) then None else Some (on_pkg (g (str_of edt)) c) in
  let opt (g : string → Package → Package) :=
    if decide (Type_ ei ≠ RPM_STRING_TYPE) then None else Some (on_pkg (g (opt_of edt)) c) in
  let int (g : Z → Package → Package) :=
    if decide (Type_ ei ≠ RPM_INT32_TYPE) then None else (λ z, on_pkg (g z) c) <$> int_of edt in
  if decide (Tag ei = RPMTAG_DIRINDEXES) then
    if decide (Type_ ei ≠ RPM_INT32_TYPE) then None
    else Some (mkCollected (pkg c) (dirNames c) (baseNames c) (digests c) (decodeInt32Array edt))
  else if decide (Tag ei = RPMTAG_DIRNAMES) then
    if decide (Type_ ei ≠ RPM_STRING_ARRAY_TYPE) then None
    else Some (mkCollected (pkg c) (decodeStringArray edt) (baseNames c) (digests c) (dirIndexes c))
  else if decide (Tag ei = RPMTAG_BASENAMES) then
    if decide (Type_ ei ≠ RPM_STRING_ARRAY_TYPE) then None
    else Some (mkCollected (pkg c) (dirNames c) (decodeStringArray edt) (digests c) (dirIndexes c))
  else if decide (Tag ei = RPMTAG_NAME) then str set_name
  else if decide (Tag ei = RPMTAG_EPOCH) then int set_epoch
  else if decide (Tag ei = RPMTAG_VERSION) then str set_version
  else if decide (Tag ei = RPMTAG_RELEASE) then str set_release
  else if decide (Tag ei = RPMTAG_ARCH) then str set_arch
  else if decide (Tag ei = RPMTAG_SOURCERPM) then opt set_source
  else if decide (Tag ei = RPMTAG_LICENSE) then opt set_license
  else if decide (Tag ei = RPMTAG_VENDOR) then opt set_vendor
  else if decide (Tag ei = RPMTAG_SIZE) then int set_size
  else if decide (Tag ei = RPMTAG_FILEDIGESTALGO) then int set_algo
  else if decide (Tag ei = RPMTAG_FILEDIGESTS) then
    if decide (Type_ ei ≠ RPM_STRING_ARRAY_TYPE) then None
    else Some (mkCollected (pkg c) (dirNames c) (baseNames c) (decodeStringArray edt) (dirIndexes c))
  else Some c.

(** [dt[i:j]] for integers: the upper bound is the capacity of the slice. *)
Definition slice_z (dt : bytes) (i j : Z) : outcome bytes :=
  if decide (0 ≤ i ≤ j ∧ j ≤ Z.of_nat (length dt)) then Ret (take (Z.to_nat (j - i)) (drop (Z.to_nat i) dt))
  else Panic "slice bounds out of range".

Fixpoint entries_loop (dt : bytes) (dl : Z) (eis : list RPMEntryInfo) (c : collected) : outcome collected :=
  match eis with
  | [] => Ret c
  | ei :: eis =>
      let! edt := slice_z dt (Offset ei) (match eis with ei' :: _ => Offset ei' | [] => dl end) in
      match entry_step ei edt c with
      | None => Ret c
      | Some c => entries_loop dt dl eis c
      end
  end.

Definition no_package : Package := mkPackage 0 "" "" "" "" "" 0 "" "" 0 [].

(** The index entries; each takes 16 bytes. *)
Fixpoint read_entries (fuel : nat) (il : Z) (buf : bytes) : run (list RPMEntryInfo * bytes) :=
  if decide (il ≤ 0) then Done ([], buf)
  else
    match fuel with
    | O => Running
    | S fuel =>
        let* (b, buf) := read_struct RPM_INDEX_ENTRY_SIZE buf in
        let* (eis, buf) := read_entries fuel (il - 1) buf in
        Done (info_of b :: eis, buf)
    end.

(** The buffer [buf] has room for [slack] bytes, all zero, behind what was written. *)
Definition decode_package (slack : nat) (buf : bytes) : run Package :=
  let* (il, buf) := read_struct 4 buf in
  let* (dl, buf) := read_struct 4 buf in
  let* (eis, dt) := read_entries (S (length buf)) (be il) buf in
  match eis with
  | [] => Panics "slice bounds out of range"
  | _ :: eis =>
      let* c := checked (entries_loop (dt ++ zeros slack) (be dl) eis (mkCollected no_package [] [] [] [])) in
      let* files := checked (joinFiles (dirNames c) (baseNames c) (digests c) (dirIndexes c)) in
      Done (set_files files (pkg c))
  end.

(** ** Walking over the pages *)

Section walk.
(** The room [append] leaves in a buffer that has grown to the given length. *)
Context (grown : nat → nat).

Definition slack (written : nat) (Length : Z) : nat :=
  if decide (Z.of_nat written ≤ Length) then (Z.to_nat Length - written)%nat else grown written.

(** The chain of overflow pages from [spno]. *)
Fixpoint chain (fuel : nat) (f : bytes) (ps : Z) (spno : Z) (buf : bytes) : run bytes :=
  if decide (spno = 0) then Done buf
  else
    match fuel with
    | O => Running
    | S fuel =>
        let* (spd, _) := read_struct (Z.to_nat ps) (from (uint32 (spno * ps)) f) in
        let* (h, _) := read_struct HashPageHeaderSize spd in
        let shdr := header_of h in
        if decide (PageType shdr ≠ OverflowPageType) then chain fuel f ps spno buf
        else
          let* piece := checked
            (if decide (NextPageNo shdr = 0)
             then slice spd HashPageHeaderSize (Z.to_nat (wrap_u 16 (Z.of_nat HashPageHeaderSize + FreeAreaOffset shdr)))
             else slice_from spd HashPageHeaderSize) in
          chain fuel f ps (NextPageNo shdr) (buf ++ piece)
    end.

(** The indexes of a page that refer to chains; [pr] is the reader over the page. *)
Fixpoint page_indexes (n : nat) (pd pr : bytes) : run (list Z) :=
  match n with
  | O => Done []
  | S n =>
      let* (b, pr) := read_struct 2 (drop IndexSize pr) in
      let index := le b in
      match pd !! Z.to_nat index with
      | None => Panics "index out of range"
      | Some c =>
          let* l := page_indexes n pd pr in
          Done (if decide (zb c = HashOffIndexPageType) then index :: l else l)
      end
  end.

(** The packages of a page, as far as they are found. *)
Fixpoint page_packages (fuel : nat) (f : bytes) (ps : Z) (pd : bytes) (indexes : list Z) : list Package * run unit :=
  match indexes with
  | [] => ([], Done tt)
  | index :: indexes =>
      let p :=
        let* (b, _) := read_struct HashOffPageSize (drop (Z.to_nat index) pd) in
        let e := off_of b in
        let* buf := chain fuel f ps (PageNo e) [] in
        decode_package (slack (length buf) (Length e)) buf in
      match p with
      | Done p => let '(l, r) := page_packages fuel f ps pd indexes in (p :: l, r)
      | Fails e => ([], Fails e)
      | Panics w => ([], Panics w)
      | Running => ([], Running)
      end
  end.

Definition page (fuel : nat) (f : bytes) (ps : Z) (pd : bytes) : list Package * run unit :=
  match read_struct HashPageHeaderSize pd with
  | Done (h, pr) =>
      let hdr := header_of h in
      if decide (PageType hdr ≠ HashPageType) then ([], Done tt)
      else if decide (NumEntries hdr `mod` 2 ≠ 0) then ([], Done tt)
      else
        match page_indexes (Z.to_nat (NumEntries hdr / 2)) pd pr with
        | Done indexes => page_packages fuel f ps pd indexes
        | Fails e => ([], Fails e)
        | Panics w => ([], Panics w)
        | Running => ([], Running)
        end
  | Fails e => ([], Fails e)
  | Panics w => ([], Panics w)
  | Running => ([], Running)
  end.

(** The loop over the pages from offset [pos]; a page that is read without an error has 26
    bytes or more. *)
Fixpoint walk_pages (pages fuel : nat) (f : bytes) (ps n pos : Z) : list Package * run unit :=
  if decide (n ≤ 0) then ([], Done tt)
  else
    match pages with
    | O => ([], Running)
    | S pages =>
        match read_struct (Z.to_nat ps) (from pos f) with
        | Done (pd, _) =>
            match page fuel f ps pd with
            | (l, Done _) => let '(l', r) := walk_pages pages fuel f ps (n - 1) (pos + ps) in (l ++ l', r)
            | (l, r) => (l, r)
            end
        | Fails e => ([], Fails e)
        | Panics w => ([], Panics w)
        | Running => ([], Running)
        end
    end.

(** [WalkPackages]: the packages passed to the function, and how the walk ends. *)
Definition WalkPackages (fuel : nat) (f : bytes) (m : HashMetadataPage) : list Package * run unit :=
  walk_pages (S (length f)) fuel f (PageSize m) (LastPageNo m) (PageSize m).

End walk.

(** ** The header of a package, as it is stored

    An index entry for the region, which the reader skips, and one for each item, then the
    data of the items one after the other. *)

Abbreviation lenz l := (Z.of_nat (length l)).

Record item := mkItem { iTag : Z; iType : Z; iCount : Z; iData : bytes }.

Definition index_entry (off : Z) (it : item) : bytes :=
  be_bytes 4 (iTag it) ++ be_bytes 4 (iType it) ++ be_bytes 4 off ++ be_bytes 4 (iCount it).

Fixpoint index_bytes (off : Z) (items : list item) : bytes :=
  match items with
  | [] => []
  | it :: items => index_entry off it ++ index_bytes (off + lenz (iData it)) items
  end.

Definition data_of (items : list item) : bytes := concat (iData <$> items).

Definition header_bytes (region : bytes) (items : list item) : bytes :=
  be_bytes 4 (1 + lenz items) ++ be_bytes 4 (lenz (data_of items)) ++ region ++ index_bytes 0 items ++ data_of items.

Definition item_fits (it : item) : Prop := 0 ≤ iTag it < 2 ^ 31 ∧ in_u 32 (iType it) ∧ in_u 32 (iCount it).

Definition header_fits (region : bytes) (items : list item) : Prop :=
  length region = 16%nat ∧ Forall item_fits items ∧ lenz items < 2 ^ 31 ∧ lenz (data_of items) < 2 ^ 31.

(** What the items say, up to the first one of an unexpected type. *)
Fixpoint fold_items (items : list item) (c : collected) : collected :=
  match items with
  | [] => c
  | it :: items =>
      match entry_step (mkInfo (iTag it) (iType it) 0 0) (iData it) c with
      | None => c
      | Some c => fold_items items c
      end
  end.

Definition package_of (items : list item) : outcome Package :=
  let c := fold_items items (mkCollected no_package [] [] [] []) in
  let! files := joinFiles (dirNames c) (baseNames c) (digests c) (dirIndexes c) in
  Ret (set_files files (pkg c)).

Definition info_at (off : Z) (it : item) : RPMEntryInfo := mkInfo (iTag it) (iType it) off (iCount it).

Fixpoint infos (off : Z) (items : list item) : list RPMEntryInfo :=
  match items with [] => [] | it :: items => info_at off it :: infos (off + lenz (iData it)) items end.

Lemma fld_be_app x n v y i :
  length x = i → 0 ≤ v < 256 ^ Z.of_nat n → fld_be (x ++ be_bytes n v ++ y) i n = v.
Proof.
  intros <- Hv. unfold fld_be. rewrite drop_app_length, take_app_length' by (by rewrite length_be_bytes).
  by apply be_be_bytes.
Qed.

Lemma int32_id z : in_s 32 z → int32 z = z.
Proof. apply wrap_s_id. lia. Qed.

Lemma info_of_entry off it : item_fits it → 0 ≤ off < 2 ^ 31 → info_of (index_entry off it) = info_at off it.
Proof.
  unfold item_fits, in_u. intros (Ht & Hy & Hc) Ho. unfold info_of, info_at. simpl in Ht, Hy, Hc, Ho.
  set (t := be_bytes 4 (iTag it)). set (y := be_bytes 4 (iType it)). set (o := be_bytes 4 off).
  assert (length t = 4 ∧ length y = 4 ∧ length o = 4)%nat as (Hlt & Hly & Hlo) by (by subst t y o; rewrite !length_be_bytes).
  assert (fld_be (index_entry off it) 0 4 = iTag it) as ->.
  { apply (fld_be_app [] 4 (iTag it) (y ++ o ++ be_bytes 4 (iCount it))); [done|simpl; lia]. }
  assert (fld_be (index_entry off it) 4 4 = iType it) as ->.
  { apply (fld_be_app t 4 (iType it) (o ++ be_bytes 4 (iCount it))); [done|simpl; lia]. }
  assert (fld_be (index_entry off it) 8 4 = off) as ->.
  { pose proof (fld_be_app (t ++ y) 4 off (be_bytes 4 (iCount it)) 8) as Hf. rewrite <- app_assoc, length_app in Hf.
    apply Hf; [lia|simpl; lia]. }
  assert (fld_be (index_entry off it) 12 4 = iCount it) as ->.
  { pose proof (fld_be_app (t ++ y ++ o) 4 (iCount it) [] 12) as Hf.
    rewrite <- !app_assoc, app_nil_r, !length_app in Hf. apply Hf; [lia|simpl; lia]. }
  by rewrite !int32_id by (unfold in_s; simpl; lia).
Qed.

Lemma length_index_entry off it : length (index_entry off it) = 16%nat.
Proof. unfold index_entry. by rewrite !length_app, !length_be_bytes. Qed.

Lemma read_struct_app b rest n : length b = n → read_struct n (b ++ rest) = Done (b, rest).
Proof.
  intros <-. unfold read_struct, ReadFull. rewrite decide_True by (rewrite length_app; lia).
  by rewrite take_app_length, drop_app_length.
Qed.

Lemma data_of_cons it items : data_of (it :: items) = iData it ++ data_of items.
Proof. done. Qed.

Lemma read_entries_index fuel off items rest :
  (length items ≤ fuel)%nat → Forall item_fits items → 0 ≤ off → off + lenz (data_of items) < 2 ^ 31 →
  read_entries fuel (lenz items) (index_bytes off items ++ rest) = Done (infos off items, rest).
Proof.
  revert fuel off. induction items as [|it items IH]; intros fuel off Hf Hfit Ho Hd.
  { by destruct fuel. }
  apply Forall_cons in Hfit as [Hit Hfit]. destruct fuel as [|fuel]; [simpl in Hf; lia|].
  rewrite data_of_cons, length_app in Hd.
  cbn [read_entries index_bytes infos]. rewrite decide_False by (simpl; lia).
  rewrite <- app_assoc, read_struct_app by apply length_index_entry. cbn [run_bind].
  replace (lenz (it :: items) - 1) with (lenz items) by (simpl length; lia).
  rewrite IH by (done || lia || (simpl in Hf; lia)). cbn [run_bind]. rewrite info_of_entry by (done || lia). done.
Qed.

Lemma slice_z_app a b c i j : i = lenz a → j = lenz a + lenz b → slice_z (a ++ b ++ c) i j = Ret b.
Proof.
  intros -> ->. unfold slice_z. rewrite decide_True by (rewrite !length_app; lia).
  rewrite Nat2Z.id, drop_app_length. replace (Z.to_nat _) with (length b) by lia. by rewrite take_app_length.
Qed.

Lemma entries_loop_items pre items suf c :
  entries_loop (pre ++ data_of items ++ suf) (lenz pre + lenz (data_of items)) (infos (lenz pre) items) c =
    Ret (fold_items items c).
Proof.
  revert pre c. induction items as [|it items IH]; intros pre c; [done|]. cbn [infos entries_loop fold_items].
  rewrite data_of_cons, <- app_assoc.
  rewrite (slice_z_app pre (iData it)); [cbn [obind]|done|].
  2:{ destruct items as [|it' items']; [by rewrite app_nil_r|done]. }
  change (entry_step (info_at (lenz pre) it) (iData it) c) with (entry_step (mkInfo (iTag it) (iType it) 0 0) (iData it) c).
  destruct (entry_step _ _ _) as [c'|]; [|done].
  specialize (IH (pre ++ iData it) c'). rewrite <- app_assoc, !length_app, !Nat2Z.inj_add in IH.
  by rewrite length_app, Nat2Z.inj_add, Z.add_assoc.
Qed.

Lemma length_index_bytes off items : (length items ≤ length (index_bytes off items))%nat.
Proof.
  revert off. induction items as [|it items IH]; intros off; [done|]. cbn [index_bytes length].
  rewrite length_app, length_index_entry. specialize (IH (off + lenz (iData it))). lia.
Qed.

Lemma decode_header region items sl :
  header_fits region items → decode_package sl (header_bytes region items) = checked (package_of items).
Proof.
  intros (Hr & Hfit & Hn & Hd). unfold decode_package, header_bytes.
  rewrite read_struct_app by apply length_be_bytes. cbn [run_bind].
  rewrite read_struct_app by apply length_be_bytes. cbn [run_bind].
  rewrite !be_be_bytes by (simpl in *; lia). cbn [read_entries]. rewrite decide_False by lia.
  rewrite read_struct_app by done. cbn [run_bind]. replace (1 + lenz items - 1) with (lenz items) by lia.
  rewrite read_entries_index; [cbn [run_bind]| |done|lia|lia].
  2:{ rewrite !length_app. pose proof (length_index_bytes 0 items). lia. }
  pose proof (entries_loop_items [] items (zeros sl) (mkCollected no_package [] [] [] [])) as Hl.
  cbn [app length] in Hl. change (Z.of_nat 0) with 0 in Hl. rewrite Z.add_0_l in Hl. rewrite Hl. cbn [checked run_bind].
  unfold package_of. by destruct (joinFiles _ _ _ _).
Qed.
(** *** The items of a package *)

Definition strz (s : string) : bytes := bytes_of s ++ [Ascii.zero].
Definition strings_data (l : list string) : bytes := concat (strz <$> l).
Definition ints_data (l : list Z) : bytes := concat (be_bytes 4 ∘ uint32 <$> l).

(** The items of a package whose files are given by the names of directories, for each file
    its name and the index of its directory, and the digests. *)
Definition items_of (p : Package) (dn bn dg : list string) (di : list Z) : list item :=
  let str tag s := mkItem tag RPM_STRING_TYPE 1 (strz s) in
  let int tag z := mkItem tag RPM_INT32_TYPE 1 (be_bytes 4 (uint32 z)) in
  let arr tag l := mkItem tag RPM_STRING_ARRAY_TYPE (lenz l) (strings_data l) in
  [str RPMTAG_NAME (Name p); str RPMTAG_VERSION (Version p); str RPMTAG_RELEASE (Release p); int RPMTAG_EPOCH (Epoch p);
   int RPMTAG_SIZE (Size p); str RPMTAG_VENDOR (Vendor p); str RPMTAG_LICENSE (License p); str RPMTAG_ARCH (Arch p);
   arr RPMTAG_FILEDIGESTS dg; str RPMTAG_SOURCERPM (SourceRpm p);
   mkItem RPMTAG_DIRINDEXES RPM_INT32_TYPE (lenz di) (ints_data di);
   arr RPMTAG_BASENAMES bn; arr RPMTAG_DIRNAMES dn; int RPMTAG_FILEDIGESTALGO (DigestAlgorithm p)].

Definition text (s : string) : Prop := lacks Ascii.zero s = true.

(** The strings are C strings, the optional ones not the word that stands for none. *)
Definition storable (p : Package) (dn bn dg : list string) (di : list Z) : Prop :=
  text (Name p) ∧ text (Version p) ∧ text (Release p) ∧ text (Arch p) ∧
  (text (Vendor p) ∧ Vendor p ≠ "(none)") ∧ (text (License p) ∧ License p ≠ "(none)") ∧
  (text (SourceRpm p) ∧ SourceRpm p ≠ "(none)") ∧
  in_s 32 (Epoch p) ∧ in_s 32 (Size p) ∧ in_s 32 (DigestAlgorithm p) ∧
  Forall text dn ∧ Forall text bn ∧ Forall text dg ∧ Forall (in_s 32) di.

Lemma bytes_lack s c : lacks Ascii.zero s = true → c ∈ bytes_of s → c ≠ Ascii.zero.
Proof.
  unfold lacks, bytes_of. induction s as [|x s IH]; simpl; [by intros _ ?%elem_of_nil|].
  intros [Hx%bool_decide_eq_true Hs]%andb_prop [->|Hc]%elem_of_cons; auto.
Qed.

Lemma trim_strz s : text s → trim_nuls (strz s) = s.
Proof.
  intros Hs. unfold trim_nuls, strz. rewrite reverse_snoc. cbn [drop_nuls]. rewrite decide_True by done.
  assert (drop_nuls (reverse (bytes_of s)) = reverse (bytes_of s)) as ->.
  { destruct (reverse (bytes_of s)) as [|c l] eqn:E; [done|]. cbn [drop_nuls].
    rewrite decide_False; [done|]. apply (bytes_lack s); [done|].
    rewrite <- elem_of_reverse, E. left. }
  by rewrite reverse_involutive, string_of_bytes_of.
Qed.

Lemma string_of_app a b : string_of (a ++ b) = string_of a +:+ string_of b.
Proof. unfold string_of. induction a as [|c a IH]; simpl; [done|]. by rewrite IH. Qed.

Lemma decode_strings l : Forall text l → decodeStringArray (strings_data l) = l.
Proof.
  intros Hl. unfold decodeStringArray.
  assert (str_split nul (string_of (strings_data l)) = l ++ [""]) as ->.
  { unfold strings_data. induction Hl as [|s l Hs Hl IH]; [done|]. rewrite fmap_cons. cbn [concat].
    unfold strz at 1. rewrite <- app_assoc, string_of_app, string_of_bytes_of. unfold nul in *.
    change (string_of ([Ascii.zero] ++ concat (strz <$> l))) with (String Ascii.zero (string_of (concat (strz <$> l)))). rewrite str_split_char by done.
    by rewrite IH. }
  rewrite last_snoc, decide_True by done. rewrite length_app. simpl.
  replace (length l + 1 - 1)%nat with (length l) by lia. by rewrite take_app_length.
Qed.

Lemma int32_uint32 z : in_s 32 z → int32 (uint32 z) = z.
Proof. intros Hz. unfold int32, uint32. rewrite wrap_s_wrap_u by lia. by apply wrap_s_id. Qed.

Lemma uint32_bytes z : 0 ≤ uint32 z < 256 ^ Z.of_nat 4.
Proof. apply (wrap_u_range 32). lia. Qed.

Lemma int_of_bytes z : in_s 32 z → int_of (be_bytes 4 (uint32 z)) = Some z.
Proof.
  intros Hz. unfold int_of. rewrite <- (app_nil_r (be_bytes 4 (uint32 z))). unfold ReadFull.
  rewrite decide_True by (rewrite length_app, length_be_bytes; lia).
  rewrite take_app_length' by (by rewrite length_be_bytes). rewrite be_be_bytes by apply uint32_bytes.
  by rewrite int32_uint32.
Qed.

Lemma decode_ints_data l : Forall (in_s 32) l → decodeInt32Array (ints_data l) = l.
Proof.
  intros Hl. unfold decodeInt32Array.
  assert (∀ fuel, (length l ≤ fuel)%nat → decode_ints fuel (ints_data l) = l) as Hi.
  { induction Hl as [|z l Hz Hl IH]; intros [|fuel] Hf; try done; [simpl in Hf; lia|].
    unfold ints_data. rewrite fmap_cons. cbn [concat compose decode_ints]. unfold ReadFull.
    rewrite decide_True by (rewrite length_app, length_be_bytes; lia).
    rewrite take_app_length', drop_app_length' by (by rewrite length_be_bytes).
    rewrite be_be_bytes by apply uint32_bytes. rewrite int32_uint32 by done. f_equal. apply IH. simpl in Hf. lia. }
  apply Hi. unfold ints_data. clear. induction l as [|z l IH]; [done|]. rewrite fmap_cons. cbn [concat length].
  rewrite length_app. cbn [compose]. rewrite length_be_bytes. lia.
Qed.

Lemma fold_step it items c c' :
  entry_step (mkInfo (iTag it) (iType it) 0 0) (iData it) c = Some c' → fold_items (it :: items) c = fold_items items c'.
Proof. cbn [fold_items]. by intros ->. Qed.

Lemma step_str tag g s c :
  (∀ d, entry_step (mkInfo tag RPM_STRING_TYPE 0 0) d c = Some (on_pkg (g (str_of d)) c)) → text s →
  entry_step (mkInfo tag RPM_STRING_TYPE 0 0) (strz s) c = Some (on_pkg (g s) c).
Proof. intros -> Hs. unfold str_of. by rewrite trim_strz. Qed.

Lemma step_opt tag g s c :
  (∀ d, entry_step (mkInfo tag RPM_STRING_TYPE 0 0) d c = Some (on_pkg (g (opt_of d)) c)) → text s → s ≠ "(none)" →
  entry_step (mkInfo tag RPM_STRING_TYPE 0 0) (strz s) c = Some (on_pkg (g s) c).
Proof. intros -> Hs Hne. unfold opt_of. rewrite trim_strz by done. by rewrite decide_False. Qed.

Lemma step_int tag g z c :
  (∀ d, entry_step (mkInfo tag RPM_INT32_TYPE 0 0) d c = (λ z, on_pkg (g z) c) <$> int_of d) → in_s 32 z →
  entry_step (mkInfo tag RPM_INT32_TYPE 0 0) (be_bytes 4 (uint32 z)) c = Some (on_pkg (g z) c).
Proof. intros -> Hz. by rewrite int_of_bytes. Qed.

Lemma step_strings tag (g : list string → collected → collected) l c :
  (∀ d, entry_step (mkInfo tag RPM_STRING_ARRAY_TYPE 0 0) d c = Some (g (decodeStringArray d) c)) → Forall text l →
  entry_step (mkInfo tag RPM_STRING_ARRAY_TYPE 0 0) (strings_data l) c = Some (g l c).
Proof. intros -> Hl. by rewrite decode_strings. Qed.

Lemma step_ints tag (g : list Z → collected → collected) l c :
  (∀ d, entry_step (mkInfo tag RPM_INT32_TYPE 0 0) d c = Some (g (decodeInt32Array d) c)) → Forall (in_s 32) l →
  entry_step (mkInfo tag RPM_INT32_TYPE 0 0) (ints_data l) c = Some (g l c).
Proof. intros -> Hl. by rewrite decode_ints_data. Qed.

Ltac step_with lem := erewrite fold_step; [|apply lem; [reflexivity|done..]].

(** What the reader makes of the items of a package. *)
Lemma package_of_items p dn bn dg di :
  storable p dn bn dg di →
  package_of (items_of p dn bn dg di) = (let! files := joinFiles dn bn dg di in Ret (set_files files p)).
Proof.
  intros (Hn & Hv & Hr & Ha & [Hve Hve'] & [Hli Hli'] & [Hso Hso'] & He & Hsi & Hal & Hdn & Hbn & Hdg & Hdi).
  unfold package_of.
  assert (fold_items (items_of p dn bn dg di) (mkCollected no_package [] [] [] []) =
    mkCollected (set_files [] p) dn bn dg di) as ->; [|done].
  unfold items_of. cbv zeta.
  step_with (step_str RPMTAG_NAME set_name). step_with (step_str RPMTAG_VERSION set_version).
  step_with (step_str RPMTAG_RELEASE set_release). step_with (step_int RPMTAG_EPOCH set_epoch).
  step_with (step_int RPMTAG_SIZE set_size). step_with (step_opt RPMTAG_VENDOR set_vendor).
  step_with (step_opt RPMTAG_LICENSE set_license). step_with (step_str RPMTAG_ARCH set_arch).
  step_with (step_strings RPMTAG_FILEDIGESTS (λ l c, mkCollected (pkg c) (dirNames c) (baseNames c) l (dirIndexes c))). step_with (step_opt RPMTAG_SOURCERPM set_source).
  step_with (step_ints RPMTAG_DIRINDEXES (λ l c, mkCollected (pkg c) (dirNames c) (baseNames c) (digests c) l)).
  step_with (step_strings RPMTAG_BASENAMES (λ l c, mkCollected (pkg c) (dirNames c) l (digests c) (dirIndexes c))).
  step_with (step_strings RPMTAG_DIRNAMES (λ l c, mkCollected (pkg c) l (baseNames c) (digests c) (dirIndexes c))). step_with (step_int RPMTAG_FILEDIGESTALGO set_algo).
  by destruct p.
Qed.
(** *** The database *)

Definition page_at (f : bytes) (ps n : Z) (pd : bytes) : Prop := lenz pd = ps ∧ ∃ rest, from (n * ps) f = pd ++ rest.

(** The [k] overflow pages from page [n] hold [blob]. *)
Inductive chain_at (f : bytes) (ps : Z) : nat → Z → bytes → Prop :=
| chain_last n pd :
    0 < n → n * ps < 2 ^ 32 → page_at f ps n pd → PageType (header_of pd) = OverflowPageType →
    NextPageNo (header_of pd) = 0 → 26 + FreeAreaOffset (header_of pd) ≤ ps → 26 + FreeAreaOffset (header_of pd) < 2 ^ 16 →
    chain_at f ps 1 n (take (Z.to_nat (FreeAreaOffset (header_of pd))) (drop 26 pd))
| chain_more k n pd rest :
    0 < n → n * ps < 2 ^ 32 → page_at f ps n pd → PageType (header_of pd) = OverflowPageType →
    NextPageNo (header_of pd) ≠ 0 → chain_at f ps k (NextPageNo (header_of pd)) rest →
    chain_at f ps (S k) n (drop 26 pd ++ rest).

Definition encodes (p : Package) (blob : bytes) : Prop :=
  ∃ region items, header_fits region items ∧ blob = header_bytes region items ∧ package_of items = Ret p.

(** The places the index of a hash page refers to, for the data of each pair of entries, and
    those of them that are off the page. *)
Definition places (pd : bytes) (m : nat) : list Z := (λ j, fld pd (28 + 4 * j) 2) <$> seq 0 m.
Definition off_page (pd : bytes) (i : Z) : Prop := zb <$> pd !! Z.to_nat i = Some HashOffIndexPageType.
#[local] Instance off_page_dec pd i : Decision (off_page pd i) := decide (_ = _).

(** At place [i] of a page of size [ps] there is a reference to a chain of at most [k] pages
    with the header of [p]. *)
Definition stored (k : nat) (f : bytes) (ps : Z) (pd : bytes) (i : Z) (p : Package) : Prop :=
  i + 12 ≤ ps ∧ ∃ j blob, (j ≤ k)%nat ∧ chain_at f ps j (PageNo (off_of (drop (Z.to_nat i) pd))) blob ∧ encodes p blob.

Definition page_holds (k : nat) (f : bytes) (ps : Z) (pd : bytes) (pks : list Package) : Prop :=
  let h := header_of pd in
  if decide (PageType h = HashPageType ∧ NumEntries h `mod` 2 = 0) then
    let m := Z.to_nat (NumEntries h / 2) in
    26 + 4 * Z.of_nat m ≤ ps ∧ Forall (λ i, i < ps) (places pd m) ∧
    Forall2 (stored k f ps pd) (filter (off_page pd) (places pd m)) pks
  else pks = [].

(** The database with the pages' packages, chains of at most [k] pages. *)
Definition database (k : nat) (f : bytes) (m : HashMetadataPage) (pages : list (list Package)) : Prop :=
  26 ≤ PageSize m ∧ LastPageNo m = lenz pages ∧
  ∀ i pks, pages !! i = Some pks → ∃ pd, page_at f (PageSize m) (Z.of_nat (S i)) pd ∧ page_holds k f (PageSize m) pd pks.

Lemma take_fld b i n j : (i + n ≤ j)%nat → fld (take j b) i n = fld b i n.
Proof.
  intros Hj. unfold fld. rewrite skipn_firstn_comm, take_take. by replace (n `min` (j - i))%nat with n by lia.
Qed.

Lemma header_of_take b : header_of (take 26 b) = header_of b.
Proof. unfold header_of. by rewrite !take_fld by lia. Qed.

Lemma off_of_take b : off_of (take 12 b) = off_of b.
Proof. unfold off_of. by rewrite !take_fld by lia. Qed.

Lemma read_struct_long n r : (n ≤ length r)%nat → read_struct n r = Done (take n r, drop n r).
Proof. intros. unfold read_struct, ReadFull. by rewrite decide_True. Qed.

Lemma read_page f ps n pd : page_at f ps n pd →
  ∃ rest, read_struct (Z.to_nat ps) (from (n * ps) f) = Done (pd, rest).
Proof.
  intros (Hl & rest & ->). exists rest. apply read_struct_app. lia.
Qed.

Lemma read_page_header ps pd : 26 ≤ ps → lenz pd = ps →
  read_struct HashPageHeaderSize pd = Done (take 26 pd, drop 26 pd).
Proof. intros. apply read_struct_long. unfold HashPageHeaderSize. lia. Qed.

Lemma fld_bound b i n : 0 ≤ fld b i n < 256 ^ Z.of_nat n.
Proof.
  unfold fld. pose proof (le_bound (take n (drop i b))) as H. split; [lia|]. eapply Z.lt_le_trans; [apply H|].
  apply Z.pow_le_mono_r; [lia|]. rewrite length_take. lia.
Qed.

Lemma chain_reads f ps k n blob fuel buf :
  26 ≤ ps → chain_at f ps k n blob → (k ≤ fuel)%nat → chain fuel f ps n buf = Done (buf ++ blob).
Proof.
  intros Hps Hc. revert fuel buf. induction Hc as [n pd Hn Hlt Hp Ht Hx Hfree Hw|k n pd rest Hn Hlt Hp Ht Hx Hc IH];
    intros [|fuel] buf Hk; try lia; cbn [chain]; rewrite decide_False by lia.
  all: destruct (read_page _ _ _ _ Hp) as [r Hr]; pose proof Hp as [Hl _];
    assert (uint32 (n * ps) = n * ps) as -> by (apply wrap_u_id; unfold in_u; nia); rewrite Hr; cbn [run_bind];
    rewrite (read_page_header ps) by done; cbn [run_bind]; rewrite header_of_take, decide_False by lia.
  - rewrite decide_True by done. pose proof (fld_bound pd 22 2) as Hb. change (fld pd 22 2) with (FreeAreaOffset (header_of pd)) in Hb.
    unfold HashPageHeaderSize. rewrite wrap_u_id by (unfold in_u; lia).
    rewrite slice_long by lia. cbn [checked run_bind]. rewrite Hx.
    replace (Z.to_nat (Z.of_nat 26 + FreeAreaOffset (header_of pd)) - 26)%nat with
      (Z.to_nat (FreeAreaOffset (header_of pd))) by lia. by destruct fuel.
  - rewrite decide_False by done. rewrite slice_from_long by (unfold HashPageHeaderSize; lia). cbn [checked run_bind].
    rewrite IH by lia. by rewrite <- app_assoc.
Qed.

Lemma page_indexes_places pd m j :
  (26 + 4 * (j + m) ≤ length pd)%nat → Forall (λ i, i < lenz pd) ((λ j, fld pd (28 + 4 * j) 2) <$> seq j m) →
  page_indexes m pd (drop (26 + 4 * j) pd) =
    Done (filter (off_page pd) ((λ j, fld pd (28 + 4 * j) 2) <$> seq j m)).
Proof.
  revert j. induction m as [|m IH]; intros j Hl Hf; [done|]. cbn [seq fmap list_fmap] in *.
  apply Forall_cons in Hf as [Hi Hf]. cbn [page_indexes]. rewrite drop_drop.
  rewrite read_struct_long by (rewrite length_drop; unfold IndexSize; lia). cbn [run_bind].
  change (le (take 2 (drop (26 + 4 * j + IndexSize) pd))) with (fld pd (26 + 4 * j + IndexSize) 2).
  replace (26 + 4 * j + IndexSize)%nat with (28 + 4 * j)%nat by (unfold IndexSize; lia).
  set (i := fld pd (28 + 4 * j) 2) in *. pose proof (fld_bound pd (28 + 4 * j) 2) as Hb. fold i in Hb.
  destruct (lookup_lt_is_Some_2 pd (Z.to_nat i)) as [c Hc]; [lia|]. rewrite Hc.
  rewrite drop_drop. replace (28 + 4 * j + 2)%nat with (26 + 4 * S j)%nat by lia. rewrite IH by (done || lia). cbn [run_bind].
  rewrite filter_cons. f_equal.
  assert (off_page pd i ↔ zb c = HashOffIndexPageType) as Hoff.
  { unfold off_page. rewrite Hc. simpl. split; [by intros [=]|by intros ->]. }
  by rewrite (decide_ext _ _ _ _ Hoff).
Qed.

Section listing.
Context (grown : nat → nat).

Lemma page_packages_stored k fuel f ps pd l pks :
  26 ≤ ps → lenz pd = ps → (k ≤ fuel)%nat → Forall (λ i, 0 ≤ i) l → Forall2 (stored k f ps pd) l pks →
  page_packages grown fuel f ps pd l = (pks, Done tt).
Proof using Type.
  intros Hps Hl Hk Hpos Hs. revert Hpos. induction Hs as [|i p l pks (Hi & j & blob & Hj & Hc & He) Hs IH]; intros Hpos; [done|].
  apply Forall_cons in Hpos as [Hi0 Hpos]. cbn [page_packages].
  rewrite read_struct_long by (rewrite length_drop; unfold HashOffPageSize; lia). cbn [run_bind].
  unfold HashOffPageSize at 1. rewrite off_of_take.
  rewrite (chain_reads f ps j _ blob) by (done || lia). cbn [run_bind app].
  destruct He as (region & items & Hfit & -> & Hp). rewrite decode_header, Hp by done. cbn [checked]. by rewrite IH.
Qed.

Lemma page_holds_packages k fuel f ps pd pks :
  26 ≤ ps → lenz pd = ps → (k ≤ fuel)%nat → page_holds k f ps pd pks →
  page grown fuel f ps pd = (pks, Done tt).
Proof using Type.
  intros Hps Hl Hk Hh. unfold page. rewrite (read_page_header ps) by done. rewrite header_of_take.
  unfold page_holds in Hh. cbv zeta in Hh. case_decide as Hd.
  - destruct Hd as [Ht Hm]. destruct Hh as (Hle & Hlt & Hs). rewrite decide_False by lia.
    rewrite decide_False by lia.
    set (m := Z.to_nat (NumEntries (header_of pd) / 2)) in *.
    pose proof (page_indexes_places pd m 0 ltac:(lia) ltac:(by rewrite Hl)) as Hpi.
    change (26 + 4 * 0)%nat with 26%nat in Hpi. rewrite Hpi.
    eapply page_packages_stored; try done. apply Forall_forall.
    intros i [_ Hin]%list_elem_of_filter. apply list_elem_of_fmap in Hin as (j & -> & _). apply fld_bound.
  - subst pks. case_decide as Ht; [done|]. case_decide as Hm; [done|]. destruct Hd. split; lia.
Qed.

Lemma walk_pages_holds k pages fuel f ps n pkss :
  26 ≤ ps → (k ≤ fuel)%nat → (length pkss ≤ pages)%nat →
  (∀ i pks, pkss !! i = Some pks → ∃ pd, page_at f ps (n + Z.of_nat i) pd ∧ page_holds k f ps pd pks) →
  walk_pages grown pages fuel f ps (lenz pkss) (n * ps) = (concat pkss, Done tt).
Proof using Type.
  intros Hps Hk. revert n pages. induction pkss as [|pks pkss IH]; intros n pages Hpg Hh; [by destruct pages|].
  destruct pages as [|pages]; [simpl in Hpg; lia|]. cbn [walk_pages]. rewrite decide_False by (simpl; lia).
  destruct (Hh 0%nat pks eq_refl) as (pd & Hat & Hholds). rewrite Z.add_0_r in Hat.
  destruct (read_page _ _ _ _ Hat) as [r ->]. destruct Hat as [Hl _].
  rewrite (page_holds_packages k fuel f ps pd pks) by done.
  replace (lenz (pks :: pkss) - 1) with (lenz pkss) by (simpl length; lia).
  replace (n * ps + ps) with ((n + 1) * ps) by lia. rewrite IH; [done|simpl in Hpg; lia|].
  intros i pks' Hi. destruct (Hh (S i) pks' Hi) as (pd' & Hat' & Hh'). exists pd'. split; [|done].
  replace (n + 1 + Z.of_nat i) with (n + Z.of_nat (S i)) by lia. done.
Qed.

Lemma page_at_end f ps n pd : 0 < ps → 0 ≤ n → page_at f ps n pd → (n + 1) * ps ≤ lenz f.
Proof using Type.
  intros Hps Hn (Hl & rest & Hf). apply (f_equal length) in Hf. rewrite length_app in Hf. unfold from in Hf.
  case_decide; [simpl in Hf; lia|]. rewrite length_drop in Hf. nia.
Qed.

(** [C38] The collector lists exactly the packages of a database, page by page, and the walk ends
    without an error: every chain of overflow pages is followed to its end and the header in
    it decoded. *)
Theorem database_listed k f m pages :
  database k f m pages → ∀ fuel, (k ≤ fuel)%nat → WalkPackages grown fuel f m = (concat pages, Done tt).
Proof using Type.
  intros (Hps & Hlast & Hpages) fuel Hk. unfold WalkPackages. rewrite Hlast.
  replace (PageSize m) with (1 * PageSize m) at 2 by lia. eapply walk_pages_holds; [done|exact Hk| |].
  - destruct (decide (pages = [])) as [->|Hne]; [simpl; lia|].
    destruct (lookup_lt_is_Some_2 pages (length pages - 1)) as [pks Hl]; [destruct pages; simpl; [done|lia]|].
    destruct (Hpages _ _ Hl) as (pd & Hat & _). apply page_at_end in Hat; [|lia..]. nia.
  - intros i pks Hi. destruct (Hpages i pks Hi) as (pd & Hat & Hh). exists pd.
    by replace (1 + Z.of_nat i) with (Z.of_nat (S i)) by lia.
Qed.

End listing.
(** *** The files of a package *)

Definition file_at (dn bn dg : list string) (di : list Z) (i : nat) : option FileInfo :=
  b ← bn !! i; k ← di !! i; d ← dn !! Z.to_nat k; Some (mkFileInfo (path_Join d b) (default "" (dg !! i))).

Lemma join_loop_files dn dg n bs di :
  length bs = length di → Forall (λ k, 0 ≤ k < lenz dn) di →
  ∃ fs, join_loop dn dg n (zip bs di) = Ret fs ∧ length fs = length bs ∧
    ∀ i, (i < length bs)%nat → fs !! i = file_at dn bs (drop n dg) di i.
Proof.
  revert n di. induction bs as [|b bs IH]; intros n [|k di] Hl Hk; try done.
  { exists []. split_and!; [done..|]. simpl. lia. }
  apply Forall_cons in Hk as [Hk Hks]. injection Hl as Hl. cbn [zip zip_with join_loop]. unfold dir_at.
  rewrite !decide_False by lia. destruct (lookup_lt_is_Some_2 dn (Z.to_nat k)) as [d Hd]; [lia|]. rewrite Hd. cbn [obind].
  destruct (IH (S n) di Hl Hks) as (fs & -> & Hlen & Hfs). cbn [obind]. eexists. split; [done|]. split; [simpl; lia|].
  intros [|i] Hi; simpl.
  - unfold file_at. simpl. rewrite Hd. simpl. by rewrite lookup_drop, Nat.add_0_r.
  - rewrite Hfs by (simpl in Hi; lia). unfold file_at. simpl. rewrite !lookup_drop. by rewrite Nat.add_succ_r.
Qed.

Lemma joinFiles_files dn bn dg di :
  dn ≠ [] → bn ≠ [] → length di = length bn → (length dn ≤ length bn)%nat → Forall (λ k, 0 ≤ k < lenz dn) di →
  ∃ fs, joinFiles dn bn dg di = Ret fs ∧ length fs = length bn ∧
    ∀ i, (i < length bn)%nat → fs !! i = file_at dn bn dg di i.
Proof.
  intros Hdn Hbn Hl Hle Hk. unfold joinFiles. rewrite decide_False; [by apply (join_loop_files dn dg 0)|].
  destruct di; [by destruct bn|]. intros [?|[?|[?|[?|?]]]]; (done || lia).
Qed.

(** A package is decoded to what was stored: all its fields, and a file for each stored
    name, in its directory and with its digest. *)
Theorem package_decoded region p dn bn dg di sl :
  storable p dn bn dg di → header_fits region (items_of p dn bn dg di) →
  dn ≠ [] → bn ≠ [] → length di = length bn → (length dn ≤ length bn)%nat → Forall (λ k, 0 ≤ k < lenz dn) di →
  ∃ fs, decode_package sl (header_bytes region (items_of p dn bn dg di)) = Done (set_files fs p) ∧
    length fs = length bn ∧ ∀ i, (i < length bn)%nat → fs !! i = file_at dn bn dg di i.
Proof.
  intros Hs Hf Hdn Hbn Hl Hle Hk. destruct (joinFiles_files dn bn dg di) as (fs & Hj & Hfs); [done..|].
  exists fs. split; [|done]. rewrite decode_header by done. rewrite package_of_items by done. by rewrite Hj.
Qed.

(** ** Damaged databases *)

(** A reference to a page that is no overflow page makes the walk run for ever: the loop
    reads the same page again. *)
Theorem wrong_page_hangs f ps n pd buf :
  26 ≤ ps → 0 < n → n * ps < 2 ^ 32 → page_at f ps n pd → PageType (header_of pd) ≠ OverflowPageType →
  ∀ fuel, chain fuel f ps n buf = Running.
Proof.
  intros Hps Hn Hlt Hp Ht. destruct (read_page _ _ _ _ Hp) as [r Hr]. pose proof Hp as [Hl _].
  intros fuel. induction fuel as [|fuel IH]; cbn [chain]; rewrite decide_False by lia; [done|].
  assert (uint32 (n * ps) = n * ps) as -> by (apply wrap_u_id; unfold in_u; nia). rewrite Hr. cbn [run_bind].
  rewrite (read_page_header ps) by done. cbn [run_bind]. rewrite header_of_take, decide_True by done. exact IH.
Qed.

(** A header without index entries, and one whose entries are not in the order of their
    data, make the reader panic. *)
Lemma empty_header_panics sl rest : decode_package sl (be_bytes 4 0 ++ be_bytes 4 0 ++ rest) = Panics "slice bounds out of range".
Proof.
  unfold decode_package. rewrite read_struct_app by apply length_be_bytes. cbn [run_bind].
  rewrite read_struct_app by apply length_be_bytes. cbn [run_bind]. rewrite !be_be_bytes by lia. done.
Qed.

Lemma unordered_data_panics :
  let it tag off := be_bytes 4 tag ++ be_bytes 4 RPM_STRING_TYPE ++ be_bytes 4 off ++ be_bytes 4 1 in
  decode_package 0 (be_bytes 4 3 ++ be_bytes 4 4 ++ zeros 16 ++ it RPMTAG_NAME 2 ++ it RPMTAG_VERSION 0 ++
    bytes_of "1" ++ [Ascii.zero] ++ bytes_of "n" ++ [Ascii.zero]) = Panics "slice bounds out of range".
Proof. vm_compute. reflexivity. Qed.

(** An array of strings that is followed by padding gets empty elements, and the files of
    the package are lost. *)
Lemma padded_array_loses_files :
  decodeStringArray (strings_data ["a"] ++ [Ascii.zero]) = ["a"; ""] ∧
  joinFiles ["/bin/"] ["a"; ""] [] [0] = Ret [].
Proof. split; vm_compute; reflexivity. Qed.

(** ** Witnesses *)

Definition w_package : Package := mkPackage 1 "bash" "4.2" "46" "x86_64" "bash.src.rpm" 3667709 "GPL" "CentOS" 8 [].
Definition w_items : list item := items_of w_package ["/bin/"; "/etc/"] ["bash"; "profile"] ["d0"; "d1"] [0; 1].
Definition w_header : bytes := header_bytes (zeros 16) w_items.

Lemma w_header_fits : header_fits (zeros 16) w_items.
Proof. unfold header_fits. split_and!; [done| |by vm_compute..]. repeat constructor; by vm_compute. Qed.

Lemma w_storable : storable w_package ["/bin/"; "/etc/"] ["bash"; "profile"] ["d0"; "d1"] [0; 1].
Proof. unfold storable. split_and!; (repeat constructor; done) || by vm_compute. Qed.

Lemma package_decoded_witness :
  ∃ fs, decode_package 0 w_header = Done (set_files fs w_package) ∧
    fs !! 1%nat = Some (mkFileInfo "/etc/profile" "d1").
Proof.
  destruct (package_decoded (zeros 16) w_package ["/bin/"; "/etc/"] ["bash"; "profile"] ["d0"; "d1"] [0; 1] 0
    w_storable w_header_fits) as (fs & Hd & _ & Hf); [done|done|done|done| |].
  - repeat constructor; done.
  - exists fs. split; [exact Hd|]. rewrite (Hf 1%nat) by (simpl; lia). vm_compute. reflexivity.
Defined.

(** A database of a metadata page, a hash page and two overflow pages of 256 bytes. *)
Definition w_page (b : bytes) : bytes := b ++ zeros (256 - length b).
Definition w_page_header (next entries free ty : Z) : bytes :=
  zeros 16 ++ le_bytes 4 next ++ le_bytes 2 entries ++ le_bytes 2 free ++ le_bytes 1 0 ++ le_bytes 1 ty.
Definition w_meta : bytes :=
  w_page (zeros 12 ++ le_bytes 4 HashMagicNumber ++ zeros 4 ++ le_bytes 4 256 ++ zeros 1 ++ le_bytes 1 HashMetadataPageType ++
          zeros 6 ++ le_bytes 4 3).
Definition w_hash : bytes :=
  w_page (w_page_header 0 2 0 HashPageType ++ le_bytes 2 200 ++ le_bytes 2 40 ++ zeros 10 ++
          le_bytes 4 HashOffIndexPageType ++ le_bytes 4 2 ++ le_bytes 4 (lenz w_header)).
Definition w_over1 : bytes := w_page (w_page_header 3 0 0 OverflowPageType ++ take 230 w_header).
Definition w_over2 : bytes := w_page (w_page_header 0 0 (lenz w_header - 230) OverflowPageType ++ drop 230 w_header).
Definition w_file : bytes := w_meta ++ w_hash ++ w_over1 ++ w_over2.
Definition w_db : HashMetadataPage := mkMeta HashMagicNumber 256 HashMetadataPageType 3.
Definition w_files : list FileInfo := [mkFileInfo "/bin/bash" "d0"; mkFileInfo "/etc/profile" "d1"].

Lemma w_chain : chain_at w_file 256 2 2 w_header.
Proof.
  assert (w_header = drop 26 w_over1 ++ take (Z.to_nat (FreeAreaOffset (header_of w_over2))) (drop 26 w_over2)) as ->
    by (vm_compute; reflexivity).
  apply chain_more; [lia|lia|split; [by vm_compute|exists w_over2; vm_compute; reflexivity]|by vm_compute|by vm_compute|].
  apply chain_last; [by vm_compute|by vm_compute|split; [by vm_compute|exists []; vm_compute; reflexivity]|by vm_compute..].
Qed.

Lemma w_database : database 2 w_file w_db [[set_files w_files w_package]; []; []].
Proof.
  split; [simpl; lia|]. split; [done|]. intros [|[|[|i]]] pks; intros [= <-].
  - exists w_hash. split; [split; [by vm_compute|exists (w_over1 ++ w_over2); vm_compute; reflexivity]|].
    unfold page_holds. cbv zeta. rewrite decide_True by (split; by vm_compute). split; [by vm_compute|].
    split; [repeat constructor|].
    assert (filter (off_page w_hash) (places w_hash (Z.to_nat (NumEntries (header_of w_hash) / 2))) = [40]) as ->
      by (vm_compute; reflexivity).
    constructor; [|constructor]. split; [simpl; lia|]. exists 2%nat, w_header. split; [done|].
    split; [exact w_chain|]. exists (zeros 16), w_items. split_and!; [exact w_header_fits|done|vm_compute; reflexivity].
  - exists w_over1. split; [split; [by vm_compute|exists w_over2; vm_compute; reflexivity]|by vm_compute].
  - exists w_over2. split; [split; [by vm_compute|exists []; vm_compute; reflexivity]|by vm_compute].
Qed.

Lemma database_listed_witness :
  OpenDatabase w_file = Done w_db ∧ WalkPackages (λ _, 0%nat) 2 w_file w_db = ([set_files w_files w_package], Done tt).
Proof.
  split; [vm_compute; reflexivity|].
  exact (database_listed (λ _, 0%nat) 2 w_file w_db _ w_database 2 (le_n 2)).
Defined.

Lemma wrong_page_hangs_witness : chain 1000 w_file 256 1 [] = Running.
Proof.
  apply (wrong_page_hangs w_file 256 1 w_hash []); [lia|lia|lia| |by vm_compute].
  split; [by vm_compute|]. exists (w_over1 ++ w_over2). vm_compute. reflexivity.
Defined.

End Rpm.
