(* ===== verification/Engine.v ===== *)
(** * The engine of the collector plugin

    Models [plugins/collector/engine/engine.go]: the cache the handlers share, the calls of
    a handler, of which one at a time does the work while the others wait for it, and the
    loop that answers the tasks of the manager.  Calls are made by the timers of the
    scheduler and by tasks, so they interleave; [step] is one step of one of them. *)

From S2P Require Import Prelude GoStrings Wire Bridge.
From stdpp Require Import options.

Module Engine.

(** ** The cache *)

Abbreviation Fields := (gmap string string).
Abbreviation Records := (gmap string Fields).

(** The entries of a data type exist from the first [clear] on. *)
Record Cache := mkCache { m : gmap Z Records }.

Definition NewCache : Cache := mkCache ∅.

(** [Get]: [None] for an absent key. *)
Definition Get (dt : Z) (key : string) (c : Cache) : option Fields := m c !! dt ≫= (.!! key).

(** [Put]: assigning to an entry of a nil map panics. *)
Definition Put (dt : Z) (key : string) (v : Fields) (c : Cache) : outcome Cache :=
  match m c !! dt with
  | Some r => Ret (mkCache (<[dt := <[key := v]> r]> (m c)))
  | None => Panic "assignment to entry in nil map"
  end.

Definition clear (dt : Z) (c : Cache) : Cache := mkCache (<[dt := ∅]> (m c)).

(** [Records.Find], for an order of the map. *)
Definition Find (key value : string) (l : list (string * Fields)) : string * Fields * bool :=
  match list_find (λ kv, default "" (kv.2 !! key) = value) l with
  | Some (_, (k, v)) => (k, v, true)
  | None => ("", ∅, false)
  end.

(** ** The calls of a handler *)

(** A call of [handler.Handle]: about to select, doing the work, waiting for the token in the
    [default] branch, holding it there, or returned. *)
Inductive phase := Called | Working | Waiting | Holding | Returned.

#[export] Instance phase_eq_dec : EqDecision phase.
Proof. solve_decision. Defined.

(** The token in [h.done], the calls, and the number of times the work has been finished. *)
Record handler := mkHandler { token : bool; calls : list phase; finished : nat }.

(** [AddHandler]. *)
Definition new_handler : handler := mkHandler true [] 0.

Inductive step : handler → handler → Prop :=
| s_call h : step h (mkHandler (token h) (calls h ++ [Called]) (finished h))
| s_take h i :
    calls h !! i = Some Called → token h = true →
    step h (mkHandler false (<[i := Working]> (calls h)) (finished h))
| s_default h i :
    calls h !! i = Some Called → token h = false →
    step h (mkHandler false (<[i := Waiting]> (calls h)) (finished h))
| s_work h i :
    calls h !! i = Some Working → token h = false →
    step h (mkHandler true (<[i := Returned]> (calls h)) (S (finished h)))
| s_recv h i :
    calls h !! i = Some Waiting → token h = true →
    step h (mkHandler false (<[i := Holding]> (calls h)) (finished h))
| s_release h i :
    calls h !! i = Some Holding → token h = false →
    step h (mkHandler true (<[i := Returned]> (calls h)) (finished h)).

(** The steps that are not a new call. *)
Definition progress (h h' : handler) : Prop := step h h' ∧ length (calls h') = length (calls h).

(** ** Tasks *)

(** The interval of a handler in minutes, [None] for [BeforeDawn]; whether [Run] panics. *)
Definition valid_interval (minutes : option Z) : bool := match minutes with None => true | Some n => bool_decide (0 < n)%Z end.

(** The result record of a task. *)
Definition task_record (now : Z) (status msg tok : string) : Bridge.Record_ :=
  Bridge.mkRecord 5100 now (Some (Bridge.mkPayload {["status" := status; "msg" := msg; "token" := tok]})).

Definition answer (handlers : gset Z) (now : Z) (t : Bridge.Task) : Bridge.Record_ :=
  if decide (Bridge.taskDataType t ∈ handlers) then task_record now "succeed" "" (Bridge.Token t)
  else task_record now "failed" "the data_type hasn't been implemented" (Bridge.Token t).

(** The loop of [Run] over the received tasks: the records that are sent, and the handlers it
    calls.  [others i] is what is sent on the same pipe before the answer to task [i]: the
    records of the handler that the task calls, and those of the handlers that the timers
    call meanwhile. *)
Fixpoint Run {E} (handlers : gset Z) (clock : nat → Z) (others : nat → list Bridge.Record_) (i : nat)
    (tasks : list (Bridge.Task + E)) : list Bridge.Record_ * list Z :=
  match tasks with
  | inl t :: tasks =>
      let '(rs, cs) := Run handlers clock others (S i) tasks in
      (others i ++ answer handlers (clock i) t :: rs,
       if decide (Bridge.taskDataType t ∈ handlers) then Bridge.taskDataType t :: cs else cs)
  | inr _ :: _ | [] => ([], [])
  end.

(** ** One call at a time does the work *)

Definition count (p : phase) (l : list phase) : nat := length (filter (λ q, q = p) l).

Lemma count_insert p l i q q' :
  l !! i = Some q →
  count p (<[i := q']> l) + (if decide (q = p) then 1 else 0) = count p l + (if decide (q' = p) then 1 else 0).
Proof.
  unfold count. revert i. induction l as [|x l IH]; intros [|i]; try done; simpl.
  - intros [= ->]. rewrite !filter_cons. repeat case_decide; simpl; lia.
  - intros Hi. specialize (IH i Hi). rewrite !filter_cons. repeat case_decide; simpl; lia.
Qed.

Lemma count_snoc p l q : count p (l ++ [q]) = count p l + (if decide (q = p) then 1 else 0).
Proof. unfold count. rewrite filter_app, length_app, filter_cons. case_decide; simpl; lia. Qed.

(** The token is in the channel or with one call. *)
Definition token_inv (h : handler) : Prop :=
  (if token h then 1 else 0) + count Working (calls h) + count Holding (calls h) = 1.

Lemma token_inv_step h h' : token_inv h → step h h' → token_inv h'.
Proof.
  unfold token_inv. intros Hi Hs.
  destruct Hs as [h|h i Hc Ht|h i Hc Ht|h i Hc Ht|h i Hc Ht|h i Hc Ht]; cbn [token calls]; rewrite ?Ht in Hi;
    try (pose proof (count_insert Working (calls h) i _ Working Hc); pose proof (count_insert Holding (calls h) i _ Working Hc);
         pose proof (count_insert Working (calls h) i _ Waiting Hc); pose proof (count_insert Holding (calls h) i _ Waiting Hc);
         pose proof (count_insert Working (calls h) i _ Holding Hc); pose proof (count_insert Holding (calls h) i _ Holding Hc);
         pose proof (count_insert Working (calls h) i _ Returned Hc); pose proof (count_insert Holding (calls h) i _ Returned Hc));
    repeat case_decide; simplify_eq; rewrite ?count_snoc; repeat case_decide; simplify_eq; try lia.
Qed.

Abbreviation reach := (reachable (λ h, h = new_handler) step).

Lemma token_inv_reach h : reach h → token_inv h.
Proof. apply reachable_invariant; [by intros ? ->|]. intros. by eapply token_inv_step. Qed.

Lemma count_pos p l i : l !! i = Some p → 1 ≤ count p l.
Proof.
  intros Hi. unfold count. assert (p ∈ filter (λ q, q = p) l) as Hin
    by (apply list_elem_of_filter; split; [done|by eapply list_elem_of_lookup_2]).
  destruct (filter _ l); [by apply elem_of_nil in Hin|simpl; lia].
Qed.

(** Two different calls in a phase count twice. *)
Lemma count_two p l i j : l !! i = Some p → l !! j = Some p → i ≠ j → 2 ≤ count p l.
Proof.
  intros Hi Hj Hne. pose proof (count_insert p l i p Returned Hi) as H1.
  destruct (decide (p = Returned)) as [->|Hp].
  - pose proof (count_insert Returned l i Returned Called Hi) as H2. rewrite decide_True, decide_False in H2 by done.
    pose proof (count_pos Returned (<[i := Called]> l) j) as H3. rewrite list_lookup_insert_ne in H3 by done. specialize (H3 Hj). lia.
  - rewrite decide_True, decide_False in H1 by done.
    pose proof (count_pos p (<[i := Returned]> l) j) as H3. rewrite list_lookup_insert_ne in H3 by done. specialize (H3 Hj). lia.
Qed.

(** ** Every call returns *)

Definition rank (p : phase) : nat :=
  match p with Called => 3 | Waiting => 2 | Working | Holding => 1 | Returned => 0 end.
Definition ranks (l : list phase) : nat := sum_list_with rank l.

Lemma ranks_insert l i q q' : l !! i = Some q → ranks (<[i := q']> l) + rank q = ranks l + rank q'.
Proof.
  unfold ranks. revert i. induction l as [|x l IH]; intros [|i]; try done; simpl; [intros [= ->]; lia|].
  intros Hi. specialize (IH i Hi). lia.
Qed.

Lemma progress_ranks h h' : progress h h' → ranks (calls h') < ranks (calls h).
Proof.
  intros [Hs Hl]. destruct Hs as [h|h i Hc _|h i Hc _|h i Hc _|h i Hc _|h i Hc _]; cbn [calls] in *;
    [rewrite length_app in Hl; simpl in Hl; lia|..]; pose proof (ranks_insert _ _ _ Working Hc);
    pose proof (ranks_insert _ _ _ Waiting Hc); pose proof (ranks_insert _ _ _ Holding Hc);
    pose proof (ranks_insert _ _ _ Returned Hc); simpl rank in *; lia.
Qed.

Lemma no_deadlock h i p : token_inv h → calls h !! i = Some p → p ≠ Returned → ∃ h', progress h h'.
Proof.
  intros Hi Hc Hp. unfold token_inv in Hi.
  assert (∀ (b : bool) q n, step h (mkHandler b (<[i := q]> (calls h)) n) → ∃ h', progress h h') as Hgo.
  { intros b q n Hs. eexists. split; [exact Hs|]. cbn [calls]. by rewrite length_insert. }
  destruct (token h) eqn:Ht.
  - destruct p; try done.
    + eapply Hgo. by eapply s_take.
    + pose proof (count_pos _ _ _ Hc). lia.
    + eapply Hgo. by eapply s_recv.
    + pose proof (count_pos _ _ _ Hc). lia.
  - destruct p; try done; [eapply Hgo; by eapply s_default|eapply Hgo; by eapply s_work| |eapply Hgo; by eapply s_release].
    assert (∃ j q, calls h !! j = Some q ∧ (q = Working ∨ q = Holding)) as (j & q & Hj & Hq).
    { destruct (count Working (calls h)) as [|n] eqn:Ew.
      - destruct (filter (λ q, q = Holding) (calls h)) as [|q l] eqn:Ef; [unfold count in Hi at 1; rewrite Ef in Hi; simpl in Hi; lia|].
        assert (q ∈ filter (λ q, q = Holding) (calls h)) as [-> Hin]%list_elem_of_filter by (rewrite Ef; left).
        apply list_elem_of_lookup in Hin as [j Hj]. eauto.
      - destruct (filter (λ q, q = Working) (calls h)) as [|q l] eqn:Ef; [unfold count in Ew; by rewrite Ef in Ew|].
        assert (q ∈ filter (λ q, q = Working) (calls h)) as [-> Hin]%list_elem_of_filter by (rewrite Ef; left).
        apply list_elem_of_lookup in Hin as [j Hj]. eauto. }
    destruct Hq as [->| ->]; eexists; (split; [first [by eapply s_work|by eapply s_release]|]); cbn [calls]; by rewrite length_insert.
Qed.


(** A call that finds the token with a waiting call returns without any work having been
    finished since it was made: a task that comes then is answered with success although
    nothing was collected for it. *)
Lemma stale_answer :
  ∃ h h', reach h ∧ calls h = [Returned; Holding; Called] ∧ finished h = 1 ∧
    rtc progress h h' ∧ calls h' = [Returned; Returned; Returned] ∧ finished h' = 1.
Proof.
  assert (reach (mkHandler false [Returned; Holding; Called] 1)) as Hr.
  { eapply reach_step; [|apply (s_call (mkHandler false [Returned; Holding] 1))].
    eapply reach_step; [|apply (s_recv (mkHandler true [Returned; Waiting] 1) 1); done].
    eapply reach_step; [|apply (s_work (mkHandler false [Working; Waiting] 0) 0); done].
    eapply reach_step; [|apply (s_default (mkHandler false [Working; Called] 0) 1); done].
    eapply reach_step; [|apply (s_call (mkHandler false [Working] 0))].
    eapply reach_step; [|apply (s_take (mkHandler true [Called] 0) 0); done].
    eapply reach_step; [|apply (s_call new_handler)]. by apply reach_init. }
  eexists _, (mkHandler true [Returned; Returned; Returned] 1). split; [exact Hr|]. split_and!; try done.
  eapply rtc_l; [split; [apply (s_default _ 2); done|done]|].
  eapply rtc_l; [split; [apply (s_release _ 1); done|done]|].
  eapply rtc_l; [split; [apply (s_recv _ 2); done|done]|].
  eapply rtc_l; [split; [apply (s_release _ 2); done|done]|]. done.
Qed.


(** ** Every task is answered *)

(** The tasks that are received before the pipe ends are answered one by one, each with a
    record under its token that says whether there is a handler for its data type; the
    handler is called before the answer. *)
Lemma Run_answers {E} handlers clock others i ts (e : E) rest :
  Run handlers clock others i ((inl <$> ts) ++ inr e :: rest) =
    (concat (imap (λ j t, others (i + j) ++ [answer handlers (clock (i + j)) t]) ts),
     filter (λ dt, dt ∈ handlers) (Bridge.taskDataType <$> ts)).
Proof.
  revert i. induction ts as [|t ts IH]; intros i; [done|]. rewrite fmap_cons. cbn [app Run]. rewrite IH. cbn [fst snd].
  rewrite imap_cons, Nat.add_0_r. cbn [concat]. rewrite <- app_assoc. cbn [app]. f_equal.
  do 3 f_equal. apply imap_ext. intros j t' _. simpl. by rewrite Nat.add_succ_r.
Qed.

End Engine.
