(* ===== verification/Cached.v ===== *)
(** * Cached digests and names

    Models [plugins/collector/utils/file.go] and [utils/user.go]: digests of files and names
    of users are kept for hours.  The cache libraries are a parameter, the class [Ttl], with
    what they document: an entry is found until it expires or is evicted, and with [touch]
    (the default of ttlcache) finding it extends its life. *)

From Stdlib Require Import Ascii.
From S2P Require Import Prelude GoStrings Wire BinRead.
From stdpp Require Import options.

Local Open Scope Z_scope.

Module Cached.

(** ** Caches *)

(** An entry: its value, when it expires, and for how long it was stored. *)
Record item := mkItem { value : string; deadline : Z; ttl : Z }.

Class Ttl (touch : bool) := {
  cache : Type;
  empty_cache : cache;
  view : cache → string → option item;
  Get : Z → string → cache → option string * cache;
  Set_ : Z → string → string → Z → cache → cache;
  view_empty k : view empty_cache k = None;
  (** A hit, and the entry after it. *)
  Get_hit now k c i : view c k = Some i → now < deadline i →
    (Get now k c).1 = Some (value i) ∧
    ∀ k', view (Get now k c).2 k' = if decide (k' = k) then Some (if touch then mkItem (value i) (now + ttl i) (ttl i) else i) else view c k';
  (** A miss: nothing appears. *)
  Get_miss now k c : (∀ i, view c k = Some i → deadline i ≤ now) →
    (Get now k c).1 = None ∧ ∀ k', view (Get now k c).2 k' = None ∨ view (Get now k c).2 k' = view c k';
  (** Other entries may be evicted. *)
  Set_view now k v d c : view (Set_ now k v d c) k = Some (mkItem v (now + d) d) ∧
    ∀ k', k' ≠ k → view (Set_ now k v d c) k' = None ∨ view (Set_ now k v d c) k' = view c k'
}.

(** ** Digests of files *)

(** A file that can be opened: its size if [Stat] succeeds, and what can be read. *)
Record file := mkFile { fSize : Z + string; fContent : string; fError : option string }.

Section digests.
(** The digests in hexadecimal of MD5 and of xxHash. *)
Context (md5 xxhash : string → string).

Definition caculateMd5 (f : file) : string + string :=
  match fSize f with
  | inr err => inr err
  | inl n =>
      if decide (n > 100 * 1024 * 1024) then inr "file size is larger than limitation"
      else match fError f with Some err => inr err | None => inl (md5 (fContent f)) end
  end.

(** The size and the first 32 KB. *)
Definition caculateHash (f : file) : string + string :=
  match fSize f with
  | inr err => inr err
  | inl n =>
      let head := take (32 * 1024) (bytes_of (fContent f)) in
      match fError f with
      | Some err => if decide (length head < 32 * 1024)%nat then inr err else inl (xxhash (string_of (le_bytes 8 (wrap_u 64 n) ++ head)))
      | None => inl (xxhash (string_of (le_bytes 8 (wrap_u 64 n) ++ head)))
      end
  end.

Context `{Ttl true}.

Definition hours (n : Z) : Z := n * 3600.

(** [GetMd5] and [GetHash]: the digest of [path], or of [procPath] if it cannot be opened,
    kept for 12 to 24 hours; [jitter] is the random number of minutes. *)
Definition Get_ (calc : file → string + string) (open : string → option file) (now jitter : Z) (path procPath : string) (c : cache) :
    (string + string) * cache :=
  match Get now path c with
  | (Some v, c) => (inl v, c)
  | (None, c) =>
      let ret :=
        match open path with
        | Some f => calc f
        | None => if decide (procPath = "") then inr "open"
                  else match open procPath with Some f => calc f | None => inr "open" end
        end in
      (ret, match ret with inl v => Set_ now path v (hours 12 + jitter * 60) c | inr _ => c end)
  end.

Definition GetMd5 := Get_ caculateMd5.
Definition GetHash := Get_ caculateHash.

(** ** What a cached digest means *)

(** A call: the host at that time, the time, the jitter, and the paths. *)
Record call := mkCall { cOpen : string → option file; cNow : Z; cJitter : Z; cPath : string; cProc : string }.

Fixpoint calls (calc : file → string + string) (l : list call) (c : cache) : list (string + string) * cache :=
  match l with
  | [] => ([], c)
  | x :: l =>
      let '(r, c) := Get_ calc (cOpen x) (cNow x) (cJitter x) (cPath x) (cProc x) c in
      let '(rs, c) := calls calc l c in (r :: rs, c)
  end.

(** The digest a call would compute without a cache. *)
Definition fresh (calc : file → string + string) (x : call) : string + string :=
  match cOpen x (cPath x) with
  | Some f => calc f
  | None => if decide (cProc x = "") then inr "open"
            else match cOpen x (cProc x) with Some f => calc f | None => inr "open" end
  end.

Lemma Get_known calc l x c (known : list call) :
  (∀ k i, view c k = Some i → ∃ y, y ∈ known ∧ cPath y = k ∧ fresh calc y = inl (value i)) → l = x :: known →
  let r := Get_ calc (cOpen x) (cNow x) (cJitter x) (cPath x) (cProc x) c in
  (∀ k i, view r.2 k = Some i → ∃ y, y ∈ l ∧ cPath y = k ∧ fresh calc y = inl (value i)) ∧
  ∀ v, r.1 = inl v → ∃ y, y ∈ l ∧ cPath y = cPath x ∧ fresh calc y = inl v.
Proof.
  intros Hk -> r. subst r. unfold Get_. fold (fresh calc x).
  assert ((∃ i, view c (cPath x) = Some i ∧ cNow x < deadline i) ∨ (∀ i, view c (cPath x) = Some i → deadline i ≤ cNow x))
    as [(i & Hi & Hd)|Hno].
  { destruct (view c (cPath x)) as [i|]; [|by right]. destruct (decide (cNow x < deadline i)); [left; eauto|].
    right. intros j [= <-]. lia. }
  - destruct (Get_hit (cNow x) (cPath x) c i Hi Hd) as [Hv Hview]. destruct (Get (cNow x) (cPath x) c) as [o c1]. simpl in *. subst o. simpl.
    destruct (Hk _ _ Hi) as (y & Hy & Hp & Hf). split.
    + intros k j Hj. rewrite Hview in Hj. case_decide as E.
      * injection Hj as <-. subst k. exists y. split; [by right|done].
      * destruct (Hk k j Hj) as (z & ? & ?). exists z. split; [by right|done].
    + intros v [= <-]. exists y. split; [by right|done].
  - destruct (Get_miss (cNow x) (cPath x) c Hno) as [Hv Hview].
    destruct (Get (cNow x) (cPath x) c) as [o c1]. simpl in *. subst o.
    assert (∀ k j, view c1 k = Some j → ∃ y, y ∈ x :: known ∧ cPath y = k ∧ fresh calc y = inl (value j)) as Hk1.
    { intros k j Hj. destruct (Hview k) as [E|E]; rewrite E in Hj; [done|]. destruct (Hk k j Hj) as (z & ? & ?). exists z. split; [by right|done]. }
    simpl. split.
    + destruct (fresh calc x) as [v|] eqn:Hf; [|done]. destruct (Set_view (cNow x) (cPath x) v (hours 12 + cJitter x * 60) c1) as [Hs Ho].
      intros k j Hj. destruct (decide (k = cPath x)) as [->|Hne].
      * rewrite Hs in Hj. injection Hj as <-. exists x. split; [left|done].
      * destruct (Ho k Hne) as [E|E]; rewrite E in Hj; [done|]. by apply Hk1.
    + intros v Hf. exists x. split; [left|done].
Qed.

(** Every digest that is returned is one that this call or an earlier one for the same path
    computed. *)
Theorem digest_was_computed calc l i v :
  (calls calc l empty_cache).1 !! i = Some (inl v) →
  ∃ x j y, l !! i = Some x ∧ l !! j = Some y ∧ (j ≤ i)%nat ∧ cPath y = cPath x ∧ fresh calc y = inl v.
Proof.
  assert (∀ (l : list call) c (known : list call), (∀ k it, view c k = Some it → ∃ y, y ∈ known ∧ cPath y = k ∧ fresh calc y = inl (value it)) →
    ∀ i v, (calls calc l c).1 !! i = Some (inl v) →
    ∃ x y, l !! i = Some x ∧ (y ∈ known ∨ ∃ j, (j ≤ i)%nat ∧ l !! j = Some y) ∧ cPath y = cPath x ∧ fresh calc y = inl v) as Hgen.
  { clear. induction l as [|x l IH]; intros c known Hk i v Hi; [done|]. cbn [calls] in Hi.
    destruct (Get_known calc (x :: known) x c known Hk eq_refl) as [Hk' Hr].
    destruct (Get_ calc (cOpen x) (cNow x) (cJitter x) (cPath x) (cProc x) c) as [r c1]. cbn [fst snd] in *.
    specialize (IH c1 (x :: known) Hk'). destruct (calls calc l c1) as [rs c2]. destruct i as [|i].
    - injection Hi as ->. destruct (Hr v eq_refl) as (y & Hy & ? & ?). exists x, y. split_and!; [done| |done..].
      apply elem_of_cons in Hy as [->|Hy]; [right; by exists 0%nat|by left].
    - destruct (IH i v Hi) as (x' & y & ? & Hy & ? & ?). exists x', y. split_and!; [done| |done..].
      destruct Hy as [[->|?]%elem_of_cons|(j & ? & ?)]; [right; exists 0%nat; split; [lia|done]|by left|right; exists (S j); split; [lia|done]]. }
  intros Hi. destruct (Hgen l empty_cache [] ltac:(intros k it; by rewrite view_empty) i v Hi) as (x & y & Hx & Hy & Hp & Hf).
  destruct Hy as [?%elem_of_nil|(j & ? & ?)]; [done|]. by exists x, j, y.
Qed.

(** A file that is looked up at least twice a day keeps the digest it had at first, whatever
    becomes of it: finding an entry extends its life. *)
Theorem digest_never_refreshed calc x xs v :
  fresh calc x = inl v → 0 ≤ cJitter x →
  Forall (λ y, cPath y = cPath x) xs →
  (∀ i y z, (x :: xs) !! i = Some y → (x :: xs) !! S i = Some z → 0 ≤ cNow z - cNow y < hours 12) →
  (calls calc (x :: xs) empty_cache).1 = replicate (S (length xs)) (inl v).
Proof.
  intros Hf Hj Hp Hgap. cbn [calls]. unfold Get_ at 1. fold (fresh calc x).
  destruct (Get_miss (cNow x) (cPath x) empty_cache) as [Hv _]; [intros i; by rewrite view_empty|].
  destruct (Get (cNow x) (cPath x) empty_cache) as [o c1]. simpl in Hv. subst o. rewrite Hf.
  destruct (Set_view (cNow x) (cPath x) v (hours 12 + cJitter x * 60) c1) as [Hs _].
  set (c2 := Set_ _ _ _ _ c1) in *. clearbody c2.
  assert (∀ xs c prev i, view c (cPath x) = Some i → value i = v → hours 12 ≤ ttl i → deadline i = cNow prev + ttl i →
    Forall (λ y, cPath y = cPath x) xs →
    (∀ i y z, (prev :: xs) !! i = Some y → (prev :: xs) !! S i = Some z → 0 ≤ cNow z - cNow y < hours 12) →
    (calls calc xs c).1 = replicate (length xs) (inl v)) as Hgen.
  { clear. induction xs as [|y xs IH]; intros c prev i Hi Hv Ht Hd Hp Hgap; [done|]. apply Forall_cons in Hp as [Hpy Hp].
    pose proof (Hgap 0%nat prev y eq_refl eq_refl) as Hg. cbn [calls]. unfold Get_ at 1. rewrite Hpy.
    destruct (Get_hit (cNow y) (cPath x) c i Hi ltac:(lia)) as [Hhit Hview].
    destruct (Get (cNow y) (cPath x) c) as [o c1]. simpl in Hhit, Hview. subst o.
    specialize (IH c1 y (mkItem (value i) (cNow y + ttl i) (ttl i))). rewrite Hview, decide_True in IH by done.
    specialize (IH eq_refl Hv Ht eq_refl Hp). destruct (calls calc xs c1) as [rs c2]. simpl in *. rewrite Hv. f_equal. apply IH.
    intros k a b Ha Hb. by apply (Hgap (S k)). }
  specialize (Hgen xs c2 x (mkItem v (cNow x + (hours 12 + cJitter x * 60)) (hours 12 + cJitter x * 60)) Hs eq_refl). simpl in Hgen.
  destruct (calls calc xs c2) as [rs c3]. simpl in *. f_equal. apply Hgen; [lia|lia|done|done].
Qed.

End digests.

(** ** Names *)

Section names.
Context `{Ttl false}.

Definition userCacheExpiration : Z := 3 * 3600.

(** [GetUsername] and [GetGroupname]: [jitter] is below the expiration. *)
Definition lookup_name (lookup : string → string + string) (now jitter : Z) (id : string) (c : cache) : (string + string) * cache :=
  match Get now id c with
  | (Some v, c) => (inl v, c)
  | (None, c) =>
      match lookup id with
      | inr err => (inr err, c)
      | inl v => (inl v, Set_ now id v (userCacheExpiration + jitter) c)
      end
  end.

(** Names are refreshed: an entry is used for less than the time it was stored for. *)
Lemma name_refreshed lookup now jitter id c i :
  view c id = Some i → deadline i ≤ now → (lookup_name lookup now jitter id c).1 = lookup id.
Proof.
  intros Hi Hd. unfold lookup_name. destruct (Get_miss now id c) as [Hv _].
  { intros j Hj. by simplify_eq. }
  destruct (Get now id c) as [o c1]. simpl in Hv. subst o. by destruct (lookup id).
Qed.

End names.

(** ** A cache *)

Definition w_view (c : gmap string item) (k : string) : option item := c !! k.
Definition w_Get (touch : bool) (now : Z) (k : string) (c : gmap string item) : option string * gmap string item :=
  match c !! k with
  | Some i => if decide (now < deadline i)
              then (Some (value i), if touch then <[k := mkItem (value i) (now + ttl i) (ttl i)]> c else c)
              else (None, delete k c)
  | None => (None, c)
  end.

#[program] Definition w_ttl (touch : bool) : Ttl touch :=
  {| cache := gmap string item; empty_cache := ∅; view := w_view; Get := w_Get touch;
     Set_ now k v d c := <[k := mkItem v (now + d) d]> c |}.
Next Obligation. done. Qed.
Next Obligation.
  intros touch now k c i Hi Hd. unfold w_Get, w_view in *. rewrite Hi, decide_True by done. split; [done|].
  intros k'. destruct touch; simpl; case_decide as E.
  - subst. apply lookup_insert_eq.
  - by rewrite lookup_insert_ne.
  - by subst.
  - done.
Qed.
Next Obligation.
  intros touch now k c Hno. unfold w_Get, w_view in *. destruct (c !! k) as [i|] eqn:E.
  - rewrite decide_False by (specialize (Hno i eq_refl); lia). split; [done|]. intros k'. simpl.
    destruct (decide (k = k')) as [->|]; [left; apply lookup_delete_eq|right; by rewrite lookup_delete_ne].
  - split; [done|]. by right.
Qed.
Next Obligation.
  intros touch now k v d c. unfold w_view. split; [apply lookup_insert_eq|]. intros k' Hk. right. by rewrite lookup_insert_ne.
Qed.

Definition w_file (s : string) : file := mkFile (inl 1) s None.
Definition w_calls : list call :=
  [mkCall (λ _, Some (w_file "good")) 0 0 "/bin/ls" ""; mkCall (λ _, Some (w_file "bad")) 1200 0 "/bin/ls" "";
   mkCall (λ _, Some (w_file "bad")) 2400 0 "/bin/ls" ""].

Lemma digest_was_computed_witness : ∃ x j y, w_calls !! 1%nat = Some x ∧ w_calls !! j = Some y ∧ (j ≤ 1)%nat ∧
  cPath y = cPath x ∧ fresh (caculateMd5 id) y = inl "good".
Proof. apply (@digest_was_computed (w_ttl true) (caculateMd5 id) w_calls 1 "good"). by vm_compute. Defined.

Lemma digest_never_refreshed_witness :
  (@calls (w_ttl true) (caculateMd5 id) w_calls ∅).1 = replicate 3 (inl "good").
Proof.
  apply (@digest_never_refreshed (w_ttl true) (caculateMd5 id) (mkCall (λ _, Some (w_file "good")) 0 0 "/bin/ls" "")
    (tail w_calls) "good"); [done|done| |].
  - by repeat constructor.
  - intros [|[|[|]]] y z Hy Hz; simplify_eq/=; unfold hours; lia.
Defined.

End Cached.
