(* ===== verification/Procfs.v ===== *)
(** * Processes of a host

    Models [plugins/collector/process/process.go]: the list of processes and what the
    files of a process under [/proc] say about it.  The files are a parameter, the class
    [Proc]: each operation reads a file once.  A process value remembers its executable and
    command line, so these operations return the value they have changed.

    The theorems start from the texts the kernel writes: [stat_read] and [envs_read] show
    what is recovered of them, and on which texts it is not. *)

From Stdlib Require Import Ascii.
From S2P Require Import Prelude GoStrings GoText GoPath.
From stdpp Require Import options.

Module Procfs.

(** ** The host *)

Class Proc := {
  ReadFile : string → string + string;
  (** [os.Readlink], the target empty with an error. *)
  Readlink : string → string * option string;
  (** [os.Stat]: the inode, if the system information has one. *)
  Stat_ : string → option Z + string;
  ReadDir : string → list string + string;
  Readdirnames : string → list string + string;
  GetUsername : string → string;
  GetGroupname : string → string;
  hertz : Z; btime : Z; pageSize : Z; rpns : string;
  (** [strconv.FormatFloat(float64(n)/float64(hertz), 'f', 6, 64)]. *)
  FormatSeconds : Z → string;
  hertz_pos : (0 < hertz)%Z
}.

(** [filepath.Join]: empty elements are ignored. *)
Definition path_join (l : list string) : string :=
  match filter (λ e, e ≠ "") l with [] => "" | l => path_Clean (str_join "/" l) end.

Definition proc_file (pid name : string) : string := path_join ["/proc"; pid; name].

(** ** Data *)

Record Process := mkProcess { pid : string; exe : string; cmdline : string; comm : string }.
Record ProcessStat := mkStat { Comm : string; State : string; Ppid : string; Pgid : string; Sid : string; StartTime : string }.
Record ProcessCPU := mkCPU { Utime : string; Stime : string; Cutime : string; Cstime : string; Priority : string; Nice : string }.
Record ProcessMem := mkMem { RSS : string; RSSLim : string; Vsize : string }.
Record ProcessStatus := mkStatus {
  Umask : string; TracerPid : string;
  Ruid : string; Euid : string; Suid : string; Fsuid : string;
  Rgid : string; Egid : string; Sgid : string; Fsgid : string;
  Rusername : string; Eusername : string; Susername : string; Fsusername : string;
  NsPid : string; NsPgid : string; NsSid : string }.
Record ProcessNamespace := mkNamespace {
  Diff : string; Cgroup : string; Ipc : string; Mnt : string; Net : string; Pid_ : string; Time_ : string; User_ : string; Uts : string }.

Definition no_stat := mkStat "" "" "" "" "" "".
Definition no_status := mkStatus "" "" "" "" "" "" "" "" "" "" "" "" "" "" "" "" "".
Definition no_namespace := mkNamespace "" "" "" "" "" "" "" "" "".

Definition nth_field (l : list string) (i : nat) : string := default "" (l !! i).

(** [fields[i]] of a slice. *)
Definition index {A} (l : list A) (i : nat) : outcome A :=
  match l !! i with Some x => Ret x | None => Panic "index out of range" end.

Section process.
Context `{Proc}.
Local Open Scope go_scope.

Definition NewProcess (pid : string) : Process + string :=
  match Stat_ (path_join ["/proc"; pid]) with
  | inl _ => inl (mkProcess pid "" "" "")
  | inr err => inr err
  end.

Definition PnsDiffWithRpns (pns : string) : bool := bool_decide (pns ≠ rpns).

(** *** stat *)

Definition is_paren (c : ascii) : bool := bool_decide (c = "("%char ∨ c = ")"%char).

Definition parse_stat (text : string) : ProcessStat :=
  let fields := str_fields text in
  if decide (24 < length fields) then
    mkStat (trim_by is_paren (nth_field fields 1)) (nth_field fields 2) (nth_field fields 3) (nth_field fields 4) (nth_field fields 5)
      (match parse_int (nth_field fields 21) with
       | (starttime, None) => itoa (int64 (Z.quot starttime hertz + int64 btime))
       | _ => ""
       end)
  else no_stat.

Definition Stat (p : Process) : ProcessStat + string :=
  match ReadFile (proc_file (pid p) "stat") with
  | inl text => inl (parse_stat text)
  | inr err => inr err
  end.

Definition parse_cpu (text : string) : outcome ProcessCPU :=
  let fields := str_fields text in
  if decide (17 < length fields) then
    let! u := index fields 13 in let! s := index fields 14 in let! cu := index fields 15 in
    let! cs := index fields 16 in let! pr := index fields 17 in let! n := index fields 18 in
    Ret (mkCPU u s cu cs pr n)
  else Ret (mkCPU "" "" "" "" "" "").

Definition CPU (p : Process) : outcome (ProcessCPU + string) :=
  match ReadFile (proc_file (pid p) "stat") with
  | inl text => let! c := parse_cpu text in Ret (inl c)
  | inr err => Ret (inr err)
  end.

Definition total_ticks (c : ProcessCPU) (includeChildren : bool) : Z + num_error :=
  match parse_int (Utime c), parse_int (Stime c) with
  | (_, Some e), _ | _, (_, Some e) => inr e
  | (utime, None), (stime, None) =>
      if includeChildren then
        match parse_int (Cutime c), parse_int (Cstime c) with
        | (_, Some e), _ | _, (_, Some e) => inr e
        | (cutime, None), (cstime, None) => inl (int64 (int64 (utime + stime) + int64 (cutime + cstime)))
        end
      else inl (int64 (utime + stime))
  end.

Definition TotalCPUTime (p : Process) (includeChildren : bool) : outcome (string + (string + num_error)) :=
  let! c := CPU p in
  Ret (match c with
       | inr err => inr (inl err)
       | inl c => match total_ticks c includeChildren with inl n => inl (FormatSeconds n) | inr e => inr (inr e) end
       end).

Definition parse_mem (text : string) : ProcessMem :=
  let fields := str_fields text in
  if decide (23 < length fields) then
    mkMem (match parse_int (nth_field fields 22) with (rssPages, None) => itoa (int64 (rssPages * pageSize)) | _ => "" end)
      (nth_field fields 21) (nth_field fields 20)
  else mkMem "" "" "".

Definition Mem (p : Process) : ProcessMem + string :=
  match ReadFile (proc_file (pid p) "stat") with inl text => inl (parse_mem text) | inr err => inr err end.

(** *** status *)

Definition tab : string := bytes [9]%N.

Definition status_line (s : ProcessStatus) (line : string) : ProcessStatus :=
  let fields := fields_by tab line in
  if decide (length fields < 2) then s
  else
    let key := nth_field fields 0 in
    let f1 := nth_field fields 1 in let f2 := nth_field fields 2 in let f3 := nth_field fields 3 in let f4 := nth_field fields 4 in
    let 'mkStatus um tr ru eu su fu rg eg sg fg rn en sn fn np ng ns := s in
    if decide (key = "Umask:") then mkStatus f1 tr ru eu su fu rg eg sg fg rn en sn fn np ng ns
    else if decide (key = "TracerPid:") then mkStatus um f1 ru eu su fu rg eg sg fg rn en sn fn np ng ns
    else if decide (key = "Uid:") then
      if decide (length fields < 5) then s
      else mkStatus um tr f1 f2 f3 f4 rg eg sg fg (GetUsername f1) (GetUsername f2) (GetUsername f3) (GetUsername f4) np ng ns
    else if decide (key = "Gid:") then
      if decide (length fields < 5) then s
      else mkStatus um tr ru eu su fu f1 f2 f3 f4 (GetGroupname f1) (GetGroupname f2) (GetGroupname f3) (GetGroupname f4) np ng ns
    else if decide (key = "NSpid:") then mkStatus um tr ru eu su fu rg eg sg fg rn en sn fn f1 ng ns
    else if decide (key = "NSpgid:") then mkStatus um tr ru eu su fu rg eg sg fg rn en sn fn np f1 ns
    else if decide (key = "NSsid:") then mkStatus um tr ru eu su fu rg eg sg fg rn en sn fn np ng f1
    else s.

Definition parse_status (text : string) : ProcessStatus := foldl status_line no_status (fields_by newline text).

Definition Status (p : Process) : ProcessStatus + string :=
  match ReadFile (proc_file (pid p) "status") with inl text => inl (parse_status text) | inr err => inr err end.

(** *** Command line, executable, names *)

Definition cmdline_of (text : string) : string :=
  str_take 1024 (trim_space (replace_byte "000" " " text)).

Definition Cmdline (p : Process) : (string + string) * Process :=
  if decide (cmdline p ≠ "") then (inl (cmdline p), p)
  else match ReadFile (proc_file (pid p) "cmdline") with
       | inr err => (inr err, p)
       | inl text => let ret := cmdline_of text in (inl ret, mkProcess (pid p) (exe p) ret (comm p))
       end.

Definition Exe (p : Process) : string * option string * Process :=
  if decide (exe p ≠ "") then (exe p, None, p)
  else let '(ret, err) := Readlink (proc_file (pid p) "exe") in
       (trim_space ret, err, mkProcess (pid p) (trim_space ret) (cmdline p) (comm p)).

Definition Comm_ (p : Process) : (string + string) * Process :=
  match ReadFile (proc_file (pid p) "comm") with
  | inr err => (inr err, p)
  | inl d => let ret := trim_space d in (inl ret, mkProcess (pid p) (exe p) (cmdline p) ret)
  end.

Definition Cwd (p : Process) : string * option string :=
  let '(ret, err) := Readlink (proc_file (pid p) "cwd") in (trim_space ret, err).

(** The processes of the host; without [wk] only those with an executable. *)
Definition is_pid (name : string) : bool :=
  match parse_int name with (n, None) => bool_decide (in_s 32 n) | _ => false end.

Definition Processes (wk : bool) : list Process + string :=
  match ReadDir "/proc" with
  | inr err => inr err
  | inl entries =>
      inl (foldr (λ name l,
        if is_pid name then
          let p := mkProcess name "" "" "" in
          if wk then p :: l
          else match Exe p with (_, None, p) => p :: l | (_, Some _, _) => l end
        else l) [] entries)
  end.

(** *** Namespaces *)

Definition ns_names : list string := ["cgroup"; "ipc"; "mnt"; "net"; "pid"; "user"; "uts"].

Definition set_ns (ns v : string) (n : ProcessNamespace) : ProcessNamespace :=
  let 'mkNamespace d c i m ne p t u ut := n in
  if decide (ns = "cgroup") then mkNamespace d v i m ne p t u ut
  else if decide (ns = "ipc") then mkNamespace d c v m ne p t u ut
  else if decide (ns = "mnt") then mkNamespace d c i v ne p t u ut
  else if decide (ns = "net") then mkNamespace d c i m v p t u ut
  else if decide (ns = "pid") then mkNamespace d c i m ne v t u ut
  else if decide (ns = "user") then mkNamespace d c i m ne p t v ut
  else if decide (ns = "uts") then mkNamespace d c i m ne p t u v
  else n.

Definition ns_file (pid ns : string) : string := path_join ["/proc"; pid; "ns"; ns].

Fixpoint ns_loop (pid : string) (l : list string) (n : ProcessNamespace) : ProcessNamespace * option string :=
  match l with
  | [] => (n, None)
  | ns :: l =>
      match Stat_ (ns_file pid ns) with
      | inl (Some ino) => ns_loop pid l (set_ns ns (itoa ino) n)
      | inl None => (n, Some "invalid ns stat")
      | inr er => (n, Some er)
      end
  end.

Definition Namespaces (p : Process) : ProcessNamespace * option string :=
  match Stat_ (proc_file (pid p) "ns") with
  | inr err => (no_namespace, Some err)
  | inl _ =>
      let '(n, err) := ns_loop (pid p) ns_names no_namespace in
      let 'mkNamespace _ c i m ne pn t u ut := n in
      (mkNamespace (if decide (pn = rpns) then "false" else "true") c i m ne pn t u ut, err)
  end.

Definition Namespace (p : Process) (n : string) : string + string :=
  if decide (n ∈ ns_names) then
    match Stat_ (ns_file (pid p) n) with
    | inr err => inr err
    | inl (Some ino) => inl (itoa ino)
    | inl None => inl ""
    end
  else inr ("unknown namespace type: " +:+ n).

(** *** Files and environment *)

(** [Readdirnames(1024)] returns at most so many names. *)
Definition Fds (p : Process) : list string + string :=
  match Readdirnames (proc_file (pid p) "fd") with
  | inr err => inr err
  | inl names =>
      inl (omap (λ n, match Readlink (path_join ["/proc"; pid p; "fd"; n]) with
                      | (res, None) => Some (trim_space res)
                      | (_, Some _) => None
                      end) (take 1024 names))
  end.

Definition env_entry (m : gmap string string) (t : string) : gmap string string :=
  match str_split "=" t with [k; v] => <[k := v]> m | _ => m end.

Definition parse_envs (text : string) : gmap string string := foldl env_entry ∅ (scan_sep 1 (bytes [0]%N) text).

Definition Envs (p : Process) : gmap string string * option string :=
  match ReadFile (proc_file (pid p) "environ") with
  | inl text => (parse_envs text, None)
  | inr err => (∅, Some err)
  end.

(** ** What is recovered of the texts of the kernel *)

(** The line of [/proc/<pid>/stat]: the name of the program in parentheses, then the state,
    the parent and so on, separated by blanks. *)
Definition stat_text (pid comm : string) (rest : list string) : string :=
  str_join " " (pid :: ("(" +:+ comm +:+ ")") :: rest) +:+ newline.

#[local] Arguments String.append !_ _ / : simpl nomatch.

(** A name without blanks and without parentheses at its ends. *)
Definition plain_comm (c : string) : Prop :=
  is_word c ∧ match c with String a _ => is_paren a = false | "" => False end ∧
  match last_char c with Some a => is_paren a = false | None => False end.

Lemma word_paren c : str_forall word_char c = true → is_word ("(" +:+ c +:+ ")").
Proof. intros Hc. split; [done|]. simpl. by rewrite str_forall_app, Hc. Qed.

Lemma trim_paren c : plain_comm c → trim_by is_paren ("(" +:+ c +:+ ")") = c.
Proof.
  intros (_ & Hh & Hl). unfold trim_by. destruct c as [|a c]; [done|].
  change (trim_left_by is_paren ("(" +:+ String a c +:+ ")")) with (trim_left_by is_paren (String a (c +:+ ")"))).
  rewrite trim_left_by_id by done. change (String a (c +:+ ")")) with (String a c +:+ ")").
  rewrite trim_right_by_app by done. destruct (last_char (String a c)) as [z|] eqn:E; [|done]. by apply trim_right_by_end with z.
Qed.

Lemma fields_stat pid comm rest :
  is_word pid → str_forall word_char comm = true → Forall is_word rest →
  str_fields (stat_text pid comm rest) = pid :: ("(" +:+ comm +:+ ")") :: rest.
Proof.
  intros Hp Hc Hr. apply fields_join_end; [by right|]. constructor; [done|]. constructor; [by apply word_paren|done].
Qed.

Theorem stat_read pid comm rest t :
  is_word pid → plain_comm comm → Forall is_word rest → 23 ≤ length rest →
  rest !! 19 = Some (itoa t) → in_s 64 t →
  parse_stat (stat_text pid comm rest) =
  mkStat comm (nth_field rest 0) (nth_field rest 1) (nth_field rest 2) (nth_field rest 3)
    (itoa (int64 (Z.quot t hertz + int64 btime))).
Proof.
  intros Hp Hc Hr Hn Ht Hs. unfold parse_stat. rewrite fields_stat by (done || apply Hc). cbn [length].
  rewrite decide_True by lia.
  assert (nth_field (pid :: ("(" +:+ comm +:+ ")") :: rest) 21 = itoa t) as ->.
  { change (nth_field rest 19 = itoa t). unfold nth_field. by rewrite Ht. }
  rewrite parse_int_itoa by done. f_equal. by apply trim_paren.
Qed.

(** A blank in the name of the program moves every later field by one: the state is the end
    of the name, the parent is the state. *)
Lemma comm_with_blank pid w1 w2 rest :
  is_word pid → is_word w1 → is_word w2 → Forall is_word rest → 22 ≤ length rest →
  let s := parse_stat (stat_text pid (w1 +:+ " " +:+ w2) rest) in
  State s = w2 +:+ ")" ∧ Ppid s = nth_field rest 0 ∧ Pgid s = nth_field rest 1.
Proof.
  intros Hp H1 H2 Hr Hn.
  assert (str_fields (stat_text pid (w1 +:+ " " +:+ w2) rest) = pid :: ("(" +:+ w1) :: (w2 +:+ ")") :: rest) as E.
  { unfold stat_text.
    replace (str_join " " (pid :: ("(" +:+ (w1 +:+ " " +:+ w2) +:+ ")") :: rest))
      with (str_join " " (pid :: ("(" +:+ w1) :: (w2 +:+ ")") :: rest))
      by (destruct rest; simpl; rewrite ?str_app_assoc; simpl; by rewrite ?str_app_assoc).
    apply fields_join_end; [by right|]. destruct H1, H2. constructor; [done|].
    constructor; [by split|]. constructor; [|done]. split; [by destruct w2|]. rewrite str_forall_app. by apply andb_true_iff. }
  unfold parse_stat. rewrite E. cbn [length]. by rewrite decide_True by lia.
Qed.

(** [Mem] takes the size of the virtual memory for the number of resident pages, and the
    start time for the limit. *)
Lemma mem_fields pid comm rest vsize :
  is_word pid → str_forall word_char comm = true → Forall is_word rest → 23 ≤ length rest →
  rest !! 20 = Some (itoa vsize) → in_s 64 vsize →
  parse_mem (stat_text pid comm rest) = mkMem (itoa (int64 (vsize * pageSize))) (nth_field rest 19) (nth_field rest 18).
Proof.
  intros Hp Hc Hr Hn Hv Hs. unfold parse_mem. rewrite fields_stat by done. cbn [length]. rewrite decide_True by lia.
  assert (nth_field (pid :: ("(" +:+ comm +:+ ")") :: rest) 22 = itoa vsize) as ->.
  { change (nth_field rest 20 = itoa vsize). unfold nth_field. by rewrite Hv. }
  by rewrite parse_int_itoa.
Qed.

(** With eighteen fields [CPU] reads one too many. *)
Lemma cpu_panics text : length (str_fields text) = 18 → parse_cpu text = Panic "index out of range".
Proof.
  intros Hn. unfold parse_cpu. rewrite Hn, decide_True by lia.
  assert (∀ i, i < 18 → ∃ x, index (str_fields text) i = Ret x) as Hi.
  { intros i Hi. unfold index. destruct (lookup_lt_is_Some_2 (str_fields text) i) as [x ->]; [lia|]. by exists x. }
  destruct (Hi 13) as [? ->]; [lia|]. destruct (Hi 14) as [? H14], (Hi 15) as [? H15], (Hi 16) as [? H16], (Hi 17) as [? H17]; try lia.
  cbn [obind]. rewrite H14. cbn [obind]. rewrite H15. cbn [obind]. rewrite H16. cbn [obind]. rewrite H17. cbn [obind]. unfold index. by rewrite lookup_ge_None_2 by lia.
Qed.

(** *** status *)

Definition tabbed (l : list string) : string := str_join tab l.
Definition is_cell (s : string) : Prop := s ≠ "" ∧ lacks "009" s = true ∧ lacks "010" s = true.

Lemma fields_tabbed l : Forall is_cell l → l ≠ [] → fields_by tab (tabbed l) = l.
Proof.
  intros Hl Hne. unfold fields_by, tabbed. change tab with (String "009" "").
  rewrite split_join; [|eapply Forall_impl; [done|]; by intros ? (?&?&?)|done].
  apply filter_all. eapply Forall_impl; [done|]. by intros ? (?&?&?).
Qed.

Definition status_text (ls : list (list string)) : string := unlines (tabbed <$> ls).

Lemma lines_status ls : Forall (λ l, l ≠ [] ∧ Forall is_cell l) ls → fields_by newline (status_text ls) = tabbed <$> ls.
Proof.
  intros Hls. unfold fields_by, status_text.
  assert (Forall (λ s, s ≠ "" ∧ lacks "010" s = true) (tabbed <$> ls)) as Ht.
  { apply Forall_fmap. eapply Forall_impl; [done|]. intros l [Hne Hl]. unfold compose, tabbed.
    induction Hl as [|x l (Hx & _ & Hn) Hl IH]; [done|]. destruct l as [|y l]; [done|]. specialize (IH ltac:(done)) as [_ IH].
    change (str_join tab (x :: y :: l)) with (x +:+ String "009" (str_join tab (y :: l))). split; [by destruct x|].
    unfold lacks in *. rewrite str_forall_app, Hn. exact IH. }
  rewrite split_unlines by (eapply Forall_impl; [done|]; by intros ? [??]).
  rewrite filter_app, filter_all by (eapply Forall_impl; [done|]; by intros ? [??]). by rewrite app_nil_r.
Qed.

(** The names and ids in a status. *)
Definition uids (s : ProcessStatus) : list string := [Ruid s; Euid s; Suid s; Fsuid s].
Definition gids (s : ProcessStatus) : list string := [Rgid s; Egid s; Sgid s; Fsgid s].
Definition usernames (s : ProcessStatus) : list string := [Rusername s; Eusername s; Susername s; Fsusername s].

Lemma status_line_other s l :
  Forall is_cell l → l ≠ [] → nth_field l 0 ≠ "Uid:" → nth_field l 0 ≠ "Gid:" →
  let s' := status_line s (tabbed l) in uids s' = uids s ∧ gids s' = gids s ∧ usernames s' = usernames s.
Proof.
  intros Hl Hne Hu Hg. unfold status_line. rewrite fields_tabbed by done. destruct s.
  repeat case_decide; done.
Qed.

Lemma status_lines_other s ls :
  Forall (λ l, l ≠ [] ∧ Forall is_cell l ∧ nth_field l 0 ≠ "Uid:" ∧ nth_field l 0 ≠ "Gid:") ls →
  let s' := foldl status_line s (tabbed <$> ls) in uids s' = uids s ∧ gids s' = gids s ∧ usernames s' = usernames s.
Proof.
  intros Hls. revert s. induction Hls as [|l ls (Hne & Hl & Hu & Hg) Hls IH]; intros s; [done|]. rewrite fmap_cons. cbn [foldl].
  destruct (IH (status_line s (tabbed l))) as (-> & -> & ->). by apply status_line_other.
Qed.

(** The ids are the ones of the file, but the names are those of the groups: the line with
    the groups comes later and is put in the same fields. *)
Theorem status_read l1 l2 l3 u g :
  Forall is_cell u → Forall is_cell g → length u = 4 → length g = 4 →
  Forall (λ l, l ≠ [] ∧ Forall is_cell l ∧ nth_field l 0 ≠ "Uid:" ∧ nth_field l 0 ≠ "Gid:") (l1 ++ l2 ++ l3) →
  let s := parse_status (status_text (l1 ++ ("Uid:" :: u) :: l2 ++ ("Gid:" :: g) :: l3)) in
  uids s = u ∧ gids s = g ∧ usernames s = GetGroupname <$> g.
Proof.
  intros Hu Hg Hnu Hng Hl. rewrite !Forall_app in Hl. destruct Hl as (H1 & H2 & H3).
  assert (is_cell "Uid:" ∧ is_cell "Gid:") as [Cu Cg] by (by repeat split). unfold parse_status.
  rewrite lines_status.
  2: { repeat rewrite ?Forall_app, ?Forall_cons.
       split_and!; try done; (eapply Forall_impl; [done|]; by intros ? (?&?&?)). }
  rewrite fmap_app, fmap_cons, fmap_app, fmap_cons, foldl_app. cbn [foldl]. rewrite foldl_app. cbn [foldl].
  destruct (status_lines_other (status_line (foldl status_line (status_line (foldl status_line no_status (tabbed <$> l1))
     (tabbed ("Uid:" :: u))) (tabbed <$> l2)) (tabbed ("Gid:" :: g))) l3 H3) as (-> & -> & ->).
  set (s1 := foldl status_line no_status (tabbed <$> l1)).
  destruct (status_lines_other (status_line s1 (tabbed ("Uid:" :: u))) l2 H2) as (E1 & _ & _).
  set (s2 := foldl status_line (status_line s1 (tabbed ("Uid:" :: u))) (tabbed <$> l2)) in *.
  assert (Forall is_cell ("Uid:" :: u)) by by constructor.
  assert (Forall is_cell ("Gid:" :: g)) by by constructor.
  assert (uids (status_line s1 (tabbed ("Uid:" :: u))) = u) as Eu.
  { unfold status_line. rewrite fields_tabbed by done. destruct s1, u as [|? [|? [|? [|? [|]]]]]; done. }
  rewrite Eu in E1. clearbody s2. clear Eu. unfold status_line. rewrite fields_tabbed by done.
  destruct s2, g as [|? [|? [|? [|? [|]]]]]; try done.
Qed.

(** *** environ *)

Definition env_text (e : list (string * string)) : string := unsep "000" ((λ kv, kv.1 +:+ "=" +:+ kv.2) <$> e).

(** A variable that is kept: no byte of it is zero and it fits the buffer. *)
Definition env_ok (kv : string * string) : Prop :=
  lacks "000" (kv.1 +:+ "=" +:+ kv.2) = true ∧ lacks "=" kv.1 = true ∧
  (Z.of_nat (String.length (kv.1 +:+ "=" +:+ kv.2)) < MaxScanTokenSize)%Z.

(** The environment is the one of the process, less the variables with [=] in their value. *)
Theorem envs_read e :
  Forall env_ok e →
  parse_envs (env_text e) = list_to_map (reverse (filter (λ kv, lacks "=" kv.2 = true) e)).
Proof.
  intros He. unfold parse_envs, env_text. change (bytes [0%N]) with (String "000" "").
  rewrite scan_unsep.
  2: { apply Forall_fmap. eapply Forall_impl; [done|]. intros kv (? & ? & ?). unfold compose. split; [done|]. lia. }
  assert (∀ m, foldl env_entry m ((λ kv, kv.1 +:+ "=" +:+ kv.2) <$> e) =
    list_to_map (reverse (filter (λ kv, lacks "=" kv.2 = true) e)) ∪ m) as Hm.
  2: { rewrite Hm. apply (right_id_L ∅ (∪)). }
  induction He as [|[k v] e (_ & Hk & _) He IH]; intros m; [symmetry; apply map_empty_union|]. rewrite fmap_cons. cbn [foldl fst snd].
  rewrite IH, filter_cons. cbn [snd]. unfold env_entry. change (k +:+ "=" +:+ v) with (k +:+ String "=" v).
  change "=" with (String "=" ""). rewrite str_split_char by done. case_decide as Hv.
  - rewrite str_split_lacks by done. rewrite reverse_cons, list_to_map_app. simpl.
    rewrite <-(assoc_L (∪)), insert_empty. f_equal. apply insert_union_singleton_l.
  - destruct (str_split "=" v) as [|x [|y l]] eqn:E; [done| |done]. exfalso. apply Hv.
    destruct (lacks "=" v) eqn:L; [done|]. apply lacks_false in L as (a & b & -> & La).
    rewrite str_split_char in E by done. by destruct (str_split "=" b) eqn:E'; [apply str_split_ne in E'|].
Qed.

End process.
End Procfs.
