(* ===== verification/Ports.v ===== *)
(** * Listening ports of a host

    Models [plugins/collector/port] and the handler of [plugins/collector/port.go]: the
    messages of the kernel's socket diagnosis ([netlink.go]), the tables under [/proc/net]
    that are read if it gives nothing ([procfs.go]), and the list of ports with the
    processes that hold their sockets ([port.go]). *)

From Stdlib Require Import Ascii.
From S2P Require Import Prelude GoStrings GoText Wire BinRead Bridge Engine Procfs.
From stdpp Require Import options.

Local Open Scope Z_scope.

Module Ports.
Import Procfs.

(** ** Socket diagnosis *)

Definition AF_INET : Z := 2.
Definition AF_INET6 : Z := 10.
Definition IPPROTO_TCP : Z := 6.
Definition IPPROTO_UDP : Z := 17.

Definition sizeofsockid : nat := 48.
Definition sizeofinetDiagReq : nat := sizeofsockid + 8.
Definition sizeofinetDiagResp : nat := sizeofsockid + 24.

Record sockid := mkSockid { sport : Z; dport : Z; sip : bytes; dip : bytes; iface : Z; cookie0 : Z; cookie1 : Z }.
Record inetDiagReq := mkReq { qFamily : Z; qProtocol : Z; qExt : Z; qPad : Z; qStates : Z; qId : sockid }.
Record inetDiagResp := mkResp {
  family : Z; state : Z; timer : Z; retrans : Z; id_ : sockid; expires : Z; rqueue : Z; wqueue : Z; uid : Z; inode : Z }.

Section netlink.
(** Whether the machine is big-endian ([nl.NativeEndian]). *)
Context (big : bool).

Definition native_bytes (n : nat) (v : Z) : bytes := if big then be_bytes n v else le_bytes n v.
Definition native (b : bytes) : Z := if big then be b else le b.

(** The padding of the second address is computed from the first. *)
Definition Serialize (r : inetDiagReq) : bytes :=
  let id := qId r in
  [u8 (qFamily r); u8 (qProtocol r); u8 (qExt r); u8 (qPad r)] ++ native_bytes 4 (qStates r) ++
  be_bytes 2 (sport id) ++ be_bytes 2 (dport id) ++
  sip id ++ zeros (16 - length (sip id)) ++
  dip id ++ (if decide (length (dip id) < 16)%nat then zeros (16 - length (sip id)) else []) ++
  native_bytes 4 (iface id) ++ native_bytes 4 (cookie0 id) ++ native_bytes 4 (cookie1 id).

(** [buf.Next(n)] and the reads of [binary.Read], once the length has been checked. *)
Definition next (n : nat) (b : bytes) : bytes * bytes := (take n b, drop n b).

Definition Deserialize (d : bytes) : inetDiagResp + string :=
  if decide (length d < sizeofinetDiagResp)%nat then inr "socket data short read"
  else
    let '(fam, d) := next 1 d in let '(sta, d) := next 1 d in let '(tim, d) := next 1 d in let '(ret, d) := next 1 d in
    let '(sp, d) := next 2 d in let '(dp, d) := next 2 d in
    let six := bool_decide (le fam = AF_INET6) in
    let '(si, d) := if six then next 16 d else ((next 4 d).1, (next 12 (next 4 d).2).2) in
    let '(di, d) := if six then next 16 d else ((next 4 d).1, (next 12 (next 4 d).2).2) in
    let '(ifa, d) := next 4 d in let '(c0, d) := next 4 d in let '(c1, d) := next 4 d in
    let '(ex, d) := next 4 d in let '(rq, d) := next 4 d in let '(wq, d) := next 4 d in
    let '(ui, d) := next 4 d in let '(ino, d) := next 4 d in
    inl (mkResp (le fam) (le sta) (le tim) (le ret)
           (mkSockid (be sp) (be dp) si di (native ifa) (native c0) (native c1))
           (native ex) (native rq) (native wq) (native ui) (native ino)).

(** A message of the kernel: the end of the dump, an error, or a socket. *)
Inductive nlmsg := NLMSG_DONE | NLMSG_ERROR | NLMSG_DATA (data : bytes).

(** The messages of one [Receive]: [inl true] ends the loop, [inr] is the error. *)
Fixpoint handle_msgs (ms : list nlmsg) (acc : list inetDiagResp) : list inetDiagResp * option (option string) :=
  match ms with
  | [] => (acc, None)
  | NLMSG_DONE :: _ => (acc, Some None)
  | NLMSG_ERROR :: _ => (acc, Some (Some "unknown error"))
  | NLMSG_DATA d :: ms =>
      handle_msgs ms (match Deserialize d with
                      | inl r => if decide (inode r ≠ 0) then acc ++ [r] else acc
                      | inr _ => acc
                      end)
  end.

(** The loop over what [Receive] returns: messages with the port of the sender, which is 0
    for the kernel, or an error.  [None]: it waits for more. *)
Fixpoint receive (rs : list ((list nlmsg * Z) + string)) (acc : list inetDiagResp) : option (list inetDiagResp * option string) :=
  match rs with
  | [] => None
  | inr err :: _ => Some (acc, Some err)
  | inl (ms, from) :: rs =>
      if decide (from ≠ 0) then receive rs acc
      else if decide (ms = []) then Some (acc, None)
      else match handle_msgs ms acc with
           | (acc, Some err) => Some (acc, err)
           | (acc, None) => receive rs acc
           end
  end.

(** The request: the sockets in state 7 (UDP) or 10 (TCP, listening). *)
Definition no_sockid := mkSockid 0 0 [] [] 0 0 0.
Definition request (fam proto : Z) : option inetDiagReq :=
  match (if decide (proto = IPPROTO_UDP) then Some 7 else if decide (proto = IPPROTO_TCP) then Some 10 else None) with
  | Some st => Some (mkReq fam proto (Z.lor (Z.shiftl 1 2) (Z.shiftl 1 1)) 0 (wrap_u 32 (Z.shiftl 1 st)) no_sockid)
  | None => None
  end.

(** [connect] and [send] are the errors of subscribing and of sending the request. *)
Definition inetDiag (fam proto : Z) (connect : option string) (send : bytes → option string)
    (answers : list ((list nlmsg * Z) + string)) : option (list inetDiagResp * option string) :=
  match connect with
  | Some err => Some ([], Some err)
  | None =>
      match request fam proto with
      | None => Some ([], Some "unsupported protocol")
      | Some q => match send (Serialize q) with Some err => Some ([], Some err) | None => receive answers [] end
      end
  end.

(** *** What the kernel sends *)

(** A socket with its addresses in network order; an IPv4 address is followed by twelve
    bytes that mean nothing. *)
Definition resp_ok (r : inetDiagResp) : Prop :=
  let id := id_ r in let n := (if decide (family r = AF_INET6) then 16 else 4)%nat in
  in_u 8 (family r) ∧ in_u 8 (state r) ∧ in_u 8 (timer r) ∧ in_u 8 (retrans r) ∧ in_u 16 (sport id) ∧ in_u 16 (dport id) ∧
  length (sip id) = n ∧ length (dip id) = n ∧
  in_u 32 (iface id) ∧ in_u 32 (cookie0 id) ∧ in_u 32 (cookie1 id) ∧
  in_u 32 (expires r) ∧ in_u 32 (rqueue r) ∧ in_u 32 (wqueue r) ∧ in_u 32 (uid r) ∧ in_u 32 (inode r).

Definition kernel_msg (r : inetDiagResp) (fill1 fill2 rest : bytes) : bytes :=
  let id := id_ r in
  le_bytes 1 (family r) ++ le_bytes 1 (state r) ++ le_bytes 1 (timer r) ++ le_bytes 1 (retrans r) ++
  be_bytes 2 (sport id) ++ be_bytes 2 (dport id) ++ sip id ++ fill1 ++ dip id ++ fill2 ++
  native_bytes 4 (iface id) ++ native_bytes 4 (cookie0 id) ++ native_bytes 4 (cookie1 id) ++
  native_bytes 4 (expires r) ++ native_bytes 4 (rqueue r) ++ native_bytes 4 (wqueue r) ++
  native_bytes 4 (uid r) ++ native_bytes 4 (inode r) ++ rest.

Lemma length_native n v : length (native_bytes n v) = n.
Proof. unfold native_bytes. destruct big; [apply length_be_bytes|apply length_le_bytes]. Qed.

Lemma native_native n v : 0 ≤ v < 256 ^ Z.of_nat n → native (native_bytes n v) = v.
Proof. unfold native, native_bytes. destruct big; [apply be_be_bytes|apply le_le_bytes]. Qed.

Lemma next_app n b rest : length b = n → next n (b ++ rest) = (b, rest).
Proof. intros <-. unfold next. by rewrite take_app_length, drop_app_length. Qed.

Lemma deserialize_kernel r fill1 fill2 rest :
  resp_ok r → length fill1 = length fill2 → (length (sip (id_ r)) + length fill1 = 16)%nat →
  Deserialize (kernel_msg r fill1 fill2 rest) = inl r.
Proof.
  intros (H1 & H2 & H3 & H4 & H5 & H6 & Hs & Hd & H7 & H8 & H9 & H10 & H11 & H12 & H13 & H14) Hf Hn.
  unfold Deserialize. rewrite decide_False.
  2: { unfold kernel_msg. rewrite !length_app, !length_le_bytes, !length_be_bytes, !length_native.
       change sizeofinetDiagResp with 72%nat. lia. }
  unfold kernel_msg. rewrite !next_app by (apply length_le_bytes || apply length_be_bytes || apply length_native).
  cbv beta iota zeta.
  repeat (rewrite next_app by (apply length_le_bytes || apply length_be_bytes || apply length_native); cbv beta iota zeta).
  assert (∀ n v, in_u (8 * Z.of_nat n) v → 0 ≤ v < 256 ^ Z.of_nat n) as Hu.
  { intros n v. unfold in_u. by rewrite Z.pow_mul_r by lia. }
  rewrite (le_le_bytes 1 (family r)) by (by apply Hu).
  destruct r as [fa st ti re [sp dp si di ifa c0 c1] ex rq wq ui ino]; cbn [family state timer retrans id_ sport dport sip dip
    iface cookie0 cookie1 expires rqueue wqueue uid inode] in *.
  destruct (decide (fa = AF_INET6)) as [->|Hne].
  - rewrite bool_decide_true by done. assert (fill1 = [] ∧ fill2 = []) as [-> ->].
    { split; apply nil_length_inv; lia. }
    rewrite !app_nil_l.
    repeat (rewrite next_app by (done || apply length_le_bytes || apply length_be_bytes || apply length_native); cbv beta iota zeta).
    rewrite !le_le_bytes, !be_be_bytes, !native_native by (by apply Hu). done.
  - rewrite bool_decide_false by done. rewrite Hs in Hn.
    repeat (rewrite next_app by (done || lia || apply length_le_bytes || apply length_be_bytes || apply length_native);
      cbn [fst snd]; cbv beta iota zeta).
    rewrite !le_le_bytes, !be_be_bytes, !native_native by (by apply Hu). done.
Qed.

(** The request has the announced size ... *)
Lemma request_size fam proto q : request fam proto = Some q → length (Serialize q) = sizeofinetDiagReq.
Proof.
  unfold request. intros Hq. assert (qId q = no_sockid) as Hid by (repeat case_decide; by simplify_eq/=).
  unfold Serialize. rewrite Hid. rewrite !length_app, !length_be_bytes, !length_native. done.
Qed.

(** ... although a request with one address would not. *)
Lemma padding_wrong : length (Serialize (mkReq AF_INET IPPROTO_TCP 0 0 0 (mkSockid 0 0 (zeros 4) [] 0 0 0))) = 52%nat.
Proof. unfold Serialize. rewrite !length_app, !length_be_bytes, !length_native. done. Qed.

(** A dump: batches of sockets from the kernel, with messages of others in between, then the
    end.  All sockets with an inode are returned. *)
Definition is_msg (m : nlmsg) (r : inetDiagResp) : Prop :=
  ∃ f1 f2 rest, resp_ok r ∧ length f1 = length f2 ∧ (length (sip (id_ r)) + length f1 = 16)%nat ∧
    m = NLMSG_DATA (kernel_msg r f1 f2 rest).

Definition kept (rs : list inetDiagResp) : list inetDiagResp := filter (λ r, inode r ≠ 0) rs.

Lemma handle_msgs_data ms rs tl acc :
  Forall2 is_msg ms rs → handle_msgs (ms ++ tl) acc = handle_msgs tl (acc ++ kept rs).
Proof.
  intros Hm. revert acc. induction Hm as [|m r ms rs (f1 & f2 & rest & Hr & Hf & Hn & ->) Hm IH]; intros acc; cbn [app].
  - by rewrite app_nil_r.
  - cbn [handle_msgs]. rewrite deserialize_kernel, IH by done. unfold kept. rewrite filter_cons.
    case_decide; [by rewrite <-app_assoc|done].
Qed.

Inductive dump : list ((list nlmsg * Z) + string) → list inetDiagResp → Prop :=
| dump_done ms rs tl more : Forall2 is_msg ms rs → dump (inl (ms ++ NLMSG_DONE :: tl, 0) :: more) rs
| dump_batch ms rs more rs' : ms ≠ [] → Forall2 is_msg ms rs → dump more rs' → dump (inl (ms, 0) :: more) (rs ++ rs')
| dump_other ms from more rs : from ≠ 0 → dump more rs → dump (inl (ms, from) :: more) rs.

Lemma dump_received answers rs acc : dump answers rs → receive answers acc = Some (acc ++ kept rs, None).
Proof.
  intros Hd. revert acc. induction Hd as [ms rs tl more Hm|ms rs more rs' Hne Hm Hd IH|ms from more rs Hf Hd IH]; intros acc; cbn [receive].
  - rewrite decide_False by lia. rewrite decide_False by by destruct ms. by rewrite (handle_msgs_data _ _ _ _ Hm).
  - rewrite decide_False by lia. rewrite decide_False by done. rewrite <-(app_nil_r ms).
    rewrite (handle_msgs_data _ _ _ _ Hm). cbn [handle_msgs]. rewrite IH. unfold kept. by rewrite filter_app, app_assoc.
  - by rewrite decide_True.
Qed.

Lemma inetDiag_dump fam proto answers rs :
  proto = IPPROTO_UDP ∨ proto = IPPROTO_TCP → dump answers rs →
  inetDiag fam proto None (λ _, None) answers = Some (kept rs, None).
Proof.
  intros Hp Hd. unfold inetDiag. destruct (request fam proto) as [q|] eqn:Hq.
  - by rewrite (dump_received _ _ _ Hd).
  - exfalso. destruct Hp as [-> | ->]; done.
Qed.

End netlink.

(** ** The tables under /proc/net *)

(** [strconv.ParseUint(s, 16, 64)]. *)
Fixpoint parse_hex_go (acc : N) (s : string) : N + num_error :=
  match s with
  | "" => inl acc
  | String c s =>
      match hex_value c with
      | None => inr ErrSyntax
      | Some d => if decide (maxUint64 < acc * 16 + d)%N then inr ErrRange else parse_hex_go (acc * 16 + d) s
      end
  end.
Definition parse_hex (s : string) : N + num_error := if decide (s = "") then inr ErrSyntax else parse_hex_go 0 s.

Record Port := mkPort {
  Seq : string; Family : string; Protocol : string; State : string; Sport : string; Dport : string; Sip : string; Dip : string;
  Uid : string; Inode : string; Username : string;
  Pid : string; pExe : string; pComm : string; pCmdline : string; Psm : string; PodName : string }.
Definition no_port := mkPort "" "" "" "" "" "" "" "" "" "" "" "" "" "" "" "" "".

Section tables.
(** [net.IP.String]. *)
Context `{Proc} (IP_String : bytes → string).

(** The bytes of each 32-bit word in reverse. *)
Fixpoint swap_words (b : bytes) : bytes :=
  match b with
  | a :: b :: c :: d :: r => d :: c :: b :: a :: swap_words r
  | r => r
  end.

Definition parseIP (h : string) : string + string :=
  match hex_DecodeString h with
  | None => inr "encoding/hex: invalid"
  | Some s =>
      let byteIP := bytes_of s in
      if decide (length byteIP = 4%nat ∨ length byteIP = 16%nat) then inl (IP_String (swap_words byteIP))
      else inr ("unable to parse IP " +:+ h)
  end.

(** An address and a port: what the code has stored when it leaves the switch, and the error
    then ([keep] if it has not assigned one). *)
Definition parse_addr (f : string) (keep : option string) (ip0 port0 : string) : string * string * option string :=
  match str_split ":" f with
  | [ip; port] =>
      match parseIP ip with
      | inr err => ("", port0, Some err)
      | inl ip => match parse_hex port with
                  | inr _ => (ip, port0, Some "parse")
                  | inl uport => (ip, itoa (Z.of_N uport), None)
                  end
      end
  | _ => (ip0, port0, keep)
  end.

(** One column of a line. *)
Definition column (k f : string) (st : Port * option string) : Port * option string :=
  let '(p, err) := st in
  let 'mkPort sq fa pr sta sp dp si di ui ino un pi ex co cm ps po := p in
  if decide (k = "local_address") then
    let '(ip, port, err) := parse_addr f err si sp in (mkPort sq fa pr sta port dp ip di ui ino un pi ex co cm ps po, err)
  else if decide (k = "rem_address") then
    let '(ip, port, err) := parse_addr f err di dp in (mkPort sq fa pr sta sp port si ip ui ino un pi ex co cm ps po, err)
  else if decide (k = "st") then
    match parse_hex f with
    | inr _ => (p, Some "parse")
    | inl st => (mkPort sq fa pr (itoa (Z.of_N st)) sp dp si di ui ino un pi ex co cm ps po, None)
    end
  else if decide (k = "uid") then (mkPort sq fa pr sta sp dp si di f ino (GetUsername f) pi ex co cm ps po, err)
  else if decide (k = "inode") then (mkPort sq fa pr sta sp dp si di ui f un pi ex co cm ps po, err)
  else (p, err).

(** [hdr]: the names of the columns; [imap] gives each field its number. *)
Definition header (line : string) : outcome (gmap nat string) :=
  let tail := match str_cut "uid" line with
              | Some (_, r) => Ret r
              | None => if decide (2 ≤ String.length line)%nat then Ret (str_drop 2 line) else Panic "slice bounds out of range"
              end in
  match tail with
  | Ret r => Ret (list_to_map (reverse (imap (λ i f, ((8 + i)%nat, f)) (str_fields r))) ∪
                  {[1%nat := "local_address"; 2%nat := "rem_address"; 3%nat := "st"; 7%nat := "uid"]})
  | Panic w => Panic w
  end.

Definition parse_line (hdr : gmap nat string) (line : string) : Port * option string :=
  foldl (λ st kf, column kf.1 kf.2 st) (no_port, None)
    (omap id (imap (λ i f, (λ k, (k, f)) <$> hdr !! i) (str_fields line))).

Definition listening (proto : Z) (p : Port) : bool :=
  bool_decide (proto = IPPROTO_UDP ∧ State p = "7") || bool_decide (proto = IPPROTO_TCP ∧ State p = "10").

Definition set_kind (pr fa : string) (p : Port) : Port :=
  let 'mkPort sq _ _ sta sp dp si di ui ino un pi ex co cm ps po := p in mkPort sq fa pr sta sp dp si di ui ino un pi ex co cm ps po.

Fixpoint table_lines (fam proto : Z) (hdr : gmap nat string) (lines : list string) : list Port :=
  match lines with
  | [] => []
  | line :: lines =>
      let '(p, err) := parse_line hdr line in
      if bool_decide (err = None) && listening proto p
      then set_kind (itoa proto) (itoa fam) p :: table_lines fam proto hdr lines
      else table_lines fam proto hdr lines
  end.

Definition table_name (fam proto : Z) : string + string :=
  match (if decide (proto = IPPROTO_UDP) then Some "udp" else if decide (proto = IPPROTO_TCP) then Some "tcp" else None) with
  | None => inr "unsupported protocol"
  | Some f1 =>
      match (if decide (fam = AF_INET) then Some "4" else if decide (fam = AF_INET6) then Some "6" else None) with
      | None => inr "unsupported family"
      | Some f2 => inl (f1 +:+ f2)
      end
  end.

Definition procNet (fam proto : Z) : outcome (list Port + string) :=
  match table_name fam proto with
  | inr err => Ret (inr err)
  | inl name =>
      match ReadFile (path_join ["/proc/net"; name]) with
      | inr err => Ret (inr err)
      | inl text =>
          match scan_lines (str_limit (1024 * 1024 * 2) text) with
          | [] => Ret (inl [])
          | h :: lines => match header h with Ret hdr => Ret (inl (table_lines fam proto hdr lines)) | Panic w => Panic w end
          end
      end
  end.

(** *** What is read of a table *)

Definition std_header : string :=
  "  sl  local_address rem_address   st tx_queue rx_queue tr tm->when retrnsmt   uid  timeout inode".

Definition std_hdr : gmap nat string :=
  {[1%nat := "local_address"; 2%nat := "rem_address"; 3%nat := "st"; 7%nat := "uid"; 8%nat := "timeout"; 9%nat := "inode"]}.

Lemma header_std : header std_header = Ret std_hdr.
Proof. by vm_compute. Qed.

(** An address in a table: the words of the address in the order of the machine, the port in
    hexadecimal. *)
Definition is_addr (f : string) (ip : bytes) (port : Z) : Prop :=
  ∃ h s, f = h +:+ ":" +:+ s ∧ lacks ":" h = true ∧ lacks ":" s = true ∧
    (length ip = 4%nat ∨ length ip = 16%nat) ∧ hex_DecodeString h = Some (string_of (swap_words ip)) ∧
    parse_hex s = inl (Z.to_N port) ∧ 0 ≤ port.

Lemma length_swap b : length (swap_words b) = length b.
Proof.
  revert b. fix IH 1. intros [|a [|b [|c [|d r]]]]; simpl; try done. by rewrite IH.
Qed.

Lemma swap_swap b : swap_words (swap_words b) = b.
Proof. revert b. fix IH 1. intros [|a [|b [|c [|d r]]]]; simpl; try done. by rewrite IH. Qed.

Lemma parse_addr_ok f ip port keep i0 p0 : is_addr f ip port → parse_addr f keep i0 p0 = (IP_String ip, itoa port, None).
Proof.
  intros (h & s & -> & Hh & Hs & Hn & Hd & Hp & Hpos). unfold parse_addr. change (h +:+ ":" +:+ s) with (h +:+ String ":" s).
  change ":" with (String ":" ""). rewrite str_split_char, str_split_lacks by done. unfold parseIP. rewrite Hd.
  unfold bytes_of, string_of. rewrite String.list_ascii_of_string_of_list_ascii. rewrite length_swap.
  rewrite decide_True by done. rewrite swap_swap, Hp. by rewrite Z2N.id.
Qed.

(** A row of a table: the fields of the line. *)
Record row := mkRow { rFields : list string; rSip : bytes; rSport : Z; rDip : bytes; rDport : Z; rState : Z; rUid : string; rInode : string }.

Definition row_ok (r : row) : Prop :=
  ∃ sl la ra st q tr rt to more,
    rFields r = sl :: la :: ra :: st :: q :: tr :: rt :: rUid r :: to :: rInode r :: more ∧
    is_addr la (rSip r) (rSport r) ∧ is_addr ra (rDip r) (rDport r) ∧ parse_hex st = inl (Z.to_N (rState r)) ∧ 0 ≤ rState r.

Definition row_port (fam proto : Z) (r : row) : Port :=
  mkPort "" (itoa fam) (itoa proto) (itoa (rState r)) (itoa (rSport r)) (itoa (rDport r)) (IP_String (rSip r)) (IP_String (rDip r))
    (rUid r) (rInode r) (GetUsername (rUid r)) "" "" "" "" "" "".

Definition row_listens (proto : Z) (r : row) : Prop :=
  (proto = IPPROTO_UDP ∧ rState r = 7) ∨ (proto = IPPROTO_TCP ∧ rState r = 10).

#[export] Instance row_listens_dec proto r : Decision (row_listens proto r).
Proof. unfold row_listens. apply _. Defined.

Lemma columns_beyond (l : list string) n : (10 ≤ n)%nat →
  omap id (imap (λ i f, (λ k, (k, f)) <$> std_hdr !! (n + i)%nat) l) = [].
Proof.
  revert n. induction l as [|x l IH]; intros n Hn; [done|]. rewrite imap_cons. cbn [omap list_omap id].
  assert (std_hdr !! (n + 0)%nat = None) as ->.
  { rewrite Nat.add_0_r. unfold std_hdr. rewrite !lookup_insert_ne by lia. rewrite lookup_singleton_ne by lia. done. }
  cbn [fmap option_fmap option_map]. rewrite <-(IH (S n)) by lia. f_equal. apply imap_ext. intros i y _. unfold compose.
  by rewrite Nat.add_succ_r.
Qed.

Lemma parse_row line r fam proto :
  str_fields line = rFields r → row_ok r →
  ∃ p, parse_line std_hdr line = (p, None) ∧ State p = itoa (rState r) ∧ set_kind (itoa proto) (itoa fam) p = row_port fam proto r.
Proof.
  intros Hl (sl & la & ra & st & q & tr & rt & to & more & Hr & Hla & Hra & Hst & Hpos). unfold parse_line. rewrite Hl, Hr.
  assert (omap id (imap (λ i f, (λ k, (k, f)) <$> std_hdr !! i) (sl :: la :: ra :: st :: q :: tr :: rt :: rUid r :: to :: rInode r :: more)) =
    [("local_address", la); ("rem_address", ra); ("st", st); ("uid", rUid r); ("timeout", to); ("inode", rInode r)]) as ->.
  { transitivity ([("local_address", la); ("rem_address", ra); ("st", st); ("uid", rUid r); ("timeout", to); ("inode", rInode r)] ++
      omap id (imap (λ i f, (λ k, (k, f)) <$> std_hdr !! (10 + i)%nat) more)); [reflexivity|]. by rewrite columns_beyond. }
  eexists. cbn [foldl fst snd]. unfold column, no_port.
  repeat (first [rewrite decide_True by done|rewrite decide_False by done|rewrite (parse_addr_ok _ _ _ _ _ _ Hla)
    |rewrite (parse_addr_ok _ _ _ _ _ _ Hra)|rewrite Hst]; cbv beta iota zeta).
  rewrite Z2N.id by done. split_and!; reflexivity.
Qed.

Lemma listening_row proto p r : State p = itoa (rState r) → listening proto p = bool_decide (row_listens proto r).
Proof.
  intros Hs. unfold listening, row_listens. rewrite Hs. rewrite <-bool_decide_or. apply bool_decide_ext.
  assert (∀ z, itoa (rState r) = itoa z ↔ rState r = z) as Hi.
  { intros z. split; [|by intros ->]. apply (inj pretty). }
  change "7" with (itoa 7). change "10" with (itoa 10). by rewrite !Hi.
Qed.

(** The listening sockets of a table are listed, and no other. *)
Lemma table_read fam proto lines rows :
  Forall2 (λ line r, str_fields line = rFields r ∧ row_ok r) lines rows →
  table_lines fam proto std_hdr lines = row_port fam proto <$> filter (row_listens proto) rows.
Proof.
  induction 1 as [|line r lines rows [Hl Hr] Hrows IH]; [done|]. cbn [table_lines].
  destruct (parse_row line r fam proto Hl Hr) as (p & -> & Hs & Hp). rewrite (listening_row proto p r Hs), filter_cons.
  rewrite bool_decide_true by done. simpl andb. destruct (decide (row_listens proto r)).
  - rewrite bool_decide_true by done. by rewrite IH, Hp.
  - by rewrite bool_decide_false.
Qed.

End tables.

(** ** The list of ports *)

Section ports.
Context `{Proc, Ranger} (IP_String : bytes → string).
(** What the four dumps return, and the time of the scan as a text. *)
Context (diag : Z → Z → list inetDiagResp * option string) (now : string).

Definition scanProto : list Z := [IPPROTO_UDP; IPPROTO_TCP].
Definition scanFamily : list Z := [AF_INET; AF_INET6].

(** The protocols and families in the order of the two loops. *)
Definition scans : list (Z * Z) := proto ← scanProto; (λ fam, (proto, fam)) <$> scanFamily.

Definition diag_port (proto : Z) (r : inetDiagResp) : Port :=
  mkPort now (itoa (family r)) (itoa proto) (itoa (state r)) (itoa (sport (id_ r))) (itoa (dport (id_ r)))
    (IP_String (sip (id_ r))) (IP_String (dip (id_ r))) (itoa (uid r)) (itoa (inode r)) (GetUsername (itoa (uid r))) "" "" "" "" "" "".

Definition add_diag (proto : Z) (st : gmap string Port * gset Z) (r : inetDiagResp) : gmap string Port * gset Z :=
  let '(pm, set) := st in
  if decide (sport (id_ r) ∈ set) then st
  else (<[itoa (inode r) := diag_port proto r]> pm, {[sport (id_ r)]} ∪ set).

Definition diag_one (st : gmap string Port * gset Z) (pf : Z * Z) : gmap string Port * gset Z :=
  match diag pf.2 pf.1 with
  | (resp, None) => foldl (add_diag pf.1) st resp
  | (_, Some _) => st
  end.

Definition diag_all : gmap string Port := (foldl diag_one (∅, ∅) scans).1.

(** The tables, with the error of the last one. *)
Definition add_net (st : gmap string Port * gset string) (p : Port) : gmap string Port * gset string :=
  let '(pm, set) := st in
  if decide (Sport p ∈ set) then st else (<[Inode p := p]> pm, {[Sport p]} ∪ set).

Fixpoint net_loop (l : list (Z * Z)) (st : gmap string Port * gset string) (err : option string) :
    outcome (gmap string Port * option string) :=
  match l with
  | [] => Ret (st.1, err)
  | (proto, fam) :: l =>
      match procNet IP_String fam proto with
      | Panic w => Panic w
      | Ret (inr e) => net_loop l st (Some e)
      | Ret (inl ps) => net_loop l (foldl add_net st ps) None
      end
  end.

Definition sockets : outcome (gmap string Port * option string) :=
  if decide (diag_all = ∅) then net_loop scans (∅, ∅) None else Ret (diag_all, None).

(** The process that has a socket open: [fd] is the target of one of its descriptors. *)
Definition env_first (keys : list string) (e : gmap string string) (old : string) : string :=
  foldr (λ k acc, match e !! k with Some v => v | None => acc end) old keys.

Definition hold (p : Process) (port : Port) : Port * Process :=
  let '(exe, _, p) := Exe p in
  let '(cmdline, p) := Cmdline p in
  let '(comm, p) := Comm_ p in
  let text (x : string + string) := match x with inl s => s | inr _ => "" end in
  let 'mkPort sq fa pr sta sp dp si di ui ino un _ _ _ _ ps po := port in
  let '(ps, po) := match Envs p with
                   | (e, None) => (env_first ["LOAD_SERVICE_PSM"; "TCE_PSM"; "RUNTIME_PSM"] e ps, env_first ["POD_NAME"; "MY_POD_NAME"] e po)
                   | (_, Some _) => (ps, po)
                   end in
  (mkPort sq fa pr sta sp dp si di ui ino un (pid p) exe (text comm) (text cmdline) ps po, p).

Definition link_inode (fd : string) : option string :=
  if has_prefix "socket:[" fd && has_suffix "]" fd then Some (str_take (String.length fd - 9) (str_drop 8 fd)) else None.

Definition fd_step (st : gmap string Port * Process) (fd : string) : gmap string Port * Process :=
  let '(pm, p) := st in
  match link_inode fd with
  | None => st
  | Some k =>
      match pm !! k with
      | None => st
      | Some port => let '(port, p) := hold p port in (<[k := port]> pm, p)
      end
  end.

Definition attribute (pm : gmap string Port) (p : Process) : gmap string Port :=
  match Fds p with
  | inr _ => pm
  | inl fds => (foldl fd_step (pm, p) fds).1
  end.

Definition ListeningPorts : outcome (list Port * option string) :=
  match sockets with
  | Panic w => Panic w
  | Ret (pm, err) =>
      if decide (pm = ∅ ∧ err ≠ None) then Ret ([], err)
      else
        let '(pm, err) := match Processes false with
                          | inr e => (pm, Some e)
                          | inl procs => (foldl attribute pm procs, None)
                          end in
        Ret (filter (λ v, Pid v ≠ "") (range_kv "ports" pm).*2, err)
  end.

(** The records of the handler. *)
Definition port_fields (p : Port) : list (string * string) :=
  [("seq", Seq p); ("family", Family p); ("protocol", Protocol p); ("state", State p); ("sport", Sport p); ("dport", Dport p);
   ("sip", Sip p); ("dip", Dip p); ("uid", Uid p); ("inode", Inode p); ("username", Username p);
   ("pid", Pid p); ("exe", pExe p); ("comm", pComm p); ("cmdline", pCmdline p); ("psm", Psm p); ("pod_name", PodName p)].

(** [mapstructure.Decode] of a structure into a map. *)
Context (Decode : list (string * string) → gmap string string → gmap string string).

Definition get_ (m : option Engine.Fields) (k : string) : string := default "" (m ≫= (.!! k)).

Definition port_record (clock : Z) (cache : Engine.Cache) (seq : string) (p : Port) : Bridge.Record_ :=
  let m := Engine.Get 5056 (Sport p) cache in
  Bridge.mkRecord 5051 clock (Some (Bridge.mkPayload
    (<["package_seq" := seq]> (<["container_name" := get_ m "container_name"]> (<["container_id" := get_ m "container_id"]>
      (Decode (port_fields p) ∅)))))).

Definition Handle (clock : Z) (cache : Engine.Cache) (seq : string) : outcome (list Bridge.Record_) :=
  match ListeningPorts with
  | Panic w => Panic w
  | Ret (_, Some _) => Ret []
  | Ret (ports, None) => Ret (port_record clock cache seq <$> ports)
  end.

(** ** Every port once, with a process that holds it *)

(** The part of an entry that the sockets determine. *)
Definition base (p : Port) : Port :=
  let 'mkPort sq fa pr sta sp dp si di ui ino un _ _ _ _ _ _ := p in mkPort sq fa pr sta sp dp si di ui ino un "" "" "" "" "" "".

Definition socket_link (ino : string) : string := "socket:[" +:+ ino +:+ "]".

#[local] Arguments String.append !_ _ / : simpl nomatch.

Lemma link_inode_socket fd k : link_inode fd = Some k ↔ fd = socket_link k.
Proof.
  unfold link_inode, socket_link. split.
  - destruct (has_prefix "socket:[" fd) eqn:Hp; [|done]. destruct (has_suffix "]" fd) eqn:Hs; [|done]. cbn [andb]. intros <-%(inj Some).
    apply has_prefix_true in Hp as [r ->]. apply has_suffix_last in Hs; [|done].
    destruct (decide (r = "")) as [->|Hr]; [done|]. rewrite last_char_app in Hs by done.
    apply last_char_Some in Hs as [t ->]. rewrite (str_drop_app "socket:[" (t +:+ "]") : str_drop 8 _ = _), !str_length_app.
    replace (String.length "socket:[" + (String.length t + String.length "]") - 9)%nat with (String.length t) by (simpl; lia).
    by rewrite str_take_app.
  - intros ->. rewrite (proj2 (has_prefix_true _ _)) by eauto.
    rewrite (proj2 (has_suffix_true "]" _)) by (exists ("socket:[" +:+ k); by rewrite str_app_assoc). simpl.
    f_equal. rewrite str_length_app. simpl. replace (String.length k + 1 - 1)%nat with (String.length k) by lia. apply str_take_app.
Qed.

Lemma hold_spec p port :
  base (hold p port).1 = base port ∧ Pid (hold p port).1 = pid p ∧ pid (hold p port).2 = pid p.
Proof.
  unfold hold, Exe, Cmdline, Comm_. destruct port. repeat (case_match; simplify_eq/=); done.
Qed.

(** What the descriptors of a process change: the entries of its sockets get its number. *)
Record attributed (P : Process → string → Prop) (pm pm' : gmap string Port) : Prop := {
  at_base : ∀ k, base <$> pm' !! k = base <$> pm !! k;
  at_held : ∀ k v, pm' !! k = Some v → pm !! k = Some v ∨ ∃ p, P p k ∧ Pid v = pid p;
  at_some : ∀ k v p, pm' !! k = Some v → P p k → ∃ q, P q k ∧ Pid v = pid q }.

Lemma fds_attributed p0 fds pm p :
  pid p = pid p0 →
  attributed (λ q k, q = p0 ∧ socket_link k ∈ fds) pm (foldl fd_step (pm, p) fds).1.
Proof.
  revert pm p. induction fds as [|fd fds IH] using rev_ind; intros pm p Hp.
  - split; simpl; [done|by left|]. by intros k v q _ [_ ?%elem_of_nil].
  - rewrite foldl_app. cbn [foldl]. specialize (IH pm p Hp).
    assert (pid (foldl fd_step (pm, p) fds).2 = pid p0) as Hq.
    { clear IH. revert pm p Hp. induction fds as [|f fds IHf]; intros pm p Hp; [done|]. cbn [foldl]. unfold fd_step at 2.
      destruct (link_inode f) as [k|]; [|by apply IHf]. destruct (pm !! k) as [port|]; [|by apply IHf].
      pose proof (hold_spec p port) as (_ & _ & E). destruct (hold p port) as [port' p']. apply IHf. by rewrite <-Hp. }
    destruct (foldl fd_step (pm, p) fds) as [pm1 p1]. cbn [fst snd] in *. destruct IH as [I1 I2 I3]. unfold fd_step.
    assert (∀ k, socket_link k ∈ fds ++ [fd] ↔ socket_link k ∈ fds ∨ link_inode fd = Some k) as Hin.
    { intros k. rewrite elem_of_app, list_elem_of_singleton, link_inode_socket. naive_solver. }
    destruct (link_inode fd) as [k0|] eqn:Hl; [destruct (pm1 !! k0) as [port|] eqn:Hk0|].
    + pose proof (hold_spec p1 port) as (B & Q & _). destruct (hold p1 port) as [port' p2]. cbn [fst snd] in *. rewrite Hq in Q. split.
      * intros k. destruct (decide (k = k0)) as [->|]; [|by rewrite lookup_insert_ne]. rewrite lookup_insert_eq. simpl. rewrite B, <-I1, Hk0. done.
      * intros k v Hk. destruct (decide (k = k0)) as [->|].
        -- rewrite lookup_insert_eq in Hk. simplify_eq. right. exists p0. rewrite Hin. auto.
        -- rewrite lookup_insert_ne in Hk by done. destruct (I2 k v Hk) as [|(q & [-> Hq'] & ?)]; [by left|].
           right. exists p0. rewrite Hin. auto.
      * intros k v q Hk [-> Hq']. destruct (decide (k = k0)) as [->|].
        -- rewrite lookup_insert_eq in Hk. simplify_eq. exists p0. rewrite Hin. auto.
        -- rewrite lookup_insert_ne in Hk by done. apply Hin in Hq' as [Hq'|Hq']; [|by simplify_eq].
           destruct (I3 k v p0 Hk) as (q' & [-> ?] & ?); [done|]. exists p0. rewrite Hin. auto.
    + cbn [fst snd]. split; [done| |].
      * intros k v Hk. destruct (I2 k v Hk) as [|(q & [-> ?] & ?)]; [by left|]. right. exists p0. rewrite Hin. auto.
      * intros k v q Hk [-> Hq']. apply Hin in Hq' as [Hq'|Hq']; [|by simplify_eq].
        destruct (I3 k v p0 Hk) as (q' & [-> ?] & ?); [done|]. exists p0. rewrite Hin. auto.
    + cbn [fst snd]. split; [done| |].
      * intros k v Hk. destruct (I2 k v Hk) as [|(q & [-> ?] & ?)]; [by left|]. right. exists p0. rewrite Hin. auto.
      * intros k v q Hk [-> Hq']. apply Hin in Hq' as [Hq'|Hq']; [|done].
        destruct (I3 k v p0 Hk) as (q' & [-> ?] & ?); [done|]. exists p0. rewrite Hin. auto.
Qed.

(** A process of the list that has a socket open. *)
Definition holds (procs : list Process) (p : Process) (k : string) : Prop :=
  p ∈ procs ∧ ∃ fds, Fds p = inl fds ∧ socket_link k ∈ fds.

Lemma attributed_trans P Q pm pm1 pm2 R :
  attributed P pm pm1 → attributed Q pm1 pm2 → (∀ p k, R p k ↔ P p k ∨ Q p k) → attributed R pm pm2.
Proof.
  intros [A1 A2 A3] [B1 B2 B3] HR. split.
  - intros k. by rewrite B1, A1.
  - intros k v Hk. destruct (B2 k v Hk) as [Hk1|(p & Hp & ?)]; [|right; exists p; by rewrite HR; auto].
    destruct (A2 k v Hk1) as [|(p & Hp & ?)]; [by left|]. right. exists p. rewrite HR. auto.
  - intros k v p Hk [Hp|Hp]%HR.
    + destruct (B2 k v Hk) as [Hk1|(q & Hq & ?)]; [|exists q; rewrite HR; auto].
      destruct (A3 k v p Hk1 Hp) as (q & ? & ?). exists q. rewrite HR. auto.
    + destruct (B3 k v p Hk Hp) as (q & ? & ?). exists q. rewrite HR. auto.
Qed.

Lemma procs_attributed procs pm : attributed (holds procs) pm (foldl attribute pm procs).
Proof.
  revert pm. induction procs as [|p procs IH]; intros pm; cbn [foldl].
  - split; [done|by left|]. by intros k v q _ [?%elem_of_nil _].
  - apply (attributed_trans (λ q k, q = p ∧ holds [p] p k) (holds procs) _ (attribute pm p)); [|apply IH|].
    + unfold attribute, holds. destruct (Fds p) as [fds|] eqn:Hf.
      * destruct (fds_attributed p fds pm p eq_refl) as [I1 I2 I3]. split; [done| |].
        -- intros k v Hk. destruct (I2 k v Hk) as [|(q & [-> ?] & ?)]; [by left|]. right. exists p. split; [|done].
           split; [done|]. split; [by apply list_elem_of_singleton|]. eauto.
        -- intros k v q Hk (-> & _ & fds' & ? & ?). simplify_eq. destruct (I3 k v p Hk) as (q' & [-> ?] & ?); [done|].
           exists p. split; [|done]. split; [done|]. split; [by apply list_elem_of_singleton|]. eauto.
      * split; [done|by left|]. intros k v q Hk (-> & _ & fds' & ? & ?). simplify_eq.
    + intros q k. unfold holds. rewrite elem_of_cons, list_elem_of_singleton. naive_solver.
Qed.

Lemma Processes_pid procs p : Processes false = inl procs → p ∈ procs → pid p ≠ "".
Proof.
  unfold Processes. destruct (ReadDir "/proc") as [entries|]; [|done]. intros [= <-]. induction entries as [|n entries IH]; simpl.
  - by intros ?%elem_of_nil.
  - destruct (is_pid n) eqn:Hn; [|done]. unfold Exe. simpl.
    destruct (Readlink (proc_file n "exe")) as [l [e|]]; [done|]. rewrite elem_of_cons. intros [->|]; [|by apply IH].
    simpl. intros ->. done.
Qed.

(** The sockets of the dumps that succeeded, with their protocols, in the order of the scan. *)
Definition reported : list (Z * inetDiagResp) :=
  pf ← scans; match diag pf.2 pf.1 with (resp, None) => (λ r, (pf.1, r)) <$> resp | (_, Some _) => [] end.

Definition add_reported (st : gmap string Port * gset Z) (x : Z * inetDiagResp) := add_diag x.1 st x.2.

Lemma diag_all_reported : diag_all = (foldl add_reported (∅, ∅) reported).1.
Proof.
  unfold diag_all, reported. generalize ((∅, ∅) : gmap string Port * gset Z). induction scans as [|pf l IH]; intros st; [done|].
  cbn [foldl]. rewrite bind_cons, foldl_app, IH. f_equal. f_equal. unfold diag_one.
  destruct (diag pf.2 pf.1) as [resp [e|]]; [done|]. revert st. induction resp as [|r resp IHr]; intros st; [done|].
  rewrite fmap_cons. cbn [foldl]. apply IHr.
Qed.

Lemma itoa_eq a b : itoa a = itoa b ↔ a = b.
Proof. split; [apply (inj pretty)|by intros ->]. Qed.

Abbreviation port_of x := (diag_port x.1 x.2).
Abbreviation sport_of x := (sport (id_ x.2)).
Abbreviation inode_of x := (inode x.2).

(** The table after the sockets [l]. *)
Record scanned (l : list (Z * inetDiagResp)) (st : gmap string Port * gset Z) : Prop := {
  sc_set : ∀ n, n ∈ st.2 ↔ ∃ x, x ∈ l ∧ sport_of x = n;
  sc_sound : ∀ k v, st.1 !! k = Some v → ∃ x, x ∈ l ∧ k = itoa (inode_of x) ∧ v = port_of x;
  sc_once : ∀ k k' v v', st.1 !! k = Some v → st.1 !! k' = Some v' → Sport v = Sport v' → k = k';
  sc_first : ∀ x, x ∈ l → ∃ y, y ∈ l ∧ sport_of y = sport_of x ∧ st.1 !! itoa (inode_of y) = Some (port_of y) }.

Lemma scanned_foldl l : NoDup ((λ x, inode_of x) <$> l) → scanned l (foldl add_reported (∅, ∅) l).
Proof.
  induction l as [|x l IH] using rev_ind; intros Hnd.
  - split; simpl; try (intros; by rewrite ?lookup_empty in *); try by intros x ?%elem_of_nil.
    intros n. split; [by intros ?%elem_of_empty|]. by intros (x & ?%elem_of_nil & _).
  - rewrite fmap_app, NoDup_app in Hnd. destruct Hnd as (Hnd & Hx & _). specialize (IH Hnd). rewrite foldl_app. cbn [foldl].
    destruct (foldl add_reported (∅, ∅) l) as [pm set]. destruct IH as [Hset Hsound Honce Hfirst]. cbn [fst snd] in *.
    unfold add_reported, add_diag. case_decide as Hin.
    + split; cbn [fst snd]; [| |done|].
      * intros n. rewrite Hset. setoid_rewrite elem_of_app. setoid_rewrite list_elem_of_singleton. split; [intros (y & ? & ?); eauto|].
        intros (y & [Hy| ->] & Hn); [eauto|]. rewrite <-Hn. by apply Hset.
      * intros k v Hk. destruct (Hsound k v Hk) as (y & ? & ?). exists y. rewrite elem_of_app. auto.
      * intros y [Hy|Hy%list_elem_of_singleton]%elem_of_app.
        -- destruct (Hfirst y Hy) as (z & ? & ?). exists z. rewrite elem_of_app. auto.
        -- subst y. apply Hset in Hin as (y & Hy & Hs). destruct (Hfirst y Hy) as (z & ? & ? & ?). exists z.
           rewrite elem_of_app. split_and!; [auto|congruence|done].
    + assert (∀ y, y ∈ l → itoa (inode_of y) ≠ itoa (inode_of x)) as Hne.
      { intros y Hy E%itoa_eq. apply (Hx (inode_of y)); [by apply (list_elem_of_fmap_2 (λ x, inode_of x))|]. rewrite E. by apply list_elem_of_singleton. }
      assert (∀ k v, pm !! k = Some v → Sport v ≠ itoa (sport_of x)) as Hnew.
      { intros k v Hk E. destruct (Hsound k v Hk) as (y & Hy & -> & ->). apply itoa_eq in E. apply Hin, Hset. eauto. }
      split; cbn [fst snd].
      * intros n. rewrite elem_of_union, elem_of_singleton, Hset. setoid_rewrite elem_of_app. setoid_rewrite list_elem_of_singleton.
        split; [intros [->|(y & ? & ?)]; eauto|]. intros (y & [?| ->] & <-); eauto.
      * intros k v [[<- <-]|[Hk Hv]]%lookup_insert_Some.
        -- exists x. rewrite elem_of_app, list_elem_of_singleton. auto.
        -- destruct (Hsound k v Hv) as (y & ? & ?). exists y. rewrite elem_of_app. auto.
      * intros k k' v v' [[<- <-]|[Hk Hv]]%lookup_insert_Some [[<- <-]|[Hk' Hv']]%lookup_insert_Some E; [done| | |by eapply Honce].
        -- by destruct (Hnew k' v' Hv').
        -- by destruct (Hnew k v Hv).
      * intros y [Hy|Hy%list_elem_of_singleton]%elem_of_app.
        -- destruct (Hfirst y Hy) as (z & Hz & ? & ?). exists z. rewrite elem_of_app. split_and!; [auto|done|].
           rewrite lookup_insert_ne; [done|]. by apply not_eq_sym, Hne.
        -- subst y. exists x. rewrite elem_of_app, list_elem_of_singleton, lookup_insert_eq. auto.
Qed.

Lemma base_fields p q : base p = base q → Sport p = Sport q ∧ Inode p = Inode q.
Proof. destruct p, q. by intros [= ]. Qed.

Lemma base_base_port x : base (port_of x) = port_of x.
Proof. done. Qed.

(** A key of the values that determines the key of the entry has no duplicates. *)
Lemma NoDup_values {K V B} (f : V → B) (P : V → Prop) `{∀ v, Decision (P v)} (l : list (K * V)) :
  NoDup l.*1 → (∀ k v k' v', (k, v) ∈ l → (k', v') ∈ l → f v = f v' → k = k') → NoDup (f <$> filter P l.*2).
Proof.
  induction l as [|[k v] l IH]; intros Hnd Hk; [apply NoDup_nil_2|]. rewrite fmap_cons in *. cbn [fst snd] in *.
  apply NoDup_cons in Hnd as [Hni Hnd]. assert (NoDup (f <$> filter P l.*2)) as Hl.
  { apply IH; [done|]. intros k1 v1 k2 v2 ? ?. eapply Hk; by right. }
  rewrite filter_cons. case_decide; [|done]. rewrite fmap_cons. apply NoDup_cons. split; [|done].
  intros (v' & Hv & Hin)%list_elem_of_fmap. apply list_elem_of_filter in Hin as [_ ([k' v''] & -> & Hin)%list_elem_of_fmap].
  apply Hni. rewrite (Hk k v k' v''); [by apply (list_elem_of_fmap_2 fst _ (k', v''))|left|by right|done].
Qed.

(** What the list has for the sockets that were reported: each entry is one of them, with a
    process that has it open; a port number is listed once; the socket that was reported
    first for its number is listed if a process has it open. *)
Theorem ports_listed procs :
  Processes false = inl procs → NoDup ((λ x, inode_of x) <$> reported) → reported ≠ [] →
  ∃ ret, ListeningPorts = Ret (ret, None) ∧
    (∀ v, v ∈ ret → ∃ x p, x ∈ reported ∧ holds procs p (itoa (inode_of x)) ∧ base v = port_of x ∧ Pid v = pid p) ∧
    NoDup (Sport <$> ret) ∧
    (∀ x p, x ∈ reported → (∀ y, y ∈ reported → sport_of y = sport_of x → y = x) → holds procs p (itoa (inode_of x)) →
       ∃ v, v ∈ ret ∧ base v = port_of x).
Proof.
  intros Hprocs Hnd Hne. pose proof (scanned_foldl reported Hnd) as Hsc. 
  destruct (foldl add_reported (∅, ∅) reported) as [pm set] eqn:E. assert (diag_all = pm) as Hall by (by rewrite diag_all_reported, E).
  destruct Hsc as [_ Hsound Honce Hfirst]. cbn [fst snd] in *.
  assert (pm ≠ ∅) as Hpm.
  { destruct reported as [|x l]; [done|]. destruct (Hfirst x) as (y & _ & _ & Hy); [left|]. intros ->. by rewrite lookup_empty in Hy. }
  unfold ListeningPorts, sockets. rewrite Hall. rewrite decide_False by done. rewrite decide_False by (by intros [? ?]).
  rewrite Hprocs. set (pm' := foldl attribute pm procs). destruct (procs_attributed procs pm) as [Hb Hheld Hsome]. fold pm' in Hb, Hheld, Hsome.
  eexists; split; [done|].
  assert (∀ v, v ∈ filter (λ v, Pid v ≠ "") (range_kv "ports" pm').*2 ↔ Pid v ≠ "" ∧ ∃ k, pm' !! k = Some v) as Hret.
  { intros v. rewrite list_elem_of_filter, list_elem_of_fmap. apply and_iff_compat_l. split.
    - intros ([k ?] & -> & Hk). exists k. by apply range_kv_elem in Hk.
    - intros [k Hk]. exists (k, v). split; [done|]. by apply range_kv_elem. }
  assert (∀ k v, pm' !! k = Some v → ∃ x, x ∈ reported ∧ k = itoa (inode_of x) ∧ base v = port_of x) as Horig.
  { intros k v Hk. pose proof (Hb k) as Hbk. rewrite Hk in Hbk. destruct (pm !! k) as [b|] eqn:Hk0; [|done]. simpl in Hbk.
    destruct (Hsound k b Hk0) as (x & Hx & -> & ->). exists x. split_and!; [done|done|]. by injection Hbk. }
  assert (∀ k v, pm !! k = Some v → Pid v = "") as Hnopid.
  { intros k v Hk. by destruct (Hsound k v Hk) as (x & _ & _ & ->). }
  split_and!.
  - intros v (Hp & k & Hk)%Hret. destruct (Horig k v Hk) as (x & Hx & -> & Hbv).
    destruct (Hheld _ v Hk) as [Hk0|(p & Hh & Hpv)]; [by apply Hnopid in Hk0|]. by exists x, p.
  - apply NoDup_values; [apply range_kv_NoDup_fst|]. intros k v k' v' Hk%range_kv_elem Hk'%range_kv_elem Heq.
    pose proof (Hb k) as E1. pose proof (Hb k') as E2. rewrite Hk in E1. rewrite Hk' in E2.
    destruct (pm !! k) as [b|] eqn:Hk0; [|done]. destruct (pm !! k') as [b'|] eqn:Hk0'; [|done].
    injection E1 as [E1 _]%base_fields. injection E2 as [E2 _]%base_fields. eapply Honce; [done..|]. congruence.
  - intros x p Hx Honly Hh. destruct (Hfirst x Hx) as (y & Hy & Hs & Hk). rewrite (Honly y Hy Hs) in Hk.
    pose proof (Hb (itoa (inode_of x))) as Hbk. rewrite Hk in Hbk. destruct (pm' !! itoa (inode_of x)) as [v|] eqn:Hk'; [|done].
    injection Hbk as Hbk. exists v. split; [|by rewrite Hbk]. apply Hret. split; [|eauto].
    destruct (Hsome _ v p Hk' Hh) as (q & [Hq _] & ->). by eapply Processes_pid.
Qed.

End ports.

(** ** A host *)

(** One process with two sockets open, on which a UDP and a TCP port have the same number. *)
Definition w_host : Proc := {|
  ReadFile f := if decide (f = "/proc/7/comm") then inl "named" else inr "no such file";
  Readlink f := if decide (f = "/proc/7/exe") then ("/usr/sbin/named", None)
                else if decide (f = "/proc/7/fd/3") then ("socket:[100]", None)
                else if decide (f = "/proc/7/fd/4") then ("socket:[101]", None) else ("", Some "no such file");
  Stat_ _ := inr "no such file";
  ReadDir _ := inl ["7"; "self"]; Readdirnames _ := inl ["3"; "4"];
  GetUsername _ := "bind"; GetGroupname _ := "bind"; hertz := 100; btime := 0; pageSize := 4096; rpns := "1";
  FormatSeconds _ := ""; hertz_pos := eq_refl |}.

Definition w_socket (ino : Z) : inetDiagResp := mkResp AF_INET 7 0 0 (mkSockid 53 0 (zeros 4) (zeros 4) 0 0 0) 0 0 0 0 ino.
Definition w_diag (both : bool) (fam proto : Z) : list inetDiagResp * option string :=
  if decide (fam = AF_INET) then
    if decide (proto = IPPROTO_UDP) then ([w_socket 100], None)
    else if both then ([w_socket 101], None) else ([], None)
  else ([], Some "no such protocol").
Definition w_procs : list Process := [mkProcess "7" "/usr/sbin/named" "" ""].

Lemma ports_listed_witness :
  ∃ ret, @ListeningPorts w_host _ (λ _, "") (w_diag false) "now" = Ret (ret, None) ∧ Sport <$> ret = ["53"].
Proof.
  destruct (@ports_listed w_host _ (λ _, "") (w_diag false) "now" w_procs) as (ret & E & _ & Hnd & Hc).
  - by vm_compute.
  - vm_compute. apply NoDup_singleton.
  - by vm_compute.
  - exists ret. split; [exact E|]. clear Hnd Hc. revert E. vm_compute. by intros [= <-].
Defined.

(** The TCP port is not listed: its number has been seen for UDP. *)
Lemma shared_number_lost :
  ∃ v, @ListeningPorts w_host _ (λ _, "") (w_diag true) "now" = Ret ([v], None) ∧ Protocol v = itoa IPPROTO_UDP ∧ Inode v = "100".
Proof. eexists. vm_compute. split_and!; reflexivity. Qed.

(** The tables of IPv4 are looked up under names the kernel does not have ([tcp] and [udp]
    are the names), so without a dump only IPv6 is listed. *)
Lemma table_names_v4 : table_name AF_INET IPPROTO_TCP = inl "tcp4" ∧ table_name AF_INET IPPROTO_UDP = inl "udp4".
Proof. done. Qed.

(** The container is looked up under the number of the port; the cache is filled under the
    namespaces of processes. *)
Lemma container_by_port Decode clock cache seq p :
  Engine.Get 5056 (Sport p) cache = None →
  match Bridge.Data (port_record Decode clock cache seq p) with
  | Some d => Bridge.Fields d !! "container_id" = Some ""
  | None => False
  end.
Proof. intros Hg. unfold port_record. simpl. rewrite Hg. by simplify_map_eq. Qed.

End Ports.
