(* ===== verification/Accounts.v ===== *)
(** * Accounts of a host

    Models [plugins/collector/user.go]: the accounts of [/etc/passwd], the last logins of
    [/var/log/wtmp], the entries of [/etc/shadow] with the test for weak passwords, and the
    rights [sudo] reports.  The password hash and the text of an address are parameters. *)

From Stdlib Require Import Ascii.
From S2P Require Import Prelude GoStrings GoText Wire BinRead Bridge.
From stdpp Require Import options.

Module Accounts.

(** ** Weak passwords *)

Definition star : ascii := "*".

(** [maskPassword]: on the bytes of the password. *)
Definition maskPassword (pwd : string) : string :=
  let b := bytes_of pwd in
  let n := length b in
  match n with
  | 0 => ""
  | 1 => "*"
  | 2 | 3 => string_of (<[1 := star]> b)
  | 4 => string_of (<[2 := star]> (<[1 := star]> b))
  | _ => string_of (take 2 b ++ replicate (n - 4) star ++ drop (n - 2) b)
  end.

Section accounts.
(** [crypter.Generate] of SHA-256 and SHA-512 crypt for a word and a salt, and the embedded
    list of words. *)
Context (Generate : string → string → string → option string) (weakPassword : string).

Fixpoint try_words (method salt hashed : string) (words : list string) : string * string :=
  match words with
  | [] => ("false", "")
  | w :: words =>
      match Generate method w ("$" +:+ method +:+ "$" +:+ salt) with
      | Some pw => if decide (pw = hashed) then ("true", maskPassword w) else try_words method salt hashed words
      | None => try_words method salt hashed words
      end
  end.

Definition verifyWeak (hashed : string) : string * string :=
  let fields := str_split "$" hashed in
  if decide (length fields < 4) then ("true", "not valid format")
  else
    let method := default "" (fields !! 1) in
    if decide (method = "1") then ("true", "weak algorithm")
    else if decide (method = "5" ∨ method = "6")
    then try_words method (default "" (fields !! 2)) hashed (scan_lines weakPassword)
    else ("false", "").

(** ** The accounts *)

Record User := mkUser {
  Seq : string; Username : string; Password : string; Uid : string; Gid : string; Groupname : string;
  Info_ : string; Home : string; Shell : string; LastLoginTime : string; LastLoginIP : string;
  WeakPassword : string; WeakPasswordContent : string; Sudoers : string;
  ShadowPassword : string; ShadowLastChange : string; ShadowMin : string; ShadowMax : string; ShadowWarn : string;
  ShadowInactive : string; ShadowExpire : string; ShadowFlag : string }.

Context (GetGroupname : string → string) (IP_String : bytes → string).

Definition field (l : list string) (i : nat) : string := default "" (l !! i).

(** A line of passwd; short lines are padded with empty fields. *)
Definition passwd_user (seq line : string) : User :=
  let fields := str_split ":" line in
  mkUser seq (field fields 0) (field fields 1) (field fields 2) (field fields 3) (GetGroupname (field fields 3))
    (field fields 4) (field fields 5) (field fields 6) "" "" "" "" "" "" "" "" "" "" "" "" "".

Definition passwd_users (seq text : string) : gmap string User :=
  foldl (λ m line, let u := passwd_user seq line in <[Username u := u]> m) ∅ (scan_lines text).

(** *** Logins *)

(** The records of 384 bytes: the user at 44, the seconds at 340, the address at 348; the
    loop ends with the first one that cannot be read in full. *)
Definition utmp_size : nat := 384.
Record utmp := mkUtmp { tUser : string; tSec : Z; tAddr : bytes }.

Definition is_zero (c : ascii) : bool := bool_decide (c = "000"%char).
Definition trim_zeros (b : bytes) : bytes := bytes_of (trim_right_by is_zero (string_of b)).

Definition read_utmp (b : bytes) : utmp :=
  mkUtmp (trim_right_by is_zero (string_of (take 32 (drop 44 b)))) (wrap_s 32 (le (take 4 (drop 340 b))))
    (trim_zeros (take 16 (drop 348 b))).

Fixpoint utmp_records (fuel : nat) (b : bytes) : list utmp :=
  match fuel with
  | O => []
  | S fuel => if decide (length b < utmp_size) then [] else read_utmp b :: utmp_records fuel (drop utmp_size b)
  end.
Definition wtmp_records (b : bytes) : list utmp := utmp_records (S (length b)) b.

Definition set_login (time ip : string) (u : User) : User :=
  let 'mkUser sq un pw ui gi gn inf ho sh _ _ wk wc su s1 s2 s3 s4 s5 s6 s7 s8 := u in
  mkUser sq un pw ui gi gn inf ho sh time ip wk wc su s1 s2 s3 s4 s5 s6 s7 s8.

Definition login (m : gmap string User) (l : utmp) : gmap string User :=
  match m !! tUser l with
  | Some u => <[tUser l := set_login (itoa (tSec l)) (IP_String (tAddr l)) u]> m
  | None => m
  end.

(** *** Shadow *)

(** [or_keep l i old]: the assignments that are made if the line has the field. *)
Definition or_keep (l : list string) (i : nat) (old : string) : string := match l !! i with Some x => x | None => old end.

Definition set_shadow (fields : list string) (u : User) : User :=
  let 'mkUser sq un pw ui gi gn inf ho sh lt li _ _ su s1 s2 s3 s4 s5 s6 s7 s8 := u in
  let h := field fields 1 in
  let '(wk, wc) := if str_contains "*" h || str_contains "!" h then ("false", "") else verifyWeak h in
  mkUser sq un pw ui gi gn inf ho sh lt li wk wc su h (or_keep fields 2 s2) (or_keep fields 3 s3) (or_keep fields 4 s4)
    (or_keep fields 5 s5) (or_keep fields 6 s6) (or_keep fields 7 s7) (or_keep fields 8 s8).

Definition shadow (m : gmap string User) (line : string) : gmap string User :=
  let fields := str_split ":" line in
  if decide (length fields < 2) then m
  else match m !! field fields 0 with
       | Some u => <[field fields 0 := set_shadow fields u]> m
       | None => m
       end.

(** *** Rights *)

(** What the output of [sudo -l -U user] contributes, if the command succeeds. *)
Definition sudoers (output : string + string) : string :=
  match output with
  | inr _ => ""
  | inl out =>
      match str_cut "may run the following commands" out with
      | Some (String _ _, r) =>
          match str_cut ":" ("may run the following commands" +:+ r) with
          | Some (String _ _, rest) => if decide (rest = "") then "" else trim_space rest
          | _ => ""
          end
      | _ => ""
      end
  end.

Definition set_sudoers (s : string) (u : User) : User :=
  let 'mkUser sq un pw ui gi gn inf ho sh lt li wk wc _ s1 s2 s3 s4 s5 s6 s7 s8 := u in
  mkUser sq un pw ui gi gn inf ho sh lt li wk wc s s1 s2 s3 s4 s5 s6 s7 s8.

Definition user_fields (u : User) : list (string * string) :=
  [("seq", Seq u); ("username", Username u); ("password", Password u); ("uid", Uid u); ("gid", Gid u); ("groupname", Groupname u);
   ("info", Info_ u); ("home", Home u); ("shell", Shell u); ("last_login_time", LastLoginTime u); ("last_login_ip", LastLoginIP u);
   ("weak_password", WeakPassword u); ("weak_password_content", WeakPasswordContent u); ("sudoers", Sudoers u);
   ("shadow_password", ShadowPassword u); ("shadow_last_change", ShadowLastChange u); ("shadow_min", ShadowMin u);
   ("shadow_max", ShadowMax u); ("shadow_warn", ShadowWarn u); ("shadow_inactive", ShadowInactive u);
   ("shadow_expire", ShadowExpire u); ("shadow_flag", ShadowFlag u)].

(** The files: an empty text stands for a file that cannot be opened, which has the same
    effect.  [sudo] runs the command. *)
Context `{Ranger} (Decode : list (string * string) → gmap string string → gmap string string).

Definition accounts (seq passwd : string) (wtmp : bytes) (shadow_text : string) : gmap string User :=
  foldl shadow (foldl login (passwd_users seq passwd) (wtmp_records wtmp)) (scan_lines shadow_text).

Definition user_record (clock : Z) (pkg : string) (sudo : string → string + string) (u : User) : Bridge.Record_ :=
  let u := set_sudoers (sudoers (sudo (Username u))) u in
  Bridge.mkRecord 5052 clock (Some (Bridge.mkPayload (<["package_seq" := pkg]> (Decode (user_fields u) ∅)))).

Definition Handle (clock : Z) (seq pkg passwd : string) (wtmp : bytes) (shadow_text : string)
    (sudo : string → string + string) : list Bridge.Record_ :=
  user_record clock pkg sudo <$> (range_kv "users" (accounts seq passwd wtmp shadow_text)).*2.

(** ** Weak passwords are found, and hidden *)

Lemma bytes_of_string_of b : bytes_of (string_of b) = b.
Proof. apply String.list_ascii_of_string_of_list_ascii. Qed.

(** A masked password has its length, shows at most the first and the last two bytes, and
    hides at least one. *)
Lemma mask_hides pwd :
  let b := bytes_of pwd in let b' := bytes_of (maskPassword pwd) in
  length b' = length b ∧
  (∀ i, 2 ≤ i → i + 2 < length b → b' !! i = Some star) ∧
  (pwd ≠ "" → star ∈ b').
Proof.
  cbv zeta. unfold maskPassword.
  assert (bytes_of pwd = [] → pwd = "") as Hnil by (by destruct pwd).
  destruct (bytes_of pwd) as [|a [|b [|c [|d [|e l]]]]] eqn:E; cbn [length]; rewrite ?bytes_of_string_of.
  - split_and!; [done|intros; lia|]. intros []. by apply Hnil.
  - split_and!; [done|intros; lia|]. intros _. left.
  - split_and!; [done|intros; lia|]. intros _. simpl. right. left.
  - split_and!; [done|intros; lia|]. intros _. simpl. right. left.
  - split_and!; [done|intros; lia|]. intros _. simpl. right. left.
  - clear E. set (m := a :: b :: c :: d :: e :: l). assert (length m = S (S (S (S (S (length l)))))) as Hm by done.
    rewrite <-Hm. split_and!.
    + rewrite !length_app, length_take, length_replicate, length_drop. lia.
    + intros i H1 H2. rewrite lookup_app_r by (rewrite length_take; lia). rewrite length_take, Nat.min_l by lia.
      rewrite lookup_app_l by (rewrite length_replicate; lia). apply lookup_replicate. split; [done|lia].
    + intros _. rewrite !elem_of_app. right. left. apply elem_of_replicate. split; [done|lia].
Qed.

Lemma try_words_found method salt hashed words :
  (try_words method salt hashed words).1 = "true" ↔
  ∃ w, w ∈ words ∧ Generate method w ("$" +:+ method +:+ "$" +:+ salt) = Some hashed.
Proof.
  induction words as [|w words IH]; simpl.
  - split; [done|]. by intros (w & ?%elem_of_nil & _).
  - destruct (Generate _ w _) as [pw|] eqn:E; [case_decide as Hd|]; [split; [|done]|rewrite IH..].
    + intros _. exists w. split; [left|by rewrite E, Hd].
    + split; [intros (v & ? & ?); exists v; split; [by right|done]|].
      intros (v & [->|?]%elem_of_cons & Hv); [simplify_eq|by exists v].
    + split; [intros (v & ? & ?); exists v; split; [by right|done]|].
      intros (v & [->|?]%elem_of_cons & Hv); [simplify_eq|by exists v].
Qed.

(** A hash of SHA-256 or SHA-512 crypt counts as weak exactly if it is the hash of a word of
    the list with its salt. *)
Theorem weak_password_found method salt h :
  method = "5" ∨ method = "6" → lacks "$" salt = true →
  (verifyWeak ("$" +:+ method +:+ "$" +:+ salt +:+ "$" +:+ h)).1 = "true" ↔
  ∃ w, w ∈ scan_lines weakPassword ∧
    Generate method w ("$" +:+ method +:+ "$" +:+ salt) = Some ("$" +:+ method +:+ "$" +:+ salt +:+ "$" +:+ h).
Proof.
  intros Hm Hs. rewrite <-try_words_found.
  assert (str_split "$" ("$" +:+ method +:+ "$" +:+ salt +:+ "$" +:+ h) = "" :: method :: salt :: str_split "$" h) as E.
  { assert (lacks "$" method = true) as Hl by by destruct Hm as [-> | ->].
    transitivity (str_split (String "$" "") ("" +:+ String "$" (method +:+ String "$" (salt +:+ String "$" h)))); [done|].
    by rewrite !str_split_char. }
  unfold verifyWeak. rewrite E. assert (1 ≤ length (str_split "$" h)) as Hn.
  { pose proof (str_split_ne "$" h). destruct (str_split "$" h); simpl; [done|lia]. }
  rewrite decide_False by (simpl; lia). cbn [lookup list_lookup default].
  change (default "" (("" :: method :: salt :: str_split "$" h) !! 1)) with method.
  change (default "" (("" :: method :: salt :: str_split "$" h) !! 2)) with salt.
  rewrite decide_False by (by destruct Hm as [-> | ->]). by rewrite decide_True.
Qed.

(** ** One record for each account *)

(** The last login and the shadow entry of an account. *)
Definition with_login (wtmp : bytes) (u : User) : User :=
  match last (filter (λ l, tUser l = Username u) (wtmp_records wtmp)) with
  | Some l => set_login (itoa (tSec l)) (IP_String (tAddr l)) u
  | None => u
  end.

Definition shadow_lines (text : string) : list (list string) := filter (λ fs, 2 ≤ length fs) (str_split ":" <$> scan_lines text).

Definition with_shadow (text : string) (u : User) : User :=
  foldl (λ u fs, set_shadow fs u) u (filter (λ fs, field fs 0 = Username u) (shadow_lines text)).

Definition account_of (seq : string) (wtmp : bytes) (shadow_text line : string) : User :=
  with_shadow shadow_text (with_login wtmp (passwd_user seq line)).

Lemma Username_set_login t ip u : Username (set_login t ip u) = Username u.
Proof. by destruct u. Qed.

Lemma Username_with_login wtmp u : Username (with_login wtmp u) = Username u.
Proof. unfold with_login. destruct (last _); [apply Username_set_login|done]. Qed.

Lemma foldl_login (ls : list utmp) u :
  foldl (λ u l, set_login (itoa (tSec l)) (IP_String (tAddr l)) u) u ls =
  match last ls with Some l => set_login (itoa (tSec l)) (IP_String (tAddr l)) u | None => u end.
Proof.
  induction ls as [|l ls IH] using rev_ind; [done|]. rewrite foldl_app, last_snoc. cbn [foldl]. rewrite IH.
  destruct (last ls); [by destruct u|done].
Qed.

Lemma login_lookup m ls k :
  foldl login m ls !! k =
  (λ u, match last (filter (λ l, tUser l = k) ls) with Some l => set_login (itoa (tSec l)) (IP_String (tAddr l)) u | None => u end) <$> m !! k.
Proof.
  rewrite (foldl_ext login (update_at tUser (λ l u, set_login (itoa (tSec l)) (IP_String (tAddr l)) u))) by done.
  rewrite foldl_update_at. destruct (m !! k); [|done]. simpl. by rewrite foldl_login.
Qed.

Lemma shadow_lookup m text k :
  foldl shadow m (scan_lines text) !! k =
  (λ u, foldl (λ u fs, set_shadow fs u) u (filter (λ fs, field fs 0 = k) (shadow_lines text))) <$> m !! k.
Proof.
  rewrite <-(foldl_update_at (λ fs, field fs 0) set_shadow). unfold shadow_lines. f_equal. revert m.
  induction (scan_lines text) as [|line ls IH]; intros m; [done|]. rewrite fmap_cons, filter_cons. cbn [foldl]. unfold shadow at 2.
  destruct (decide (length (str_split ":" line) < 2)); [rewrite decide_False by lia; apply IH|].
  rewrite decide_True by lia. cbn [foldl]. rewrite IH. done.
Qed.

Lemma passwd_users_map seq text :
  NoDup ((λ line, Username (passwd_user seq line)) <$> scan_lines text) →
  passwd_users seq text = list_to_map ((λ line, (Username (passwd_user seq line), passwd_user seq line)) <$> scan_lines text).
Proof.
  unfold passwd_users. induction (scan_lines text) as [|line ls IH] using rev_ind; intros Hnd; [done|].
  rewrite fmap_app in Hnd. apply NoDup_app in Hnd as (Hnd & Hx & _). rewrite foldl_app. cbn [foldl]. rewrite IH by done.
  rewrite fmap_app, list_to_map_app. simpl. apply map_eq. intros k.
  destruct (decide (Username (passwd_user seq line) = k)) as [<-|Hne].
  - rewrite lookup_union_r; [by rewrite !lookup_insert_eq|].
    apply not_elem_of_list_to_map_1. intros (y & Hy & Hin)%list_elem_of_fmap.
    apply list_elem_of_fmap in Hin as (l' & -> & Hl'). apply (Hx (Username (passwd_user seq line))).
    + rewrite Hy. by apply (list_elem_of_fmap_2 (λ line, Username (passwd_user seq line))).
    + by apply list_elem_of_singleton.
  - rewrite lookup_insert_ne by done. by rewrite lookup_union_l by by rewrite lookup_insert_ne.
Qed.

Lemma accounts_map seq passwd wtmp shadow_text :
  NoDup ((λ line, Username (passwd_user seq line)) <$> scan_lines passwd) →
  accounts seq passwd wtmp shadow_text =
  list_to_map ((λ line, (Username (passwd_user seq line), account_of seq wtmp shadow_text line)) <$> scan_lines passwd).
Proof.
  intros Hnd. apply map_eq. intros k. unfold accounts. rewrite shadow_lookup, login_lookup, passwd_users_map by done. clear Hnd.
  induction (scan_lines passwd) as [|line ls IH]; [done|]. rewrite !fmap_cons. simpl.
  destruct (decide (Username (passwd_user seq line) = k)) as [Hk|Hk].
  - rewrite <-Hk, !lookup_insert_eq. simpl. f_equal. unfold account_of, with_shadow. by rewrite Username_with_login.
  - by rewrite !lookup_insert_ne.
Qed.

(** With one line for each name in passwd, the handler sends one record for each line: the
    fields of the line, the last login under the name in wtmp, and the verdict on the hash
    in shadow. *)
Theorem accounts_reported clock seq pkg passwd wtmp shadow_text sudo :
  NoDup ((λ line, Username (passwd_user seq line)) <$> scan_lines passwd) →
  Handle clock seq pkg passwd wtmp shadow_text sudo ≡ₚ
  (λ line, user_record clock pkg sudo (account_of seq wtmp shadow_text line)) <$> scan_lines passwd.
Proof.
  intros Hnd. unfold Handle. rewrite accounts_map by done. rewrite range_kv_perm, map_to_list_to_map.
  - by rewrite <-!list_fmap_compose.
  - rewrite <-list_fmap_compose. exact Hnd.
Qed.

End accounts.

(** ** A host *)

Definition w_Generate (method w s : string) : option string := Some (s +:+ "$" +:+ w).
Definition w_words : string := unlines ["123456"; "toor"].

Lemma weak_password_found_witness : (verifyWeak w_Generate w_words "$6$ab$toor").1 = "true".
Proof.
  apply (weak_password_found w_Generate w_words "6" "ab" "toor"); [by right|done|]. exists "toor".
  split; [|done]. vm_compute. right. left.
Defined.

(** With a number of rounds in the hash, the words are hashed with the rounds for the salt,
    so that no word of the list is found. *)
Lemma rounds_for_salt Generate words h :
  verifyWeak Generate words ("$6$rounds=5000$ab$" +:+ h) =
  try_words Generate "6" "rounds=5000" ("$6$rounds=5000$ab$" +:+ h) (scan_lines words).
Proof.
  unfold verifyWeak.
  assert (str_split "$" ("$6$rounds=5000$ab$" +:+ h) = "" :: "6" :: "rounds=5000" :: "ab" :: str_split "$" h) as ->.
  { transitivity (str_split (String "$" "") ("" +:+ String "$" ("6" +:+ String "$" ("rounds=5000" +:+ String "$" ("ab" +:+ String "$" h)))));
      [done|]. by rewrite !str_split_char. }
  by rewrite decide_False by (simpl; lia).
Qed.

(** The address of a login from 10.1.2.0 loses its last byte. *)
Lemma address_cut : trim_zeros ([u8 10; u8 1; u8 2; u8 0] ++ zeros 12) = [u8 10; u8 1; u8 2].
Proof. by vm_compute. Qed.

Definition w_passwd : string := unlines ["root:x:0:0:root:/root:/bin/bash"; "bin:x:1:1::/:/sbin/nologin"].

Lemma accounts_reported_witness :
  Handle w_Generate w_words (λ _, "g") (λ _, "") (λ l m, list_to_map l) 5 "now" "s" w_passwd [] (unlines ["root:$6$ab$toor:1:0"]) (λ _, inr "") ≡ₚ
  (λ line, user_record (λ l m, list_to_map l) 5 "s" (λ _, inr "")
     (account_of w_Generate w_words (λ _, "g") (λ _, "") "now" [] (unlines ["root:$6$ab$toor:1:0"]) line)) <$> scan_lines w_passwd.
Proof.
  apply (accounts_reported w_Generate w_words (λ _, "g") (λ _, "") (λ l m, list_to_map l) 5 "now" "s" w_passwd []
    (unlines ["root:$6$ab$toor:1:0"]) (λ _, inr "")).
  vm_compute. apply NoDup_cons. split; [by intros ?%list_elem_of_singleton|apply NoDup_singleton].
Defined.

End Accounts.
