(* ===== verification/Units.v ===== *)
(** * Scheduled commands, services and kernel modules of a host

    Models [plugins/collector/cron.go], [service.go], [kmod.go] and [net_interface.go].  The
    walk over a directory, the contents of files and their checksums are parameters. *)

From Stdlib Require Import Ascii.
From S2P Require Import Prelude GoStrings GoText GoPath Bridge.
From stdpp Require Import options.

Module Units.

(** An entry of a directory that [godirwalk] visits. *)
Record Dirent := mkDirent { dName : string; IsDirOrSymlinkToDir : bool + string; IsRegular : bool; IsSymlink : bool }.

(** The host: the entries below a directory in the order of the walk, with their paths, the
    contents of a file, and its checksum ([utils.GetMd5], empty if it fails). *)
Class Files := {
  Walk : string → list (string * Dirent);
  Open : string → string + string;
  GetMd5 : string → string;
  (** [mapstructure.Decode] of a structure into a map. *)
  Decode : list (string * string) → gmap string string → gmap string string
}.

(** [mapstructure.Decode] puts every field under its tag. *)
Class DecodeLaw `{Files} := decode_lookup l m k : Decode l m !! k = match (list_to_map l : gmap string string) !! k with Some v => Some v | None => m !! k end.

Definition record (dt clock : Z) (seq : string) (fields : gmap string string) : Bridge.Record_ :=
  Bridge.mkRecord dt clock (Some (Bridge.mkPayload (<["package_seq" := seq]> fields))).

(** ** cron *)

Record Crontab := mkCrontab { cPath : string; cUsername : string; Schedule : string; cCommand : string; cChecksum : string }.

(** A line of a table, with a column for the user if [wu]. *)
Definition cron_line (wu : bool) (path md5 : string) (text : string) : option Crontab :=
  let line := trim_space text in
  if decide (line = "") then None
  else if has_prefix "#" line then None
  else
    let fields := str_fields line in
    let join := str_join " " in
    if has_prefix "@" line then
      if wu then
        if decide (length fields < 3) then None
        else Some (mkCrontab path (default "" (fields !! 1)) (default "" (fields !! 0)) (join (drop 2 fields)) md5)
      else
        if decide (length fields < 2) then None
        else Some (mkCrontab path path (default "" (fields !! 0)) (join (drop 1 fields)) md5)
    else
      if wu then
        if decide (length fields < 7) then None
        else Some (mkCrontab path (default "" (fields !! 5)) (join (take 5 fields)) (join (drop 6 fields)) md5)
      else
        if decide (length fields < 6) then None
        else Some (mkCrontab path (path_base path) (join (take 5 fields)) (join (drop 5 fields)) md5).

Section units.
Context `{Files}.

Definition parseCrontab (wu : bool) (path : string) : list Crontab + string :=
  match Open path with
  | inr err => inr err
  | inl text => inl (omap (cron_line wu path (GetMd5 path)) (scan_lines (str_limit (1024 * 1024) text)))
  end.

Definition crontab_fields (c : Crontab) : list (string * string) :=
  [("path", cPath c); ("username", cUsername c); ("schedule", Schedule c); ("command", cCommand c); ("checksum", cChecksum c)].

Definition cron_dir (wu : bool) (clock : Z) (seq : string) (dir : string) : list Bridge.Record_ :=
  e ← Walk dir;
  match IsDirOrSymlinkToDir e.2 with
  | inl false => match parseCrontab wu e.1 with
                 | inl cs => (λ ct, record 5053 clock seq (Decode (crontab_fields ct) ∅)) <$> cs
                 | inr _ => []
                 end
  | _ => []
  end.

Definition CronHandle (clock : Z) (seq : string) : list Bridge.Record_ :=
  cron_dir false clock seq "/var/spool/cron" ++ cron_dir true clock seq "/etc/cron.d".

(** ** Services *)

Definition SearchDir : list string :=
  ["/etc/systemd/system.control"; "/run/systemd/system.control"; "/run/systemd/transient";
   "/run/systemd/generator.early"; "/etc/systemd/system"; "/run/systemd/system";
   "/run/systemd/generator"; "/usr/local/lib/systemd/system"; "/usr/lib/systemd/system"; "/run/systemd/generator.late"].

Record Service := mkService {
  sName : string; sType : string; sCommand : string; Restart : string; WorkingDir : string; sChecksum : string; BusName : string }.

Definition SetDefault (s : Service) : Service :=
  let 'mkService n t c r w k b := s in
  if decide (c ≠ "" ∧ t = "" ∧ b = "") then mkService n "simple" c r w k b
  else if decide (c = "" ∧ t = "") then mkService n "oneshot" c r w k b
  else if decide (t = "" ∧ b ≠ "") then mkService n "dbus" c r w k b
  else s.

Definition service_line (s : Service) (line : string) : Service :=
  match str_split "=" line with
  | [k; v] =>
      let 'mkService n t c r w ck b := s in
      let key := trim_space k in
      if decide (key = "Type") then mkService n (trim_space v) c r w ck b
      else if decide (key = "ExecStart") then mkService n t (trim_space v) r w ck b
      else if decide (key = "Restart") then mkService n t c (if decide (r = "no") then "false" else "true") w ck b
      else if decide (key = "WorkingDirectory") then mkService n t c r (trim_space v) ck b
      else s
  | _ => s
  end.

Definition service_of (name path text : string) : Service :=
  let 'mkService n t c r w _ b :=
    foldl service_line (mkService name "" "" "false" "" "" "") (scan_lines (str_limit (1024 * 1024) text)) in
  SetDefault (mkService n t c r w (GetMd5 path) b).

Definition service_fields (s : Service) : list (string * string) :=
  [("name", sName s); ("type", sType s); ("command", sCommand s); ("restart", Restart s); ("working_dir", WorkingDir s);
   ("checksum", sChecksum s); ("bus_name", BusName s)].

(** A unit file that can be opened. *)
Definition unit_of (e : string * Dirent) : option Service :=
  if has_suffix ".service" (dName e.2) && (IsRegular e.2 || IsSymlink e.2) then
    match Open e.1 with inl text => Some (service_of (dName e.2) e.1 text) | inr _ => None end
  else None.

Definition service_step (st : gset string * list Service) (e : string * Dirent) : gset string * list Service :=
  let '(set, out) := st in
  if decide (dName e.2 ∈ set) then st
  else match unit_of e with Some u => ({[dName e.2]} ∪ set, out ++ [u]) | None => st end.

Definition services : list Service := (foldl service_step (∅, []) (SearchDir ≫= Walk)).2.

Definition ServiceHandle (clock : Z) (seq : string) : list Bridge.Record_ :=
  (λ u, record 5054 clock seq (Decode (service_fields u) ∅)) <$> services.

(** ** Kernel modules and interfaces *)

Definition kmod_fields (line : string) : option (gmap string string) :=
  match str_fields line with
  | a :: b :: c :: d :: e :: f :: _ =>
      Some {["name" := a; "size" := b; "refcount" := c; "used_by" := d; "state" := e; "addr" := f]}
  | _ => None
  end.

Definition KmodHandle (clock : Z) (seq : string) : list Bridge.Record_ :=
  match Open "/proc/modules" with
  | inr _ => []
  | inl text => record 5062 clock seq <$> omap kmod_fields (scan_lines text)
  end.

Record Interface := mkInterface { ifName : string; HardwareAddr : string; Index : Z; MTU : Z; Addrs : list string + string }.

Definition NetInterfaceHandle (ifs : list Interface + string) (clock : Z) (seq : string) : list Bridge.Record_ :=
  match ifs with
  | inr _ => []
  | inl ifs =>
      omap (λ nf, match Addrs nf with
                  | inr _ => None
                  | inl addrs => Some (record 5059 clock seq
                      {["name" := ifName nf; "hardware_addr" := HardwareAddr nf; "addrs" := str_join "," addrs;
                        "index" := itoa (Index nf); "mtu" := itoa (MTU nf)]})
                  end) ifs
  end.

(** ** The entries of a table are read *)

Inductive entry := Comment (text : string) | Command (sched : list string) (user : option string) (cmd : list string).

Definition render (e : entry) : string :=
  match e with
  | Comment text => "#" +:+ text
  | Command sched user cmd => str_join " " (sched ++ option_list user ++ cmd)
  end.

Definition first_char (s : string) : option ascii := match s with String c _ => Some c | "" => None end.

(** A time is five words, or one that starts with [@]; with [wu] every entry has a user. *)
Definition entry_ok (wu : bool) (e : entry) : Prop :=
  match e with
  | Comment text => is_trimmed ("#" +:+ text)
  | Command sched user cmd =>
      Forall is_word (sched ++ option_list user ++ cmd) ∧ cmd ≠ [] ∧ (is_Some user ↔ wu = true) ∧
      ((∃ s, sched = [s] ∧ first_char s = Some "@"%char) ∨
       (length sched = 5 ∧ ∀ s, head sched = Some s → first_char s ≠ Some "@"%char ∧ first_char s ≠ Some "#"%char))
  end.

Definition crontab_of (path md5 : string) (e : entry) : option Crontab :=
  match e with
  | Comment _ => None
  | Command sched user cmd =>
      Some (mkCrontab path
              (match user with Some u => u | None => if decide (length sched = 1) then path else path_base path end)
              (str_join " " sched) (str_join " " cmd) md5)
  end.

Lemma has_prefix_first c s : has_prefix (String c "") s = bool_decide (first_char s = Some c).
Proof.
  unfold has_prefix. destruct s as [|d s]; simpl; [done|]. destruct (decide (c = d)) as [->|Hne].
  - by rewrite bool_decide_true.
  - rewrite bool_decide_false; [done|]. congruence.
Qed.

Lemma first_join w ws : w ≠ "" → first_char (str_join " " (w :: ws)) = first_char w.
Proof. intros Hw. destruct w as [|c w]; [done|]. by destruct ws. Qed.

Lemma cron_line_words wu path md5 ws w rest :
  ws = w :: rest → Forall is_word ws → first_char w ≠ Some "#"%char →
  cron_line wu path md5 (str_join " " ws) =
  (if bool_decide (first_char w = Some "@"%char) then
     if wu then if decide (length ws < 3) then None
                else Some (mkCrontab path (default "" (ws !! 1)) (default "" (ws !! 0)) (str_join " " (drop 2 ws)) md5)
     else if decide (length ws < 2) then None
          else Some (mkCrontab path path (default "" (ws !! 0)) (str_join " " (drop 1 ws)) md5)
   else
     if wu then if decide (length ws < 7) then None
                else Some (mkCrontab path (default "" (ws !! 5)) (str_join " " (take 5 ws)) (str_join " " (drop 6 ws)) md5)
     else if decide (length ws < 6) then None
          else Some (mkCrontab path (path_base path) (str_join " " (take 5 ws)) (str_join " " (drop 5 ws)) md5)).
Proof.
  intros Hws Hw Hf. pose proof (join_trimmed ws) as Ht. rewrite Hws in Ht. specialize (Ht ltac:(done)). rewrite <-Hws in Ht.
  specialize (Ht Hw). unfold cron_line. rewrite trim_space_trimmed by done. rewrite fields_join by done.
  rewrite decide_False by (intros E; by rewrite E in Ht; destruct Ht).
  assert (first_char (str_join " " ws) = first_char w) as Hfc.
  { rewrite Hws. apply first_join. rewrite Hws in Hw. by apply Forall_cons in Hw as [[? _] _]. }
  change "#" with (String "#" ""). change "@" with (String "@" ""). rewrite !has_prefix_first, Hfc.
  by rewrite (bool_decide_false (first_char w = Some "#"%char)).
Qed.

Lemma cron_entry wu path md5 e : entry_ok wu e → cron_line wu path md5 (render e) = crontab_of path md5 e.
Proof.
  destruct e as [text|sched user cmd]; simpl entry_ok.
  - intros Ht. unfold cron_line, render. rewrite trim_space_trimmed by done. by rewrite decide_False by done.
  - intros (Hw & Hc & Hu & Hs). destruct cmd as [|c cmd]; [done|]. cbn [render crontab_of].
    destruct Hs as [(s & -> & Hs)|[Hn Hs]].
    + rewrite (cron_line_words wu path md5 _ s (option_list user ++ c :: cmd)) by (done || congruence).
      rewrite bool_decide_true by done. destruct user as [u|], wu.
      * rewrite decide_False by (simpl; lia). done.
      * destruct Hu as [Hu _]. by specialize (Hu ltac:(eauto)).
      * destruct Hu as [_ Hu]. by destruct (Hu eq_refl).
      * rewrite decide_False by (simpl; lia). done.
    + destruct sched as [|s1 [|s2 [|s3 [|s4 [|s5 [|]]]]]]; try done. destruct (Hs s1 eq_refl) as [Ha Hh].
      rewrite (cron_line_words wu path md5 _ s1 ([s2; s3; s4; s5] ++ option_list user ++ c :: cmd)) by done.
      rewrite bool_decide_false by done. destruct user as [u|], wu.
      * rewrite decide_False by (simpl; lia). done.
      * destruct Hu as [Hu _]. by specialize (Hu ltac:(eauto)).
      * destruct Hu as [_ Hu]. by destruct (Hu eq_refl).
      * rewrite decide_False by (simpl; lia). done.
Qed.

(** The commands of a table are listed in order with their times and users; comments are
    left out. *)
Theorem crontab_read wu path es :
  Open path = inl (unlines (render <$> es)) → Forall (entry_ok wu) es → Forall is_line (render <$> es) →
  (Z.of_nat (String.length (unlines (render <$> es))) ≤ 1024 * 1024)%Z →
  parseCrontab wu path = inl (omap (crontab_of path (GetMd5 path)) es).
Proof.
  intros Ho He Hl Hn. unfold parseCrontab. rewrite Ho, str_limit_id, scan_unlines by done. f_equal. clear Ho Hl Hn.
  induction He as [|e es He Hes IH]; [done|]. rewrite fmap_cons. cbn [omap list_omap]. rewrite cron_entry by done.
  destruct (crontab_of path (GetMd5 path) e); [f_equal|]; exact IH.
Qed.

(** ** Each service once *)

Lemma service_line_name s l : sName (service_line s l) = sName s.
Proof. unfold service_line. destruct s. repeat case_match; done. Qed.

Lemma unit_of_name e u : unit_of e = Some u → sName u = dName e.2.
Proof.
  unfold unit_of. destruct (_ && _); [|done]. destruct (Open e.1) as [text|]; [|done]. intros [= <-]. unfold service_of.
  assert (∀ ls s, sName (foldl service_line s ls) = sName s) as Hf.
  { induction ls as [|l ls IH]; intros s; [done|]. cbn [foldl]. by rewrite IH, service_line_name. }
  specialize (Hf (scan_lines (str_limit (1024 * 1024) text)) (mkService (dName e.2) "" "" "false" "" "" "")).
  destruct (foldl _ _ _). simpl in *. subst. unfold SetDefault. repeat case_decide; done.
Qed.

(** [e] is the first file of its name that can be opened. *)
Definition first_unit (l : list (string * Dirent)) (u : Service) : Prop :=
  ∃ l1 e l2, l = l1 ++ e :: l2 ∧ unit_of e = Some u ∧ ∀ e', e' ∈ l1 → dName e'.2 = dName e.2 → unit_of e' = None.

Lemma services_foldl l :
  let st := foldl service_step (∅, []) l in
  (∀ n, n ∈ st.1 ↔ n ∈ sName <$> st.2) ∧ NoDup (sName <$> st.2) ∧
  (∀ u, u ∈ st.2 ↔ first_unit l u) ∧ (∀ e, e ∈ l → unit_of e ≠ None → dName e.2 ∈ st.1).
Proof.
  induction l as [|e l IH] using rev_ind; cbv zeta.
  - simpl. split_and!; [|apply NoDup_nil_2| |by intros e ?%elem_of_nil].
    + intros n. split; [by intros ?%elem_of_empty|by intros ?%elem_of_nil].
    + intros u. split; [by intros ?%elem_of_nil|]. intros (l1 & e & l2 & E & _). by destruct l1.
  - rewrite foldl_app. cbn [foldl]. destruct (foldl service_step (∅, []) l) as [set out]. cbn [fst snd] in *.
    destruct IH as (Hset & Hnd & Hout & Hall).
    assert (∀ u, first_unit l u → first_unit (l ++ [e]) u) as Hmono.
    { intros u (l1 & x & l2 & -> & Hx). exists l1, x, (l2 ++ [e]). by rewrite <-app_assoc. }
    assert (∀ u, first_unit (l ++ [e]) u → first_unit l u ∨ (unit_of e = Some u ∧ ∀ x, x ∈ l → dName x.2 = dName e.2 → unit_of x = None)) as Hinv.
    { intros u (l1 & x & l2 & E & Hx & Hf). destruct l2 as [|y l2 _] using rev_ind.
      - apply app_inj_tail in E as [-> ->]. by right.
      - left. rewrite app_comm_cons, app_assoc in E. apply app_inj_tail in E as [-> ->]. by exists l1, x, l2. }
    unfold service_step. case_decide as Hin; [|destruct (unit_of e) as [u|] eqn:Hu]; cbn [fst snd].
    + split_and!; [done..| |].
      * intros u. rewrite Hout. split; [apply Hmono|]. intros [|[Hu Hno]]%Hinv; [done|]. exfalso.
        apply Hset in Hin. apply list_elem_of_fmap in Hin as (v & Hv & (l1 & x & l2 & -> & Hx & _)%Hout).
        rewrite (Hno x) in Hx; [done|set_solver|]. by rewrite Hv, (unit_of_name _ _ Hx).
      * intros x [?|?%list_elem_of_singleton]%elem_of_app Hx; [by apply Hall|by subst].
    + split_and!.
      * intros n. rewrite fmap_app, elem_of_app, elem_of_union, elem_of_singleton, Hset. simpl.
        rewrite list_elem_of_singleton, (unit_of_name _ _ Hu). tauto.
      * rewrite fmap_app. apply NoDup_app. split_and!; [done| |apply NoDup_singleton]. intros n Hn Hn'%list_elem_of_singleton.
        subst n. rewrite (unit_of_name _ _ Hu) in Hn. by apply Hset in Hn.
      * intros v. rewrite elem_of_app, list_elem_of_singleton, Hout. split.
        -- intros [?| ->]; [by apply Hmono|]. exists l, e, []. split_and!; [done|done|]. intros x Hx Hnm.
           destruct (unit_of x) eqn:E; [|done]. exfalso. apply Hin. rewrite <-Hnm. apply Hall; [done|by rewrite E].
        -- intros [?|[? _]]%Hinv; [by left|right; congruence].
      * intros x [?|?%list_elem_of_singleton]%elem_of_app Hx; rewrite elem_of_union, elem_of_singleton; [right; by apply Hall|left; by subst].
    + split_and!; [done..| |].
      * intros u. rewrite Hout. split; [apply Hmono|]. by intros [|[? _]]%Hinv.
      * intros x [?|?%list_elem_of_singleton]%elem_of_app Hx; [by apply Hall|by subst].
Qed.

(** Every service is listed once, from the first file of its name in the order of the
    directories, as the service manager resolves it. *)
Theorem services_once :
  NoDup (sName <$> services) ∧ ∀ u, u ∈ services ↔ first_unit (SearchDir ≫= Walk) u.
Proof. unfold services. destruct (services_foldl (SearchDir ≫= Walk)) as (_ & ? & ? & _). done. Qed.

End units.

(** ** A host *)

Definition w_entries : list entry :=
  [Comment " jobs"; Command ["@daily"] None ["/bin/x"]; Command ["0"; "*"; "*"; "*"; "*"] None ["run"; "-a"]].

Definition w_files : Files := {|
  Walk d := if decide (d = "/etc/systemd/system") then [("/etc/systemd/system/a.service", mkDirent "a.service" (inl false) true false)] else [];
  Open p := if decide (p = "/var/spool/cron/root") then inl (unlines (render <$> w_entries))
            else if decide (p = "/etc/systemd/system/a.service")
            then inl (unlines ["[Service]"; "ExecStart=/bin/d --level=2"; "Restart=no"]) else inr "no such file";
  GetMd5 _ := "d41d"; Decode l _ := list_to_map l |}.

Lemma crontab_read_witness :
  @parseCrontab w_files false "/var/spool/cron/root" =
  inl [mkCrontab "/var/spool/cron/root" "/var/spool/cron/root" "@daily" "/bin/x" "d41d";
       mkCrontab "/var/spool/cron/root" "root" "0 * * * *" "run -a" "d41d"].
Proof.
  apply (@crontab_read w_files false "/var/spool/cron/root" w_entries); [done| | |by vm_compute].
  - unfold w_entries. rewrite !Forall_cons, Forall_nil. split_and!; [by apply (bool_decide_unpack _)|..|done].
    + split_and!; [by apply (bool_decide_unpack _)|done|split; [by intros []|done]|left; by exists "@daily"].
    + split_and!; [by apply (bool_decide_unpack _)|done|split; [by intros []|done]|right; split; [done|]]. by intros s [= <-].
  - apply (bool_decide_unpack _). by vm_compute.
Defined.

(** A command with [=] in its arguments is not read, and a service that is not to be
    restarted is reported as restarted: the test looks at the default. *)
Lemma service_misread :
  @services w_files = [mkService "a.service" "oneshot" "" "true" "" "d41d" ""].
Proof. by vm_compute. Qed.

End Units.
