(* ===== verification/Software.v ===== *)
(** * Software of a host

    Models [plugins/collector/software.go]: the packages of dpkg, of RPM (read by the
    modules of [Rpm]), of Python and the archives of running Java programs.  What the walks
    over directories return, the contents of files and the processes are parameters. *)

From Stdlib Require Import Ascii.
From S2P Require Import Prelude GoStrings GoText GoPath Bridge Engine Procfs Units Rpm.
From stdpp Require Import options.

Module Software.
Import Units.

Record Software := mkSoftware {
  swSeq : string; swName : string; swVersion : string; swType : string; Source : string; Status : string; swVendor : string;
  ComponentVersion : string; swPid : string; swPodName : string; swPsm : string; PackageSeq : string }.

Definition software_fields (s : Software) : list (string * string) :=
  [("seq", swSeq s); ("name", swName s); ("sversion", swVersion s); ("type", swType s); ("source", Source s); ("status", Status s);
   ("vendor", swVendor s); ("component_version", ComponentVersion s); ("pid", swPid s); ("pod_name", swPodName s); ("psm", swPsm s);
   ("package_seq", PackageSeq s)].

(** ** dpkg *)

(** The tokens of the status file: a package up to the newline before the next one. *)
Definition package_sep : string := newline +:+ "Package: ".
Definition stanzas (text : string) : list string := scan_sep 1 package_sep (str_limit (25 * 1024 * 1024) text).

Definition dpkg_line (s : Software) (line : string) : Software :=
  match str_splitn 2 ": " line with
  | [k; v] =>
      let 'mkSoftware sq n ve ty so st vd cv pi po ps pk := s in
      if decide (k = "Package") then mkSoftware sq v ve ty so st vd cv pi po ps pk
      else if decide (k = "Version") then mkSoftware sq n v ty so st vd cv pi po ps pk
      else if decide (k = "Source") then mkSoftware sq n ve ty v st vd cv pi po ps pk
      else if decide (k = "Status") then mkSoftware sq n ve ty so v vd cv pi po ps pk
      else s
  | _ => s
  end.

Definition dpkg_package (seq token : string) : Software :=
  foldl dpkg_line (mkSoftware seq "" "" "dpkg" "" "" "" "" "" "" "" "") (str_split newline token).

(** ** Python and Java *)

(** Always one to three pieces, so the error case of the code is not reached. *)
Definition parsePypiName (name seq : string) : Software + string :=
  let n := trim_suffix ".dist-info" (trim_suffix ".egg-info" name) in
  let mk a b c := inl (mkSoftware seq a b "pypi" "" "" "" c "" "" "" "") in
  match str_splitn 3 "-" n with
  | [a] => mk a "" ""
  | [a; b] => mk a b ""
  | [a; b; c] => mk a b c
  | _ => inr "unknown format"
  end.

Definition is_pypi (name : string) : bool := has_suffix ".egg-info" name || has_suffix ".dist-info" name.

(** [VersionReg.FindStringIndex]: before the first hyphen that a digit follows. *)
Fixpoint find_version (s : string) : option (string * string) :=
  match s with
  | "" => None
  | String c r =>
      match c, r with
      | "-"%char, String d _ => if is_digit d then Some ("", r) else (λ p, (String c p.1, p.2)) <$> find_version r
      | _, _ => (λ p, (String c p.1, p.2)) <$> find_version r
      end
  end.

Definition parseJarFilename (fn : string) : string * string := match find_version fn with Some p => p | None => (fn, "") end.

(** [filepath.Base(n[:len(n)-4])] of a name that ends with [.jar]. *)
Definition jar_base (n : string) : string := path_base (str_take (String.length n - 4) n).

(** A file of an archive: its name, and the lines its reader yields if it can be opened. *)
Record zfile := mkZfile { zName : string; zLines : option (list string) }.

Definition impl_version : string := "Implementation-Version:".
Definition manifest_version (ls : list string) : option string :=
  head (omap (λ l, trim_space <$> strip_prefix impl_version l) ls).

Definition set3 (name version path : string) (m : gmap string string) : gmap string string :=
  <["path" := path]> (<["sversion" := version]> (<["name" := name]> m)).

(** The walk of [findJar]: the fields of the shared record each time it is sent, the version
    found so far, and the fields at the end. *)
Fixpoint jar_files (archive : string) (fs : list zfile) (version : string) (m : gmap string string) :
    list (gmap string string) * string * gmap string string :=
  match fs with
  | [] => ([], version, m)
  | f :: fs =>
      let '(sent, m) :=
        if has_suffix ".jar" (zName f) then
          let '(n, v) := parseJarFilename (jar_base (zName f)) in
          let m := set3 n v (path_Join archive (zName f)) m in ([m], m)
        else ([], m) in
      let version :=
        if decide (version = "" ∧ zName f = "META-INF/MANIFEST.MF") then
          match zLines f with Some ls => default version (manifest_version ls) | None => version end
        else version in
      let '(out, version, m) := jar_files archive fs version m in (sent ++ out, version, m)
  end.

Definition findJar (archive fn : string) (fs : list zfile) (m : gmap string string) : list (gmap string string) :=
  let '(name, version) := parseJarFilename (jar_base fn) in
  let '(out, version, m) := jar_files archive fs version m in out ++ [set3 name version archive m].

(** ** The handler *)

Section software.
Context `{Files, Procfs.Proc}.
(** Opening an archive, and the packages [rpm.OpenDatabase] and [WalkPackages] give. *)
Context (OpenReader : string → list zfile + string) (rpms : list Rpm.Package).

Definition dpkg_records (clock : Z) (now seq : string) : list Bridge.Record_ :=
  match Open "/var/lib/dpkg/status" with
  | inr _ => []
  | inl text => (λ t, record 5055 clock seq (Decode (software_fields (dpkg_package now t)) ∅)) <$> stanzas text
  end.

Definition rpm_records (clock : Z) (now seq : string) : list Bridge.Record_ :=
  (λ p, record 5055 clock seq {["seq" := now; "type" := "rpm"; "name" := Rpm.Name p; "sversion" := Rpm.Version p;
           "source_rpm" := Rpm.SourceRpm p; "vendor" := Rpm.Vendor p]}) <$> rpms.

Definition pypi_record (clock : Z) (now seq name : string) : list Bridge.Record_ :=
  if is_pypi name then
    match parsePypiName name now with inl s => [record 5055 clock seq (Decode (software_fields s) ∅)] | inr _ => [] end
  else [].

(** The directories a [.pth] file names. *)
Definition pth_dirs (e : string * Dirent) : list string :=
  if has_suffix ".pth" (dName e.2) then
    match Open e.1 with
    | inr _ => []
    | inl text => filter (λ d, has_prefix "/" d && has_prefix "/usr" d && (str_contains "site-packages" d || str_contains "dist-packages" d) = true)
                    (scan_lines (str_limit (1024 * 1024) text))
    end
  else [].

(** [each] is the order in which the set of directories is visited. *)
Definition pypi_records (each : gset string → list string) (clock : Z) (now seq : string) : list Bridge.Record_ :=
  (e ← Walk "/usr"; pypi_record clock now seq (dName e.2)) ++
  (d ← each (list_to_set (Walk "/usr" ≫= pth_dirs)); e ← Walk d; pypi_record clock now seq (dName e.2)).

(** The fields shared by the archives of a process. *)
Definition java_fields (cache : Engine.Cache) (now seq : string) (p : Procfs.Process) : gmap string string * Procfs.Process :=
  let inside := match Procfs.Namespace p "pid" with
                | inl pns => if Procfs.PnsDiffWithRpns pns then Some pns else None
                | inr _ => None
                end in
  let env keys := match inside, Procfs.Envs p with
                  | Some _, (e, None) => foldr (λ k acc, match e !! k with Some v => v | None => acc end) "" keys
                  | _, _ => ""
                  end in
  let ctr k := match inside with Some pns => default "" (Engine.Get 5056 ("pns" +:+ pns) cache ≫= (.!! k)) | None => "" end in
  let '(cmd, p') := Procfs.Cmdline p in
  ({["seq" := now; "type" := "jar"; "psm" := env ["LOAD_SERVICE_PSM"; "TCE_PSM"; "RUNTIME_PSM"]; "pod_name" := env ["POD_NAME"; "MY_POD_NAME"];
     "container_id" := ctr "container_id"; "container_name" := ctr "container_name";
     "cmdline" := match cmd with inl s => s | inr _ => "" end; "pid" := Procfs.pid p; "package_seq" := seq]}, p').

(** The archives a process has open, less those of the run-time itself. *)
Definition skip_jar (fn : string) : bool :=
  bool_decide (path_base fn ≠ "rt.jar") && (str_contains "jdk" fn || str_contains "jre" fn).

Fixpoint java_fds (pid : string) (fds : list string) (set : gset string) (m : gmap string string) : list (gmap string string) :=
  match fds with
  | [] => []
  | fn :: fds =>
      if decide (path_ext fn = ".jar") then
        if decide (fn ∈ set) then java_fds pid fds set m
        else if skip_jar fn then java_fds pid fds set m
        else
          let path := Procfs.path_join ["/proc"; pid; "root"; fn] in
          match OpenReader path with
          | inl fs => let out := findJar path fn fs m in out ++ java_fds pid fds ({[fn]} ∪ set) (default m (last out))
          | inr _ => java_fds pid fds ({[fn]} ∪ set) m
          end
      else java_fds pid fds set m
  end.

Definition java_records (clock : Z) (cache : Engine.Cache) (now seq : string) (p : Procfs.Process) : list Bridge.Record_ :=
  match Procfs.Comm_ p with
  | (inl cm, p) =>
      if decide (cm = "java") then
        let '(m, p) := java_fields cache now seq p in
        match Procfs.Fds p with
        | inl fds => (λ m, Bridge.mkRecord 5055 clock (Some (Bridge.mkPayload m))) <$> java_fds (Procfs.pid p) fds ∅ m
        | inr _ => []
        end
      else []
  | (inr _, _) => []
  end.

Definition SoftwareHandle (each : gset string → list string) (clock : Z) (cache : Engine.Cache) (now seq : string) : list Bridge.Record_ :=
  dpkg_records clock now seq ++ rpm_records clock now seq ++ pypi_records each clock now seq ++
  match Procfs.Processes false with
  | inr _ => []
  | inl procs => procs ≫= java_records clock cache now seq
  end.

End software.

(** ** Every package of the status file *)

(** The value of a field of a package: of the last line that has it. *)
Definition value (k : string) (ls : list string) : string :=
  default "" (last (omap (λ l, match str_cut ": " l with Some (a, b) => if decide (a = k) then Some b else None | None => None end) ls)).

Lemma value_snoc k ls l :
  value k (ls ++ [l]) = match str_cut ": " l with Some (a, b) => if decide (a = k) then b else value k ls | None => value k ls end.
Proof.
  unfold value. rewrite omap_app. cbn [omap list_omap]. destruct (str_cut ": " l) as [[a b]|]; [case_decide|]; rewrite ?app_nil_r; [|done..].
  by rewrite last_snoc.
Qed.

Lemma dpkg_values seq ls :
  foldl dpkg_line (mkSoftware seq "" "" "dpkg" "" "" "" "" "" "" "" "") ls =
  mkSoftware seq (value "Package" ls) (value "Version" ls) "dpkg" (value "Source" ls) (value "Status" ls) "" "" "" "" "" "".
Proof.
  induction ls as [|l ls IH] using rev_ind; [done|]. rewrite foldl_app, !value_snoc. cbn [foldl]. rewrite IH.
  unfold dpkg_line. cbn [str_splitn]. destruct (str_cut ": " l) as [[a b]|]; [|done].
  repeat (case_decide; simplify_eq; try done).
Qed.

(** A package in the file: its lines, of which the first and no other names the package. *)
Definition stanza_ok (g : list string) : Prop :=
  is_group "Package: " g ∧ (∃ r, str_join newline g = "Package: " +:+ r) ∧
  (Z.of_nat (String.length (str_join newline g)) + 10 ≤ MaxScanTokenSize)%Z.

(** The status file of dpkg gives one record for each package, with the values of its
    lines. *)
Theorem dpkg_listed `{DecodeLaw} clock now seq gs :
  Open "/var/lib/dpkg/status" = inl (join_groups gs) → gs ≠ [] → Forall stanza_ok gs →
  (Z.of_nat (String.length (join_groups gs)) ≤ 25 * 1024 * 1024)%Z →
  Forall2 (λ g r, ∃ m, r = Bridge.mkRecord 5055 clock (Some (Bridge.mkPayload m)) ∧
      m !! "type" = Some "dpkg" ∧ m !! "name" = Some (value "Package" g) ∧ m !! "sversion" = Some (value "Version" g) ∧
      m !! "source" = Some (value "Source" g) ∧ m !! "status" = Some (value "Status" g) ∧ m !! "package_seq" = Some seq)
    gs (dpkg_records clock now seq).
Proof.
  intros Ho Hne Hgs Hn. unfold dpkg_records. rewrite Ho. unfold stanzas. rewrite str_limit_id by done. unfold package_sep.
  rewrite scan_groups; [|done..|eapply Forall_impl; [exact Hgs|]; by intros g (?&?&?)].
  rewrite <-list_fmap_compose. apply Forall2_fmap_r, Forall_Forall2_diag. eapply Forall_impl; [exact Hgs|].
  intros g (Hg & _ & _). unfold compose, dpkg_package. destruct g as [|h ls]; [done|]. destruct Hg as [Hl _].
  change newline with (String "010" ""). rewrite split_join by done. rewrite dpkg_values. eexists. split; [done|].
  assert (∀ k v m, k ≠ "package_seq" → (m : gmap string string) !! k = Some v → <["package_seq" := seq]> m !! k = Some v) as Hk
    by (intros; by rewrite lookup_insert_ne).
  split_and!; try (apply Hk; [done|]; rewrite decode_lookup; reflexivity). apply lookup_insert_eq.
Qed.

(** ** Names of Python packages and Java archives *)

(** A name of three parts is taken apart again. *)
Lemma pypi_roundtrip a b c e seq :
  lacks "-" a = true → lacks "-" b = true → e = ".egg-info" ∨ e = ".dist-info" →
  has_suffix ".dist-info" (a +:+ "-" +:+ b +:+ "-" +:+ c) = false →
  parsePypiName ((a +:+ "-" +:+ b +:+ "-" +:+ c) +:+ e) seq = inl (mkSoftware seq a b "pypi" "" "" "" c "" "" "" "").
Proof.
  intros Ha Hb He Hc. unfold parsePypiName.
  assert (trim_suffix ".dist-info" (trim_suffix ".egg-info" ((a +:+ "-" +:+ b +:+ "-" +:+ c) +:+ e)) = a +:+ "-" +:+ b +:+ "-" +:+ c) as ->.
  { set (n := a +:+ "-" +:+ b +:+ "-" +:+ c) in *. destruct He as [-> | ->].
    - rewrite trim_suffix_app. unfold trim_suffix. by rewrite Hc.
    - unfold trim_suffix at 2. destruct (has_suffix ".egg-info" (n +:+ ".dist-info")) eqn:E; [exfalso|apply trim_suffix_app].
      apply has_suffix_true in E as [r E].
      change ".dist-info" with (".dist" +:+ "-info") in E. change ".egg-info" with (".egg" +:+ "-info") in E.
      rewrite <-!str_app_assoc in E. apply str_app_inv_tail in E. apply (f_equal last_char) in E.
      by rewrite !last_char_app in E. }
  change ("-" +:+ b +:+ "-" +:+ c) with (String "-" (b +:+ String "-" c)). cbn [str_splitn].
  change "-" with (String "-" ""). rewrite str_cut_char by done. by rewrite str_cut_char.
Qed.

(** The version of an archive starts at the first hyphen before a digit. *)
Lemma jar_roundtrip n d v : find_version n = None → is_digit d = true → parseJarFilename (n +:+ "-" +:+ String d v) = (n, String d v).
Proof.
  intros Hn Hd. unfold parseJarFilename. assert (find_version (n +:+ "-" +:+ String d v) = Some (n, String d v)) as ->; [|done].
  induction n as [|c n IH]; [simpl; by rewrite Hd|].
  assert (find_version n = None ∧ (c = "-"%char → ∀ x r, n = String x r → is_digit x = false)) as [Hn' Hx].
  { cbn [find_version] in Hn. destruct (decide (c = "-"%char)) as [->|Hc].
    - destruct n as [|x r]; [done|]. destruct (is_digit x) eqn:Ex; [done|]. destruct (find_version (String x r)); [done|].
      split; [done|]. by intros _ y r' [= <- <-].
    - assert (find_version n = None) as H by (destruct c as [[] [] [] [] [] [] [] []], n; try done; by destruct (find_version _)).
      by split. }
  specialize (IH Hn'). change (String c n +:+ "-" +:+ String d v) with (String c (n +:+ "-" +:+ String d v)).
  cbn [find_version]. rewrite IH. destruct (decide (c = "-"%char)) as [->|Hc].
  - destruct n as [|x r]; [done|]. simpl. by rewrite (Hx eq_refl x r eq_refl).
  - by destruct c as [[] [] [] [] [] [] [] []], n.
Qed.

(** ** A host *)

Definition w_status : list (list string) :=
  [["Package: adduser"; "Status: install ok installed"; "Version: 3.118"; "Description: add users"; " more: text"; ""];
   ["Package: apt"; "Status: deinstall ok config-files"; "Source: apt-src"; "Version: 2.2.4"; ""; ""]].

Definition w_files : Files := {|
  Walk _ := []; Open p := if decide (p = "/var/lib/dpkg/status") then inl (join_groups w_status) else inr "no such file";
  GetMd5 _ := ""; Decode l m := list_to_map l ∪ m |}.

#[local] Instance w_decode : @DecodeLaw w_files.
Proof. intros l m k. cbn [Decode w_files]. rewrite lookup_union. by destruct (list_to_map l !! k), (m !! k). Qed.

Definition w_names : list (option string) :=
  (λ r, Bridge.Data r ≫= λ d, Bridge.Fields d !! "name") <$> @dpkg_records w_files 5 "now" "s".

Lemma dpkg_listed_witness : length (@dpkg_records w_files 5 "now" "s") = 2 ∧ w_names = [Some "adduser"; Some "apt"].
Proof.
  split; [|by vm_compute]. symmetry. eapply (Forall2_length _ w_status).
  apply (@dpkg_listed w_files w_decode 5 "now" "s" w_status); [done|done| |by vm_compute].
  unfold w_status. rewrite !Forall_cons, Forall_nil. split_and!; [..|done];
    (split_and!; [split; apply (bool_decide_unpack _); by vm_compute|eexists; by vm_compute|by vm_compute]).
Defined.

End Software.
