(* ===== verification/Inventory.v ===== *)
(** * Containers, integrity and processes

    Models [plugins/collector/container.go], [container/container.go], [integrity.go] and
    [process.go]: the handlers that work together through the cache of the engine.  The
    containers fill it with the namespaces of running containers, the verification of
    packaged programs with the paths of changed ones, and the list of processes looks both
    up.  The container runtimes, digests and the files that are verified are parameters. *)

From Stdlib Require Import Ascii.
From S2P Require Import Prelude GoStrings GoText GoPath Bridge Engine Procfs Units Rpm Software.
From stdpp Require Import options.

Local Open Scope Z_scope.

Module Inventory.
Import Units.

(** ** Containers *)

Record Container := mkContainer {
  ctrID : string; ctrName : string; ctrImageID : string; ctrImageName : string; ctrState : string; ctrPid : string; ctrPns : string;
  ctrRuntime : string; ctrCreateTime : string }.

Definition StateName : gmap Z string := {[0 := "created"; 1 := "running"; 2 := "exited"; 3 := "unknown"]}.
Definition RUNNING : Z := 1.

(** What the runtimes answer: an entry of the list, and the status or the inspection. *)
Record criContainer := mkCri { criId : string; criName : string; criImageRef : string; criImage : string; criState : Z; criCreatedAt : Z }.
(** The status: the process id in the verbose information if it has one that can be decoded,
    and the name of the image. *)
Record criStatus := mkCriStatus { criPid : option Z; criStatusImage : string }.
Record dockerContainer := mkDocker {
  dkID : string; dkImageID : string; dkImage : string; dkState : string; dkCreated : Z; dkNames : list string }.
Record dockerInspect := mkInspect { inName : string; inPid : Z }.

Section containers.
Context `{Procfs.Proc}.
Local Open Scope go_scope.

(** The pid namespace of a process. *)
Definition pns_of (pid : Z) : string :=
  if decide (0 < pid) then
    match Procfs.NewProcess (itoa pid) with
    | inl p => match Procfs.Namespace p "pid" with inl ns => ns | inr _ => "" end
    | inr _ => ""
    end
  else "".

Definition cri_container (status : string → criStatus + string) (c : criContainer) : Container :=
  let state := default "" (StateName !! criState c) in
  let image := trim_prefix "sha256:" (criImage c) in
  let '(pid, pns, image) :=
    if decide (state = "running") then
      match status (criId c) with
      | inl s =>
          let '(pid, pns) := match criPid s with Some n => (itoa n, pns_of n) | None => ("", "") end in
          (pid, pns, if decide (criStatusImage s ≠ "") then trim_prefix "sha256:" (criStatusImage s) else image)
      | inr _ => ("", "", image)
      end
    else ("", "", image) in
  mkContainer (criId c) (criName c) (trim_prefix "sha256:" (criImageRef c)) image state pid pns "cri"
    (itoa (Z.quot (criCreatedAt c) 1000000000)).

Definition docker_container (inspect : string → dockerInspect + string) (c : dockerContainer) : Container :=
  let '(name, pid, pns) :=
    match inspect (dkID c) with
    | inl i => if decide (dkState c = "running") then (trim_prefix "/" (inName i), itoa (inPid i), pns_of (inPid i))
               else (trim_prefix "/" (inName i), "", "")
    | inr _ => ("", "", "")
    end in
  let name := if decide (name = "") then default "" (head (dkNames c)) else name in
  mkContainer (dkID c) name (trim_prefix "sha256:" (dkImageID c)) (trim_prefix "sha256:" (dkImage c)) (dkState c) pid pns "docker"
    (itoa (dkCreated c)).

Definition container_fields (c : Container) : gmap string string :=
  {["id" := ctrID c; "name" := ctrName c; "state" := ctrState c; "image_id" := ctrImageID c; "image_name" := ctrImageName c;
    "pid" := ctrPid c; "pns" := ctrPns c; "runtime" := ctrState c; "create_time" := ctrCreateTime c]}.

Definition cached (c : Container) : bool :=
  bool_decide (ctrState c = "running" ∧ ctrPns c ≠ "") && Procfs.PnsDiffWithRpns (ctrPns c).

Fixpoint container_loop (clock : Z) (seq : string) (cs : list Container) (cache : Engine.Cache) :
    outcome (list Bridge.Record_ * Engine.Cache) :=
  match cs with
  | [] => Ret ([], cache)
  | c :: cs =>
      let! cache := if cached c
                    then Engine.Put 5056 (ctrPns c) {["container_id" := ctrID c; "container_name" := ctrName c]} cache
                    else Ret cache in
      let! (rs, cache) := container_loop clock seq cs cache in
      Ret (record 5056 clock seq (container_fields c) :: rs, cache)
  end.

(** The lists of the clients, one after the other; a client that fails is left out. *)
Definition ContainerHandle (clients : list (list Container + string)) (clock : Z) (seq : string) (cache : Engine.Cache) :
    outcome (list Bridge.Record_ * Engine.Cache) :=
  container_loop clock seq (l ← clients; match l with inl cs => cs | inr _ => [] end) cache.

End containers.

(** ** Integrity *)

(** [filepath.Dir]. *)
Definition path_dir (p : string) : string :=
  let l := str_split "/" p in
  path_Clean (if decide (length l ≤ 1)%nat then "" else str_join "/" (take (length l - 1) l) +:+ "/").

Definition bin_dirs : list string := ["/bin"; "/sbin"; "/usr/bin"; "/usr/sbin"; "/usr/local/bin"; "/usr/local/sbin"].
Definition isBin (path : string) : bool := bool_decide (path_ext path = "") && bool_decide (path_dir path ∈ bin_dirs).

Definition maxVerifyFileSize : Z := 100 * 1024 * 1024.

(** A file that can be opened: its size and time of change if [Stat] succeeds, what can be
    read of it, and whether reading ends with an error. *)
Record bin_file := mkBin { bStat : option (Z * Z); bContent : string; bFails : bool }.

(** The name and the version of a package. *)
Fixpoint name_version (lines : list string) (n v : string) : string * string :=
  match lines with
  | [] => (n, v)
  | line :: lines =>
      let '(n, v) := match str_splitn 2 ": " line with
                     | [k; x] => if decide (k = "Package") then (x, v) else if decide (k = "Version") then (n, x) else (n, v)
                     | _ => (n, v)
                     end in
      if decide (n ≠ "" ∧ v ≠ "") then (n, v) else name_version lines n v
  end.

Definition versions (text : string) : gmap string string :=
  foldl (λ m t, let '(n, v) := name_version (str_split newline t) "" "" in
                if decide (n ≠ "" ∧ v ≠ "") then <[n := v]> m else m) ∅ (Software.stanzas text).

Section integrity.
Context `{Files, Ranger}.
Context (ReadDir : string → list string + string) (bin : string → option bin_file).
(** The digests in hexadecimal, of MD5 and of an algorithm of RPM. *)
Context (md5 : string → string) (hash : Z → string → string).
Local Open Scope go_scope.

(** The digests of the programs in a [.md5sums] file. *)
Definition md5sums (text : string) : gmap string string :=
  foldl (λ m line, match str_fields line with
                   | [d; f] => let p := path_Join "/" f in if isBin p then <[p := d]> m else m
                   | _ => m
                   end) ∅ (scan_lines text).

Definition integrity_fields (pn digest odigest algo path version : string) (mtime : Z) : gmap string string :=
  {["software_name" := pn; "digest" := digest; "origin_digest" := odigest; "digest_algorithm" := algo; "exe" := path;
    "modify_time" := itoa mtime; "software_version" := version]}.

(** The state of the loops: what has been fed to the shared hash since it was last reset, the
    records, and the cache. *)
Record verify_state := mkVerify { hashed : string; sent : list Bridge.Record_; vcache : Engine.Cache }.

Definition verify_one (clock : Z) (seq pn version : string) (st : verify_state) (pd : string * string) : outcome verify_state :=
  let '(path, odigest) := pd in
  match bin path with
  | Some f =>
      match bStat f with
      | Some (size, mtime) =>
          if decide (size < maxVerifyFileSize) then
            let h := hashed st +:+ bContent f in
            if bFails f then Ret (mkVerify h (sent st) (vcache st))
            else
              let digest := md5 h in
              if decide (digest ≠ odigest) then
                let! c := Engine.Put 5057 path ∅ (vcache st) in
                Ret (mkVerify "" (sent st ++ [record 5057 clock seq (integrity_fields pn digest odigest "md5" path version mtime)]) c)
              else Ret (mkVerify "" (sent st) (vcache st))
          else Ret st
      | None => Ret st
      end
  | None => Ret st
  end.

Fixpoint ofoldl {A B} (f : A → B → outcome A) (a : A) (l : list B) : outcome A :=
  match l with [] => Ret a | x :: l => let! a := f a x in ofoldl f a l end.

Definition info_dir : string := "/var/lib/dpkg/info".

Definition verify_package (clock : Z) (seq : string) (nvm : gmap string string) (st : verify_state) (p : string) : outcome verify_state :=
  let pn := trim_suffix ".md5sums" (path_base p) in
  match nvm !! pn with
  | Some v =>
      match Open p with
      | inl text => ofoldl (verify_one clock seq pn v) st (range_kv "md5sums" (md5sums text))
      | inr _ => Ret st
      end
  | None => Ret st
  end.

Definition dpkg_verify (clock : Z) (seq text : string) (cache : Engine.Cache) : outcome verify_state :=
  match ReadDir info_dir with
  | inr _ => Ret (mkVerify "" [] cache)
  | inl entries =>
      let ps := path_Join info_dir <$> filter (λ e, path_ext e = ".md5sums") entries in
      ofoldl (verify_package clock seq (versions text)) (mkVerify "" [] cache) ps
  end.

(** MD5, SHA-1, SHA-256 and SHA-512 are known. *)
Definition digest_of (algo : Z) : option (string → string) :=
  if decide (algo = 1 ∨ algo = 2 ∨ algo = 8 ∨ algo = 10) then Some (hash algo) else None.

(** RPM: the hash is reset before each file. *)
Definition rpm_one (clock : Z) (seq : string) (p : Rpm.Package) (dg : string → string) (st : verify_state) (f : Rpm.FileInfo) :
    outcome verify_state :=
  if isBin (Rpm.Path f) && bool_decide (Rpm.Digest f ≠ "") then
    match bin (Rpm.Path f) with
    | Some b =>
        match bStat b with
        | Some (size, mtime) =>
            if decide (size < maxVerifyFileSize) then
              if bFails b then Ret st
              else
                let digest := dg (bContent b) in
                if decide (digest ≠ Rpm.Digest f) then
                  let! c := Engine.Put 5057 (Rpm.Path f) ∅ (vcache st) in
                  Ret (mkVerify "" (sent st ++ [record 5057 clock seq (integrity_fields (Rpm.Name p) digest (Rpm.Digest f)
                        (Rpm.DigestAlgorithm_String (Rpm.DigestAlgorithm p)) (Rpm.Path f) (Rpm.Version p) mtime)]) c)
                else Ret st
            else Ret st
        | None => Ret st
        end
    | None => Ret st
    end
  else Ret st.

Definition rpm_verify (clock : Z) (seq : string) (pkgs : list Rpm.Package) (cache : Engine.Cache) : outcome verify_state :=
  ofoldl (λ st p, match digest_of (Rpm.DigestAlgorithm p) with
                  | Some dg => ofoldl (rpm_one clock seq p dg) st (Rpm.Files p)
                  | None => Ret st
                  end) (mkVerify "" [] cache) pkgs.

(** [rpms]: the packages of the database, if it can be opened. *)
Definition IntegrityHandle (rpms : option (list Rpm.Package)) (clock : Z) (seq : string) (cache : Engine.Cache) :
    outcome (list Bridge.Record_ * Engine.Cache) :=
  let! st := match Open "/var/lib/dpkg/status" with
             | inl text => dpkg_verify clock seq text cache
             | inr _ => match rpms with Some pkgs => rpm_verify clock seq pkgs cache | None => Ret (mkVerify "" [] cache) end
             end in
  Ret (sent st, vcache st).

End integrity.

(** ** Processes *)

Section processes.
Context `{Files, Procfs.Proc}.
(** What the caches of checksums return for an executable ([utils.GetMd5], [utils.GetHash]),
    and the CPU and memory of a process as texts. *)
Context (checksum exe_hash : string → string → string) (resource : string → string * string).

Definition stat_fields (s : Procfs.ProcessStat) : list (string * string) :=
  [("comm", Procfs.Comm s); ("state", Procfs.State s); ("ppid", Procfs.Ppid s); ("pgid", Procfs.Pgid s); ("sid", Procfs.Sid s);
   ("start_time", Procfs.StartTime s)].

Definition status_fields (s : Procfs.ProcessStatus) : list (string * string) :=
  [("umask", Procfs.Umask s); ("tcpid", Procfs.TracerPid s); ("ruid", Procfs.Ruid s); ("euid", Procfs.Euid s); ("suid", Procfs.Suid s);
   ("fsuid", Procfs.Fsuid s); ("rgid", Procfs.Rgid s); ("egid", Procfs.Egid s); ("sgid", Procfs.Sgid s); ("fsgid", Procfs.Fsgid s);
   ("rusername", Procfs.Rusername s); ("eusername", Procfs.Eusername s); ("susername", Procfs.Susername s);
   ("fsusername", Procfs.Fsusername s); ("nspid", Procfs.NsPid s); ("nspgid", Procfs.NsPgid s); ("nssid", Procfs.NsSid s)].

Definition ns_fields (n : Procfs.ProcessNamespace) : list (string * string) :=
  [("dns", Procfs.Diff n); ("cns", Procfs.Cgroup n); ("ins", Procfs.Ipc n); ("mns", Procfs.Mnt n); ("nns", Procfs.Net n);
   ("pns", Procfs.Pid_ n); ("tns", Procfs.Time_ n); ("uns", Procfs.User_ n); ("utns", Procfs.Uts n)].

(** The record of a process, unless one of its files cannot be read. *)
Definition process_fields (cache : Engine.Cache) (now seq : string) (p : Procfs.Process) : option (gmap string string) :=
  let '(cmd, p) := Procfs.Cmdline p in
  match cmd, Procfs.Stat p, Procfs.Status p with
  | inl cmdline, inl stat, inl status =>
      let ns := (Procfs.Namespaces p).1 in
      let '(exe, err, _) := Procfs.Exe p in
      let exe_file := Procfs.proc_file (Procfs.pid p) "exe" in
      let sum f := match err with None => f exe exe_file | Some _ => "" end in
      let '(cpu, mem) := resource (Procfs.pid p) in
      let m := {["seq" := now; "cmdline" := cmdline; "cwd" := (Procfs.Cwd p).1; "checksum" := sum checksum; "exe_hash" := sum exe_hash;
                 "exe" := exe; "pid" := Procfs.pid p; "cpu" := cpu; "mem" := mem]} in
      let m := Decode (ns_fields ns) (Decode (status_fields status) (Decode (stat_fields stat) m)) in
      let c := Engine.Get 5056 (Procfs.Pid_ ns) cache in
      let cid := default "" (c ≫= (.!! "container_id")) in
      let m := <["container_name" := default "" (c ≫= (.!! "container_name"))]> (<["container_id" := cid]> m) in
      let bad := bool_decide (is_Some (Engine.Get 5057 (default "" (m !! "exe")) cache) ∧ cid = "") in
      Some (<["package_seq" := seq]> (<["integrity" := if bad then "false" else "true"]> m))
  | _, _, _ => None
  end.

(** The processes, after a record with the load of the host. *)
Definition ProcessHandle (load : gmap string string) (clock : Z) (cache : Engine.Cache) (now seq : string) : list Bridge.Record_ :=
  match Procfs.Processes false with
  | inr _ => []
  | inl procs =>
      Bridge.mkRecord 50501 clock (Some (Bridge.mkPayload (<["seq" := now]> load))) ::
      omap (λ p, (λ m, Bridge.mkRecord 5050 clock (Some (Bridge.mkPayload m))) <$> process_fields cache now seq p) procs
  end.

End processes.

(** ** What the handlers leave in the cache *)

Definition has (dt : Z) (c : Engine.Cache) : Prop := is_Some (Engine.m c !! dt).

Lemma Put_spec dt k v c : has dt c →
  ∃ c', Engine.Put dt k v c = Ret c' ∧ (∀ dt', has dt' c → has dt' c') ∧
    ∀ dt' k', Engine.Get dt' k' c' = if decide (dt' = dt ∧ k' = k) then Some v else Engine.Get dt' k' c.
Proof.
  intros [r Hr]. unfold Engine.Put. rewrite Hr. eexists. split; [done|]. split.
  - intros dt' Hd. unfold has. simpl. destruct (decide (dt = dt')) as [->|]; [rewrite lookup_insert_eq; eauto|by rewrite lookup_insert_ne].
  - intros dt' k'. unfold Engine.Get. simpl. destruct (decide (dt = dt')) as [->|Hd].
    + rewrite lookup_insert_eq, Hr. simpl. destruct (decide (k = k')) as [->|].
      * by rewrite lookup_insert_eq, decide_True.
      * rewrite lookup_insert_ne by done. rewrite decide_False by naive_solver. done.
    + rewrite lookup_insert_ne by done. rewrite decide_False by naive_solver. done.
Qed.

Lemma clear_spec dt c : has dt (Engine.clear dt c) ∧ (∀ dt', has dt' c → has dt' (Engine.clear dt c)) ∧
  ∀ dt' k, Engine.Get dt' k (Engine.clear dt c) = if decide (dt' = dt) then None else Engine.Get dt' k c.
Proof.
  unfold has, Engine.clear, Engine.Get. simpl. split_and!.
  - rewrite lookup_insert_eq. eauto.
  - intros dt' ?. destruct (decide (dt = dt')) as [->|]; [rewrite lookup_insert_eq; eauto|by rewrite lookup_insert_ne].
  - intros dt' k. case_decide as Hd; [subst; by rewrite lookup_insert_eq|]. by rewrite lookup_insert_ne.
Qed.

Section containers_laws.
Context `{Procfs.Proc}.

(** The running container that was listed last for a namespace. *)
Definition container_of (cs : list Container) (ns : string) : option Container :=
  last (filter (λ c, cached c = true ∧ ctrPns c = ns) cs).

Definition label (c : Container) : gmap string string := {["container_id" := ctrID c; "container_name" := ctrName c]}.

Lemma container_loop_spec clock seq cs cache : has 5056 cache →
  ∃ rs cache', container_loop clock seq cs cache = Ret (rs, cache') ∧
    rs = (λ c, record 5056 clock seq (container_fields c)) <$> cs ∧ (∀ dt, has dt cache → has dt cache') ∧
    ∀ dt k, Engine.Get dt k cache' =
      if decide (dt = 5056) then match container_of cs k with Some c => Some (label c) | None => Engine.Get dt k cache end
      else Engine.Get dt k cache.
Proof.
  revert cache. induction cs as [|c cs IH]; intros cache Hc.
  - eexists _, _. split_and!; [done..|]. intros dt k. by case_decide.
  - assert (∃ cache1, (if cached c then Engine.Put 5056 (ctrPns c) (label c) cache else Ret cache) = Ret cache1 ∧
      (∀ dt, has dt cache → has dt cache1) ∧ ∀ dt k, Engine.Get dt k cache1 =
        if decide (dt = 5056 ∧ cached c = true ∧ ctrPns c = k) then Some (label c) else Engine.Get dt k cache) as (cache1 & E & Hh & Hg).
    { destruct (cached c) eqn:Ec.
      - destruct (Put_spec 5056 (ctrPns c) (label c) cache Hc) as (c' & E & Hh & Hg). exists c'. split_and!; [done..|].
        intros dt k. rewrite Hg. repeat case_decide; naive_solver.
      - exists cache. split_and!; [done..|]. intros dt k. rewrite decide_False by naive_solver. done. }
    destruct (IH cache1 (Hh _ Hc)) as (rs & cache' & E' & -> & Hh' & Hg'). exists ((λ c, record 5056 clock seq (container_fields c)) <$> c :: cs), cache'.
    split_and!.
    + cbn [container_loop]. fold (label c). rewrite E. cbn [obind]. rewrite E'. done.
    + done.
    + intros dt Hd. apply Hh', Hh, Hd.
    + intros dt k. rewrite Hg', Hg. destruct (decide (dt = 5056)) as [->|Hd]; [|by rewrite decide_False by naive_solver].
      unfold container_of. rewrite filter_cons. destruct (decide (cached c = true ∧ ctrPns c = k)) as [Hck|Hck].
      * rewrite last_cons. rewrite (decide_True (P := 5056 = 5056 ∧ _)) by done. by destruct (last (filter _ cs)).
      * rewrite (decide_False (P := 5056 = 5056 ∧ _)) by naive_solver. done.
Qed.

Lemma pns_of_form pid : pns_of pid = "" ∨ ∃ n, pns_of pid = itoa n.
Proof.
  unfold pns_of. case_decide; [|by left]. destruct (Procfs.NewProcess (itoa pid)) as [p|]; [|by left].
  unfold Procfs.Namespace. case_decide; [|by left]. destruct (Procfs.Stat_ _) as [[n|]|]; [right; by exists n|by left..].
Qed.

Lemma runtime_pns c : (∃ status x, c = cri_container status x) ∨ (∃ inspect x, c = docker_container inspect x) →
  ctrPns c = "" ∨ ∃ n, ctrPns c = itoa n.
Proof.
  intros [(status & x & ->)|(inspect & x & ->)].
  - unfold cri_container. case_decide; [|by left]. destruct (status (criId x)) as [s|]; [|by left].
    destruct (criPid s) as [n|]; [apply pns_of_form|by left].
  - unfold docker_container. destruct (inspect (dkID x)) as [i|]; [|by left]. case_decide; [apply pns_of_form|by left].
Qed.

(** The handler of software looks containers up under a key the cache never has, so Java
    archives are reported without their container. *)
Lemma java_container_missed cs x :
  Forall (λ c, (∃ status x, c = cri_container status x) ∨ (∃ inspect x, c = docker_container inspect x)) cs →
  container_of cs ("pns" +:+ x) = None.
Proof.
  intros Hcs. unfold container_of. rewrite filter_none; [done|]. intros c Hc [_ Hp].
  rewrite Forall_forall in Hcs. destruct (runtime_pns c (Hcs c Hc)) as [E|[n E]]; rewrite E in Hp; [done|].
  assert (str_forall (λ c, is_digit c || bool_decide (c = "-"%char)) (itoa n) = true) as Hd
    by (apply itoa_chars; [intros a Ha; by rewrite Ha|done]).
  by rewrite Hp in Hd.
Qed.

End containers_laws.

Lemma ofoldl_effect {A B} (f : A → B → outcome A) (I : A → Prop) (E : A → string → Prop) (T : B → string → Prop) l a :
  (∀ a x, I a → ∃ a', f a x = Ret a' ∧ I a' ∧ ∀ k, E a' k ↔ E a k ∨ T x k) → I a →
  ∃ a', ofoldl f a l = Ret a' ∧ I a' ∧ ∀ k, E a' k ↔ E a k ∨ ∃ x, x ∈ l ∧ T x k.
Proof.
  intros Hf. revert a. induction l as [|x l IH]; intros a Ha.
  - exists a. split_and!; [done..|]. intros k. split; [by left|]. intros [?|(x & ?%elem_of_nil & _)]; done.
  - destruct (Hf a x Ha) as (a1 & E1 & Ha1 & Hk1). destruct (IH a1 Ha1) as (a2 & E2 & Ha2 & Hk2). exists a2. split_and!; [|done|].
    + cbn [ofoldl]. by rewrite E1.
    + intros k. rewrite Hk2, Hk1. split.
      * intros [[?|?]|(y & ? & ?)]; [by left|right; exists x; split; [left|done]|right; exists y; split; [by right|done]].
      * intros [?|(y & [->|?]%elem_of_cons & ?)]; [by left; left|by left; right|right; by exists y].
Qed.

(** ** Changed programs *)

(** What the verification keeps: nothing is left in the hash, and only its own entries of the
    cache change. *)
Definition verifying (c0 : Engine.Cache) (st : verify_state) : Prop :=
  hashed st = "" ∧ (∀ dt, has dt c0 → has dt (vcache st)) ∧ has 5057 (vcache st) ∧
  ∀ dt k, dt ≠ 5057 → Engine.Get dt k (vcache st) = Engine.Get dt k c0.

Definition flagged (st : verify_state) (k : string) : Prop := is_Some (Engine.Get 5057 k (vcache st)).

Lemma put_flagged c0 st path rs :
  verifying c0 st → ∃ c, Engine.Put 5057 path ∅ (vcache st) = Ret c ∧ verifying c0 (mkVerify "" rs c) ∧
    ∀ k, is_Some (Engine.Get 5057 k c) ↔ flagged st k ∨ k = path.
Proof.
  intros (_ & Hh & H5 & Hg). destruct (Put_spec 5057 path ∅ (vcache st) H5) as (c & -> & Hh' & Hg'). exists c. split_and!; [done| |].
  - split_and!; simpl; [done|by intros dt ?; apply Hh', Hh|by apply Hh'|].
    intros dt k Hdt. rewrite Hg', decide_False by naive_solver. by apply Hg.
  - intros k. rewrite Hg'. unfold flagged. case_decide; naive_solver.
Qed.

Section integrity_laws.
Context `{Files, Ranger}.
Context (ReadDir : string → list string + string) (bin : string → option bin_file).
Context (md5 : string → string) (hash : Z → string → string).

(** The file has another digest. *)
Definition tampered (dg : string → string) (path d : string) : Prop :=
  ∃ f size mtime, bin path = Some f ∧ bStat f = Some (size, mtime) ∧ size < maxVerifyFileSize ∧ dg (bContent f) ≠ d.

Definition readable : Prop := ∀ path f, bin path = Some f → bFails f = false.

Lemma verify_one_spec c0 clock seq pn v st pd :
  readable → verifying c0 st →
  ∃ st', verify_one bin md5 clock seq pn v st pd = Ret st' ∧ verifying c0 st' ∧
    ∀ k, flagged st' k ↔ flagged st k ∨ (k = pd.1 ∧ tampered md5 pd.1 pd.2).
Proof.
  intros Hr Hv. destruct pd as [path d]. unfold verify_one. cbn [fst snd].
  assert (∀ P : Prop, ¬ P → ∀ k, flagged st k ↔ flagged st k ∨ k = path ∧ P) as Hno
    by (intros P HP k; split; [by left|]; by intros [?|[_ ?]]).
  destruct (bin path) as [f|] eqn:Hf; [|exists st; split_and!; [done..|]; apply Hno; intros (? & ? & ? & ? & _); congruence].
  destruct (bStat f) as [[size mtime]|] eqn:Hs;
    [|exists st; split_and!; [done..|]; apply Hno; intros (? & ? & ? & ? & ? & _); by simplify_eq].
  case_decide as Hsz; [|exists st; split_and!; [done..|]; apply Hno; intros (? & ? & ? & ? & ? & ? & _); by simplify_eq].
  rewrite (Hr path f Hf). pose proof Hv as (Hh & _). rewrite Hh. simpl String.append. case_decide as Hd.
  - destruct (put_flagged c0 st path (sent st ++ [record 5057 clock seq (integrity_fields pn (md5 (bContent f)) d "md5" path v mtime)]) Hv)
      as (c & -> & Hv' & Hk). eexists. split; [done|]. split; [exact Hv'|]. intros k. unfold flagged at 1. cbn [vcache]. rewrite Hk.
    split; [intros [?| ->]; [by left|right; split; [done|]]|intros [?|[-> _]]; [by left|by right]].
    exists f, size, mtime. done.
  - eexists. split; [done|]. split.
    + destruct Hv as (? & ? & ? & ?). by split_and!.
    + apply Hno. intros (f2 & size2 & mt2 & Hf2 & Hs2 & _ & Hm). by simplify_eq.
Qed.

(** The digests recorded for the programs of the installed packages. *)
Definition recorded (text : string) (entries : list string) (path d : string) : Prop :=
  ∃ e sums v, e ∈ entries ∧ path_ext e = ".md5sums" ∧
    versions text !! trim_suffix ".md5sums" (path_base (path_Join info_dir e)) = Some v ∧
    Open (path_Join info_dir e) = inl sums ∧ md5sums sums !! path = Some d.

Lemma dpkg_verify_spec clock seq text entries cache :
  readable → has 5057 cache → ReadDir info_dir = inl entries →
  ∃ st, dpkg_verify ReadDir bin md5 clock seq text cache = Ret st ∧ verifying cache st ∧
    ∀ k, flagged st k ↔ is_Some (Engine.Get 5057 k cache) ∨ ∃ d, recorded text entries k d ∧ tampered md5 k d.
Proof.
  intros Hr Hc He. unfold dpkg_verify. rewrite He.
  destruct (ofoldl_effect (verify_package bin md5 clock seq (versions text)) (verifying cache) flagged
    (λ p k, ∃ v sums d, versions text !! trim_suffix ".md5sums" (path_base p) = Some v ∧ Open p = inl sums ∧
       md5sums sums !! k = Some d ∧ tampered md5 k d)
    (path_Join info_dir <$> filter (λ e, path_ext e = ".md5sums") entries) (mkVerify "" [] cache)) as (st & Hst & Hv & Hk).
  - intros st p Hv. unfold verify_package. destruct (versions text !! _) as [v|] eqn:Hver.
    2: { exists st. split_and!; [done..|]. intros k. split; [by left|]. intros [?|(v & ? & ? & ? & _)]; done. }
    destruct (Open p) as [sums|] eqn:Hop.
    2: { exists st. split_and!; [done..|]. intros k. split; [by left|]. intros [?|(? & ? & ? & ? & ? & _)]; done. }
    destruct (ofoldl_effect (verify_one bin md5 clock seq (trim_suffix ".md5sums" (path_base p)) v) (verifying cache) flagged
      (λ pd k, k = pd.1 ∧ tampered md5 pd.1 pd.2) (range_kv "md5sums" (md5sums sums)) st) as (st' & Hst & Hv' & Hk).
    { intros a x Ha. by apply verify_one_spec. } { done. }
    exists st'. split_and!; [done..|]. intros k. rewrite Hk. split.
    + intros [?|([k' d] & Hin & -> & Ht)]; [by left|]. right. exists v, sums, d. by apply range_kv_elem in Hin.
    + intros [?|(v' & sums' & d & ? & ? & Hs & Ht)]; [by left|]. simplify_eq. right. exists (k, d). split; [by apply range_kv_elem|done].
  - by split_and!.
  - exists st. split_and!; [done..|]. intros k. rewrite Hk. unfold flagged at 1. cbn [vcache]. apply or_iff_compat_l. split.
    + intros (p & (e & -> & [Hext Hin]%list_elem_of_filter)%list_elem_of_fmap & v & sums & d & ? & ? & ? & ?).
      exists d. split; [|done]. by exists e, sums, v.
    + intros (d & (e & sums & v & Hin & Hext & ? & ? & ?) & Ht). exists (path_Join info_dir e). split; [|by exists v, sums, d].
      apply list_elem_of_fmap_2. by apply list_elem_of_filter.
Qed.

(** A program of an installed package is flagged exactly if its digest is not the recorded
    one, provided that no read fails. *)
Lemma integrity_exact rpms clock seq cache text entries :
  readable → has 5057 cache → Open "/var/lib/dpkg/status" = inl text → ReadDir info_dir = inl entries →
  ∃ rs cache', IntegrityHandle ReadDir bin md5 hash rpms clock seq cache = Ret (rs, cache') ∧
    (∀ dt, has dt cache → has dt cache') ∧ (∀ dt k, dt ≠ 5057 → Engine.Get dt k cache' = Engine.Get dt k cache) ∧
    ∀ k, is_Some (Engine.Get 5057 k cache') ↔
      is_Some (Engine.Get 5057 k cache) ∨ ∃ d, recorded text entries k d ∧ tampered md5 k d.
Proof.
  intros Hr Hc Ho He. unfold IntegrityHandle. rewrite Ho.
  destruct (dpkg_verify_spec clock seq text entries cache Hr Hc He) as (st & -> & (_ & Hh & _ & Hg) & Hk).
  eexists _, _. split; [done|]. split_and!; done.
Qed.

End integrity_laws.

(** ** How a process is labelled *)

Section labels.
Context `{HD : DecodeLaw, Procfs.Proc, Ranger}.
Context (checksum exe_hash : string → string → string) (resource : string → string * string).
Context (ReadDir : string → list string + string) (bin : string → option bin_file).
Context (md5 : string → string) (hash : Z → string → string).

(** The container and the executable of a process, and what the cache says of them. *)
Lemma process_fields_labels cache now seq p m :
  process_fields checksum exe_hash resource cache now seq p = Some m →
  let ns := Procfs.Pid_ (Procfs.Namespaces p).1 in
  let cid := default "" (Engine.Get 5056 ns cache ≫= (.!! "container_id")) in
  let exe := (Procfs.Exe p).1.1 in
  m !! "exe" = Some exe ∧ m !! "container_id" = Some cid ∧
  m !! "integrity" = Some (if bool_decide (is_Some (Engine.Get 5057 exe cache) ∧ cid = "") then "false" else "true").
Proof using Type HD.
  unfold process_fields. destruct (Procfs.Cmdline p) as [cmd p'] eqn:Hcmd.
  assert (Procfs.pid p' = Procfs.pid p ∧ (Procfs.Exe p').1.1 = (Procfs.Exe p).1.1) as [Hpid Hexe].
  { revert Hcmd. unfold Procfs.Cmdline. case_decide; [by intros [= _ <-]|]. destruct (Procfs.ReadFile _); intros [= _ <-]; [|done].
    split; [done|]. unfold Procfs.Exe. simpl. case_decide; [done|]. by destruct (Procfs.Readlink _). }
  assert (Procfs.Namespaces p' = Procfs.Namespaces p) as -> by (unfold Procfs.Namespaces; by rewrite Hpid).
  destruct cmd as [cmdline|]; [|done]. destruct (Procfs.Stat p') as [stat|]; [|done]. destruct (Procfs.Status p') as [status|]; [|done].
  destruct (Procfs.Exe p') as [[exe err] p2] eqn:He. cbn [fst snd] in Hexe. rewrite <-Hexe.
  destruct (resource (Procfs.pid p')) as [cpu mem]. intros [= <-]. cbv zeta.
  set (ns := Procfs.Pid_ (Procfs.Namespaces p).1). set (cid := default "" (Engine.Get 5056 ns cache ≫= (.!! "container_id"))).
  match goal with |- context [Decode (ns_fields ?n) ?x] => set (mm := Decode (ns_fields n) x) end.
  assert (mm !! "exe" = Some exe) as Hm by (unfold mm; by rewrite !decode_lookup).
  assert (default "" (<["container_name" := default "" (Engine.Get 5056 ns cache ≫= (.!! "container_name"))]> (<["container_id" := cid]> mm) !! "exe") = exe) as ->.
  { rewrite !lookup_insert_ne by done. by rewrite Hm. }
  split_and!.
  - by rewrite !lookup_insert_ne.
  - rewrite lookup_insert_ne by done. rewrite lookup_insert_ne by done. rewrite lookup_insert_ne by done. apply lookup_insert_eq.
  - rewrite lookup_insert_ne by done. apply lookup_insert_eq.
Qed.


End labels.

(** ** A host *)

Definition w_files : Files := {|
  Walk _ := [];
  Open p := if decide (p = "/var/lib/dpkg/status") then inl (unlines ["Package: coreutils"; "Version: 8.32"])
            else if decide (p = "/var/lib/dpkg/info/coreutils.md5sums") then inl (unlines ["aa usr/bin/cat"; "bb usr/bin/ls"])
            else inr "no such file";
  GetMd5 _ := ""; Decode l m := list_to_map l ∪ m |}.

#[local] Instance w_decode : @DecodeLaw w_files.
Proof. intros l m k. cbn [Decode w_files]. rewrite lookup_union. by destruct (list_to_map l !! k), (m !! k). Qed.

Definition w_proc : Procfs.Proc := {|
  Procfs.ReadFile _ := inl "x";
  Procfs.Readlink _ := ("/usr/bin/ls", None);
  Procfs.Stat_ _ := inl (Some 5); Procfs.ReadDir _ := inl ["7"]; Procfs.Readdirnames _ := inl [];
  Procfs.GetUsername _ := ""; Procfs.GetGroupname _ := ""; Procfs.hertz := 100; Procfs.btime := 0; Procfs.pageSize := 4096; Procfs.rpns := "5";
  Procfs.FormatSeconds _ := ""; Procfs.hertz_pos := eq_refl |}.

(** The digest of a file is its content; [ls] has been changed. *)
Definition w_bin (p : string) : option bin_file :=
  if decide (p = "/usr/bin/cat") then Some (mkBin (Some (2, 1)) "aa" false)
  else if decide (p = "/usr/bin/ls") then Some (mkBin (Some (2, 1)) "cc" false) else None.
Definition w_entries (d : string) : list string + string := inl ["coreutils.md5sums"].
Definition w_p : Procfs.Process := Procfs.mkProcess "7" "" "" "".
Definition w_cache : outcome (list Bridge.Record_ * Engine.Cache) :=
  @IntegrityHandle w_files _ w_entries w_bin id (λ _, id) None 1 "s" (Engine.clear 5057 (Engine.clear 5056 Engine.NewCache)).

Lemma w_readable : readable w_bin.
Proof. intros p f. unfold w_bin. repeat case_decide; naive_solver. Qed.


(** Reading [cat] fails half-way; what was read of it stays in the hash, so that [ls], which
    is intact, is flagged. *)
Definition w_bin_fails (p : string) : option bin_file :=
  if decide (p = "/usr/bin/cat") then Some (mkBin (Some (2, 1)) "a" true)
  else if decide (p = "/usr/bin/ls") then Some (mkBin (Some (2, 1)) "bb" false) else None.

Definition w_failed : outcome (list Bridge.Record_ * Engine.Cache) :=
  @IntegrityHandle w_files default_ranger w_entries w_bin_fails id (λ _, id) None 1 "s" (Engine.clear 5057 Engine.NewCache).

Lemma failed_read_taints : ∃ rs c, w_failed = Ret (rs, c) ∧ Engine.Get 5057 "/usr/bin/ls" c = Some ∅.
Proof. vm_compute. eexists _, _. split; reflexivity. Qed.

End Inventory.
