(* ===== verification/App.v ===== *)
(** * Applications on a host

    Models [plugins/collector/app.go]: the rules for known server programs, the version read
    from the output of the program itself, and the configuration file found in its command
    line or at its usual places.  Running a program, on the host or through a container
    runtime, is a parameter. *)

From Stdlib Require Import Ascii.
From S2P Require Import Prelude GoStrings GoText GoPath GoRegex Bridge Engine Procfs Units.
From stdpp Require Import options.

Module App.
Import GoRegex.

Record App := mkApp { aName : string; aVersion : string; aType : string; aConf : string; Matched : bool }.

Record RuleContext := mkRC {
  enterContainer : bool; rcComm : string; rcUid : Z; rcGid : Z; rcDir : string; containerID : string; rcExe : string; rcCmdline : string;
  rcPpid : string; rcProc : Procfs.Process; appVersion : string }.

Inductive AppRule := mkRule {
  name : string; versionRegex : option re; versionArgs : list string; type_ : string; versionTrimPrefix : string; versionTrimSuffix : string;
  confFunc : option (RuleContext → string); sub : option AppRule }.

(** [(\d+\.)+\d+]. *)
Definition re_version : re := Seq (Plus (Seq (Plus re_digit) (lit "."))) (Plus re_digit).
Definition words : re := Plus re_nonblank.

Section rules.
Context `{Procfs.Proc}.

(** [os.Stat(path)] succeeds. *)
Definition exists_ (path : string) : bool := match Procfs.Stat_ path with inl _ => true | inr _ => false end.

Definition rootPath (rc : RuleContext) : string :=
  if enterContainer rc then Procfs.path_join ["/proc"; Procfs.pid (rcProc rc); "root"] else "/".

(** The first of the usual places that exists. *)
Definition usual (rc : RuleContext) (paths : list string) : string :=
  default "" (head (filter (λ p, exists_ (Procfs.path_join [rootPath rc; p]) = true) paths)).

(** An option of the command line: what matches, without its name. *)
Definition option_arg (r : re) (trim : string → string) (rc : RuleContext) (otherwise : string) : string :=
  match Find r (rcCmdline rc) with Some res => trim res | None => otherwise end.

Definition trim_opt (o : string) (s : string) : string := trim_space (trim_prefix "=" (trim_prefix o s)).
(** [o(=|\s+)\S+]. *)
Definition opt_re (o : string) : re := Seq (lit o) (Seq (Alt (lit "=") (Plus re_blank)) words).

Definition apacheRule : AppRule :=
  mkRule "apache" (Some (Seq (lit "Apache/") re_version)) ["-v"] "web_service" "Apache/" ""
    (Some (λ rc, option_arg (Seq (lit "-f") (Seq re_blank words)) (trim_prefix "-f ") rc
       (usual rc ["/usr/local/apache2/conf/httpd.conf"; "/etc/apache2/apache2.conf"; "/etc/httpd/conf/httpd.conf"; "/etc/apache2/httpd.conf"]))) None.

Definition nginx_conf (rc : RuleContext) : string :=
  option_arg (Seq (lit "-c") (Seq re_blank words)) (trim_prefix "-c ") rc (usual rc ["/etc/nginx/nginx.conf"]).

Definition openrestyRule : AppRule :=
  mkRule "openresty" (Some (Seq (lit "openresty/") re_version)) ["-v"] "web_service" "openresty/" "" (Some nginx_conf) None.
Definition tengineRule : AppRule :=
  mkRule "tegine" (Some (Seq (lit "Tengine/") re_version)) ["-v"] "web_service" "Tengine/" "" (Some nginx_conf) (Some openrestyRule).
Definition nginxRule : AppRule :=
  mkRule "nginx" (Some (Seq (lit "nginx/") re_version)) ["-v"] "web_service" "nginx/" "" (Some nginx_conf) (Some tengineRule).

Definition redisRule : AppRule :=
  mkRule "redis" (Some (Seq (lit "v=") re_version)) ["-v"] "database" "v=" ""
    (Some (λ rc, option_arg (Seq words (lit ".conf")) id rc "")) None.

Definition grafanaRule : AppRule :=
  mkRule "grafana" (Some (Seq (lit "Version") (Seq re_blank (Seq re_version words)))) ["-v"] "devops" "Version " ""
    (Some (λ rc, option_arg (opt_re "-config") (trim_opt "-config") rc
       (if exists_ (Procfs.path_join [rootPath rc; "/usr/local/etc/grafana/grafana.ini"]) then "/usr/local/etc/grafana/grafana.ini"
        else match Procfs.Cwd (rcProc rc) with
             | (cwd, None) => let confPath := Procfs.path_join [cwd; "/conf/defaults.ini"] in
                              if exists_ (Procfs.path_join [rootPath rc; confPath]) then confPath else ""
             | (_, Some _) => ""
             end))) None.

Definition rabbitmqRule : AppRule := mkRule "rabbitmq" None [] "message_queue" "" "" None None.

Definition mysqlRule : AppRule :=
  mkRule "mysql" (Some (Seq (lit "Ver") (Seq re_blank (Seq re_version words)))) ["-V"] "database" "Ver " ""
    (Some (λ rc, option_arg (Seq (lit "--defaults-file=") words) (trim_prefix "--defaults-file=") rc
       (usual rc ["/etc/my.cnf"; "/etc/mysql/my.cnf"; "/usr/etc/my.cnf"]))) None.

Definition pg_conf (rc : RuleContext) (dir : string) (otherwise : string) : string :=
  let path := Procfs.path_join [dir; "postgresql.conf"] in if exists_ (Procfs.path_join [rootPath rc; path]) then path else otherwise.

Definition postgresqlRule : AppRule :=
  mkRule "postgresql" (Some re_version) ["-V"] "database" "" ""
    (Some (λ rc, option_arg (Seq (lit "config_file=") words) (trim_prefix "config_file=") rc
       (let from_env := match Procfs.Envs (rcProc rc) with
                        | (e, None) => match e !! "PGDATA" with Some d => pg_conf rc d "" | None => "" end
                        | (_, Some _) => ""
                        end in
        match Find (Seq (lit "-D") (Seq re_blank words)) (rcCmdline rc) with
        | Some pgdata => pg_conf rc (trim_prefix "-D " pgdata) from_env
        | None => from_env
        end))) None.

Definition mongodbRule : AppRule :=
  mkRule "mongodb" (Some (Seq (lit "db") (Seq re_blank (Seq (lit "version") (Seq re_blank (Seq (lit "v") re_version))))))
    ["--version"] "database" "db version v" ""
    (Some (λ rc, option_arg (opt_re "--config") (trim_opt "--config") rc
       (option_arg (Seq (lit "-f") (Seq (Plus re_blank) words)) (λ s, trim_space (trim_prefix "-f" s)) rc ""))) None.

Definition etcdRule : AppRule :=
  mkRule "etcd" (Some (Seq (lit "etcd") (Seq re_blank (Seq (lit "Version:") (Seq re_blank re_version))))) ["--version"] "database" "etcd Version: " ""
    (Some (λ rc, option_arg (opt_re "--config-file") (trim_opt "--config-file") rc
       (match Procfs.Envs (rcProc rc) with
        | (e, None) => match e !! "ETCD_CONFIG_FILE" with
                       | Some path => if exists_ (Procfs.path_join [rootPath rc; path]) then path else ""
                       | None => ""
                       end
        | (_, Some _) => ""
        end))) None.

(** The expression has a comma where the option has a dot. *)
Definition prometheusRule : AppRule :=
  mkRule "prometheus" (Some (Seq (lit "prometheus,") (Seq re_blank (Seq (lit "version") (Seq re_blank re_version))))) ["--version"] "database"
    "prometheus, version " ""
    (Some (λ rc, option_arg (opt_re "--config,file") (trim_opt "--config.file") rc (usual rc ["/etc/prometheus/prometheus.yml"]))) None.

Definition sqlserverRule : AppRule :=
  let part := Seq (Plus re_digit) (lit ".") in
  mkRule "sqlserver" (Some (Seq part (Seq part (Seq part (Plus re_digit))))) ["-v"] "database" "" ""
    (Some (λ rc, usual rc ["/var/opt/mssql/mssql-conf"])) None.

Definition phpfpmRule : AppRule :=
  mkRule "php-fpm" (Some (Seq (lit "PHP") (Seq re_blank re_version))) ["-v"] "web_service" "PHP " ""
    (Some (λ rc, option_arg (Seq (lit "(") (Seq (Plus re_any) (lit ")"))) (λ s, trim_suffix ")" (trim_prefix "(" s)) rc "")) None.

Definition dockerRule : AppRule :=
  mkRule "docker" (Some (Seq (lit "Docker") (Seq re_blank (Seq (lit "version") (Seq re_blank re_version))))) ["-v"] "container_component"
    "Docker version " ""
    (Some (λ rc, option_arg (opt_re "--config-file") (trim_opt "--config-file") rc (usual rc ["/etc/docker/daemon.json"]))) None.

Definition containerdRule : AppRule :=
  mkRule "containerd" (Some re_version) ["-v"] "container_component" "" ""
    (Some (λ rc, option_arg (opt_re "--config") (trim_opt "--config") rc
       (option_arg (Seq (lit "-c") (Seq re_blank words)) (trim_prefix "-c ") rc (usual rc ["/etc/containerd/config.toml"])))) None.

Definition kubeletRule : AppRule :=
  mkRule "kubelet" (Some (Seq (lit "v") (Seq re_version words))) ["--version"] "container_component" "v" ""
    (Some (λ rc, option_arg (opt_re "--config") (trim_opt "--config") rc (usual rc ["/var/lib/kubelet/config"]))) None.

Definition ruleMap : gmap string AppRule :=
  list_to_map
   [("apache2", apacheRule); ("httpd", apacheRule); ("nginx", nginxRule); ("redis-server", redisRule);
    ("rabbitmq-server", rabbitmqRule); ("grafana-server", grafanaRule); ("mysqld", mysqlRule); ("postgres", postgresqlRule);
    ("mongod", mongodbRule); ("etcd", etcdRule); ("prometheus", prometheusRule); ("sqlservr", sqlserverRule);
    ("php-fpm", phpfpmRule); ("dockerd", dockerRule); ("containerd", containerdRule); ("kubelet", kubeletRule)].

(** ** Running the program *)

(** The answer of a container runtime: the output, or an error and whether it says that the
    container is not found.  Without a runtime there is neither output nor error. *)
Fixpoint exec_clients (clients : list (string + (string * bool))) (err : option string) : string + string :=
  match clients with
  | [] => match err with Some e => inr e | None => inl "" end
  | inl res :: _ => inl res
  | inr (e, false) :: _ => inr e
  | inr (e, true) :: clients => exec_clients clients (Some e)
  end.

(** [run] executes on the host under a user and a group. *)
Definition ExecAs (clients : string → string → list string → list (string + (string * bool)))
    (run : Z → Z → string → string → list string → string + string) (rc : RuleContext) (args : list string) : string + string :=
  if enterContainer rc then
    if decide (containerID rc ≠ "") then exec_clients (clients (containerID rc) (rcExe rc) args) None
    else inr "container id is required"
  else run (rcUid rc) (rcGid rc) (rcDir rc) (rcExe rc) args.

Context (exec : RuleContext → list string → string + string).

(** Whether the parent is another program: the master of several processes is reported. *)
Definition is_master (rc : RuleContext) : bool :=
  match Procfs.NewProcess (rcPpid rc) with
  | inr _ => false
  | inl p => match (Procfs.Comm_ p).1 with inr _ => false | inl c => bool_decide (c ≠ rcComm rc) end
  end.

(** A rule, after the result of its more specific rule: the output (empty for none), the
    application, and how often the program was run. *)
Definition finish (r : AppRule) (rc : RuleContext) (st : string * option App * nat) : string * option App * nat :=
  let '(output, app, runs) := st in
  if match app with Some a => Matched a | None => false end then ("", app, runs)
  else if negb (is_master rc) then ("", None, runs)
  else
    let conf := match confFunc r with Some f => f rc | None => "" end in
    if decide (appVersion rc ≠ "") then (output, Some (mkApp (name r) (appVersion rc) (type_ r) conf false), runs)
    else match versionRegex r with
         | None => (output, Some (mkApp (name r) "" (type_ r) conf false), runs)
         | Some rx =>
             let '(res, runs) := if decide (output = "") then (exec rc (versionArgs r), S runs) else (inl output, runs) in
             match res with
             | inr _ => ("", Some (mkApp (name r) "" (type_ r) "" false), runs)
             | inl output =>
                 match Find rx output with
                 | Some res =>
                     let v := if decide (versionTrimPrefix r ≠ "") then trim_prefix (versionTrimPrefix r) res else res in
                     let v := if decide (versionTrimSuffix r ≠ "") then trim_suffix (versionTrimSuffix r) v else v in
                     (output, Some (mkApp (name r) v (type_ r) conf true), runs)
                 | None => (output, Some (mkApp (name r) "" (type_ r) conf false), runs)
                 end
             end
         end.

Fixpoint GenerateApp (r : AppRule) (rc : RuleContext) : string * option App * nat :=
  finish r rc (match sub r with Some s => GenerateApp s rc | None => ("", None, 0) end).

(** ** The handler *)

Definition app_fields (app : App) (cid cname pid exe start : string) : gmap string string :=
  {["name" := aName app; "type" := aType app; "sversion" := aVersion app; "conf" := aConf app; "container_id" := cid;
    "container_name" := cname; "pid" := pid; "exe" := exe; "start_time" := start]}.

(** The files of a process, in the order they are read; [None] if one cannot be. *)
Record facts := mkFacts {
  fComm : string; fStat : Procfs.ProcessStat; fUid : Z; fGid : Z; fCmdline : string; fExe : string; fPns : string; fDir : string; fProc : Procfs.Process }.

Definition read_facts (p : Procfs.Process) : option facts :=
  let '(comm, p) := Procfs.Comm_ p in
  match comm, Procfs.Stat p, Procfs.Status p with
  | inl comm, inl stat, inl status =>
      match parse_uint (Procfs.Euid status), parse_uint (Procfs.Egid status) with
      | (euid, None), (egid, None) =>
          let '(cmd, p) := Procfs.Cmdline p in
          match cmd, Procfs.Exe p with
          | inl cmdline, (exe, None, p) =>
              match Procfs.Namespace p "pid", Procfs.Cwd p with
              | inl pns, (dir, None) => Some (mkFacts comm stat (wrap_u 32 (Z.of_N euid)) (wrap_u 32 (Z.of_N egid)) cmdline exe pns dir p)
              | _, _ => None
              end
          | _, _ => None
          end
      | _, _ => None
      end
  | _, _, _ => None
  end.

(** One process: the fields that are sent, and the cache of versions after it. *)
Definition app_process (cache : Engine.Cache) (p : Procfs.Process) (versionCache : gmap string string) :
    option (gmap string string) * gmap string string :=
  match read_facts p with
  | None => (None, versionCache)
  | Some f =>
      let m := Engine.Get 5056 (fPns f) cache in
      let cid := default "" (m ≫= (.!! "container_id")) in
      let cname := default "" (m ≫= (.!! "container_name")) in
      let version := default "" (versionCache !! (fExe f +:+ fPns f)) in
      match ruleMap !! fComm f with
      | None => (None, versionCache)
      | Some rule =>
          let rc := mkRC (Procfs.PnsDiffWithRpns (fPns f)) (fComm f) (fUid f) (fGid f) (fDir f) cid (fExe f) (fCmdline f)
                      (Procfs.Ppid (fStat f)) (fProc f) version in
          match GenerateApp rule rc with
          | (_, Some app, _) =>
              (Some (app_fields app cid cname (Procfs.pid (fProc f)) (fExe f) (Procfs.StartTime (fStat f))),
               <[fPns f +:+ fExe f := version]> versionCache)
          | (_, None, _) => (None, versionCache)
          end
      end
  end.

Fixpoint app_loop (cache : Engine.Cache) (ps : list Procfs.Process) (vc : gmap string string) : list (gmap string string) :=
  match ps with
  | [] => []
  | p :: ps => let '(o, vc) := app_process cache p vc in option_list o ++ app_loop cache ps vc
  end.

Definition AppHandle (clock : Z) (cache : Engine.Cache) (seq : string) : list Bridge.Record_ :=
  match Procfs.Processes false with
  | inr _ => []
  | inl procs => Units.record 5060 clock seq <$> app_loop cache procs ∅
  end.

(** ** What is reported *)

Lemma lit_lang s w : s ≠ "" → lang (lit s) w → w = s.
Proof.
  revert w. induction s as [|c s IH]; intros w Hs Hw; [done|]. destruct s as [|d s].
  - inversion Hw as [P x Hx| | | | |]; subst. by apply bool_decide_eq_true in Hx as ->.
  - change (lit (String c (String d s))) with (Seq (Chr (λ x, bool_decide (x = c))) (lit (String d s))) in Hw.
    inversion Hw as [|? ? u v Hu Hv| | | |]; subst. inversion Hu as [P x Hx| | | | |]; subst. apply bool_decide_eq_true in Hx as ->.
    by rewrite (IH v).
Qed.

(** The text after the prefix of an expression. *)
Lemma Find_prefix p r s w : p ≠ "" → Find (Seq (lit p) r) s = Some w →
  lang r (trim_prefix p w) ∧ ∃ x y, s = x +:+ p +:+ trim_prefix p w +:+ y.
Proof.
  intros Hp Hf. pose proof (Find_correct (Seq (lit p) r) s) as Hc. rewrite Hf in Hc. destruct Hc as (a & b & -> & Hw & _).
  inversion Hw as [|? ? u v Hu Hv| | | |]; subst. rewrite (lit_lang p u Hp Hu), trim_prefix_app. split; [done|].
  exists a, b. by rewrite str_app_assoc.
Qed.

Lemma Find_prefix_none p r s : p ≠ "" → ¬ (∃ x y, s = x +:+ p +:+ y) → Find (Seq (lit p) r) s = None.
Proof.
  intros Hp Hno. pose proof (Find_correct (Seq (lit p) r) s) as Hc. destruct (Find _ s) as [w|]; [|done].
  destruct Hc as (a & b & -> & Hw & _). inversion Hw as [|? ? u v Hu Hv| | | |]; subst. destruct Hno.
  exists a, (v +:+ b). by rewrite (lit_lang p u Hp Hu), str_app_assoc.
Qed.

(** The version after a marker in the output. *)
Definition version_after (marker out v : string) : Prop := lang re_version v ∧ ∃ x y, out = x +:+ marker +:+ v +:+ y.

(** A rule with a marker, on the output of the program. *)
Lemma finish_output r rc out marker output app runs :
  is_master rc = true → appVersion rc = "" → exec rc (versionArgs r) = inl out → out ≠ "" →
  versionRegex r = Some (Seq (lit marker) re_version) → versionTrimPrefix r = marker → marker ≠ "" → versionTrimSuffix r = "" →
  match app with Some a => Matched a = false | None => True end → output = "" ∨ output = out →
  finish r rc (output, app, runs) =
    (out, Some (match Find (Seq (lit marker) re_version) out with
                | Some w => mkApp (name r) (trim_prefix marker w) (type_ r) (match confFunc r with Some f => f rc | None => "" end) true
                | None => mkApp (name r) "" (type_ r) (match confFunc r with Some f => f rc | None => "" end) false
                end), if decide (output = "") then S runs else runs).
Proof.
  intros Hm Hv He Ho Hx Hp Hne Hs Ha Hout. unfold finish.
  replace (match app with Some a => Matched a | None => false end) with false by by destruct app.
  rewrite Hm. cbn [negb]. rewrite decide_False by (rewrite Hv; auto). rewrite Hx, Hp, Hs.
  assert ((if decide (output = "") then (exec rc (versionArgs r), S runs) else (inl output, runs)) =
    (inl out, if decide (output = "") then S runs else runs)) as -> by (case_decide; [by rewrite He|by destruct Hout as [?| ->]]).
  cbv zeta. destruct (Find _ out); [|done]. rewrite (decide_True (P := marker ≠ "")) by done. by rewrite (decide_False (P := "" ≠ "")) by auto.
Qed.

(** The program is run once, and its output decides which server of the family of nginx is
    reported and with which version. *)
Theorem nginx_variant rc out :
  exec rc ["-v"] = inl out → out ≠ "" → is_master rc = true → appVersion rc = "" →
  ∃ o a, GenerateApp nginxRule rc = (o, Some a, 1) ∧ aType a = "web_service" ∧ aConf a = nginx_conf rc ∧
    match Find (Seq (lit "openresty/") re_version) out, Find (Seq (lit "Tengine/") re_version) out, Find (Seq (lit "nginx/") re_version) out with
    | Some _, _, _ => aName a = "openresty" ∧ version_after "openresty/" out (aVersion a)
    | None, Some _, _ => aName a = "tegine" ∧ version_after "Tengine/" out (aVersion a)
    | None, None, Some _ => aName a = "nginx" ∧ version_after "nginx/" out (aVersion a)
    | None, None, None => aName a = "nginx" ∧ aVersion a = ""
    end.
Proof.
  intros He Ho Hm Hv.
  assert (GenerateApp openrestyRule rc = _) as E1 by (apply (finish_output openrestyRule rc out "openresty/" "" None 0); auto).
  destruct (Find (Seq (lit "openresty/") re_version) out) as [w1|] eqn:F1.
  { cbn [GenerateApp sub nginxRule tengineRule]. rewrite E1. eexists _, _. split; [done|]. split_and!; try done. by apply Find_prefix. }
  eassert (GenerateApp tengineRule rc = _) as E2.
  { cbn [GenerateApp sub tengineRule]. rewrite E1. apply (finish_output tengineRule rc out "Tengine/" out); auto. }
  rewrite (decide_False (P := out = "")) in E2 by done. change (if decide ("" = "") then 1 else 0) with 1 in E2.
  destruct (Find (Seq (lit "Tengine/") re_version) out) as [w2|] eqn:F2.
  { cbn [GenerateApp sub nginxRule]. rewrite E2. eexists _, _. split; [done|]. split_and!; try done. by apply Find_prefix. }
  eassert (GenerateApp nginxRule rc = _) as E3.
  { cbn [GenerateApp sub nginxRule]. rewrite E2. apply (finish_output nginxRule rc out "nginx/" out); auto. }
  rewrite (decide_False (P := out = "")) in E3 by done. eexists _, _. split; [exact E3|].
  destruct (Find (Seq (lit "nginx/") re_version) out) as [w3|] eqn:F3; split_and!; try done. by apply Find_prefix.
Qed.

(** Nothing is reported for a process whose parent is the same program. *)
Lemma workers_left_out r rc : is_master rc = false → (GenerateApp r rc).1.2 = None.
Proof.
  intros Hm. revert r. fix IH 1. intros [n rx args ty tp ts cf [s|]]; cbn [GenerateApp sub]; unfold finish.
  - specialize (IH s). destruct (GenerateApp s rc) as [[o a] k]. cbn [fst snd] in IH. subst a. by rewrite Hm.
  - by rewrite Hm.
Qed.

(** The configuration named on the command line of Prometheus is never found. *)
Lemma prometheus_option_missed rc :
  ¬ (∃ x y, rcCmdline rc = x +:+ "--config,file" +:+ y) →
  confFunc prometheusRule = Some (λ rc, option_arg (opt_re "--config,file") (trim_opt "--config.file") rc (usual rc ["/etc/prometheus/prometheus.yml"])) ∧
  option_arg (opt_re "--config,file") (trim_opt "--config.file") rc (usual rc ["/etc/prometheus/prometheus.yml"]) =
  usual rc ["/etc/prometheus/prometheus.yml"].
Proof. intros Hno. split; [done|]. unfold option_arg, opt_re. by rewrite Find_prefix_none. Qed.

(** The versions that are kept are never used: they are stored under another key than they
    are looked up under, and what is stored is what was found there. *)
Lemma version_cache_inert cache ps vc :
  (∀ k v, vc !! k = Some v → v = "") →
  app_loop cache ps vc = ps ≫= λ p, option_list (app_process cache p ∅).1.
Proof.
  revert vc. induction ps as [|p ps IH]; intros vc Hvc; [done|]. cbn [app_loop]. rewrite bind_cons.
  assert ((app_process cache p vc).1 = (app_process cache p ∅).1 ∧ ∀ k v, (app_process cache p vc).2 !! k = Some v → v = "") as [E Hvc'].
  { unfold app_process. destruct (read_facts p) as [f|]; [|done]. destruct (ruleMap !! fComm f) as [rule|]; [|done].
    assert (default "" (vc !! (fExe f +:+ fPns f)) = "") as ->.
    { destruct (vc !! _) eqn:E; [by apply Hvc in E|done]. }
    rewrite lookup_empty. cbn [default]. destruct (GenerateApp rule _) as [[o [a|]] k]; [|done]. split; [done|].
    intros k' v'. cbn [snd]. intros [[_ <-]|[_ ?]]%lookup_insert_Some; [done|by eapply Hvc]. }
  destruct (app_process cache p vc) as [o vc']. cbn [fst snd] in *. by rewrite E, IH.
Qed.

End rules.
(** ** A host *)

Definition w_host : Procfs.Proc := {|
  Procfs.ReadFile f := if decide (f = "/proc/1/comm") then inl "systemd" else inr "no such file";
  Procfs.Readlink _ := ("", None); Procfs.Stat_ f := if decide (f = "/proc/1") then inl None else inr "no such file";
  Procfs.ReadDir _ := inl []; Procfs.Readdirnames _ := inl []; Procfs.GetUsername _ := ""; Procfs.GetGroupname _ := "";
  Procfs.hertz := 100; Procfs.btime := 0; Procfs.pageSize := 4096; Procfs.rpns := "1"; Procfs.FormatSeconds _ := ""; Procfs.hertz_pos := eq_refl |}.
Definition w_rc : RuleContext :=
  mkRC false "nginx" 0 0 "/" "" "/usr/sbin/nginx" "nginx -c /etc/n.conf" "1" (Procfs.mkProcess "9" "" "" "") "".
Definition w_exec (rc : RuleContext) (args : list string) : string + string := inl "nginx version: openresty/1.21.4.1".

Lemma nginx_variant_witness : ∃ o a, @GenerateApp w_host w_exec (@nginxRule w_host) w_rc = (o, Some a, 1) ∧
  aConf a = "/etc/n.conf" ∧ aName a = "openresty" ∧ version_after "openresty/" "nginx version: openresty/1.21.4.1" (aVersion a).
Proof.
  destruct (@nginx_variant w_host w_exec w_rc "nginx version: openresty/1.21.4.1") as (o & a & E & _ & Hc & Hv); [done..|].
  exists o, a. split; [exact E|]. split; [by rewrite Hc|exact Hv].
Defined.

End App.
