(* ===== verification/Baseline.v ===== *)
(** * The baseline plugin: rules, checks and reports

    Models [plugins/baseline/src/check] (the rule functions of [rules.go], the rule
    engine of [rule_engine.go], the reports of [analysis.go]), [infra.BindYaml] and the
    task and daily loops of [main.go].  The host the plugin inspects (files, commands)
    and the decoders are a parameter, the class [Host]; so is the regular-expression
    engine, for which every theorem is proved, except for the one expression that is
    written in the code, which [operator_match] spells out. *)

From Stdlib Require Import Ascii.
From S2P Require Import Prelude GoStrings GoText Bridge.
From stdpp Require Import options.

Local Open Scope Z_scope.

Create HintDb baseline.

Module Baseline.

(** ** Data *)

(** The dynamic types that occur behind [interface{}] in rules and results; a value
    of any other type that YAML can produce is [VOther]. *)
Inductive value := VBool (b : bool) | VInt (n : Z) | VString (s : string) | VOther.

Record RuleStruct := mkRule {
  Type_ : string;
  Param : list string;
  Filter : string;
  Require_ : string;
  Result : option value
}.

Record BaselineCheck := mkCheck { Condition : string; Rules : list RuleStruct }.

Record CheckInfo := mkCheckInfo {
  CheckId : Z; ciType : string; Title : string; TitleCn : string; Description : string;
  Solution : string; Security : string; TypeCn : string; DescriptionCn : string;
  SolutionCn : string; Check_ : BaselineCheck
}.

Record BaselineInfo := mkBaselineInfo {
  biId : Z; BaselineVersion : string; CheckList : list CheckInfo
}.

Record RetCheckInfo := mkRetCheckInfo {
  rCheckId : Z; rSecurity : string; rType : string; rTitle : string; rDescription : string;
  rSolution : string; rTypeCn : string; rTitleCn : string; rDescriptionCn : string;
  rSolutionCn : string; rResult : Z; rMsg : string
}.

Record RetBaselineInfo := mkRetBaselineInfo {
  BaselineId : Z; rBaselineVersion : string; Status : string; Msg : string;
  rCheckList : list RetCheckInfo
}.

Record TaskData := mkTaskData { tBaselineId : Z; CheckIdList : list Z }.

Definition SuccessCode : Z := 1.
Definition FailCode : Z := 2.
Definition ErrorCode : Z := -1.
Definition ErrorConfigWrite : Z := -2.
Definition ErrorFile : Z := -3.

Definition BaselineStatusError := "error".
Definition BaselineStatusSuccess := "success".

(** What a rule function returns: a value and an error text. *)
Abbreviation result A := (A * option string)%type.

(** ** The host *)

Record FileInfo := mkFileInfo { Mode : Z; Uid : Z; Gid : Z }.

(** An open file: what can be read of it, and the error reading ends with, if any. *)
Record File := mkFile { content : string; read_error : option string }.

Class Host := {
  os_Stat : string → FileInfo + string;
  os_Open : string → File + string;
  (** What the command wrote, and the error it ended with, if any. *)
  exec_Output : string → list string → string * option string;
  (** [regexp.Compile] and [FindStringSubmatch] of an expression on a text. *)
  FindStringSubmatch : string → string → list string + string;
  md5_Sum : string → string;
  strconv_Quote : string → string;
  yaml_Decode : File → BaselineInfo + string;
  json_TaskData : string → TaskData + string;
  json_Marshal : RetBaselineInfo → string + string
}.

(** [file, _ := os.Open(path)] followed by scanning: no line if it cannot be opened. *)
Definition lines_of `{Host} (path : string) : list string :=
  match os_Open path with inl f => scan_lines (content f) | inr _ => [] end.

(** [strconv.FormatInt(n, 8)] of a non-negative number; 11 digits hold 32 bits. *)
Fixpoint oct_digits (fuel : nat) (n : Z) (acc : string) : string :=
  match fuel with
  | O => acc
  | S fuel =>
      let acc := String (ascii_of_N (48 + Z.to_N (n mod 8))) acc in
      if decide (n < 8) then acc else oct_digits fuel (n / 8) acc
  end.
Definition FormatInt8 (n : Z) : string := oct_digits 11 n "".

(** The text of the error of [strconv.Atoi]. *)
Definition num_error_text `{Host} (s : string) (e : num_error) : string :=
  "strconv.Atoi: parsing " +:+ strconv_Quote s +:+
  match e with ErrSyntax => ": invalid syntax" | ErrRange => ": value out of range" end.

(** ** Rule functions ([rules.go]) *)

Section rules.
Context `{Host}.

Definition config_error (s : string) : option string := Some (itoa ErrorConfigWrite +:+ ":" +:+ s).

Definition CommandCheck (param : list string) : result value :=
  let run command special :=
    let argArray := str_split " " command in
    match exec_Output (default "" (head argArray)) (tail argArray) with
    | (_, Some _) => if decide (special = "ignore_exit") then (VBool true, None) else (VBool false, None)
    | (buf, None) => (VString buf, None)
    end in
  match param with
  | [command] => run command ""
  | [command; special] => run command special
  | _ => (VString "", config_error "command_check params num error")
  end.

Definition IfFileExist (param : list string) : result value :=
  match param with
  | [filePath] =>
      match os_Stat filePath with
      | inr _ => (VBool false, None)
      | inl _ => (VBool true, None)
      end
  | _ => (VString "", config_error "if_file_exist params num error")
  end.

Fixpoint ssh_loop (lines : list string) : bool :=
  match lines with
  | [] => false
  | text :: lines =>
      let line := trim_space text in
      if bool_decide (len line > 2) && has_prefix "#" line then ssh_loop lines
      else if str_contains "PasswordAuthentication" line && str_contains "yes" line then true
      else ssh_loop lines
  end.
Definition IfAllowSshPasswd : bool := ssh_loop (lines_of "/etc/ssh/sshd_config").

(** The loop over the lines of a file: skip comments and lines without the flag, stop
    at the first line that matches. *)
Definition is_comment (note line : string) : bool :=
  bool_decide (len line > len note) && has_prefix note line.

Fixpoint line_loop (pass : string → outcome (result bool)) (flag note : string) (lines : list string)
  : outcome bool :=
  match lines with
  | [] => Ret false
  | text :: lines =>
      let line := trim_space text in
      if is_comment note line then line_loop pass flag note lines
      else if bool_decide (flag ≠ "") && negb (str_contains flag line) then line_loop pass flag note lines
      else
        let! (ifPass, _) := pass text in
        if ifPass : bool then Ret true else line_loop pass flag note lines
  end.

Definition FileLineCheck (ruleStruct : RuleStruct) (resultMatch : RuleStruct → value → outcome (result bool))
  : outcome (result bool) :=
  if bool_decide (Require_ ruleStruct = "allow_ssh_passwd") && negb IfAllowSshPasswd
  then Ret (true, None)
  else
    match Param ruleStruct with
    | [] => Panic "index out of range [0] with length 0"
    | filePath :: rest =>
        let flag := default "" (rest !! 0%nat) in
        let note := default "#" (rest !! 1%nat) in
        match os_Open filePath with
        | inr err =>
            if str_contains "no such" err then Ret (false, None)
            else Ret (false, Some (itoa ErrorFile +:+ ":open file " +:+ filePath +:+ " Error " +:+ err))
        | inl file =>
            let! found := line_loop (λ text, resultMatch ruleStruct (VString text)) flag note
                            (scan_lines (content file)) in
            Ret (found, None)
        end
    end.

Definition FilePermission (param : list string) : result bool :=
  match param with
  | filePath :: mode :: _ =>
      let '(fileNeedMode, err) := atoi mode in
      match err with
      | Some e => (false, Some (num_error_text mode e))
      | None =>
          match os_Stat filePath with
          | inr err => if str_contains "no such file" err then (true, None) else (false, Some err)
          | inl fileInfo =>
              let text := FormatInt8 (Mode fileInfo) in
              let '(fileRealMode, err) := atoi text in
              match err with
              | Some e => (false, Some (num_error_text text e))
              | None => (bool_decide (fileRealMode < fileNeedMode), None)
              end
          end
      end
  | _ => (false, Some "FilePermission param length need at least 2")
  end.

Definition FileUserGroup (param : list string) : result bool :=
  match param with
  | filePath :: ids :: _ =>
      match str_split ":" ids with
      | [userNeedId; groupNeedId] =>
          match os_Stat filePath with
          | inr err => (false, Some err)
          | inl fileInfo =>
              (bool_decide (userNeedId = itoa (Uid fileInfo) ∧ groupNeedId = itoa (Gid fileInfo)), None)
          end
      | _ => (false, Some "file_user_group rule wrong!")
      end
  | _ => (false, Some "FileUserGroup param length need at least 2")
  end.

Definition FileMd5Check (param : list string) : result bool :=
  match param with
  | filePath :: fileMd5 :: _ =>
      match os_Open filePath with
      | inr _ => (false, Some ("file_md5_check : no file find " +:+ filePath))
      | inl file =>
          match read_error file with
          | Some err => (false, Some err)
          | None => (bool_decide (fileMd5 = hex_EncodeToString (md5_Sum (content file))), None)
          end
      end
  | _ => (false, Some "file_md5_check param length need at least 2")
  end.

Fixpoint duplicate_loop (userSet : gset string) (lines : list string) : bool :=
  match lines with
  | [] => true
  | text :: lines =>
      match str_cut ":" text with
      | None => duplicate_loop userSet lines
      | Some (username, _) =>
          if decide (username ∈ userSet) then false
          else duplicate_loop ({[username]} ∪ userSet) lines
      end
  end.
Definition IfDuplicateUser : bool := duplicate_loop ∅ (lines_of "/etc/passwd").

Definition FuncCheck (param : list string) : result value :=
  match param with
  | [] => (VString "", config_error "command_check params num error")
  | name :: _ =>
      (VBool (if decide (name = "Ensure no duplicate user names exist") then IfDuplicateUser else false), None)
  end.

End rules.

(** ** The rule engine ([rule_engine.go]) *)

Section engine.
Context `{Host}.

Definition StringMatch (str reg : string) : string * bool * option string :=
  match FindStringSubmatch reg str with
  | inr err => ("", false, Some err)
  | inl [] => ("", false, None)
  | inl [_] => ("", true, None)
  | inl (_ :: sub :: _) => (sub, true, None)
  end.

(** The first group of the expression [\$\((.+)\)] on a text: the leftmost [$(] that is
    followed, on the same line, by a [)] with something in between, up to the last such
    [)] of the line. *)
Fixpoint to_last_paren (s : string) : option string :=
  match s with
  | "" => None
  | String c s' =>
      if decide (c = "010"%char) then None
      else match to_last_paren s' with
           | Some t => Some (String c t)
           | None => if decide (c = ")"%char) then Some "" else None
           end
  end.

Fixpoint operator_match (s : string) : option string :=
  match (match strip_prefix "$(" s with
         | Some r => match to_last_paren r with Some "" | None => None | Some op => Some op end
         | None => None
         end) with
  | Some op => Some op
  | None => match s with "" => None | String _ s' => operator_match s' end
  end.

Definition relation (operator : string) (funcInt ruleInt : Z) : bool :=
  if decide (operator = "<") then bool_decide (funcInt < ruleInt)
  else if decide (operator = "<=") then bool_decide (funcInt ≤ ruleInt)
  else if decide (operator = ">") then bool_decide (funcInt > ruleInt)
  else if decide (operator = ">=") then bool_decide (funcInt >= ruleInt)
  else false.

(** [rule[n:]]. *)
Definition slice_from (n : Z) (s : string) : outcome string :=
  if decide (n ≤ len s) then Ret (str_drop (Z.to_nat n) s)
  else Panic "slice bounds out of range".

Definition DealMathCompute (funcRes : value) (ruleRes : string) : outcome (result bool) :=
  match operator_match ruleRes with
  | None => Ret (false, None)
  | Some operator =>
      let! rule := slice_from (len operator + 3) ruleRes in
      let '(ruleInt, err) := atoi rule in
      match funcRes with
      | VInt funcInt =>
          Ret (relation operator funcInt ruleInt, num_error_text rule <$> err)
      | VString s =>
          let '(funcInt, err) := atoi s in
          match err with
          | Some _ => Ret (false, config_error ("need get num,but get " +:+ s))
          | None => Ret (relation operator funcInt ruleInt, None)
          end
      | _ => Ret (false, config_error "need get num,but get unkown type")
      end
  end.

(** The subrules of a rule that is a string.  [funcRes] is a string here. *)
Fixpoint match_subrules (funcRes subStr : string) (ruleArray : list string) (err : option string)
  : outcome (result bool) :=
  match ruleArray with
  | [] => Ret (true, err)
  | rule :: ruleArray =>
      let '(reverse, rule) :=
        match strip_prefix "$(not)" rule with Some r => (true, r) | None => (false, rule) end in
      let finish '(ifPass, err) :=
        let ifPass := if reverse : bool then negb ifPass else ifPass in
        if ifPass : bool then match_subrules funcRes subStr ruleArray err else Ret (false, err) in
      if has_prefix "$(" rule then
        let! (ifPass, err) := DealMathCompute (VString (if decide (subStr ≠ "") then subStr else funcRes)) rule in
        match err with
        | Some e => Ret (false, Some e)
        | None => finish (ifPass, err)
        end
      else
        let '(_, ifPass, err) := StringMatch funcRes rule in
        finish (ifPass, err)
  end.

Definition ResultMatch (ruleStruct : RuleStruct) (funcRes : value) : outcome (result bool) :=
  match default (VBool true) (Result ruleStruct) with
  | VBool b =>
      match funcRes with
      | VBool b' => Ret (bool_decide (b = b'), None)
      | _ => Ret (false, config_error "rule is bool, but get other type")
      end
  | VInt n =>
      match funcRes with
      | VString s =>
          let '(funcInt, err) := atoi s in
          match err with
          | None => Ret (bool_decide (n = funcInt), None)
          | Some _ => Ret (false, config_error ("rule is int,but get string : " +:+ s))
          end
      | VInt m => Ret (bool_decide (n = m), None)
      | _ => Ret (false, config_error "rule is int, but get other type")
      end
  | VString ruleString =>
      let go funcRes :=
        let ruleArray :=
          if str_contains "$(&&)" ruleString then str_split "$(&&)" ruleString else [ruleString] in
        if decide (Filter ruleStruct ≠ "") then
          let '(subStr, ifMatch, err) := StringMatch funcRes (Filter ruleStruct) in
          if decide (err ≠ None ∨ ifMatch = false)
          then Ret (false, config_error ("rule filter error : funcRes:" +:+ funcRes +:+ ", rule:" +:+ Filter ruleStruct))
          else match_subrules funcRes subStr ruleArray err
        else match_subrules funcRes "" ruleArray None in
      match funcRes with
      | VInt n => go (itoa n)
      | VString s => go s
      | VBool b => Ret (b, None)
      | VOther => Ret (false, config_error "rule is string, but get other type")
      end
  | VOther => Ret (true, None)
  end.

End engine.

Section analysis.
Context `{Host}.

(** What the function of the rule's type returns. *)
Definition rule_function (ruleStruct : RuleStruct) : outcome (result value) :=
  let bool_result '(b, err) := (VBool b, err) in
  let ty := Type_ ruleStruct in
  if decide (ty = "command_check") then Ret (CommandCheck (Param ruleStruct))
  else if decide (ty = "if_file_exist") then Ret (IfFileExist (Param ruleStruct))
  else if decide (ty = "file_permission") then Ret (bool_result (FilePermission (Param ruleStruct)))
  else if decide (ty = "file_user_group") then Ret (bool_result (FileUserGroup (Param ruleStruct)))
  else if decide (ty = "file_line_check") then
    let! r := FileLineCheck ruleStruct ResultMatch in Ret (bool_result r)
  else if decide (ty = "func_check") then Ret (FuncCheck (Param ruleStruct))
  else if decide (ty = "file_md5_check") then Ret (bool_result (FileMd5Check (Param ruleStruct)))
  else Ret (VOther, config_error ("unknown rule type:" +:+ ty)).

Definition CheckRule (ruleStruct : RuleStruct) : outcome (result bool) :=
  let! (funcRes, err) := rule_function ruleStruct in
  match err with
  | Some e => Ret (false, Some e)
  | None =>
      let! (ifPass, err) :=
        if decide (Type_ ruleStruct = "file_line_check")
        then match funcRes with VBool b => Ret (b, None) | _ => Panic "interface conversion" end
        else ResultMatch ruleStruct funcRes in
      match err with
      | Some e => Ret (false, Some e)
      | None => Ret (ifPass, None)
      end
  end.

Fixpoint rules_loop (condition : string) (rules : list RuleStruct) : outcome (result bool) :=
  match rules with
  | [] => if decide (condition = "any") then Ret (false, None) else Ret (true, None)
  | rule :: rules =>
      let! (ifCheck, err) := CheckRule rule in
      match err with
      | Some e => Ret (false, Some e)
      | None =>
          if ifCheck : bool then
            if decide (condition = "any") then Ret (true, None)
            else if decide (condition = "none") then Ret (false, None)
            else rules_loop condition rules
          else if decide (condition = "all") then Ret (false, None)
          else rules_loop condition rules
      end
  end.

Definition AnalysisRule (check : BaselineCheck) : outcome (result bool) :=
  rules_loop (if decide (Condition check = "") then "all" else Condition check) (Rules check).

(** ** Reports ([analysis.go], [infra/yaml.go]) *)

(** [BindYaml] into a zero value: the error of [os.Open] is lost in the inner scope. *)
Definition BindYaml (filePath : string) : result BaselineInfo :=
  match os_Open filePath with
  | inr _ => (mkBaselineInfo 0 "" [], None)
  | inl f =>
      match yaml_Decode f with
      | inl info => (info, None)
      | inr err => (mkBaselineInfo 0 "" [], Some err)
      end
  end.

Definition getBaselineConfigData (baselineId : Z) : result BaselineInfo :=
  BindYaml (if decide (baselineId < 6000)
            then "config/linux/" +:+ itoa baselineId +:+ ".yaml"
            else "config/container/" +:+ itoa baselineId +:+ ".yaml").

(** [err.Error()[:n]]. *)
Definition slice_to (n : Z) (s : string) : outcome string :=
  if decide (n ≤ len s) then Ret (str_take (Z.to_nat n) s)
  else Panic "slice bounds out of range".

(** The code and the message a check is reported with. *)
Definition check_result (r : result bool) : outcome (Z * string) :=
  match r with
  | (_, Some err) =>
      let! code := slice_to 2 err in
      let errCode := (atoi code).1 in
      if decide (errCode = ErrorFile) then let! m := slice_from 3 err in Ret (ErrorFile, m)
      else if decide (errCode = ErrorConfigWrite) then let! m := slice_from 3 err in Ret (ErrorConfigWrite, m)
      else Ret (ErrorCode, err)
  | (true, None) => Ret (SuccessCode, "")
  | (false, None) => Ret (FailCode, "")
  end.

Definition report (c : CheckInfo) (r : Z * string) : RetCheckInfo :=
  mkRetCheckInfo (CheckId c) (Security c) (ciType c) (Title c) (Description c) (Solution c)
    (TypeCn c) (TitleCn c) (DescriptionCn c) (SolutionCn c) r.1 r.2.

Fixpoint checks_loop (checkIdList : list Z) (checks : list CheckInfo) : outcome (list RetCheckInfo) :=
  match checks with
  | [] => Ret []
  | c :: checks =>
      if bool_decide (length checkIdList ≠ 0%nat) && bool_decide (CheckId c ∉ checkIdList)
      then checks_loop checkIdList checks
      else
        let! v := AnalysisRule (Check_ c) in
        let! r := check_result v in
        let! rest := checks_loop checkIdList checks in
        Ret (report c r :: rest)
  end.

Definition AnalysisBaseline (taskData : TaskData) : outcome (result RetBaselineInfo) :=
  let baselineId := tBaselineId taskData in
  let '(baselineInfo, err) := getBaselineConfigData baselineId in
  match err with
  | Some e => Ret (mkRetBaselineInfo baselineId "" "" "" [], Some e)
  | None =>
      let! checks := checks_loop (CheckIdList taskData) (CheckList baselineInfo) in
      Ret (mkRetBaselineInfo baselineId (BaselineVersion baselineInfo) "" "" checks, None)
  end.

Definition with_status (status msg : string) (r : RetBaselineInfo) : RetBaselineInfo :=
  mkRetBaselineInfo (BaselineId r) (rBaselineVersion r) status msg (rCheckList r).

Definition Analysis (data : Z + string) : outcome (result RetBaselineInfo) :=
  let run taskData :=
    let! (ret, err) := AnalysisBaseline taskData in
    match err with
    | Some e => Ret (with_status BaselineStatusError e ret, err)
    | None => Ret (with_status BaselineStatusSuccess (Msg ret) ret, None)
    end in
  match data with
  | inl id => run (mkTaskData id [])
  | inr text =>
      match json_TaskData text with
      | inl taskData => run taskData
      | inr e => Ret (mkRetBaselineInfo 0 "" BaselineStatusError e [], Some e)
      end
  end.

(** ** The plugin ([main.go], [linux/os_system.go]) *)

Definition BaseLineDataType : Z := 8000.
Definition BaseLineTaskStatusDataType : Z := 8010.
Definition TaskStatusSuccess := "succeed".
Definition TaskStatusFailed := "failed".

(** The record [SendServer] sends, unless the result cannot be encoded. *)
Definition SendServer (now : Z) (ret : RetBaselineInfo) (token : string) : option Bridge.Record_ :=
  match json_Marshal ret with
  | inr _ => None
  | inl dataInfo =>
      Some (Bridge.mkRecord (int32 BaseLineDataType) now
              (Some (Bridge.mkPayload (<["token" := token]> (<["data" := dataInfo]> ∅)))))
  end.

Definition TaskStatusSendServer (now : Z) (status token msg : string) : Bridge.Record_ :=
  let field : gmap string string := <["status" := status]> ∅ in
  let field := if decide (token ≠ "") then <["token" := token]> field else field in
  let field := <["msg" := msg]> field in
  Bridge.mkRecord (int32 BaseLineTaskStatusDataType) now (Some (Bridge.mkPayload field)).

(** The records one analysis sends: its result and its status. *)
Definition analyse_and_send (now : Z) (data : Z + string) (token : string) : outcome (list Bridge.Record_) :=
  let! (ret, analysisErr) := Analysis data in
  Ret (option_list (SendServer now ret token) ++
       [match analysisErr with
        | Some e => TaskStatusSendServer now TaskStatusFailed token e
        | None => TaskStatusSendServer now TaskStatusSuccess token ""
        end]).

Definition handle_task (now : Z) (task : Bridge.Task) : outcome (list Bridge.Record_) :=
  analyse_and_send now (inr (Bridge.taskData task)) (Bridge.Token task).

Definition GetSystemType : string :=
  let cmdStr := (exec_Output "cat" ["/etc/issue"]).1 in
  if str_contains "Ubuntu" cmdStr then "ubuntu"
  else if str_contains "Debian" cmdStr then "debian"
  else "centos".

(** [None]: the daily task ends the plugin. *)
Definition default_list (system : string) : option (list Z) :=
  if decide (system = "centos") then Some [1200]
  else if decide (system = "debian") then Some [1300]
  else if decide (system = "ubuntu") then Some [1400]
  else None.

Fixpoint daily_loop (now : Z) (ids : list Z) : outcome (list Bridge.Record_) :=
  match ids with
  | [] => Ret []
  | id :: ids =>
      let! l := analyse_and_send now (inl id) "" in
      let! l' := daily_loop now ids in
      Ret (l ++ l')
  end.

Definition daily (now : Z) : outcome (option (list Bridge.Record_)) :=
  match default_list GetSystemType with
  | None => Ret None
  | Some ids => let! l := daily_loop now ids in Ret (Some l)
  end.

End analysis.

(** ** File permissions *)

(** The octal digits of a number, read in base 10. *)
Fixpoint oct_value (fuel : nat) (n : Z) : Z :=
  match fuel with
  | O => 0
  | S fuel => if decide (n < 8) then n mod 8 else oct_value fuel (n / 8) * 10 + n mod 8
  end.

Lemma digit_of_oct d : 0 ≤ d < 8 → digit_of (ascii_of_N (48 + Z.to_N d)) = Some (Z.to_N d).
Proof.
  intros Hd. assert (d = 0 ∨ d = 1 ∨ d = 2 ∨ d = 3 ∨ d = 4 ∨ d = 5 ∨ d = 6 ∨ d = 7) as Hc by lia.
  by destruct_or!; subst.
Qed.

Lemma oct_digits_forall fuel n acc :
  str_forall is_digit acc = true → str_forall is_digit (oct_digits fuel n acc) = true.
Proof.
  revert n acc. induction fuel as [|fuel IH]; intros n acc Ha; [done|].
  cbn [oct_digits].
  assert (str_forall is_digit (String (ascii_of_N (48 + Z.to_N (n mod 8))) acc) = true) as Hc.
  { cbn [str_forall]. unfold is_digit. rewrite digit_of_oct by (apply Z.mod_pos_bound; lia). done. }
  case_decide; [exact Hc | by apply IH].
Qed.

Lemma oct_value_bound fuel n : 0 ≤ n → 0 ≤ oct_value fuel n < 10 ^ Z.of_nat fuel.
Proof.
  revert n. induction fuel as [|fuel IH]; intros n Hn; [done|].
  rewrite Nat2Z.inj_succ, Z.pow_succ_r by lia. cbn [oct_value].
  pose proof (Z.mod_pos_bound n 8). pose proof (IH (n / 8) ltac:(apply Z.div_pos; lia)).
  case_decide; lia.
Qed.

Lemma oct_value_lt fuel n m :
  0 ≤ n → n < m → m < 8 ^ Z.of_nat fuel → oct_value fuel n < oct_value fuel m.
Proof.
  revert n m. induction fuel as [|fuel IH]; intros n m Hn Hlt Hm.
  { change (8 ^ Z.of_nat 0) with 1 in Hm. lia. }
  rewrite Nat2Z.inj_succ, Z.pow_succ_r in Hm by lia. cbn [oct_value].
  pose proof (Z.mod_pos_bound n 8). pose proof (Z.mod_pos_bound m 8).
  pose proof (Z.div_mod n 8). pose proof (Z.div_mod m 8).
  assert (m / 8 < 8 ^ Z.of_nat fuel) by (apply Z.div_lt_upper_bound; lia).
  assert (0 ≤ n / 8) by (apply Z.div_pos; lia).
  pose proof (oct_value_bound fuel (m / 8) ltac:(apply Z.div_pos; lia)).
  destruct (decide (n / 8 = m / 8)) as [E|Hne].
  { rewrite E. repeat case_decide; lia. }
  pose proof (IH (n / 8) (m / 8) ltac:(lia) ltac:(lia) ltac:(lia)).
  pose proof (oct_value_bound fuel (n / 8) ltac:(lia)).
  repeat case_decide; lia.
Qed.

Lemma parse_oct_digits fuel n acc :
  0 ≤ n → Z.of_nat fuel ≤ 11 →
  parse_uint_go 0 (oct_digits fuel n acc) = parse_uint_go (Z.to_N (oct_value fuel n)) acc.
Proof.
  revert n acc. induction fuel as [|fuel IH]; intros n acc Hn Hf; [done|].
  cbn [oct_digits oct_value].
  assert (∀ a, 0 ≤ a < 10 ^ 10 →
    parse_uint_go (Z.to_N a) (String (ascii_of_N (48 + Z.to_N (n mod 8))) acc)
    = parse_uint_go (Z.to_N (a * 10 + n mod 8)) acc) as Hstep.
  { intros a Ha. cbn [parse_uint_go]. pose proof (Z.mod_pos_bound n 8 ltac:(lia)).
    rewrite digit_of_oct by lia. rewrite decide_False by (unfold maxUint64; lia).
    f_equal. lia. }
  case_decide.
  - rewrite <-(Z.add_0_l (n mod 8)). change 0 with (0 * 10) at 2. rewrite <-Hstep by lia. done.
  - rewrite IH by (try apply Z.div_pos; lia). apply Hstep.
    pose proof (oct_value_bound fuel (n / 8) ltac:(apply Z.div_pos; lia)).
    assert (10 ^ Z.of_nat fuel ≤ 10 ^ 10) by (apply Z.pow_le_mono_r; lia). lia.
Qed.

Lemma oct_digits_ne fuel n acc : acc ≠ "" → oct_digits fuel n acc ≠ "".
Proof.
  revert n acc. induction fuel as [|fuel IH]; intros n acc Ha; [done|].
  cbn [oct_digits]. case_decide; [done|]. by apply IH.
Qed.

Lemma atoi_FormatInt8 n : 0 ≤ n → atoi (FormatInt8 n) = (oct_value 11 n, None).
Proof.
  intros Hn. pose proof (oct_value_bound 11 n Hn) as Hb.
  pose proof (oct_digits_forall 11 n "" eq_refl) as Hd.
  pose proof (parse_oct_digits 11 n "" Hn ltac:(lia)) as Hp.
  assert (oct_digits 11 n "" ≠ "") as Hne.
  { change (oct_digits 11 n "") with
      (let acc := String (ascii_of_N (48 + Z.to_N (n mod 8))) "" in
       if decide (n < 8) then acc else oct_digits 10 (n / 8) acc).
    cbv zeta. case_decide; [done|]. by apply oct_digits_ne. }
  unfold atoi, FormatInt8. revert Hd Hp Hne.
  generalize (oct_digits 11 n ""). intros [|c s] Hd Hp Hne; [done|].
  cbn [str_forall] in Hd. apply andb_true_iff in Hd as [Hc _].
  rewrite parse_int_unsigned by done. unfold parse_uint.
  rewrite decide_False by done. rewrite Hp. cbn [parse_uint_go]. rewrite decide_False by lia.
  f_equal. lia.
Qed.

Section theorems.
Context `{Host}.

(** [FilePermission] compares permissions as numbers: for a file of mode [m] and a
    configured mode written in octal as [n], the rule passes exactly if [m < n].  So a
    file with the very mode that is configured does not pass, and one that grants others
    what the configured mode withholds may pass, as 066 does for 644. *)
Theorem FilePermission_compares filePath m uid gid n more :
  os_Stat filePath = inl (mkFileInfo m uid gid) →
  in_u 32 m → in_u 32 n →
  FilePermission (filePath :: FormatInt8 n :: more) = (bool_decide (m < n), None).
Proof.
  intros Hs Hm Hn. unfold in_u in *. unfold FilePermission.
  rewrite atoi_FormatInt8 by lia. rewrite Hs. cbn [Mode]. rewrite atoi_FormatInt8 by lia.
  f_equal. apply bool_decide_ext. split; intros Hlt.
  - destruct (Z_lt_le_dec m n) as [|Hge]; [done|exfalso].
    destruct (decide (n = m)) as [->|]; [lia|].
    pose proof (oct_value_lt 11 n m). lia.
  - apply oct_value_lt; lia.
Qed.

(** ** Totality

    A result that is returned, with an error text long enough to hold a code. *)
Definition loud (e : option string) : Prop := ∀ s, e = Some s → 3 ≤ len s.
Definition answers {A} (o : outcome (result A)) : Prop := ∃ a e, o = Ret (a, e) ∧ loud e.

(** What is assumed of the texts of the errors of the host. *)
Definition texts_loud : Prop :=
  (∀ path err, os_Stat path = inr err → 3 ≤ len err) ∧
  (∀ path f err, os_Open path = inl f → read_error f = Some err → 3 ≤ len err) ∧
  (∀ reg s err, FindStringSubmatch reg s = inr err → 3 ≤ len err).

Lemma loud_None : loud None.
Proof. by intros ? [=]. Qed.

Lemma loud_app a b : 3 ≤ len a → loud (Some (a +:+ b)).
Proof. intros Ha s [= <-]. rewrite str_length_app. lia. Qed.

Lemma loud_config s : loud (config_error s).
Proof.
  unfold config_error. change (itoa ErrorConfigWrite) with "-2". rewrite <-str_app_assoc.
  by apply loud_app.
Qed.

Lemma loud_num s e : loud (Some (num_error_text s e)).
Proof. by apply loud_app. Qed.

Lemma answers_ret {A} (a : A) e : loud e → answers (Ret (a, e)).
Proof. intros. by exists a, e. Qed.

#[local] Hint Resolve loud_None loud_config loud_num answers_ret : baseline.

Lemma to_last_paren_length s t : to_last_paren s = Some t → len t + 1 ≤ len s.
Proof.
  revert t. induction s as [|c s IH]; intros t; [done|]. cbn [to_last_paren].
  case_decide; [done|]. destruct (to_last_paren s) as [t'|].
  - intros [= <-]. specialize (IH t' eq_refl). cbn [String.length]. lia.
  - case_decide; [|done]. intros [= <-]. cbn [String.length]. lia.
Qed.

Lemma operator_match_length s op : operator_match s = Some op → len op + 3 ≤ len s.
Proof.
  induction s as [|c s IH]; [done|].
  assert (∀ r, strip_prefix "$(" (String c s) = Some r → to_last_paren r = Some op → len op + 3 ≤ len (String c s)) as Hhere.
  { intros r Hr%strip_prefix_Some Ht%to_last_paren_length. rewrite Hr, str_length_app. cbn. lia. }
  intros Hm. change (operator_match (String c s)) with
    (match (match strip_prefix "$(" (String c s) with
            | Some r => match to_last_paren r with Some "" | None => None | Some op => Some op end
            | None => None end) with
     | Some op => Some op | None => operator_match s end) in Hm.
  destruct (strip_prefix "$(" (String c s)) as [r|] eqn:Hr.
  - destruct (to_last_paren r) as [[|d t]|] eqn:Ht.
    + specialize (IH Hm). cbn [String.length]. lia.
    + injection Hm as <-. by eapply Hhere.
    + specialize (IH Hm). cbn [String.length]. lia.
  - specialize (IH Hm). cbn [String.length]. lia.
Qed.

Lemma DealMathCompute_answers v r : answers (DealMathCompute v r).
Proof.
  unfold DealMathCompute. destruct (operator_match r) as [op|] eqn:Hm; [|auto with baseline].
  apply operator_match_length in Hm. unfold slice_from. rewrite decide_True by lia. cbn [obind].
  destruct (atoi _) as [n [e|]]; destruct v as [| |s|]; cbn [fmap option_fmap option_map];
    try (destruct (atoi s) as [m [e'|]]); auto with baseline.
Qed.

Section total.
Context (HT : texts_loud).

Lemma StringMatch_loud s r sub b e : StringMatch s r = (sub, b, e) → loud e.
Proof using HT.
  unfold StringMatch. destruct HT as (_ & _ & HR). destruct (FindStringSubmatch r s) as [[|? [|? ?]]|err] eqn:E;
    intros [= <- <- <-]; auto with baseline.
  intros ? [= <-]. by eapply HR.
Qed.

Lemma match_subrules_answers f sub l e : loud e → answers (match_subrules f sub l e).
Proof using HT.
  revert e. induction l as [|r l IH]; intros e He; [by apply answers_ret|].
  cbn [match_subrules]. destruct (match strip_prefix "$(not)" r with Some _ => _ | None => _ end) as [rev r'].
  case_match.
  - destruct (DealMathCompute_answers (VString (if decide (sub ≠ "") then sub else f)) r') as (b & e' & -> & He').
    cbn [obind]. destruct e' as [e'|]; [auto with baseline|]. destruct rev, b; cbn [negb]; auto with baseline.
  - destruct (StringMatch f r') as [[? b] e'] eqn:E. apply StringMatch_loud in E.
    destruct rev, b; cbn [negb]; auto with baseline.
Qed.

Lemma ResultMatch_answers r v : answers (ResultMatch r v).
Proof using HT.
  unfold ResultMatch.
  destruct (default (VBool true) (Result r)) as [b|n|rs|]; [..|auto with baseline];
    destruct v as [b'|n'|s|]; auto with baseline.
  - destruct (atoi s) as [m [e|]]; auto with baseline.
  - case_decide; [|by apply match_subrules_answers, loud_None].
    destruct (StringMatch (itoa n') (Filter r)) as [[sub m] e] eqn:E. apply StringMatch_loud in E.
    case_decide; [auto with baseline|]. by apply match_subrules_answers.
  - case_decide; [|by apply match_subrules_answers, loud_None].
    destruct (StringMatch s (Filter r)) as [[sub m] e] eqn:E. apply StringMatch_loud in E.
    case_decide; [auto with baseline|]. by apply match_subrules_answers.
Qed.

(** A line that satisfies a rule: not a comment, with the flag, and matching. *)
Definition line_hits (rule : RuleStruct) (flag note text : string) : Prop :=
  is_comment note (trim_space text) = false ∧
  (flag = "" ∨ str_contains flag (trim_space text) = true) ∧
  ∃ err, ResultMatch rule (VString text) = Ret (true, err).

Lemma line_loop_found rule flag note lines :
  ∃ b, line_loop (λ text, ResultMatch rule (VString text)) flag note lines = Ret b ∧
    (b = true ↔ Exists (line_hits rule flag note) lines).
Proof using HT.
  induction lines as [|text lines (b & IH & Hb)].
  { exists false. split; [done|]. by rewrite Exists_nil. }
  setoid_rewrite Exists_cons. unfold line_hits at 1. cbn [line_loop].
  destruct (is_comment note (trim_space text)); [exists b; naive_solver|].
  destruct (bool_decide (flag ≠ "") && negb (str_contains flag (trim_space text))) eqn:Hf.
  { apply andb_true_iff in Hf as [Hf%bool_decide_eq_true Hc%negb_true_iff].
    exists b. split; [done|]. rewrite Hc. naive_solver. }
  apply andb_false_iff in Hf. rewrite bool_decide_eq_false, negb_false_iff in Hf.
  destruct (ResultMatch_answers rule (VString text)) as (b' & e & Hr & _).
  rewrite Hr. cbn [obind]. destruct b'.
  - exists true. split; [done|]. split; [|done]. intros _. left.
    split; [done|]. split; [|by exists e]. destruct Hf as [Hf|Hf]; [|by right]. left.
    by destruct (decide (flag = "")).
  - exists b. split; [done|]. rewrite Hb. naive_solver.
Qed.

Definition rule_ok (r : RuleStruct) : Prop := Type_ r = "file_line_check" → Param r ≠ [].

Lemma CommandCheck_loud param : loud (CommandCheck param).2.
Proof.
  unfold CommandCheck. destruct param as [|c [|s [|]]]; try destruct (exec_Output _ _) as [? [|]];
    try case_decide; cbn [snd]; auto with baseline.
Qed.

Lemma IfFileExist_loud param : loud (IfFileExist param).2.
Proof. unfold IfFileExist. destruct param as [|c [|s ?]]; try destruct (os_Stat c); cbn [snd]; auto with baseline. Qed.

Lemma FilePermission_loud param : loud (FilePermission param).2.
Proof using HT.
  destruct HT as (HS & _). unfold FilePermission.
  destruct param as [|f [|s ?]]; [by apply (loud_app "Fil")..|].
  destruct (atoi s) as [k [e|]]; [cbn [snd]; auto with baseline|].
  destruct (os_Stat f) as [fi|e] eqn:Es.
  - destruct (atoi (FormatInt8 (Mode fi))) as [m [e|]]; cbn [snd]; auto with baseline.
  - case_match; [cbn [snd]; auto with baseline|]. intros ? [= <-]. by eapply HS.
Qed.

Lemma FileUserGroup_loud param : loud (FileUserGroup param).2.
Proof using HT.
  destruct HT as (HS & _). unfold FileUserGroup.
  destruct param as [|f [|s ?]]; [by apply (loud_app "Fil")..|].
  destruct (str_split ":" s) as [|u [|g [|]]]; try (by apply (loud_app "fil")).
  destruct (os_Stat f) as [fi|e] eqn:Es; [cbn [snd]; auto with baseline|].
  intros ? [= <-]. by eapply HS.
Qed.

Lemma FileMd5Check_loud param : loud (FileMd5Check param).2.
Proof using HT.
  destruct HT as (_ & HR & _). unfold FileMd5Check.
  destruct param as [|f [|s ?]]; [by apply (loud_app "fil")..|].
  destruct (os_Open f) as [file|e] eqn:Ef; [|by apply (loud_app "fil")].
  destruct (read_error file) eqn:Er; [|cbn [snd]; auto with baseline].
  intros ? [= <-]. by eapply HR.
Qed.

Lemma FileLineCheck_answers r : Param r ≠ [] → answers (FileLineCheck r ResultMatch).
Proof using HT.
  intros Hp. unfold FileLineCheck. case_match; [by apply answers_ret, loud_None|].
  destruct (Param r) as [|f rest]; [done|]. destruct (os_Open f) as [file|e].
  - destruct (line_loop_found r (default "" (rest !! 0%nat)) (default "#" (rest !! 1%nat)) (scan_lines (content file)))
      as (b & -> & _). cbn. auto with baseline.
  - case_match; [by apply answers_ret, loud_None|]. apply answers_ret.
    change (itoa ErrorFile) with "-3". rewrite <-str_app_assoc. by apply loud_app.
Qed.

Lemma answers_pair {A} (r : result A) : loud r.2 → answers (Ret r).
Proof. destruct r. apply answers_ret. Qed.

Lemma rule_function_answers r : rule_ok r → answers (rule_function r).
Proof using HT.
  intros Hok. unfold rule_function, rule_ok in *.
  destruct (decide (_ = "command_check")) as [_|_]; [apply answers_pair, CommandCheck_loud|].
  destruct (decide (_ = "if_file_exist")) as [_|_]; [apply answers_pair, IfFileExist_loud|].
  destruct (decide (_ = "file_permission")) as [_|_].
  { pose proof (FilePermission_loud (Param r)). destruct (FilePermission _). by apply answers_ret. }
  destruct (decide (_ = "file_user_group")) as [_|_].
  { pose proof (FileUserGroup_loud (Param r)). destruct (FileUserGroup _). by apply answers_ret. }
  destruct (decide (_ = "file_line_check")) as [Hl|_].
  { destruct (FileLineCheck_answers r (Hok Hl)) as (b & e & -> & He). by apply answers_ret. }
  destruct (decide (_ = "func_check")) as [_|_].
  { unfold FuncCheck. destruct (Param r); auto with baseline. }
  destruct (decide (_ = "file_md5_check")) as [_|_]; [|auto with baseline].
  pose proof (FileMd5Check_loud (Param r)). destruct (FileMd5Check _). by apply answers_ret.
Qed.

Lemma CheckRule_answers r : rule_ok r → answers (CheckRule r).
Proof using HT.
  intros Hok. destruct (rule_function_answers r Hok) as (v & e & Hr & He).
  unfold CheckRule. rewrite Hr. cbn [obind]. destruct e as [e|]; [by apply answers_ret|].
  case_decide as Hl.
  - revert Hr. unfold rule_function. rewrite Hl. cbn.
    destruct (FileLineCheck r ResultMatch) as [[b e']|]; [|done]. intros [= <- ->]. cbn. auto with baseline.
  - destruct (ResultMatch_answers r v) as (b & e & -> & He'). cbn [obind].
    destruct e; by apply answers_ret.
Qed.

Lemma AnalysisRule_answers c : Forall rule_ok (Rules c) → answers (AnalysisRule c).
Proof using HT.
  unfold AnalysisRule. generalize (if decide (Condition c = "") then "all" else Condition c). intros cond.
  induction 1 as [|r l Hr _ IH]; cbn [rules_loop]; [case_decide; auto with baseline|].
  destruct (CheckRule_answers r Hr) as (b & e & -> & He). cbn [obind].
  destruct e; [by apply answers_ret|]. destruct b; repeat case_decide; auto with baseline.
Qed.

(** A check is reported as passed exactly if its rules pass, as failed exactly if they
    were evaluated and do not pass, and with a negative code otherwise. *)
Lemma check_result_codes r :
  loud r.2 → ∃ code msg, check_result r = Ret (code, msg) ∧
    (code = SuccessCode ↔ r = (true, None)) ∧ (code = FailCode ↔ r = (false, None)) ∧
    (code < 0 ↔ is_Some r.2).
Proof.
  destruct r as [b [err|]]; cbn [snd]; intros Hl.
  - specialize (Hl err eq_refl). unfold check_result, slice_to, slice_from.
    rewrite !decide_True by lia. cbn [obind].
    assert (is_Some (Some err)) by eauto.
    destruct b; repeat case_decide; eexists _, _; (split; [done|]); unfold SuccessCode, FailCode; naive_solver lia.
  - destruct b; eexists _, _; (split; [done|]); unfold SuccessCode, FailCode;
      (split; [naive_solver|split; [naive_solver|]]); (split; [lia | by intros [? [=]]]).
Qed.

(** The checks a task selects. *)
Definition selected (ids : list Z) (c : CheckInfo) : Prop := ids = [] ∨ CheckId c ∈ ids.
#[local] Instance selected_dec ids c : Decision (selected ids c).
Proof. unfold selected. apply _. Defined.

(** How a check is reported: with its own texts, and a code that says what its rules
    came to. *)
Definition reported (c : CheckInfo) (r : RetCheckInfo) : Prop :=
  ∃ v code msg, AnalysisRule (Check_ c) = Ret v ∧ r = report c (code, msg) ∧
    (code = SuccessCode ↔ v = (true, None)) ∧ (code = FailCode ↔ v = (false, None)) ∧
    (code < 0 ↔ is_Some v.2).

Lemma checks_loop_reports ids checks :
  Forall (λ c, Forall rule_ok (Rules (Check_ c))) checks →
  ∃ rs, checks_loop ids checks = Ret rs ∧ Forall2 reported (filter (selected ids) checks) rs.
Proof using HT.
  induction 1 as [|c checks Hc _ (rs & IH & HF)]; [by exists []|].
  cbn [checks_loop]. rewrite filter_cons.
  assert (bool_decide (length ids ≠ 0%nat) && bool_decide (CheckId c ∉ ids)
          = bool_decide (¬ selected ids c)) as ->.
  { unfold selected. destruct ids as [|i ids]; [by rewrite bool_decide_eq_false_2 by naive_solver|].
    rewrite bool_decide_eq_true_2 by done. apply bool_decide_ext. naive_solver. }
  destruct (decide (selected ids c)).
  - rewrite bool_decide_eq_false_2 by naive_solver.
    destruct (AnalysisRule_answers (Check_ c) Hc) as (b & e & Hv & He). rewrite Hv. cbn [obind].
    destruct (check_result_codes (b, e) He) as (code & msg & Hr & Hcodes). rewrite Hr, IH. cbn [obind].
    eexists. split; [done|]. constructor; [|done]. by exists (b, e), code, msg.
  - rewrite bool_decide_eq_true_2 by done. by exists rs.
Qed.

End total.

(** A task whose configuration can be read is always answered: the report names the
    baseline and its version, and holds exactly the selected checks in the order of the
    configuration, each with its own texts and with code 1 if its rules pass, 2 if they
    do not, and a negative code if one could not be evaluated. *)
Theorem Analysis_reports data taskData info :
  texts_loud →
  (data = inl (tBaselineId taskData) ∧ CheckIdList taskData = []) ∨
    (∃ text, data = inr text ∧ json_TaskData text = inl taskData) →
  getBaselineConfigData (tBaselineId taskData) = (info, None) →
  Forall (λ c, Forall rule_ok (Rules (Check_ c))) (CheckList info) →
  ∃ rs, Analysis data = Ret (mkRetBaselineInfo (tBaselineId taskData) (BaselineVersion info)
                               BaselineStatusSuccess "" rs, None) ∧
    Forall2 reported (filter (selected (CheckIdList taskData)) (CheckList info)) rs.
Proof.
  intros HT Hd Hi Hok. destruct (checks_loop_reports HT (CheckIdList taskData) _ Hok) as (rs & Hrs & HF).
  exists rs. split; [|done].
  assert (AnalysisBaseline taskData = Ret (mkRetBaselineInfo (tBaselineId taskData) (BaselineVersion info) "" "" rs, None)) as HA.
  { unfold AnalysisBaseline. rewrite Hi. cbn [obind]. by rewrite Hrs. }
  unfold Analysis. destruct Hd as [[-> Hl]|(text & -> & Hj)].
  - destruct taskData as [id ids]. cbn in Hl. subst ids. cbn [tBaselineId] in *. by rewrite HA.
  - by rewrite Hj, HA.
Qed.

(** A baseline whose configuration file cannot be opened is reported as analysed
    with success, with no check in it: the error of opening the file is lost. *)
Theorem missing_config_succeeds id err :
  os_Open ((if decide (id < 6000) then "config/linux/" else "config/container/") +:+ itoa id +:+ ".yaml") = inr err →
  Analysis (inl id) = Ret (mkRetBaselineInfo id "" BaselineStatusSuccess "" [], None).
Proof.
  intros Ho. unfold Analysis, AnalysisBaseline, getBaselineConfigData, BindYaml. cbn [tBaselineId].
  destruct (decide (id < 6000)); by rewrite Ho.
Qed.

(** What the rules of a check come to, if all can be evaluated. *)
Definition verdict (condition : string) (bs : list bool) : bool :=
  if decide (condition = "any") then existsb id bs
  else if decide (condition = "none") then negb (existsb id bs)
  else if decide (condition = "all" ∨ condition = "") then forallb id bs
  else true.

(** The condition of a check is what its name says: if every rule can be evaluated,
    "any" passes if one rule passes, "none" if no rule passes, "all" and an empty
    condition if all do (any other condition always passes); a rule that cannot be
    evaluated is reported unless the rules before it have decided. *)
Theorem AnalysisRule_verdict cond pre bs post :
  Forall2 (λ r b, CheckRule r = Ret (b, None)) pre bs →
  AnalysisRule (mkCheck cond pre) = Ret (verdict cond bs, None) ∧
  ∀ r b e, CheckRule r = Ret (b, Some e) →
    AnalysisRule (mkCheck cond (pre ++ r :: post)) = Ret (false, Some e) ∨
    (∃ v, AnalysisRule (mkCheck cond (pre ++ r :: post)) = Ret (v, None) ∧
       AnalysisRule (mkCheck cond pre) = Ret (v, None) ∧ v = bool_decide (cond = "any")).
Proof.
  intros HF. unfold AnalysisRule. cbn [Condition Rules].
  set (c := if decide (cond = "") then "all" else cond).
  assert (verdict cond bs = verdict c bs ∧ c ≠ "" ∧ bool_decide (cond = "any") = bool_decide (c = "any")) as (-> & Hc & ->).
  { subst c. destruct (decide (cond = "")) as [->|]; done. }
  clearbody c. clear cond. unfold verdict. split.
  - induction HF as [|r b l bs Hr _ IH]; cbn [rules_loop existsb forallb]; [by repeat case_decide|].
    rewrite Hr. cbn [obind]. rewrite IH. destruct b; cbn [id orb andb negb]; repeat case_decide; naive_solver.
  - intros r b e Hr. induction HF as [|r' b' l bs Hr' _ IH]; cbn [rules_loop app].
    + rewrite Hr. by left.
    + rewrite Hr'. cbn [obind].
      destruct b'; repeat case_decide; subst; try done; right; eexists; repeat split; by case_bool_decide.
Qed.

(** ** Relational rules *)

Definition is_not (c d : ascii) : bool := bool_decide (d ≠ c).

Lemma itoa_is_not c z :
  is_digit c = false → c ≠ "-"%char → str_forall (is_not c) (itoa z) = true.
Proof.
  intros Hc Hm. apply itoa_chars; [|by apply bool_decide_eq_true_2].
  intros d Hd. apply bool_decide_eq_true_2. congruence.
Qed.

Lemma to_last_paren_None s : str_forall (is_not ")") s = true → to_last_paren s = None.
Proof.
  induction s as [|c s IH]; [done|]. cbn [str_forall to_last_paren].
  intros [Hc%bool_decide_eq_true Hs]%andb_true_iff. rewrite (IH Hs).
  case_decide; [done|]. by rewrite decide_False.
Qed.

Lemma to_last_paren_app a b :
  str_forall (is_not "010") a = true → str_forall (is_not ")") b = true →
  to_last_paren (a +:+ ")" +:+ b) = Some a.
Proof.
  intros Ha Hb. induction a as [|c a IH].
  - change ("" +:+ ")" +:+ b) with (String ")" b). cbn [to_last_paren]. rewrite decide_False by done. by rewrite to_last_paren_None.
  - cbn [str_forall] in Ha. apply andb_true_iff in Ha as [Hc%bool_decide_eq_true Ha].
    change (String c a +:+ ")" +:+ b) with (String c (a +:+ ")" +:+ b)).
    cbn [to_last_paren]. rewrite decide_False by done. by rewrite (IH Ha).
Qed.

Lemma str_contains_forall (P : ascii → bool) sub s :
  str_forall P sub = false → str_forall P s = true → str_contains sub s = false.
Proof.
  intros Hsub Hs. destruct (str_contains sub s) eqn:E; [|done].
  apply str_contains_true in E as (a & b & ->).
  rewrite !str_forall_app, Hsub, andb_false_r in Hs. done.
Qed.

(** By cases on the elements of a literal list. *)
Ltac each_elem H := repeat (apply elem_of_cons in H as [->|H]; [try done|]); try by apply elem_of_nil in H.

Definition operators : list string := ["<"; "<="; ">"; ">="].
Definition relational (op : string) (n : Z) : string := "$(" +:+ op +:+ ")" +:+ itoa n.

Lemma operator_match_relational op n : op ∈ operators → operator_match (relational op n) = Some op.
Proof.
  intros Hop. assert (to_last_paren (op +:+ ")" +:+ itoa n) = Some op) as Hlast.
  { apply to_last_paren_app; [|by apply itoa_is_not]. each_elem Hop. }
  change (relational op n) with (String "$" (String "(" (op +:+ ")" +:+ itoa n))).
  cbn [operator_match strip_prefix]. rewrite !decide_True by done. rewrite Hlast. each_elem Hop.
Qed.

Lemma DealMathCompute_relational op n z :
  op ∈ operators → in_s 64 n → in_s 64 z →
  DealMathCompute (VString (itoa z)) (relational op n) = Ret (relation op z n, None).
Proof.
  intros Hop Hn Hz. unfold DealMathCompute. rewrite operator_match_relational by done.
  assert (slice_from (len op + 3) (relational op n) = Ret (itoa n)) as ->.
  { unfold slice_from, relational. rewrite !str_length_app, decide_True by (cbn; lia). f_equal. each_elem Hop. }
  cbn [obind]. unfold atoi. by rewrite !parse_int_itoa.
Qed.

(** A relational rule [$(op)n] on a number compares it with [n], whether the number
    was found as a number or as text. *)
Theorem relation_rule op n z ty param req v :
  op ∈ operators → in_s 64 n → in_s 64 z → v = VInt z ∨ v = VString (itoa z) →
  ResultMatch (mkRule ty param "" req (Some (VString (relational op n)))) v
  = Ret (match op with
         | "<" => bool_decide (z < n) | "<=" => bool_decide (z ≤ n)
         | ">" => bool_decide (z > n) | _ => bool_decide (z >= n) end, None).
Proof.
  intros Hop Hn Hz Hv.
  assert (str_contains "$(&&)" (relational op n) = false) as Hamp.
  { apply (str_contains_forall (is_not "&")); [done|]. unfold relational.
    rewrite !str_forall_app, itoa_is_not by done. each_elem Hop. }
  assert (ResultMatch (mkRule ty param "" req (Some (VString (relational op n)))) v
          = match_subrules (itoa z) "" [relational op n] None) as ->.
  { unfold ResultMatch. cbn [Result Filter from_option id]. rewrite Hamp. by destruct Hv as [->| ->]. }
  cbn [match_subrules].
  assert (strip_prefix "$(not)" (relational op n) = None ∧ has_prefix "$(" (relational op n) = true) as [-> ->].
  { split; [|by apply has_prefix_true; eexists]. each_elem Hop. }
  rewrite decide_False by naive_solver. rewrite DealMathCompute_relational by done. cbn [obind].
  assert (relation op z n = match op with
         | "<" => bool_decide (z < n) | "<=" => bool_decide (z ≤ n)
         | ">" => bool_decide (z > n) | _ => bool_decide (z >= n) end) as -> by each_elem Hop.
  by destruct (match op with "" => _ | _ => _ end).
Qed.

(** ** Duplicate users *)

(** The user names of a password file. *)
Definition user_names (lines : list string) : list string :=
  omap (λ text, fst <$> str_cut ":" text) lines.

Lemma duplicate_loop_spec userSet lines :
  duplicate_loop userSet lines = true ↔
  NoDup (user_names lines) ∧ ∀ u, u ∈ user_names lines → u ∉ userSet.
Proof.
  revert userSet. induction lines as [|text lines IH]; intros userSet; cbn [duplicate_loop].
  { split; [|done]. intros _. split; [constructor|]. by intros u ?%elem_of_nil. }
  unfold user_names in *. cbn [omap list_omap].
  destruct (str_cut ":" text) as [[u ?]|]; cbn [fmap option_fmap option_map fst]; [|apply IH].
  case_decide as Hu.
  { split; [done|]. intros [_ Hn]. by destruct (Hn u ltac:(left)). }
  rewrite IH, NoDup_cons. setoid_rewrite elem_of_cons. set_solver.
Qed.

(** No user name occurs twice in the password file. *)
Lemma IfDuplicateUser_spec : IfDuplicateUser = true ↔ NoDup (user_names (lines_of "/etc/passwd")).
Proof. unfold IfDuplicateUser. rewrite duplicate_loop_spec. set_solver. Qed.

End theorems.

(** ** A host to try the rules on *)

Definition w_stat (path : string) : FileInfo + string :=
  if decide (path = "/etc/passwd") then inl (mkFileInfo 420 0 0) else inr "stat: no such file or directory".

Definition w_open (path : string) : File + string :=
  if decide (path = "/etc/passwd") then inl (mkFile ("root:x:0" +:+ newline +:+ "bin:x:1" +:+ newline) None)
  else if decide (path = "config/linux/1300.yaml") then inl (mkFile "1300" None)
  else inr "open: no such file or directory".

Definition w_check (id : Z) (cond : string) (rules : list RuleStruct) : CheckInfo :=
  mkCheckInfo id "File Permissions" "t" "" "" "" "high" "" "" "" (mkCheck cond rules).

Definition w_info : BaselineInfo :=
  mkBaselineInfo 1300 "1.0"
    [w_check 1 "all" [mkRule "file_permission" ["/etc/passwd"; "644"] "" "" None];
     w_check 2 "" [mkRule "func_check" ["Ensure no duplicate user names exist"] "" "" (Some (VBool true))];
     w_check 3 "any" [mkRule "no_such_type" [] "" "" None]].

#[local] Instance w_host : Host := {|
  os_Stat := w_stat; os_Open := w_open;
  exec_Output _ _ := ("15", None);
  FindStringSubmatch reg s := if decide (reg = s) then inl [s] else inl [];
  md5_Sum s := s; strconv_Quote s := s;
  yaml_Decode f := if decide (content f = "1300") then inl w_info else inr "yaml: unmarshal error";
  json_TaskData s := if decide (s = "all") then inl (mkTaskData 1300 [1; 3]) else inr "unexpected end of JSON input";
  json_Marshal _ := inl "{}"
|}.

Lemma w_texts_loud : texts_loud.
Proof.
  repeat split.
  - intros path err. cbn. unfold w_stat. case_decide; [done|]. by intros [= <-].
  - intros path f err. cbn. unfold w_open. repeat case_decide; intros [= <-]; done.
  - intros reg s err. cbn. by case_decide.
Qed.

Lemma Analysis_reports_witness :
  ∃ rs, Analysis (inr "all") = Ret (mkRetBaselineInfo 1300 "1.0" "success" "" rs, None) ∧
    Forall2 reported (filter (selected [1; 3]) (CheckList w_info)) rs.
Proof.
  apply (Analysis_reports (inr "all") (mkTaskData 1300 [1; 3]) w_info).
  - apply w_texts_loud.
  - right. by exists "all".
  - vm_compute. reflexivity.
  - repeat constructor; intros ?; discriminate.
Defined.

Lemma FilePermission_compares_witness :
  FilePermission ["/etc/passwd"; "644"] = (false, None) ∧ FilePermission ["/etc/passwd"; "777"] = (true, None).
Proof.
  split.
  - apply (FilePermission_compares (H := w_host) "/etc/passwd" 420 0 0 420 [] eq_refl); vm_compute; split; done.
  - apply (FilePermission_compares (H := w_host) "/etc/passwd" 420 0 0 511 [] eq_refl); vm_compute; split; done.
Defined.

Lemma missing_config_succeeds_witness :
  Analysis (inl 6001) = Ret (mkRetBaselineInfo 6001 "" "success" "" [], None).
Proof. apply (missing_config_succeeds 6001 "open: no such file or directory"). vm_compute. reflexivity. Defined.

Lemma AnalysisRule_verdict_witness :
  AnalysisRule (mkCheck "none" [mkRule "file_permission" ["/etc/passwd"; "644"] "" "" None]) = Ret (true, None).
Proof.
  apply (AnalysisRule_verdict "none" [mkRule "file_permission" ["/etc/passwd"; "644"] "" "" None] [false] []).
  constructor; [vm_compute; reflexivity | constructor].
Defined.

Lemma relation_rule_witness :
  ResultMatch (mkRule "command_check" ["id"] "" "" (Some (VString "$(>=)8"))) (VString "15") = Ret (true, None).
Proof.
  apply (relation_rule ">=" 8 15 "command_check" ["id"] "" (VString "15")).
  - vm_compute. do 3 right. left.
  - vm_compute. split; done.
  - vm_compute. split; done.
  - right. vm_compute. reflexivity.
Defined.

End Baseline.
