(* ===== verification/GoFloat.v ===== *)
(** * Floating-point numbers of Go

    The conversion of an integer to [float64], the quotient of two numbers, [math.Ceil] and
    [strconv.FormatFloat] with a fixed number of decimals, on the numbers that the code gets
    from integers of 64 bits: these are far from the limits of the exponent, so a number is
    a mantissa of at most 53 bits with an exponent, and an operation is the exact result
    rounded to the nearest such number, ties to even (IEEE 754). *)

From stdpp Require Import base tactics decidable list strings pretty numbers.
From Stdlib Require Import ZArith Lia.
From S2P Require Import Prelude GoStrings.
Local Open Scope Z_scope.
Set Default Proof Using "Type".

Module GoFloat.

(** The number [man * 2 ^ ex]. *)
Record f64 := F64 { man : Z; ex : Z }.

(** The integer nearest to [num / den], ties to even. *)
Definition half_even (num den : Z) : Z :=
  let q := num / den in
  let r := num mod den in
  match 2 * r ?= den with
  | Lt => q
  | Gt => q + 1
  | Eq => if Z.even q then q else q + 1
  end.

(** The [k] with [2 ^ k <= a / b < 2 ^ (k + 1)]. *)
Definition quot_exp (a b : Z) : Z :=
  let k := Z.log2 a - Z.log2 b in
  if decide (0 ≤ k) then if decide (b * 2 ^ k ≤ a) then k else k - 1
  else if decide (b ≤ a * 2 ^ (- k)) then k else k - 1.

(** The number nearest to [a / b], for [b] other than zero. *)
Definition round53 (a b : Z) : f64 :=
  if decide (a = 0) then F64 0 0
  else
    let s := 52 - quot_exp (Z.abs a) (Z.abs b) in
    let m := if decide (0 ≤ s) then half_even (Z.abs a * 2 ^ s) (Z.abs b)
             else half_even (Z.abs a) (Z.abs b * 2 ^ (- s)) in
    F64 (Z.sgn a * Z.sgn b * m) (- s).

(** [float64(z)]. *)
Definition of_int (z : Z) : f64 := round53 z 1.

(** [x / y]; [None] is an infinity or NaN. *)
Definition fdiv (x y : f64) : option f64 :=
  if decide (man y = 0) then None
  else
    let e := ex x - ex y in
    Some (if decide (0 ≤ e) then round53 (man x * 2 ^ e) (man y) else round53 (man x) (man y * 2 ^ (- e))).

(** [math.Ceil(x)], an integer. *)
Definition ceil (x : f64) : Z :=
  if decide (0 ≤ ex x) then man x * 2 ^ ex x else - ((- man x) / 2 ^ (- ex x)).

(** [int64(math.Ceil(x))]: the value of amd64 for a number that is no [int64]. *)
Definition int64_ceil (x : option f64) : Z :=
  match x with
  | Some x => if decide (in_s 64 (ceil x)) then ceil x else - 2 ^ 63
  | None => - 2 ^ 63
  end.

(** [strconv.FormatFloat(x, 'f', prec, 64)]. *)
Definition FormatFloat (prec : nat) (x : f64) : string :=
  let scale := 10 ^ Z.of_nat prec in
  let n := if decide (0 ≤ ex x) then Z.abs (man x) * scale * 2 ^ ex x
           else half_even (Z.abs (man x) * scale) (2 ^ (- ex x)) in
  let frac := itoa (n mod scale) in
  (if decide (man x < 0) then "-" else "") +:+ itoa (n / scale) +:+
  (if decide (prec = 0%nat) then "" else "." +:+ String.concat "" (replicate (prec - String.length frac) "0") +:+ frac).

(** [x + y] *)
Definition fadd (x y : f64) : f64 :=
  let e := Z.min (ex x) (ex y) in
  let m := man x * 2 ^ (ex x - e) + man y * 2 ^ (ex y - e) in
  if decide (0 ≤ e) then round53 (m * 2 ^ e) 1 else round53 m (2 ^ (- e)).

(** Quotients, with those by zero. *)
Inductive num := Fin (x : f64) | Inf (negative : bool) | NaN.

Definition quotient (x y : f64) : num :=
  match fdiv x y with
  | Some q => Fin q
  | None => if decide (man x = 0) then NaN else Inf (bool_decide (man x < 0))
  end.

Definition FormatNum (prec : nat) (x : num) : string :=
  match x with Fin x => FormatFloat prec x | Inf false => "+Inf" | Inf true => "-Inf" | NaN => "NaN" end.

(** [d.Seconds()] of a duration in nanoseconds. *)
Definition Seconds (d : Z) : f64 :=
  let nsec := of_int (d `rem` 1000000000) in
  fadd (of_int (d `quot` 1000000000)) (default nsec (fdiv nsec (of_int 1000000000))).

(** ** Laws *)

Lemma half_even_le num den n : 0 < den → num ≤ n * den → half_even num den ≤ n.
Proof.
  intros Hd Hn. unfold half_even. pose proof (Z.mod_pos_bound num den Hd). pose proof (Z.div_mod num den ltac:(lia)) as E.
  assert (num / den < n ∨ (num / den = n ∧ num mod den = 0)) as [?|[-> ->]] by nia.
  - destruct (Z.compare_spec (2 * (num mod den)) den); [case_match|..]; lia.
  - destruct (Z.compare_spec (2 * 0) den); [lia|lia|lia].
Qed.

Lemma half_even_gt num den n : 0 < den → den < 2 * (num - n * den) → n < half_even num den.
Proof.
  intros Hd Hn. unfold half_even. pose proof (Z.mod_pos_bound num den Hd). pose proof (Z.div_mod num den ltac:(lia)) as E.
  assert (n ≤ num / den) by (assert (n - 1 < num / den) by nia; lia).
  assert (n < num / den ∨ (num / den = n ∧ num mod den = num - n * den)) as [?|[-> ->]].
  { destruct (decide (n < num / den)); [by left|right]. assert (num / den = n) as Eq by lia. rewrite Eq in E |- *. lia. }
  - destruct (Z.compare_spec (2 * (num mod den)) den); [case_match|..]; lia.
  - destruct (Z.compare_spec (2 * (num - n * den)) den); lia.
Qed.

Lemma half_even_1 num : half_even num 1 = num.
Proof. unfold half_even. by rewrite Z.div_1_r, Z.mod_1_r. Qed.

Lemma half_even_scale num den c : 0 < den → 0 < c → half_even (num * c) (den * c) = half_even num den.
Proof.
  intros Hd Hc. unfold half_even. rewrite Z.div_mul_cancel_r, Z.mul_mod_distr_r by lia.
  assert ((2 * (num mod den * c) ?= den * c) = (2 * (num mod den) ?= den)) as ->; [|done].
  destruct (Z.compare_spec (2 * (num mod den)) den), (Z.compare_spec (2 * (num mod den * c)) (den * c)); first [done|exfalso; nia].
Qed.

Lemma pow2_add n m : 0 ≤ n → 0 ≤ m → 2 ^ (n + m) = 2 ^ n * 2 ^ m.
Proof. intros. by rewrite Z.pow_add_r. Qed.

Lemma pow2_pos n : 0 < 2 ^ n ∨ n < 0.
Proof. destruct (decide (0 ≤ n)); [left; by apply Z.pow_pos_nonneg|right; lia]. Qed.

(** The quotient, scaled, has a mantissa of 53 bits. *)
Lemma quot_exp_bound a b :
  0 < a → 0 < b → 0 ≤ 52 - quot_exp a b → b * 2 ^ 52 ≤ a * 2 ^ (52 - quot_exp a b) < b * 2 ^ 53.
Proof.
  intros Ha Hb. unfold quot_exp. destruct (Z.log2_spec a Ha) as [La Ua], (Z.log2_spec b Hb) as [Lb Ub].
  pose proof (Z.log2_nonneg a). pose proof (Z.log2_nonneg b).
  assert (Z.log2 a = Z.log2 b + (Z.log2 a - Z.log2 b)) as Ek by lia.
  rewrite Z.pow_succ_r in Ua, Ub by lia. set (lb := Z.log2 b) in *. set (la := Z.log2 a) in *. set (k := la - lb) in *.
  destruct (decide (0 ≤ k)) as [Hk|Hk]; case_decide as Hc; intros Hs.
  - rewrite Ek, pow2_add in Ua by lia. replace (2 ^ 52) with (2 ^ k * 2 ^ (52 - k)) by (rewrite <-pow2_add by lia; f_equal; lia).
    replace (2 ^ 53) with (2 * 2 ^ k * 2 ^ (52 - k)) by (rewrite <-Z.mul_assoc, <-pow2_add, <-Z.pow_succ_r by lia; f_equal; lia).
    destruct (pow2_pos (52 - k)); [|lia]. destruct (pow2_pos k); [|lia]. assert (a < b * (2 * 2 ^ k)) by nia. nia.
  - rewrite Ek, pow2_add in La by lia. replace (52 - (k - 1)) with (53 - k) in * by lia.
    replace (2 ^ 53) with (2 ^ k * 2 ^ (53 - k)) by (rewrite <-pow2_add by lia; f_equal; lia).
    assert (2 * 2 ^ 52 = 2 ^ k * 2 ^ (53 - k)) as E52 by (rewrite <-Z.pow_succ_r, <-pow2_add by lia; f_equal; lia).
    destruct (pow2_pos (53 - k)); [|lia]. destruct (pow2_pos k); [|lia]. assert (b * 2 ^ k < 2 * a) by nia. nia.
  - replace (52 - k) with (- k + 52) by lia. rewrite pow2_add by lia.
    assert (2 ^ la * 2 ^ (- k) = 2 ^ lb) as E by (rewrite <-pow2_add by lia; f_equal; lia).
    replace (2 ^ 53) with (2 * 2 ^ 52) by done. destruct (pow2_pos (- k)); [|lia]. destruct (pow2_pos 52); [|lia].
    assert (a * 2 ^ (- k) < 2 * b) by nia. nia.
  - replace (52 - (k - 1)) with (- k + 53) by lia. rewrite pow2_add by lia.
    assert (2 ^ la * 2 ^ (- k) = 2 ^ lb) as E by (rewrite <-pow2_add by lia; f_equal; lia).
    replace (2 ^ 53) with (2 * 2 ^ 52) by done. destruct (pow2_pos (- k)); [|lia]. destruct (pow2_pos 52); [|lia].
    assert (b < 2 * (a * 2 ^ (- k))) by nia. nia.
Qed.

Lemma quot_exp_scale a b n : 0 < a → 0 < b → 0 ≤ n → quot_exp (a * 2 ^ n) (b * 2 ^ n) = quot_exp a b.
Proof.
  intros Ha Hb Hn. unfold quot_exp. rewrite !Z.log2_mul_pow2 by lia. replace (n + Z.log2 a - (n + Z.log2 b)) with (Z.log2 a - Z.log2 b) by lia.
  destruct (pow2_pos n); [|lia]. set (k := Z.log2 a - Z.log2 b).
  assert (b * 2 ^ n * 2 ^ k ≤ a * 2 ^ n ↔ b * 2 ^ k ≤ a) as E1 by (rewrite (Z.mul_le_mono_pos_r _ a (2 ^ n)) by done; by rewrite <-!Z.mul_assoc, (Z.mul_comm (2 ^ k))).
  assert (b * 2 ^ n ≤ a * 2 ^ n * 2 ^ (- k) ↔ b ≤ a * 2 ^ (- k)) as E2 by (rewrite (Z.mul_le_mono_pos_r b _ (2 ^ n)) by done; by rewrite <-!Z.mul_assoc, (Z.mul_comm (2 ^ (- k)))).
  repeat case_decide; first [done|exfalso; tauto].
Qed.

Lemma quot_exp_small a b : 0 < a < 2 ^ 53 → 0 < b → quot_exp a b ≤ 52.
Proof.
  intros Ha Hb. assert (Z.log2 a < 53) by (apply Z.log2_lt_pow2; lia). pose proof (Z.log2_nonneg b).
  unfold quot_exp. repeat case_decide; lia.
Qed.

Lemma round53_pos a b :
  0 < a < 2 ^ 53 → 0 < b →
  round53 a b = F64 (half_even (a * 2 ^ (52 - quot_exp a b)) b) (- (52 - quot_exp a b)).
Proof.
  intros Ha Hb. pose proof (quot_exp_small a b Ha Hb). unfold round53. rewrite decide_False by lia.
  rewrite !Z.abs_eq, !Z.sgn_pos by lia. rewrite decide_True by lia. f_equal. lia.
Qed.

Lemma round53_scale a b n : 0 < a → 0 < b → 0 ≤ n → round53 (a * 2 ^ n) (b * 2 ^ n) = round53 a b.
Proof.
  intros Ha Hb Hn. destruct (pow2_pos n) as [Hp|]; [|lia]. unfold round53. rewrite (decide_False (P := a * 2 ^ n = 0)), (decide_False (P := a = 0)) by nia.
  rewrite !Z.abs_eq by nia. rewrite quot_exp_scale by lia. rewrite !Z.sgn_pos by nia.
  case_decide as Hs.
  - f_equal. f_equal. rewrite <-(half_even_scale (a * 2 ^ (52 - quot_exp a b)) b (2 ^ n)) by lia. f_equal. lia.
  - destruct (pow2_pos (- (52 - quot_exp a b))); [|lia].
    f_equal. f_equal. rewrite <-(half_even_scale a (b * 2 ^ (- (52 - quot_exp a b))) (2 ^ n)) by nia. f_equal; lia.
Qed.

(** Integers of up to 53 bits are converted exactly. *)
Lemma of_int_exact z : 0 < z < 2 ^ 53 → ∃ s, 0 ≤ s ∧ of_int z = F64 (z * 2 ^ s) (- s).
Proof.
  intros Hz. exists (52 - quot_exp z 1). pose proof (quot_exp_small z 1 Hz). split; [lia|].
  unfold of_int. rewrite round53_pos by lia. by rewrite half_even_1.
Qed.

(** The quotient of two of them is the exact one, rounded. *)
Lemma fdiv_int a b : 0 < a < 2 ^ 53 → 0 < b < 2 ^ 53 → fdiv (of_int a) (of_int b) = Some (round53 a b).
Proof.
  intros Ha Hb. destruct (of_int_exact a Ha) as (s & Hs & ->), (of_int_exact b Hb) as (t & Ht & ->).
  destruct (pow2_pos s); [|lia]. destruct (pow2_pos t); [|lia]. unfold fdiv. cbn [man ex]. rewrite decide_False by nia. f_equal.
  case_decide.
  - rewrite <-Z.mul_assoc, <-pow2_add by lia. replace (s + (- s - - t)) with t by lia. apply round53_scale; lia.
  - rewrite <-Z.mul_assoc, <-pow2_add by lia. replace (t + - (- s - - t)) with s by lia. apply round53_scale; lia.
Qed.

(** Rounding does not carry the quotient over an integer: it is rounded up as if it were
    exact. *)
Lemma ceil_round53 a b : 0 < a < 2 ^ 53 → 0 < b → ceil (round53 a b) = (a + b - 1) / b.
Proof.
  intros Ha Hb. rewrite round53_pos by done. pose proof (quot_exp_small a b Ha Hb) as Hq.
  pose proof (quot_exp_bound a b ltac:(lia) Hb ltac:(lia)) as [Hl _].
  set (s := 52 - quot_exp a b) in *. destruct (pow2_pos s) as [Hp|]; [|lia].
  set (n := (a + b - 1) / b). assert ((n - 1) * b < a ≤ n * b) as Hn.
  { pose proof (Z.div_mod (a + b - 1) b ltac:(lia)). pose proof (Z.mod_pos_bound (a + b - 1) b Hb). fold n in H. nia. }
  assert (b < 2 * 2 ^ s) as Hbs by (assert (b * 2 ^ 52 < 2 ^ 53 * 2 ^ s) by nia; replace (2 ^ 53) with (2 * 2 ^ 52) in * by done; nia).
  assert (half_even (a * 2 ^ s) b ≤ n * 2 ^ s) as Hu by (apply half_even_le; nia).
  assert ((n - 1) * 2 ^ s < half_even (a * 2 ^ s) b) as Hlo by (apply half_even_gt; nia).
  unfold ceil. cbn [man ex]. case_decide as Hd.
  - assert (s = 0) as E by lia. rewrite E in *. rewrite Z.opp_0, Z.pow_0_r in *. lia.
  - rewrite Z.opp_involutive. set (m := half_even _ _) in *. assert (- m / 2 ^ s = - n); [|lia].
    symmetry. apply (Z.div_unique _ _ _ (n * 2 ^ s - m)); lia.
Qed.

(** [int64(math.Ceil(float64(a) / float64(b)))] is the quotient rounded up. *)
Lemma int64_ceil_quot a b :
  0 ≤ a < 2 ^ 53 → 0 < b < 2 ^ 53 → int64_ceil (fdiv (of_int a) (of_int b)) = (a + b - 1) / b.
Proof.
  intros Ha Hb. destruct (decide (a = 0)) as [->|Hne].
  - destruct (of_int_exact b Hb) as (t & Ht & ->). destruct (pow2_pos t); [|lia]. unfold fdiv. cbn [man ex]. rewrite decide_False by nia.
    change (of_int 0) with (F64 0 0). cbn [man ex]. rewrite Z.div_small by lia. case_decide; done.
  - rewrite fdiv_int by lia. unfold int64_ceil. rewrite ceil_round53 by lia. rewrite decide_True; [done|].
    split; [apply (Z.le_trans _ 0); [done|apply Z.div_pos; lia]|]. apply Z.div_lt_upper_bound; [lia|]. change (64 - 1) with 63. nia.
Qed.

End GoFloat.
