(* ===== verification/Pages.v ===== *)
(** * Pages of query results

    Models [server/manager/biz/common/page.go], through which the handlers of the manager
    answer queries a page at a time, and the handlers of API v1 that list agents, tasks and
    subtasks ([biz/handler/v1/agent_stat.go], [agent_task.go], [agent_subtask.go]).  The
    collection is a record of the requests the code makes of it; class [Serves] states what
    the manual of the database documents of them. *)

From stdpp Require Import base tactics decidable list strings gmap pretty numbers sorting.
From Stdlib Require Import ZArith Lia.
From S2P Require Import Prelude GoStrings GoFloat AgentTask.
Local Open Scope Z_scope.
Set Default Proof Using "Type".

Module Pages.

(** ** Requests *)

Record PageRequest := mkPageRequest { rPage : Z; rPageSize : Z; OrderKey : string; OrderValue : Z }.

(** [options.FindOptions]: what the code sets of it. *)
Record FindOptions {S : Type} := mkFind { oSort : option S; oSkip : option Z; oLimit : option Z }.
Arguments FindOptions : clear implicits.
Arguments mkFind {S} _ _ _.

Definition SetSort {S} (s : S) (o : FindOptions S) : FindOptions S := mkFind (Some s) (oSkip o) (oLimit o).
Definition SetSkip {S} (n : Z) (o : FindOptions S) : FindOptions S := mkFind (oSort o) (Some n) (oLimit o).
Definition SetLimit {S} (n : Z) (o : FindOptions S) : FindOptions S := mkFind (oSort o) (oSkip o) (Some n).
Definition find_default {S} : FindOptions S := mkFind None None None.

(** The stages of a pipeline: those of the caller, and those that the code adds. *)
Inductive stage {P S : Type} := Given (p : P) | SCount | SSort (s : S) | SSkip (n : Z) | SLimit (n : Z).
Arguments stage : clear implicits.

(** A cursor: what [Next] delivers, and the error that ended it, which is asked for with
    [Err] only. *)
Record cursor {D : Type} := mkCursor { delivered : list D; Err : option string }.
Arguments cursor : clear implicits.
Arguments mkCursor {D} _ _.

(** A collection of documents [D] with filters [F], sorters [S] and stages [P]. *)
Record collection {D F S P : Type} := mkCollection {
  CountDocuments : F → Z + string;
  EstimatedDocumentCount : Z + string;
  Find : F → FindOptions S → cursor D + string;
  Aggregate : list (stage P S) → cursor D + string }.
Arguments collection : clear implicits.
Arguments mkCollection {D F S P} _ _ _ _.
Arguments CountDocuments {D F S P} _.
Arguments EstimatedDocumentCount {D F S P} _.
Arguments Find {D F S P} _.
Arguments Aggregate {D F S P} _.

(** [PageOption] and [PageSearch]. *)
Record PageOption {F S : Type} := mkPageOption { Page : Z; PageSize : Z; Filter : F; Sorter : option S }.
Arguments PageOption : clear implicits.
Arguments mkPageOption {F S} _ _ _ _.

Record PageResponse := mkPageResponse { Total : Z; respPage : Z; respPageSize : Z }.

Record ModelPage {I : Type} := mkModelPage {
  mTotal : Z; Count : Z; Pages : Z; mPage : Z; mPageSize : Z; HasPrev : bool; HasNext : bool; Items : list I }.
Arguments ModelPage : clear implicits.

Lemma int64_small z : - 2 ^ 63 ≤ z < 2 ^ 63 → int64 z = z.
Proof. intros. by apply wrap_s_id. Qed.

Section paginate.
Context {D F S P : Type}.
Implicit Types (c : collection D F S P) (o : PageOption F S).

(** [(Page - 1) * PageSize] *)
Definition skip_of o : Z := int64 ((Page o - 1) * PageSize o).

(** The options of a page, over those given. *)
Definition page_options o (base : FindOptions S) : FindOptions S :=
  SetLimit (PageSize o) (SetSkip (skip_of o) (match Sorter o with Some s => SetSort s base | None => base end)).

(** The loop of [DBModelPaginate]: what does not decode is left out. *)
Fixpoint model_loop {I} (pageFunc : D → I + string) (ds : list D) (acc : Z * list I) : Z * list I :=
  match ds with
  | [] => acc
  | d :: ds =>
      match pageFunc d with
      | inl i => model_loop pageFunc ds (int64 (acc.1 + 1), acc.2 ++ [i])
      | inr _ => model_loop pageFunc ds acc
      end
  end.

Definition DBModelPaginate {I} c o (pageFunc : D → I + string) : ModelPage I + string :=
  match CountDocuments c (Filter o) with
  | inr err => inr err
  | inl total =>
      match Find c (Filter o) (page_options o find_default) with
      | inr err => inr err
      | inl cur =>
          let '(count, items) := model_loop pageFunc (delivered cur) (0, []) in
          let pages := GoFloat.int64_ceil (GoFloat.fdiv (GoFloat.of_int total) (GoFloat.of_int (PageSize o))) in
          inl (mkModelPage _ total count pages (Page o) (PageSize o)
                 (bool_decide (Page o > 1)) (bool_decide (Page o < pages)) items)
      end
  end.

(** The loop of [DBSearchPaginate] and [DBAggregatePaginate]: [pageFunc] changes what its
    closure captured, and its first error ends the loop. *)
Fixpoint search_loop {A} (pageFunc : D → A → A + string) (ds : list D) (a : A) : A * option string :=
  match ds with
  | [] => (a, None)
  | d :: ds => match pageFunc d a with inl a' => search_loop pageFunc ds a' | inr err => (a, Some err) end
  end.

(** [pageOption.Filter.(bson.M)] with no entry. *)
Context (empty_M : F → bool).

Definition search_total c (f : F) : Z + string :=
  match (if empty_M f then EstimatedDocumentCount c else inl 0) with
  | inr err => inr err
  | inl total => if decide (total < 1000000) then CountDocuments c f else inl total
  end.

Definition DBSearchPaginate {A} c o (pageFunc : D → A → A + string) (opts : list (FindOptions S)) (a : A)
    : A * (PageResponse + string) :=
  match search_total c (Filter o) with
  | inr err => (a, inr err)
  | inl total =>
      match Find c (Filter o) (page_options o (match opts with opt :: _ => opt | [] => find_default end)) with
      | inr err => (a, inr err)
      | inl cur =>
          match search_loop pageFunc (delivered cur) a with
          | (a', Some err) => (a', inr err)
          | (a', None) => (a', inl (mkPageResponse total (Page o) (PageSize o)))
          end
      end
  end.

(** The decoding of a document into a [PageResponse]: its field [total]. *)
Context (total_of : D → Z + string).

(** [DBAggregatePaginate]: a count of no documents delivers none, and decoding then gives
    [io.EOF]. *)
Definition DBAggregatePaginate {A} c (pipe : list (stage P S)) o (pageFunc : D → A → A + string) (a : A)
    : A * (PageResponse + string) :=
  match Aggregate c (pipe ++ [SCount]) with
  | inr err => (a, inr err)
  | inl cur =>
      match delivered cur with
      | [] => (a, inl (mkPageResponse 0 (Page o) (PageSize o)))
      | d :: _ =>
          match total_of d with
          | inr err => (a, inr err)
          | inl total =>
              let pipe := pipe ++ match Sorter o with Some s => [SSort s] | None => [] end in
              match Aggregate c (pipe ++ [SSkip (skip_of o); SLimit (PageSize o)]) with
              | inr err => (a, inr err)
              | inl cur =>
                  match search_loop pageFunc (delivered cur) a with
                  | (a', Some err) => (a', inr err)
                  | (a', None) => (a', inl (mkPageResponse total (Page o) (PageSize o)))
                  end
              end
          end
      end
  end.

(** ** The database *)

(** What the database documents, for a collection that nothing writes to: a query selects
    documents and delivers them in some order, which agrees with the sorter if there is one
    ([le s d d']: [d] may come before [d']); nothing is promised about the order of documents
    that the sorter does not tell apart, or of a query without one, and another query may
    deliver them in another order.  Skip and limit cut a page out of that order; a pipeline
    ends with the stages that were added.  The number of all documents comes from the
    metadata of the collection and may be another one than that of a count. *)
Class Serves c := {
  select : F → list D;
  flow : list (stage P S) → list D;
  le : S → D → D → Prop;
  count_law : ∀ f, CountDocuments c f = inl (Z.of_nat (length (select f)));
  estimate : Z;
  estimate_law : EstimatedDocumentCount c = inl estimate;
  find_law : ∀ f s skip limit, 0 ≤ skip → 0 < limit →
    ∃ l, l ≡ₚ select f ∧ match s with Some s => StronglySorted (le s) l | None => True end ∧
      Find c f (mkFind s (Some skip) (Some limit)) = inl (mkCursor (take (Z.to_nat limit) (drop (Z.to_nat skip) l)) None);
  total_law : ∀ pipe, ∃ ds, Aggregate c (pipe ++ [SCount]) = inl (mkCursor ds None) ∧
    match flow pipe with [] => ds = [] | l => ∃ d, ds = [d] ∧ total_of d = inl (Z.of_nat (length l)) end;
  flow_law : ∀ pipe s skip limit, 0 ≤ skip → 0 < limit →
    ∃ l, l ≡ₚ flow pipe ∧ match s with Some s => StronglySorted (le s) l | None => True end ∧
      Aggregate c (pipe ++ match s with Some s => [SSort s] | None => [] end ++ [SSkip skip; SLimit limit]) =
      inl (mkCursor (take (Z.to_nat limit) (drop (Z.to_nat skip) l)) None) }.

(** The sorter tells the documents apart, as one on a unique key does. *)
Definition one_order c `{!Serves c} (s : S) (l : list D) : Prop :=
  ∀ d d', d ∈ l → d' ∈ l → le s d d' → le s d' d → d = d'.

(** ** Handlers of API v1 *)

(** The answer of a handler: none if the query of the request does not bind ([gin] answers
    with status 400 by itself), or a code with the page. *)
Inductive answer {I : Type} := NoAnswer | Answer (code : Z) (page : option (ModelPage I)).
Arguments answer : clear implicits.

Definition SuccessCode : Z := 0.
Definition DBOperateErrorCode : Z := 3.
Definition ParamInvalidErrorCode : Z := 5.

Definition page_answer {I} (r : ModelPage I + string) : answer I :=
  match r with inl page => Answer SuccessCode (Some page) | inr _ => Answer DBOperateErrorCode None end.

Definition GetStatus {I} c (decode : D → I + string) (all : F) (req : option PageRequest) : answer I :=
  match req with
  | None => NoAnswer
  | Some r => page_answer (DBModelPaginate c (mkPageOption (rPage r) (rPageSize r) all None) decode)
  end.

(** [filter] is what [BindFilterQuery] and [Transform] make of the body of the request. *)
Definition GetStatusByFilter {I} c (decode : D → I + string) (req : option PageRequest) (filter : option F) : answer I :=
  match req, filter with
  | Some r, Some f => page_answer (DBModelPaginate c (mkPageOption (rPage r) (rPageSize r) f None) decode)
  | _, _ => NoAnswer
  end.

Definition GetSubTaskByFilter {I} c (decode : D → I + string) (req : option PageRequest) (filter : option F) : answer I :=
  match req, filter with
  | Some r, Some f => page_answer (DBModelPaginate c (mkPageOption (rPage r) (rPageSize r) f None) decode)
  | _, _ => Answer ParamInvalidErrorCode None
  end.

(** [bson.M{OrderKey: OrderValue}]. *)
Context (sort_on : string → Z → S).

Definition without_todo (t : AgentTask.AgentTask) : AgentTask.AgentTask :=
  AgentTask.mkTask (AgentTask.TaskID t) (AgentTask.TaskType t) (AgentTask.Action t) (AgentTask.SubTaskRunningTimeout t)
    (AgentTask.InnerStatus t) (AgentTask.TaskStatus t) [] (AgentTask.IDCount t) (AgentTask.DistributedCount t)
    (AgentTask.JobList t) (AgentTask.SubTaskCreated t) (AgentTask.SubTaskRunning t) (AgentTask.SubTaskFailed t)
    (AgentTask.SubTaskSucceed t) (AgentTask.CreateTime t) (AgentTask.UpdateTime t).

Definition GetTaskByFilter c (decode : D → AgentTask.AgentTask + string) (req : option PageRequest) (filter : option F)
    : answer AgentTask.AgentTask :=
  match req, filter with
  | Some r, Some f =>
      let sorter := if decide (OrderKey r ≠ "" ∧ (OrderValue r = 1 ∨ OrderValue r = -1))
                    then Some (sort_on (OrderKey r) (OrderValue r)) else None in
      page_answer (DBModelPaginate c (mkPageOption (rPage r) (rPageSize r) f sorter)
        (λ d, match decode d with inl t => inl (without_todo t) | inr err => inr err end))
  | _, _ => Answer ParamInvalidErrorCode None
  end.

(** ** Loops *)

(** What decodes of a list of documents. *)
Definition decoded {I} (pageFunc : D → I + string) (ds : list D) : list I :=
  omap (λ d, match pageFunc d with inl i => Some i | inr _ => None end) ds.

Lemma decoded_app {I} (pageFunc : D → I + string) l k : decoded pageFunc (l ++ k) = decoded pageFunc l ++ decoded pageFunc k.
Proof. apply omap_app. Qed.

Lemma model_loop_decoded {I} (pageFunc : D → I + string) ds n (items : list I) :
  0 ≤ n → n + Z.of_nat (length ds) < 2 ^ 63 →
  model_loop pageFunc ds (n, items) = (n + Z.of_nat (length (decoded pageFunc ds)), items ++ decoded pageFunc ds).
Proof.
  revert n items. induction ds as [|d ds IH]; intros n items Hn Hlt; [cbn; by rewrite Z.add_0_r, app_nil_r|].
  cbn [length] in Hlt. cbn [model_loop fst snd]. unfold decoded. cbn [omap list_omap]. destruct (pageFunc d) as [i|].
  - rewrite int64_small by lia. rewrite IH by lia. fold (decoded pageFunc ds). cbn [length]. f_equal; [lia|by rewrite <-app_assoc].
  - by rewrite IH by lia.
Qed.

Lemma search_loop_total {A} (pageFunc : D → A → A + string) (h : A → D → A) ds a :
  (∀ d a, pageFunc d a = inl (h a d)) → search_loop pageFunc ds a = (foldl h a ds, None).
Proof. intros Hp. revert a. induction ds as [|d ds IH]; intros a; [done|]. cbn. by rewrite Hp, IH. Qed.

(** ** Pages of a list *)

Definition page_of {A} (ps n : nat) (l : list A) : list A := take ps (drop (n * ps) l).

Lemma pages_prefix {A} (ps n : nat) (l : list A) : mjoin ((λ i, page_of ps i l) <$> seq 0 n) = take (n * ps) l.
Proof.
  induction n as [|n IH]; [by rewrite take_0|]. rewrite seq_S, fmap_app, join_app, IH. cbn. rewrite app_nil_r. unfold page_of.
  rewrite Nat.add_comm. by rewrite take_take_drop.
Qed.

Lemma skip_of_id o :
  1 ≤ Page o → 1 ≤ PageSize o → Page o * PageSize o < 2 ^ 63 → skip_of o = (Page o - 1) * PageSize o.
Proof. intros. unfold skip_of. apply int64_small. nia. Qed.

(** Every query for a page cuts it out of the same list. *)
Definition listed c (f : F) (s : option S) (l : list D) : Prop :=
  ∀ skip limit, 0 ≤ skip → 0 < limit →
    Find c f (mkFind s (Some skip) (Some limit)) = inl (mkCursor (take (Z.to_nat limit) (drop (Z.to_nat skip) l)) None).

Lemma one_order_unique c `{!Serves c} s l0 l1 l2 :
  one_order c s l0 → l1 ≡ₚ l0 → l2 ≡ₚ l0 → StronglySorted (le s) l1 → StronglySorted (le s) l2 → l1 = l2.
Proof.
  intros Ho H1 H2 Hs1 Hs2. apply (StronglySorted_unique_strong (le s)); [|done|done|by rewrite H1, H2].
  intros x y Hx Hy. apply Ho; [by rewrite <-H1|by rewrite <-H2].
Qed.

Lemma listed_sorted c `{!Serves c} f s :
  one_order c s (select f) → ∃ l, l ≡ₚ select f ∧ StronglySorted (le s) l ∧ listed c f (Some s) l.
Proof.
  intros Ho. destruct (find_law f (Some s) 0 1) as (l & Hp & Hs & _); [lia..|]. exists l. split_and!; [done|done|].
  intros skip limit H1 H2. destruct (find_law f (Some s) skip limit H1 H2) as (l' & Hp' & Hs' & ->).
  by rewrite (one_order_unique c s _ l' l Ho).
Qed.

(** The documents of a page, as the database delivers them. *)
Lemma find_page c o n l :
  listed c (Filter o) (Sorter o) l → Page o = Z.of_nat n + 1 → 1 ≤ PageSize o → Page o * PageSize o < 2 ^ 63 →
  Find c (Filter o) (page_options o find_default) = inl (mkCursor (page_of (Z.to_nat (PageSize o)) n l) None).
Proof.
  intros Hl Hp Hs Hlt. assert (page_options o find_default = mkFind (Sorter o) (Some (skip_of o)) (Some (PageSize o))) as ->
    by (unfold page_options; destruct (Sorter o); done).
  rewrite skip_of_id by lia. rewrite Hl by nia. unfold page_of. do 4 f_equal.
  replace (Page o - 1) with (Z.of_nat n) by lia. rewrite Z2Nat.inj_mul by lia. by rewrite Nat2Z.id.
Qed.

(** A client that asks for the pages from [p] on for as long as there is a next one. *)
Fixpoint follow {I} (fuel : nat) c (f : F) (s : option S) (ps : Z) (pageFunc : D → I + string) (p : Z) : option (list (ModelPage I)) :=
  match fuel with
  | O => None
  | Datatypes.S fuel =>
      match DBModelPaginate c (mkPageOption p ps f s) pageFunc with
      | inl page => if HasNext page then (page ::.) <$> follow fuel c f s ps pageFunc (p + 1) else Some [page]
      | inr _ => None
      end
  end.

Lemma model_page {I} c `{!Serves c} o (pageFunc : D → I + string) n l :
  let total := Z.of_nat (length l) in
  l ≡ₚ select (Filter o) → listed c (Filter o) (Sorter o) l →
  Page o = Z.of_nat n + 1 → 1 ≤ PageSize o < 2 ^ 53 → total < 2 ^ 53 → Page o * PageSize o < 2 ^ 63 →
  ∃ page, DBModelPaginate c o pageFunc = inl page ∧
    Items page = decoded pageFunc (page_of (Z.to_nat (PageSize o)) n l) ∧
    Count page = Z.of_nat (length (Items page)) ∧ mTotal page = total ∧
    HasNext page = bool_decide (Page o * PageSize o < total).
Proof.
  intros total Hl Hli Hp Hs Ht Hlt. unfold DBModelPaginate. rewrite count_law.
  assert (length (select (Filter o)) = length l) as -> by (by rewrite Hl). fold total.
  rewrite (find_page c o n l) by first [done|lia]. cbn [delivered]. set (pl := page_of _ _ _).
  assert (length pl ≤ length l)%nat by (unfold pl, page_of; rewrite length_take, length_drop; lia).
  rewrite model_loop_decoded by lia. eexists. split; [done|]. cbn. split_and!; try done.
  rewrite GoFloat.int64_ceil_quot by lia. apply bool_decide_ext.
  pose proof (Z.div_mod (total + PageSize o - 1) (PageSize o) ltac:(lia)).
  pose proof (Z.mod_pos_bound (total + PageSize o - 1) (PageSize o) ltac:(lia)). nia.
Qed.

Lemma follow_from {I} c `{!Serves c} f s ps (pageFunc : D → I + string) fuel n l :
  l ≡ₚ select f → listed c f s l →
  1 ≤ ps < 2 ^ 53 → Z.of_nat (length l) < 2 ^ 53 → (length l < fuel + n)%nat → n = 0%nat ∨ Z.of_nat n * ps < Z.of_nat (length l) →
  ∃ pages, follow fuel c f s ps pageFunc (Z.of_nat n + 1) = Some pages ∧
    mjoin (Items <$> pages) = decoded pageFunc (drop (n * Z.to_nat ps) l) ∧
    Forall (λ page, mTotal page = Z.of_nat (length l) ∧ Count page = Z.of_nat (length (Items page))) pages.
Proof.
  intros Hpl Hli Hs Hl. revert n. induction fuel as [|fuel IH]; intros n Hf Hn.
  { exfalso. destruct Hn as [->|Hn]; [lia|nia]. }
  cbn [follow]. destruct (model_page c (mkPageOption (Z.of_nat n + 1) ps f s) pageFunc n l) as (page & -> & Hi & Hc & Ht & Hx);
    [done..|cbn; nia|]. cbn [Page PageSize Sorter Filter] in *.
  assert (decoded pageFunc (drop (n * Z.to_nat ps) l) = Items page ++ decoded pageFunc (drop (Datatypes.S n * Z.to_nat ps) l)) as Hd.
  { rewrite Hi, <-decoded_app. f_equal. unfold page_of. rewrite <-(take_drop (Z.to_nat ps) (drop (n * Z.to_nat ps) l)) at 1.
    f_equal. rewrite drop_drop. f_equal. lia. }
  rewrite Hx. case_bool_decide as Hb.
  - destruct (IH (Datatypes.S n)) as (pages & Ef & Ej & Ea); [lia|right; lia|]. replace (Z.of_nat n + 1 + 1) with (Z.of_nat (Datatypes.S n) + 1) by lia.
    rewrite Ef. eexists. split; [done|]. rewrite Hd. split; [|by constructor].
    change (Items page ++ mjoin (Items <$> pages) = Items page ++ decoded pageFunc (drop (Datatypes.S n * Z.to_nat ps) l)). by rewrite Ej.
  - eexists. split; [done|]. rewrite Hd, (drop_ge _ (Datatypes.S n * _)) by nia. split; [done|by repeat constructor].
Qed.


(** ** Visiting by number *)

(** The answer to the query for page [n + 1], for a [pageFunc] that does not fail. *)
Lemma search_page {A} c `{!Serves c} o (pageFunc : D → A → A + string) (h : A → D → A) n a l :
  listed c (Filter o) (Sorter o) l → (∀ d a, pageFunc d a = inl (h a d)) → Page o = Z.of_nat n + 1 → 1 ≤ PageSize o → Page o * PageSize o < 2 ^ 63 →
  DBSearchPaginate c o pageFunc [] a =
  (foldl h a (page_of (Z.to_nat (PageSize o)) n l),
   inl (mkPageResponse (if empty_M (Filter o) && bool_decide (1000000 ≤ estimate) then estimate else Z.of_nat (length (select (Filter o))))
          (Page o) (PageSize o))).
Proof.
  intros Hli Hh Hp Hs Hlt. unfold DBSearchPaginate.
  assert (search_total c (Filter o) = inl (if empty_M (Filter o) && bool_decide (1000000 ≤ estimate) then estimate else Z.of_nat (length (select (Filter o))))) as ->.
  { unfold search_total. rewrite estimate_law, count_law. destruct (empty_M (Filter o)); cbn [andb]; [|done].
    case_decide; case_bool_decide; first [done|lia]. }
  rewrite (find_page c o n l) by done. cbn [delivered]. by rewrite (search_loop_total pageFunc h) by done.
Qed.

Lemma foldl_pages {A B} (h : A → B → A) ps n (l : list B) (step : A → nat → A) a :
  (∀ a i, (i < n)%nat → step a i = foldl h a (page_of ps i l)) → (length l ≤ n * ps)%nat →
  foldl step a (seq 0 n) = foldl h a l.
Proof.
  intros Hstep Hl. rewrite <-(take_ge l (n * ps)) at 1 by done. rewrite <-pages_prefix. clear Hl.
  revert a. induction n as [|n IH]; intros a; [done|]. rewrite seq_S, fmap_app, join_app, !foldl_app. cbn [foldl fmap list_fmap mjoin list_join].
  rewrite app_nil_r, IH by (intros; apply Hstep; lia). apply Hstep. lia.
Qed.

(** [DBSearchPaginate] for the pages one after the other, with a sorter that tells the
    documents apart, hands every selected document to [pageFunc] once, in the order of the
    sorter, for any number of pages that has room for all of them. *)
Theorem search_visits_once {A} c `{!Serves c} f s ps n (pageFunc : D → A → A + string) (h : A → D → A) a :
  one_order c s (select f) → (∀ d a, pageFunc d a = inl (h a d)) →
  1 ≤ ps → Z.of_nat n * ps < 2 ^ 63 → Z.of_nat (length (select f)) ≤ Z.of_nat n * ps →
  ∃ l, l ≡ₚ select f ∧ StronglySorted (le s) l ∧
    foldl (λ a i, (DBSearchPaginate c (mkPageOption (Z.of_nat i + 1) ps f (Some s)) pageFunc [] a).1) a (seq 0 n) = foldl h a l.
Proof.
  intros Ho Hh Hs Hn Hl. destruct (listed_sorted c f s Ho) as (l & Hp & Hso & Hli). exists l. split_and!; [done|done|].
  apply (foldl_pages h (Z.to_nat ps)); [|rewrite Hp; nia].
  intros a' i Hi. rewrite (search_page c _ pageFunc h i _ l) by first [done|cbn; nia]. done.
Qed.

(** The same for [DBAggregatePaginate]; without documents it asks for no page. *)
Theorem aggregate_visits_once {A} c `{!Serves c} pipe s ps n (pageFunc : D → A → A + string) (h : A → D → A) (f : F) a :
  one_order c s (flow pipe) → (∀ d a, pageFunc d a = inl (h a d)) →
  1 ≤ ps → Z.of_nat n * ps < 2 ^ 63 → Z.of_nat (length (flow pipe)) ≤ Z.of_nat n * ps →
  ∃ l, l ≡ₚ flow pipe ∧ StronglySorted (le s) l ∧
    foldl (λ a i, (DBAggregatePaginate c pipe (mkPageOption (Z.of_nat i + 1) ps f (Some s)) pageFunc a).1) a (seq 0 n) = foldl h a l.
Proof.
  intros Ho Hh Hs Hn Hl. destruct (flow_law pipe (Some s) 0 1) as (l & Hp & Hso & _); [lia..|]. exists l. split_and!; [done|done|].
  apply (foldl_pages h (Z.to_nat ps)); [|rewrite Hp; nia].
  intros a' i Hi. unfold DBAggregatePaginate. destruct (total_law pipe) as (ds & -> & Hds). cbn [delivered Sorter PageSize].
  destruct (flow pipe) as [|d k] eqn:El.
  - subst ds. cbn. apply Permutation_nil_r in Hp as ->. unfold page_of. by rewrite drop_nil, take_nil.
  - destruct Hds as (d' & -> & ->). rewrite skip_of_id by (cbn; nia). cbn [Page PageSize]. rewrite <-app_assoc.
    destruct (flow_law pipe (Some s) ((Z.of_nat i + 1 - 1) * ps) ps) as (l' & Hp' & Hs' & ->); [nia..|]. cbn [delivered].
    rewrite El in Hp'. rewrite (one_order_unique c s _ l' l Ho) by done.
    rewrite (search_loop_total pageFunc h) by done. cbn [fst]. unfold page_of. do 3 f_equal. nia.
Qed.

(** ** Findings *)

(** A cursor that failed half-way looks like the end of the page: the answer is a success. *)
Theorem cut_short_unnoticed {I} c o (pageFunc : D → I + string) ds err total :
  CountDocuments c (Filter o) = inl total → Find c (Filter o) (page_options o find_default) = inl (mkCursor ds (Some err)) →
  ∃ page, DBModelPaginate c o pageFunc = inl page ∧ mTotal page = total ∧ Items page = (model_loop pageFunc ds (0, [])).2.
Proof.
  intros Hc Hf. unfold DBModelPaginate. rewrite Hc, Hf. cbn [delivered]. destruct (model_loop pageFunc ds (0, [])) as [n items].
  eexists. split; [done|]. done.
Qed.

(** The product of page number and size wraps around: page 2^62 + 1 of size 4 is page 1. *)
Theorem huge_page_wraps f (s : option S) :
  skip_of (mkPageOption (2 ^ 62 + 1) 4 f s) = skip_of (mkPageOption 1 4 f s).
Proof. done. Qed.

End paginate.

(** ** A collection of numbers *)

(** The filter is a lower bound, the sorter may reverse the order.  Without a sorter, a page
    other than the first is cut out of another order than the first if [mix] is set. *)
Definition w_le (s : bool) (x y : Z) : Prop := if s then y ≤ x else x ≤ y.
#[export] Instance w_le_dec s : RelDecision (w_le s).
Proof. intros x y. unfold w_le. destruct s; apply _. Defined.
#[export] Instance w_le_total s : base.Total (w_le s).
Proof. intros x y. unfold w_le. destruct s; lia. Qed.
#[export] Instance w_le_trans s : Transitive (w_le s).
Proof. intros x y z. unfold w_le. destruct s; lia. Qed.

Definition w_stage (l : list Z) (st : stage unit bool) : list Z :=
  match st with
  | Given _ => l
  | SCount => match l with [] => [] | _ => [Z.of_nat (length l)] end
  | SSort b => merge_sort (w_le b) l
  | SSkip n => drop (Z.to_nat n) l
  | SLimit n => take (Z.to_nat n) l
  end.

Definition w_order (mix : bool) (s : option bool) (l : list Z) : list Z :=
  match s with Some b => merge_sort (w_le b) l | None => if mix then reverse l else l end.
Definition w_select (l : list Z) (f : Z) : list Z := filter (λ x, f ≤ x) l.

Definition w_coll (mix : bool) (l : list Z) : collection Z Z bool unit := mkCollection
  (λ f, inl (Z.of_nat (length (w_select l f)))) (inl (Z.of_nat (length l)))
  (λ f o, inl (mkCursor (take (Z.to_nat (default 0 (oLimit o)))
     (drop (Z.to_nat (default 0 (oSkip o))) (w_order (mix && bool_decide (oSkip o ≠ Some 0)) (oSort o) (w_select l f)))) None))
  (λ st, inl (mkCursor (foldl w_stage l st) None)).

Definition w_empty (f : Z) : bool := bool_decide (f = 0).

Lemma w_order_ok mix s l :
  w_order mix s l ≡ₚ l ∧ match s with Some b => StronglySorted (w_le b) (w_order mix s l) | None => True end.
Proof.
  destruct s as [b|]; cbn [w_order]; [split; [apply merge_sort_Permutation|apply (StronglySorted_merge_sort _)]|].
  split; [|done]. destruct mix; [apply reverse_Permutation|done].
Qed.

#[export] Program Instance w_serves mix l : Serves inl (w_coll mix l) := {|
  select := w_select l; flow := foldl w_stage l; le := w_le; estimate := Z.of_nat (length l) |}.
Next Obligation. done. Qed.
Next Obligation. done. Qed.
Next Obligation.
  intros mix l f s skip limit _ _. destruct (w_order_ok (mix && bool_decide (Some skip ≠ Some 0)) s (w_select l f)) as [H1 H2].
  eexists. split_and!; [exact H1|exact H2|done].
Qed.
Next Obligation. intros mix l pipe. eexists. split; [done|]. rewrite foldl_app. cbn. destruct (foldl w_stage l pipe); [done|]. eexists. done. Qed.
Next Obligation.
  intros mix l pipe s skip limit _ _. destruct (w_order_ok false s (foldl w_stage l pipe)) as [H1 H2].
  eexists. split_and!; [exact H1|exact H2|]. simpl. rewrite !foldl_app. by destruct s.
Qed.

Lemma w_one_order mix l k s : one_order inl (w_coll mix l) s k.
Proof. intros x y _ _ H1 H2. simpl in H1, H2. unfold w_le in *. destruct s; lia. Qed.


Lemma search_visits_once_witness :
  ∃ l, l ≡ₚ [3; 5; 4; 2] ∧
  foldl (λ a i, (DBSearchPaginate w_empty (w_coll true [3; 1; 5; 4; 2]) (mkPageOption (Z.of_nat i + 1) 2 2 (Some false)) (λ d a, inl (a ++ [d])) [] a).1) [] (seq 0 2) =
    foldl (λ a d, a ++ [d]) [] l.
Proof.
  destruct (search_visits_once w_empty inl (w_coll true [3; 1; 5; 4; 2]) 2 false 2 2 (λ d a, inl (a ++ [d])) (λ a d, a ++ [d]) [])
    as (l & Hp & _ & Hl); [apply w_one_order|done|lia|lia|by vm_compute|]. exists l. split; [exact Hp|exact Hl].
Defined.

Lemma aggregate_visits_once_witness :
  ∃ l, l ≡ₚ [3; 1; 2] ∧
  foldl (λ a i, (DBAggregatePaginate inl (w_coll true [3; 1; 2]) [Given ()] (mkPageOption (Z.of_nat i + 1) 2 0 (Some true)) (λ d a, inl (a ++ [d])) a).1) [] (seq 0 2) =
    foldl (λ a d, a ++ [d]) [] l.
Proof.
  destruct (aggregate_visits_once inl (w_coll true [3; 1; 2]) [Given ()] true 2 2 (λ d a, inl (a ++ [d])) (λ a d, a ++ [d]) 0 [])
    as (l & Hp & _ & Hl); [apply w_one_order|done|lia|lia|by vm_compute|]. exists l. split; [exact Hp|exact Hl].
Defined.

(** Without a sorter, as [GetStatus] asks, a database that keeps its word may repeat
    documents and leave others out: a client that follows the pages sees two of the four
    documents, twice. *)
Lemma unsorted_pages_repeat :
  let pages := follow 5 (w_coll true [1; 2; 3; 4]) 1 None 2 (λ d, inl d) 1 in
  (λ ps, mjoin (Items <$> ps)) <$> pages = Some [1; 2; 2; 1] ∧
  GetStatus (w_coll true [1; 2; 3; 4]) (λ d, inl d) 1 (Some (mkPageRequest 2 2 "" 0)) =
    Answer SuccessCode (Some (mkModelPage _ 4 2 2 2 2 true false [2; 1])).
Proof. split; vm_compute; reflexivity. Qed.

Definition w_failing : collection Z Z bool unit :=
  mkCollection (λ _, inl 3) (inl 3) (λ _ _, inl (mkCursor [1] (Some "timeout"))) (λ _, inr "").

Lemma cut_short_unnoticed_witness :
  ∃ page, DBModelPaginate w_failing (mkPageOption 1 5 0 None) (λ d, inl d) = inl page ∧ mTotal page = 3 ∧ Items page = [1].
Proof. exact (cut_short_unnoticed w_failing (mkPageOption 1 5 0 None) (λ d, inl d) [1] "timeout" 3 eq_refl eq_refl). Defined.

End Pages.
