(* ===== verification/TableExport.v ===== *)
(** * Export of query results

    Models [server/manager/biz/common/export.go]: the documents of a query, or rows that a
    handler computed, are written as a table of comma-separated values into an archive, and
    the progress is streamed to the browser.  [csv.Writer] is that of the standard library;
    the collection, the archive and the store of the file are arguments.  [csv_read] is a
    reader as RFC 4180 describes it, against which the written table is proved. *)

From Stdlib Require Import Ascii.
From stdpp Require Import base tactics decidable list strings pretty numbers.
From Stdlib Require Import ZArith Lia.
From S2P Require Import Prelude GoStrings GoText GoPath Pages.
Local Open Scope string_scope.
Local Open Scope go_scope.
Local Open Scope list_scope.
Set Default Proof Using "Type".

Module TableExport.

(** ** Values ([bson.RawValue]) *)

(** [RNone] is the value of a field that is absent. *)
Inductive raw :=
| RNone
| RString (s : string)
| RDouble (f : string)
| RInt32 (z : Z)
| RInt64 (z : Z)
| RObjectID (hex : string)
| RArray (l : list raw)
| RDoc (fields : list (string * raw))
| ROther.

(** A [RDouble] carries its shortest decimal text, [strconv.FormatFloat(v, 'f', -1, 64)]. *)
Definition MarshalBasicBson (d : raw) : string :=
  match d with
  | RString s => s
  | RDouble f => f
  | RInt32 z | RInt64 z => itoa z
  | RObjectID h => h
  | _ => ""
  end.

(** [Lookup]: along the keys through documents and arrays, whose keys are the indices. *)
Fixpoint Lookup (keys : list string) (d : raw) : raw :=
  match keys with
  | [] => d
  | k :: keys =>
      match d with
      | RDoc fields => match list_find (λ kv, kv.1 = k) fields with Some (_, (_, v)) => Lookup keys v | None => RNone end
      | RArray l => match list_find (λ iv, itoa (Z.of_nat iv.1) = k) (imap pair l) with Some (_, (_, v)) => Lookup keys v | None => RNone end
      | _ => RNone
      end
  end.

Definition join_value (r : string) (v : raw) : string :=
  if decide (r ≠ "") then r +:+ "," +:+ MarshalBasicBson v else MarshalBasicBson v.

(** [MongoDBDefs] *)
Record def_ := mkDef { Key : string; Header : string }.

Definition cell (d : raw) (k : def_) : string :=
  match Lookup (str_split "." (Key k)) d with
  | RArray l => foldl join_value "" l
  | v => MarshalBasicBson v
  end.

Definition record_of (defs : list def_) (d : raw) : list string := cell d <$> defs.

(** ** Comma-separated values ([encoding/csv]) *)

Definition quote : ascii := "034".
Definition comma : ascii := ",".
Definition lf : ascii := "010".
Definition cr : ascii := "013".

Definition special (c : ascii) : bool := bool_decide (c = quote ∨ c = comma ∨ c = lf ∨ c = cr).

Definition fieldNeedsQuotes (f : string) : bool :=
  if decide (f = "") then false
  else if decide (f = bytes [92; 46]%N) then true
  else negb (str_forall (λ c, negb (special c)) f) || bool_decide (is_Some (strip_space f)).

Fixpoint escape (f : string) : string :=
  match f with
  | "" => ""
  | String c f => if decide (c = quote) then String quote (String quote (escape f)) else String c (escape f)
  end.

Definition csv_field (f : string) : string :=
  if fieldNeedsQuotes f then String quote (escape f +:+ String quote "") else f.

(** [csv.Writer.Write] *)
Definition csv_record (fs : list string) : string := str_join "," (csv_field <$> fs) +:+ String lf "".

(** A reader: records end with a line feed, fields with a comma; in a quoted field a quote
    is written twice. *)
Inductive mode := Start | Plain | Inside | After.

Fixpoint csv_read_from (m : mode) (cur : string) (rec : list string) (s : string) : option (list (list string)) :=
  match s with
  | "" => match m, rec with Start, [] => Some [] | _, _ => None end
  | String c s =>
      match m with
      | Inside => if decide (c = quote) then csv_read_from After cur rec s else csv_read_from Inside (cur +:+ String c "") rec s
      | _ =>
          if decide (c = comma) then csv_read_from Start "" (rec ++ [cur]) s
          else if decide (c = lf) then ((rec ++ [cur]) ::.) <$> csv_read_from Start "" [] s
          else if decide (c = quote) then
            match m with
            | Start => csv_read_from Inside cur rec s
            | After => csv_read_from Inside (cur +:+ String quote "") rec s
            | _ => None
            end
          else match m with After => None | _ => csv_read_from Plain (cur +:+ String c "") rec s end
      end
  end.

Definition csv_read (s : string) : option (list (list string)) := csv_read_from Start "" [] s.

(** ** The export *)

Record ExportProgress := mkProgress { ExportTotal : Z; ExportCount : Z; Status : string; FileName : string }.
Record ExportHostsResp := mkResp { Code : Z; Msg : string; Data : ExportProgress }.

Definition SuccessCode : Z := 0.
Definition UnknownErrorCode : Z := 10.

(** What the store and the archive answer: the errors of the steps. *)
Record store := mkStore {
  NewBucket : option string; OpenUploadStream : option string; Create : option string;
  Write : nat → option string; CloseZip : option string; CloseStream : option string;
  nano : Z; random : string }.

(** The end of the goroutine: an error sent on [done], or the channel closed with the file
    saved: the name of the table in the archive, and its text. *)
Inductive ending := Failed (err : string) | Saved (entry content : string).

Definition file_name (name : string) (st : store) : string := name +:+ "-" +:+ itoa (nano st) +:+ "-" +:+ random st +:+ ".zip".

(** [path.Base(filename)[:len(filename)-3] + "csv"] *)
Definition entry_name (fn : string) : outcome string :=
  let n := (String.length fn - 3)%nat in
  if decide (String.length (path_base fn) < n)%nat then Panic "slice bounds out of range"
  else Ret (str_take n (path_base fn) +:+ "csv").

Definition bom : string := bytes [239; 187; 191]%N.

(** The loop over the rows, the [i]-th of which is the [i]-th call of [Write]: the progress
    after each row, and the text or the error. *)
Fixpoint write_rows (st : store) (i : nat) (p : ExportProgress) (rows : list (list string)) (text : string)
    : list ExportProgress * (string + string) :=
  match rows with
  | [] => ([], inl text)
  | r :: rows =>
      match Write st i with
      | Some err => ([], inr err)
      | None =>
          let p := mkProgress (ExportTotal p) (int64 (ExportCount p + 1)) (Status p) (FileName p) in
          let '(ps, res) := write_rows st (S i) p rows (text +:+ csv_record r) in (p :: ps, res)
      end
  end.

Definition last_progress (p : ExportProgress) (ps : list ExportProgress) : ExportProgress := default p (last ps).

(** The goroutine from [gridfs.NewBucket] on: the progress as it changes, of which the
    ticker shows the current one, and the end. *)
Definition export_rows (st : store) (fn : string) (total : Z) (headers : list string) (rows : list (list string))
    : outcome (list ExportProgress * ending) :=
  let p0 := mkProgress total 0 "init" fn in
  match NewBucket st with Some err => Ret ([p0], Failed err) | None =>
  match OpenUploadStream st with Some err => Ret ([p0], Failed err) | None =>
  let! entry := entry_name fn in
  match Create st with Some err => Ret ([p0], Failed err) | None =>
  match Write st 0 with Some err => Ret ([p0], Failed err) | None =>
  let p1 := mkProgress total 0 "exporting" fn in
  match write_rows st 1 p1 rows (bom +:+ csv_record headers) with
  | (ps, inr err) => Ret (p0 :: p1 :: ps, Failed err)
  | (ps, inl text) =>
      let p2 := mkProgress total (ExportCount (last_progress p1 ps)) "saving" fn in
      match CloseZip st with Some err => Ret (p0 :: p1 :: ps ++ [p2], Failed err) | None =>
      match CloseStream st with Some err => Ret (p0 :: p1 :: ps ++ [p2], Failed err) | None =>
      Ret (p0 :: p1 :: ps ++ [p2], Saved entry text)
      end end
  end end end end end.

(** [ExportFromMongoDB]: the documents that the cursor delivered. *)
Definition ExportFromMongoDB {F S P} (c : Pages.collection raw F S P) (f : F) (defs : list def_) (name : string) (st : store)
    : outcome (list ExportProgress * ending) :=
  let fn := file_name name st in
  match Pages.CountDocuments c f with
  | inr err => Ret ([mkProgress 0 0 "init" fn], Failed err)
  | inl total =>
      match Pages.Find c f Pages.find_default with
      | inr err => Ret ([mkProgress total 0 "init" fn], Failed err)
      | inl cur => export_rows st fn total (Header <$> defs) (record_of defs <$> Pages.delivered cur)
      end
  end.

Definition ExportFromList (exportList : list (list string)) (defs : list def_) (name : string) (st : store)
    : outcome (list ExportProgress * ending) :=
  export_rows st (file_name name st) (Z.of_nat (length exportList)) (Header <$> defs) exportList.

(** The events of [c.Stream]: one with the current progress for every tick, and the last
    one. *)
Definition tick (p : ExportProgress) : ExportHostsResp := mkResp SuccessCode "success" p.

Definition final_event (p : ExportProgress) (e : ending) : ExportHostsResp :=
  match e with
  | Failed err => mkResp UnknownErrorCode ("export failed, " +:+ err) (mkProgress (ExportTotal p) (ExportCount p) "failed" (FileName p))
  | Saved _ _ => mkResp SuccessCode "success" (mkProgress (ExportTotal p) (ExportTotal p) "success" (FileName p))
  end.

(** ** Reading what was written *)

Lemma read_plain f m cur rec rest :
  str_forall (λ c, negb (special c)) f = true → f ≠ "" → m = Start ∨ m = Plain →
  csv_read_from m cur rec (f +:+ rest) = csv_read_from Plain (cur +:+ f) rec rest.
Proof.
  revert m cur. induction f as [|c f IH]; intros m cur Hf Hne Hm; [done|]. cbn [str_forall] in Hf. apply andb_prop in Hf as [Hc Hf].
  apply negb_true_iff, bool_decide_eq_false in Hc. change (String c f +:+ rest) with (String c (f +:+ rest)).
  assert (csv_read_from m cur rec (String c (f +:+ rest)) = csv_read_from Plain (cur +:+ String c "") rec (f +:+ rest)) as ->.
  { cbn [csv_read_from]. rewrite !(decide_False (P := c = _)) by tauto. by destruct Hm as [-> | ->]. }
  replace (cur +:+ String c f) with ((cur +:+ String c "") +:+ f) by by rewrite str_app_assoc.
  destruct f as [|c' f]; [by rewrite str_app_nil_r|]. apply IH; [done|done|by right].
Qed.

Lemma read_escaped f cur rec rest :
  csv_read_from Inside cur rec (escape f +:+ String quote rest) = csv_read_from After (cur +:+ f) rec rest.
Proof.
  revert cur. induction f as [|c f IH]; intros cur; [by rewrite str_app_nil_r|]. cbn [escape].
  replace (cur +:+ String c f) with ((cur +:+ String c "") +:+ f) by by rewrite str_app_assoc.
  case_decide as Hc; [subst c|]; rewrite <-IH; [done|].
  change (String c (escape f) +:+ String quote rest) with (String c (escape f +:+ String quote rest)). cbn [csv_read_from]. by rewrite decide_False.
Qed.

(** After a field comes a comma or the end of the record. *)
Lemma read_field f rec sep rest :
  sep = comma ∨ sep = lf →
  csv_read_from Start "" rec (csv_field f +:+ String sep rest) =
  (if decide (sep = comma) then csv_read_from Start "" (rec ++ [f]) rest
   else ((rec ++ [f]) ::.) <$> csv_read_from Start "" [] rest).
Proof.
  intros Hsep. unfold csv_field. destruct (fieldNeedsQuotes f) eqn:Hq.
  - change (String quote (escape f +:+ String quote "") +:+ String sep rest) with (String quote ((escape f +:+ String quote "") +:+ String sep rest)).
    rewrite str_app_assoc. cbn [csv_read_from]. rewrite !decide_False by done. rewrite decide_True by done.
    change (String quote "" +:+ String sep rest) with (String quote (String sep rest)). rewrite read_escaped.
    by destruct Hsep as [-> | ->].
  - destruct (decide (f = "")) as [->|Hne]; [by destruct Hsep as [-> | ->]|].
    unfold fieldNeedsQuotes in Hq. rewrite decide_False in Hq by done. case_decide; [done|].
    apply orb_false_iff in Hq as [Hq%negb_false_iff _]. rewrite read_plain by auto. by destruct Hsep as [-> | ->].
Qed.

Lemma read_record fs rec rest :
  fs ≠ [] → csv_read_from Start "" rec (csv_record fs +:+ rest) = ((rec ++ fs) ::.) <$> csv_read_from Start "" [] rest.
Proof.
  unfold csv_record. revert rec. induction fs as [|f fs IH]; intros rec Hne; [done|]. destruct fs as [|f' fs].
  - change (str_join "," (csv_field <$> [f])) with (csv_field f). rewrite str_app_assoc. change (String lf "" +:+ rest) with (String lf rest).
    by rewrite read_field by auto.
  - change (str_join "," (csv_field <$> f :: f' :: fs)) with (csv_field f +:+ String comma (str_join "," (csv_field <$> f' :: fs))).
    rewrite !str_app_assoc. specialize (IH (rec ++ [f]) ltac:(done)). rewrite str_app_assoc in IH.
    change (String comma (str_join "," (csv_field <$> f' :: fs)) +:+ (String lf "" +:+ rest))
      with (String comma (str_join "," (csv_field <$> f' :: fs) +:+ (String lf "" +:+ rest))).
    rewrite read_field by auto. rewrite decide_True by done. rewrite IH. by rewrite <-app_assoc.
Qed.

Definition csv_text (rs : list (list string)) : string := foldr (λ r t, csv_record r +:+ t) "" rs.

Lemma csv_read_text rs : Forall (.≠ []) rs → csv_read (csv_text rs) = Some rs.
Proof.
  unfold csv_read. induction 1 as [|r rs Hr _ IH]; [done|]. cbn [csv_text foldr]. rewrite read_record by done. fold (csv_text rs). by rewrite IH.
Qed.

Lemma write_rows_text st i p rows text :
  (∀ j, Write st j = None) → ∃ ps, write_rows st i p rows text = (ps, inl (text +:+ csv_text rows)).
Proof.
  intros Hw. revert i p text. induction rows as [|r rows IH]; intros i p text; [eexists; cbn; by rewrite str_app_nil_r|].
  cbn [write_rows]. rewrite Hw. destruct (IH (S i) (mkProgress (ExportTotal p) (int64 (ExportCount p + 1)) (Status p) (FileName p)) (text +:+ csv_record r)) as (ps & ->).
  eexists. cbn [csv_text foldr]. by rewrite str_app_assoc.
Qed.

(** The store and the archive work. *)
Definition works (st : store) : Prop :=
  NewBucket st = None ∧ OpenUploadStream st = None ∧ Create st = None ∧ (∀ i, Write st i = None) ∧
  CloseZip st = None ∧ CloseStream st = None.

Lemma path_base_lacks fn : fn ≠ "" → lacks "/" fn = true → path_base fn = fn.
Proof.
  intros Hne Hl. unfold path_base. rewrite decide_False by done. change "/" with (String "/" ""). rewrite str_split_lacks by done.
  rewrite filter_cons, decide_True by done. done.
Qed.

Lemma entry_name_csv p : lacks "/" p = true → entry_name (p +:+ ".zip") = Ret (p +:+ ".csv").
Proof.
  intros Hp. unfold entry_name. rewrite path_base_lacks; [| |unfold lacks in *; by rewrite str_forall_app, Hp].
  2: { destruct p; done. }
  rewrite str_length_app. cbn [String.length]. rewrite decide_False by lia. f_equal.
  replace (p +:+ ".zip") with ((p +:+ ".") +:+ "zip") by by rewrite str_app_assoc.
  replace (String.length p + 4 - 3)%nat with (String.length (p +:+ ".")) by (rewrite str_length_app; cbn; lia).
  rewrite str_take_app. by rewrite str_app_assoc.
Qed.

Lemma itoa_lacks_slash z : str_forall (λ x, bool_decide (x ≠ "/"%char)) (itoa z) = true.
Proof. apply itoa_chars; [|done]. intros c Hc. apply bool_decide_eq_true_2. by intros ->. Qed.

Lemma export_rows_saved st name total headers rows :
  works st → lacks "/" name = true → lacks "/" (random st) = true →
  ∃ ps p, export_rows st (file_name name st) total headers rows =
    Ret (ps ++ [p], Saved (name +:+ "-" +:+ itoa (nano st) +:+ "-" +:+ random st +:+ ".csv") (bom +:+ csv_text (headers :: rows))) ∧
    ExportTotal p = total.
Proof.
  intros (Hb & Ho & Hc & Hw & Hz & Hs) Hn Hr. unfold export_rows. rewrite Hb, Ho, Hc, Hw, Hz, Hs.
  assert (file_name name st = (name +:+ "-" +:+ itoa (nano st) +:+ "-" +:+ random st) +:+ ".zip") as -> by (unfold file_name; by rewrite !str_app_assoc).
  rewrite entry_name_csv; [|unfold lacks in *; by rewrite !str_forall_app, Hn, Hr, itoa_lacks_slash].
  cbn [obind]. destruct (write_rows_text st 1 (mkProgress total 0 "exporting" ((name +:+ "-" +:+ itoa (nano st) +:+ "-" +:+ random st) +:+ ".zip")) rows (bom +:+ csv_record headers) Hw) as (ps & ->).
  rewrite !str_app_assoc. eexists (_ :: _ :: ps), _. split; [done|]. done.
Qed.

(** ** What a cell has to show *)

(** The value at a path: through the first field of the name in a document, through the
    element of the index in an array. *)
Inductive at_path : raw → list string → raw → Prop :=
| at_here v : at_path v [] v
| at_field fs i k v ks x :
    fs !! i = Some (k, v) → (∀ j kv, (j < i)%nat → fs !! j = Some kv → kv.1 ≠ k) → at_path v ks x → at_path (RDoc fs) (k :: ks) x
| at_index l i v ks x :
    l !! i = Some v → at_path v ks x → at_path (RArray l) (itoa (Z.of_nat i) :: ks) x.

(** Texts, numbers and object ids are shown; other values (booleans, dates, documents,
    arrays in arrays) are not. *)
Inductive basic : raw → string → Prop :=
| basic_string s : basic (RString s) s
| basic_double f : basic (RDouble f) f
| basic_int32 z : basic (RInt32 z) (itoa z)
| basic_int64 z : basic (RInt64 z) (itoa z)
| basic_id h : basic (RObjectID h) h
| basic_none : basic RNone ""
| basic_array l : basic (RArray l) ""
| basic_doc fs : basic (RDoc fs) ""
| basic_other : basic ROther "".

Fixpoint drop_empty (ts : list string) : list string :=
  match ts with "" :: ts => drop_empty ts | _ => ts end.

(** An array is shown by its elements, separated by commas; empty ones at its start leave no
    trace. *)
Inductive shown : raw → string → Prop :=
| shown_array l ts : Forall2 basic l ts → shown (RArray l) (str_join "," (drop_empty ts))
| shown_value v t : (∀ l, v ≠ RArray l) → basic v t → shown v t.

(** The key of a column is a path with dots; what is not there is shown empty. *)
Definition column (d : raw) (k : def_) (t : string) : Prop :=
  ∃ path, path ≠ [] ∧ Forall (λ p, lacks "." p = true) path ∧ str_join "." path = Key k ∧
    ((∃ v, at_path d path v ∧ shown v t) ∨ (¬ ∃ v, at_path d path v) ∧ t = "").

Lemma Lookup_at ks d : at_path d ks (Lookup ks d) ∨ (¬ ∃ v, at_path d ks v) ∧ Lookup ks d = RNone.
Proof.
  revert d. induction ks as [|k ks IH]; intros d; [left; constructor|]. cbn [Lookup].
  destruct d as [| | | | | |l|fs|]; try (right; split; [intros [v Hv]; inversion Hv|done]).
  - destruct (list_find (λ iv, itoa (Z.of_nat iv.1) = k) (imap pair l)) as [[j [i v]]|] eqn:E.
    + apply list_find_Some in E as (Hj & <- & _). rewrite list_lookup_imap in Hj.
      destruct (l !! j) as [v'|] eqn:Ev; [|done]. injection Hj as -> ->. cbn [fst]. destruct (IH v) as [H|[H ->]].
      * left. by eapply at_index.
      * right. split; [|done]. intros [x Hx]. inversion Hx as [| |l' i' v' ? ? Hi' Hx' El Ek]; subst.
        apply (inj pretty), Nat2Z.inj in Ek as ->. assert (v' = v) as -> by congruence. apply H. by exists x.
    + right. split; [|done]. intros [x Hx]. inversion Hx as [| |l' i' v' ? ? Hi' Hx' El Ek]; subst.
      apply list_find_None in E. rewrite Forall_lookup in E. apply (E i' (i', v')); [|done]. by rewrite list_lookup_imap, Hi'.
  - destruct (list_find (λ kv, kv.1 = k) fs) as [[j [k' v]]|] eqn:E.
    + apply list_find_Some in E as (Hj & <- & Hfirst). cbn [fst] in *. destruct (IH v) as [H|[H ->]].
      * left. eapply at_field; [done| |done]. intros i kv Hi Hkv. by apply (Hfirst i kv).
      * right. split; [|done]. intros [x Hx]. inversion Hx as [|fs' i' k'' v' ? ? Hi' Hf' Hx' El Ek|]; subst.
        assert (i' = j) as ->; [|assert (v' = v) as -> by congruence; apply H; by exists x].
        destruct (lt_eq_lt_dec i' j) as [[Hlt|?]|Hlt]; [|done|]; exfalso.
        -- by apply (Hfirst _ _ Hi' Hlt).
        -- by apply (Hf' _ _ Hlt Hj).
    + right. split; [|done]. intros [x Hx]. inversion Hx as [|fs' i' k'' v' ? ? Hi' Hf' Hx' El Ek|]; subst.
      apply list_find_None in E. rewrite Forall_lookup in E. by apply (E i' _ Hi').
Qed.

Lemma MarshalBasicBson_basic v : basic v (MarshalBasicBson v).
Proof. destruct v; constructor. Qed.

Lemma str_join_snoc sep ts t : ts ≠ [] → str_join sep (ts ++ [t]) = str_join sep ts +:+ sep +:+ t.
Proof.
  induction ts as [|x ts IH]; intros Hne; [done|]. destruct ts as [|y ts]; [done|].
  change (str_join sep ((x :: y :: ts) ++ [t])) with (x +:+ sep +:+ str_join sep ((y :: ts) ++ [t])). rewrite IH by done.
  change (str_join sep (x :: y :: ts)) with (x +:+ sep +:+ str_join sep (y :: ts)). by rewrite !str_app_assoc.
Qed.

Lemma drop_empty_snoc ts t : drop_empty (ts ++ [t]) = match drop_empty ts with [] => drop_empty [t] | l => l ++ [t] end.
Proof. induction ts as [|[|c x] ts IH]; [done|exact IH|done]. Qed.

Lemma drop_empty_first ts : drop_empty ts = [] ∨ str_join "," (drop_empty ts) ≠ "".
Proof. induction ts as [|[|c x] ts IH]; [by left|exact IH|right]. cbn [drop_empty]. by destruct ts. Qed.

Lemma join_value_spec l : foldl join_value "" l = str_join "," (drop_empty (MarshalBasicBson <$> l)).
Proof.
  induction l as [|v l IH] using rev_ind; [done|]. rewrite foldl_snoc, IH, fmap_app. cbn [fmap list_fmap]. rewrite drop_empty_snoc.
  unfold join_value. destruct (drop_empty_first (MarshalBasicBson <$> l)) as [E|E].
  - rewrite E. cbn [str_join]. rewrite decide_False by (by intros []). by destruct (MarshalBasicBson v).
  - rewrite decide_True by done. destruct (drop_empty (MarshalBasicBson <$> l)) eqn:Ed; [done|]. by rewrite <-(str_join_snoc ",").
Qed.

Lemma cell_column d k : column d k (cell d k).
Proof.
  exists (str_split "." (Key k)). split_and!; [apply str_split_ne|apply (split_parts ".")|apply str_join_split|].
  unfold cell. destruct (Lookup_at (str_split "." (Key k)) d) as [H|[H ->]]; [left|by right].
  eexists. split; [exact H|]. destruct (Lookup _ d) as [| | | | | |l| |]; try (apply shown_value; [done|apply MarshalBasicBson_basic]).
  rewrite join_value_spec. constructor. apply Forall2_fmap_r, Forall_Forall2_diag, Forall_true. apply MarshalBasicBson_basic.
Qed.

(** The rows of a table: for every document its columns. *)
Definition rows_of (defs : list def_) (ds : list raw) (rows : list (list string)) : Prop :=
  Forall2 (λ d row, Forall2 (column d) defs row) ds rows.

Lemma record_of_rows defs ds : rows_of defs ds (record_of defs <$> ds).
Proof.
  apply Forall2_fmap_r, Forall_Forall2_diag, Forall_true. intros d. apply Forall2_fmap_r, Forall_Forall2_diag, Forall_true. apply cell_column.
Qed.

Lemma export_found {F S P} (c : Pages.collection raw F S P) f defs name st total ds err :
  works st → lacks "/" name = true → lacks "/" (random st) = true → defs ≠ [] →
  Pages.CountDocuments c f = inl total → Pages.Find c f Pages.find_default = inl (Pages.mkCursor ds err) →
  ∃ ps p entry content text rows, ExportFromMongoDB c f defs name st = Ret (ps ++ [p], Saved entry content) ∧
    strip_prefix bom content = Some text ∧ csv_read text = Some ((Header <$> defs) :: rows) ∧ rows_of defs ds rows ∧
    ∃ fn, final_event p (Saved entry content) = mkResp SuccessCode "success" (mkProgress total total "success" fn).
Proof.
  intros Hst Hn Hr Hd Hc Hf. unfold ExportFromMongoDB. rewrite Hc, Hf. cbn [Pages.delivered].
  destruct (export_rows_saved st name total (Header <$> defs) (record_of defs <$> ds) Hst Hn Hr) as (ps & p & -> & Ht).
  eexists ps, p, _, _, _, _. split; [done|]. split; [by apply strip_prefix_Some|].
  split; [|split; [apply record_of_rows|eexists; cbn; by rewrite Ht]].
  apply csv_read_text. constructor; [by destruct defs|]. apply Forall_fmap, Forall_true. intros d. by destruct defs.
Qed.


(** A cursor that fails half-way ends the table, and the last event says that all was
    exported. *)
Theorem truncated_export_succeeds {F S P} (c : Pages.collection raw F S P) f defs name st total ds err :
  works st → lacks "/" name = true → lacks "/" (random st) = true → defs ≠ [] →
  Pages.CountDocuments c f = inl total → Pages.Find c f Pages.find_default = inl (Pages.mkCursor ds (Some err)) →
  ∃ ps p entry content text rows, ExportFromMongoDB c f defs name st = Ret (ps ++ [p], Saved entry content) ∧
    strip_prefix bom content = Some text ∧ csv_read text = Some ((Header <$> defs) :: rows) ∧ rows_of defs ds rows ∧
    ∃ fn, final_event p (Saved entry content) = mkResp SuccessCode "success" (mkProgress total total "success" fn).
Proof. apply export_found. Qed.

(** ** Two hosts *)

Definition w_store : store := mkStore None None None (λ _, None) None None 17 "abcd".
Definition w_defs : list def_ := [mkDef "hostname" "Host"; mkDef "net.ips" "Addresses"; mkDef "note" "Note"].
Definition w_docs : list raw :=
  [RDoc [("hostname", RString "a"); ("net", RDoc [("ips", RArray [RString "10.0.0.1"; RString "10.0.0.2"])]); ("note", RString (String quote (String lf "x")))];
   RDoc [("hostname", RString "b")]].
Definition w_hosts (err : option string) : Pages.collection raw unit unit unit :=
  Pages.mkCollection (λ _, inl 2%Z) (inl 2%Z) (λ _ _, inl (Pages.mkCursor (if err then take 1 w_docs else w_docs) err)) (λ _, inr "").


(** The rows of these documents. *)
Lemma w_rows :
  record_of w_defs <$> w_docs = [["a"; "10.0.0.1,10.0.0.2"; String quote (String lf "x")]; ["b"; ""; ""]].
Proof. vm_compute. reflexivity. Qed.

Lemma truncated_export_succeeds_witness :
  ∃ ps p entry content text rows, ExportFromMongoDB (w_hosts (Some "timeout")) () w_defs "hosts" w_store = Ret (ps ++ [p], Saved entry content) ∧
    strip_prefix bom content = Some text ∧ csv_read text = Some (["Host"; "Addresses"; "Note"] :: rows) ∧ rows_of w_defs (take 1 w_docs) rows ∧
    ∃ fn, final_event p (Saved entry content) = mkResp SuccessCode "success" (mkProgress 2 2 "success" fn).
Proof. apply (truncated_export_succeeds (w_hosts (Some "timeout")) () w_defs "hosts" w_store 2 (take 1 w_docs) "timeout"); [by repeat split|done..]. Defined.

(** A boolean, and the empty texts at the start of an array, leave no trace in the table. *)
Lemma values_not_exported :
  cell (RDoc [("online", ROther)]) (mkDef "online" "Online") = "" ∧
  cell (RDoc [("tags", RArray [RString ""; RString "x"])]) (mkDef "tags" "Tags") = "x".
Proof. vm_compute. done. Qed.

End TableExport.
