(* ===== verification/Identity.v ===== *)
(** * The identity of an agent

    Models [agent/agent/id.go]: the start of the agent, which takes its identity from the
    environment, from the file [machine-id] of its directory, from that of the host, or
    from the hardware, and keeps it in its own file.  The files and the package of UUIDs are
    arguments; class [Uuid] states what the package documents. *)

From stdpp Require Import base tactics decidable list strings pretty.
From Stdlib Require Import Lia.
From S2P Require Import Prelude GoStrings GoText.
Local Open Scope string_scope.
Local Open Scope list_scope.
Set Default Proof Using "Type".

Module Identity.

Class Uuid (U : Type) := {
  ParseBytes : string → U + string;
  uuid_String : U → string;
  NewSHA1 : string → U;
  parse_print : ∀ u, ParseBytes (uuid_String u) = inl u;
  print_trimmed : ∀ u, trim_space (uuid_String u) = uuid_String u }.

Section start.
Context `{Uuid U} (ReadFile : string → string + string).

Definition fromUUIDFile (file : string) : U + string :=
  match ReadFile file with inl b => ParseBytes (trim_space b) | inr err => inr err end.

(** The bytes are also returned with the error that they are too few. *)
Definition fromIDFile (file : string) : string * option string :=
  match ReadFile file with
  | inr err => ("", Some err)
  | inl id => if decide (String.length id < 6) then (id, Some "id too short") else (trim_space id, None)
  end.

(** What an identifier adds to the source of the hash. *)
Definition add_source (source : string) (id : string * option string) : string :=
  match id.2 with None => source +:+ id.1 | Some _ => source end.

Definition generic_uuids : list string :=
  ["03000200-0400-0500-0006-000700080009"; "02000100-0300-0400-0005-000600070008"].
Definition generic_names : list string := [""; "--"; "unknown"; "To be filled by O.E.M."; "OEM not specify"].

(** The product is one of a vendor that names its products. *)
Definition named_product (pname : string * option string) : bool :=
  bool_decide (pname.2 = None ∧ pname.1 ∉ generic_names ∧ ascii_lower pname.1 ≠ "t.b.d").

(** What [init] leaves: the identity, and what it wrote to [machine-id], also when it
    panics. *)
Record started := mkStarted { ID : outcome string; written : option string }.

Definition keep (id : string) : started := mkStarted (Ret id) (Some id).

(** The part of [init] after the two files with a UUID: the identity from the hardware. *)
Definition from_hardware (fresh : U) : started :=
  let isid := fromIDFile "/var/lib/cloud/data/instance-id" in
  let pdid := fromIDFile "/sys/class/dmi/id/product_uuid" in
  let emac := fromIDFile "/sys/class/net/eth0/address" in
  let source := add_source (add_source (add_source "" isid) pdid) emac in
  if decide (8 < String.length source ∧ pdid.1 ∉ generic_uuids ∧ named_product (fromIDFile "/sys/class/dmi/id/product_name") = true)
  then keep (uuid_String (NewSHA1 source))
  else
    match emac.2 with
    | None => mkStarted (Panic "nil pointer dereference") (Some "")
    | Some err =>
        let mid := fromIDFile "/etc/machine-id" in
        if decide (err = "invalid UUID format" ∧ mid.2 = None) then keep (uuid_String (NewSHA1 mid.1))
        else match fromUUIDFile "machine-id" with
             | inl u => keep (uuid_String u)
             | inr _ => keep (uuid_String fresh)
             end
    end.

(** [init]; [env] is the variable [SPECIFIED_AGENT_ID] and [fresh] the result of
    [uuid.New]. *)
Definition init (env : option string) (fresh : U) : started :=
  if decide (default "" env ≠ "") then mkStarted (Ret (default "" env)) None
  else
    match fromUUIDFile "machine-id" with
    | inl u => keep (uuid_String u)
    | inr _ =>
        match fromUUIDFile "/etc/machine-id" with
        | inl u => keep (uuid_String u)
        | inr _ => from_hardware fresh
        end
    end.

Definition TenantAuthCode : string :=
  match fromIDFile "tenant-auth-code" with (code, None) => code | _ => "" end.
Definition WorkingDirectory (wd : string) : string := if decide (wd = "") then "/var/run" else wd.

(** ** Laws *)

Lemma returned_written env fresh id :
  default "" env = "" → ID (init env fresh) = Ret id → written (init env fresh) = Some id ∧ ∃ u, id = uuid_String u.
Proof.
  intros He. unfold init, from_hardware, keep. rewrite He. rewrite decide_False by (intros []; done).
  repeat (case_decide || case_match); cbn; intros; simplify_eq; eauto.
Qed.

End start.

(** [C15] An agent keeps its identity: once it started without an identity in the environment,
    every later start that finds the file the first one wrote has the same identity and
    writes it again, whatever became of the hardware and of the other files. *)
Theorem identity_kept `{Uuid U} (files files' : string → string + string) env env' fresh fresh' id :
  default "" env = "" → default "" env' = "" → ID (init files env fresh) = Ret id →
  (∀ text, written (init files env fresh) = Some text → files' "machine-id" = inl text) →
  init files' env' fresh' = mkStarted (Ret id) (Some id).
Proof.
  intros He He' Hid Hf. destruct (returned_written files env fresh id He Hid) as [Hw [u ->]].
  unfold init. rewrite He', decide_False by (intros []; done). unfold fromUUIDFile. rewrite (Hf _ Hw), print_trimmed, parse_print. done.
Qed.

(** A host with a network card [eth0] and a product without a name, and no UUID in the two
    files: the start panics on the error of the last read, which there is none of, and
    leaves an empty [machine-id]. *)
Theorem unnamed_product_panics `{Uuid U} (files : string → string + string) fresh mac err err' :
  fromUUIDFile files "machine-id" = inr err → fromUUIDFile files "/etc/machine-id" = inr err' →
  files "/sys/class/net/eth0/address" = inl mac → (6 ≤ String.length mac)%nat →
  named_product (fromIDFile files "/sys/class/dmi/id/product_name") = false →
  init files None fresh = mkStarted (Panic "nil pointer dereference") (Some "").
Proof.
  intros H1 H2 Hm Hl Hn. unfold init. rewrite decide_False by (intros []; done). rewrite H1, H2. unfold from_hardware.
  rewrite decide_False by (intros (_ & _ & Hx); congruence). unfold fromIDFile at 1. rewrite Hm, decide_False by lia. done.
Qed.

(** ** A host *)

(** A package with two UUIDs. *)
#[export] Program Instance two_uuids : Uuid bool := {|
  ParseBytes s := if decide (s = "00000000-1") then inl true else if decide (s = "00000000-0") then inl false else inr "invalid UUID length";
  uuid_String b := if b then "00000000-1" else "00000000-0"; NewSHA1 _ := true |}.
Next Obligation. by intros []. Qed.
Next Obligation. by intros []. Qed.

Definition w_files (text : string) (file : string) : string + string :=
  if decide (file = "machine-id") then inl text
  else if decide (file = "/sys/class/net/eth0/address") then inl "02:42:ac:11:00:02"
  else inr "no such file or directory".

Definition w_named (file : string) : string + string :=
  if decide (file = "/sys/class/dmi/id/product_name") then inl "PowerEdge R740" else w_files "" file.

Lemma identity_kept_witness :
  init w_named None false = mkStarted (Ret "00000000-1") (Some "00000000-1") ∧
  init (w_files "00000000-1") (Some "") true = mkStarted (Ret "00000000-1") (Some "00000000-1").
Proof.
  split; [by vm_compute|]. apply (identity_kept w_named (w_files "00000000-1") None (Some "") false true "00000000-1");
    [done|done|by vm_compute|]. intros text Ht. vm_compute in Ht. by injection Ht as <-.
Defined.

Lemma unnamed_product_panics_witness :
  init (w_files "") None true = mkStarted (Panic "nil pointer dereference") (Some "").
Proof.
  apply (unnamed_product_panics (w_files "") true "02:42:ac:11:00:02" "invalid UUID length" "no such file or directory");
    [by vm_compute|by vm_compute|done|by vm_compute; lia|by vm_compute].
Defined.

End Identity.
