(* ===== verification/HostFacts.v ===== *)
(** * Facts about the host

    Models [agent/host/host.go], [agent/resource/resource.go] and [resource_linux.go]: the
    addresses, the resources of a process, the size of a directory, name servers, gateway
    and network counters that the agent puts into its heartbeat.  The files of the host are
    an argument, and so are the answers of the package that reads process counters; class
    [Lru] states what the package of caches documents. *)

From Stdlib Require Import Ascii.
From stdpp Require Import base tactics decidable list strings gmap pretty numbers.
From Stdlib Require Import ZArith Lia.
From S2P Require Import Prelude GoStrings GoText GoFloat.
Local Open Scope string_scope.
Local Open Scope list_scope.
Set Default Proof Using "Type".

Module HostFacts.

(** ** Addresses ([net.IP]: 16 bytes, or 4) *)

Abbreviation IP := (list Z).

Definition v4_prefix : list Z := [0; 0; 0; 0; 0; 0; 0; 0; 0; 0; 255; 255]%Z.

Definition To4 (ip : IP) : option IP :=
  if decide (length ip = 4) then Some ip
  else if decide (length ip = 16 ∧ take 12 ip = v4_prefix) then Some (drop 12 ip) else None.

(** The [i]-th byte. *)
Definition at_ (i : nat) (ip : IP) : Z := default 0%Z (ip !! i).

Definition IsGlobalUnicast (ip : IP) : bool :=
  match To4 ip with
  | Some a =>
      bool_decide (a ≠ [255; 255; 255; 255]%Z ∧ a ≠ [0; 0; 0; 0]%Z ∧ at_ 0 a ≠ 127%Z ∧ Z.land (at_ 0 a) 240 ≠ 224%Z ∧
                   ¬ (at_ 0 a = 169%Z ∧ at_ 1 a = 254%Z))
  | None =>
      bool_decide (length ip = 16 ∧ ip ≠ replicate 16 0%Z ∧ ip ≠ replicate 15 0%Z ++ [1%Z] ∧ at_ 0 ip ≠ 255%Z ∧
                   ¬ (at_ 0 ip = 254%Z ∧ Z.land (at_ 1 ip) 192 = 128%Z))
  end.

Definition ip4_String (a : IP) : string := str_join "." (itoa <$> a).

(** The groups of 16 bits of an IPv6 address. *)
Fixpoint groups (ip : IP) : list Z :=
  match ip with a :: b :: ip => (a * 256 + b)%Z :: groups ip | _ => [] end.

Fixpoint zeros (l : list Z) : nat := match l with 0%Z :: l => S (zeros l) | _ => 0 end.

(** The first longest run of zero groups: where it starts, and its length. *)
Fixpoint longest (i : nat) (l : list Z) : nat * nat :=
  match l with
  | [] => (i, 0)
  | x :: l' => let r := longest (S i) l' in if decide (snd r ≤ zeros l)%nat then (i, zeros l) else r
  end.

Fixpoint hex_go (fuel : nat) (z : Z) : string :=
  match fuel with
  | 0 => ""
  | S fuel => (if decide (z < 16)%Z then "" else hex_go fuel (z / 16)) +:+ String (hex_digit (Z.to_N (z mod 16))) ""
  end.
Definition hex16 (z : Z) : string := hex_go 4 z.

Definition ip6_String (ip : IP) : string :=
  let g := groups ip in
  let '(i, n) := longest 0 g in
  if decide (2 ≤ n)%nat then str_join ":" (hex16 <$> take i g) +:+ "::" +:+ str_join ":" (hex16 <$> drop (i + n) g)
  else str_join ":" (hex16 <$> g).

Definition ip_String (ip : IP) : string := match To4 ip with Some a => ip4_String a | None => ip6_String ip end.

Example ip6_loopback : ip6_String (replicate 15 0 ++ [1])%Z = "::1".
Proof. reflexivity. Qed.
Example ip6_compressed : ip6_String [32; 1; 13; 184; 0; 0; 0; 0; 0; 0; 0; 255; 0; 0; 0; 0]%Z = "2001:db8::ff:0:0".
Proof. reflexivity. Qed.

(** ** The addresses of the host ([agent/host/host.go]) *)

(** [addrs] are the addresses of the interface as [net.ParseCIDR] reads them; [None] is an
    address that does not parse. *)
Record interface := mkInterface { iName : string; addrs : list (option IP) + string }.

Record addresses := mkAddresses { PrivateIPv4 : list string; PublicIPv4 : list string; PrivateIPv6 : list string; PublicIPv6 : list string }.

Definition private4 (a : IP) : bool :=
  bool_decide (at_ 0 a = 10%Z ∨ (at_ 0 a = 192%Z ∧ at_ 1 a = 168%Z) ∨ (at_ 0 a = 172%Z ∧ (15 < at_ 1 a)%Z ∧ (at_ 1 a < 32)%Z)).

Definition add_address (h : addresses) (addr : option IP) : addresses :=
  match addr with
  | None => h
  | Some ip =>
      if negb (IsGlobalUnicast ip) then h
      else
        match To4 ip with
        | Some a =>
            if private4 a then mkAddresses (PrivateIPv4 h ++ [ip4_String a]) (PublicIPv4 h) (PrivateIPv6 h) (PublicIPv6 h)
            else mkAddresses (PrivateIPv4 h) (PublicIPv4 h ++ [ip4_String a]) (PrivateIPv6 h) (PublicIPv6 h)
        | None =>
            if decide (length ip = 16) then
              if decide (at_ 0 ip = 253%Z) then mkAddresses (PrivateIPv4 h) (PublicIPv4 h) (PrivateIPv6 h ++ [ip_String ip]) (PublicIPv6 h)
              else mkAddresses (PrivateIPv4 h) (PublicIPv4 h) (PrivateIPv6 h) (PublicIPv6 h ++ [ip_String ip])
            else h
        end
  end.

Definition add_interface (h : addresses) (i : interface) : addresses :=
  if has_prefix "docker" (iName i) || has_prefix "lo" (iName i) then h
  else match addrs i with inl l => foldl add_address h l | inr _ => h end.

(** [RefreshHost]; the name of the host is stored as it is. *)
Definition RefreshHost (interfaces : list interface + string) : addresses :=
  let h := match interfaces with inl l => foldl add_interface (mkAddresses [] [] [] []) l | inr _ => mkAddresses [] [] [] [] end in
  mkAddresses (take 5 (PrivateIPv4 h)) (PublicIPv4 h) (take 5 (PrivateIPv6 h)) (PublicIPv6 h).

(** ** Directories *)

(** A tree of files as [filepath.Walk] sees it; [None] is a directory that cannot be
    read. *)
Inductive node := File (size : Z) | Dir (entries : option (list (string * node))).

(** [filepath.Walk] with the function of [GetDirSize]. *)
Fixpoint walk (except name : string) (n : node) (acc : Z) : Z :=
  match n with
  | File size => uint64 (acc + uint64 size)
  | Dir entries =>
      if decide (name = except) then acc
      else match entries with
           | None => acc
           | Some l => (fix go l acc := match l with [] => acc | (k, n) :: l => go l (walk except k n acc) end) l acc
           end
  end.

(** [GetDirSize]; [None] is a path that does not exist. *)
Definition GetDirSize (except name : string) (root : option node) : Z :=
  match root with Some n => walk except name n 0 | None => 0 end.

(** ** Name servers, gateway, connections and network counters *)

Section files.
Context (ReadFile : string → string + string).

Definition dmi (file : string) : string :=
  match ReadFile ("/sys/class/dmi/id/" +:+ file) with inl s => trim_space s | inr _ => "" end.

(** [GetHostInfo]: serial, id, model and vendor. *)
Definition GetHostInfo : string * string * string * string :=
  (dmi "product_serial", dmi "product_uuid", dmi "product_name", dmi "sys_vendor").

Definition nameserver (line : string) : option string :=
  if has_prefix "nameserver" line then Some (trim_space (trim_prefix "nameserver" line)) else None.

Definition GetDNS : string :=
  str_join "," (match ReadFile "/etc/resolv.conf" with inl text => omap nameserver (scan_lines text) | inr _ => [] end).

(** [strconv.ParseInt(s, 16, 64)]; [None] is an error. *)
Fixpoint hex_number (acc : Z) (s : string) : option Z :=
  match s with
  | "" => Some acc
  | String c s =>
      match hex_value c with
      | None => None
      | Some d => if decide (2 ^ 64 ≤ acc * 16 + Z.of_N d)%Z then None else hex_number (acc * 16 + Z.of_N d) s
      end
  end.

Definition ParseInt16 (s : string) : option Z :=
  let '(neg, body) := match s with
                      | String "-" t => (true, t)
                      | String "+" t => (false, t)
                      | _ => (false, s)
                      end in
  if decide (body = "") then None
  else match hex_number 0 body with
       | None => None
       | Some n => if neg then if decide (2 ^ 63 < n)%Z then None else Some (- n)%Z
                   else if decide (2 ^ 63 ≤ n)%Z then None else Some n
       end.

Definition RTF_UP : Z := 1.
Definition RTF_GATEWAY : Z := 2.

Definition gateway_of (line : string) : option string :=
  match str_fields line with
  | _ :: _ :: gw :: fl :: _ =>
      match ParseInt16 fl with
      | Some flags =>
          if decide (Z.land flags RTF_UP = RTF_UP ∧ Z.land flags RTF_GATEWAY = RTF_GATEWAY) then
            match hex_DecodeString gw with
            | Some (String a (String b (String c (String d "")))) => Some (ip4_String ((λ x, Z.of_N (byte_of x)) <$> [d; c; b; a]))
            | _ => None
            end
          else None
      | None => None
      end
  | _ => None
  end.

Definition GetGateway : string :=
  match ReadFile "/proc/net/route" with
  | inl text => default "" (head (omap gateway_of (scan_lines text)))
  | inr _ => ""
  end.

(** [GetTCPCount]: the count is assigned for each file that is read. *)
Definition tcp_count (count : Z) (file : string) : Z :=
  match ReadFile file with
  | inl data =>
      let n := Z.of_nat (length (str_split newline data)) in if decide (1 < n)%Z then (n - 1)%Z else n
  | inr _ => count
  end.
Definition GetTCPCount : Z := foldl tcp_count 0%Z ["/proc/net/tcp"; "/proc/net/tcp6"].

End files.

(** The state of the loop of [TotalFlowByDevice]: the columns of the counters, and their
    values. *)
Record flow := mkFlow { receive : Z; transmit : Z; receiveBytes : Z; transmitBytes : Z }.

(** [bytes, _ := strconv.ParseInt(value, 10, 64)] *)
Definition flow_value (f : flow) (i : Z) (value : string) : flow :=
  if decide (receive f = i) then mkFlow (receive f) (transmit f) (uint64 (parse_int value).1) (transmitBytes f)
  else if decide (transmit f = i) then mkFlow (receive f) (transmit f) (receiveBytes f) (uint64 (parse_int value).1)
  else f.

Definition device_field (dev : string) (fi : flow * Z) (field : string) : flow * Z :=
  if str_contains dev field then (fi.1, 1%Z)
  else foldl (λ fi v, (flow_value fi.1 fi.2 v, (fi.2 + 1)%Z)) fi (str_fields field).

(** A column of the header: the first one of bytes is that of the received ones. *)
Definition header_value (s : flow * Z * bool) (value : string) : flow * Z * bool :=
  let '(f, index, tag) := s in
  let '(f, tag) := if str_contains "bytes" value
                   then if tag then (mkFlow (receive f) index (receiveBytes f) (transmitBytes f), tag)
                        else (mkFlow index (transmit f) (receiveBytes f) (transmitBytes f), true)
                   else (f, tag) in
  (f, (index + 1)%Z, tag).

Definition header_field (s : flow * Z * bool) (field : string) : flow * Z * bool :=
  if str_contains "face" field then (s.1.1, 1%Z, s.2)
  else if str_contains "bytes" field then foldl header_value s (str_fields field)
  else s.

Definition flow_line (dev : string) (f : flow) (line : string) : flow :=
  if str_contains dev line then (foldl (device_field dev) (f, 0%Z) (str_split ":" line)).1
  else if str_contains "face" line then (foldl header_field (f, 0%Z, false) (str_split "|" line)).1.1
  else f.

(** [TotalFlowByDevice] of the text of [/proc/net/dev]: received and sent bytes. *)
Definition TotalFlowByDevice (dev : string) (devInfo : string + string) : (Z * Z) + string :=
  match devInfo with
  | inr err => inr err
  | inl text => let f := foldl (flow_line dev) (mkFlow (-1) (-1) 0 0) (str_split newline text) in inl (receiveBytes f, transmitBytes f)
  end.

(** [UploadDownloadFlow]: two readings, a second apart. *)
Definition UploadDownloadFlow (dev : string) (first second : string + string) : (Z * Z) + string :=
  match TotalFlowByDevice dev first with
  | inr err => inr err
  | inl (down, up) =>
      match TotalFlowByDevice dev second with
      | inr err => inr err
      | inl (down2, up2) => inl (int64 (uint64 (down2 - down)), int64 (uint64 (up2 - up)))
      end
  end.

(** ** The resources of a process *)

(** A cache that may forget. *)
Class Lru (C : Type → Type) := {
  lget : ∀ {V}, Z → C V → option V;
  ladd : ∀ {V}, Z → V → C V → C V;
  lget_add : ∀ {V} k (v : V) c, lget k (ladd k v c) = Some v;
  lget_other : ∀ {V} k k' (v : V) c, k' ≠ k → lget k' (ladd k v c) = lget k' c ∨ lget k' (ladd k v c) = None }.

(** What the package reports of a process: [MemoryInfo] and [IOCounters] may fail. *)
Record counters := mkCounters {
  Percent : GoFloat.f64; CreateTime : Z; NumFDs : Z; RSS : Z + string; IO : (Z * Z) + string }.

Record IOState := mkIOState { stTime : Z; ReadBytes : Z; WriteBytes : Z }.

Record resources := mkResources {
  cpu : GoFloat.num; rss : Z; readSpeed : GoFloat.num; writeSpeed : GoFloat.num; fds : Z; startAt : Z }.

Definition zero : GoFloat.num := GoFloat.Fin (GoFloat.F64 0 0).

(** [GetProcResouce] with the state of the cache of readings; [p] is the process, from the
    cache of processes or [process.NewProcess], and [now] in nanoseconds. *)
Definition GetProcResouce `{Lru C} (pid : Z) (p : counters + string) (now : Z) (ioCache : C IOState)
    : C IOState * resources * option string :=
  match p with
  | inr err => (ioCache, mkResources zero 0 zero zero 0 0, Some err)
  | inl p =>
      let cpu := GoFloat.quotient (Percent p) (GoFloat.of_int 100) in
      let startAt := (CreateTime p `quot` 1000)%Z in
      let rss := match RSS p with inl n => n | inr _ => 0%Z end in
      match IO p with
      | inr err => (ioCache, mkResources cpu rss zero zero (NumFDs p) startAt, Some err)
      | inl (r, w) =>
          let '(rs, ws) := match lget pid ioCache with
                           | Some st => let d := GoFloat.Seconds (now - stTime st) in
                                        (GoFloat.quotient (GoFloat.of_int (uint64 (r - ReadBytes st))) d,
                                         GoFloat.quotient (GoFloat.of_int (uint64 (w - WriteBytes st))) d)
                           | None => let d := GoFloat.of_int (now `div` 1000000000 - startAt) in
                                     (GoFloat.quotient (GoFloat.of_int r) d, GoFloat.quotient (GoFloat.of_int w) d)
                           end in
          (ladd pid (mkIOState now r w) ioCache, mkResources cpu rss rs ws (NumFDs p) startAt, None)
      end
  end.

(** ** Addresses are classified *)

(** The addresses that count: those of the interfaces that are neither loopback nor of
    docker, without the local ones. *)
Definition counted (i : interface) : list IP :=
  if has_prefix "docker" (iName i) || has_prefix "lo" (iName i) then []
  else match addrs i with inl l => filter (λ ip, IsGlobalUnicast ip = true) (omap id l) | inr _ => [] end.

(** The number of an IPv4 address, and the blocks that RFC 1918 reserves. *)
Definition number (a : IP) : Z := foldl (λ n b, n * 256 + b)%Z 0%Z a.
Definition rfc1918 (a : IP) : Prop :=
  (number a / 2 ^ 24 = 10 ∨ number a / 2 ^ 20 = 172 * 16 + 1 ∨ number a / 2 ^ 16 = 192 * 256 + 168)%Z.

#[export] Instance rfc1918_dec a : Decision (rfc1918 a).
Proof. unfold rfc1918. apply _. Defined.

Definition is_ip (ip : IP) : Prop := (length ip = 4 ∨ length ip = 16) ∧ Forall (λ b, 0 ≤ b < 256)%Z ip.

Definition v4_private (ip : IP) : Prop := match To4 ip with Some a => rfc1918 a | None => False end.
Definition v4_public (ip : IP) : Prop := match To4 ip with Some a => ¬ rfc1918 a | None => False end.
Definition v6_private (ip : IP) : Prop := To4 ip = None ∧ at_ 0 ip = 253%Z.
Definition v6_public (ip : IP) : Prop := To4 ip = None ∧ at_ 0 ip ≠ 253%Z.

#[export] Instance v4_private_dec ip : Decision (v4_private ip).
Proof. unfold v4_private. destruct (To4 ip); apply _. Defined.
#[export] Instance v4_public_dec ip : Decision (v4_public ip).
Proof. unfold v4_public. destruct (To4 ip); apply _. Defined.
#[export] Instance v6_private_dec ip : Decision (v6_private ip).
Proof. unfold v6_private. apply _. Defined.
#[export] Instance v6_public_dec ip : Decision (v6_public ip).
Proof. unfold v6_public. apply _. Defined.

Lemma To4_bytes ip a : is_ip ip → To4 ip = Some a → length a = 4 ∧ Forall (λ b, 0 ≤ b < 256)%Z a.
Proof.
  intros [_ Hb]. unfold To4. repeat case_decide; intros [= <-]; [done|]. split; [rewrite length_drop; lia|by apply Forall_drop].
Qed.

Lemma private4_spec a : length a = 4 → Forall (λ b, 0 ≤ b < 256)%Z a → private4 a = true ↔ rfc1918 a.
Proof.
  intros Hl Hb. destruct a as [|a [|b [|c [|d [|]]]]]; try done. rewrite !Forall_cons in Hb. destruct Hb as (Ha & Hb & Hc & Hd & _).
  unfold private4, rfc1918, number. rewrite bool_decide_eq_true.
  change (at_ 0 [a; b; c; d]) with a. change (at_ 1 [a; b; c; d]) with b. cbn [foldl].
  set (n := ((((0 * 256 + a) * 256 + b) * 256 + c) * 256 + d)%Z).
  assert (n / 2 ^ 24 = a)%Z as -> by (symmetry; apply (Z.div_unique _ _ _ (b * 65536 + c * 256 + d)%Z); unfold n; lia).
  assert (n / 2 ^ 16 = a * 256 + b)%Z as -> by (symmetry; apply (Z.div_unique _ _ _ (c * 256 + d)%Z); unfold n; lia).
  assert (n / 2 ^ 20 = a * 16 + b / 16)%Z as ->.
  { symmetry. apply (Z.div_unique _ _ _ ((b mod 16) * 65536 + c * 256 + d)%Z); pose proof (Z.div_mod b 16); pose proof (Z.mod_pos_bound b 16); unfold n; lia. }
  pose proof (Z.div_mod b 16). pose proof (Z.mod_pos_bound b 16). lia.
Qed.

Definition listed (h : addresses) (l : list IP) : addresses := mkAddresses
  (PrivateIPv4 h ++ (ip_String <$> filter v4_private l)) (PublicIPv4 h ++ (ip_String <$> filter v4_public l))
  (PrivateIPv6 h ++ (ip_String <$> filter v6_private l)) (PublicIPv6 h ++ (ip_String <$> filter v6_public l)).

Lemma listed_nil h : listed h [] = h.
Proof. destruct h. unfold listed. cbn. by rewrite !app_nil_r. Qed.

Lemma listed_app h l k : listed (listed h l) k = listed h (l ++ k).
Proof. unfold listed. cbn. by rewrite !filter_app, !fmap_app, !app_assoc. Qed.

Lemma add_address_listed h ip :
  is_ip ip → IsGlobalUnicast ip = true → add_address h (Some ip) = listed h [ip].
Proof.
  intros Hip Hg. unfold add_address. rewrite Hg. cbn [negb]. unfold listed. rewrite !filter_cons, !filter_nil.
  destruct (To4 ip) as [a|] eqn:E.
  - destruct (To4_bytes ip a Hip E) as [Hl Hb]. pose proof (private4_spec a Hl Hb) as Hp.
    assert (v4_private ip ↔ rfc1918 a) as H1 by (unfold v4_private; by rewrite E).
    assert (v4_public ip ↔ ¬ rfc1918 a) as H2 by (unfold v4_public; by rewrite E).
    assert (¬ v6_private ip) as H3 by (intros [? _]; congruence). assert (¬ v6_public ip) as H4 by (intros [? _]; congruence).
    assert (ip_String ip = ip4_String a) as Hs by (unfold ip_String; by rewrite E).
    rewrite (decide_False (P := v6_private ip)), (decide_False (P := v6_public ip)) by done.
    destruct (private4 a).
    + assert (rfc1918 a) by by apply Hp. rewrite decide_True, decide_False by tauto. rewrite !fmap_nil, !app_nil_r. cbn. by rewrite Hs.
    + assert (¬ rfc1918 a) by (intros Hx; by apply Hp in Hx). rewrite decide_False, decide_True by tauto. rewrite !fmap_nil, !app_nil_r. cbn. by rewrite Hs.
  - assert (length ip = 16) as Hl by (destruct Hip as [[?|?] _]; [|done]; unfold To4 in E; by rewrite decide_True in E).
    rewrite (decide_True (P := length ip = 16)) by done.
    assert (¬ v4_private ip ∧ ¬ v4_public ip) as [H1 H2] by (unfold v4_private, v4_public; rewrite E; tauto).
    rewrite (decide_False (P := v4_private ip)), (decide_False (P := v4_public ip)) by done.
    case_decide as Hd.
    + rewrite decide_True, decide_False by (unfold v6_private, v6_public; tauto). by rewrite !fmap_nil, !app_nil_r.
    + rewrite decide_False, decide_True by (unfold v6_private, v6_public; tauto). by rewrite !fmap_nil, !app_nil_r.
Qed.

Lemma add_addresses_listed l h :
  Forall is_ip (omap id l) → foldl add_address h l = listed h (filter (λ ip, IsGlobalUnicast ip = true) (omap id l)).
Proof.
  revert h. induction l as [|[ip|] l IH]; intros h Hl; cbn [omap list_omap id foldl] in *; [by rewrite listed_nil| |by apply IH].
  apply Forall_cons in Hl as [Hip Hl]. rewrite filter_cons. rewrite (IH _ Hl). case_decide as Hg.
  - by rewrite add_address_listed, listed_app.
  - unfold add_address. by destruct (IsGlobalUnicast ip).
Qed.

(** The addresses of the agent: private and public ones apart, as RFC 1918 has it for IPv4
    and by the first byte for IPv6, in the order of the interfaces, the private ones up to
    five. *)
Theorem addresses_listed ifs :
  Forall (λ i, match addrs i with inl l => Forall is_ip (omap id l) | inr _ => True end) ifs →
  let all := ifs ≫= counted in
  RefreshHost (inl ifs) = mkAddresses
    (take 5 (ip_String <$> filter v4_private all)) (ip_String <$> filter v4_public all)
    (take 5 (ip_String <$> filter v6_private all)) (ip_String <$> filter v6_public all).
Proof.
  intros Hifs all. assert (∀ h, foldl add_interface h ifs = listed h all) as Hf; [|unfold RefreshHost; by rewrite Hf].
  unfold all. clear all. induction Hifs as [|i ifs Hi _ IH]; intros h; [by rewrite listed_nil|].
  cbn [foldl]. rewrite IH, bind_cons, <-listed_app. f_equal. unfold add_interface, counted.
  destruct (_ || _); [by rewrite listed_nil|]. destruct (addrs i); [by apply add_addresses_listed|by rewrite listed_nil].
Qed.

(** ** The size of a directory *)

(** The sizes of the files that are under no directory with the name [except]. *)
Fixpoint sizes (except name : string) (n : node) : list Z :=
  match n with
  | File size => [size]
  | Dir entries =>
      if decide (name = except) then []
      else match entries with
           | None => []
           | Some l => (fix go l := match l with [] => [] | (k, n) :: l => sizes except k n ++ go l end) l
           end
  end.

Definition total (l : list Z) : Z := foldr Z.add 0%Z l.

Lemma total_app l k : total (l ++ k) = (total l + total k)%Z.
Proof. unfold total. induction l as [|x l IH]; cbn; [done|]. rewrite IH. lia. Qed.

Lemma uint64_add a b : uint64 (uint64 a + b) = uint64 (a + b).
Proof. unfold uint64, wrap_u. by rewrite Zplus_mod_idemp_l. Qed.

Lemma walk_sizes except n : ∀ name acc, walk except name n (uint64 acc) = uint64 (acc + total (sizes except name n)).
Proof.
  revert n. fix IH 1. intros [size|[l|]] name acc; cbn [walk sizes].
  - cbn [total foldr]. rewrite Z.add_0_r, uint64_add, Z.add_comm, uint64_add. f_equal. lia.
  - case_decide; [cbn; by rewrite Z.add_0_r|]. revert acc. induction l as [|[k n] l IHl]; intros acc; [cbn; by rewrite Z.add_0_r|].
    rewrite IH, IHl, total_app. f_equal. lia.
  - case_decide; cbn; by rewrite Z.add_0_r.
Qed.

(** [GetDirSize] is the sum of the sizes, as 64 bits hold it. *)
Lemma GetDirSize_sum except name n : GetDirSize except name (Some n) = uint64 (total (sizes except name n)).
Proof. exact (walk_sizes except n name 0). Qed.

(** ** Name servers *)

(** A line of [resolv.conf]: a server, or another option. *)
Definition resolv_line (e : string + string) : string := match e with inl ip => "nameserver " +:+ ip | inr other => other end.
Definition resolv_ok (e : string + string) : Prop :=
  match e with inl ip => is_word ip | inr other => has_prefix "nameserver" other = false end.

Lemma trim_space_word w : is_word w → trim_space (String " " w) = w.
Proof.
  intros Hw. pose proof (trim_space_trimmed w (is_word_trimmed w Hw)) as Ht. unfold trim_space in *.
  assert (trim_left (String " " w) = trim_left w) as ->; [|done]. unfold trim_left. cbn [String.length trim_left_go].
  assert (strip_space (String " " w) = Some w) as -> by (cbn; by destruct w). done.
Qed.

Lemma nameserver_line e : resolv_ok e → nameserver (resolv_line e) = match e with inl ip => Some ip | inr _ => None end.
Proof.
  destruct e as [ip|o]; cbn [resolv_ok resolv_line]; intros He; unfold nameserver; [|by rewrite He].
  replace ("nameserver " +:+ ip) with ("nameserver" +:+ String " " ip) by done.
  assert (has_prefix "nameserver" ("nameserver" +:+ String " " ip) = true) as ->.
  { unfold has_prefix. assert (strip_prefix "nameserver" ("nameserver" +:+ String " " ip) = Some (String " " ip)) as -> by (by apply strip_prefix_Some). done. }
  rewrite trim_prefix_app. f_equal. apply trim_space_word. done.
Qed.

(** The name servers of the file, in its order. *)
Theorem dns_read ReadFile es :
  ReadFile "/etc/resolv.conf" = inl (unlines (resolv_line <$> es)) →
  Forall resolv_ok es → Forall is_line (resolv_line <$> es) →
  GetDNS ReadFile = str_join "," (omap (λ e, match e with inl ip => Some ip | inr _ => None end) es).
Proof.
  intros Hr He Hl. unfold GetDNS. rewrite Hr, scan_unlines by done. f_equal. clear Hl Hr.
  induction He as [|e es He _ IH]; [done|]. rewrite fmap_cons. cbn [omap list_omap]. rewrite nameserver_line by done.
  destruct e; [f_equal|]; exact IH.
Qed.

(** ** Network counters *)

(** The two lines with which [/proc/net/dev] begins. *)
Definition dev_header : list string :=
  ["Inter-|   Receive                                                |  Transmit";
   " face |bytes    packets errs drop fifo frame compressed multicast|bytes    packets errs drop fifo colls carrier compressed"].

(** A line of another device. *)
Definition other_line (dev line : string) : Prop :=
  str_contains dev line = false ∧ str_contains "face" line = false ∧ lacks "010" line = true.

Lemma flow_others dev f ls : Forall (other_line dev) ls → foldl (flow_line dev) f ls = f.
Proof.
  revert f. induction ls as [|l ls IH]; intros f Hl; [done|]. apply Forall_cons in Hl as [(H1 & H2 & _) Hl]. cbn [foldl].
  unfold flow_line at 2. by rewrite H1, H2, IH.
Qed.

(** The columns 1 and 9 have been found. *)
Definition columns (r t : Z) : flow := mkFlow 1 9 r t.

Lemma flow_first r t v : flow_value (columns r t) 1 v = columns (uint64 (parse_int v).1) t.
Proof. done. Qed.
Lemma flow_ninth r t v i : i = 9%Z → flow_value (columns r t) i v = columns r (uint64 (parse_int v).1).
Proof. by intros ->. Qed.
Lemma flow_between r t v i : i ≠ 1%Z ∧ i ≠ 9%Z → flow_value (columns r t) i v = columns r t.
Proof. intros [H1 H9]. unfold flow_value, columns. cbn [receive transmit]. by rewrite !decide_False by congruence. Qed.

Lemma flow_rest r t vs i : (9 < i)%Z → (foldl (λ fi v, (flow_value fi.1 fi.2 v, (fi.2 + 1)%Z)) (columns r t, i) vs).1 = columns r t.
Proof.
  revert i. induction vs as [|v vs IH]; intros i Hi; [done|]. cbn [foldl fst snd]. rewrite flow_between by lia. apply IH. lia.
Qed.

(** The line of a device with its counters. *)
Definition device_line (dev line : string) (r t : Z) : Prop :=
  ∃ name vals v2 v3 v4 v5 v6 v7 v8 rest,
    line = name +:+ String ":" vals ∧ lacks ":" name = true ∧ lacks ":" vals = true ∧
    str_contains dev name = true ∧ str_contains dev vals = false ∧
    str_fields vals = itoa r :: v2 :: v3 :: v4 :: v5 :: v6 :: v7 :: v8 :: itoa t :: rest.

Lemma flow_device dev line f r t :
  receive f = 1%Z → transmit f = 9%Z → str_contains dev line = true → device_line dev line r t →
  (0 ≤ r < 2 ^ 63)%Z → (0 ≤ t < 2 ^ 63)%Z → flow_line dev f line = columns r t.
Proof.
  intros Hfr Hft Hdev (name & vals & v2 & v3 & v4 & v5 & v6 & v7 & v8 & rest & -> & Hn & Hv & Hc & Hd & Hf) Hr Ht.
  unfold flow_line. rewrite Hdev. change ":" with (String ":" ""). rewrite str_split_char, str_split_lacks by done. cbn [foldl].
  unfold device_field. rewrite Hc. cbn [fst]. rewrite Hd, Hf.
  assert (∀ z, (0 ≤ z < 2 ^ 63)%Z → uint64 (parse_int (itoa z)).1 = z) as Hp.
  { intros z Hz. rewrite parse_int_itoa by (split; lia). cbn [fst]. apply Z.mod_small. lia. }
  destruct f as [fr ft b1 b2]. cbn in Hfr, Hft. subst fr ft.
  change (mkFlow 1 9 b1 b2) with (columns b1 b2). cbn [foldl fst snd]. rewrite flow_first, !flow_between, flow_ninth by lia.
  rewrite !Hp by done. by apply flow_rest.
Qed.

(** The counters of a device are those of its line. *)
Theorem flow_read dev pre line post r t :
  Forall (other_line dev) (pre ++ post) → str_contains dev line = true → lacks "010" line = true → device_line dev line r t →
  Forall (λ h, str_contains dev h = false) dev_header → (0 ≤ r < 2 ^ 63)%Z → (0 ≤ t < 2 ^ 63)%Z →
  TotalFlowByDevice dev (inl (str_join newline (dev_header ++ pre ++ line :: post))) = inl (r, t).
Proof.
  intros Ho Hdev Hlf Hline Hh Hr Ht. apply Forall_app in Ho as [Hpre Hpost]. unfold TotalFlowByDevice.
  change newline with (String "010" ""). rewrite split_join; [|apply Forall_app; split; [by repeat constructor|apply Forall_app; split; [|constructor; [done|]]]|done].
  2: { eapply Forall_impl; [exact Hpre|]. by intros l (_ & _ & ?). }
  2: { eapply Forall_impl; [exact Hpost|]. by intros l (_ & _ & ?). }
  assert (foldl (flow_line dev) (mkFlow (-1) (-1) 0 0) dev_header = mkFlow 1 9 0 0) as E.
  { unfold dev_header in *. rewrite !Forall_cons in Hh. destruct Hh as (H1 & H2 & _). cbn [foldl]. unfold flow_line. rewrite H1, H2. by vm_compute. }
  rewrite !foldl_app, E, (flow_others dev _ pre) by done. cbn [foldl]. rewrite (flow_device dev line _ r t) by done.
  by rewrite flow_others by done.
Qed.

(** ** The speed of a process *)

Section speeds.
Context `{Lru C}.

(** Calls for other processes in between. *)
Fixpoint others (l : list (Z * (counters + string) * Z)) (c : C IOState) : C IOState :=
  match l with [] => c | (pid, p, now) :: l => others l (GetProcResouce pid p now c).1.1 end.

Lemma others_keep pid l c :
  Forall (λ x, x.1.1 ≠ pid) l → lget pid (others l c) = lget pid c ∨ lget pid (others l c) = None.
Proof.
  revert c. induction l as [|[[k p] now] l IH]; intros c Hl; [by left|]. apply Forall_cons in Hl as [Hk Hl]. cbn [others fst] in *.
  destruct (IH (GetProcResouce k p now c).1.1 Hl) as [E|E]; [|by right]. rewrite E.
  unfold GetProcResouce. destruct p as [p|]; [|by left]. destruct (IO p) as [[r w]|]; [|by left].
  destruct (match lget k c with Some _ => _ | None => _ end) as [rs ws]. cbn [fst]. by apply lget_other.
Qed.

(** Between two calls for a process the speeds are the bytes read and written since, over
    the time since, unless the cache forgot the process. *)
Theorem speeds_measured pid p1 p2 t1 t2 r1 w1 r2 w2 between c :
  IO p1 = inl (r1, w1) → IO p2 = inl (r2, w2) → Forall (λ x, x.1.1 ≠ pid) between →
  (0 ≤ r1 ≤ r2 ∧ r2 < 2 ^ 64)%Z → (0 ≤ w1 ≤ w2 ∧ w2 < 2 ^ 64)%Z →
  let c1 := others between (GetProcResouce pid (inl p1) t1 c).1.1 in
  let res := (GetProcResouce pid (inl p2) t2 c1).1.2 in
  lget pid c1 = None ∨
  (readSpeed res = GoFloat.quotient (GoFloat.of_int (r2 - r1)) (GoFloat.Seconds (t2 - t1)) ∧
   writeSpeed res = GoFloat.quotient (GoFloat.of_int (w2 - w1)) (GoFloat.Seconds (t2 - t1))).
Proof.
  intros H1 H2 Hb Hr Hw c1 res. destruct (others_keep pid between (GetProcResouce pid (inl p1) t1 c).1.1 Hb) as [E|E]; [right|by left].
  assert (lget pid c1 = Some (mkIOState t1 r1 w1)) as Hc.
  { unfold c1. rewrite E. unfold GetProcResouce. rewrite H1. destruct (match lget pid c with Some _ => _ | None => _ end) as [rs ws]. cbn [fst]. apply lget_add. }
  unfold res, GetProcResouce. rewrite H2, Hc. cbn [stTime ReadBytes WriteBytes fst snd readSpeed writeSpeed].
  unfold uint64, wrap_u. rewrite !Z.mod_small by lia. done.
Qed.

End speeds.

(** ** Findings *)

(** The count of the TCP sockets is that of IPv6 alone: it is assigned, not added. *)
Theorem tcp_v4_not_counted ReadFile ReadFile' data :
  ReadFile "/proc/net/tcp6" = inl data → ReadFile' "/proc/net/tcp6" = inl data → GetTCPCount ReadFile = GetTCPCount ReadFile'.
Proof. intros H1 H2. unfold GetTCPCount. cbn [foldl]. unfold tcp_count at 1 3. by rewrite H1, H2. Qed.

Definition w_net : list string :=
  dev_header ++ ["    lo: 5 1 0 0 0 0 0 0 5 1 0 0 0 0 0 0"; "  eth0: 1000 10 0 0 0 0 0 0 2000 20 0 0 0 0 0 0"].

(** A device whose name contains the one that is asked for and that comes after it. *)
Theorem veth_counted_for_eth :
  TotalFlowByDevice "eth0" (inl (str_join newline w_net)) = inl (1000, 2000)%Z ∧
  TotalFlowByDevice "eth0" (inl (str_join newline (w_net ++ [" veth0: 7 1 0 0 0 0 0 0 9 1 0 0 0 0 0 0"]))) = inl (7, 9)%Z.
Proof. by vm_compute. Qed.

(** ** A host *)

#[export] Program Instance gmap_lru : Lru (gmap Z) := {| lget V k c := c !! k; ladd V k v c := <[k := v]> c |}.
Next Obligation. intros. apply lookup_insert_eq. Qed.
Next Obligation. intros V k k' v c Hne. left. by apply lookup_insert_ne. Qed.

Definition w_counters (r w : Z) : counters := mkCounters (GoFloat.of_int 50) 1000 3 (inl 4096%Z) (inl (r, w)).

(** A process that took the number of another one, which had read more: the difference
    wraps around. *)
Theorem reused_pid_speed :
  let c := (GetProcResouce (C := gmap Z) 7 (inl (w_counters 4096 0)) 0 ∅).1.1 in
  GoFloat.FormatNum 0 (readSpeed (GetProcResouce 7 (inl (w_counters 0 0)) 1000000000 c).1.2) = "18446744073709547520".
Proof. by vm_compute. Qed.

Definition w_ifs : list interface :=
  [mkInterface "lo" (inl [Some [127; 0; 0; 1]%Z]);
   mkInterface "eth0" (inl [Some [172; 31; 4; 5]%Z; Some [8; 8; 8; 8]%Z; None; Some [253; 0; 0; 0; 0; 0; 0; 0; 0; 0; 0; 0; 0; 0; 0; 9]%Z;
     Some [254; 128; 0; 0; 0; 0; 0; 0; 0; 0; 0; 0; 0; 0; 0; 1]%Z]);
   mkInterface "docker0" (inl [Some [172; 17; 0; 1]%Z])].

Lemma addresses_listed_witness :
  RefreshHost (inl w_ifs) = mkAddresses ["172.31.4.5"] ["8.8.8.8"] ["fd00::9"] [].
Proof.
  etrans; [apply (addresses_listed w_ifs)|by vm_compute].
  repeat (constructor; [cbn [addrs omap list_omap id mret]; repeat (constructor; [split; [first [by left|by right]|repeat (constructor; [lia|]); constructor]|]); constructor|]). constructor.
Defined.

Definition w_resolv : list (string + string) := [inr "search local"; inl "10.0.0.2"; inl "10.0.0.3"].

Lemma dns_read_witness :
  GetDNS (λ f, if decide (f = "/etc/resolv.conf") then inl (unlines (resolv_line <$> w_resolv)) else inr "") = "10.0.0.2,10.0.0.3".
Proof.
  etrans; [apply (dns_read _ w_resolv); [done|repeat constructor; done|apply (bool_decide_unpack _); by vm_compute]|done].
Defined.

Lemma flow_read_witness :
  TotalFlowByDevice "eth0" (inl (str_join newline (dev_header ++ ["    lo: 5 1 0 0 0 0 0 0 5 1 0 0 0 0 0 0"] ++ ["  eth0: 1000 10 0 0 0 0 0 0 2000 20 0 0 0 0 0 0"]))) = inl (1000, 2000)%Z.
Proof.
  apply (flow_read "eth0" ["    lo: 5 1 0 0 0 0 0 0 5 1 0 0 0 0 0 0"] "  eth0: 1000 10 0 0 0 0 0 0 2000 20 0 0 0 0 0 0" []);
    [by repeat constructor|done|done| |by repeat constructor|lia|lia].
  exists "  eth0", " 1000 10 0 0 0 0 0 0 2000 20 0 0 0 0 0 0", "10", "0", "0", "0", "0", "0", "0", ["20"; "0"; "0"; "0"; "0"; "0"; "0"].
  by vm_compute.
Defined.

Lemma speeds_measured_witness :
  let c1 := others [(8, inr "gone", 5)%Z] (GetProcResouce (C := gmap Z) 7 (inl (w_counters 1000 0)) 0 ∅).1.1 in
  let res := (GetProcResouce 7 (inl (w_counters 3000 500)) 2000000000 c1).1.2 in
  lget 7%Z c1 = None ∨
  (readSpeed res = GoFloat.quotient (GoFloat.of_int 2000) (GoFloat.Seconds 2000000000) ∧
   writeSpeed res = GoFloat.quotient (GoFloat.of_int 500) (GoFloat.Seconds 2000000000)).
Proof.
  apply (speeds_measured 7 (w_counters 1000 0) (w_counters 3000 500) 0 2000000000 1000 0 3000 500 [(8, inr "gone", 5)%Z] ∅);
    [done|done|by repeat constructor|lia|lia].
Defined.

End HostFacts.
