(* ===== verification/Heartbeat.v ===== *)
(** * The heartbeat of the agent

    Models [agent/heartbeat/heartbeat.go] with the counters it reads and resets
    ([transport.GetState], [connection.StatsHandler], [Plugin.GetState]) over the facts of
    [HostFacts.v]: once a minute a record about the agent, one for every plugin that runs
    and one for every network interface is put into the buffer.  The second half follows
    these records to the agent center: what its pool knows of the host afterwards. *)

From Stdlib Require Import Ascii.
From S2P Require Import Prelude GoStrings GoText GoFloat Wire Bridge Buffer PluginManager HostFacts Transfer Pool AgentCenter.
From stdpp Require Import options.
Local Open Scope string_scope.
Local Open Scope go_scope.
Local Open Scope list_scope.

Module Heartbeat.

(** ** Counters that are read and reset *)

(** [transport.GetState]: two counters; times in nanoseconds. *)
Record meter := mkMeter { txCnt : Z; rxCnt : Z; updateTime : Z }.

Definition rate (cnt : Z) (instant : GoFloat.f64) : GoFloat.num := GoFloat.quotient (GoFloat.of_int cnt) instant.

Definition GetState (now : Z) (m : meter) : GoFloat.num * GoFloat.num * meter :=
  let instant := GoFloat.Seconds (now - updateTime m) in
  if decide (GoFloat.man instant ≠ 0)%Z then (rate (txCnt m) instant, rate (rxCnt m) instant, mkMeter 0 0 now)
  else (HostFacts.zero, HostFacts.zero, mkMeter (txCnt m) (rxCnt m) now).

(** [StatsHandler.GetStats]: received and sent bytes; the time stays if none has passed. *)
Definition GetStats (now : Z) (m : meter) : GoFloat.num * GoFloat.num * meter :=
  let instant := GoFloat.Seconds (now - updateTime m) in
  if decide (GoFloat.man instant ≠ 0)%Z then (rate (rxCnt m) instant, rate (txCnt m) instant, mkMeter 0 0 now)
  else (HostFacts.zero, HostFacts.zero, m).

(** [StatsHandler.HandleRPC] *)
Definition HandleRPC (incoming : bool) (wireLength : Z) (m : meter) : meter :=
  if incoming then mkMeter (txCnt m) (uint64 (rxCnt m + wireLength)) (updateTime m)
  else mkMeter (uint64 (txCnt m + wireLength)) (rxCnt m) (updateTime m).

(** [Plugin.GetState]: the bytes and the records received and sent. *)
Record plugin_meter := mkPluginMeter { rxBytes : Z; txBytes : Z; rxRecs : Z; txRecs : Z; pUpdateTime : Z }.

Definition plugin_GetState (now : Z) (m : plugin_meter) : (GoFloat.num * GoFloat.num * GoFloat.num * GoFloat.num) * plugin_meter :=
  let instant := GoFloat.Seconds (now - pUpdateTime m) in
  if decide (GoFloat.man instant ≠ 0)%Z
  then ((rate (rxBytes m) instant, rate (txBytes m) instant, rate (rxRecs m) instant, rate (txRecs m) instant), mkPluginMeter 0 0 0 0 now)
  else ((HostFacts.zero, HostFacts.zero, HostFacts.zero, HostFacts.zero), mkPluginMeter (rxBytes m) (txBytes m) (rxRecs m) (txRecs m) now).

(** ** The fields of a record *)

Abbreviation fields := (list (string * string)).

Definition payload (l : fields) : Bridge.Payload := Bridge.mkPayload (foldl (λ m '(k, v), <[k := v]> m) ∅ l).
Definition record (dt : Z) (now : Z) (l : fields) : Bridge.Record_ := Bridge.mkRecord dt (now `div` 1000000000) (Some (payload l)).

(** [strconv.FormatFloat(x, 'f', 8, 64)] *)
Definition f8 (x : GoFloat.num) : string := GoFloat.FormatNum 8 x.

(** What [GetProcResouce] adds, if it succeeds. *)
Definition resource_fields (pid : Z) (r : HostFacts.resources) (err : option string) : fields :=
  match err with
  | Some _ => []
  | None => [("cpu", f8 (HostFacts.cpu r)); ("rss", itoa (HostFacts.rss r)); ("read_speed", f8 (HostFacts.readSpeed r));
             ("write_speed", f8 (HostFacts.writeSpeed r)); ("pid", itoa pid); ("nfd", itoa (HostFacts.fds r));
             ("start_time", itoa (HostFacts.startAt r))]
  end.

(** [GetDiskIO]: the partitions with what [disk.IOCounters] says of each. *)
Fixpoint disk_io (disks : list (string * (list Z + string))) : Z :=
  match disks with
  | [] => 0
  | (dev, stats) :: disks =>
      if str_contains "loop" dev then disk_io disks
      else match stats with inl (n :: _) => n | _ => disk_io disks end
  end.
Definition GetDiskIO (disks : list (string * (list Z + string)) + string) : Z :=
  match disks with inl l => disk_io l | inr _ => 0 end.

(** What the packages that look at the host answer. *)
Record host := mkHost {
  KernelVersion : string; Arch : string; Platform : string; PlatformFamily : string; PlatformVersion : string;
  idc : string; region : string; net_mode : string;
  disk_usage : (Z * GoFloat.f64) + string; disks : list (string * (list Z + string)) + string;
  working_dir : string; tree : option HostFacts.node; NumGoroutine : Z; NumCPU : Z; mem_total : Z + string;
  linux : bool; ReadFile : string → string + string; net_later : string + string;
  CPUName : string; CPUCounts : Z; BootTime : Z; cpu_percent : list GoFloat.f64 + string; mem_percent : GoFloat.f64 + string }.

Definition percent (x : GoFloat.f64) : GoFloat.num := GoFloat.quotient x (GoFloat.of_int 100).

Definition load_fields (h : host) : fields :=
  match ReadFile h "/proc/loadavg" with
  | inl text =>
      match str_fields text with
      | l1 :: l5 :: l15 :: procs :: _ =>
          [("load_1", l1); ("load_5", l5); ("load_15", l15)] ++
          match str_split "/" procs with
          | running :: total :: _ => [("running_procs", running); ("total_procs", total)]
          | _ => []
          end
      | _ => []
      end
  | inr _ => []
  end.

(** The fields of Linux hosts; [net_later] is [/proc/net/dev] a second later. *)
Definition linux_fields (h : host) : fields :=
  let '(serial, id, model, vendor) := HostFacts.GetHostInfo (ReadFile h) in
  load_fields h ++
  [("host_serial", serial); ("host_id", id); ("host_model", model); ("host_vendor", vendor);
   ("dns", HostFacts.GetDNS (ReadFile h)); ("gateway", HostFacts.GetGateway (ReadFile h));
   ("tcp_count", itoa (HostFacts.GetTCPCount (ReadFile h)))] ++
  match HostFacts.UploadDownloadFlow "eth0" (ReadFile h "/proc/net/dev") (net_later h) with
  | inl (out, in_) => [("exter_net_out", itoa out); ("exter_net_in", itoa in_)]
  | inr _ => []
  end.

Section stats.
Context `{HostFacts.Lru C} (json_strings : list string → string).

(** [agent.State] *)
Definition State (a : PluginManager.AgentState) : string * string :=
  (match PluginManager.currentState a with PluginManager.StateTypeRunning => "running" | PluginManager.StateTypeAbnormal => "abnormal" end,
   json_strings (PluginManager.abnormalErrs a)).

(** The state of the heartbeat: the meters, and the cache of [GetProcResouce]. *)
Record beat := mkBeat { conn_meter : meter; transfer_meter : meter; ioCache : C HostFacts.IOState }.

(** [getAgentStat]: the record, and the state. *)
Definition getAgentStat (now pid : Z) (p : HostFacts.counters + string) (a : PluginManager.AgentState) (h : host) (b : beat)
    : Bridge.Record_ * beat :=
  let '(rxSpeed, txSpeed, conn_m) := GetStats now (conn_meter b) in
  let '(io, res, err) := HostFacts.GetProcResouce pid p now (ioCache b) in
  let '(txTPS, rxTPS, transfer_m) := GetState now (transfer_meter b) in
  let '(diskTotal, diskUsage) := match disk_usage h with inl tu => tu | inr _ => (0%Z, GoFloat.F64 0 0) end in
  (record 1000 now
     ([("kernel_version", KernelVersion h); ("arch", Arch h); ("platform", Platform h); ("platform_family", PlatformFamily h);
       ("platform_version", PlatformVersion h); ("state", (State a).1); ("state_detail", (State a).2);
       ("idc", idc h); ("region", region h); ("net_mode", net_mode h); ("rx_speed", f8 rxSpeed); ("tx_speed", f8 txSpeed)] ++
      resource_fields pid res err ++
      [("tx_tps", f8 txTPS); ("rx_tps", f8 rxTPS); ("disk_count", itoa diskTotal); ("disk_usage", f8 (GoFloat.Fin diskUsage));
       ("io_rate", itoa (int64 (GetDiskIO (disks h)))); ("du", itoa (HostFacts.GetDirSize "plugin" (working_dir h) (tree h)));
       ("ngr", itoa (NumGoroutine h)); ("nproc", itoa (NumCPU h));
       ("total_mem", itoa (match mem_total h with inl n => n | inr _ => 0%Z end))] ++
      (if linux h then linux_fields h else []) ++
      [("cpu_name", CPUName h); ("cpu_count", itoa (CPUCounts h)); ("boot_time", itoa (BootTime h))] ++
      match cpu_percent h with inl (x :: _) => [("cpu_usage", f8 (percent x))] | _ => [] end ++
      match mem_percent h with inl x => [("mem_usage", f8 (percent x))] | inr _ => [] end),
   mkBeat conn_m transfer_m io).

(** A plugin: its configuration and process, what the package says of the process, the
    meter, and its directory. *)
Record plugin := mkPlugin {
  plg : PluginManager.Plugin; plg_pid : Z; plg_counters : HostFacts.counters + string;
  plg_meter : plugin_meter; plg_tree : option HostFacts.node }.

(** One round of the loop of [getPlgStat]; [t] is the clock that [GetState] reads. *)
Definition plugin_stat (now t : Z) (p : plugin) (io : C HostFacts.IOState) : Bridge.Record_ * plugin * C HostFacts.IOState :=
  let '(io, res, err) := HostFacts.GetProcResouce (plg_pid p) (plg_counters p) now io in
  let '((rxSpeed, txSpeed, rxTPS, txTPS), m) := plugin_GetState t (plg_meter p) in
  (record 1001 now
     ([("name", PluginManager.Name (PluginManager.config (plg p))); ("pversion", PluginManager.Version (PluginManager.config (plg p)))] ++
      resource_fields (plg_pid p) res err ++
      [("du", itoa (HostFacts.GetDirSize "" (PluginManager.dir (plg p)) (plg_tree p)));
       ("rx_tps", f8 rxTPS); ("tx_tps", f8 txTPS); ("rx_speed", f8 rxSpeed); ("tx_speed", f8 txSpeed)]),
   mkPlugin (plg p) (plg_pid p) (plg_counters p) m (plg_tree p), io).

Fixpoint getPlgStat (now t : Z) (ps : list plugin) (io : C HostFacts.IOState) : list Bridge.Record_ * list plugin * C HostFacts.IOState :=
  match ps with
  | [] => ([], [], io)
  | p :: ps =>
      if PluginManager.IsExited (plg p) then
        let '(rs, ps', io) := getPlgStat now t ps io in (rs, p :: ps', io)
      else
        let '(r, p', io) := plugin_stat now t p io in
        let '(rs, ps', io) := getPlgStat now t ps io in (r :: rs, p' :: ps', io)
  end.

(** [net.InterfaceStat] *)
Record nic := mkNic { nName : string; nAddrs : list string; HardwareAddr : string }.

Definition nic_ip (addr : string) : string := default "" (head (str_split "/" addr)).

Definition net_record (now : Z) (n : nic) : Bridge.Record_ :=
  let ips := nic_ip <$> nAddrs n in
  record 1002 now
    [("eth_name", nName n); ("inet", str_join "," (filter (λ ip, str_contains "." ip = true) ips));
     ("netmask", str_join "," (nAddrs n)); ("inet6", str_join "," (filter (λ ip, str_contains "." ip = false) ips));
     ("ether", HardwareAddr n)].

Definition getNetStat (now : Z) (interfaces : list nic + string) : list Bridge.Record_ :=
  match interfaces with inl l => net_record now <$> l | inr _ => [] end.

(** The records that a tick of [Startup] writes. *)
Definition tick_records (now t pid : Z) (p : HostFacts.counters + string) (a : PluginManager.AgentState) (h : host)
    (ps : list plugin) (nics : list nic + string) (b : beat) : list Bridge.Record_ * list plugin * beat :=
  let '(r, b) := getAgentStat now pid p a h b in
  let '(rs, ps, io) := getPlgStat now t ps (ioCache b) in
  (r :: rs ++ getNetStat now nics, ps, mkBeat (conn_meter b) (transfer_meter b) io).

End stats.

(** Writing them: every [WriteRecord] with its choice of the pools. *)
Fixpoint write_all `{Ranger} (rs : list (nat * Bridge.Record_)) (s : Buffer.state) : outcome Buffer.state :=
  match rs with
  | [] => Ret s
  | (choice, r) :: rs => let! s := Buffer.WriteRecord choice r s in write_all rs s
  end.

(** ** What the agent center learns *)

Section learning.
Context {Fl : Type} `{Ranger} (parse_float : string → option Fl).
Local Abbreviation Connection := (Pool.Connection (Fl:=Fl)).
Local Abbreviation detail := (gmap string (Pool.dval Fl)).

Lemma foldl_insert_with {V} (f : string → string → V) (l : list (string * string)) (d : gmap string V) k :
  NoDup l.*1 →
  foldl (λ d '(k, v), <[k := f k v]> d) d l !! k = match list_to_map (M := gmap string string) l !! k with Some v => Some (f k v) | None => d !! k end.
Proof.
  revert d. induction l as [|[k' v] l IH]; intros d Hnd; [done|]. rewrite fmap_cons in Hnd. apply NoDup_cons in Hnd as [Hni Hnd].
  cbn [foldl list_to_map foldr fst snd uncurry]. rewrite IH by done. fold (list_to_map (M := gmap string string) l). destruct (decide (k' = k)) as [->|Hne].
  - rewrite lookup_insert_eq. cbn [fst] in Hni. apply not_elem_of_list_to_map_1 in Hni. by rewrite Hni, lookup_insert_eq.
  - by rewrite !lookup_insert_ne by done.
Qed.

Lemma range_list_to_map tag (m : gmap string string) : list_to_map (range_kv tag m) = m.
Proof.
  rewrite <-(list_to_map_to_list m) at 2. apply list_to_map_proper; [apply range_kv_NoDup_fst|apply range_kv_perm].
Qed.

Lemma fields_detail_lookup tag keep hb k :
  AgentCenter.fields_detail parse_float tag keep hb !! k = AgentCenter.field_value parse_float keep k <$> hb !! k.
Proof.
  unfold AgentCenter.fields_detail. rewrite (foldl_insert_with (AgentCenter.field_value parse_float keep)) by apply range_kv_NoDup_fst.
  rewrite range_list_to_map. by destruct (hb !! k).
Qed.

(** The loop of [parseEthInfo]. *)
Lemma eth_loop (data : gmap string string) :
  foldl (λ '(n, d) '(k, v), (if decide (k = "eth_name") then v else n, <[k := Pool.VString v]> d)) ("", ∅) (range_kv "parseEthInfo" data) =
  (default "" (data !! "eth_name"), (Pool.VString : string → Pool.dval Fl) <$> data).
Proof.
  assert (∀ (l : list (string * string)) n (d : detail), NoDup l.*1 →
    foldl (λ '(n, d) '(k, v), (if decide (k = "eth_name") then v else n, <[k := Pool.VString v]> d)) (n, d) l =
    (default n (list_to_map (M := gmap string string) l !! "eth_name"), foldl (λ d '(k, v), <[k := Pool.VString v]> d) d l)) as Hl.
  { induction l as [|[k v] l IH]; intros n d Hnd; [done|]. rewrite fmap_cons in Hnd. apply NoDup_cons in Hnd as [Hni Hnd].
    cbn [foldl list_to_map foldr fst snd uncurry]. rewrite IH by done. fold (list_to_map (M := gmap string string) l). f_equal.
    case_decide as Hk; [subst k|by rewrite lookup_insert_ne]. cbn [fst] in Hni. apply not_elem_of_list_to_map_1 in Hni. by rewrite Hni, lookup_insert_eq. }
  rewrite Hl by apply range_kv_NoDup_fst. rewrite range_list_to_map. f_equal. apply map_eq. intros k.
  rewrite (foldl_insert_with (λ _ v, Pool.VString v)) by apply range_kv_NoDup_fst. rewrite range_list_to_map, lookup_fmap. by destruct (data !! k).
Qed.

(** The effect of a record of a heartbeat on the connection. *)
Definition learn (req : AgentCenter.RawData) (now : Z) (c : Connection) (x : Z * gmap string string) : Connection :=
  if decide (x.1 = 1000)%Z then Pool.SetAgentDetail (AgentCenter.heartbeat_detail parse_float x.2 req c now) c
  else if decide (x.1 = 1001)%Z then
    match x.2 !! "name" with
    | Some n => Pool.SetPluginDetail n (<["last_heartbeat_time" := Pool.VInt now]> (AgentCenter.fields_detail parse_float "parsePluginHeartBeat" ["pversion"] x.2)) c
    | None => c
    end
  else Pool.SetEthInfoDetail (default "" (x.2 !! "eth_name")) (Pool.VString <$> x.2) c.

Definition beat_types : list Z := [1000; 1001; 1002]%Z.

Definition decodes (r : AgentCenter.Record_) (x : Z * gmap string string) : Prop :=
  AgentCenter.DataType r = x.1 ∧ AgentCenter.parseRecord r = inl x.2 ∧ x.1 ∈ beat_types.

Lemma handle_learn req now extra r x c g kafka :
  decodes r x → ∃ g' kafka', AgentCenter.handle_record parse_float req now extra r c g kafka = Ret (learn req now c x, g', kafka').
Proof.
  intros (Ht & Hp & Hx). unfold AgentCenter.handle_record, learn. rewrite Ht.
  destruct (decide (x.1 = 1000)%Z).
  { unfold AgentCenter.parseAgentHeartBeat, Pool.GetAgentDetail. rewrite Hp. destruct (Pool.agentDetail c); case_decide; eexists _, _; done. }
  destruct (decide (x.1 = 1001)%Z).
  { unfold AgentCenter.parsePluginHeartBeat. rewrite Hp. destruct (x.2 !! "name"); eexists _, _; done. }
  assert (x.1 = 1002)%Z as Hx3.
  { unfold beat_types in Hx. rewrite !elem_of_cons in Hx. destruct Hx as [?|[?|[?|?%elem_of_nil]]]; done. }
  rewrite Hx3, decide_True by done. unfold AgentCenter.parseEthInfo. rewrite Hp, eth_loop. eexists _, _. done.
Qed.

Lemma handle_learn_all req now extra rs xs c g kafka :
  Forall2 decodes rs xs →
  ∃ g' kafka', AgentCenter.handle_records parse_float req now extra rs c g kafka = Ret (foldl (learn req now) c xs, g', kafka').
Proof.
  intros Hf. revert c g kafka. induction Hf as [|r x rs xs Hr _ IH]; intros c g kafka; [by eexists _, _|].
  cbn [AgentCenter.handle_records]. destruct (handle_learn req now extra r x c g kafka Hr) as (g' & k' & ->). cbn [obind foldl]. apply IH.
Qed.

Lemma learn_owner req now xs c : AgentCenter.same_owner c (foldl (learn req now) c xs).
Proof.
  revert c. induction xs as [|x xs IH]; intros c; [done|]. cbn [foldl]. eapply AgentCenter.same_owner_trans; [|apply IH].
  unfold learn. repeat case_decide; [done| |done]. by destruct (x.2 !! "name").
Qed.

(** Only records about the agent change what is known of it. *)
Lemma learn_other req now xs c :
  Forall (λ x, x.1 ≠ 1000%Z) xs → Pool.agentDetail (foldl (learn req now) c xs) = Pool.agentDetail c.
Proof.
  revert c. induction xs as [|x xs IH]; intros c Hx; [done|]. apply Forall_cons in Hx as [Hx Hxs]. cbn [foldl]. rewrite IH by done.
  unfold learn. rewrite decide_False by done. case_decide; [|done]. by destruct (x.2 !! "name").
Qed.

Lemma learn_plugin req now xs c n f :
  (1001%Z, f) ∈ xs → f !! "name" = Some n → (∀ f', (1001%Z, f') ∈ xs → f' !! "name" = Some n → f' = f) →
  Pool.pluginDetail (foldl (learn req now) c xs) !! n =
  Some (<["last_heartbeat_time" := Pool.VInt now]> (AgentCenter.fields_detail parse_float "parsePluginHeartBeat" ["pversion"] f)).
Proof.
  intros Hin Hn. induction xs as [|x xs IH] using rev_ind; intros Hu; [by apply elem_of_nil in Hin|]. rewrite foldl_app. cbn [foldl].
  destruct x as [t f']. destruct (decide (t = 1001%Z ∧ f' !! "name" = Some n)) as [[-> Hf']|Hne].
  - assert (f' = f) as -> by (apply Hu; [apply elem_of_app; right; left|done]). unfold learn. cbn [fst snd].
    rewrite decide_False, decide_True, Hn by done. apply lookup_insert_eq.
  - assert ((1001%Z, f) ∈ xs) as Hin'.
    { apply elem_of_app in Hin as [?|Hin%list_elem_of_singleton]; [done|]. injection Hin as <- <-. tauto. }
    rewrite <-IH by first [done|intros f'' ? ?; apply Hu; [apply elem_of_app; by left|done]].
    unfold learn at 1. cbn [fst snd]. case_decide; [done|]. case_decide; [|done]. destruct (f' !! "name") as [n'|] eqn:E; [|done].
    apply lookup_insert_ne. intros ->. tauto.
Qed.

Lemma learn_eth req now xs c n f :
  (1002%Z, f) ∈ xs → f !! "eth_name" = Some n → Forall (λ x, x.1 ∈ beat_types) xs →
  (∀ f', (1002%Z, f') ∈ xs → default "" (f' !! "eth_name") = n → f' = f) →
  Pool.ethInfoDetail (foldl (learn req now) c xs) !! n = Some (Pool.VString <$> f).
Proof.
  intros Hin Hn. induction xs as [|x xs IH] using rev_ind; intros Ht Hu; [by apply elem_of_nil in Hin|]. rewrite foldl_app. cbn [foldl].
  apply Forall_app in Ht as [Ht [Hx _]%Forall_cons].
  destruct x as [t f']. destruct (decide (t = 1002%Z ∧ default "" (f' !! "eth_name") = n)) as [[-> Hf']|Hne].
  - assert (f' = f) as -> by (apply Hu; [apply elem_of_app; right; left|done]). unfold learn. cbn [fst snd].
    rewrite !decide_False by done. rewrite Hf'. apply lookup_insert_eq.
  - assert ((1002%Z, f) ∈ xs) as Hin'.
    { apply elem_of_app in Hin as [?|Hin%list_elem_of_singleton]; [done|]. injection Hin as <- <-. rewrite Hn in Hne. cbn in Hne. tauto. }
    rewrite <-IH by first [done|intros f'' ? ?; apply Hu; [apply elem_of_app; by left|done]].
    unfold learn at 1. cbn [fst snd]. case_decide; [done|]. case_decide; [by destruct (f' !! "name")|].
    assert (t = 1002%Z) as -> by (cbn [fst] in Hx; unfold beat_types in Hx; rewrite !elem_of_cons in Hx; destruct Hx as [?|[?|[?|?%elem_of_nil]]]; done).
    apply lookup_insert_ne. tauto.
Qed.

End learning.

(** ** From the agent to the pool *)

Definition fields_of (r : Bridge.Record_) : gmap string string :=
  match Bridge.Data r with Some p => Bridge.Fields p | None => ∅ end.

(** A record that the buffer takes: with a payload that is not too long. *)
Definition small `{Ranger} (r : Bridge.Record_) : Prop := ∃ p, Bridge.Data r = Some p ∧ (Bridge.Payload_Size p < 2 ^ 63)%Z.

#[export] Instance small_dec `{Ranger} r : Decision (small r).
Proof.
  refine (match Bridge.Data r as d return Bridge.Data r = d → Decision (small r) with
          | Some p => λ E, cast_if (decide (Bridge.Payload_Size p < 2 ^ 63)%Z)
          | None => λ E, right _
          end eq_refl).
  - by exists p.
  - intros (p' & E' & ?). by simplify_eq.
  - intros (p' & E' & ?). by simplify_eq.
Defined.

Definition carries (r : Bridge.Record_) (v : Z * Z * bytes) : Prop :=
  v.1 = (Bridge.DataType r, Bridge.Timestamp r) ∧ ∃ p, Bridge.Data r = Some p ∧ Bridge.Payload_Unmarshal v.2 = inl p.

Section way.
Context `{Ranger}.

Lemma write_all_queue rs s held q :
  Forall (λ cr, small cr.2) rs → Buffer.inv held s → Buffer.represents s q → (length q + length rs ≤ Buffer.buf_len)%nat →
  ∃ s' vals, write_all rs s = Ret s' ∧ Buffer.inv held s' ∧ Buffer.represents s' (q ++ vals) ∧ Forall2 (λ cr v, carries cr.2 v) rs vals.
Proof.
  revert s q. induction rs as [|[choice r] rs IH]; intros s q Hs Hi Hq Hl; [exists s, []; by rewrite app_nil_r|].
  apply Forall_cons in Hs as [(p & Hp & Hsz) Hs]. cbn [length] in Hl. cbn [write_all snd] in *.
  destruct (Buffer.WriteRecord_effect choice r p s held q Hi Hq Hp Hsz) as (s1 & b & -> & Hi1 & Hb & Hq1). cbn [obind].
  cbn [Buffer.astep] in Hq1. rewrite decide_True in Hq1 by lia.
  destruct (IH s1 _ Hs Hi1 Hq1) as (s' & vals & Hw & Hi' & Hq' & Hf); [rewrite length_app; cbn; lia|].
  exists s', ((Bridge.DataType r, Bridge.Timestamp r, b) :: vals). split_and!; [done|done|by rewrite <-app_assoc in Hq'|].
  constructor; [split; [done|]; by exists p|done].
Qed.

(** The packet of a tick of the sender. *)
Definition host_packet (vals : list (Z * Z * bytes)) (agentID hostname version product : string) (a : HostFacts.addresses)
    : AgentCenter.RawData :=
  AgentCenter.mkRawData ((λ v, AgentCenter.mkRecord v.1.1 v.1.2 v.2) <$> vals) agentID (Some (HostFacts.PrivateIPv4 a))
    (Some (HostFacts.PublicIPv4 a)) (Some (HostFacts.PrivateIPv6 a)) (Some (HostFacts.PublicIPv6 a)) hostname version product.

Definition beat_of (r : Bridge.Record_) : Z * gmap string string := (Bridge.DataType r, fields_of r).

Lemma carried_decodes (rs : list Bridge.Record_) vals :
  Forall2 carries rs vals → Forall (λ r, Bridge.DataType r ∈ beat_types) rs →
  Forall2 decodes ((λ v, AgentCenter.mkRecord v.1.1 v.1.2 v.2) <$> vals) (beat_of <$> rs).
Proof.
  induction 1 as [|r v rs vals (Hv & p & Hp & Hu) _ IH]; intros Ht; [constructor|]. apply Forall_cons in Ht as [Hr Ht].
  rewrite !fmap_cons. constructor; [|by apply IH]. split_and!; [cbn; by rewrite Hv| |done].
  unfold AgentCenter.parseRecord. cbn. unfold fields_of. by rewrite Hu, Hp.
Qed.

End way.

Section records.
Context `{HostFacts.Lru C} (json_strings : list string → string).

(** The records about the plugins that run. *)
Lemma getPlgStat_records now t (ps : list plugin) (io : C HostFacts.IOState) :
  Forall2 (λ p r, ∃ io', r = (plugin_stat now t p io').1.1) (filter (λ p, PluginManager.IsExited (plg p) = false) ps) (getPlgStat now t ps io).1.1.
Proof.
  revert io. induction ps as [|p ps IH]; intros io; [constructor|]. cbn [getPlgStat]. rewrite filter_cons. destruct (PluginManager.IsExited (plg p)).
  - rewrite decide_False by done. specialize (IH io). destruct (getPlgStat now t ps io) as [[rs ps'] io']. exact IH.
  - rewrite decide_True by done. destruct (plugin_stat now t p io) as [[r p'] io1] eqn:E. specialize (IH io1).
    destruct (getPlgStat now t ps io1) as [[rs ps'] io']. constructor; [exists io; by rewrite E|exact IH].
Qed.

Lemma plugin_stat_fields now t p (io : C HostFacts.IOState) :
  let r := (plugin_stat now t p io).1.1 in
  Bridge.DataType r = 1001%Z ∧
  fields_of r !! "name" = Some (PluginManager.Name (PluginManager.config (plg p))) ∧
  fields_of r !! "pversion" = Some (PluginManager.Version (PluginManager.config (plg p))).
Proof.
  unfold plugin_stat. destruct (HostFacts.GetProcResouce _ _ _ _) as [[io' res] err].
  destruct (plugin_GetState t (plg_meter p)) as [[[[rs ts] rt] tt] m]. cbn [fst record Bridge.DataType fields_of Bridge.Data payload Bridge.Fields].
  split; [done|]. unfold resource_fields. destruct err; cbn [app foldl]; (split; repeat (rewrite lookup_insert_ne by done); apply lookup_insert_eq).
Qed.

Lemma net_record_fields now n :
  Bridge.DataType (net_record now n) = 1002%Z ∧
  fields_of (net_record now n) !! "eth_name" = Some (nName n) ∧
  fields_of (net_record now n) !! "ether" = Some (HardwareAddr n) ∧
  fields_of (net_record now n) !! "netmask" = Some (str_join "," (nAddrs n)).
Proof.
  unfold net_record. cbn [record Bridge.DataType fields_of Bridge.Data payload Bridge.Fields foldl]. split; [done|].
  split_and!; repeat (rewrite lookup_insert_ne by done); apply lookup_insert_eq.
Qed.

End records.

Lemma NoDup_fmap_same {A B} (f : A → B) l x y : NoDup (f <$> l) → x ∈ l → y ∈ l → f x = f y → x = y.
Proof.
  intros Hn [i Hi]%list_elem_of_lookup [j Hj]%list_elem_of_lookup E.
  assert (i = j) as ->; [|congruence]. eapply NoDup_lookup; [exact Hn|..]; rewrite list_lookup_fmap; [rewrite Hi|rewrite Hj]; cbn; by rewrite ?E.
Qed.

(** A field of a record whose keys are distinct. *)
Lemma payload_field (l : fields) k v : NoDup l.*1 → (k, v) ∈ l → Bridge.Fields (payload l) !! k = Some v.
Proof.
  intros Hnd Hin. unfold payload. cbn [Bridge.Fields]. rewrite (foldl_insert_with (λ _ v, v)) by done.
  apply elem_of_list_to_map in Hin; [|done]. by rewrite Hin.
Qed.

(** The keys of the optional fields. *)
Definition resource_keys : list string := ["cpu"; "rss"; "read_speed"; "write_speed"; "pid"; "nfd"; "start_time"].
Definition linux_keys : list string :=
  ["load_1"; "load_5"; "load_15"; "running_procs"; "total_procs"; "host_serial"; "host_id"; "host_model"; "host_vendor"; "dns"; "gateway";
   "tcp_count"; "exter_net_out"; "exter_net_in"].

Definition agent_keys : list string :=
  ["kernel_version"; "arch"; "platform"; "platform_family"; "platform_version"; "state"; "state_detail"; "idc"; "region"; "net_mode";
   "rx_speed"; "tx_speed"] ++ resource_keys ++
  ["tx_tps"; "rx_tps"; "disk_count"; "disk_usage"; "io_rate"; "du"; "ngr"; "nproc"; "total_mem"] ++ linux_keys ++
  ["cpu_name"; "cpu_count"; "boot_time"] ++ ["cpu_usage"] ++ ["mem_usage"].

Lemma resource_fields_keys pid r err : (resource_fields pid r err).*1 `sublist_of` resource_keys.
Proof. destruct err; [apply sublist_nil_l|done]. Qed.

Lemma linux_fields_keys h : (if linux h then linux_fields h else []).*1 `sublist_of` linux_keys.
Proof.
  destruct (linux h); [|apply sublist_nil_l]. unfold linux_fields. destruct (HostFacts.GetHostInfo (ReadFile h)) as [[[s i] m] v]. rewrite !fmap_app.
  change linux_keys with (["load_1"; "load_5"; "load_15"; "running_procs"; "total_procs"] ++
    ["host_serial"; "host_id"; "host_model"; "host_vendor"; "dns"; "gateway"; "tcp_count"] ++ ["exter_net_out"; "exter_net_in"]).
  apply sublist_app; [|apply sublist_app; [done|]].
  - unfold load_fields. destruct (ReadFile h "/proc/loadavg") as [t|]; [|apply sublist_nil_l].
    destruct (str_fields t) as [|? [|? [|? [|p ?]]]]; try apply sublist_nil_l. destruct (str_split "/" p) as [|? [|]]; [..|done];
      cbn; do 3 apply sublist_skip; apply sublist_nil_l.
  - destruct (HostFacts.UploadDownloadFlow _ _ _) as [[]|]; [done|apply sublist_nil_l].
Qed.

Section agent_facts.
Context `{HostFacts.Lru C} (json_strings : list string → string).

(** Facts about the host that the record carries. *)
Definition host_facts (h : host) : fields :=
  [("arch", Arch h); ("platform", Platform h); ("platform_version", PlatformVersion h);
   ("disk_count", itoa (match disk_usage h with inl tu => tu.1 | inr _ => 0%Z end));
   ("total_mem", itoa (match mem_total h with inl n => n | inr _ => 0%Z end));
   ("cpu_name", CPUName h); ("cpu_count", itoa (CPUCounts h)); ("boot_time", itoa (BootTime h))].

Lemma agent_field now pid p a h (b : beat) k v :
  (k, v) ∈ host_facts h → fields_of (getAgentStat json_strings now pid p a h b).1 !! k = Some v.
Proof.
  intros Hin. unfold getAgentStat, host_facts in *. destruct (GetStats now (conn_meter b)) as [[rx tx] cm]. destruct (HostFacts.GetProcResouce _ _ _ _) as [[io res] err].
  destruct (GetState now (transfer_meter b)) as [[tt rt] tm].
  assert (match disk_usage h with inl tu => tu | inr _ => (0%Z, GoFloat.F64 0 0) end = (match disk_usage h with inl tu => tu.1 | inr _ => 0%Z end, (match disk_usage h with inl tu => tu | inr _ => (0%Z, GoFloat.F64 0 0) end).2)) as ->
    by (destruct (disk_usage h) as [[]|]; done).
  cbn [fst record fields_of Bridge.Data]. apply payload_field; [|rewrite !elem_of_app, !elem_of_cons in *; tauto].
  rewrite !fmap_app. eapply (sublist_NoDup _ agent_keys); [apply (bool_decide_unpack _); by vm_compute|]. unfold agent_keys.
  apply sublist_app; [done|]. apply sublist_app; [apply resource_fields_keys|]. apply sublist_app; [done|].
  apply sublist_app; [apply linux_fields_keys|]. apply sublist_app; [done|]. apply sublist_app.
  - destruct (cpu_percent h) as [[|]|]; [apply sublist_nil_l|done|apply sublist_nil_l].
  - destruct (mem_percent h); [done|apply sublist_nil_l].
Qed.

End agent_facts.

(** What the agent center writes over the fields of the agent. *)
Definition server_keys : list string :=
  ["agent_id"; "tenant_id"; "host_id"; "agent_addr"; "create_at"; "intranet_ipv4"; "extranet_ipv4"; "intranet_ipv6"; "extranet_ipv6";
   "version"; "hostname"; "product"; "last_heartbeat_time"].

Lemma host_facts_keys h k v : (k, v) ∈ host_facts h → k ∉ server_keys.
Proof.
  intros Hin. assert (Forall (λ k, k ∉ server_keys) (host_facts h).*1) as Hf.
  { change ((host_facts h).*1) with ["arch"; "platform"; "platform_version"; "disk_count"; "total_mem"; "cpu_name"; "cpu_count"; "boot_time"].
    apply (bool_decide_unpack _). by vm_compute. }
  rewrite Forall_forall in Hf. apply Hf, list_elem_of_fmap. by exists (k, v).
Qed.

Section known.
Context `{Ranger} `{HostFacts.Lru C} {Fl : Type} (parse_float : string → option Fl) (json_strings : list string → string).

Lemma heartbeat_detail_lookup hb req (c : Pool.Connection (Fl:=Fl)) now k :
  k ∉ server_keys → AgentCenter.heartbeat_detail parse_float hb req c now !! k = AgentCenter.field_value parse_float AgentCenter.agent_keep k <$> hb !! k.
Proof.
  intros Hk. unfold server_keys in Hk. rewrite !not_elem_of_cons in Hk. destruct_and!. unfold AgentCenter.heartbeat_detail.
  rewrite !lookup_insert_ne by congruence. apply fields_detail_lookup.
Qed.

Lemma getAgentStat_type now pid p a h (b : beat) : Bridge.DataType (getAgentStat json_strings now pid p a h b).1 = 1000%Z.
Proof.
  unfold getAgentStat. destruct (GetStats now (conn_meter b)) as [[rx tx] cm]. destruct (HostFacts.GetProcResouce _ _ _ _) as [[io res] err].
  destruct (GetState now (transfer_meter b)) as [[tt rt] tm]. destruct (match disk_usage h with inl _ => _ | inr _ => _ end). done.
Qed.

(** The records of a tick, one after the other. *)
Lemma tick_records_eq now t pid p a h ps nics (b : beat) :
  ∃ rp, (tick_records json_strings now t pid p a h ps (inl nics) b).1.1 =
      (getAgentStat json_strings now pid p a h b).1 :: rp ++ (net_record now <$> nics) ∧
    Forall2 (λ p r, ∃ io : C HostFacts.IOState, r = (plugin_stat now t p io).1.1) (filter (λ p, PluginManager.IsExited (plg p) = false) ps) rp.
Proof.
  unfold tick_records. destruct (getAgentStat json_strings now pid p a h b) as [r b1]. pose proof (getPlgStat_records now t ps (ioCache b1)) as Hp.
  destruct (getPlgStat now t ps (ioCache b1)) as [[rp ps'] io]. exists rp. split; [done|exact Hp].
Qed.

Lemma plugins_named now t (run : list plugin) rp :
  Forall2 (λ p r, ∃ io : C HostFacts.IOState, r = (plugin_stat now t p io).1.1) run rp →
  Forall (λ r, Bridge.DataType r = 1001%Z) rp ∧
  (λ r, fields_of r !! "name") <$> rp = (λ p, Some (PluginManager.Name (PluginManager.config (plg p)))) <$> run ∧
  ∀ p, p ∈ run → ∃ r, r ∈ rp ∧ fields_of r !! "name" = Some (PluginManager.Name (PluginManager.config (plg p))) ∧
    fields_of r !! "pversion" = Some (PluginManager.Version (PluginManager.config (plg p))).
Proof.
  induction 1 as [|p r run rp (io & ->) _ (IHt & IHn & IHp)]; [split_and!; [constructor|done|by intros ? ?%elem_of_nil]|].
  destruct (plugin_stat_fields now t p io) as (Ht & Hn & Hv). split_and!.
  - by constructor.
  - rewrite !fmap_cons. by rewrite Hn, IHn.
  - intros q [->|Hq]%elem_of_cons; [exists (plugin_stat now t p io).1.1; split_and!; [left|done..]|].
    destruct (IHp q Hq) as (r & ? & ?). exists r. split; [by right|done].
Qed.

(** The way of the records: through the buffer and a tick of the sender to the handler of
    the agent center. *)
Lemma records_learnt (rs : list Bridge.Record_) choices send agentID hostname version product addr svr (c : Pool.Connection (Fl:=Fl)) g :
  Forall small rs → (length rs ≤ Buffer.buf_len)%nat → length choices = length rs → rs ≠ [] →
  Forall (λ r, Bridge.DataType r ∈ beat_types) rs →
  ∃ s vals s' cnt g' msgs,
    write_all (zip choices rs) Buffer.initial = Ret s ∧ Transfer.handleSend_tick send 0 s = Ret (Some vals, s', cnt) ∧
    AgentCenter.handleRawData parse_float (host_packet vals agentID hostname version product addr) svr c g [] =
      Ret (foldl (learn parse_float (host_packet vals agentID hostname version product addr) svr) c (beat_of <$> rs), g', msgs).
Proof.
  intros Hs Hl Hch Hne Ht. assert ((zip choices rs).*2 = rs) as Hz by (apply snd_zip; lia).
  destruct (write_all_queue (zip choices rs) Buffer.initial [] []) as (s & vals & Hw & Hi & Hq & Hf).
  { change (Forall (small ∘ snd) (zip choices rs)). apply Forall_fmap. by rewrite Hz. }
  { apply Buffer.inv_initial. }
  { apply Buffer.represents_initial. }
  { rewrite length_zip_with. cbn [length]. lia. }
  cbn [app] in Hq. assert (Forall2 carries rs vals) as Hc by (rewrite <-Hz; by apply Forall2_fmap_l).
  destruct (Transfer.handleSend_tick_spec send 0 s [] vals Hi Hq) as (s' & _ & _ & Htick).
  rewrite (decide_False (P := vals = [])) in Htick by (intros ->; by apply Forall2_nil_inv_r in Hc).
  destruct (handle_learn_all parse_float (host_packet vals agentID hostname version product addr) svr (Pool.GetExtraInfoByID agentID g)
    ((λ v, AgentCenter.mkRecord v.1.1 v.1.2 v.2) <$> vals) (beat_of <$> rs) c g [] (carried_decodes rs vals Hc Ht)) as (g' & msgs & Hh).
  eexists s, vals, s', _, g', msgs. split_and!; [exact Hw|exact Htick|exact Hh].
Qed.

Lemma heartbeat_learnt now t pid p a h ps nics (b : beat) choices send agentID hostname version product addr svr
    (c : Pool.Connection (Fl:=Fl)) g :
  let rs := (tick_records json_strings now t pid p a h ps (inl nics) b).1.1 in
  let agent := (getAgentStat json_strings now pid p a h b).1 in
  Forall small rs → (length rs ≤ Buffer.buf_len)%nat → length choices = length rs →
  NoDup ((λ p, PluginManager.Name (PluginManager.config (plg p))) <$> filter (λ p, PluginManager.IsExited (plg p) = false) ps) →
  NoDup (nName <$> nics) →
  ∃ s vals s' cnt c' g' msgs,
    write_all (zip choices rs) Buffer.initial = Ret s ∧ Transfer.handleSend_tick send 0 s = Ret (Some vals, s', cnt) ∧
    AgentCenter.handleRawData parse_float (host_packet vals agentID hostname version product addr) svr c g [] = Ret (c', g', msgs) ∧ AgentCenter.same_owner c c' ∧
    (∃ d, Pool.agentDetail c' = Some d ∧ ∀ k v, fields_of agent !! k = Some v → k ∉ server_keys →
       d !! k = Some (AgentCenter.field_value parse_float AgentCenter.agent_keep k v)) ∧
    (∀ q, q ∈ ps → PluginManager.IsExited (plg q) = false →
       ∃ d, Pool.pluginDetail c' !! PluginManager.Name (PluginManager.config (plg q)) = Some d ∧
         d !! "pversion" = Some (Pool.VString (PluginManager.Version (PluginManager.config (plg q))))) ∧
    (∀ n, n ∈ nics → ∃ d, Pool.ethInfoDetail c' !! nName n = Some d ∧
       d !! "ether" = Some (Pool.VString (HardwareAddr n)) ∧ d !! "netmask" = Some (Pool.VString (str_join "," (nAddrs n)))).
Proof.
  intros rs agent Hs Hl Hch Hnd Hnn. destruct (tick_records_eq now t pid p a h ps nics b) as (rp & Er & Hp). fold rs agent in Er.
  destruct (plugins_named now t _ rp Hp) as (Htp & Hnp & Hpp).
  assert (Bridge.DataType agent = 1000%Z) as Hta by apply getAgentStat_type.
  assert (∀ r, r ∈ net_record now <$> nics → Bridge.DataType r = 1002%Z) as Htn.
  { intros r (n & -> & _)%list_elem_of_fmap. apply net_record_fields. }
  rewrite Forall_forall in Htp.
  assert (Forall (λ r, Bridge.DataType r ∈ beat_types) rs) as Ht.
  { rewrite Er. constructor; [rewrite Hta; left|]. apply Forall_forall. intros r [Hr|Hr]%elem_of_app;
      [rewrite (Htp r Hr); right; left|rewrite (Htn r Hr); do 2 right; left]. }
  destruct (records_learnt rs choices send agentID hostname version product addr svr c g Hs Hl Hch ltac:(by rewrite Er) Ht)
    as (s & vals & s' & cnt & g' & msgs & Hw & Htk & Hh).
  eexists s, vals, s', cnt, _, g', msgs. split_and!; [exact Hw|exact Htk|exact Hh|apply learn_owner|..]; clear Hw Htk Hh Hs Hl Hch; set (req := host_packet _ _ _ _ _ _).
  - rewrite Er, fmap_cons. cbn [foldl]. rewrite learn_other.
    2: { apply Forall_forall. intros x (r & -> & Hr)%list_elem_of_fmap. cbn [beat_of fst].
         apply elem_of_app in Hr as [Hr|Hr]; [by rewrite (Htp r Hr)|by rewrite (Htn r Hr)]. }
    unfold learn. cbn [beat_of fst snd]. rewrite decide_True by done. eexists. split; [done|]. intros k v Hk Hsk.
    rewrite heartbeat_detail_lookup by done. by rewrite Hk.
  - intros q Hq Hx. destruct (Hpp q) as (r & Hr & Hn & Hv); [by apply list_elem_of_filter|].
    eexists. split; [apply (learn_plugin parse_float req svr _ c _ (fields_of r)); [|exact Hn|]|].
    + apply list_elem_of_fmap. exists r. split; [unfold beat_of; by rewrite (Htp r Hr)|]. rewrite Er. right. apply elem_of_app. by left.
    + intros f' (r' & E & Hr')%list_elem_of_fmap Hn'. injection E as E ->. f_equal.
      rewrite Er in Hr'. apply elem_of_cons in Hr' as [->|[Hr'|Hr']%elem_of_app]; [congruence| |rewrite (Htn r' Hr') in E; done].
      apply (NoDup_fmap_same (λ r, fields_of r !! "name") rp); [|done|done|by rewrite Hn', Hn].
      rewrite Hnp. rewrite (list_fmap_compose (λ p, PluginManager.Name (PluginManager.config (plg p))) Some). apply NoDup_fmap_2; [apply _|exact Hnd].
    + rewrite lookup_insert_ne by done. rewrite fields_detail_lookup, Hv. done.
  - intros n Hn. destruct (net_record_fields now n) as (_ & Hen & Hm & Hk).
    eexists. split; [apply (learn_eth parse_float req svr _ c _ (fields_of (net_record now n))); [|exact Hen| |]|].
    + apply list_elem_of_fmap. exists (net_record now n). split; [done|]. rewrite Er. right. apply elem_of_app. right. by apply list_elem_of_fmap_2.
    + apply Forall_fmap. exact Ht.
    + intros f' (r' & E & Hr')%list_elem_of_fmap Hn'. injection E as E ->.
      rewrite Er in Hr'. apply elem_of_cons in Hr' as [->|[Hr'|Hr']%elem_of_app]; [congruence|rewrite (Htp r' Hr') in E; done|].
      apply list_elem_of_fmap in Hr' as (m & -> & Hm'). destruct (net_record_fields now m) as (_ & Hem & _). rewrite Hem in Hn'. cbn in Hn'.
      by rewrite (NoDup_fmap_same nName nics m n Hnn Hm' Hn Hn').
    + rewrite !lookup_fmap, Hm, Hk. done.
Qed.

(** What the agent center knows after a heartbeat: every field of the agent's record, as a
    number where it is one, except those that the server sets itself; the version of every
    plugin that runs; hardware address and networks of every interface. *)
Theorem heartbeat_known now t pid p a h ps nics (b : beat) choices send agentID hostname version product addr svr
    (c : Pool.Connection (Fl:=Fl)) g :
  let rs := (tick_records json_strings now t pid p a h ps (inl nics) b).1.1 in
  let agent := (getAgentStat json_strings now pid p a h b).1 in
  Forall small rs → (length rs ≤ Buffer.buf_len)%nat → length choices = length rs →
  NoDup ((λ p, PluginManager.Name (PluginManager.config (plg p))) <$> filter (λ p, PluginManager.IsExited (plg p) = false) ps) →
  NoDup (nName <$> nics) →
  ∃ s vals s' cnt c' g' msgs,
    write_all (zip choices rs) Buffer.initial = Ret s ∧ Transfer.handleSend_tick send 0 s = Ret (Some vals, s', cnt) ∧
    AgentCenter.handleRawData parse_float (host_packet vals agentID hostname version product addr) svr c g [] = Ret (c', g', msgs) ∧ AgentCenter.same_owner c c' ∧
    (∃ d, Pool.agentDetail c' = Some d ∧ ∀ k v, fields_of agent !! k = Some v → k ∉ server_keys →
       d !! k = Some (AgentCenter.field_value parse_float AgentCenter.agent_keep k v)) ∧
    (∀ q, q ∈ ps → PluginManager.IsExited (plg q) = false →
       ∃ d, Pool.pluginDetail c' !! PluginManager.Name (PluginManager.config (plg q)) = Some d ∧
         d !! "pversion" = Some (Pool.VString (PluginManager.Version (PluginManager.config (plg q))))) ∧
    (∀ n, n ∈ nics → ∃ d, Pool.ethInfoDetail c' !! nName n = Some d ∧
       d !! "ether" = Some (Pool.VString (HardwareAddr n)) ∧ d !! "netmask" = Some (Pool.VString (str_join "," (nAddrs n)))).
Proof. apply heartbeat_learnt. Qed.

End known.

(** The fields for sent and received bytes are swapped: [exter_net_out] is what the device
    received. *)
Theorem net_flow_swapped h down up down2 up2 :
  HostFacts.TotalFlowByDevice "eth0" (ReadFile h "/proc/net/dev") = inl (down, up) →
  HostFacts.TotalFlowByDevice "eth0" (net_later h) = inl (down2, up2) →
  ("exter_net_out", itoa (int64 (uint64 (down2 - down)))) ∈ linux_fields h ∧
  ("exter_net_in", itoa (int64 (uint64 (up2 - up)))) ∈ linux_fields h.
Proof.
  intros H1 H2. unfold linux_fields, HostFacts.UploadDownloadFlow. rewrite H1, H2.
  destruct (HostFacts.GetHostInfo (ReadFile h)) as [[[serial id] model] vendor].
  split; apply elem_of_app; right; apply elem_of_app; right; [left|right; left].
Qed.

(** ** A beat *)

#[local] Existing Instance HostFacts.gmap_lru.

Definition w_host : host := mkHost "5.15.0" "x86_64" "ubuntu" "debian" "22.04" "default" "default" "public"
  (inl (1000%Z, GoFloat.of_int 10)) (inl [("/dev/loop0", inl [3%Z]); ("/dev/sda", inl [1%Z])]) "/etc/agent" None 10 4 (inl 8000%Z)
  true (λ f, if decide (f = "/proc/net/dev") then inl (str_join newline HostFacts.w_net) else inr "")
  (inl (str_join newline HostFacts.w_net)) "cpu" 4 1700000000 (inl [GoFloat.of_int 20]) (inl (GoFloat.of_int 30)).

Definition w_plugin : plugin := mkPlugin
  (PluginManager.mkPlugin (PluginManager.mkConfig "driver" "" "1.2" "" "" [] "") false false "/etc/agent/plugin/driver")
  77 (inr "gone") (mkPluginMeter 100 200 1 2 0) None.
Definition w_nics : list nic := [mkNic "eth0" ["10.0.0.5/24"; "fe80::1/64"] "02:42:ac:11:00:02"].
Definition w_beat : beat (C := gmap Z) := mkBeat (mkMeter 5 6 0) (mkMeter 1 2 0) ∅.
Definition w_agent : PluginManager.AgentState := PluginManager.mkAgentState PluginManager.StateTypeRunning [].
Definition w_tick : list Bridge.Record_ :=
  (tick_records (λ _, "[]") 60000000000 60000000001 42 (inl (HostFacts.w_counters 10 20)) w_agent w_host [w_plugin] (inl w_nics) w_beat).1.1.

Lemma heartbeat_known_witness :
  ∃ s vals s' cnt c' g' msgs,
    write_all (zip [0; 0; 0]%nat w_tick) Buffer.initial = Ret s ∧ Transfer.handleSend_tick (λ _, None) 0 s = Ret (Some vals, s', cnt) ∧
    AgentCenter.handleRawData (λ _, None) (host_packet vals "a" "h" "1.0" "agent" (HostFacts.mkAddresses [] [] [] [])) 100 AgentCenter.w_conn
      (Pool.NewGRPCPool AgentCenter.small) [] = Ret (c', g', msgs) ∧
    (∃ d, Pool.agentDetail c' = Some d ∧ d !! "platform" = Some (Pool.VString "ubuntu")) ∧
    (∃ d, Pool.pluginDetail c' !! "driver" = Some d ∧ d !! "pversion" = Some (Pool.VString "1.2")) ∧
    (∃ d, Pool.ethInfoDetail c' !! "eth0" = Some d ∧ d !! "ether" = Some (Pool.VString "02:42:ac:11:00:02")).
Proof.
  destruct (heartbeat_known (λ _, None) (λ _, "[]") 60000000000 60000000001 42 (inl (HostFacts.w_counters 10 20)) w_agent w_host [w_plugin] w_nics
    w_beat [0; 0; 0]%nat (λ _, None) "a" "h" "1.0" "agent" (HostFacts.mkAddresses [] [] [] []) 100 AgentCenter.w_conn (Pool.NewGRPCPool AgentCenter.small))
    as (s & vals & s' & cnt & c' & g' & msgs & H1 & H2 & H3 & _ & (d & Hd & Hk) & Hp & Hn).
  - apply (bool_decide_unpack _). by vm_compute.
  - apply (bool_decide_unpack _). by vm_compute.
  - by vm_compute.
  - apply (bool_decide_unpack _). by vm_compute.
  - apply (bool_decide_unpack _). by vm_compute.
  - exists s, vals, s', cnt, c', g', msgs. split_and!; [exact H1|exact H2|exact H3|..].
    + exists d. split; [exact Hd|]. apply (Hk "platform" "ubuntu"); [by vm_compute|].
      unfold server_keys. rewrite !not_elem_of_cons. split_and!; [done..|apply not_elem_of_nil].
    + exact (Hp w_plugin ltac:(left) eq_refl).
    + destruct (Hn (mkNic "eth0" ["10.0.0.5/24"; "fe80::1/64"] "02:42:ac:11:00:02")) as (e & He & Hm & _); [left|]. exists e. split; [exact He|exact Hm].
Defined.

Lemma net_flow_swapped_witness :
  ("exter_net_out", itoa (int64 (uint64 (1000 - 1000)))) ∈ linux_fields w_host ∧ ("exter_net_in", itoa (int64 (uint64 (2000 - 2000)))) ∈ linux_fields w_host.
Proof. apply (net_flow_swapped w_host 1000 2000 1000 2000); by vm_compute. Defined.

End Heartbeat.
