(* ===== verification/Report.v ===== *)
(** * Reports of the agent center about hosts

    Models [server/agent_center/httptrans/http_handler/report.go], which sends what the pool
    knows of every host to the manager once a minute, the parser of the list of reboots in
    it, and [audit.go], which takes audit logs of clusters.  Formatting of floating-point
    numbers and of local times, and the requests themselves, are arguments. *)

From Stdlib Require Import Ascii.
From S2P Require Import Prelude GoStrings GoText Wire Bridge Buffer PluginManager HostFacts Transfer Pool AgentCenter Heartbeat.
From stdpp Require Import options.
Local Open Scope string_scope.
Local Open Scope go_scope.
Local Open Scope list_scope.

Module Report.

(** ** The list of reboots *)

(** [time.Time] as far as the code uses it: the clock of its zone as
    [2006-01-02 15:04:05], and seconds since 1970. *)
Record time := mkTime { wall : string; unix : Z }.

Record LastLogEntry := mkEntry {
  Action : string; Description : string; KernelVersion : string; StartTime : time; EndTime : time; Duration : Z }.

(** A string of a shape: [d] stands for a digit, [s] for a sign, other characters for
    themselves. *)
Fixpoint has_shape (shape s : string) : bool :=
  match shape, s with
  | "", "" => true
  | String p shape, String c s =>
      (if decide (p = "d"%char) then is_digit c
       else if decide (p = "s"%char) then bool_decide (c = "+"%char ∨ c = "-"%char)
       else bool_decide (c = p)) && has_shape shape s
  | _, _ => false
  end.

(** [timePattern] *)
Definition is_time (s : string) : bool := has_shape "dddd-dd-ddTdd:dd:ddsdd:dd" s.

(** The number in the [n] characters from the [i]-th one on. *)
Definition number_at (i n : nat) (s : string) : Z := (parse_int (str_take n (str_drop i s))).1.

Definition leap (y : Z) : bool := bool_decide ((y mod 4 = 0 ∧ y mod 100 ≠ 0) ∨ y mod 400 = 0)%Z.
Definition days_in (m y : Z) : Z :=
  if decide (m = 2)%Z then (if leap y then 29 else 28)%Z
  else if decide (m ∈ [4; 6; 9; 11]%Z) then 30%Z else 31%Z.

(** Days since 1970-01-01 of a date of the Gregorian calendar. *)
Definition days (y m d : Z) : Z :=
  let y' := if decide (m ≤ 2)%Z then (y - 1)%Z else y in
  let era := (y' / 400)%Z in
  let yoe := (y' - era * 400)%Z in
  let doy := ((153 * (if decide (2 < m)%Z then m - 3 else m + 9) + 2) / 5 + d - 1)%Z in
  (era * 146097 + (yoe * 365 + yoe / 4 - yoe / 100 + doy) - 719468)%Z.

Example days_1970 : days 1970 1 1 = 0%Z.
Proof. reflexivity. Qed.
Example days_2024 : days 2024 2 29 = 19782%Z.
Proof. reflexivity. Qed.

(** The date and time of day of a time stamp are in range. *)
Definition clock_ok (s : string) : bool :=
  let y := number_at 0 4 s in let mo := number_at 5 2 s in let d := number_at 8 2 s in
  bool_decide (1 ≤ mo ≤ 12 ∧ 1 ≤ d ≤ days_in mo y ∧ number_at 11 2 s < 24 ∧ number_at 14 2 s < 60 ∧ number_at 17 2 s < 60)%Z.

Definition clock_seconds (s : string) : Z :=
  (days (number_at 0 4 s) (number_at 5 2 s) (number_at 8 2 s) * 86400 + number_at 11 2 s * 3600 + number_at 14 2 s * 60 + number_at 17 2 s)%Z.

Definition wall_of (s : string) : string := str_take 10 s +:+ " " +:+ str_take 8 (str_drop 11 s).

(** [time.Parse] with the layout [2006-01-02T15:04:05-07:00], of a string of that shape. *)
Definition parse_offset (s : string) : option time :=
  let zh := number_at 20 2 s in let zm := number_at 23 2 s in
  if clock_ok s && bool_decide (zh ≤ 24 ∧ zm ≤ 60)%Z then
    let off := (zh * 3600 + zm * 60)%Z in
    Some (mkTime (wall_of s) (clock_seconds s - (if decide (str_take 1 (str_drop 19 s) = "-") then - off else off)))
  else None.

(** The same with the layout [2006-01-02T15:04:05+07:00], which ends with this text. *)
Definition parse_literal (s : string) : option time :=
  if clock_ok s && bool_decide (str_drop 19 s = "+07:00") then Some (mkTime (wall_of s) (clock_seconds s)) else None.

Definition parse_time (s : string) : option time :=
  match parse_offset s with Some t => Some t | None => parse_literal s end.

(** [durationPattern.FindStringSubmatch] *)
Fixpoint find_duration (s : string) : option (Z * Z) :=
  if has_shape "(dd:dd)" (str_take 7 s) then Some (number_at 1 2 s, number_at 4 2 s)
  else match s with "" => None | String _ s => find_duration s end.

(** [regexp.MustCompile(`\s+`).Split(line, -1)] of a line without white space at its
    ends. *)
Definition is_blank (c : ascii) : bool := let n := byte_of c in bool_decide (n = 9 ∨ n = 10 ∨ n = 12 ∨ n = 13 ∨ n = 32)%N.

Fixpoint split_blanks (w : string) (s : string) : list string :=
  match s with
  | "" => [w]
  | String c s' =>
      if is_blank c then
        match s' with
        | String c' _ => if is_blank c' then split_blanks w s' else w :: split_blanks "" s'
        | "" => [w; ""]
        end
      else split_blanks (w +:+ String c "") s'
  end.

Definition index_where (P : string → bool) (l : list string) : option nat := fst <$> list_find (λ f, P f = true) l.

Definition kernel_like (f : string) : bool :=
  (has_prefix "5." f || has_prefix "4." f || has_prefix "3." f || has_prefix "6." f) && str_contains "-" f.

Definition ParseLastLog (line : string) : LastLogEntry + string :=
  let line := trim_space line in
  if decide (line = "") then inr "empty line"
  else
    let fields := split_blanks "" line in
    if decide (length fields < 6)%nat then inr "insufficient fields in line"
    else
      let field0 := default "" (fields !! 0) in
      let actionEnd := if str_contains "(" field0
                       then default 1 (index_where (λ f, str_contains "5." f && str_contains "-" f) fields) else 2 in
      let description := if decide (1 < actionEnd)%nat then str_join " " (drop 1 (take actionEnd fields)) else "" in
      match list_find (λ f, kernel_like f = true) fields with
      | None => inr "kernel version not found in line"
      | Some (_, kernel) =>
          match filter (λ f, is_time f = true) fields with
          | t1 :: t2 :: _ =>
              match parse_time t1, parse_time t2 with
              | Some startTime, Some endTime =>
                  let duration := match find_duration (default "" (last fields)) with
                                  | Some (h, m) => (h * 3600 + m * 60)%Z
                                  | None => (unix endTime - unix startTime)%Z
                                  end in
                  inl (mkEntry field0 description kernel startTime endTime duration)
              | _, _ => inr "failed to parse time"
              end
          | _ => inr "insufficient timestamps found in line"
          end
      end.

Definition log_line (line : string) : option LastLogEntry :=
  let line := trim_space line in
  if decide (line = "") then None
  else if str_contains "runlevel" line then None
  else match ParseLastLog line with inl e => Some e | inr _ => None end.

Definition ParseLastLogs (input : string) : list LastLogEntry := omap log_line (str_split newline input).

(** ** The report *)

Section report.
Context {Fl : Type} `{Ranger}.
(** [fmt.Sprintf("%.2fG", x/1024/1024/1024)], [int64(x)], and a time formatted in the zone
    of the server. *)
Context (gib : Fl → string) (trunc : Fl → Z) (local_time : Z → string).
Local Abbreviation Connection := (Pool.Connection (Fl:=Fl)).
Local Abbreviation detail := (gmap string (Pool.dval Fl)).

Record basicInfo := mkInfo {
  tenantId : option (Pool.dval Fl); hostId : option (Pool.dval Fl); os : string; cpuCount : option (Pool.dval Fl);
  cpuName : option (Pool.dval Fl); memSize : string; diskSize : string; state : Z; startupTime : string;
  hostRebootEvents : list (string * string); ethInfo : list detail }.

(** [s, ok := x.(string)], and the same for numbers. *)
Definition text_of (v : option (Pool.dval Fl)) : string := match v with Some (Pool.VString s) => s | _ => "" end.
Definition size_of (v : option (Pool.dval Fl)) : string := match v with Some (Pool.VFloat f) => gib f | _ => "0.00G" end.
Definition unix_of (v : option (Pool.dval Fl)) : Z := match v with Some (Pool.VFloat f) => trunc f | _ => 0%Z end.

Definition reboots (text : string) : list (string * string) :=
  if decide (text = "") then [] else (λ e, (Action e, wall (StartTime e))) <$> ParseLastLogs text.

(** The loop over the fields of an interface. *)
Definition rename_eth (d : detail) : detail :=
  foldl (λ m '(k, v), <[(if decide (k = "eth_name") then "ethName" else k) := v]> m) ∅ (range_kv "ReportAgentInfo" d).

Definition basic_info (agentInfo : detail) (eths : list detail) : basicInfo :=
  mkInfo (agentInfo !! "tenant_id") (agentInfo !! "host_id")
    (str_join " " [text_of (agentInfo !! "platform"); text_of (agentInfo !! "platform_version"); text_of (agentInfo !! "arch")])
    (agentInfo !! "cpu_count") (agentInfo !! "cpu_name") (size_of (agentInfo !! "total_mem")) (size_of (agentInfo !! "disk_count"))
    1 (local_time (unix_of (agentInfo !! "boot_time"))) (reboots (text_of (agentInfo !! "host_reboot_events"))) (rename_eth <$> eths).

(** A tick of [ReportAgentInfo]: what is posted for each connection; [GetAgentDetail] writes
    to it. *)
Fixpoint report_all (ids : list nat) (conns : gmap nat Connection) : list basicInfo * gmap nat Connection :=
  match ids with
  | [] => ([], conns)
  | i :: ids =>
      match conns !! i with
      | None => report_all ids conns
      | Some c =>
          let '(agentInfo, c') := Pool.GetAgentDetail c in
          let '(rs, conns') := report_all ids (<[i := c']> conns) in
          (basic_info agentInfo (Pool.GetEthInfosList c) :: rs, conns')
      end
  end.

Definition ReportAgentInfo (g : Pool.GRPCPool) (conns : gmap nat Connection) : list basicInfo * gmap nat Connection :=
  report_all (Pool.GetList g) conns.

End report.

(** ** Audit logs of clusters ([audit.go]) *)

Record AuditEvent {E : Type} := mkAudit { ClusterID : string; Event : E; auDataType : string }.
Arguments AuditEvent : clear implicits.
Arguments mkAudit {E} _ _ _.

(** The variables of the file: [init] leaves them nil. *)
Record audit {E : Type} := mkAuditState {
  queue : option (chan (AuditEvent E)); clusterMap : option (gmap string bool); clusterRunningMap : option (gmap string Z) }.
Arguments audit : clear implicits.
Arguments mkAuditState {E} _ _ _.

Definition audit_init {E} : audit E := mkAuditState None None None.

(** [AuditLogWriter.Add]: a send on a nil channel with a default drops the event. *)
Definition Add {E} (v : AuditEvent E) (s : audit E) : audit E :=
  mkAuditState (send_or_drop v <$> queue s) (clusterMap s) (clusterRunningMap s).

Definition UnknownErrorCode : Z := 3.
Definition ParamInvalidErrorCode : Z := 2.
Definition SuccessCode : Z := 0.

(** [RDAudit]: [peer] is the name in the certificate of the client, [body] the events. *)
Definition RDAudit {E} (peer : option string) (body : list E + string) (now : Z) (s : audit E) : outcome (audit E * Z) :=
  match peer with
  | None => Ret (s, UnknownErrorCode)
  | Some cluster =>
      match clusterMap s with
      | None => Panic "nil pointer dereference"
      | Some m =>
          match m !! cluster with
          | None => Ret (s, UnknownErrorCode)
          | Some _ =>
              match clusterRunningMap s with
              | None => Panic "assignment to entry in nil map"
              | Some r =>
                  let s := mkAuditState (queue s) (clusterMap s) (Some (<[cluster := now]> r)) in
                  match body with
                  | inr _ => Ret (s, ParamInvalidErrorCode)
                  | inl items => Ret (foldl (λ s e, Add (mkAudit cluster e "9003") s) s items, SuccessCode)
                  end
              end
          end
      end
  end.

(** [ClusterList]: the clusters heard of in the last two minutes. *)
Definition ClusterList `{Ranger} {E} (now : Z) (s : audit E) : list string :=
  omap (λ '(k, v), if decide (now - 120 < v)%Z then Some k else None) (range_kv "ClusterList" (default ∅ (clusterRunningMap s))).

(** ** From a host to the manager *)

Section reported.
Context `{Ranger} `{HostFacts.Lru C} {Fl : Type} (parse_float : string → option Fl) (json_strings : list string → string).
Context (gib : Fl → string) (trunc : Fl → Z) (local_time : Z → string).

Lemma report_all_in ids (conns : gmap nat (Pool.Connection (Fl:=Fl))) i c :
  conns !! i = Some c → i ∈ ids → NoDup ids →
  basic_info gib trunc local_time (Pool.GetAgentDetail c).1 (Pool.GetEthInfosList c) ∈ (report_all gib trunc local_time ids conns).1.
Proof.
  revert conns. induction ids as [|j ids IH]; intros conns Hi Hin Hnd; [by apply elem_of_nil in Hin|].
  apply NoDup_cons in Hnd as [Hj Hnd]. cbn [report_all]. apply elem_of_cons in Hin as [->|Hin].
  - rewrite Hi. destruct (Pool.GetAgentDetail c) as [d c1]. destruct (report_all _ _ _ _ _) as [rs conns']. left.
  - destruct (conns !! j) as [cj|] eqn:Ej; [|by apply IH]. destruct (Pool.GetAgentDetail cj) as [d c1].
    specialize (IH (<[j := c1]> conns)). destruct (report_all _ _ _ _ _) as [rs conns']. right. apply IH; [|done|done].
    rewrite lookup_insert_ne; [done|congruence].
Qed.

(** [C13] The manager is told about a host what the host said of itself in its last heartbeat:
    system, processor, memory, disk and start, under tenant and host of its connection. *)
Theorem host_reported now t pid p a h ps nics (b : Heartbeat.beat) choices send agentID hostname version product addr svr
    (c : Pool.Connection (Fl:=Fl)) g :
  let rs := (Heartbeat.tick_records json_strings now t pid p a h ps (inl nics) b).1.1 in
  Forall Heartbeat.small rs → (length rs ≤ Buffer.buf_len)%nat → length choices = length rs →
  NoDup ((λ p, PluginManager.Name (PluginManager.config (Heartbeat.plg p))) <$> filter (λ p, PluginManager.IsExited (Heartbeat.plg p) = false) ps) →
  NoDup (Heartbeat.nName <$> nics) →
  ∃ s vals s' cnt c' g' msgs,
    Heartbeat.write_all (zip choices rs) Buffer.initial = Ret s ∧ Transfer.handleSend_tick send 0 s = Ret (Some vals, s', cnt) ∧
    AgentCenter.handleRawData parse_float (Heartbeat.host_packet vals agentID hostname version product addr) svr c g [] = Ret (c', g', msgs) ∧
    ∀ pool conns i, conns !! i = Some c' → i ∈ Pool.GetList pool → NoDup (Pool.GetList pool) →
      ∃ info, info ∈ (ReportAgentInfo gib trunc local_time pool conns).1 ∧
        tenantId info = Some (Pool.VInt (Pool.TenantID c)) ∧ hostId info = Some (Pool.VInt (Pool.HostID c)) ∧
        (parse_float (Heartbeat.Platform h) = None → parse_float (Heartbeat.Arch h) = None →
         os info = str_join " " [Heartbeat.Platform h; Heartbeat.PlatformVersion h; Heartbeat.Arch h]) ∧
        cpuName info = Some (Pool.VString (Heartbeat.CPUName h)) ∧
        (∀ n f, Heartbeat.mem_total h = inl n → parse_float (itoa n) = Some f → memSize info = gib f) ∧
        (∀ n u f, Heartbeat.disk_usage h = inl (n, u) → parse_float (itoa n) = Some f → diskSize info = gib f) ∧
        (∀ f, parse_float (itoa (Heartbeat.BootTime h)) = Some f → startupTime info = local_time (trunc f)).
Proof.
  intros rs Hs Hl Hch Hnd Hnn.
  destruct (Heartbeat.heartbeat_learnt parse_float json_strings now t pid p a h ps nics b choices send agentID hostname version product addr svr c g Hs Hl Hch Hnd Hnn)
    as (s & vals & s' & cnt & c' & g' & msgs & H1 & H2 & H3 & Ho & (d & Hd & Hk) & _ & _).
  exists s, vals, s', cnt, c', g', msgs. split_and!; [exact H1|exact H2|exact H3|]. intros pool conns i Hi Hin Hn.
  eexists. split; [exact (report_all_in (Pool.GetList pool) conns i c' Hi Hin Hn)|].
  destruct Ho as (Hten & Hhost & _). unfold Pool.GetAgentDetail. rewrite Hd. cbn [fst basic_info tenantId hostId os cpuName memSize diskSize startupTime].
  assert (∀ k v, (k, v) ∈ Heartbeat.host_facts h →
    (<["host_id" := Pool.VInt (Pool.HostID c')]> (<["tenant_id" := Pool.VInt (Pool.TenantID c')]> d)) !! k =
    Some (AgentCenter.field_value parse_float AgentCenter.agent_keep k v)) as Hf.
  { intros k v Hv. pose proof (Heartbeat.host_facts_keys h k v Hv) as Hsk. rewrite !lookup_insert_ne; [by apply Hk; [apply Heartbeat.agent_field|]|..];
      intros <-; apply Hsk; unfold Heartbeat.server_keys; [right; left|do 2 right; left]. }
  assert (∀ k v, k ∉ AgentCenter.agent_keep → AgentCenter.field_value parse_float AgentCenter.agent_keep k v =
    match parse_float v with None => Pool.VString v | Some f => Pool.VFloat f end) as Hv by (intros k v Hx; unfold AgentCenter.field_value; by rewrite decide_False).
  assert (∀ k v, k ∈ AgentCenter.agent_keep → AgentCenter.field_value parse_float AgentCenter.agent_keep k v = Pool.VString v) as Hkeep
    by (intros k v Hx; unfold AgentCenter.field_value; by rewrite decide_True).
  split_and!.
  - rewrite lookup_insert_ne, lookup_insert_eq by done. by rewrite Hten.
  - rewrite lookup_insert_eq. by rewrite Hhost.
  - intros Hp Ha. rewrite (Hf "platform" (Heartbeat.Platform h)) by (right; left).
    rewrite (Hf "platform_version" (Heartbeat.PlatformVersion h)) by (do 2 right; left). rewrite (Hf "arch" (Heartbeat.Arch h)) by left.
    rewrite (Hv "platform"), (Hv "arch") by (apply (bool_decide_unpack _); by vm_compute). rewrite Hp, Ha. rewrite Hkeep by left. done.
  - rewrite (Hf "cpu_name" (Heartbeat.CPUName h)) by (do 5 right; left). done.
  - intros n f Hm Hpf. rewrite (Hf "total_mem" (itoa n)) by (do 4 right; unfold Heartbeat.host_facts; rewrite Hm; left).
    rewrite Hv by (apply (bool_decide_unpack _); by vm_compute). by rewrite Hpf.
  - intros n u f Hm Hpf. rewrite (Hf "disk_count" (itoa n)) by (do 3 right; rewrite Hm; left).
    rewrite Hv by (apply (bool_decide_unpack _); by vm_compute). by rewrite Hpf.
  - intros f Hpf. rewrite (Hf "boot_time" (itoa (Heartbeat.BootTime h))) by (do 7 right; left).
    rewrite Hv by (apply (bool_decide_unpack _); by vm_compute). by rewrite Hpf.
Qed.


End reported.

(** ** The lines of [last] *)

Lemma word_char_blank c : word_char c = true → is_blank c = false.
Proof.
  unfold word_char, is_blank. intros Hc%bool_decide_eq_true. apply bool_decide_eq_false. lia.
Qed.

Lemma split_word w s : str_forall word_char w = true → ∀ v, split_blanks v (w +:+ s) = split_blanks (v +:+ w) s.
Proof.
  induction w as [|c w IH]; intros Hw v; [by rewrite str_app_nil_r|]. cbn [str_forall] in Hw. apply andb_prop in Hw as [Hc Hw].
  change (String c w +:+ s) with (String c (w +:+ s)). cbn [split_blanks]. rewrite (word_char_blank c) by done. rewrite IH by done.
  by rewrite str_app_assoc.
Qed.

Lemma split_words ws : ws ≠ [] → Forall is_word ws → split_blanks "" (str_join " " ws) = ws.
Proof.
  intros Hne Hws. induction Hws as [|w ws [Hn Hw] Hws IH]; [done|]. destruct ws as [|w' ws].
  - cbn [str_join]. rewrite <-(str_app_nil_r w) at 1. by rewrite split_word.
  - change (str_join " " (w :: w' :: ws)) with (w +:+ String " " (str_join " " (w' :: ws))). rewrite split_word by done.
    specialize (IH ltac:(done)). change ("" +:+ w) with w. cbn [split_blanks]. change (is_blank " ") with true. cbn match.
    destruct (join_trimmed (w' :: ws) ltac:(done) Hws) as [Hh _]. destruct (str_join " " (w' :: ws)) as [|c s]; [done|].
    rewrite (word_char_blank c) by done. by rewrite IH.
Qed.

Lemma ParseLastLog_words a d ws i kernel t1 t2 rest st et :
  Forall is_word (a :: d :: ws) → (4 ≤ length ws)%nat → str_contains "(" a = false →
  list_find (λ f, kernel_like f = true) (a :: d :: ws) = Some (i, kernel) →
  filter (λ f, is_time f = true) (a :: d :: ws) = t1 :: t2 :: rest → parse_time t1 = Some st → parse_time t2 = Some et →
  ∃ dur, ParseLastLog (str_join " " (a :: d :: ws)) = inl (mkEntry a d kernel st et dur).
Proof.
  intros Hw Hl Ha Hk Ht H1 H2. unfold ParseLastLog. rewrite trim_space_trimmed by (by apply join_trimmed).
  rewrite decide_False; [|destruct (join_trimmed (a :: d :: ws) ltac:(done) Hw) as [Hh _]; by intros E; rewrite E in Hh].
  rewrite split_words by done. rewrite decide_False by (cbn [length]; lia). cbv zeta.
  change (default "" ((a :: d :: ws) !! 0)) with a. rewrite Ha, Hk, Ht, H1, H2. eexists. done.
Qed.

(** A line about a boot that has ended: the event is the boot, at the time of the host's
    clock. *)
Theorem boot_reported kernel t1 t2 dur st et :
  is_word kernel → kernel_like kernel = true → is_time kernel = false →
  is_word t1 → is_time t1 = true → parse_time t1 = Some st →
  is_word t2 → is_time t2 = true → parse_time t2 = Some et → is_word dur →
  str_contains "runlevel" (str_join " " ["reboot"; "system"; "boot"; kernel; t1; "-"; t2; dur]) = false →
  lacks "010" (str_join " " ["reboot"; "system"; "boot"; kernel; t1; "-"; t2; dur]) = true →
  reboots (str_join " " ["reboot"; "system"; "boot"; kernel; t1; "-"; t2; dur]) = [("reboot", wall st)].
Proof.
  intros Hk Hkl Hkt Hw1 Ht1 Hp1 Hw2 Ht2 Hp2 Hd Hr Hn. set (ws := ["reboot"; "system"; "boot"; kernel; t1; "-"; t2; dur]) in *.
  assert (Forall is_word ws) as Hws by (repeat (constructor; [done|]); constructor).
  pose proof (join_trimmed ws ltac:(done) Hws) as Htr.
  unfold reboots. rewrite decide_False by (destruct Htr as [Hh _]; by intros E; rewrite E in Hh).
  unfold ParseLastLogs. change newline with (String "010" ""). rewrite str_split_lacks by done. cbn [omap list_omap].
  unfold log_line. rewrite trim_space_trimmed by done. rewrite decide_False by (destruct Htr as [Hh _]; by intros E; rewrite E in Hh). rewrite Hr.
  destruct (ParseLastLog_words "reboot" "system" ["boot"; kernel; t1; "-"; t2; dur] 3 kernel t1 t2
    (filter (λ f, is_time f = true) [dur]) st et) as (du & E); [done|cbn; lia|done| | |done|done|].
  - apply list_find_Some. split_and!; [done|done|]. intros [|[|[|j]]] y Hy Hj; [injection Hy as <-; done..|lia].
  - rewrite !filter_cons. repeat (rewrite decide_False by done). rewrite (decide_False (P := is_time kernel = true)) by congruence.
    rewrite (decide_True (P := is_time t1 = true)) by done. rewrite (decide_False (P := is_time "-" = true)) by done.
    by rewrite (decide_True (P := is_time t2 = true)) by done.
  - fold ws in E. rewrite E. done.
Qed.

(** ** Findings *)

(** The boot that the host runs since is left out: its line has one time only. *)
Theorem running_boot_left_out :
  reboots "reboot system boot 5.15.0-91-generic 2024-03-01T08:00:00+08:00 still running" = [].
Proof. by vm_compute. Qed.

(** Every audit log panics: the table of clusters is nil since its initialisation is
    commented out. *)
Theorem audit_panics {E} (cluster : string) (body : list E + string) now :
  RDAudit (Some cluster) body now audit_init = Panic "nil pointer dereference".
Proof. done. Qed.

(** ** Examples *)

#[local] Existing Instances HostFacts.gmap_lru Heartbeat.small_dec.

Definition w_parse (s : string) : option Z := match parse_int s with (z, None) => Some z | _ => None end.
Definition w_gib (z : Z) : string := itoa (z / 1024) +:+ "K".

Lemma boot_reported_witness :
  reboots "reboot system boot 5.15.0-91-generic 2024-03-01T08:00:00+08:00 - 2024-03-02T09:30:00+08:00 (1+01:30)" = [("reboot", "2024-03-01 08:00:00")].
Proof.
  destruct (parse_time "2024-03-01T08:00:00+08:00") as [st|] eqn:E1; [|by vm_compute in E1].
  destruct (parse_time "2024-03-02T09:30:00+08:00") as [et|] eqn:E2; [|by vm_compute in E2].
  refine (eq_trans (boot_reported "5.15.0-91-generic" "2024-03-01T08:00:00+08:00" "2024-03-02T09:30:00+08:00" "(1+01:30)" st et
    _ _ _ _ _ E1 _ _ E2 _ _ _) _); try done. vm_compute in E1. by injection E1 as <-.
Defined.

Lemma host_reported_witness :
  ∃ s vals s' cnt c' g' msgs,
    Heartbeat.write_all (zip [0; 0; 0]%nat Heartbeat.w_tick) Buffer.initial = Ret s ∧ Transfer.handleSend_tick (λ _, None) 0 s = Ret (Some vals, s', cnt) ∧
    AgentCenter.handleRawData w_parse (Heartbeat.host_packet vals "a" "h" "1.0" "agent" (HostFacts.mkAddresses [] [] [] [])) 100 AgentCenter.w_conn
      (Pool.NewGRPCPool AgentCenter.small) [] = Ret (c', g', msgs) ∧
    ∃ info, info ∈ (ReportAgentInfo w_gib id itoa (Pool.Add_set "a" 3 (Pool.NewGRPCPool AgentCenter.small)) {[3%nat := c']}).1 ∧
      os info = "ubuntu 22.04 x86_64" ∧ memSize info = "7K".
Proof.
  destruct (host_reported w_parse (λ _, "[]") w_gib id itoa 60000000000 60000000001 42 (inl (HostFacts.w_counters 10 20)) Heartbeat.w_agent Heartbeat.w_host
    [Heartbeat.w_plugin] Heartbeat.w_nics Heartbeat.w_beat [0; 0; 0]%nat (λ _, None) "a" "h" "1.0" "agent" (HostFacts.mkAddresses [] [] [] []) 100
    AgentCenter.w_conn (Pool.NewGRPCPool AgentCenter.small))
    as (s & vals & s' & cnt & c' & g' & msgs & H1 & H2 & H3 & Hr).
  - apply (bool_decide_unpack _). by vm_compute.
  - apply (bool_decide_unpack _). by vm_compute.
  - by vm_compute.
  - apply (bool_decide_unpack _). by vm_compute.
  - apply (bool_decide_unpack _). by vm_compute.
  - exists s, vals, s', cnt, c', g', msgs. split_and!; [exact H1|exact H2|exact H3|].
    destruct (Hr (Pool.Add_set "a" 3 (Pool.NewGRPCPool AgentCenter.small)) {[3%nat := c']} 3%nat) as (info & Hi & _ & _ & Hos & _ & Hm & _).
    + apply lookup_singleton_eq.
    + apply (bool_decide_unpack _). by vm_compute.
    + apply (bool_decide_unpack _). by vm_compute.
    + exists info. split; [exact Hi|]. split; [by rewrite Hos|]. by rewrite (Hm 8000%Z 8000%Z).
Defined.

End Report.
