(* ===== verification/Outputer.v ===== *)
(** * Notices to other systems

    Models [server/manager/internal/outputer/]: the handler that passes notices (alarms and
    reminders) on to the outputs an operator has configured, the four kinds of outputs
    (Kafka, Elasticsearch, plugins of the hub, syslog) each with its queue and its
    goroutine, and the round of every minute that follows the configurations of the
    database; and the producer of [infra/kafka/kafka.go].  The handler refers to outputs by
    reference, and an output that was replaced goes on emptying its queue: outputs live on a
    heap.  What the other systems answer is an argument of every call. *)

From stdpp Require Import base tactics decidable list strings gmap pretty numbers.
From Stdlib Require Import ZArith Lia.
From S2P Require Import Prelude GoStrings Bson.
Local Open Scope nat_scope.
Local Open Scope string_scope.
Set Default Proof Using "Type".

Module Outputer.

(** ** Notices *)

Record DataHitModelInfo := HitInfo { Model : string; SubModel : string; DType : string; Level : string }.

(** [Data] has type [interface{}]: a [map[string]interface{}] or something else. *)
Inductive payload := DataMap (m : doc) | DataOther (v : value).

Record DataModel := mkDataModel { HitInfoOf : DataHitModelInfo; Filter : value; Data : payload }.

Definition BuildDataModel (model subModel dType alarmLevel : string) (filter : value) (data : payload) : DataModel :=
  mkDataModel (HitInfo model subModel dType alarmLevel) filter data.

Definition DataModelHidsAlarm := "hids alarm".
Definition DataModelRaspAlarm := "rasp alarm".
Definition DataModelKubeAlarm := "kube alarm".
Definition DataModelVirusAlarm := "virus alarm".
Definition DataModelAuthorizationExpire := "authorization expire".

Definition ConfigTypeKafka := "kafka".
Definition ConfigTypeFeishu := "feishu".
Definition ConfigTypeDingding := "dingding".
Definition ConfigTypeEmail := "email".
Definition ConfigTypeSyslog := "syslog".
Definition ConfigTypeEs := "elasticsearch".
Definition ConfigTypeEWechat := "enterprise wechat".
Definition ConfigTypeCustom := "custom".

Definition ConfigOutputerOpen : Z := 1.
Definition ConfigOutputerQueueMax : nat := 100.

(** ** Configurations ([output_data_type.go])

    Remarks, descriptions and authors, which only the user interface shows, are left out. *)

(** Feishu and Dingding have the same fields. *)
Record NoticeMsgConfigGroup := mkGroup { WebHookUrl : string; Seceret : string }.
Record NoticeMsgConfigEnterpriseWechat := mkEWechat { eWebHookUrl : string }.
Record NoticeMsgConfigEmail := mkEmail { Server : string; UserName : string; Password : string; ToEmail : list string }.
Record NoticeMsgConfigKafka := mkKafkaConf { KafkaBootstrapServers : string; KafkaTopic : string; KafkaOtherConf : string }.
Record NoticeMsgConfigEs := mkEsConf {
  ESHost : list string; ESIndex : string; ESAuthUser : string; ESAuthPasswd : string; ESIndexRefreshType : string }.
Record NoticeMsgConfigSyslog := mkSyslogConf { SyslogServer : string; Protocol : string; Facility : Z }.

(** The map is nil when the document has none. *)
Record NoticeMsgConfigCustom := mkCustom { PluginName : string; CustomConfig : option (gmap string string) }.

Record NoticeMsgConfig := mkMsgConfig {
  FeishuConfig : option NoticeMsgConfigGroup;
  DingdingConfig : option NoticeMsgConfigGroup;
  EWechat : option NoticeMsgConfigEnterpriseWechat;
  Syslog : option NoticeMsgConfigSyslog;
  Email : option NoticeMsgConfigEmail;
  Kafka : option NoticeMsgConfigKafka;
  ES : option NoticeMsgConfigEs;
  Custom : option NoticeMsgConfigCustom }.

Record OutputerConfig := mkConf {
  ID : string; Type_ : string; LevelList : list string; Status : Z; MsgType : string;
  UpdateTime : Z; MsgConfig : NoticeMsgConfig }.

(** ** Queues

    The channel of an output, with whether it is closed.  Sending to a closed channel
    panics, in a [select] too, and so does closing it again. *)
Record queue := mkQueue { pending : chan DataModel; closed : bool }.

Definition make_queue : queue := mkQueue (make_chan ConfigOutputerQueueMax) false.

Definition send (dm : DataModel) (q : queue) : outcome queue :=
  if closed q then Panic "send on closed channel" else Ret (mkQueue (send_or_drop dm (pending q)) false).

Definition close (q : queue) : outcome queue :=
  if closed q then Panic "close of closed channel" else Ret (mkQueue (pending q) true).

(** What the goroutine of an output finds when it receives. *)
Inductive received := Got (dm : DataModel) (q : queue) | Ended | Blocked.

Definition receive (q : queue) : received :=
  match try_recv (pending q) with
  | Some (dm, c) => Got dm (mkQueue c (closed q))
  | None => if closed q then Ended else Blocked
  end.

(** ** What leaves the manager *)

(** [HubTestPluginReq]: the fields that are set. *)
Record HubTestPluginReq := mkHubReq { rPluginType : string; rPluginName : string; rConfig : gmap string string; rData : payload }.

Inductive severity := LOG_CRIT | LOG_ERR | LOG_WARNING | LOG_NOTICE | LOG_INFO.

Inductive sent :=
| ToKafka (topic : string) (value : string)
| ToEs (index : string) (doc : string)
| ToHub (url : string) (req : HubTestPluginReq)
| ToSyslog (sev : severity) (text : string).

(** ** What is outside *)

(** [json.Marshal] and [json.Unmarshal] into a map. *)
Class Json := { Marshal : payload → option string; Unmarshal : string → option doc }.

(** Dates as [time.Time] gives them. *)
Record civil := mkCivil { Year : Z; Month : Z; Day : Z; Hour : Z }.

(** [HubResponse], and the other ends of a request to the hub. *)
Record HubResponse := mkHubResponse { Success : bool; RespData : value; ErrorMsg : string }.
Inductive answer := PostFailed | BadBody | Answer (r : HubResponse).

(** What the services do during one step. *)
Record world := mkWorld {
  clock : civil;
  kafka_up : bool;
  es_up : bool;
  syslog_up : bool;
  syslog_writes : bool;
  hub_host : string;   (* of the configuration of the manager *)
  hub : string → HubTestPluginReq → answer }.

(** ** The producer ([infra/kafka/kafka.go]) *)

(** The part of [sarama.Config] that depends on the arguments. *)
Record producer := mkProducer {
  p_addrs : list string; ClientID : string; Mechanism : string; SaslPassword : string; SaslUser : string; SaslEnable : bool }.

(** [x.(string)] without a second result. *)
Definition assert_string (v : value) : outcome string :=
  match v with VStr s => Ret s | _ => Panic "interface conversion: interface {} is not string" end.

Definition sasl_mechanism (otherConfig : doc) : string :=
  match otherConfig !! "sasl.mechanism" with
  | Some v => if decide (v = VStr "PLAIN") then "PLAIN" else if decide (v = VStr "OAUTHBEARER") then "OAUTHBEARER" else ""
  | None => ""
  end.

Definition sasl_enable (otherConfig : doc) : bool :=
  match otherConfig !! "security.protocol" with
  | Some res => bool_decide (res = VStr "SASL_PLAINTEXT") || bool_decide (res = VStr "SASL_SSL")
  | None => false
  end.

Definition sasl_string (key : string) (otherConfig : doc) : outcome string :=
  match otherConfig !! key with Some v => assert_string v | None => Ret "" end.

Definition NewProducer (w : world) (addr : string) (otherConfig : doc) (clientID : string) : outcome (string + producer) :=
  let! password := sasl_string "sasl.password" otherConfig in
  let! user := sasl_string "sasl.username" otherConfig in
  Ret (if kafka_up w
       then inr (mkProducer (str_split "," addr) clientID (sasl_mechanism otherConfig) password user (sasl_enable otherConfig))
       else inl "NewClient error").

(** ** The interface of the outputs *)

(** [HitModel] of the four types: the type of notice, and one of the levels if there are
    any. *)
Definition hits (msg_type : string) (level_map : gset string) (model : DataHitModelInfo) : bool :=
  if decide (Model model = msg_type)
  then (if decide (0 < size level_map) then bool_decide (Level model ∈ level_map) else true)
  else false.

(** The loop over [conf.LevelList] that fills [level_map]. *)
Definition level_map_of (conf : OutputerConfig) : gset string :=
  foldl (λ m one, {[one]} ∪ m) ∅ (LevelList conf).

(** [OutWorker]: one goroutine per output runs [WaitForInputMsg]; [step_in] is one turn
    of its loop, [None] if it waits or has returned.  The laws are what the handler relies
    on. *)
Class OutWorker (W : Type) := {
  HitModel : W → DataHitModelInfo → bool;
  SendMsg : option DataModel → W → outcome W;
  Close : W → outcome W;
  Queue : W → queue;
  step_in : world → W → option (W * list sent);
  send_nil : ∀ w, SendMsg None w = Ret w;
  send_queue : ∀ dm w,
    match SendMsg (Some dm) w with
    | Ret w' => send dm (Queue w) = Ret (Queue w') ∧ HitModel w' = HitModel w
    | Panic _ => closed (Queue w) = true
    end;
  close_queue : ∀ w w', Close w = Ret w' →
    close (Queue w) = Ret (Queue w') ∧ HitModel w' = HitModel w;
  step_queue : ∀ world w w' out, step_in world w = Some (w', out) →
    (∃ dm, receive (Queue w) = Got dm (Queue w')) ∨ (receive (Queue w) = Ended ∧ Queue w' = Queue w ∧ out = []);
  step_hits : ∀ world w w' out, step_in world w = Some (w', out) → HitModel w' = HitModel w;
}.

(** ** Kafka ([kafka.go]) *)

(** The producer is closed by the goroutine of [NewProducer] once [k_stop] is closed. *)
Record KafkaWorker := mkKafka {
  k_producer : producer; k_stop : bool; k_level_map : gset string; k_msg_type : string; k_topic : string;
  k_queue : queue; k_running : bool }.

Section kafka.
Context `{Json}.

Definition other_conf (conf : NoticeMsgConfigKafka) : option doc :=
  if decide (trim_space (KafkaOtherConf conf) = "") then Some ∅ else Unmarshal (KafkaOtherConf conf).

Definition Kafka_Init (w : world) (conf : OutputerConfig) : outcome (string + KafkaWorker) :=
  match Kafka (MsgConfig conf) with
  | None => Ret (inl "empty config for output kafka worker")
  | Some k =>
      match other_conf k with
      | None => Ret (inl "json.Unmarshal Error")
      | Some oConf =>
          let! p := NewProducer w (KafkaBootstrapServers k) oConf "elkeid_kafka_oupter" in
          match p with
          | inl err => Ret (inl err)
          | inr p => Ret (inr (mkKafka p false (level_map_of conf) (Type_ conf) (KafkaTopic k) make_queue true))
          end
      end
  end.

Definition with_k_queue (q : queue) (b : KafkaWorker) : KafkaWorker :=
  mkKafka (k_producer b) (k_stop b) (k_level_map b) (k_msg_type b) (k_topic b) q (k_running b).
Definition k_end (b : KafkaWorker) : KafkaWorker :=
  mkKafka (k_producer b) (k_stop b) (k_level_map b) (k_msg_type b) (k_topic b) (k_queue b) false.

Definition Kafka_WaitForInputMsg (b : KafkaWorker) : option (KafkaWorker * list sent) :=
  if k_running b then
    match receive (k_queue b) with
    | Got d q =>
        match Marshal (Data d) with
        | None => Some (k_end (with_k_queue q b), [])
        | Some bv => Some (with_k_queue q b, [ToKafka (k_topic b) bv])
        end
    | Ended => Some (k_end b, [])
    | Blocked => None
    end
  else None.

Definition Kafka_HitModel (b : KafkaWorker) : DataHitModelInfo → bool := hits (k_msg_type b) (k_level_map b).

Definition Kafka_SendMsg (dm : option DataModel) (b : KafkaWorker) : outcome KafkaWorker :=
  match dm with
  | None => Ret b
  | Some dm => let! q := send dm (k_queue b) in Ret (with_k_queue q b)
  end.

Definition Kafka_Close (b : KafkaWorker) : outcome KafkaWorker :=
  let! q := close (k_queue b) in
  if k_stop b then Panic "close of closed channel"
  else Ret (mkKafka (k_producer b) true (k_level_map b) (k_msg_type b) (k_topic b) q (k_running b)).
End kafka.

(** ** Elasticsearch ([es.go]) *)

Record EsWorker := mkEs {
  esIndex : string; esIndexRefreshType : string; esIndexReal : string; es_level_map : gset string;
  es_msg_type : string; es_cancelled : bool; es_queue : queue; es_running : bool }.

Section es.
Context `{Json} `{!Ranger}.

(** [%d] of the parts one after the other. *)
Definition getHour (t : civil) : string := itoa (Year t) +:+ itoa (Month t) +:+ itoa (Day t) +:+ itoa (Hour t).
Definition getDay (t : civil) : string := itoa (Year t) +:+ itoa (Month t) +:+ itoa (Day t).

Definition real_index (t : civil) (refresh index : string) : string :=
  if decide (refresh = "day") then index +:+ "_" +:+ getDay t
  else if decide (refresh = "hour") then index +:+ "_" +:+ getHour t
  else index.

(** One round of the goroutine of [ESRefreshIndex], every five seconds until [Close]. *)
Definition ESRefreshIndex (t : civil) (b : EsWorker) : EsWorker :=
  if es_cancelled b then b
  else mkEs (esIndex b) (esIndexRefreshType b) (real_index t (esIndexRefreshType b) (esIndex b)) (es_level_map b)
         (es_msg_type b) false (es_queue b) (es_running b).

(** The error of the bulk processor is not looked at. *)
Definition Es_Init (w : world) (conf : OutputerConfig) : string + EsWorker :=
  match ES (MsgConfig conf) with
  | None => inl "empty config for output es worker"
  | Some e =>
      if es_up w then
        inr (mkEs (ESIndex e) (ESIndexRefreshType e) (real_index (clock w) (ESIndexRefreshType e) (ESIndex e))
               (level_map_of conf) (Type_ conf) false make_queue true)
      else inl "Init Error"
  end.

(** The copy of the map in which [_id] has another name. *)
Definition rename_id (dataMap : doc) : doc :=
  foldl (λ newDataMap kv, if decide (kv.1 = "_id") then <["elkeid_db_id" := kv.2]> newDataMap else <[kv.1 := kv.2]> newDataMap)
    ∅ (range_kv "EsWorker.WaitForInputMsg" dataMap).

Definition es_document (d : payload) : payload :=
  match d with DataMap m => DataMap (rename_id m) | DataOther v => DataOther v end.

Definition with_es_queue (q : queue) (b : EsWorker) : EsWorker :=
  mkEs (esIndex b) (esIndexRefreshType b) (esIndexReal b) (es_level_map b) (es_msg_type b) (es_cancelled b) q (es_running b).
Definition es_end (b : EsWorker) : EsWorker :=
  mkEs (esIndex b) (esIndexRefreshType b) (esIndexReal b) (es_level_map b) (es_msg_type b) (es_cancelled b) (es_queue b) false.

Definition Es_WaitForInputMsg (b : EsWorker) : option (EsWorker * list sent) :=
  if es_running b then
    match receive (es_queue b) with
    | Got d q =>
        match Marshal (es_document (Data d)) with
        | None => Some (es_end (with_es_queue q b), [])
        | Some bv => Some (with_es_queue q b, [ToEs (esIndexReal b) bv])
        end
    | Ended => Some (es_end b, [])
    | Blocked => None
    end
  else None.

Definition Es_HitModel (b : EsWorker) : DataHitModelInfo → bool := hits (es_msg_type b) (es_level_map b).

Definition Es_SendMsg (dm : option DataModel) (b : EsWorker) : outcome EsWorker :=
  match dm with
  | None => Ret b
  | Some dm => let! q := send dm (es_queue b) in Ret (with_es_queue q b)
  end.

Definition Es_Close (b : EsWorker) : outcome EsWorker :=
  let! q := close (es_queue b) in
  Ret (mkEs (esIndex b) (esIndexRefreshType b) (esIndexReal b) (es_level_map b) (es_msg_type b) true q (es_running b)).
End es.

(** ** Plugins of the hub ([hub_plugin.go], [apply_plugin.go]) *)

Record HubPluginWorker := mkHub {
  h_level_map : gset string; h_msg_type : string; plugin_name : string; plugin_config : gmap string string;
  h_queue : queue; h_running : bool }.

Definition HubPluginMsgTypeAlarm := "alert".
Definition HubPluginMsgTypeReminder := "reminder".

(** The switch of [Init] and of [WaitForInputMsg]. *)
Definition pluginMsgType (model : string) : option string :=
  if decide (model = DataModelHidsAlarm) then Some HubPluginMsgTypeAlarm
  else if decide (model = DataModelAuthorizationExpire) then Some HubPluginMsgTypeReminder
  else if decide (model = DataModelRaspAlarm) then Some HubPluginMsgTypeAlarm
  else if decide (model = DataModelKubeAlarm) then Some HubPluginMsgTypeAlarm
  else if decide (model = DataModelVirusAlarm) then Some HubPluginMsgTypeAlarm
  else None.

Definition group_config (g : NoticeMsgConfigGroup) (typ : string) : gmap string string :=
  {["WebHookUrl" := WebHookUrl g; "Secret" := Seceret g; "type" := typ]}.

(** The name of the plugin and its configuration. *)
Definition ReadConfig (config : NoticeMsgConfig) (typ : string) : outcome (string + string * gmap string string) :=
  match FeishuConfig config with
  | Some g => Ret (inr ("SendToLarkGroup", group_config g typ))
  | None =>
  match DingdingConfig config with
  | Some g => Ret (inr ("SendToDingdingGroup", group_config g typ))
  | None =>
  match EWechat config with
  | Some e => Ret (inr ("SendToWeCom", {["WebHookUrl" := eWebHookUrl e; "type" := typ]}))
  | None =>
  match Email config with
  | Some e => Ret (inr ("SendSMTPEmail",
      {["Server" := Server e; "UserName" := UserName e; "Password" := Password e;
        "ToEmail" := str_join ";" (ToEmail e); "type" := typ]}))
  | None =>
  match Custom config with
  | Some c =>
      match CustomConfig c with
      | Some m => Ret (inr (PluginName c, <["type" := typ]> m))
      | None => Panic "assignment to entry in nil map"
      end
  | None => Ret (inl "no valid config for HubPluginWorker")
  end end end end end.

Definition Hub_Init (conf : OutputerConfig) : outcome (string + HubPluginWorker) :=
  if decide (Type_ conf = "") then Ret (inl "empty type for HubPluginWorker")
  else match pluginMsgType (Type_ conf) with
  | None => Ret (inl ("unkown msg type for hub plugin " +:+ Type_ conf))
  | Some typ =>
      let! r := ReadConfig (MsgConfig conf) typ in
      match r with
      | inl err => Ret (inl err)
      | inr (name, config) => Ret (inr (mkHub (level_map_of conf) (Type_ conf) name config make_queue true))
      end
  end.

(** The errors of a request. *)
Inductive hub_error :=
| NoHubAddress | PostError | BindError | PluginError (msg : string)
| NotAnObject | NoResp | RespNoMap | NoDone | DoneNoBool | NotDone.

(** [getHubList] gives one address, and the draw among it is this one. *)
Definition getHubList (host : string) : hub_error + list string :=
  if decide (host = "") then inl NoHubAddress else inr [host].

Definition testUrl (hubAddress : string) : string := "https://" +:+ hubAddress +:+ ":8091/testPlugin".

(** The request that is sent, if any, and the result. *)
Definition ApplyHubPlugin (w : world) (host : string) (req : HubTestPluginReq) : list sent * (hub_error + value) :=
  match getHubList host with
  | inl err => ([], inl err)
  | inr hubs =>
      let url := testUrl (default "" (head hubs)) in
      ([ToHub url req],
       match hub w url req with
       | PostFailed => inl PostError
       | BadBody => inl BindError
       | Answer r => if Success r then inr (RespData r) else inl (PluginError (ErrorMsg r))
       end)
  end.

(** [dataInfo[k]] of a decoded object: the last of the fields with this name. *)
Definition object_field (k : string) (fields : list (string * value)) : option value :=
  snd <$> last (filter (λ kv, kv.1 = k) fields).

(** What the answer of the plugin says.  [null] decodes into a nil map. *)
Definition read_answer (data : value) : hub_error + unit :=
  match data with
  | VDoc fields =>
      match object_field "resp" fields with
      | None => inl NoResp
      | Some (VDoc rsp) =>
          match object_field "done" rsp with
          | None => inl NoDone
          | Some (VBool b) => if b then inr tt else inl NotDone
          | Some _ => inl DoneNoBool
          end
      | Some _ => inl RespNoMap
      end
  | VNull => inl NoResp
  | _ => inl NotAnObject
  end.

Definition RequestHubPluginByHub (w : world) (host : string) (req : HubTestPluginReq) : list sent * (hub_error + unit) :=
  let '(out, r) := ApplyHubPlugin w host req in
  (out, match r with inl err => inl err | inr data => read_answer data end).

Definition Hub_HitModel (b : HubPluginWorker) : DataHitModelInfo → bool := hits (h_msg_type b) (h_level_map b).

Definition with_h_queue (q : queue) (b : HubPluginWorker) : HubPluginWorker :=
  mkHub (h_level_map b) (h_msg_type b) (plugin_name b) (plugin_config b) q (h_running b).
Definition h_end (b : HubPluginWorker) : HubPluginWorker :=
  mkHub (h_level_map b) (h_msg_type b) (plugin_name b) (plugin_config b) (h_queue b) false.

(** An error of the request is only logged. *)
Definition Hub_WaitForInputMsg (w : world) (host : string) (b : HubPluginWorker) : option (HubPluginWorker * list sent) :=
  if h_running b then
    match receive (h_queue b) with
    | Got d q =>
        match pluginMsgType (Model (HitInfoOf d)) with
        | None => Some (h_end (with_h_queue q b), [])
        | Some _ =>
            Some (with_h_queue q b, (RequestHubPluginByHub w host (mkHubReq "Action" (plugin_name b) (plugin_config b) (Data d))).1)
        end
    | Ended => Some (h_end b, [])
    | Blocked => None
    end
  else None.

Definition Hub_SendMsg (dm : option DataModel) (b : HubPluginWorker) : outcome HubPluginWorker :=
  match dm with
  | None => Ret b
  | Some dm => let! q := send dm (h_queue b) in Ret (with_h_queue q b)
  end.

Definition Hub_Close (b : HubPluginWorker) : outcome HubPluginWorker :=
  let! q := close (h_queue b) in Ret (with_h_queue q b).

(** ** Syslog ([syslog.go]) *)

(** [log_handler] is nil while there is no connection. *)
Record SyslogWorker := mkSyslog {
  log_handler : bool; s_level_map : gset string; s_msg_type : string; log_addr : string; log_fac : Z;
  log_protocol : string; s_queue : queue; s_running : bool }.

Section syslog.
Context `{Json}.

(** Whether [syslog.Dial] gave a connection. *)
Definition InitSyslogConnect (w : world) (conf : option NoticeMsgConfigSyslog) : bool :=
  match conf with None => false | Some _ => syslog_up w end.

Definition Syslog_Init (w : world) (conf : OutputerConfig) : string + SyslogWorker :=
  match Syslog (MsgConfig conf) with
  | None => inl "empty config for SyslogWorker"
  | Some s =>
      if decide (Type_ conf = "") then inl "empty type for HubPluginWorker"
      else inr (mkSyslog (InitSyslogConnect w (Some s)) (level_map_of conf) (Type_ conf) (SyslogServer s) (Facility s)
                  (Protocol s) make_queue true)
  end.

Definition severity_of (level : string) : severity :=
  if decide (level = "critical") then LOG_CRIT
  else if decide (level = "high") then LOG_ERR
  else if decide (level = "medium") then LOG_WARNING
  else if decide (level = "low") then LOG_NOTICE
  else LOG_INFO.

Definition with_s_queue (q : queue) (b : SyslogWorker) : SyslogWorker :=
  mkSyslog (log_handler b) (s_level_map b) (s_msg_type b) (log_addr b) (log_fac b) (log_protocol b) q (s_running b).
Definition s_state (handler running : bool) (b : SyslogWorker) : SyslogWorker :=
  mkSyslog handler (s_level_map b) (s_msg_type b) (log_addr b) (log_fac b) (log_protocol b) (s_queue b) running.

(** Every error ends the goroutine. *)
Definition Syslog_WaitForInputMsg (w : world) (b : SyslogWorker) : option (SyslogWorker * list sent) :=
  if s_running b then
    match receive (s_queue b) with
    | Got d q =>
        let b := with_s_queue q b in
        match Marshal (Data d) with
        | None => Some (s_state (log_handler b) false b, [])
        | Some jsonStr =>
            let connected := log_handler b || InitSyslogConnect w (Some (mkSyslogConf (log_addr b) (log_protocol b) (log_fac b))) in
            if connected then
              (if syslog_writes w then Some (s_state true true b, [ToSyslog (severity_of (Level (HitInfoOf d))) jsonStr])
               else Some (s_state true false b, []))
            else Some (s_state false false b, [])
        end
    | Ended => Some (s_state (log_handler b) false b, [])
    | Blocked => None
    end
  else None.

Definition Syslog_HitModel (b : SyslogWorker) : DataHitModelInfo → bool := hits (s_msg_type b) (s_level_map b).

Definition Syslog_SendMsg (dm : option DataModel) (b : SyslogWorker) : outcome SyslogWorker :=
  match dm with
  | None => Ret b
  | Some dm => let! q := send dm (s_queue b) in Ret (with_s_queue q b)
  end.

(** [Close] of a nil [*syslog.Writer] locks a mutex of it. *)
Definition Syslog_Close (b : SyslogWorker) : outcome SyslogWorker :=
  if log_handler b then let! q := close (s_queue b) in Ret (with_s_queue q b)
  else Panic "nil pointer dereference".
End syslog.

(** ** The four types implement the interface *)

Ltac by_queue :=
  repeat (case_match || case_decide || intros ?); unfold obind, send, close in *;
  repeat (case_match; simplify_eq/=); simplify_eq/=; eauto.

#[local] Instance Kafka_OutWorker `{Json} : OutWorker KafkaWorker.
Proof.
  refine {| HitModel := Kafka_HitModel; SendMsg := Kafka_SendMsg; Close := Kafka_Close; Queue := k_queue;
            step_in _ := Kafka_WaitForInputMsg |}; [done|..]; intros;
    unfold Kafka_SendMsg, Kafka_Close, Kafka_WaitForInputMsg in *; by_queue.
Defined.

#[local] Instance Es_OutWorker `{Json} `{!Ranger} : OutWorker EsWorker.
Proof.
  refine {| HitModel := Es_HitModel; SendMsg := Es_SendMsg; Close := Es_Close; Queue := es_queue;
            step_in _ := Es_WaitForInputMsg |}; [done|..]; intros;
    unfold Es_SendMsg, Es_Close, Es_WaitForInputMsg in *; by_queue.
Defined.

#[local] Instance Hub_OutWorker : OutWorker HubPluginWorker.
Proof.
  refine {| HitModel := Hub_HitModel; SendMsg := Hub_SendMsg; Close := Hub_Close; Queue := h_queue;
            step_in w := Hub_WaitForInputMsg w (hub_host w) |}; [done|..]; intros;
    unfold Hub_SendMsg, Hub_Close, Hub_WaitForInputMsg in *; by_queue.
Defined.

#[local] Instance Syslog_OutWorker `{Json} : OutWorker SyslogWorker.
Proof.
  refine {| HitModel := Syslog_HitModel; SendMsg := Syslog_SendMsg; Close := Syslog_Close; Queue := s_queue;
            step_in := Syslog_WaitForInputMsg |}; [done|..]; intros;
    unfold Syslog_SendMsg, Syslog_Close, Syslog_WaitForInputMsg in *; by_queue.
Defined.

(** A value of the interface type: one of the four, and the calls go to its methods. *)
Inductive worker := WKafka (b : KafkaWorker) | WEs (b : EsWorker) | WHub (b : HubPluginWorker) | WSyslog (b : SyslogWorker).

Definition omap_out {A B} (f : A → B) (o : outcome A) : outcome B := let! a := o in Ret (f a).

Definition stepped {A} (f : A → worker) (r : option (A * list sent)) : option (worker * list sent) :=
  prod_map f id <$> r.

#[local] Instance dynamic_OutWorker `{Json} `{!Ranger} : OutWorker worker.
Proof.
  refine {|
    HitModel w := match w with WKafka b => HitModel b | WEs b => HitModel b | WHub b => HitModel b | WSyslog b => HitModel b end;
    SendMsg dm w := match w with
      | WKafka b => omap_out WKafka (SendMsg dm b) | WEs b => omap_out WEs (SendMsg dm b)
      | WHub b => omap_out WHub (SendMsg dm b) | WSyslog b => omap_out WSyslog (SendMsg dm b) end;
    Close w := match w with
      | WKafka b => omap_out WKafka (Close b) | WEs b => omap_out WEs (Close b)
      | WHub b => omap_out WHub (Close b) | WSyslog b => omap_out WSyslog (Close b) end;
    Queue w := match w with WKafka b => Queue b | WEs b => Queue b | WHub b => Queue b | WSyslog b => Queue b end;
    step_in world w := match w with
      | WKafka b => stepped WKafka (step_in world b) | WEs b => stepped WEs (step_in world b)
      | WHub b => stepped WHub (step_in world b) | WSyslog b => stepped WSyslog (step_in world b) end |}.
  - by intros [].
  - intros dm [b|b|b|b]; unfold omap_out, obind; pose proof (send_queue dm b); by case_match.
  - intros [b|b|b|b] w' Hc; unfold omap_out, obind in Hc; destruct (Close b) eqn:E; simplify_eq; by apply close_queue.
  - intros world [b|b|b|b] w' out Hs; unfold stepped in Hs;
      apply fmap_Some in Hs as ([b' o] & E & Hp); injection Hp as -> ->; exact (step_queue world b b' o E).
  - intros world [b|b|b|b] w' out Hs; unfold stepped in Hs;
      apply fmap_Some in Hs as ([b' o] & E & Hp); injection Hp as -> ->; exact (step_hits world b b' o E).
Defined.

(** ** The handler ([output.go]) *)

(** [workers] maps identifiers to references; [heap] holds the outputs ever made, [log]
    what each of them has sent.  [toDelMap] and [todo] belong to the goroutine of [Init]:
    what is left of its round. *)
Inductive task :=
| Visit (d : option OutputerConfig)      (* a document of the cursor; [None]: it does not decode *)
| StopOld (id : string)
| Start (conf : OutputerConfig)
| Collect                                (* the documents have come to an end *)
| Remove (k : string)
| CloseRemoved (l : option nat) (k : string).

Record Handler := mkHandler {
  workers : gmap string nat; configMap : gmap string Z; heap : list worker; log : list (nat * sent);
  toDelMap : gmap string Z; todo : list task }.

Definition with_workers m (o : Handler) := mkHandler m (configMap o) (heap o) (log o) (toDelMap o) (todo o).
Definition with_configs m (o : Handler) := mkHandler (workers o) m (heap o) (log o) (toDelMap o) (todo o).
Definition with_heap h (o : Handler) := mkHandler (workers o) (configMap o) h (log o) (toDelMap o) (todo o).
Definition with_log l (o : Handler) := mkHandler (workers o) (configMap o) (heap o) l (toDelMap o) (todo o).
Definition with_dels m (o : Handler) := mkHandler (workers o) (configMap o) (heap o) (log o) m (todo o).
Definition with_todo t (o : Handler) := mkHandler (workers o) (configMap o) (heap o) (log o) (toDelMap o) t.

Definition new_handler : Handler := mkHandler ∅ ∅ [] [] ∅ [].

Section handler.
Context `{Json} `{!Ranger}.

(** The output that [UpdateConfig] makes. *)
Definition start (w : world) (conf : OutputerConfig) : outcome (string + worker) :=
  if decide (MsgType conf = ConfigTypeKafka) then omap_out (sum_map id WKafka) (Kafka_Init w conf)
  else if decide (MsgType conf = ConfigTypeEs) then Ret (sum_map id WEs (Es_Init w conf))
  else if decide (MsgType conf ∈ [ConfigTypeFeishu; ConfigTypeDingding; ConfigTypeEWechat; ConfigTypeEmail; ConfigTypeCustom])
  then omap_out (sum_map id WHub) (Hub_Init conf)
  else if decide (MsgType conf = ConfigTypeSyslog) then Ret (sum_map id WSyslog (Syslog_Init w conf))
  else Ret (inl "unkown output type").

(** The error, if any, and the handler. *)
Definition UpdateConfig (w : world) (conf : OutputerConfig) (o : Handler) : outcome (option string * Handler) :=
  if decide (Status conf ≠ ConfigOutputerOpen) then Ret (Some ("outputer config, ID " +:+ ID conf +:+ " is not open"), o)
  else
    let! r := start w conf in
    match r with
    | inl err => Ret (Some err, o)
    | inr b => Ret (None, with_workers (<[ID conf := length (heap o)]> (workers o)) (with_heap (heap o ++ [b]) o))
    end.

(** [UpdateConfig] and the time that is noted for it. *)
Definition start_conf (w : world) (conf : OutputerConfig) (o : Handler) : outcome Handler :=
  let! (err, o) := UpdateConfig w conf o in
  Ret (with_configs (<[ID conf := match err with Some _ => (-1)%Z | None => UpdateTime conf end]> (configMap o)) o).

(** [l.Close()] of the output at a reference. *)
Definition close_at (l : option nat) (o : Handler) : outcome Handler :=
  match l with
  | None => Ret o
  | Some l =>
      match heap o !! l with
      | None => Ret o
      | Some b => let! b := Close b in Ret (with_heap (<[l := b]> (heap o)) o)
      end
  end.

(** An atomic action of a round, and what follows it. *)
Definition exec (w : world) (t : task) (o : Handler) : outcome (Handler * list task) :=
  match t with
  | Visit None => Ret (o, [])
  | Visit (Some conf) =>
      if decide (Status conf = ConfigOutputerOpen) then
        let o := with_dels (delete (ID conf) (toDelMap o)) o in
        match configMap o !! ID conf with
        | Some up => if decide (up = UpdateTime conf) then Ret (o, []) else Ret (o, [StopOld (ID conf); Start conf])
        | None => Ret (o, [Start conf])
        end
      else Ret (o, [])
  | StopOld id => let! o := close_at (workers o !! id) o in Ret (o, [])
  | Start conf => let! o := start_conf w conf o in Ret (o, [])
  | Collect => Ret (o, (λ kv, Remove kv.1) <$> range_kv "Handler.Init" (toDelMap o))
  | Remove k => Ret (with_workers (delete k (workers o)) o, [CloseRemoved (workers o !! k) k])
  | CloseRemoved l k => let! o := close_at l o in Ret (with_configs (delete k (configMap o)) o, [])
  end.

(** The loop over the documents at the start: the outputs that are open. *)
Fixpoint Init (w : world) (docs : list (option OutputerConfig)) (o : Handler) : outcome Handler :=
  match docs with
  | [] => Ret o
  | None :: docs => Init w docs o
  | Some conf :: docs =>
      if decide (Status conf = ConfigOutputerOpen) then let! o := start_conf w conf o in Init w docs o
      else Init w docs o
  end.

(** The beginning of a round; [None] when the query fails. *)
Definition begin_round (docs : option (list (option OutputerConfig))) (o : Handler) : Handler :=
  match docs with
  | None => o
  | Some docs => with_todo ((Visit <$> docs) ++ [Collect]) (with_dels (configMap o) o)
  end.

Definition IsEnable (o : Handler) : bool := negb (bool_decide (size (workers o) = 0)).

(** [Add]: the loop over the outputs is in one locked section. *)
Definition add_one (dm : DataModel) (l : nat) (o : Handler) : outcome Handler :=
  match heap o !! l with
  | None => Ret o
  | Some b =>
      if HitModel b (HitInfoOf dm) then let! b := SendMsg (Some dm) b in Ret (with_heap (<[l := b]> (heap o)) o)
      else Ret o
  end.

Fixpoint add_all (dm : DataModel) (ls : list nat) (o : Handler) : outcome Handler :=
  match ls with
  | [] => Ret o
  | l :: ls => let! o := add_one dm l o in add_all dm ls o
  end.

Definition Add (dm : DataModel) (o : Handler) : outcome Handler :=
  if decide (size (workers o) = 0) then Ret o
  else add_all dm (snd <$> range_kv "Handler.Add" (workers o)) o.

(** ** All interleavings

    [Notice]: some goroutine adds a notice; [Turn]: the goroutine of an output takes a
    turn; [Tick]: the goroutine of an index takes one; [Round]: the minute is over and the
    documents are read; [Advance]: the round takes its next action.  An action whose
    goroutine waits changes nothing. *)
Inductive action :=
| Notice (dm : DataModel)
| Turn (w : world) (l : nat)
| Tick (t : civil) (l : nat)
| Round (docs : option (list (option OutputerConfig)))
| Advance (w : world).

Definition turn (w : world) (l : nat) (o : Handler) : Handler :=
  match heap o !! l with
  | None => o
  | Some b =>
      match step_in w b with
      | None => o
      | Some (b, out) => with_log (log o ++ (pair l <$> out)) (with_heap (<[l := b]> (heap o)) o)
      end
  end.

Definition tick (t : civil) (l : nat) (o : Handler) : Handler :=
  match heap o !! l with
  | Some (WEs b) => with_heap (<[l := WEs (ESRefreshIndex t b)]> (heap o)) o
  | _ => o
  end.

Definition act (a : action) (o : Handler) : outcome Handler :=
  match a with
  | Notice dm => Add dm o
  | Turn w l => Ret (turn w l o)
  | Tick t l => Ret (tick t l o)
  | Round docs => Ret (if decide (todo o = []) then begin_round docs o else o)
  | Advance w =>
      match todo o with
      | [] => Ret o
      | t :: ts => let! (o, more) := exec w t o in Ret (with_todo (more ++ ts) o)
      end
  end.

Fixpoint run (acts : list action) (o : Handler) : outcome Handler :=
  match acts with
  | [] => Ret o
  | a :: acts => let! o := act a o in run acts o
  end.

(** ** What the actions leave alone *)

(** References are in the heap, and no output serves two configurations. *)
Definition wf (o : Handler) : Prop :=
  (∀ id l, workers o !! id = Some l → l < length (heap o)) ∧
  (∀ id id' l, workers o !! id = Some l → workers o !! id' = Some l → id = id').

(** What [outputs] the output at [l] has sent. *)
Definition outs (l : nat) (o : Handler) : list sent := snd <$> filter (λ e, e.1 = l) (log o).

(** The notices among the actions. *)
Definition noticed (acts : list action) : list DataModel :=
  omap (λ a, match a with Notice dm => Some dm | _ => None end) acts.

Lemma run_app acts acts' o : run (acts ++ acts') o = obind (run acts o) (run acts').
Proof. revert o. induction acts as [|a acts IH]; intros o; simpl; [done|]. destruct (act a o); simpl; [apply IH|done]. Qed.

Lemma close_at_frame l o o' : close_at l o = Ret o' → ∃ h, o' = with_heap h o ∧ length h = length (heap o).
Proof.
  unfold close_at. destruct l as [l|]; [|by intros [= <-]; exists (heap o); destruct o].
  destruct (heap o !! l) as [b|]; [|by intros [= <-]; exists (heap o); destruct o].
  destruct (Close b) as [b'|]; simpl; [|done]. intros [= <-]. exists (<[l:=b']> (heap o)). by rewrite length_insert.
Qed.

Lemma close_at_lookup l o o' l' b :
  close_at l o = Ret o' → heap o !! l' = Some b →
  ∃ b', heap o' !! l' = Some b' ∧ (b' = b ∨ Close b = Ret b').
Proof.
  unfold close_at. destruct l as [l|]; [|intros [= <-]; eauto].
  destruct (heap o !! l) as [c|] eqn:El; [|intros [= <-]; eauto].
  destruct (Close c) as [c'|] eqn:Ec; simpl; [|done]. intros [= <-] Hl. simpl.
  destruct (decide (l = l')) as [->|]; [|rewrite list_lookup_insert_ne by done; eauto].
  simplify_eq. exists c'. rewrite list_lookup_insert_eq by (by eapply lookup_lt_Some). eauto.
Qed.

Lemma add_one_frame dm l o o' : add_one dm l o = Ret o' → ∃ h, o' = with_heap h o ∧ length h = length (heap o).
Proof.
  unfold add_one. destruct (heap o !! l) as [b|]; [|by intros [= <-]; exists (heap o); destruct o].
  destruct (HitModel b _); [|by intros [= <-]; exists (heap o); destruct o].
  destruct (SendMsg _ b) as [b'|]; simpl; [|done]. intros [= <-]. exists (<[l:=b']> (heap o)). by rewrite length_insert.
Qed.

(** What a notice does to an output. *)
Definition noticed_by (dm : DataModel) (b b' : worker) : Prop :=
  if HitModel b (HitInfoOf dm) then SendMsg (Some dm) b = Ret b' else b' = b.

Lemma add_one_lookup dm l o o' l' b :
  add_one dm l o = Ret o' → heap o !! l' = Some b →
  ∃ b', heap o' !! l' = Some b' ∧ if decide (l' = l) then noticed_by dm b b' else b' = b.
Proof.
  unfold add_one, noticed_by. intros Ha Hl. destruct (heap o !! l) as [c|] eqn:El.
  - destruct (decide (l' = l)) as [->|].
    + assert (c = b) as -> by congruence. destruct (HitModel b _); [|simplify_eq; eauto].
      destruct (SendMsg _ b) as [b'|]; simplify_eq/=. exists b'.
      by rewrite list_lookup_insert_eq by (by eapply lookup_lt_Some).
    + destruct (HitModel c _); [|simplify_eq; eauto]. destruct (SendMsg _ c); simplify_eq/=.
      rewrite list_lookup_insert_ne by done. eauto.
  - injection Ha as <-. exists b. by rewrite decide_False by congruence.
Qed.

Lemma add_all_frame dm ls o o' : add_all dm ls o = Ret o' → ∃ h, o' = with_heap h o ∧ length h = length (heap o).
Proof.
  revert o. induction ls as [|l ls IH]; intros o; simpl; [by intros [= <-]; exists (heap o); destruct o|].
  destruct (add_one dm l o) as [o1|] eqn:E; simpl; [|done]. intros Hr.
  apply add_one_frame in E as (h1 & -> & Hh1). apply IH in Hr as (h2 & -> & Hh2). exists h2. split; [done|].
  simpl in Hh2. congruence.
Qed.

Lemma add_all_lookup dm ls o o' l b :
  NoDup ls → add_all dm ls o = Ret o' → heap o !! l = Some b →
  ∃ b', heap o' !! l = Some b' ∧ if decide (l ∈ ls) then noticed_by dm b b' else b' = b.
Proof.
  intros Hnd. revert o b. induction Hnd as [|l1 ls Hin Hnd IH]; intros o b; cbn [add_all].
  { intros [= <-] ?. exists b. split; [done|]. by case_decide as Hn; [apply not_elem_of_nil in Hn|]. }
  destruct (add_one dm l1 o) as [o1|] eqn:E; simpl; [|done]. intros Hr Hl.
  destruct (add_one_lookup _ _ _ _ _ _ E Hl) as (b1 & Hl1 & Hb1).
  destruct (IH _ _ Hr Hl1) as (b2 & Hl2 & Hb2). exists b2. split; [done|].
  destruct (decide (l = l1)) as [->|].
  - rewrite decide_True by set_solver. rewrite decide_False in Hb2 by done. by subst.
  - subst b1. destruct (decide (l ∈ ls)); [rewrite decide_True by set_solver|rewrite decide_False by set_solver]; done.
Qed.

Lemma refs_NoDup o tag : wf o → NoDup (snd <$> range_kv tag (workers o)).
Proof.
  intros [_ Hinj]. rewrite range_kv_perm. apply NoDup_fmap_2_strong; [|apply NoDup_map_to_list].
  intros [k x] [k' x'] ?%elem_of_map_to_list ?%elem_of_map_to_list; simpl; intros <-.
  by rewrite (Hinj k k' x).
Qed.

Lemma elem_of_refs o tag l : l ∈ snd <$> range_kv tag (workers o) ↔ ∃ id, workers o !! id = Some l.
Proof.
  rewrite range_kv_perm, list_elem_of_fmap. split.
  - intros ([k x] & -> & ?%elem_of_map_to_list). eauto.
  - intros (id & Hid). exists (id, l). split; [done|]. by apply elem_of_map_to_list.
Qed.

(** [Add] reaches every output of the handler, once, and no other. *)
Lemma Add_lookup dm o o' l b :
  wf o → Add dm o = Ret o' → heap o !! l = Some b →
  ∃ b', heap o' !! l = Some b' ∧
    ((∃ id, workers o !! id = Some l) ∧ noticed_by dm b b' ∨ (¬ ∃ id, workers o !! id = Some l) ∧ b' = b).
Proof.
  unfold Add. intros Hwf Ha Hl. case_decide as Hs.
  { simplify_eq. exists b. split; [done|]. right. split; [|done]. intros (id & Hid).
    apply map_size_empty_inv in Hs. by rewrite Hs, lookup_empty in Hid. }
  destruct (add_all_lookup _ _ _ _ _ _ (refs_NoDup _ _ Hwf) Ha Hl) as (b' & ? & Hb). exists b'. split; [done|].
  case_decide as Hin; rewrite elem_of_refs in Hin; eauto.
Qed.

Lemma Add_frame dm o o' : Add dm o = Ret o' → ∃ h, o' = with_heap h o ∧ length h = length (heap o).
Proof.
  unfold Add. case_decide; [by intros [= <-]; exists (heap o); destruct o|]. apply add_all_frame.
Qed.

(** *** A round *)

Lemma UpdateConfig_cases w conf o err o' :
  UpdateConfig w conf o = Ret (err, o') →
  (is_Some err ∧ o' = o) ∨
  (∃ b, err = None ∧ start w conf = Ret (inr b) ∧
     o' = with_workers (<[ID conf := length (heap o)]> (workers o)) (with_heap (heap o ++ [b]) o)).
Proof.
  unfold UpdateConfig. case_decide; [intros [= <- <-]; left; eauto|].
  destruct (start w conf) as [[e|b]|]; simpl; intros ?; simplify_eq; [left|right]; eauto.
Qed.

Lemma start_conf_cases w conf o o' :
  start_conf w conf o = Ret o' →
  (o' = with_configs (<[ID conf := (-1)%Z]> (configMap o)) o) ∨
  (∃ b, start w conf = Ret (inr b) ∧
     o' = with_configs (<[ID conf := UpdateTime conf]> (configMap o))
            (with_workers (<[ID conf := length (heap o)]> (workers o)) (with_heap (heap o ++ [b]) o))).
Proof.
  unfold start_conf. destruct (UpdateConfig w conf o) as [[err o1]|] eqn:E; simpl; [|done]. intros [= <-].
  apply UpdateConfig_cases in E as [[[e ->] ->]|(b & -> & Hs & ->)]; [by left|right]. exists b. by destruct o.
Qed.

Lemma exec_lookup w t o o' ts l b :
  exec w t o = Ret (o', ts) → heap o !! l = Some b →
  ∃ b', heap o' !! l = Some b' ∧ (b' = b ∨ Close b = Ret b').
Proof.
  intros He Hl. destruct t as [[conf|]|id|conf| |k|l' k]; simpl in He.
  - repeat case_match; simplify_eq/=; eauto.
  - simplify_eq. eauto.
  - destruct (close_at _ o) as [o1|] eqn:E; simplify_eq/=. by eapply close_at_lookup.
  - destruct (start_conf _ _ o) as [o1|] eqn:E; simplify_eq/=.
    apply start_conf_cases in E as [->|(b' & ? & ->)]; simpl; [eauto|].
    exists b. split; [by apply lookup_app_l_Some|by left].
  - simplify_eq. eauto.
  - simplify_eq. eauto.
  - destruct (close_at l' o) as [o1|] eqn:E; simplify_eq/=. by eapply close_at_lookup.
Qed.

Lemma exec_log w t o o' ts : exec w t o = Ret (o', ts) → log o' = log o.
Proof.
  intros He. destruct t as [[conf|]|id|conf| |k|l' k]; simpl in He.
  - repeat case_match; simplify_eq/=; eauto.
  - by simplify_eq.
  - destruct (close_at _ o) as [o1|] eqn:E; simplify_eq/=. by apply close_at_frame in E as (h & -> & _).
  - destruct (start_conf _ _ o) as [o1|] eqn:E; simplify_eq/=.
    by apply start_conf_cases in E as [->|(b' & ? & ->)].
  - by simplify_eq.
  - by simplify_eq.
  - destruct (close_at l' o) as [o1|] eqn:E; simplify_eq/=. by apply close_at_frame in E as (h & -> & _).
Qed.

Lemma wf_same_workers o o' : workers o' = workers o → length (heap o') = length (heap o) → wf o → wf o'.
Proof. intros Hw Hh [H1 H2]. split; rewrite Hw; [rewrite Hh|]; done. Qed.

Lemma start_conf_wf w conf o o' : start_conf w conf o = Ret o' → wf o → wf o'.
Proof.
  intros [->|(b & _ & ->)]%start_conf_cases [H1 H2]; [by apply (wf_same_workers o)|]. split; simpl.
  - intros id l. rewrite length_app, lookup_insert; simpl. case_decide; [intros [= <-]; lia|].
    intros ?%H1. lia.
  - intros id id' l. rewrite !lookup_insert. repeat case_decide; [congruence|..]; intros Ha Hb; [simplify_eq; apply H1 in Hb; lia| |eauto].
    simplify_eq; apply H1 in Ha; lia.
Qed.

Lemma exec_keeps_wf w t o o' ts : exec w t o = Ret (o', ts) → wf o → wf o'.
Proof.
  intros He. destruct t as [[conf|]|id|conf| |k|l' k]; simpl in He.
  - repeat case_match; simplify_eq/=; by apply wf_same_workers.
  - by simplify_eq.
  - destruct (close_at _ o) as [o1|] eqn:E; simplify_eq/=. apply close_at_frame in E as (h & -> & ?). by apply wf_same_workers.
  - destruct (start_conf _ _ o) as [o1|] eqn:E; simplify_eq/=. by apply (start_conf_wf _ _ _ _ E).
  - by simplify_eq.
  - simplify_eq. intros [H1 H2]. split; simpl.
    + intros id l [_ ?]%lookup_delete_Some. eauto.
    + intros id id' l [_ ?]%lookup_delete_Some [_ ?]%lookup_delete_Some. eauto.
  - destruct (close_at l' o) as [o1|] eqn:E; simplify_eq/=. apply close_at_frame in E as (h & -> & ?). by apply wf_same_workers.
Qed.

Lemma act_wf a o o' : act a o = Ret o' → wf o → wf o'.
Proof.
  destruct a as [dm|w l|t l|docs|w]; simpl.
  - intros (h & -> & ?)%Add_frame. by apply wf_same_workers.
  - intros [= <-]. unfold turn. repeat case_match; try done; apply wf_same_workers; simpl; by rewrite ?length_insert.
  - intros [= <-]. unfold tick. repeat case_match; try done; apply wf_same_workers; simpl; by rewrite ?length_insert.
  - intros [= <-]. unfold begin_round. repeat case_match; try done; by apply wf_same_workers.
  - destruct (todo o) as [|t ts]; [by intros [= <-]|]. destruct (exec w t o) as [[o1 more]|] eqn:E; simpl; [|done].
    intros [= <-] Hwf. apply (wf_same_workers o1); [done..|]. by eapply exec_keeps_wf.
Qed.

(** ** Notices on their way to Kafka *)

Definition kafka_message (b : KafkaWorker) (dm : DataModel) : sent := ToKafka (k_topic b) (default "" (Marshal (Data dm))).

Abbreviation waiting b := (chbuf (pending (k_queue b))).
Abbreviation wanted b l := (filter (λ dm, Kafka_HitModel b (HitInfoOf dm) = true) l).

(** [b'] is [b] later, and its goroutine has not met an error. *)
Definition later (b b' : KafkaWorker) : Prop :=
  k_topic b' = k_topic b ∧ Kafka_HitModel b' = Kafka_HitModel b ∧ chcap (pending (k_queue b')) = chcap (pending (k_queue b)).

(** [acc] has been accepted meanwhile: of what waited and of [acc] a first part has been
    sent, and the rest waits. *)
Definition moved (l : nat) (o o' : Handler) (b b' : KafkaWorker) (acc : list DataModel) : Prop :=
  later b b' ∧ ∃ gone, (waiting b ++ acc = gone ++ waiting b')%list ∧
    outs l o' = (outs l o ++ (kafka_message b <$> gone))%list.

Lemma send_kafka dm b b' :
  SendMsg (Some dm) (WKafka b) = Ret b' →
  ∃ q, b' = WKafka (with_k_queue q b) ∧ closed q = false ∧ closed (k_queue b) = false ∧ pending q = send_or_drop dm (pending (k_queue b)).
Proof.
  simpl. unfold Kafka_SendMsg, omap_out, send, obind. destruct (closed (k_queue b)) eqn:E; [done|]. intros [= <-]. eauto.
Qed.

Lemma close_kafka b b' :
  Close (WKafka b) = Ret b' → ∃ k, b' = WKafka k ∧ pending (k_queue k) = pending (k_queue b) ∧ later b k.
Proof.
  simpl. unfold Kafka_Close, omap_out, close, obind. repeat case_match; intros ?; simplify_eq/=. eexists. done.
Qed.

Lemma outs_log l o (es : list (nat * sent)) :
  outs l (with_log (log o ++ es) o) = (outs l o ++ (snd <$> filter (λ e, e.1 = l) es))%list.
Proof. unfold outs. simpl. by rewrite filter_app, fmap_app. Qed.

Lemma own_messages (l : nat) (out : list sent) : snd <$> filter (λ e, e.1 = l) (pair l <$> out) = out.
Proof.
  induction out as [|x out IH]; simpl; [done|]. rewrite filter_cons_True by done. simpl. by f_equal.
Qed.

Lemma other_messages (l l' : nat) (out : list sent) : l' ≠ l → filter (λ e, e.1 = l) (pair l' <$> out) = [].
Proof. intros Hne. induction out as [|x out IH]; simpl; [done|]. by rewrite filter_cons_False. Qed.

Lemma moved_refl l o b : moved l o o b b [].
Proof. split; [done|]. exists []. simpl. by rewrite !app_nil_r. Qed.

(** An action that only touches the heap elsewhere, or closes the queue. *)
Lemma moved_quiet l o o' b b' :
  log o' = log o → later b b' → pending (k_queue b') = pending (k_queue b) → moved l o o' b b' [].
Proof. intros Hl Hb Hp. split; [done|]. exists []. unfold outs. simpl. by rewrite Hl, Hp, !app_nil_r. Qed.

Definition marshals (dms : list DataModel) : Prop := Forall (λ dm, is_Some (Marshal (Data dm))) dms.

(** A turn of the goroutine. *)
Lemma turn_kafka w l' l o b :
  heap o !! l = Some (WKafka b) → marshals (waiting b) →
  ∃ b', heap (turn w l' o) !! l = Some (WKafka b') ∧ moved l o (turn w l' o) b b' [] ∧
    closed (k_queue b') = closed (k_queue b) ∧ (k_running b = true → closed (k_queue b) = false → k_running b' = true) ∧
    (k_running b = true → l' = l → waiting b' = tail (waiting b)).
Proof.
  intros Hl Hm. unfold turn. destruct (decide (l' = l)) as [->|Hne].
  - rewrite Hl. simpl. unfold Kafka_WaitForInputMsg, receive, try_recv.
    destruct (k_running b) eqn:Er; simpl; [|exists b; split_and!; eauto using moved_refl; congruence].
    destruct (waiting b) as [|dm q] eqn:Eq; simpl.
    + destruct (closed (k_queue b)) eqn:Ec; simpl; [|exists b; rewrite Eq; split_and!; eauto using moved_refl].
      eexists. rewrite list_lookup_insert_eq by (by eapply lookup_lt_Some). split; [done|]. rewrite app_nil_r. simpl.
      split; [|done]. by apply moved_quiet.
    + inversion_clear Hm as [|? ? [bv Hbv] _]. rewrite Hbv. simpl. eexists.
      rewrite list_lookup_insert_eq by (by eapply lookup_lt_Some). split; [done|]. simpl. split; [|done].
      split; [done|]. exists [dm]. unfold outs. simpl. rewrite filter_app, fmap_app, app_nil_r, Eq. split; [done|]. simpl.
      assert (kafka_message b dm = ToKafka (k_topic b) bv) as -> by (unfold kafka_message; by rewrite Hbv).
      by rewrite filter_cons_True by done.
  - exists b. destruct (heap o !! l') as [c|] eqn:El; [|split_and!; eauto using moved_refl; congruence].
    destruct (step_in w c) as [[c' out]|]; [|split_and!; eauto using moved_refl; congruence]. simpl. rewrite list_lookup_insert_ne by done.
    split; [done|]. split; [|split_and!; eauto; congruence]. split; [done|]. exists [].
    unfold outs. simpl. rewrite filter_app, (other_messages _ _ _ Hne), !app_nil_r. done.
Qed.

Lemma tick_kafka t l' l o b : heap o !! l = Some (WKafka b) → heap (tick t l' o) !! l = Some (WKafka b) ∧ log (tick t l' o) = log o.
Proof.
  intros Hl. unfold tick. destruct (heap o !! l') as [[]|] eqn:El; try done. simpl. split; [|done].
  rewrite list_lookup_insert_ne by congruence. done.
Qed.

(** A notice: accepted if the output is one of the handler, it hits and there is room. *)
Lemma Add_kafka dm l o o' b :
  wf o → Add dm o = Ret o' → heap o !! l = Some (WKafka b) →
  ∃ b' acc, heap o' !! l = Some (WKafka b') ∧ moved l o o' b b' acc ∧ acc `sublist_of` wanted b [dm] ∧
    closed (k_queue b') = closed (k_queue b) ∧ k_running b' = k_running b ∧
    ((∃ id, workers o !! id = Some l) → (length (waiting b) + length (wanted b [dm]) ≤ chcap (pending (k_queue b)))%nat →
       acc = wanted b [dm] ∧ waiting b' = (waiting b ++ acc)%list).
Proof.
  intros Hwf Ha Hl. destruct (Add_frame _ _ _ Ha) as (h & -> & Hh).
  destruct (Add_lookup _ _ _ _ _ Hwf Ha Hl) as (b0 & Hl' & Hb). simpl in *.
  assert ((∃ id, workers o !! id = Some l) ∧ Kafka_HitModel b (HitInfoOf dm) = true ∧ SendMsg (Some dm) (WKafka b) = Ret b0 ∨
    (Kafka_HitModel b (HitInfoOf dm) = true → ¬ ∃ id, workers o !! id = Some l) ∧ b0 = WKafka b) as [(Hid & Hh' & Hs)|[Hno ->]].
  { unfold noticed_by in Hb. change (HitModel (WKafka b)) with (Kafka_HitModel b) in Hb.
    destruct Hb as [[? Hb]|[? ->]]; [|by right]. destruct (Kafka_HitModel b _); [by left|right; naive_solver]. }
  - apply send_kafka in Hs as (q & -> & Hq & Hc & Hp). rewrite filter_cons_True by done. rewrite filter_nil.
    exists (with_k_queue q b), (if decide (length (waiting b) < chcap (pending (k_queue b))) then [dm] else []).
    split; [done|]. split; [|split; [case_decide; [reflexivity|apply sublist_nil_l]|]].
    + split; [unfold later; simpl; by rewrite Hp, send_or_drop_cap|]. exists []. simpl. rewrite Hp, send_or_drop_buf.
      by case_decide; rewrite ?app_nil_r.
    + simpl. split; [congruence|]. split; [done|]. intros _ Hlen.
      rewrite !decide_True by lia. by rewrite Hp, send_or_drop_buf, decide_True by lia.
  - exists b, []. split; [done|]. split; [by apply moved_quiet|]. split; [apply sublist_nil_l|]. do 2 (split; [done|]).
    intros Hid _. destruct (Kafka_HitModel b (HitInfoOf dm)) eqn:E; [naive_solver|].
    rewrite filter_cons_False by (by rewrite E). by rewrite app_nil_r.
Qed.

Lemma moved_trans l o o1 o2 b b1 b2 acc acc' :
  moved l o o1 b b1 acc → moved l o1 o2 b1 b2 acc' → moved l o o2 b b2 (acc ++ acc').
Proof.
  intros [(Ht & Hh & Hc) (g & Hg & H1)] [(Ht' & Hh' & Hc') (g' & Hg' & H2)]. split; [unfold later; split_and!; congruence|].
  assert (kafka_message b1 = kafka_message b) as Hk by (unfold kafka_message; by rewrite Ht). rewrite Hk in H2.
  exists (g ++ g')%list. split; [by rewrite app_assoc, Hg, <- !app_assoc, Hg'|by rewrite H2, H1, fmap_app, app_assoc].
Qed.

Lemma act_kafka a l o o' b :
  wf o → act a o = Ret o' → heap o !! l = Some (WKafka b) → marshals (waiting b) →
  ∃ b' acc, heap o' !! l = Some (WKafka b') ∧ moved l o o' b b' acc ∧ acc `sublist_of` wanted b (noticed [a]).
Proof.
  intros Hwf Ha Hl Hm. destruct a as [dm|w l'|t l'|docs|w]; simpl in Ha.
  - destruct (Add_kafka _ _ _ _ _ Hwf Ha Hl) as (b' & acc & ? & ? & ? & _). eauto.
  - injection Ha as <-. destruct (turn_kafka w l' l o b Hl Hm) as (b' & ? & ? & _). exists b', []. eauto.
  - injection Ha as <-. destruct (tick_kafka t l' l o b Hl). exists b, []. split_and!; [done| |done]. by apply moved_quiet.
  - injection Ha as <-. exists b, []. unfold begin_round. split_and!; [|apply moved_quiet; try done|done];
      repeat case_match; done.
  - destruct (todo o) as [|t ts]; [simplify_eq; exists b, []; eauto using moved_refl|].
    destruct (exec w t o) as [[o1 more]|] eqn:E; simplify_eq/=.
    destruct (exec_lookup _ _ _ _ _ _ _ E Hl) as (b' & Hl' & [->|Hc]); pose proof (exec_log _ _ _ _ _ E).
    + exists b, []. split_and!; [done| |done]. by apply moved_quiet.
    + apply close_kafka in Hc as (k & -> & ? & ?). exists k, []. split_and!; [done| |done]. by apply moved_quiet.
Qed.

Lemma noticed_cons a acts : noticed (a :: acts) = (noticed [a] ++ noticed acts)%list.
Proof. unfold noticed. simpl. by destruct a. Qed.

Lemma marshals_sublist l k : l `sublist_of` k → marshals k → marshals l.
Proof. intros Hs Hk. apply Forall_forall. intros x Hx. eapply Forall_forall in Hk; [exact Hk|by eapply elem_of_sublist]. Qed.

Lemma moved_marshals l o o' b b' acc more :
  moved l o o' b b' acc → marshals (waiting b ++ acc ++ more) → marshals (waiting b' ++ more).
Proof.
  intros [_ (g & Hg & _)]. unfold marshals. rewrite app_assoc, Hg, <- app_assoc. by intros [??]%Forall_app.
Qed.

Lemma wanted_same b b1 (l : list DataModel) : later b b1 → wanted b1 l = wanted b l.
Proof. intros (_ & Hh & _). by rewrite Hh. Qed.

(** What a Kafka output has sent and what waits in its queue are, whatever the goroutines
    do meanwhile and in whatever order, notices that hit it, each once and in order. *)
Lemma kafka_in_order acts l o o' b :
  wf o → heap o !! l = Some (WKafka b) → marshals (waiting b ++ noticed acts) → run acts o = Ret o' →
  ∃ b' acc, heap o' !! l = Some (WKafka b') ∧ moved l o o' b b' acc ∧ acc `sublist_of` wanted b (noticed acts).
Proof.
  revert o b. induction acts as [|a acts IH]; intros o b Hwf Hl Hm Hr; simpl in Hr.
  { simplify_eq. exists b, []. eauto using moved_refl. }
  destruct (act a o) as [o1|] eqn:Ea; simpl in Hr; [|done].
  destruct (act_kafka a l o o1 b Hwf Ea Hl) as (b1 & acc1 & Hl1 & Hm1 & Hs1); [by apply Forall_app in Hm as [??]|].
  assert (marshals (waiting b ++ acc1 ++ noticed acts)) as Hm'.
  { rewrite noticed_cons in Hm. unfold marshals in *. rewrite !Forall_app in *. destruct Hm as (? & Hn & ?). split_and!; [done| |done].
    eapply marshals_sublist; [|exact Hn]. etrans; [exact Hs1|apply sublist_filter]. }
  destruct (IH o1 b1) as (b2 & acc2 & Hl2 & Hm2 & Hs2); [by eapply act_wf|done|by eapply moved_marshals|done|].
  exists b2, (acc1 ++ acc2)%list. split; [done|]. split; [by eapply moved_trans|].
  rewrite noticed_cons, filter_app. apply sublist_app; [done|]. by rewrite <- (wanted_same b b1) by apply Hm1.
Qed.

(** *** While the configurations stay as they are *)

Definition quiet (a : action) : bool := match a with Notice _ | Turn _ _ | Tick _ _ => true | _ => false end.

(** The outputs of the handler are open. *)
Definition all_open (o : Handler) : Prop :=
  ∀ id l b, workers o !! id = Some l → heap o !! l = Some b → closed (Queue b) = false.

Lemma send_open dm q q' : send dm q = Ret q' → closed q' = false.
Proof. unfold send. destruct (closed q); [done|]. by intros [= <-]. Qed.

Lemma receive_open q dm q' : receive q = Got dm q' → closed q' = closed q.
Proof. unfold receive. destruct (try_recv _) as [[? ?]|]; [by intros [= <- <-]|by destruct (closed q)]. Qed.

Lemma SendMsg_open dm (b : worker) : closed (Queue b) = false → ∃ b', SendMsg (Some dm) b = Ret b' ∧ closed (Queue b') = false.
Proof.
  intros Hc. pose proof (send_queue dm b) as Hs. destruct (SendMsg (Some dm) b) as [b'|]; [|congruence].
  exists b'. split; [done|]. by eapply send_open, Hs.
Qed.

Lemma noticed_by_open dm b b' : noticed_by dm b b' → closed (Queue b) = false → closed (Queue b') = false.
Proof.
  unfold noticed_by. destruct (HitModel b _); [|by intros ->]. intros Hs Hc.
  destruct (SendMsg_open dm b Hc) as (b2 & Hs2 & ?). rewrite Hs in Hs2. by injection Hs2 as ->.
Qed.

Lemma add_all_total dm ls o :
  NoDup ls → (∀ l b, l ∈ ls → heap o !! l = Some b → closed (Queue b) = false) → ∃ o', add_all dm ls o = Ret o'.
Proof.
  intros Hnd. revert o. induction Hnd as [|l ls Hin Hnd IH]; intros o Ho; simpl; [eauto|].
  assert (∃ o1, add_one dm l o = Ret o1) as [o1 E].
  { unfold add_one. destruct (heap o !! l) as [b|] eqn:El; [|eauto]. destruct (HitModel b _); [|eauto].
    destruct (SendMsg_open dm b) as (b' & -> & _); [eapply Ho; [|exact El]; set_solver|]. simpl. eauto. }
  rewrite E. simpl. apply IH. intros l' b' Hl' Hb'. destruct (add_one_frame _ _ _ _ E) as (h & -> & Hh).
  destruct (lookup_lt_is_Some_2 (heap o) l') as [b Hb]; [rewrite <- Hh; by eapply lookup_lt_Some|].
  destruct (add_one_lookup _ _ _ _ _ _ E Hb) as (b2 & Hb2 & Hc). rewrite decide_False in Hc by (by intros ->).
  simplify_eq. eapply Ho; [|exact Hb]. set_solver.
Qed.

Lemma Add_total dm o : wf o → all_open o → ∃ o', Add dm o = Ret o' ∧ workers o' = workers o ∧ all_open o'.
Proof.
  intros Hwf Ho. assert (∃ o', Add dm o = Ret o') as [o' E].
  { unfold Add. case_decide; [eauto|]. apply add_all_total; [by apply refs_NoDup|].
    intros l b (id & Hid)%elem_of_refs Hb. by eapply Ho. }
  exists o'. split; [done|]. destruct (Add_frame _ _ _ E) as (h & -> & Hh). split; [done|]. intros id l b' Hid Hb'. simpl in *.
  destruct (lookup_lt_is_Some_2 (heap o) l) as [b Hb]; [by eapply Hwf|].
  destruct (Add_lookup _ _ _ _ _ Hwf E Hb) as (b2 & Hb2 & [[_ Hn]|[Hn _]]); [|naive_solver]. simpl in Hb2. simplify_eq.
  eapply noticed_by_open; [exact Hn|]. by eapply Ho.
Qed.

Lemma step_in_open w (b b' : worker) out : step_in w b = Some (b', out) → closed (Queue b) = false → closed (Queue b') = false.
Proof.
  intros [(dm & Hr)|(_ & -> & _)]%step_queue Hc; [|done].
  rewrite <- Hc. by eapply receive_open.
Qed.

Lemma turn_open w l o : workers (turn w l o) = workers o ∧ (all_open o → all_open (turn w l o)).
Proof.
  unfold turn. destruct (heap o !! l) as [b|] eqn:El; [|done]. destruct (step_in w b) as [[b' out]|] eqn:Es; [|done].
  split; [done|]. intros Ho id l' c Hid. simpl in *. destruct (decide (l = l')) as [<-|].
  - rewrite list_lookup_insert_eq by (by eapply lookup_lt_Some). intros [= <-]. eapply step_in_open; [exact Es|]. by eapply Ho.
  - rewrite list_lookup_insert_ne by done. by apply (Ho id).
Qed.

Lemma tick_open t l o : workers (tick t l o) = workers o ∧ (all_open o → all_open (tick t l o)).
Proof.
  unfold tick. destruct (heap o !! l) as [[b|b|b|b]|] eqn:El; try done. split; [done|]. intros Ho id l' c Hid. simpl in *.
  destruct (decide (l = l')) as [<-|].
  - rewrite list_lookup_insert_eq by (by eapply lookup_lt_Some). intros [= <-]. pose proof (Ho _ _ _ Hid El) as Hc. simpl in *.
    unfold ESRefreshIndex. by destruct (es_cancelled b).
  - rewrite list_lookup_insert_ne by done. by apply (Ho id).
Qed.

Lemma quiet_total a o :
  quiet a = true → wf o → all_open o → ∃ o', act a o = Ret o' ∧ workers o' = workers o ∧ all_open o'.
Proof.
  intros Hq Hwf Ho. destruct a as [dm|w l|t l|docs|w]; try done; simpl.
  - by apply Add_total.
  - destruct (turn_open w l o). eauto.
  - destruct (tick_open t l o). eauto.
Qed.

(** A Kafka output of the handler that is at work. *)
Definition working (l : nat) (o : Handler) (b : KafkaWorker) : Prop :=
  wf o ∧ all_open o ∧ (∃ id, workers o !! id = Some l) ∧ heap o !! l = Some (WKafka b) ∧ k_running b = true.

Lemma working_open l o b : working l o b → closed (k_queue b) = false.
Proof. intros (_ & Ho & (id & Hid) & Hl & _). exact (Ho _ _ _ Hid Hl). Qed.

Lemma quiet_kafka a l o b :
  quiet a = true → working l o b → marshals (waiting b) →
  (length (waiting b) + length (wanted b (noticed [a])) ≤ chcap (pending (k_queue b)))%nat →
  ∃ o' b', act a o = Ret o' ∧ working l o' b' ∧ moved l o o' b b' (wanted b (noticed [a])).
Proof.
  intros Hq Hk Hm Hlen. pose proof (working_open _ _ _ Hk) as Hcl. destruct Hk as (Hwf & Ho & Hid & Hl & Hr).
  destruct (quiet_total a o Hq Hwf Ho) as (o' & Ha & Hw & Ho'). exists o'.
  assert (wf o') by (by eapply act_wf). rewrite <- Hw in Hid. destruct a as [dm|w l'|t l'| |]; try done; simpl in Ha.
  - destruct (Add_kafka _ _ _ _ _ Hwf Ha Hl) as (b' & acc & Hl' & Hmv & _ & Hc' & Hr' & Hacc).
    destruct (Hacc ltac:(by rewrite <- Hw) Hlen) as [-> _]. exists b'. split; [done|]. split; [|done]. split_and!; eauto; congruence.
  - injection Ha as <-. destruct (turn_kafka w l' l o b Hl Hm) as (b' & Hl' & Hmv & Hc' & Hr' & _).
    exists b'. split; [done|]. split; [|done]. split_and!; eauto.
  - injection Ha as <-. destruct (tick_kafka t l' l o b Hl). exists b. split; [done|]. split; [split_and!; eauto|].
    by apply moved_quiet.
Qed.

Lemma moved_length l o o' b b' acc : moved l o o' b b' acc → (length (waiting b') ≤ length (waiting b) + length acc)%nat.
Proof. intros [_ (g & Hg & _)]. apply (f_equal length) in Hg. rewrite !length_app in Hg. lia. Qed.

(** Whenever a notice comes that hits the output at [l], its queue is not full. *)
Definition has_room (l : nat) (a : action) (o : Handler) : Prop :=
  ∀ b dm, a = Notice dm → heap o !! l = Some (WKafka b) → Kafka_HitModel b (HitInfoOf dm) = true →
    (length (waiting b) < chcap (pending (k_queue b)))%nat.

Fixpoint room (l : nat) (acts : list action) (o : Handler) : Prop :=
  match acts with
  | [] => True
  | a :: acts => has_room l a o ∧ ∀ o', act a o = Ret o' → room l acts o'
  end.

Lemma has_room_wanted l a o b :
  has_room l a o → heap o !! l = Some (WKafka b) → (length (waiting b) ≤ chcap (pending (k_queue b)))%nat →
  (length (waiting b) + length (wanted b (noticed [a])) ≤ chcap (pending (k_queue b)))%nat.
Proof.
  intros Hr Hl Hle. destruct a as [dm| | | |]; [|simpl; lia..]. change (noticed [Notice dm]) with [dm].
  rewrite filter_cons. case_decide as Hh; simpl; [|lia]. specialize (Hr b dm eq_refl Hl Hh). lia.
Qed.

Lemma quiet_run acts l o b :
  Forall (λ a, quiet a = true) acts → working l o b → marshals (waiting b ++ wanted b (noticed acts)) →
  (length (waiting b) ≤ chcap (pending (k_queue b)))%nat → room l acts o →
  ∃ o' b', run acts o = Ret o' ∧ working l o' b' ∧ moved l o o' b b' (wanted b (noticed acts)) ∧
    (length (waiting b') ≤ chcap (pending (k_queue b')))%nat.
Proof.
  intros Hq. revert o b. induction Hq as [|a acts Ha Hq IH]; intros o b Hk Hm Hlen Hroom; cbn [run].
  { exists o, b. eauto using moved_refl. }
  destruct Hroom as [Hra Hroom]. rewrite noticed_cons, filter_app in Hm |- *.
  assert (heap o !! l = Some (WKafka b)) as Hl by apply Hk.
  pose proof (has_room_wanted l a o b Hra Hl Hlen) as Hfit.
  assert (marshals (waiting b)) as Hm1 by (unfold marshals in *; by apply Forall_app in Hm as [? _]).
  destruct (quiet_kafka a l o b Ha Hk Hm1 Hfit) as (o1 & b1 & Ea & Hk1 & Hmv). rewrite Ea. simpl.
  pose proof (moved_length _ _ _ _ _ _ Hmv). assert (later b b1) as Hlt by apply Hmv. pose proof Hlt as (_ & _ & Hcap).
  destruct (IH o1 b1 Hk1) as (o2 & b2 & Hr & Hk2 & Hmv2 & Hlen2).
  - rewrite (wanted_same b b1) by done. by eapply moved_marshals.
  - lia.
  - by apply Hroom.
  - exists o2, b2. split; [done|]. split; [done|]. split; [|done]. rewrite <- (wanted_same b b1 (noticed acts)) by done.
    by eapply moved_trans.
Qed.

(** Turns enough empty the queue. *)
Lemma flush_kafka w l n o b :
  working l o b → marshals (waiting b) → (length (waiting b) ≤ n)%nat →
  ∃ o' b', run (replicate n (Turn w l)) o = Ret o' ∧ moved l o o' b b' [] ∧ waiting b' = [].
Proof.
  revert o b. induction n as [|n IH]; intros o b Hk Hm Hn; simpl.
  { exists o, b. split; [done|]. split; [apply moved_refl|]. apply nil_length_inv. lia. }
  pose proof (working_open _ _ _ Hk) as Hcl. destruct Hk as (Hwf & Ho & Hid & Hl & Hr).
  destruct (turn_kafka w l l o b Hl Hm) as (b1 & Hl1 & Hmv & Hc1 & Hr1 & Htl). destruct (turn_open w l o) as [Hw Ho1].
  specialize (Htl Hr eq_refl). destruct (IH (turn w l o) b1) as (o2 & b2 & Hrun & Hmv2 & He).
  - split_and!; [by eapply (act_wf (Turn w l))|auto|by rewrite Hw|done|auto].
  - rewrite Htl. destruct (waiting b); [done|]. by apply Forall_cons in Hm as [??].
  - rewrite Htl. destruct (waiting b); simpl in *; lia.
  - exists o2, b2. split; [done|]. split; [|done]. by apply (moved_trans _ _ _ _ _ _ _ [] [] Hmv Hmv2).
Qed.

(** *** Theorems *)

(** Whatever happens in between, in whatever order: what a Kafka output sends are notices
    that hit it and that were added, each once and in the order they were added; those it
    has accepted and not sent wait in its queue. *)
Theorem notices_in_order acts l o o' b :
  wf o → heap o !! l = Some (WKafka b) → waiting b = [] → marshals (noticed acts) → run acts o = Ret o' →
  ∃ b' acc, heap o' !! l = Some (WKafka b') ∧ acc `sublist_of` wanted b (noticed acts) ∧
    (outs l o' ++ (kafka_message b <$> waiting b') = outs l o ++ (kafka_message b <$> acc))%list.
Proof.
  intros Hwf Hl He Hm Hr. destruct (kafka_in_order acts l o o' b Hwf Hl) as (b' & acc & ? & [_ (g & Hg & Ho)] & ?); [by rewrite He|done|].
  exists b', acc. split_and!; [done..|]. rewrite He in Hg. simpl in Hg. by rewrite Ho, Hg, fmap_app, app_assoc.
Qed.


(** A notice that cannot be marshalled ends the goroutine of the output. *)
Lemma unmarshalled_ends b dm q :
  k_running b = true → receive (k_queue b) = Got dm q → Marshal (Data dm) = None →
  Kafka_WaitForInputMsg b = Some (k_end (with_k_queue q b), []) ∧ Kafka_WaitForInputMsg (k_end (with_k_queue q b)) = None.
Proof. intros Hr Hq Hm. unfold Kafka_WaitForInputMsg. by rewrite Hr, Hq, Hm. Qed.

(** ** The handler follows the configurations *)

(** An open output that takes what the configuration says. *)
Definition served (conf : OutputerConfig) (o : Handler) : Prop :=
  configMap o !! ID conf = Some (UpdateTime conf) ∧
  ∃ l b, workers o !! ID conf = Some l ∧ heap o !! l = Some b ∧ closed (Queue b) = false ∧
    HitModel b = hits (Type_ conf) (level_map_of conf).

Definition is_open (conf : OutputerConfig) : Prop := Status conf = ConfigOutputerOpen.
#[local] Instance is_open_dec conf : Decision (is_open conf) := decide (Status conf = ConfigOutputerOpen).

(** The open configurations of [docs], and no others, are served. *)
Definition in_step (docs : list OutputerConfig) (o : Handler) : Prop :=
  (∀ conf, conf ∈ docs → is_open conf → served conf o) ∧
  (∀ id, is_Some (workers o !! id) ∨ is_Some (configMap o !! id) → ∃ conf, conf ∈ docs ∧ is_open conf ∧ ID conf = id).

(** [Close] of the output of [id] returns. *)
Definition closable (id : string) (o : Handler) : Prop :=
  ∀ l b, workers o !! id = Some l → heap o !! l = Some b → ∃ b', Close b = Ret b'.

(** From [o] to [o'] only what [ids] refer to has changed; no queue has lost anything. *)
Definition changes (ids : gset string) (o o' : Handler) : Prop :=
  (wf o → wf o') ∧
  (∀ id, id ∉ ids → workers o' !! id = workers o !! id ∧ configMap o' !! id = configMap o !! id) ∧
  (wf o → ∀ id l, id ∉ ids → workers o !! id = Some l → heap o' !! l = heap o !! l) ∧
  (∀ l b, heap o !! l = Some b → ∃ b', heap o' !! l = Some b' ∧ pending (Queue b') = pending (Queue b)).

Lemma changes_refl o : changes ∅ o o.
Proof. split_and!; eauto. Qed.

Lemma changes_trans X Y o o1 o2 : changes X o o1 → changes Y o1 o2 → changes (X ∪ Y) o o2.
Proof.
  intros (Hw & Hm & Hh & Hp) (Hw' & Hm' & Hh' & Hp'). split_and!; [auto| | |].
  - intros id Hid. destruct (Hm id), (Hm' id); [set_solver..|]. split; congruence.
  - intros Hwf id l Hid Hl. assert (id ∉ X ∧ id ∉ Y) as [HX HY] by set_solver. rewrite (Hh' (Hw Hwf) id), (Hh Hwf id); try done.
    by rewrite (proj1 (Hm id HX)).
  - intros l b Hb. destruct (Hp l b Hb) as (b1 & Hb1 & E1), (Hp' l b1) as (b2 & ? & E2); [done|]. exists b2. split; [done|congruence].
Qed.

Lemma changes_mono X Y o o' : X ⊆ Y → changes X o o' → changes Y o o'.
Proof. intros HXY (Hw & Hm & Hh & Hp). split_and!; [done|intros; apply Hm; set_solver|intros Hwf id l ??; apply (Hh Hwf id); set_solver|done]. Qed.

Lemma changes_served X conf o o' : wf o → changes X o o' → ID conf ∉ X → served conf o → served conf o'.
Proof.
  intros Hwf (_ & Hm & Hh & _) Hid (Hc & l & b & Hl & Hb & Hq). destruct (Hm _ Hid) as [Ew Ec].
  split; [congruence|]. exists l, b. rewrite Ew, (Hh Hwf _ _ Hid Hl). done.
Qed.

Lemma changes_closable X id o o' : wf o → changes X o o' → id ∉ X → closable id o → closable id o'.
Proof.
  intros Hwf (_ & Hm & Hh & _) Hid Hc l b. destruct (Hm _ Hid) as [-> _]. intros Hl. rewrite (Hh Hwf _ _ Hid Hl). by apply Hc.
Qed.

(** The round goes on from [o] to [o']. *)
Definition advances (w : world) (o o' : Handler) : Prop := ∃ n, run (replicate n (Advance w)) o = Ret o'.

Lemma advances_refl w o : advances w o o.
Proof. by exists 0. Qed.

Lemma advances_step w t ts o o1 more o' :
  todo o = t :: ts → exec w t o = Ret (o1, more) → advances w (with_todo (more ++ ts) o1) o' → advances w o o'.
Proof. intros Ht He [n Hn]. exists (S n). simpl. rewrite Ht, He. done. Qed.

Lemma advances_trans w o o1 o2 : advances w o o1 → advances w o1 o2 → advances w o o2.
Proof. intros [n Hn] [m Hm]. exists (n + m). by rewrite replicate_add, run_app, Hn. Qed.

Lemma start_served w conf b :
  start w conf = Ret (inr b) → closed (Queue b) = false ∧ HitModel b = hits (Type_ conf) (level_map_of conf).
Proof.
  unfold start, Kafka_Init, Es_Init, Hub_Init, Syslog_Init, omap_out, obind. intros Hs.
  repeat (case_match || case_decide); simplify_eq/=; done.
Qed.

Lemma with_todo_changes t o : changes ∅ o (with_todo t o).
Proof. split_and!; eauto. Qed.

Lemma with_dels_changes m o : changes ∅ o (with_dels m o).
Proof. split_and!; eauto. Qed.

Lemma close_pending q q' : close q = Ret q' → pending q' = pending q.
Proof. unfold close. destruct (closed q); [done|]. by intros [= <-]. Qed.

Lemma close_queue_pending (b b' : worker) : Close b = Ret b' → pending (Queue b') = pending (Queue b).
Proof. intros [Hc _]%close_queue. by apply close_pending. Qed.

(** Closing the output of [id], which is still referred to or has just been removed. *)
Lemma close_at_changes id o : closable id o → wf o → ∃ o', close_at (workers o !! id) o = Ret o' ∧ changes {[id]} o o' ∧
  toDelMap o' = toDelMap o ∧ todo o' = todo o ∧ workers o' = workers o ∧ configMap o' = configMap o ∧ length (heap o') = length (heap o).
Proof.
  intros Hc Hwf. assert (∃ o', close_at (workers o !! id) o = Ret o') as [o' E].
  { unfold close_at. destruct (workers o !! id) as [l|] eqn:El; [|eauto]. destruct (heap o !! l) as [b|] eqn:Eb; [|eauto].
    destruct (Hc l b El Eb) as [b' ->]. simpl. eauto. }
  exists o'. split; [done|]. destruct (close_at_frame _ _ _ E) as (h & -> & Hh). split; [|done]. split_and!.
  - intros. by apply (wf_same_workers o).
  - done.
  - intros _ id' l' Hid Hl'. revert E. unfold close_at. destruct (workers o !! id) as [l|] eqn:El; [|by intros [= <-]].
    destruct (heap o !! l) as [b|] eqn:Eb; [|by intros [= <-]]. destruct (Close b) as [b'|]; simpl; [|done]. intros [= <-].
    apply list_lookup_insert_ne. intros <-. apply Hid. apply elem_of_singleton. by eapply Hwf.
  - intros l b Hb. destruct (close_at_lookup _ _ _ _ _ E Hb) as (b' & Hb' & [->|Hcl]); [eauto|].
    exists b'. split; [done|]. by apply close_queue_pending.
Qed.

Lemma start_conf_changes w conf o b :
  is_open conf → start w conf = Ret (inr b) →
  ∃ o', start_conf w conf o = Ret o' ∧ changes {[ID conf]} o o' ∧ served conf o' ∧ toDelMap o' = toDelMap o ∧ todo o' = todo o.
Proof.
  intros Hop Hs. eexists. unfold start_conf, UpdateConfig. rewrite decide_False by (unfold is_open in Hop; tauto). rewrite Hs. simpl. split; [done|].
  split; [|split; [|done]].
  - split_and!; simpl.
    + apply (start_conf_wf w conf). unfold start_conf, UpdateConfig. rewrite decide_False by (unfold is_open in Hop; tauto). by rewrite Hs.
    + intros id Hid%not_elem_of_singleton. by rewrite !lookup_insert_ne.
    + intros Hwf id l _ Hl. apply lookup_app_l. by eapply Hwf.
    + intros l b' Hb. exists b'. split; [by apply lookup_app_l_Some|done].
  - destruct (start_served _ _ _ Hs). split; simpl; [by rewrite lookup_insert_eq|]. exists (length (heap o)), b.
    rewrite lookup_insert_eq. split_and!; try done. by apply list_lookup_middle.
Qed.

(** What a configuration needs so that its turn in a round ends well. *)
Definition ready (w : world) (conf : OutputerConfig) (o : Handler) : Prop :=
  (configMap o !! ID conf = Some (UpdateTime conf) → served conf o) ∧
  (∃ b, start w conf = Ret (inr b)) ∧ closable (ID conf) o.

Lemma changes_ready X w conf o o' : wf o → changes X o o' → ID conf ∉ X → ready w conf o → ready w conf o'.
Proof.
  intros Hwf Hch Hid (Hs & Hst & Hc). split_and!; [|done|by eapply changes_closable].
  pose proof Hch as (_ & Hm & _). intros E. eapply changes_served; [done|exact Hch|done|]. apply Hs.
  by rewrite <- (proj2 (Hm _ Hid)).
Qed.

(** The turn of an open configuration. *)
Lemma visit_open w conf ts o :
  wf o → todo o = Visit (Some conf) :: ts → is_open conf → ready w conf o →
  ∃ o', advances w o o' ∧ todo o' = ts ∧ changes {[ID conf]} o o' ∧ served conf o' ∧ toDelMap o' = delete (ID conf) (toDelMap o) ∧
    (configMap o !! ID conf = Some (UpdateTime conf) → workers o' = workers o).
Proof.
  intros Hwf Ht Hop (Hs & [b Hst] & Hc). set (o0 := with_dels (delete (ID conf) (toDelMap o)) o).
  assert (changes {[ID conf]} o o0) as Hch0 by (apply (changes_mono ∅); [set_solver|apply with_dels_changes]).
  assert (∀ o1, changes {[ID conf]} o0 o1 → changes {[ID conf]} o o1) as Hch
    by (intros o1 H1; apply (changes_mono ({[ID conf]} ∪ {[ID conf]})); [set_solver|exact (changes_trans _ _ _ _ _ Hch0 H1)]).
  destruct (configMap o !! ID conf) as [up|] eqn:Eup; [destruct (decide (up = UpdateTime conf)) as [->|Hne]|].
  - exists (with_todo ts o0). split; [|split_and!; try done].
    + eapply advances_step; [exact Ht| |]. { simpl. rewrite decide_True by done. rewrite Eup. by rewrite decide_True. }
      apply advances_refl.
    + by apply Hs.
  - destruct (close_at_changes (ID conf) (with_todo (StopOld (ID conf) :: Start conf :: ts) o0)) as (o1 & Hcl & Hch1 & Hd1 & Ht1 & Hw1 & Hm1 & Hh1); [done..|].
    destruct (start_conf_changes w conf (with_todo (Start conf :: ts) o1) b Hop Hst) as (o2 & Hst2 & Hch2 & Hs2 & Hd2 & Ht2).
    exists (with_todo ts o2). split; [|split_and!].
    + eapply advances_step; [exact Ht| |]. { simpl. rewrite decide_True by done. rewrite Eup. by rewrite decide_False. }
      eapply advances_step; [done| |]. { cbn [exec app]. fold o0. rewrite Hcl. done. }
      eapply advances_step; [done| |]. { cbn [exec app]. fold o0. by rewrite Hst2. } apply advances_refl.
    + done.
    + apply Hch. apply (changes_mono ({[ID conf]} ∪ (∅ ∪ ({[ID conf]} ∪ ∅)))); [set_solver|].
      eapply changes_trans; [exact Hch1|]. eapply changes_trans; [apply with_todo_changes|]. eapply changes_trans; [exact Hch2|].
      apply with_todo_changes.
    + done.
    + simpl. rewrite Hd2. simpl. by rewrite Hd1.
    + congruence.
  - destruct (start_conf_changes w conf (with_todo (Start conf :: ts) o0) b Hop Hst) as (o2 & Hst2 & Hch2 & Hs2 & Hd2 & Ht2).
    exists (with_todo ts o2). split; [|split_and!; try done].
    + eapply advances_step; [exact Ht| |]. { simpl. rewrite decide_True by done. by rewrite Eup. }
      eapply advances_step; [done| |]. { cbn [exec app]. fold o0. by rewrite Hst2. } apply advances_refl.
Qed.

Definition open_ids (docs : list OutputerConfig) : gset string := list_to_set (ID <$> filter is_open docs).

Lemma elem_of_open_ids id docs : id ∈ open_ids docs ↔ ∃ conf, conf ∈ docs ∧ is_open conf ∧ ID conf = id.
Proof.
  unfold open_ids. rewrite elem_of_list_to_set, list_elem_of_fmap. setoid_rewrite list_elem_of_filter. naive_solver.
Qed.

(** The loop over the documents. *)
Lemma visits w docs ts o :
  wf o → todo o = ((Visit ∘ Some <$> docs) ++ ts)%list → NoDup (ID <$> docs) →
  (∀ conf, conf ∈ docs → is_open conf → ready w conf o) →
  ∃ o', advances w o o' ∧ todo o' = ts ∧ changes (open_ids docs) o o' ∧
    (∀ conf, conf ∈ docs → is_open conf → served conf o') ∧
    (∀ k, toDelMap o' !! k = if decide (k ∈ open_ids docs) then None else toDelMap o !! k) ∧
    (∀ conf, conf ∈ docs → configMap o !! ID conf = Some (UpdateTime conf) → workers o' !! ID conf = workers o !! ID conf).
Proof.
  revert o. induction docs as [|conf docs IH]; intros o Hwf Ht Hnd Hr; simpl in Ht.
  { exists o. split; [apply advances_refl|]. split_and!; [done|apply changes_refl|set_solver|done|set_solver]. }
  apply NoDup_cons in Hnd as [Hnew Hnd]. destruct (decide (is_open conf)) as [Hop|Hcl].
  - destruct (visit_open w conf _ o Hwf Ht Hop) as (o1 & Ha & Ht1 & Hch & Hs & Hd & Hkeep); [apply Hr; set_solver|].
    assert (∀ conf', conf' ∈ docs → ID conf' ∉@{gset string} {[ID conf]}) as Hne.
    { intros conf' Hin Heq%elem_of_singleton. apply Hnew. rewrite <- Heq. by apply list_elem_of_fmap_2. }
    destruct (IH o1) as (o2 & Ha2 & Ht2 & Hch2 & Hs2 & Hd2 & Hkeep2); [by apply Hch|done|done| |].
    { intros conf' Hin Hop'. eapply changes_ready; [done|exact Hch|by apply Hne|]. apply Hr; set_solver. }
    assert (ID conf ∉ open_ids docs) as Hid.
    { intros (conf' & Hin & _ & E)%elem_of_open_ids. apply Hnew. rewrite <- E. by apply list_elem_of_fmap_2. }
    assert (open_ids (conf :: docs) = {[ID conf]} ∪ open_ids docs) as Ho by (unfold open_ids; by rewrite filter_cons_True).
    exists o2. rewrite Ho. split; [by eapply advances_trans|]. split_and!; [done|by eapply changes_trans|..].
    + intros conf' [->|Hin]%elem_of_cons Hop'; [|by apply Hs2]. eapply changes_served; [by apply Hch|exact Hch2|done|done].
    + intros k. rewrite Hd2, Hd. destruct (decide (k ∈ open_ids docs)); [rewrite decide_True by set_solver; done|].
      destruct (decide (k = ID conf)) as [->|]; [rewrite lookup_delete_eq, decide_True by set_solver; done|].
      rewrite lookup_delete_ne by done. by rewrite decide_False by set_solver.
    + intros conf' [->|Hin]%elem_of_cons Hup.
      * destruct Hch2 as (_ & Hm & _). rewrite (proj1 (Hm _ Hid)). by rewrite Hkeep.
      * destruct Hch as (_ & Hm & _). destruct (Hm _ (Hne _ Hin)) as [E1 E2]. rewrite <- E1. apply Hkeep2; [done|congruence].
  - destruct (IH (with_todo ((Visit ∘ Some <$> docs) ++ ts) o)) as (o2 & Ha2 & Ht2 & Hch2 & Hs2 & Hd2 & Hkeep2); [done..| |].
    { intros conf' Hin Hop'. apply Hr; set_solver. }
    assert (open_ids (conf :: docs) = open_ids docs) as Ho by (unfold open_ids; by rewrite filter_cons_False).
    exists o2. rewrite Ho. split; [|split_and!].
    + eapply advances_step; [exact Ht| |]; [simpl; by rewrite decide_False|done].
    + done.
    + done.
    + intros conf' [->|Hin]%elem_of_cons Hop'; [done|by apply Hs2].
    + done.
    + intros conf' [->|Hin]%elem_of_cons Hup; [|by apply Hkeep2]. destruct Hch2 as (_ & Hm & _). apply Hm.
      intros (conf' & Hin & _ & E)%elem_of_open_ids. apply Hnew. rewrite <- E. by apply list_elem_of_fmap_2.
Qed.

(** [close_at] only depends on the heap. *)
Lemma close_at_heap l o o2 h : close_at l o = Ret (with_heap h o) → heap o2 = heap o → close_at l o2 = Ret (with_heap h o2).
Proof.
  unfold close_at. intros Hc E. assert (with_heap (heap o) o2 = o2) as Eo by (rewrite <- E; by destruct o2).
  destruct l as [l|]; [|apply (f_equal (λ r, match r with Ret x => heap x | _ => [] end)) in Hc; simpl in Hc; by subst h; rewrite Eo].
  rewrite E. destruct (heap o !! l) as [b|];
    [|apply (f_equal (λ r, match r with Ret x => heap x | _ => [] end)) in Hc; simpl in Hc; by subst h; rewrite Eo].
  destruct (Close b); simpl in *; [|done]. apply (f_equal (λ r, match r with Ret x => heap x | _ => [] end)) in Hc. simpl in Hc. by subst h.
Qed.

(** The removal of one output. *)
Lemma remove_one w k ts o :
  wf o → todo o = Remove k :: ts → closable k o →
  ∃ o', advances w o o' ∧ todo o' = ts ∧ changes {[k]} o o' ∧ workers o' !! k = None ∧ configMap o' !! k = None.
Proof.
  intros Hwf Ht Hc. destruct (close_at_changes k o Hc Hwf) as (o1 & Hcl & Hch & Hd1 & Ht1 & Hw1 & Hm1 & Hh1).
  destruct (close_at_frame _ _ _ Hcl) as (h & -> & Hh).
  exists (with_todo ts (with_configs (delete k (configMap o)) (with_heap h (with_workers (delete k (workers o)) o)))).
  split; [|split_and!; simpl; [done|..|by rewrite lookup_delete_eq|by rewrite lookup_delete_eq]].
  - eapply advances_step; [exact Ht|done|]. eapply advances_step; [done| |].
    { cbn [exec app]. by rewrite (close_at_heap _ _ _ _ Hcl). }
    simpl. apply advances_refl.
  - destruct Hch as (Hw & Hm & Hhp & Hp). split_and!; simpl.
    + intros [H1 H2]. split; simpl; [intros id l [_ ?]%lookup_delete_Some; rewrite Hh; eauto|].
      intros id id' l [_ ?]%lookup_delete_Some [_ ?]%lookup_delete_Some. eauto.
    + intros id Hid%not_elem_of_singleton. by rewrite !lookup_delete_ne by done.
    + done.
    + done.
Qed.

Lemma removes w ks ts o :
  wf o → todo o = ((Remove <$> ks) ++ ts)%list → NoDup ks → (∀ k, k ∈ ks → closable k o) →
  ∃ o', advances w o o' ∧ todo o' = ts ∧ changes (list_to_set ks) o o' ∧
    (∀ k, k ∈ ks → workers o' !! k = None ∧ configMap o' !! k = None).
Proof.
  revert o. induction ks as [|k ks IH]; intros o Hwf Ht Hnd Hc; simpl in Ht.
  { exists o. split; [apply advances_refl|]. split_and!; [done|apply changes_refl|set_solver]. }
  apply NoDup_cons in Hnd as [Hnew Hnd].
  destruct (remove_one w k _ o Hwf Ht) as (o1 & Ha & Ht1 & Hch & Hk); [apply Hc; set_solver|].
  destruct (IH o1) as (o2 & Ha2 & Ht2 & Hch2 & Hk2); [by apply Hch|done|done| |].
  { intros k' Hin. eapply changes_closable; [done|exact Hch| |apply Hc; set_solver]. intros ->%elem_of_singleton. done. }
  exists o2. split; [by eapply advances_trans|]. split; [done|]. split; [exact (changes_trans _ _ _ _ _ Hch Hch2)|].
  intros k' [->|Hin]%elem_of_cons; [|by apply Hk2]. destruct Hch2 as (_ & Hm & _). destruct (Hm k) as [-> ->]; [set_solver|done].
Qed.

Lemma elem_of_keys {A} tag (m : gmap string A) k : k ∈ (range_kv tag m).*1 ↔ is_Some (m !! k).
Proof.
  rewrite range_kv_perm, list_elem_of_fmap. split.
  - intros ([k' v] & -> & ?%elem_of_map_to_list). by exists v.
  - intros [v Hv]. exists (k, v). split; [done|]. by apply elem_of_map_to_list.
Qed.

(** The time of a configuration identifies it. *)
Definition timed (old docs : list OutputerConfig) : Prop :=
  ∀ conf conf', conf ∈ old → conf' ∈ docs → ID conf = ID conf' → UpdateTime conf = UpdateTime conf' →
    Type_ conf = Type_ conf' ∧ LevelList conf = LevelList conf'.

Lemma in_step_ready w old docs conf o :
  in_step old o → closable (ID conf) o → timed old docs → conf ∈ docs → (∃ b, start w conf = Ret (inr b)) →
  ready w conf o.
Proof.
  intros [Hold Honly] Hc Htime Hin Hst. split_and!; [|done..]. intros Hup.
  destruct (Honly (ID conf)) as (conf0 & Hin0 & Hop0 & Eid); [right; eexists; exact Hup|].
  destruct (Hold _ Hin0 Hop0) as (Hup0 & l & b & Hs). rewrite Eid in Hup0, Hs. rewrite Hup in Hup0. injection Hup0 as E.
  destruct (Htime conf0 conf) as [Et El]; [done..|]. split; [done|]. exists l, b. unfold level_map_of in *. by rewrite <- Et, <- El.
Qed.

(** After a round, if every open configuration can be started, exactly the open ones are
    served.  An output whose configuration has not changed stays the same, and no queue
    has lost a notice: an output that was closed goes on with what it had accepted. *)
Lemma round_in_step w old docs o :
  wf o → todo o = [] → in_step old o → (∀ id, closable id o) → NoDup (ID <$> docs) →
  timed old docs →
  (∀ conf, conf ∈ docs → is_open conf → ∃ b, start w conf = Ret (inr b)) →
  ∃ o', advances w (begin_round (Some (Some <$> docs)) o) o' ∧ todo o' = [] ∧ wf o' ∧ in_step docs o' ∧
    (∀ conf, conf ∈ docs → is_open conf → configMap o !! ID conf = Some (UpdateTime conf) → workers o' !! ID conf = workers o !! ID conf) ∧
    (∀ l b, heap o !! l = Some b → ∃ b', heap o' !! l = Some b' ∧ pending (Queue b') = pending (Queue b)).
Proof.
  intros Hwf Ht Hin0 Hc Hnd Htime Hst. pose proof Hin0 as [Hold Honly]. set (o0 := begin_round (Some (Some <$> docs)) o).
  assert (∀ conf, conf ∈ docs → is_open conf → ready w conf o0) as Hready.
  { intros conf Hin Hop. apply (in_step_ready w old docs); [exact Hin0|apply Hc|done|done|by apply Hst]. }
  destruct (visits w docs [Collect] o0) as (o1 & Ha1 & Ht1 & Hch1 & Hs1 & Hd1 & Hkeep); [done|by simpl; rewrite <- list_fmap_compose|done|done|].
  set (ks := (range_kv "Handler.Init" (toDelMap o1)).*1).
  pose proof (elem_of_keys "Handler.Init" (toDelMap o1)) as Hks. fold ks in Hks.
  assert (∀ k, k ∈ ks → k ∉ open_ids docs) as Hdis.
  { intros k Hk Hin. rewrite Hks, Hd1, decide_True in Hk by done. by destruct Hk. }
  assert (∀ conf, conf ∈ docs → is_open conf → ID conf ∉@{gset string} list_to_set ks) as Hfree.
  { intros conf Hin Hop. rewrite elem_of_list_to_set. intros Hk%Hdis. apply Hk, elem_of_open_ids. eauto. }
  assert (wf o1) as Hwf1 by (by apply Hch1).
  destruct (removes w ks [] (with_todo ((Remove <$> ks) ++ []) o1)) as (o2 & Ha2 & Ht2 & Hch2 & Hk2); [done|done| | |].
  { unfold ks. rewrite range_kv_perm. apply NoDup_fst_map_to_list. }
  { intros k Hk. eapply (changes_closable (open_ids docs) k o0); [done|exact Hch1|by apply Hdis|apply Hc]. }
  exists o2. split; [|split_and!].
  - eapply advances_trans; [exact Ha1|]. eapply advances_step; [exact Ht1|done|]. unfold ks in Ha2. by rewrite <- list_fmap_compose in Ha2.
  - done.
  - by apply Hch2.
  - split.
    + intros conf Hin Hop. eapply changes_served; [exact Hwf1|exact Hch2|by apply Hfree|by apply Hs1].
    + intros id Hid. apply elem_of_open_ids. destruct (decide (id ∈ open_ids docs)) as [|Hno]; [done|exfalso].
      destruct (decide (id ∈ ks)) as [Hk|Hk]; [destruct (Hk2 id Hk) as [E1 E2]; rewrite E1, E2 in Hid; by destruct Hid as [[]|[]]|].
      destruct Hch1 as (_ & Hm1 & _), Hch2 as (_ & Hm2 & _). destruct (Hm1 id Hno) as [Ew Ec], (Hm2 id) as [Ew' Ec']; [by rewrite elem_of_list_to_set|].
      rewrite Ew', Ec' in Hid. simpl in Hid. rewrite Ew, Ec in Hid. rewrite Hks, Hd1, decide_False in Hk by done. simpl in *.
      apply Hk. destruct (Honly id Hid) as (conf0 & Hc0 & Hop0 & <-). destruct (Hold _ Hc0 Hop0) as [-> _]. done.
  - intros conf Hin Hop Hup. destruct Hch2 as (_ & Hm2 & _). rewrite (proj1 (Hm2 _ (Hfree conf Hin Hop))).
    by apply (Hkeep conf Hin).
  - intros l b Hb. destruct Hch1 as (_ & _ & _ & Hp1), Hch2 as (_ & _ & _ & Hp2). destruct (Hp1 l b Hb) as (b1 & Hb1 & E1).
    destruct (Hp2 l b1 Hb1) as (b2 & ? & E2). exists b2. split; [done|congruence].
Qed.

(** The same from the start: the outputs that [Init] makes. *)
Lemma Init_in_step w docs o :
  wf o → NoDup (ID <$> docs) → (∀ conf, conf ∈ docs → is_open conf → ∃ b, start w conf = Ret (inr b)) →
  ∃ o', Init w (Some <$> docs) o = Ret o' ∧ changes (open_ids docs) o o' ∧ todo o' = todo o ∧
    (∀ conf, conf ∈ docs → is_open conf → served conf o').
Proof.
  revert o. induction docs as [|conf docs IH]; intros o Hwf Hnd Hst; simpl.
  { exists o. split_and!; [done|apply changes_refl|done|set_solver]. }
  apply NoDup_cons in Hnd as [Hnew Hnd]. destruct (decide (Status conf = ConfigOutputerOpen)) as [Hop|Hcl].
  - destruct (Hst conf) as [b Hb]; [set_solver|done|].
    destruct (start_conf_changes w conf o b Hop Hb) as (o1 & -> & Hch & Hs & _ & Ht). simpl.
    destruct (IH o1) as (o2 & ? & Hch2 & Ht2 & Hs2); [by apply Hch|done|set_solver|].
    exists o2. split; [done|]. assert (ID conf ∉ open_ids docs) as Hid.
    { intros (conf' & Hin & _ & E)%elem_of_open_ids. apply Hnew. rewrite <- E. by apply list_elem_of_fmap_2. }
    split; [|split; [congruence|]].
    + assert (open_ids (conf :: docs) = {[ID conf]} ∪ open_ids docs) as -> by (unfold open_ids; by rewrite filter_cons_True).
      exact (changes_trans _ _ _ _ _ Hch Hch2).
    + intros conf' [->|Hin]%elem_of_cons Hop'; [|by apply Hs2]. eapply changes_served; [by apply Hch|exact Hch2|done|done].
  - destruct (IH o) as (o2 & ? & Hch2 & Ht2 & Hs2); [done|done|set_solver|]. exists o2. split; [done|].
    split; [|split; [done|]].
    + assert (open_ids (conf :: docs) = open_ids docs) as -> by (unfold open_ids; by rewrite filter_cons_False). done.
    + intros conf' [->|Hin]%elem_of_cons Hop'; [done|by apply Hs2].
Qed.

(** At the start the open configurations, and no others, are served. *)
Theorem Init_serves w docs :
  NoDup (ID <$> docs) → (∀ conf, conf ∈ docs → is_open conf → ∃ b, start w conf = Ret (inr b)) →
  ∃ o, Init w (Some <$> docs) new_handler = Ret o ∧ wf o ∧ in_step docs o.
Proof.
  intros Hnd Hst. destruct (Init_in_step w docs new_handler) as (o & ? & Hch & _ & Hs); [done..|].
  exists o. split; [done|]. split; [by apply Hch|]. split; [done|]. intros id Hid. apply elem_of_open_ids.
  destruct (decide (id ∈ open_ids docs)) as [|Hno]; [done|]. destruct Hch as (_ & Hm & _). destruct (Hm id Hno) as [E1 E2].
  rewrite E1, E2 in Hid. by destruct Hid as [[]|[]].
Qed.

(** The round of every minute: see [round_in_step]. *)
Theorem round_follows w old docs o :
  wf o → todo o = [] → in_step old o → (∀ id, closable id o) → NoDup (ID <$> docs) → timed old docs →
  (∀ conf, conf ∈ docs → is_open conf → ∃ b, start w conf = Ret (inr b)) →
  ∃ n o', run (Round (Some (Some <$> docs)) :: replicate n (Advance w)) o = Ret o' ∧ todo o' = [] ∧ wf o' ∧ in_step docs o' ∧
    (∀ conf, conf ∈ docs → is_open conf → configMap o !! ID conf = Some (UpdateTime conf) → workers o' !! ID conf = workers o !! ID conf) ∧
    (∀ l b, heap o !! l = Some b → ∃ b', heap o' !! l = Some b' ∧ pending (Queue b') = pending (Queue b)).
Proof.
  intros Hwf Ht Hin Hc Hnd Htime Hst. destruct (round_in_step w old docs o) as (o' & [n Hr] & Hrest); [done..|].
  exists n, o'. split; [|done]. cbn [run act]. by rewrite decide_True.
Qed.

Lemma in_step_open docs o : in_step docs o → all_open o.
Proof.
  intros [Hs Honly] id l b Hl Hb. destruct (Honly id) as (conf & Hin & Hop & <-); [left; by eexists|].
  destruct (Hs conf Hin Hop) as (_ & l' & b' & Hl' & Hb' & Hc & _). by simplify_eq.
Qed.

(** ** What the outputs send *)

(** A notice hits the outputs for its type that ask for its level or for no level. *)
Lemma hits_conf conf model :
  hits (Type_ conf) (level_map_of conf) model = true ↔
  Model model = Type_ conf ∧ (LevelList conf = [] ∨ Level model ∈ LevelList conf).
Proof.
  assert (level_map_of conf = list_to_set (LevelList conf)) as ->.
  { unfold level_map_of. rewrite <- (union_empty_r_L (list_to_set (LevelList conf))). generalize (∅ : gset string) as X.
    induction (LevelList conf) as [|a l IH]; intros X; simpl; [set_solver|]. rewrite IH. set_solver. }
  unfold hits. case_decide; [|naive_solver]. case_decide as Hs.
  - rewrite bool_decide_eq_true, elem_of_list_to_set. split; [naive_solver|]. intros [_ [E|?]]; [|done].
    rewrite E in Hs. vm_compute in Hs. lia.
  - split; [|done]. intros _. split; [done|]. left. destruct (LevelList conf) as [|a l]; [done|]. exfalso. apply Hs.
    apply Nat.neq_0_lt_0. rewrite size_non_empty_iff. set_solver.
Qed.

Definition renamed (k : string) : string := if decide (k = "_id") then "elkeid_db_id" else k.

Lemma foldl_insert_Some (l : list (string * value)) (acc : doc) k v :
  NoDup l.*1 → foldl (λ a kv, <[kv.1 := kv.2]> a) acc l !! k = Some v ↔ (k, v) ∈ l ∨ k ∉ l.*1 ∧ acc !! k = Some v.
Proof.
  revert acc. induction l as [|[k0 v0] l IH]; intros acc Hnd; cbn [foldl].
  { split; [intros E; right; split; [apply not_elem_of_nil|done]|]. intros [[]%not_elem_of_nil|[_ ?]]; done. }
  cbn in Hnd. apply NoDup_cons in Hnd as [Hnew Hnd]. rewrite IH by done. cbn. rewrite elem_of_cons, not_elem_of_cons.
  rewrite lookup_insert_Some. split; [naive_solver|]. intros [[E|?]|[[??]?]]; [|by left|right; naive_solver].
  simplify_eq. right. naive_solver.
Qed.

(** A document for Elasticsearch has the fields of the notice; [_id] has another name. *)
Lemma rename_id_lookup m k :
  m !! "elkeid_db_id" = None →
  rename_id m !! k = if decide (k = "elkeid_db_id") then m !! "_id" else if decide (k = "_id") then None else m !! k.
Proof.
  intros Hfree. set (l := prod_map renamed id <$> range_kv "EsWorker.WaitForInputMsg" m).
  assert (rename_id m = foldl (λ a kv, <[kv.1 := kv.2]> a) ∅ l) as ->.
  { unfold rename_id, l. generalize (∅ : doc) as acc. induction (range_kv _ m) as [|[k0 v0] r IH]; intros acc; [done|].
    cbn [foldl fmap list_fmap]. rewrite IH. f_equal. unfold renamed. cbn. by case_decide. }
  assert (∀ k0 v, (k0, v) ∈ range_kv "EsWorker.WaitForInputMsg" m ↔ m !! k0 = Some v) as Hr
    by (intros; by rewrite range_kv_perm, elem_of_map_to_list).
  assert (NoDup l.*1) as Hnd.
  { assert (l.*1 = renamed <$> (range_kv "EsWorker.WaitForInputMsg" m).*1) as -> by (unfold l; by rewrite <- !list_fmap_compose).
    apply NoDup_fmap_2_strong; [|apply range_kv_NoDup_fst].
    intros k1 k2 ([? v1] & -> & Hk1%Hr)%list_elem_of_fmap ([? v2] & -> & Hk2%Hr)%list_elem_of_fmap. simpl in *.
    unfold renamed. repeat case_decide; naive_solver. }
  apply option_eq. intros v. rewrite foldl_insert_Some by done. rewrite lookup_empty.
  transitivity (∃ k0, k = renamed k0 ∧ m !! k0 = Some v).
  - unfold l. rewrite list_elem_of_fmap. split.
    + intros [([k0 v0] & [= -> ->] & ?%Hr)|[_ ?]]; [eauto|done].
    + intros (k0 & -> & ?%Hr). left. by exists (k0, v).
  - unfold renamed. split.
    + intros (k0 & -> & ?). repeat case_decide; simplify_eq; done.
    + intros E. repeat case_decide; simplify_eq; [exists "_id"|exists k]; rewrite ?decide_True, ?decide_False by done; done.
Qed.

Theorem es_document_complete b b' out d q :
  Es_WaitForInputMsg b = Some (b', out) → receive (es_queue b) = Got d q →
  ∀ m, Data d = DataMap m → m !! "elkeid_db_id" = None →
  ∃ m', (∀ k, m' !! k = if decide (k = "elkeid_db_id") then m !! "_id" else if decide (k = "_id") then None else m !! k) ∧
    out = match Marshal (DataMap m') with Some bv => [ToEs (esIndexReal b) bv] | None => [] end.
Proof.
  intros Hs Hq m Hd Hfree. exists (rename_id m). split; [by intros; apply rename_id_lookup|].
  unfold Es_WaitForInputMsg in Hs. rewrite Hq, Hd in Hs. destruct (es_running b); [|done]. simpl in Hs. by case_match; simplify_eq.
Qed.

(** A request to the hub succeeds if the plugin has said that it is done. *)
Theorem hub_done w host req :
  (RequestHubPluginByHub w host req).2 = inr tt ↔
  host ≠ "" ∧ ∃ r fields rsp, hub w (testUrl host) req = Answer r ∧ Success r = true ∧ RespData r = VDoc fields ∧
    object_field "resp" fields = Some (VDoc rsp) ∧ object_field "done" rsp = Some (VBool true).
Proof.
  unfold RequestHubPluginByHub, ApplyHubPlugin, getHubList. case_decide; [simpl; naive_solver|]. simpl. split.
  - unfold read_answer. intros E. split; [done|]. repeat (case_match; simplify_eq/=). naive_solver.
  - intros (_ & r & fields & rsp & -> & -> & -> & E1 & E2). simpl. by rewrite E1, E2.
Qed.

(** The syslog output at [l] has met an error. *)
Definition ended (l : nat) (o : Handler) : Prop := ∃ b, heap o !! l = Some (WSyslog b) ∧ s_running b = false.

Lemma ended_act a l o o' : wf o → act a o = Ret o' → ended l o → ended l o' ∧ outs l o' = outs l o.
Proof.
  intros Hwf Ha (b & Hl & Hr). destruct a as [dm|w l'|t l'|docs|w]; simpl in Ha.
  - destruct (Add_frame _ _ _ Ha) as (h & -> & Hh). destruct (Add_lookup _ _ _ _ _ Hwf Ha Hl) as (b0 & Hl' & Hb).
    split; [|done]. destruct Hb as [[_ Hb]|[_ ->]]; [|by exists b]. unfold noticed_by in Hb.
    destruct (HitModel _ _); [|subst b0; by exists b]. simpl in Hb. unfold Syslog_SendMsg, omap_out, obind, send in Hb.
    destruct (closed (s_queue b)); simplify_eq. by eexists.
  - injection Ha as <-. unfold turn. destruct (heap o !! l') as [c|] eqn:El; [|by split; [exists b|]].
    destruct (step_in w c) as [[c' out]|] eqn:Es; [|by split; [exists b|]].
    assert (l' ≠ l) as Hne.
    { intros ->. rewrite Hl in El. injection El as <-. simpl in Es. unfold Syslog_WaitForInputMsg in Es. by rewrite Hr in Es. }
    split; [exists b; simpl; by rewrite list_lookup_insert_ne|]. unfold outs. simpl. by rewrite filter_app, (other_messages _ _ _ Hne), app_nil_r.
  - injection Ha as <-. unfold tick. destruct (heap o !! l') as [[]|] eqn:El; try (by split; [exists b|]).
    split; [exists b; simpl; rewrite list_lookup_insert_ne by congruence; done|done].
  - injection Ha as <-. unfold begin_round. by repeat case_match; split; try (exists b).
  - destruct (todo o) as [|t ts]; [simplify_eq; by split; [exists b|]|].
    destruct (exec w t o) as [[o1 more]|] eqn:E; simplify_eq/=. pose proof (exec_log _ _ _ _ _ E) as Elog.
    split; [|unfold outs; simpl; by rewrite Elog].
    destruct (exec_lookup _ _ _ _ _ _ _ E Hl) as (b' & Hl' & [->|Hc]); [by exists b|]. simpl in Hc.
    unfold Syslog_Close, omap_out, obind, close in Hc. repeat case_match; simplify_eq/=. by eexists.
Qed.

Lemma turn_fails w l o b dm q :
  heap o !! l = Some (WSyslog b) → receive (s_queue b) = Got dm q → syslog_writes w = false →
  s_running b = true → is_Some (Marshal (Data dm)) → ended l (turn w l o) ∧ outs l (turn w l o) = outs l o.
Proof.
  intros Hl Hq Hw Hr [t Ht]. unfold turn. rewrite Hl. simpl. unfold Syslog_WaitForInputMsg. rewrite Hr, Hq, Ht, Hw. simpl.
  destruct (log_handler b || syslog_up w); simpl; (split; [eexists; simpl; rewrite list_lookup_insert_eq by (by eapply lookup_lt_Some); done|]);
    unfold outs; simpl; by rewrite app_nil_r.
Qed.

(** Once a syslog output could not write a notice it never sends one again, whatever
    happens later: the notices for it fill its queue and are then dropped. *)
Theorem syslog_silent w acts l o o' b dm q :
  wf o → heap o !! l = Some (WSyslog b) → s_running b = true → receive (s_queue b) = Got dm q → is_Some (Marshal (Data dm)) →
  syslog_writes w = false → run (Turn w l :: acts) o = Ret o' → outs l o' = outs l o.
Proof.
  intros Hwf Hl Hr Hq Hm Hw Hrun. cbn [run act obind] in Hrun.
  destruct (turn_fails w l o b dm q Hl Hq Hw Hr Hm) as [He Ho]. rewrite <- Ho.
  assert (wf (turn w l o)) as Hwf1 by (by eapply (act_wf (Turn w l))). clear -He Hwf1 Hrun.
  generalize dependent (turn w l o). intros o1. revert o1. induction acts as [|a acts IH]; intros o1 Hrun He Hwf1; [by simplify_eq/=|].
  simpl in Hrun. destruct (act a o1) as [o2|] eqn:E; simpl in Hrun; [|done]. destruct (ended_act _ _ _ _ Hwf1 E He) as [He2 Ho2].
  rewrite <- Ho2. apply IH; [done..|]. by eapply act_wf.
Qed.
End handler.

(** ** Examples and witnesses *)

#[local] Instance w_json : Json :=
  {| Marshal p := match p with DataOther (VStr s) => Some s | DataOther _ => None | DataMap _ => Some "{}" end; Unmarshal _ := None |}.

Definition w_world : world := mkWorld (mkCivil 2024 1 11 8) true true true true "hub" (λ _ _, PostFailed).
Definition w_down : world := mkWorld (mkCivil 2024 1 11 8) false false false false "hub" (λ _ _, PostFailed).

Definition no_config : NoticeMsgConfig := mkMsgConfig None None None None None None None None.
Definition w_kafka (id : string) (levels : list string) (time : Z) : OutputerConfig :=
  mkConf id DataModelHidsAlarm levels 1 ConfigTypeKafka time
    (mkMsgConfig None None None None None (Some (mkKafkaConf "k1:9092,k2:9092" "alarms" "")) None None).
Definition w_syslog (time : Z) : OutputerConfig :=
  mkConf "s" DataModelHidsAlarm [] 1 ConfigTypeSyslog time
    (mkMsgConfig None None None (Some (mkSyslogConf "log:514" "udp" 8)) None None None None).
Definition w_notice (level text : string) : DataModel :=
  BuildDataModel DataModelHidsAlarm "hids" "insert" level VNull (DataOther (VStr text)).

(** The handler after [Init]. *)
Definition w_init (w : world) (docs : list OutputerConfig) : Handler :=
  match Init w (Some <$> docs) new_handler with Ret o => o | Panic _ => new_handler end.

(** A configuration is changed while its brokers are down: the output is closed, a new one
    cannot be made, and the handler keeps the closed one.  The next notice for it panics. *)
Theorem changed_output_panics :
  run ([Round (Some [Some (w_kafka "a" [] 2)]); Advance w_down; Advance w_down; Advance w_down; Advance w_down;
        Notice (w_notice "high" "x")]) (w_init w_world [w_kafka "a" [] 1]) = Panic "send on closed channel".
Proof. by vm_compute. Qed.

(** Without a notice the next round panics, because it closes the output again. *)
Theorem next_round_panics :
  run ([Round (Some [Some (w_kafka "a" [] 2)]); Advance w_down; Advance w_down; Advance w_down; Advance w_down;
        Round (Some [Some (w_kafka "a" [] 2)]); Advance w_world; Advance w_world]) (w_init w_world [w_kafka "a" [] 1])
  = Panic "close of closed channel".
Proof. by vm_compute. Qed.

(** Also with the brokers up: a notice that comes between [Close] and [UpdateConfig] finds
    the closed output in the map. *)
Theorem notice_during_change_panics :
  run ([Round (Some [Some (w_kafka "a" [] 2)]); Advance w_world; Advance w_world; Notice (w_notice "high" "x")])
    (w_init w_world [w_kafka "a" [] 1]) = Panic "send on closed channel".
Proof. by vm_compute. Qed.

(** A syslog output that never had a connection cannot be removed. *)
Theorem unconnected_syslog_panics :
  run ([Round (Some []); Advance w_down; Advance w_down; Advance w_down]) (w_init w_down [w_syslog 1])
  = Panic "nil pointer dereference".
Proof. by vm_compute. Qed.

(** A custom output without parameters panics in [ReadConfig]. *)
Theorem custom_without_config_panics :
  start w_world (mkConf "c" DataModelHidsAlarm [] 1 ConfigTypeCustom 1
    (mkMsgConfig None None None None None None None (Some (mkCustom "P" None)))) = Panic "assignment to entry in nil map".
Proof. by vm_compute. Qed.

(** A password that is not a string panics in [NewProducer]. *)
Theorem numeric_password_panics :
  NewProducer w_world "k1:9092" {["sasl.password" := VInt 1]} "c" = Panic "interface conversion: interface {} is not string".
Proof. by vm_compute. Qed.

(** The eleventh of January and the first of November share an index. *)
Theorem days_share_index : getDay (mkCivil 2024 1 11 0) = getDay (mkCivil 2024 11 1 0).
Proof. by vm_compute. Qed.

Definition w_acts : list action :=
  [Notice (w_notice "high" "a"); Turn w_world 1; Notice (w_notice "low" "b"); Tick (mkCivil 2024 1 12 0) 0; Turn w_world 0;
   Notice (w_notice "high" "c")].

Definition w_handler : Handler := w_init w_world [w_kafka "a" ["high"] 1; w_syslog 1].
Definition w_worker : KafkaWorker :=
  match heap w_handler !! 0 with Some (WKafka b) => b | _ => mkKafka (mkProducer [] "" "" "" "" false) false ∅ "" "" make_queue false end.

Definition w_docs : list OutputerConfig := [w_kafka "a" ["high"] 1; w_syslog 1].

Lemma w_starts : NoDup (ID <$> w_docs) ∧ ∀ conf, conf ∈ w_docs → is_open conf → ∃ b, start w_world conf = Ret (inr b).
Proof.
  split; [by apply (bool_decide_unpack _)|]. intros conf [->|[->|[]%not_elem_of_nil]%elem_of_cons]%elem_of_cons _; by eexists.
Defined.

Lemma w_handler_ok : wf w_handler ∧ in_step w_docs w_handler.
Proof.
  destruct w_starts as [Hnd Hst]. destruct (Init_in_step w_world w_docs new_handler) as (o & Hi & Hch & _ & Hs); [done..|].
  assert (o = w_handler) as -> by (unfold w_handler, w_init; fold w_docs; by rewrite Hi).
  split; [by apply Hch|]. split; [done|]. intros id Hid. apply elem_of_open_ids.
  destruct (decide (id ∈ open_ids w_docs)) as [|Hno]; [done|]. destruct Hch as (_ & Hm & _). destruct (Hm id Hno) as [E1 E2].
  rewrite E1, E2 in Hid. by destruct Hid as [[]|[]].
Defined.

Lemma Init_serves_witness : ∃ o, Init w_world (Some <$> w_docs) new_handler = Ret o ∧ wf o ∧ in_step w_docs o.
Proof. destruct w_starts. by apply Init_serves. Defined.

Lemma w_working : working 0 w_handler w_worker.
Proof.
  destruct w_handler_ok as [Hwf Hin]. split_and!; [done|by eapply in_step_open|exists "a"; by vm_compute|by vm_compute|by vm_compute].
Defined.

Lemma w_marshals : marshals (noticed w_acts).
Proof. repeat constructor; by eexists. Defined.

Lemma notices_in_order_witness : ∃ b' acc o', heap o' !! 0 = Some (WKafka b') ∧
  acc `sublist_of` [w_notice "high" "a"; w_notice "high" "c"] ∧
  (outs 0 o' ++ (kafka_message w_worker <$> chbuf (pending (k_queue b'))) = kafka_message w_worker <$> acc)%list.
Proof.
  destruct (run w_acts w_handler) as [o'|] eqn:Hr; [|exfalso; by vm_compute in Hr].
  destruct (notices_in_order w_acts 0 w_handler o' w_worker) as (b' & acc & ? & Hs & Ho);
    [apply w_handler_ok|by vm_compute|by vm_compute|apply w_marshals|done|].
  exists b', acc, o'. split; [done|]. split; [|exact Ho]. exact Hs.
Defined.

Lemma w_room : room 0 w_acts w_handler.
Proof.
  cbn [room w_acts]. repeat (split; [intros b dm E Hl _; try discriminate; vm_compute in Hl; injection Hl as <-; apply (bool_decide_unpack _); by vm_compute|];
    intros ? Ha; vm_compute in Ha; injection Ha as <-). done.
Defined.


(** The levels of the Kafka output change and the syslog output is removed. *)
Lemma round_follows_witness : ∃ n o', run (Round (Some (Some <$> [w_kafka "a" ["low"] 2])) :: replicate n (Advance w_world)) w_handler = Ret o' ∧
  in_step [w_kafka "a" ["low"] 2] o'.
Proof.
  destruct w_handler_ok as [Hwf Hin].
  destruct (round_follows w_world w_docs [w_kafka "a" ["low"] 2] w_handler) as (n & o' & Hr & _ & _ & Hs & _); [done|done|done|..].
  - intros id l b Hl Hb. assert (l < 2) as Hlt by (destruct Hwf as [Hlen _]; exact (Hlen _ _ Hl)).
    destruct l as [|[|l]]; [..|lia]; vm_compute in Hb; injection Hb as <-; by eexists.
  - by apply (bool_decide_unpack _).
  - intros c c' [->|[->|[]%not_elem_of_nil]%elem_of_cons]%elem_of_cons [->|[]%not_elem_of_nil]%elem_of_cons; by intros.
  - intros c [->|[]%not_elem_of_nil]%elem_of_cons _. by eexists.
  - by exists n, o'.
Defined.

Definition w_full : Handler := match Add (w_notice "high" "a") w_handler with Ret o => o | Panic _ => w_handler end.

Lemma syslog_silent_witness : ∃ o', outs 1 o' = [] ∧
  run [Turn w_down 1; Turn w_world 1; Notice (w_notice "high" "b"); Turn w_world 1] w_full = Ret o'.
Proof.
  destruct (Add_total (w_notice "high" "a") w_handler) as (o & Ha & _ & _); [apply w_handler_ok|eapply in_step_open, w_handler_ok|].
  assert (w_full = o) as Eo by (unfold w_full; by rewrite Ha).
  destruct (run [Turn w_down 1; Turn w_world 1; Notice (w_notice "high" "b"); Turn w_world 1] w_full) as [o'|] eqn:Hr;
    [|exfalso; by vm_compute in Hr].
  exists o'. split; [|done]. transitivity (outs 1 w_full); [|by vm_compute].
  eapply (syslog_silent w_down [Turn w_world 1; Notice (w_notice "high" "b"); Turn w_world 1] 1 w_full o');
    [rewrite Eo; exact (act_wf (Notice (w_notice "high" "a")) _ _ Ha (proj1 w_handler_ok))
    |by vm_compute|by vm_compute|by vm_compute|by eexists|done|exact Hr].
Defined.

End Outputer.
