(* ===== verification/EndToEnd.v ===== *)
(** * From a plugin to Kafka

    Puts the components of the data path together: the plugin library and the receiving
    goroutine of the agent ([PluginProtocol.v]), the buffer ([Buffer.v]), a tick of the
    sender ([Transfer.v]) and the record handler of the agent center
    ([AgentCenter.v]).  The gRPC stream between agent and agent center is taken to
    deliver a packet as it was sent. *)

From S2P Require Import Prelude Wire Bridge Buffer PluginProtocol Transfer Pool AgentCenter.
From stdpp Require Import options.

Module EndToEnd.

Section pipeline.
Context {Fl : Type} `{Ranger} (parse_float : string → option Fl).

(** The packet the agent center receives for the values a tick sends. *)
Definition packet (agentID hostname version product : string) (vals : list (Z * Z * bytes))
    : AgentCenter.RawData :=
  AgentCenter.mkRawData ((λ v, AgentCenter.mkRecord v.1.1 v.1.2 v.2) <$> vals) agentID None None None None
    hostname version product.

(** While there is room, pushing is appending. *)
Lemma pushes_append vals q :
  length q + length vals ≤ Buffer.buf_len →
  foldl (λ q v, Buffer.astep q (Buffer.Push v)) q vals = q ++ vals.
Proof.
  revert q. induction vals as [|v vals IH]; intros q Hl; cbn [foldl]; [by rewrite app_nil_r|].
  cbn [length] in Hl. cbn [Buffer.astep]. rewrite decide_True by lia.
  rewrite IH by (rewrite length_app; cbn [length]; lia). by rewrite <- app_assoc.
Qed.

(** What the agent center makes of a record a plugin sent. *)
Definition delivered (c : Pool.Connection (Fl:=Fl)) (agentID : string) (rp : Bridge.Record_ * Bridge.Payload)
    (m : AgentCenter.MQData) : Prop :=
  AgentCenter.mqDataType m = Bridge.DataType rp.1 ∧ AgentCenter.mqAgentTime m = Bridge.Timestamp rp.1 ∧
  AgentCenter.mqAgentID m = agentID ∧ AgentCenter.mqTenantID m = Pool.TenantID c ∧
  Bridge.Payload_Unmarshal (AgentCenter.mqBody m) = inl rp.2.

Lemma wire_value_decodes rec p :
  PluginProtocol.sendable rec p →
  Bridge.Payload_Unmarshal (PluginProtocol.wire_value rec p).2 = inl p.
Proof.
  intros Hs. apply Bridge.Payload_Unmarshal_bytes.
  destruct (PluginProtocol.frame_size rec p Hs) as [_ Hlb]. destruct Hs as (_ & _ & _ & _ & Hd & Hsz).
  assert (Bridge.Payload_Size p < 2 ^ 64)%Z as Hp by (eapply Bridge.Record_payload_small; [|exact Hd]; lia).
  rewrite <- Bridge.Payload_bytes_size by done. lia.
Qed.

(** Between two ticks: what plugins send is read, buffered and handed to the stream. *)
Lemma records_on_stream (recs : list (Bridge.Record_ * Bridge.Payload)) (choices : list nat)
    (send : list (Z * Z * bytes) → option string) :
  Forall (λ rp, PluginProtocol.sendable rp.1 rp.2) recs →
  recs ≠ [] → length recs ≤ Buffer.buf_len → length recs < length choices →
  ∃ frames s s' cnt,
    Forall2 (λ rp f, PluginProtocol.SendRecord rp.1 = Ret f) recs frames ∧
    PluginProtocol.receive_loop choices (PluginProtocol.mkRx (concat frames) 0 0) Buffer.initial = Ret (Some s) ∧
    Transfer.handleSend_tick send 0 s = Ret (Some ((λ rp, PluginProtocol.wire_value rp.1 rp.2) <$> recs), s', cnt).
Proof.
  intros Hsend Hne Hroom Hch. set (vals := (λ rp, PluginProtocol.wire_value rp.1 rp.2) <$> recs).
  destruct (PluginProtocol.receive_loop_frames choices recs 0 0 Buffer.initial [] [] Hsend Hch
    Buffer.inv_initial Buffer.represents_initial) as (s & Hloop & Hinv & Hrep).
  assert (Buffer.represents s vals) as Hrep'.
  { rewrite <- (app_nil_l vals), <- pushes_append.
    - subst vals. by rewrite foldl_fmap.
    - subst vals. rewrite length_fmap. exact Hroom. }
  destruct (Transfer.handleSend_tick_spec send 0 s [] vals Hinv Hrep') as (s' & _ & _ & Htick).
  rewrite (decide_False (P := vals = [])) in Htick by (subst vals; by destruct recs).
  eexists ((λ rp, PluginProtocol.frame rp.1) <$> recs), s, s', _. split_and!; [|exact Hloop|exact Htick].
  apply Forall2_fmap_r, Forall_Forall2_diag. eapply Forall_impl; [exact Hsend|].
  intros [rec p] Hs. by eapply PluginProtocol.SendRecord_frame.
Qed.

(** [C1] A record's way from the plugin to Kafka: up to 2048 records that a plugin sends
    between two ticks are read by the agent, buffered, handed to the stream by the next
    tick, and published by the agent center, each once and in order, with the data type,
    the time stamp and the fields the plugin gave it, under the agent's ID and the tenant
    of its connection. *)
Theorem plugin_to_kafka (recs : list (Bridge.Record_ * Bridge.Payload)) (choices : list nat)
    (send : list (Z * Z * bytes) → option string) (agentID hostname version product : string) (now : Z)
    (c : Pool.Connection (Fl:=Fl)) (g : Pool.GRPCPool)
    (Hrecs : Forall (λ rp, PluginProtocol.sendable rp.1 rp.2 ∧ Bridge.Fields rp.2 ≠ ∅) recs)
    (Hne : recs ≠ []) (Hroom : length recs ≤ Buffer.buf_len) (Hch : length recs < length choices) :
  ∃ frames s s' cnt vals c' g' msgs,
    Forall2 (λ rp f, PluginProtocol.SendRecord rp.1 = Ret f) recs frames ∧
    PluginProtocol.receive_loop choices (PluginProtocol.mkRx (concat frames) 0 0) Buffer.initial = Ret (Some s) ∧
    Transfer.handleSend_tick send 0 s = Ret (Some vals, s', cnt) ∧
    AgentCenter.handleRawData parse_float (packet agentID hostname version product vals) now c g [] =
      Ret (c', g', msgs) ∧
    Forall2 (delivered c agentID) recs msgs.
Proof.
  set (vals := (λ rp, PluginProtocol.wire_value rp.1 rp.2) <$> recs).
  assert (Forall (λ rp, PluginProtocol.sendable rp.1 rp.2) recs) as Hsend.
  { eapply Forall_impl; [exact Hrecs|]. by intros ? []. }
  destruct (records_on_stream recs choices send Hsend Hne Hroom Hch) as (frames & s & s' & cnt & Hfr & Hloop & Htick).
  assert (∀ r, r ∈ AgentCenter.Data (packet agentID hostname version product vals) →
    ∃ rp, rp ∈ recs ∧ AgentCenter.parseRecord r = inl (Bridge.Fields rp.2) ∧ Bridge.Fields rp.2 ≠ ∅) as Hdec.
  { intros r (v & -> & Hv)%list_elem_of_fmap. apply list_elem_of_fmap in Hv as (rp & -> & Hrp).
    exists rp. rewrite Forall_forall in Hrecs. destruct (Hrecs rp Hrp) as [Hs Hf]. split_and!; [done| |done].
    unfold AgentCenter.parseRecord. cbn [AgentCenter.Body]. by rewrite wire_value_decodes. }
  destruct (AgentCenter.handleRawData_spec parse_float (packet agentID hostname version product vals) now c g [])
    as (c' & g' & Hraw & _).
  { intros r Hr [_ Hp]. destruct (Hdec r Hr) as (rp & _ & Hp' & Hf). rewrite Hp in Hp'. congruence. }
  eexists frames, s, s', _, vals, c', g', _. split_and!.
  - exact Hfr.
  - exact Hloop.
  - exact Htick.
  - exact Hraw.
  - rewrite app_nil_l, filter_all.
    + cbn [packet AgentCenter.Data]. subst vals. rewrite <- !list_fmap_compose.
      apply Forall2_fmap_r, Forall_Forall2_diag. eapply Forall_impl; [exact Hsend|]. intros rp Hs.
      split_and!; try done. by apply wire_value_decodes.
    + apply Forall_forall. intros r Hr. destruct (Hdec r Hr) as (rp & _ & Hp & _).
      unfold AgentCenter.dropped, AgentCenter.undecodable. rewrite Hp. apply andb_false_r.
Qed.

End pipeline.

Lemma plugin_to_kafka_witness :
  ∃ frames s s' cnt vals c' g' msgs,
    Forall2 (λ rp f, PluginProtocol.SendRecord rp.1 = Ret f)
      [(PluginProtocol.w_rec, Bridge.mkPayload {["pid" := "42"]})] frames ∧
    PluginProtocol.receive_loop [0; 0] (PluginProtocol.mkRx (concat frames) 0 0) Buffer.initial = Ret (Some s) ∧
    Transfer.handleSend_tick (λ _, None) 0 s = Ret (Some vals, s', cnt) ∧
    AgentCenter.handleRawData (λ _, None) (packet "a" "h" "1.0" "agent" vals) 100 AgentCenter.w_conn
      (Pool.NewGRPCPool AgentCenter.small) [] = Ret (c', g', msgs) ∧
    Forall2 (delivered AgentCenter.w_conn "a")
      [(PluginProtocol.w_rec, Bridge.mkPayload {["pid" := "42"]})] msgs.
Proof.
  apply (plugin_to_kafka (λ _, None) [(PluginProtocol.w_rec, Bridge.mkPayload {["pid" := "42"]})] [0; 0]
    (λ _, None) "a" "h" "1.0" "agent" 100 AgentCenter.w_conn (Pool.NewGRPCPool AgentCenter.small)).
  - constructor; [|constructor]. split; [apply PluginProtocol.w_rec_sendable|done].
  - done.
  - apply Nat.leb_le. reflexivity.
  - simpl. lia.
Defined.

End EndToEnd.
