(* ===== verification/ControlPath.v ===== *)
(** * From the manager to a plugin

    Puts the components of the control path together: the manager makes a job for each
    agent of a task and posts it ([AgentConfig.v]), the agent center hands the command to
    the stream of the agent ([AcServer.v]), the agent passes a task on to its plugin
    ([Transfer.v], [PluginProtocol.v]) or a configuration to its plugin daemon
    ([PluginManager.v]).  The JSON body of the post and the gRPC message are taken to carry
    their fields: [request_of] and [on_stream] say which field becomes which. *)

From S2P Require Import Prelude GoStrings Wire Bridge PluginProtocol PluginManager Transfer Pool AgentConfig AcServer.
From stdpp Require Import options.

Module ControlPath.

(** ** What travels *)

Definition config_msg (m : AgentConfig.AgentConfigMsg) : AcServer.ConfigMsg :=
  AcServer.mkConfigMsg (AgentConfig.Name m) (AgentConfig.Type_ m) (AgentConfig.Version m) (AgentConfig.SHA256 m)
    (AgentConfig.Signature m) (AgentConfig.DownloadURL m) (AgentConfig.Detail m).

(** The body the manager posts for a job, as the agent center decodes it: both sides use
    the same JSON names. *)
Definition request_of (h : AgentConfig.heap) (j : AgentConfig.JobArgs) : AcServer.CommandRequest :=
  AcServer.mkRequest (AgentConfig.jAgent j)
    match AgentConfig.jCommand j with
    | AgentConfig.CmdConfig s => AcServer.mkDetail 0 None (Some (config_msg <$> AgentConfig.contents h s))
    | AgentConfig.CmdTask t =>
        AcServer.mkDetail 0 (Some (AcServer.mkTaskMsg (AgentConfig.tDataType t) (AgentConfig.tName t)
          (AgentConfig.tData t) (AgentConfig.tToken t))) None
    | AgentConfig.CmdCtrl n => AcServer.mkDetail n None None
    end.

(** The message of the agent center as the agent decodes it: the two definitions of the
    messages number their fields alike, except that the agent's has no [AgentCtrl]. *)
Definition on_stream (c : Pool.Command) : Transfer.Command :=
  Transfer.mkCommand
    ((λ t, Bridge.mkTask (Pool.tDataType t) (Pool.tName t) (Pool.tData t) (Pool.tToken t)) <$> Pool.cTask c)
    ((λ c, PluginManager.mkConfig (Pool.Name c) (Pool.Type_ c) (Pool.Version c) (Pool.SHA256 c) (Pool.Signature c)
             (Pool.DownloadURL c) (Pool.Detail c)) <$> Pool.cConfig c).

(** The configuration of a plugin as the manager has it and as the agent gets it. *)
Definition agent_config (m : AgentConfig.AgentConfigMsg) : PluginManager.Config :=
  PluginManager.mkConfig (AgentConfig.Name m) (AgentConfig.Type_ m) (AgentConfig.Version m) (AgentConfig.SHA256 m)
    (AgentConfig.Signature m) (AgentConfig.DownloadURL m) (AgentConfig.Detail m).

(** The command the agent receives for a job. *)
Definition received (h : AgentConfig.heap) (j : AgentConfig.JobArgs) : Transfer.Command :=
  on_stream (AcServer.mgCommand (AcServer.Command (request_of h j))).

Lemma received_config h j s :
  AgentConfig.jCommand j = AgentConfig.CmdConfig s →
  received h j = Transfer.mkCommand None (agent_config <$> AgentConfig.contents h s).
Proof.
  intros Hj. unfold received, request_of. rewrite Hj. unfold on_stream, AcServer.mgCommand. simpl.
  by rewrite <- !list_fmap_compose.
Qed.

(** ** Tasks *)

Section tasks.
Context (grow : nat → nat) (tokens : nat → string) (clock : nat → Z * Z * Z) (room : nat → nat).

(** The task of a job is the task of the request under the token of the job. *)
Definition task_job (p : AgentConfig.AgentJobParam) (j : AgentConfig.JobArgs) : Prop :=
  let t := AgentConfig.Task (AgentConfig.ConfigTask p) in
  (∃ i, AgentConfig.jToken j = tokens i) ∧ AgentConfig.jApi j = AgentConfig.command_api ∧ AgentConfig.jCommand j =
    AgentConfig.CmdTask (AgentConfig.mkTaskMsg (AgentConfig.tName t) (AgentConfig.tData t) (AgentConfig.jToken j)
      (AgentConfig.tDataType t)).

Lemma distribute_one_task p dft i ck rm hb d :
  Forall (task_job p) (AgentConfig.djobs d) →
  Forall (task_job p) (AgentConfig.djobs
    (AgentConfig.distribute_one grow AgentConfig.TypeAgentTask p dft (tokens i) ck rm AgentConfig.command_api hb d)).
Proof.
  intros Hd. unfold AgentConfig.distribute_one. case_decide; [done|].
  unfold AgentConfig.command_for. rewrite decide_False, decide_True by done. destruct ck as [[u s] n]. simpl.
  apply Forall_app. split; [done|]. constructor; [|constructor]. split; [by exists i|done].
Qed.

Lemma distribute_loop_task p dft i cursor d :
  Forall (task_job p) (AgentConfig.djobs d) →
  Forall (task_job p) (AgentConfig.djobs
    (AgentConfig.distribute_loop grow tokens clock room AgentConfig.TypeAgentTask p dft AgentConfig.command_api i cursor d)).
Proof.
  revert i d. induction cursor as [|[hb|err] cursor IH]; intros i d Hd; simpl; [done| |by apply IH].
  apply IH. by apply distribute_one_task.
Qed.

Lemma task_jobs p dft rm cursor d :
  AgentConfig.AgentControlDistribute grow tokens clock room AgentConfig.TypeAgentTask p dft rm (inl cursor) = inl d →
  Forall (task_job p) (AgentConfig.djobs d).
Proof.
  unfold AgentConfig.AgentControlDistribute. rewrite decide_False by done. intros [= <-].
  apply distribute_loop_task. constructor.
Qed.

Lemma filter_one {A} (f : A → string) (l : list A) x :
  NoDup (f <$> l) → x ∈ l → filter (λ y, f y = f x) l = [x].
Proof using Type.
  clear. induction l as [|y l IH]; intros Hnd Hx; [by apply not_elem_of_nil in Hx|].
  rewrite fmap_cons in Hnd. apply NoDup_cons in Hnd as [Hy Hnd]. apply elem_of_cons in Hx as [->|Hx].
  - rewrite filter_cons_True by done. f_equal. apply filter_none. intros z Hz E. apply Hy. rewrite <- E. by apply list_elem_of_fmap_2.
  - rewrite filter_cons_False; [by apply IH|]. intros E. apply Hy. rewrite E. by apply list_elem_of_fmap_2.
Qed.

(** A job with its subtask: the only job for its agent, and the only subtask. *)
Lemma one_job name p dft rm cursor hb d :
  name ∈ AgentConfig.supported →
  AgentConfig.AgentControlDistribute grow tokens clock room name p dft rm (inl cursor) = inl d →
  inl hb ∈ cursor →
  ∃ j sub, filter (λ j, AgentConfig.jAgent j = AgentConfig.AgentId hb) (AgentConfig.djobs d) = [j] ∧
    filter (λ s, AgentConfig.sAgent s = AgentConfig.AgentId hb) (AgentConfig.dsubs d) = [sub] ∧
    j ∈ AgentConfig.djobs d ∧ AgentConfig.jAgent j = AgentConfig.AgentId hb ∧ AgentConfig.recorded p j sub.
Proof.
  intros Hn Hd Hin.
  destruct (AgentConfig.distribute_jobs grow tokens clock room name p dft rm cursor d)
    as (Hnd & Hagents & Hrec); [done|done|].
  assert (AgentConfig.AgentId hb ∈ AgentConfig.jAgent <$> AgentConfig.djobs d) as (j & Ej & Hj)%list_elem_of_fmap
    by (apply Hagents; eauto).
  assert (AgentConfig.sAgent <$> AgentConfig.dsubs d = AgentConfig.jAgent <$> AgentConfig.djobs d) as Esub.
  { clear -Hrec. induction Hrec as [|x y ?? Hr ? IH]; [done|]. rewrite !fmap_cons, IH. f_equal. apply Hr. }
  destruct (list_elem_of_lookup_1 _ _ Hj) as [i Hi]. destruct (Forall2_lookup_l _ _ _ _ _ Hrec Hi) as (sub & Hsub & Hr).
  exists j, sub. rewrite Ej. split_and!; [by apply filter_one| |done|done|done].
  assert (AgentConfig.jAgent j = AgentConfig.sAgent sub) as -> by (symmetry; apply Hr).
  apply filter_one; [by rewrite Esub|]. by eapply list_elem_of_lookup_2.
Qed.

End tasks.

Section path.
Context {Fl : Type} `{Ranger}.
Context (grow : nat → nat) (tokens : nat → string) (clock : nat → Z * Z * Z) (room : nat → nat).
Context (json_upload : string → option (string * Z)) (json_map : string → option (gmap string Transfer.json))
  (control : list string → option string) (lookup_region : string → bool)
  (update : PluginManager.Config → PluginManager.fs → PluginManager.fs * option PluginManager.error)
  (Error : PluginManager.error → string) (waiting : string → bool) (Product Version : string).
Local Abbreviation handle := (Transfer.handleReceive_cmd json_upload json_map control lookup_region update Error
  waiting Product Version).

(** An agent that is served: its connection is in the pool, and the goroutine of the
    connection waits for commands, takes them in time and its stream carries them. *)
Definition served (stream_Send : nat → Pool.Command → option string) (g : Pool.GRPCPool) (ss : gmap nat AcServer.sender)
    (agent : string) (c : nat) (l : list Pool.Command) : Prop :=
  Pool.connPool g !! agent = Some c ∧ ss !! c = Some (AcServer.mkSender true l) ∧ ∀ cmd, stream_Send c cmd = None.

Lemma served_answer stream_Send g ss (req : AcServer.CommandRequest) c l :
  served stream_Send g ss (AcServer.AgentID req) c l →
  let cmd := AcServer.mgCommand (AcServer.Command req) in
  AcServer.PostCommand (Fl:=Fl) stream_Send AcServer.InTime (inl req) g ss =
    (<[c := AcServer.mkSender true (l ++ [cmd])]> ss,
     AcServer.CreateResponse AcServer.SuccessCode (AcServer.DText "")).
Proof.
  intros (Hc & Hl & Hs) cmd. unfold AcServer.PostCommand, AcServer.post, Pool.PostCommand, Pool.GetByID. rewrite Hc.
  by rewrite (AcServer.hand_over_taken _ _ _ _ _ _ Hl) by done.
Qed.

(** The job as [AgentControlDo] decodes it. *)
Definition job_msg_of (j : AgentConfig.JobArgs) : AgentConfig.job_msg :=
  let api := AgentConfig.jApi j in
  AgentConfig.mkJobMsg (AgentConfig.apiScheme api) (AgentConfig.jHost j) (AgentConfig.apiPath api)
    (AgentConfig.apiMethod api) (Some (Some (AgentConfig.jToken j))).

(** [C2] A task reaches the plugin, once and under the token of its subtask.  For every agent
    that the query of a task returns, however often, the distribution makes one job and
    writes one subtask, which is running and has the token of the job.  If the agent is
    served, the post of the job is answered with success, puts one command on the stream and
    makes the manager record success for that token; the command makes the agent pass the
    task of the request, under the token of the subtask, to the plugin it names, whose
    library decodes it from the pipe. *)
Theorem task_to_plugin p dft rm cursor hb d stream_Send g ss c l svr_code now text a plg :
  let req := AgentConfig.Task (AgentConfig.ConfigTask p) in
  AgentConfig.AgentControlDistribute grow tokens clock room AgentConfig.TypeAgentTask p dft rm (inl cursor) = inl d →
  inl hb ∈ cursor →
  served stream_Send g ss (AgentConfig.AgentId hb) c l →
  svr_code text = inl AcServer.SuccessCode →
  AgentConfig.tName req ≠ Product →
  PluginManager.Get (AgentConfig.tName req) (Transfer.plugins a) = Some plg →
  waiting (AgentConfig.tName req) = true →
  (∀ i, let t := Bridge.mkTask (AgentConfig.tDataType req) (AgentConfig.tName req) (AgentConfig.tData req) (tokens i) in
          Bridge.Task_fits t ∧ (Bridge.Task_Size t ≤ PluginProtocol.reader_size)%Z) →
  ∃ j sub cmd t f,
    filter (λ j, AgentConfig.jAgent j = AgentConfig.AgentId hb) (AgentConfig.djobs d) = [j] ∧
    filter (λ s, AgentConfig.sAgent s = AgentConfig.AgentId hb) (AgentConfig.dsubs d) = [sub] ∧
    AgentConfig.sToken sub = AgentConfig.jToken j ∧ AgentConfig.sTask sub = AgentConfig.TaskID p ∧
    AgentConfig.sStatus sub = AgentConfig.TaskStatusRunning ∧
    AcServer.PostCommand (Fl:=Fl) stream_Send AcServer.InTime (inl (request_of (AgentConfig.dheap d) j)) g ss =
      (<[c := AcServer.mkSender true (l ++ [cmd])]> ss,
       AcServer.CreateResponse AcServer.SuccessCode (AcServer.DText "")) ∧
    (∃ url, AgentConfig.AgentControlDo svr_code now (inl (job_msg_of j)) (λ _, inl (AgentConfig.mkResponse 200 text)) =
      Ret (None, Some (AgentConfig.mkDone (AgentConfig.sToken sub) url AgentConfig.TaskStatusSuccess now text))) ∧
    t = Bridge.mkTask (AgentConfig.tDataType req) (AgentConfig.tName req) (AgentConfig.tData req) (AgentConfig.sToken sub) ∧
    Transfer.tasks (handle (on_stream cmd) a).1 = Transfer.tasks a ++ [(AgentConfig.tName req, t)] ∧
    PluginProtocol.send_task t = Ret f ∧ ∀ rest, PluginProtocol.ReceiveTask (f ++ rest) = (inl t, rest).
Proof.
  intros req Hd Hin Hserved Hcode Hprod Hplg Hwait Hfit.
  destruct (one_job grow tokens clock room _ p dft rm cursor hb d ltac:(by right; left) Hd Hin) as (j & sub & Hjs & Hsubs & Hj & Ej & _ & Etok & _ & Etask & _ & Est).
  pose proof (task_jobs grow tokens clock room _ _ _ _ _ Hd) as Hjobs. rewrite Forall_forall in Hjobs.
  destruct (Hjobs j Hj) as ([i Hi] & Hapi & Hcmd). fold req in Hcmd. clear Hjobs.
  set (t := Bridge.mkTask (AgentConfig.tDataType req) (AgentConfig.tName req) (AgentConfig.tData req)
              (AgentConfig.sToken sub)).
  destruct (Hfit i) as [Hf Hs]. rewrite <- Hi, <- Etok in Hf, Hs. fold t in Hf, Hs.
  destruct (PluginProtocol.task_framed t Hf) as (f & body & Hsend & _ & Hrecv).
  { unfold PluginProtocol.reader_size in Hs. lia. }
  set (r := request_of (AgentConfig.dheap d) j).
  exists j, sub, (AcServer.mgCommand (AcServer.Command r)), t, f. split_and!; try done.
  - apply served_answer. subst r. cbn [request_of AcServer.AgentID]. by rewrite Ej.
  - eexists. unfold AgentConfig.AgentControlDo, job_msg_of. rewrite Hapi. simpl.
    unfold AgentConfig.post_status. simpl. rewrite Hcode. simpl. by rewrite Etok.
  - subst r. unfold request_of, AcServer.mgCommand, on_stream. rewrite Hcmd. unfold Transfer.handleReceive_cmd.
    simpl. rewrite decide_False by done. unfold Transfer.plugin_task. simpl. rewrite Hplg, Hwait. unfold t. by rewrite Etok.
  - intros rest. rewrite Hrecv. by rewrite decide_True.
Qed.

(** A configuration that is queued for the plugin daemon, as a map. *)
Definition queued (m : gmap string AgentConfig.AgentConfigMsg) : gmap string PluginManager.Config :=
  delete Product (agent_config <$> m).

Lemma last_filter_by_name (l : list AgentConfig.AgentConfigMsg) n :
  NoDup (AgentConfig.Name <$> l) →
  last (filter (λ c, PluginManager.Name c = n) (agent_config <$> l)) = agent_config <$> AgentConfig.by_name l !! n.
Proof using Type.
  clear. intros Hnd. induction l as [|m l IH]; [done|].
  rewrite fmap_cons in Hnd. apply NoDup_cons in Hnd as [Hm Hnd]. specialize (IH Hnd).
  change (AgentConfig.by_name (m :: l)) with (<[AgentConfig.Name m := m]> (AgentConfig.by_name l)).
  rewrite fmap_cons, filter_cons. cbn [agent_config PluginManager.Name]. case_decide as Hn.
  - subst n. rewrite lookup_insert_eq. simpl.
    assert (filter (λ c, PluginManager.Name c = AgentConfig.Name m) (agent_config <$> l) = []) as ->; [|done].
    apply filter_none. intros c (m' & -> & Hm')%list_elem_of_fmap Hc. apply Hm.
    apply list_elem_of_fmap. by exists m'.
  - rewrite lookup_insert_ne by done. exact IH.
Qed.


(** A control command makes the agent drop its plugins: the agent's message has no field
    for it, so the command arrives with neither task nor configuration, and is taken for
    the configuration without any plugin. *)
Theorem ctrl_means_no_plugins h j n a :
  AgentConfig.jCommand j = AgentConfig.CmdCtrl n →
  let '(a', stop) := handle (received h j) a in
  stop = false ∧ Transfer.syncCh a' = send_or_drop ∅ (Transfer.syncCh a).
Proof using Type.
  intros Hj. unfold received, request_of, Transfer.handleReceive_cmd. rewrite Hj. simpl.
  unfold Transfer.configs_map. simpl. rewrite lookup_empty, delete_empty. unfold PluginManager.Sync, send_or_drop.
  simpl. by destruct (try_send ∅ (Transfer.syncCh a)).
Qed.

End path.

(** ** Instances *)

Definition w_param : AgentConfig.AgentJobParam :=
  AgentConfig.mkParam (AgentConfig.mkRequest 0 (AgentConfig.mkTaskMsg "driver" "{}" "" 5) []) "t1" "j1".
Definition w_hb : AgentConfig.AgentHBInfo := AgentConfig.mkHB "a" "10.0.0.1" 6751 [].
Definition w_pool : Pool.GRPCPool := Pool.Add_set "a" 0 (Pool.NewGRPCPool Pool.NewConfig).

Lemma task_to_plugin_witness :
  ∃ cmd t f rest,
    AcServer.PostCommand (Fl:=unit) (λ _ _, None) AcServer.InTime
      (inl (AcServer.mkRequest "a" (AcServer.mkDetail 0 (Some (AcServer.mkTaskMsg 5 "driver" "{}" "tok")) None)))
      w_pool {[0 := AcServer.mkSender true []]} =
      ({[0 := AcServer.mkSender true [cmd]]},
       AcServer.CreateResponse AcServer.SuccessCode (AcServer.DText "")) ∧
    t = Bridge.mkTask 5 "driver" "{}" "tok" ∧
    PluginProtocol.send_task t = Ret f ∧ PluginProtocol.ReceiveTask (f ++ rest) = (inl t, rest).
Proof.
  edestruct (task_to_plugin (Fl:=unit) (λ n, n) (λ _, "tok") (λ _, (1, 1, 1)%Z) (λ _, 0)
    (λ _, None) (λ _, None) (λ _, None) (λ _, false) (λ _ f, (f, None)) (λ _, "") (λ _, true) "agent" "1.0"
    w_param [] 0 [inl w_hb] w_hb) with (c := 0) (l := @nil Pool.Command) (svr_code := λ _ : string, @inl Z string 0%Z)
    (text := "{}") (a := Transfer.mkAgent (PluginManager.set_plugins {["driver" := PluginManager.mkPlugin PluginManager.w_cfg false false "/agent/plugin/driver"]}
      PluginManager.w_world) (make_chan 1) 0 "default" "default" None false [])
    (now := 5%Z) (stream_Send := λ (_ : nat) (_ : Pool.Command), @None string) (g := w_pool)
    (ss := {[0 := AcServer.mkSender true []]} : gmap nat AcServer.sender)
    as (j & sub & cmd & t & f & Hj & Hsub & _ & _ & _ & Hp & _ & Ht & _ & Hs & Hr).
  - reflexivity.
  - left.
  - split_and!; [reflexivity|reflexivity|done].
  - reflexivity.
  - done.
  - reflexivity.
  - reflexivity.
  - intros i. by vm_compute.
  - injection Hj as <-. injection Hsub as <-. exists cmd, t, f, []. split_and!; [|exact Ht|exact Hs|exact (Hr [])].
    etrans; [exact Hp|reflexivity].
Defined.

(** A witness for the configuration path: one item is removed, one is changed. *)
Definition w_cfg_param : AgentConfig.AgentJobParam :=
  AgentConfig.mkParam (AgentConfig.mkRequest 0 (AgentConfig.mkTaskMsg "" "" "" 0)
    [AgentConfig.bare "rasp"; AgentConfig.mkMsg "driver" "" "" "1.3" "" [] ""]) "t1" "j1".
Definition w_cfg_hb : AgentConfig.AgentHBInfo :=
  AgentConfig.mkHB "a" "10.0.0.1" 6751 [AgentConfig.w_item "rasp"; AgentConfig.w_item "driver"].
Definition w_agent : Transfer.Agent :=
  Transfer.mkAgent PluginManager.w_world (make_chan 1) 0 "default" "default" None false [].


Lemma ctrl_means_no_plugins_witness :
  Transfer.syncCh (Transfer.handleReceive_cmd (λ _, None) (λ _, None) (λ _, None) (λ _, false) (λ _ f, (f, None))
    (λ _, "") (λ _, true) "agent" "1.0"
    (received [] (AgentConfig.mkJob AgentConfig.TypeAgentCtrl "h" AgentConfig.command_api "tok" "a" (AgentConfig.CmdCtrl 2)))
    w_agent).1 = Chan 1 [∅].
Proof.
  pose proof (ctrl_means_no_plugins (λ _, None) (λ _, None) (λ _, None) (λ _, false) (λ _ f, (f, None))
    (λ _, "") (λ _, true) "agent" "1.0" []
    (AgentConfig.mkJob AgentConfig.TypeAgentCtrl "h" AgentConfig.command_api "tok" "a" (AgentConfig.CmdCtrl 2)) 2
    w_agent eq_refl) as Hc.
  destruct (Transfer.handleReceive_cmd _ _ _ _ _ _ _ _ _ _ _) as [a' stop]. destruct Hc as [_ Hc]. exact Hc.
Defined.

End ControlPath.
