(* ===== verification/TaskLoop.v ===== *)
(** * The way of a task and back

    Closes the loop between the manager and the collector plugin: tasks that the agent
    wrote to the pipe of the plugin are decoded ([PluginProtocol.v]) and answered by the
    engine ([Engine.v]); the answers take the way of all records to the agent center
    ([EndToEnd.v]), which posts them to the manager ([Pool.v]), where they become updates
    of the subtasks ([SubTask.v], [DbWriter.v]). *)

From S2P Require Import Prelude GoStrings Wire Bridge Buffer PluginProtocol Transfer Pool AgentCenter AgentConfig Bson.
From S2P Require Import DbWriter SubTask Engine EndToEnd.
From stdpp Require Import options.

Module TaskLoop.

(** [c.ReceiveTask] until it fails, as the loop of [Engine.Run] calls it. *)
Fixpoint received (fuel : nat) (input : bytes) : list (Bridge.Task + PluginProtocol.client_error) :=
  match fuel with
  | 0 => []
  | S fuel =>
      match PluginProtocol.ReceiveTask input with
      | (inl t, rest) => inl t :: received fuel rest
      | (inr e, _) => [inr e]
      end
  end.

Lemma received_frames ts frames :
  Forall2 (λ t f, PluginProtocol.send_task t = Ret f) ts frames →
  Forall (λ t, Bridge.Task_fits t ∧ (Bridge.Task_Size t ≤ PluginProtocol.reader_size)%Z) ts →
  ∃ e, received (S (length ts)) (concat frames) = (inl <$> ts) ++ [inr e].
Proof.
  induction 1 as [|t f ts frames Hf Hall IH]; intros Hfit; [by eexists|].
  apply Forall_cons in Hfit as [[Hfit Hsize] Hrest]. destruct (IH Hrest) as [e He]. exists e.
  destruct (PluginProtocol.task_framed t Hfit) as (f' & body & Hs & _ & Hrecv).
  { unfold PluginProtocol.reader_size in Hsize. lia. }
  rewrite Hf in Hs. injection Hs as <-. cbn [length received concat fmap list_fmap app].
  rewrite Hrecv, decide_True by done. f_equal. exact He.
Qed.

Lemma sov_uint64 z : (1 ≤ sov (uint64 z) ≤ 10)%Z.
Proof. apply sov_bound, Bridge.uint64_in. Qed.

Lemma entry_size_bound k v : (Bridge.entry_size (k, v) ≤ len k + len v + 33)%Z.
Proof.
  unfold Bridge.entry_size, Bridge.mapEntrySize. cbn [fst snd].
  repeat match goal with |- context [sov (uint64 ?x)] => pose proof (sov_uint64 x); generalize dependent (sov (uint64 x)); intros end.
  lia.
Qed.

(** The fields of an answer. *)
Definition fields (status msg tok : string) : gmap string string := {["status" := status; "msg" := msg; "token" := tok]}.

Definition answer_fields (handlers : gset Z) (t : Bridge.Task) : gmap string string :=
  if decide (Bridge.taskDataType t ∈ handlers) then fields "succeed" "" (Bridge.Token t)
  else fields "failed" "the data_type hasn't been implemented" (Bridge.Token t).

Lemma answer_eq handlers now t :
  Engine.answer handlers now t = Bridge.mkRecord 5100 now (Some (Bridge.mkPayload (answer_fields handlers t))).
Proof. unfold Engine.answer, answer_fields. by case_decide. Qed.

Lemma answer_token handlers t : answer_fields handlers t !! "token" = Some (Bridge.Token t).
Proof. unfold answer_fields. by case_decide. Qed.

Lemma answer_status handlers t :
  answer_fields handlers t !! "status" = Some "succeed" ↔ Bridge.taskDataType t ∈ handlers.
Proof. unfold answer_fields. by case_decide. Qed.

Section sizes.
Context `{Ranger}.

Lemma fields_size status msg tok :
  (Bridge.Payload_Size (Bridge.mkPayload (fields status msg tok)) ≤ 113 + len status + len msg + len tok)%Z.
Proof.
  rewrite (Bridge.Payload_Size_sum "Payload.Size"). cbn [Bridge.Fields].
  assert (range_kv "Payload.Size" (fields status msg tok) ≡ₚ [("status", status); ("msg", msg); ("token", tok)]) as Hp.
  { rewrite range_kv_perm. unfold fields. rewrite map_to_list_insert by done. constructor.
    rewrite map_to_list_insert by done. constructor. by rewrite map_to_list_singleton. }
  rewrite (zsum_perm _ _ _ Hp). unfold zsum. cbn [foldr].
  pose proof (entry_size_bound "status" status). pose proof (entry_size_bound "msg" msg).
  pose proof (entry_size_bound "token" tok).
  change (len "status") with 6%Z in *. change (len "msg") with 3%Z in *. change (len "token") with 5%Z in *. lia.
Qed.

(** Every answer can be sent. *)
Lemma answer_sendable handlers now t :
  now ≠ 0%Z → in_s 64 now → (Bridge.Task_Size t ≤ PluginProtocol.reader_size)%Z →
  PluginProtocol.sendable (Engine.answer handlers now t) (Bridge.mkPayload (answer_fields handlers t)).
Proof.
  intros Hnow Hin Hsize. rewrite answer_eq. split_and!; [done|done|done|done|done|].
  assert (len (Bridge.Token t) ≤ PluginProtocol.reader_size)%Z as Htok.
  { unfold Bridge.Task_Size in Hsize. pose proof (Bridge.string_field_size_bound (Bridge.Token t)).
    pose proof (Bridge.string_field_size_bound (Bridge.ObjectName t)).
    pose proof (Bridge.string_field_size_bound (Bridge.taskData t)).
    pose proof (sov_uint64 (Bridge.taskDataType t)). case_decide; lia. }
  assert (Bridge.Payload_Size (Bridge.mkPayload (answer_fields handlers t)) ≤ 200 + PluginProtocol.reader_size)%Z as Hp.
  { unfold answer_fields. case_decide; (etrans; [apply fields_size|]).
    - change (len "succeed") with 7%Z. change (len "") with 0%Z. lia.
    - change (len "failed") with 6%Z. change (len "the data_type hasn't been implemented") with 37%Z. lia. }
  unfold Bridge.Record_Size. cbn [Bridge.DataType Bridge.Timestamp Bridge.Data]. unfold PluginProtocol.reader_size in Hp.
  pose proof (sov_uint64 5100). pose proof (sov_uint64 now).
  pose proof (sov_uint64 (Bridge.Payload_Size (Bridge.mkPayload (answer_fields handlers t)))).
  rewrite !decide_True by done. lia.
Qed.

End sizes.

(** What closes a task: its subtask, found by the token, is marked as succeeded if the
    plugin has a handler for its type and as failed otherwise. *)
Definition closes (handlers : gset Z) (t : Bridge.Task) (m : write_model) : Prop :=
  ∃ now set, m = UpdateOne {["token" := VStr (Bridge.Token t)]} set ∅ true ∧ set !! "update_time" = Some (VInt now) ∧
    set !! "status" = Some (VStr (if decide (Bridge.taskDataType t ∈ handlers)
      then AgentConfig.TaskStatusResultSuccess else AgentConfig.TaskStatusResultFail)).

(** The report the agent center queues for an answer. *)
Definition report (handlers : gset Z) (t : Bridge.Task) : gmap string string :=
  <["data_type" := itoa 5100]> (answer_fields handlers t).

Lemma itoa_5100 : itoa 5100 = "5100".
Proof. vm_compute. reflexivity. Qed.

Lemma report_has_token handlers t : Bridge.Token t ≠ "" → SubTask.has_token (report handlers t).
Proof.
  intros Ht. unfold SubTask.has_token, report. rewrite lookup_insert_ne by done. rewrite answer_token. split; congruence.
Qed.

Lemma report_closes handlers t m : SubTask.reconciles (report handlers t) m → closes handlers t m.
Proof.
  intros (tok & now & set & Htok & _ & -> & Hup & _ & Hst & _). unfold report in Htok.
  rewrite lookup_insert_ne, answer_token in Htok by done. injection Htok as <-. exists now, set.
  split_and!; [done|done|]. rewrite Hst.
  - unfold report. rewrite lookup_insert_ne by done. do 2 f_equal. pose proof (answer_status handlers t).
    repeat case_decide; tauto.
  - unfold report. rewrite lookup_insert_eq, itoa_5100. left.
Qed.

Lemma length_omap_le {A B} (f : A → option B) (l : list A) : length (omap f l) ≤ length l.
Proof. 
  induction l as [|x l IH]; [done|].
  change (omap f (x :: l)) with (match f x with Some y => y :: omap f l | None => omap f l end).
  destruct (f x); cbn [length]; lia.
Qed.

Lemma updates_length posts : length (SubTask.updates posts) ≤ length (concat posts).
Proof. rewrite SubTask.updates_concat. etrans; [apply length_omap_le|]. by rewrite length_fmap. Qed.

Section loop.
Context {Fl : Type} `{Ranger} (parse_float : string → option Fl).

(** The records on the pipe of the collector: before each answer what its handlers sent. *)
Definition on_pipe (handlers : gset Z) (clock : nat → Z) (others : nat → list (Bridge.Record_ * Bridge.Payload))
    (ts : list Bridge.Task) : list (Bridge.Record_ * Bridge.Payload) :=
  concat (imap (λ i t, others i ++ [(Engine.answer handlers (clock i) t, Bridge.mkPayload (answer_fields handlers t))]) ts).

(** A record of a handler: neither a heartbeat nor the report on a task. *)
Definition collected (rp : Bridge.Record_ * Bridge.Payload) : Prop :=
  PluginProtocol.sendable rp.1 rp.2 ∧ Bridge.DataType rp.1 ∉ [1000; 1001; 1002]%Z ∧
  Bridge.DataType rp.1 ∉ AgentCenter.task_types.

Lemma elem_of_on_pipe handlers clock others ts rp :
  rp ∈ on_pipe handlers clock others ts →
  ∃ i t, ts !! i = Some t ∧ (rp ∈ others i ∨
    rp = (Engine.answer handlers (clock i) t, Bridge.mkPayload (answer_fields handlers t))).
Proof.
  unfold on_pipe. intros (l & Hl & Hrp)%list_elem_of_In%in_concat. rewrite <- !list_elem_of_In in *.
  apply list_elem_of_lookup in Hl as [i Hi]. rewrite list_lookup_imap in Hi. apply fmap_Some in Hi as (t & Ht & ->).
  exists i, t. split; [done|]. apply elem_of_app in Hrp as [?|?%list_elem_of_singleton]; eauto.
Qed.

Lemma omap_fmap_list {A B C} (f : B → option C) (h : A → B) (l : list A) : omap f (h <$> l) = omap (f ∘ h) l.
Proof.
  induction l as [|x l IH]; [done|]. cbn [fmap list_fmap].
  change (omap f (h x :: (h <$> l))) with (match f (h x) with Some y => y :: omap f (h <$> l) | None => omap f (h <$> l) end).
  rewrite IH. reflexivity.
Qed.

Lemma omap_none {A B} (f : A → option B) (l : list A) : Forall (λ x, f x = None) l → omap f l = [].
Proof.
  induction 1 as [|x l Hx Hl IH]; [done|].
  change (omap f (x :: l)) with (match f x with Some y => y :: omap f l | None => omap f l end). by rewrite Hx.
Qed.

(** The reports among the records on the pipe are the answers. *)
Lemma reports_on_pipe handlers clock others ts :
  let mk := (λ v : Z * Z * bytes, AgentCenter.mkRecord v.1.1 v.1.2 v.2) ∘ (λ rp, PluginProtocol.wire_value rp.1 rp.2) in
  (∀ rp, PluginProtocol.sendable rp.1 rp.2 → AgentCenter.parseRecord (mk rp) = inl (Bridge.Fields rp.2)) →
  Forall (λ rp, PluginProtocol.sendable rp.1 rp.2) (on_pipe handlers clock others ts) →
  (∀ i, Forall collected (others i)) →
  omap (AgentCenter.task_report ∘ mk) (on_pipe handlers clock others ts) = report handlers <$> ts.
Proof.
  intros mk Hparse Hsend Hoth. unfold on_pipe in *. revert clock others Hoth Hsend.
  induction ts as [|t ts IH]; intros clock others Hoth Hsend; [done|].
  rewrite imap_cons in *. cbn [concat] in *. apply Forall_app in Hsend as [Hs1 Hs2].
  rewrite !omap_app, omap_none.
  2:{ eapply Forall_impl; [exact (Hoth 0)|]. intros rp (_ & _ & Htt). unfold compose at 1, AgentCenter.task_report.
    by rewrite decide_False. }
  apply Forall_app in Hs1 as [_ Ha]. apply Forall_cons in Ha as [Ha _]. cbn [fst snd] in Ha.
  assert (omap (AgentCenter.task_report ∘ mk)
    [(Engine.answer handlers (clock 0) t, Bridge.mkPayload (answer_fields handlers t))] = [report handlers t]) as ->.
  { cbn [omap list_omap]. unfold compose at 1, AgentCenter.task_report. rewrite (Hparse (_, _)), decide_True; [| |exact Ha].
    - subst mk. cbn. by rewrite answer_eq.
    - subst mk. cbn. rewrite answer_eq. apply (bool_decide_unpack _). by vm_compute. }
  cbn [app fmap list_fmap]. f_equal.
  exact (IH (clock ∘ S) (others ∘ S) (λ i, Hoth (S i)) Hs2).
Qed.

Lemma on_pipe_sendable handlers clock others ts :
  (∀ i, clock i ≠ 0%Z ∧ in_s 64 (clock i)) → (∀ i, Forall collected (others i)) →
  Forall (λ t, Bridge.Task_Size t ≤ PluginProtocol.reader_size)%Z ts →
  Forall (λ rp, PluginProtocol.sendable rp.1 rp.2) (on_pipe handlers clock others ts).
Proof.
  intros Hclock Hoth Hsize. apply Forall_forall. intros rp Hrp.
  destruct (elem_of_on_pipe _ _ _ _ _ Hrp) as (i & t & Ht & [Hin| ->]).
  - by apply (proj1 (Forall_forall _ _) (Hoth i) rp Hin).
  - apply answer_sendable; [apply Hclock..|]. by eapply Forall_lookup_1 in Hsize.
Qed.

Lemma on_pipe_length handlers clock others ts : length ts ≤ length (on_pipe handlers clock others ts).
Proof.
  unfold on_pipe. revert clock others. induction ts as [|t ts IH]; intros clock others; [simpl; lia|].
  rewrite imap_cons. cbn [concat length]. rewrite !length_app. cbn [length].
  pose proof (IH (clock ∘ S) (others ∘ S)) as Hi. unfold compose in *. lia.
Qed.

(** What the engine sends is what is on the pipe. *)
Lemma on_pipe_records handlers clock others ts :
  (on_pipe handlers clock others ts).*1 =
    concat (imap (λ j t, (others j).*1 ++ [Engine.answer handlers (clock j) t]) ts).
Proof.
  unfold on_pipe. revert clock others. induction ts as [|t ts IH]; intros clock others; [done|].
  rewrite !imap_cons. cbn [concat]. rewrite !fmap_app. cbn [fmap list_fmap fst]. f_equal.
  exact (IH (clock ∘ S) (others ∘ S)).
Qed.

(** The agent center queues the reports of a packet, and only these. *)
Lemma answers_queued handlers clock others ts agentID hostname version product now
    (c : Pool.Connection (Fl:=Fl)) (g : Pool.GRPCPool) :
  let recs := on_pipe handlers clock others ts in
  Forall (λ rp, PluginProtocol.sendable rp.1 rp.2) recs → (∀ i, Forall collected (others i)) →
  length (chbuf (Pool.taskChan g)) + length ts ≤ chcap (Pool.taskChan g) →
  ∃ g' msgs,
    AgentCenter.handleRawData parse_float (EndToEnd.packet agentID hostname version product
      ((λ rp, PluginProtocol.wire_value rp.1 rp.2) <$> recs)) now c g [] = Ret (c, g', msgs) ∧
    Pool.conf g' = Pool.conf g ∧ Pool.taskList g' = Pool.taskList g ∧
    chbuf (Pool.taskChan g') = chbuf (Pool.taskChan g) ++ (report handlers <$> ts).
Proof.
  intros recs Hsend Hoth Hroom. unfold AgentCenter.handleRawData. cbn [EndToEnd.packet AgentCenter.Data].
  rewrite <- list_fmap_compose. set (mk := _ ∘ _).
  assert (∀ rp, PluginProtocol.sendable rp.1 rp.2 → AgentCenter.parseRecord (mk rp) = inl (Bridge.Fields rp.2)) as Hparse.
  { intros rp Hs. unfold AgentCenter.parseRecord. subst mk. cbn [compose AgentCenter.Body].
    by rewrite (EndToEnd.wire_value_decodes _ _ Hs). }
  assert (omap AgentCenter.task_report (mk <$> recs) = report handlers <$> ts) as Hrep.
  { rewrite omap_fmap_list. by apply reports_on_pipe. }
  rewrite <- (length_fmap (report handlers) ts), <- Hrep in Hroom. rewrite <- Hrep.
  apply AgentCenter.handle_records_tasks; [|exact Hroom].
  apply Forall_fmap, Forall_forall. intros rp Hrp. rewrite Forall_forall in Hsend. pose proof (Hsend rp Hrp) as Hs.
  destruct (elem_of_on_pipe _ _ _ _ _ Hrp) as (i & t & _ & [Hin| ->]).
  - pose proof (proj1 (Forall_forall _ _) (Hoth i) rp Hin) as (_ & Hhb & Htt). split; [exact Hhb|]. intros Ht. by destruct (Htt Ht).
  - split.
    + subst mk. cbn. rewrite answer_eq. cbn. set_solver.
    + intros _. exists (answer_fields handlers t). split; [exact (Hparse (_, _) Hs)|].
      intros He. pose proof (answer_token handlers t) as Htok. by rewrite He in Htok.
Qed.

(** [C3] The way of a task and back: tasks written to the pipe of the collector plugin are
    answered once each, in order, by its engine, and whatever records its handlers send in
    between, the answers pass the agent's buffer, the stream and the agent center's queue to
    the manager, where the subtask of each task (and of no other) is marked: as succeeded if
    the plugin has a handler for the type of the task, and as failed otherwise.  The records
    between two ticks, those of the handlers included, must fit into the agent's buffer, the
    answers into the queue of the agent center, and the records of the handlers are no
    heartbeats and no reports on tasks of their own. *)
Theorem tasks_closed (handlers : gset Z) (clock : nat → Z) (others : nat → list (Bridge.Record_ * Bridge.Payload))
    (ts : list Bridge.Task) (frames : list bytes) (choices : list nat)
    (send : list (Z * Z * bytes) → option string) (agentID hostname version product : string) (now : Z)
    (c : Pool.Connection (Fl:=Fl)) (g : Pool.GRPCPool)
    (Hframes : Forall2 (λ t f, PluginProtocol.send_task t = Ret f) ts frames)
    (Hfit : Forall (λ t, Bridge.Task_fits t ∧ (Bridge.Task_Size t ≤ PluginProtocol.reader_size)%Z ∧ Bridge.Token t ≠ "") ts)
    (Hothers : ∀ i, Forall collected (others i))
    (Hne : ts ≠ []) (Hroom : length (on_pipe handlers clock others ts) ≤ Buffer.buf_len)
    (Hch : length (on_pipe handlers clock others ts) < length choices)
    (Hclock : ∀ i, clock i ≠ 0%Z ∧ in_s 64 (clock i))
    (Hidle : Pool.pending_tasks g = []) (Hcap : length ts ≤ chcap (Pool.taskChan g))
    (Hw : 1 ≤ Pool.TaskCountWeight (Pool.conf g)) :
  ∃ frames' s s' cnt vals g' msgs,
    Forall2 (λ r f, PluginProtocol.SendRecord r = Ret f)
      (Engine.Run handlers clock (λ i, (others i).*1) 0 (received (S (length ts)) (concat frames))).1 frames' ∧
    PluginProtocol.receive_loop choices (PluginProtocol.mkRx (concat frames') 0 0) Buffer.initial = Ret (Some s) ∧
    Transfer.handleSend_tick send 0 s = Ret (Some vals, s', cnt) ∧
    AgentCenter.handleRawData parse_float (EndToEnd.packet agentID hostname version product vals) now c g [] =
      Ret (c, g', msgs) ∧
    Pool.conf g' = Pool.conf g ∧ Pool.taskList g' = [] ∧ chbuf (Pool.taskChan g') = report handlers <$> ts ∧
    ∀ evs g'' posts es w,
      Pool.run_tasks evs g' = (g'', posts) → Pool.pending_tasks g'' = [] →
      BatchWriter.added es = SubTask.updates posts →
      DbWriter.subTaskUpdateWriter_Run es (BatchWriter.init 1 tt) = Ret w →
      chbuf (BatchWriter.queue w) = [] → BatchWriter.pending w = [] →
      Forall2 (closes handlers) ts
        (concat (BatchWriter.batches DbWriter.AgentSubTaskCollection (BatchWriter.calls w))).
Proof.
  set (recs := on_pipe handlers clock others ts) in *.
  assert (Forall (λ rp, PluginProtocol.sendable rp.1 rp.2) recs) as Hsend.
  { apply on_pipe_sendable; [done..|]. eapply Forall_impl; [exact Hfit|]. simpl. tauto. }
  assert (length ts ≤ length recs) as Hlen by apply on_pipe_length.
  destruct (received_frames ts frames Hframes) as [e He].
  { eapply Forall_impl; [exact Hfit|]. simpl. tauto. }
  destruct (EndToEnd.records_on_stream recs choices send Hsend) as (frames' & s & s' & cnt & Hfr & Hloop & Htick).
  { intros E. rewrite E in Hlen. destruct ts; simpl in Hlen; [done|lia]. }
  { exact Hroom. } { exact Hch. }
  unfold Pool.pending_tasks in Hidle. apply app_eq_nil in Hidle as [Hl Hb].
  destruct (answers_queued handlers clock others ts agentID hostname version product now c g Hsend Hothers)
    as (g' & msgs & Hraw & Hconf & Hl' & Hb').
  { rewrite Hb. simpl. exact Hcap. }
  rewrite Hl in Hl'. rewrite Hb in Hb'. cbn [app] in Hb'.
  eexists frames', s, s', cnt, _, g', msgs. rewrite He, Engine.Run_answers. cbn [fst Nat.add].
  rewrite <- on_pipe_records. split_and!; [by apply Forall2_fmap_l|exact Hloop|exact Htick|exact Hraw|done|done|done|].
  intros evs g'' posts es w Hrun Hpend Hadd Hr Hq Hp.
  assert (length (Pool.taskList g') < Pool.TaskCountWeight (Pool.conf g')) as Hl0 by (rewrite Hl', Hconf; simpl; lia).
  assert (1 ≤ Pool.TaskCountWeight (Pool.conf g')) as Hw' by (rewrite Hconf; exact Hw).
  assert (Pool.pending_tasks g' = report handlers <$> ts) as Hpe.
  { unfold Pool.pending_tasks. by rewrite Hl', Hb'. }
  assert (length (SubTask.updates posts) ≤ 1024 * 4) as Hup.
  { etrans; [apply updates_length|]. pose proof (Pool.tasks_complete evs g' Hw' Hl0) as Hc. rewrite Hrun in Hc.
    destruct Hc as [Hc _]. rewrite Hpend, app_nil_r in Hc. rewrite Hc, Hpe, length_fmap.
    unfold Buffer.buf_len in Hroom. lia. }
  pose proof (SubTask.reports_written evs g' g'' posts es w Hw' Hl0 Hrun Hpend Hadd Hup Hr Hq Hp) as Hall.
  rewrite Hpe, filter_all in Hall.
  - rewrite Forall2_fmap_l in Hall. eapply Forall2_impl; [exact Hall|]. intros t m. apply report_closes.
  - apply Forall_fmap, Forall_forall. intros t Ht. rewrite Forall_forall in Hfit.
    apply report_has_token, (Hfit t Ht).
Qed.

End loop.

(** ** An instance *)

Definition w_tasks : list Bridge.Task := [Bridge.mkTask 5050 "collector" "" "t1"; Bridge.mkTask 9 "collector" "" "t2"].
Definition w_frames : list bytes :=
  (λ t, match PluginProtocol.send_task t with Ret f => f | Panic _ => [] end) <$> w_tasks.
Definition w_conf : Pool.Config := Pool.mkConfig 4 8 2 2 10 2 240.

Definition w_handlers : gset Z := {[5050%Z]}.
Definition w_reports : list (gmap string string) := report w_handlers <$> w_tasks.
(** Two records of a scan before the answer. *)
Definition w_payload : Bridge.Payload := Bridge.mkPayload {["pid" := "1"]}.
Definition w_others (i : nat) : list (Bridge.Record_ * Bridge.Payload) :=
  if decide (i = 0) then [(Bridge.mkRecord 5050 100 (Some w_payload), w_payload); (Bridge.mkRecord 5050 101 (Some w_payload), w_payload)]
  else [].

Lemma w_others_collected i : Forall collected (w_others i).
Proof.
  unfold w_others. case_decide; [|constructor].
  repeat constructor; simpl; try done; try (apply (bool_decide_unpack _); by vm_compute).
Qed.

Definition w_events : list (BatchWriter.event (A:=doc)) :=
  (BatchWriter.EAdd <$> SubTask.updates [w_reports]) ++ [BatchWriter.ETake 0 7; BatchWriter.ETake 0 8; BatchWriter.ETimer 0].
Definition w_writer : BatchWriter.writer :=
  match DbWriter.subTaskUpdateWriter_Run w_events (BatchWriter.init 1 tt) with Ret w => w | Panic _ => BatchWriter.init 1 tt end.

Lemma w_writer_runs : DbWriter.subTaskUpdateWriter_Run w_events (BatchWriter.init 1 tt) = Ret w_writer.
Proof.
  assert (match DbWriter.subTaskUpdateWriter_Run w_events (BatchWriter.init 1 tt) with Ret _ => true | Panic _ => false end
    = true) as Hr by (vm_compute; reflexivity).
  unfold w_writer. by destruct (DbWriter.subTaskUpdateWriter_Run w_events _).
Qed.

Lemma w_frames_sent : Forall2 (λ t f, PluginProtocol.send_task t = Ret f) w_tasks w_frames.
Proof. repeat constructor; vm_compute; reflexivity. Qed.

Lemma w_posted (g : Pool.GRPCPool) :
  Pool.conf g = w_conf → Pool.taskList g = [] → chbuf (Pool.taskChan g) = w_reports →
  ∃ g', Pool.run_tasks [Pool.TaskArrives; Pool.TaskArrives] g = (g', [w_reports]) ∧ Pool.pending_tasks g' = [].
Proof. destruct g as [cf cp tk cc [cap buf] tl ec ex]. simpl. intros -> -> ->. by eexists. Qed.

Lemma tasks_closed_witness :
  Forall2 (closes w_handlers) w_tasks
    (concat (BatchWriter.batches DbWriter.AgentSubTaskCollection (BatchWriter.calls w_writer))).
Proof.
  destruct (tasks_closed (λ _, None) w_handlers (λ i, 100)%Z w_others w_tasks w_frames [0; 0; 0; 0; 0] (λ _, None)
    "a" "h" "1.0" "agent" 100 AgentCenter.w_conn (Pool.NewGRPCPool w_conf))
    as (fr & s & s' & cnt & vals & g' & msgs & _ & _ & _ & _ & Hconf & Hl & Hb & Hall).
  - exact w_frames_sent.
  - repeat constructor; by vm_compute.
  - exact w_others_collected.
  - done.
  - apply Nat.leb_le. reflexivity.
  - simpl. lia.
  - intros i. by vm_compute.
  - done.
  - simpl. lia.
  - simpl. lia.
  - destruct (w_posted g' Hconf Hl Hb) as (g'' & Hrun & Hpend).
    apply (Hall _ g'' _ w_events w_writer Hrun Hpend); [reflexivity|exact w_writer_runs|vm_compute; reflexivity|vm_compute; reflexivity].
Defined.

End TaskLoop.
