(* ===== verification/Distribution.v ===== *)
(** * From a release to the agent

    Puts the release of components ([Component.v]) and the download of the agent
    ([PluginManager.v]) together: what the manager hands to an agent can be installed. *)

From Stdlib Require Import Ascii.
From S2P Require Import Prelude GoStrings PluginManager Component.
From stdpp Require Import options.

Module Distribution.

(** The configuration an agent makes of an instance. *)
Definition config_of (i : Component.ComponentInstance) : PluginManager.Config :=
  PluginManager.mkConfig (Component.iName i) (Component.iType i) (Component.iVersion i) (Component.iSHA256 i)
    (Component.iSignature i) (Component.iDownloadURL i) "".

Section distribution.
Context (regexp_Compile : string → option (string → bool)) (sha256 : string → string)
  (read_tar : string → (list (string * Z * (string + string)) * option string) + string)
  (from_hex : string → Z) (AgentName : string).
Context (http_get : string → option (Z * string * option string))
  (untar : string → string → PluginManager.fs → PluginManager.fs * (string + string))
  (mkdir_error : string → option string).

(** The URLs of the clients lead to the download servers. *)
Definition routed (clients : list Component.NginxClient) (sv : Component.store) : Prop :=
  ∀ j c u o content, clients !! j = Some c → u ∈ Component.url c → sv !! (j, o) = Some content →
    http_get (u +:+ o) = Some (200%Z, content, None).

Lemma urls_routed clients sv obj content u :
  routed clients sv → (∀ j, j < length clients → sv !! (j, obj) = Some content) → u ∈ Component.urls clients obj →
  http_get u = Some (200%Z, content, None).
Proof using Type.
  intros Hr Hs Hu. unfold Component.urls in Hu. apply list_elem_of_In, in_concat in Hu as (l & Hl & Hu).
  apply list_elem_of_In in Hl, Hu. apply list_elem_of_fmap in Hl as (c & -> & [j Hj]%list_elem_of_lookup).
  unfold Component.getURL in Hu. apply list_elem_of_fmap in Hu as (u0 & -> & Hu). eapply Hr; [done..|].
  apply Hs. by eapply lookup_lt_Some.
Qed.

(** A download from URLs that all serve a content with the digest asked for succeeds. *)
Lemma Download_served dst dir cfg f content :
  PluginManager.Type_ cfg ≠ "tar.gz" → PluginManager.DownloadUrls cfg ≠ [] → mkdir_error dir = None →
  PluginManager.Sha256 cfg = hex_EncodeToString (sha256 content) →
  (∀ u, u ∈ PluginManager.DownloadUrls cfg → http_get u = Some (200%Z, content, None)) →
  ∃ f', PluginManager.Download sha256 http_get untar mkdir_error dst dir cfg f = (f', None) ∧
    sha256 <$> f' !! dst = Some (sha256 content).
Proof using Type.
  intros Hty Hne Hmk Hsha Hget. unfold PluginManager.Download. rewrite Hsha, hex_DecodeString_EncodeToString.
  case_decide as Hold; [by exists f|]. rewrite Hmk.
  destruct (PluginManager.DownloadUrls cfg) as [|u us]; [done|]. cbn [PluginManager.download_loop].
  unfold PluginManager.download_one. rewrite (Hget u) by left. rewrite decide_True by lia. rewrite decide_False by done.
  cbn [fmap option_fmap option_map]. rewrite Hsha, decide_False by (by intros []).
  eexists. split; [done|]. by rewrite lookup_insert_eq.
Qed.

(** [C16] What is released can be installed: an instance of a single-file plugin (not an
    archive) that an agent is given, and that has a URL, can be downloaded from its URLs, and
    the file the agent then has is one with the digest that was recorded when the version was
    published.  This needs that no version was published by two requests at a time, that the
    download servers accepted the uploads (the client does not look at their status), that the
    URLs lead to the servers that took them, and that the agent can make the directory. *)
Theorem release_installs clients w tags info now now' fa s l i dst dir f :
  lacks "/"%char AgentName = true →
  reachable Component.initial (Component.step regexp_Compile sha256 read_tar from_hex AgentName clients) w →
  Component.races w = [] → Component.refusals w = ∅ →
  Component.GetComponentInstances regexp_Compile tags (inl info) now now' fa (Component.st w) =
    (s, Component.Instances l) →
  i ∈ l → Component.iType i ≠ "tar.gz" → Component.iDownloadURL i ≠ [] →
  routed clients (Component.served (Component.st w)) → mkdir_error dir = None →
  ∃ f' content, PluginManager.Download sha256 http_get untar mkdir_error dst dir (config_of i) f = (f', None) ∧
    Component.iSHA256 i = hex_EncodeToString (sha256 content) ∧ sha256 <$> f' !! dst = Some (sha256 content).
Proof using Type.
  intros HN Hr Hraces Href Hget Hin Hty Hne Hroute Hmk.
  destruct (Component.instances_spec _ _ _ _ _ _ _ _ _ _ _ _ _ _ HN Hr Hget) as [_ Hall].
  destruct (Hall i Hin) as (v & g & name & content & _ & _ & _ & _ & _ & _ & Hurl & Hsha & Hst).
  destruct (Download_served dst dir (config_of i) f content) as (f' & Hd & Hf); [done|done|done|done| |].
  - intros u Hu. simpl in Hu. rewrite Hurl in Hu. eapply urls_routed; [done| |exact Hu]. intros j Hj. apply Hst; [done| |].
    + rewrite Hraces. apply not_elem_of_nil.
    + rewrite Href. apply not_elem_of_empty.
  - by exists f', content.
Qed.

End distribution.

Definition w_get_url (u : string) : option (Z * string * option string) :=
  Some (200%Z, match str_cut "x86_64" u with Some _ => "for x86_64" | None => "for aarch64" end, None).

Definition w_inst : Component.ComponentInstance :=
  default (Component.mkInstance "" "" "" [] "" "") (head Component.w_list).

Lemma w_routed : routed w_get_url Component.w_clients (Component.served Component.w_3).
Proof.
  intros j c u o content Hj Hu Ho.
  destruct j; [|done]. injection Hj as <-. apply list_elem_of_singleton in Hu as ->.
  assert (map_Forall (λ k c, w_get_url ("http://d" +:+ k.2) = Some (200%Z, c, None)) (Component.served Component.w_3)) as Hall
    by (apply (bool_decide_eq_true_1 _); vm_compute; reflexivity).
  exact (Hall (0, o) content Ho).
Qed.

Lemma release_installs_witness :
  ∃ f' content, PluginManager.Download id w_get_url (λ _ _ f, (f, inr "")) (λ _, None) "/d" "/" (config_of w_inst) ∅ = (f', None) ∧
    Component.iSHA256 w_inst = hex_EncodeToString content ∧ id <$> f' !! "/d" = Some content.
Proof.
  apply (release_installs (λ _, None) id (λ _, inr "") Component.w_hex "elkeid-agent" w_get_url
    (λ _ _ f, (f, inr "")) (λ _, None) Component.w_clients Component.w_world (λ _, inr "") Component.w_info 10 10
    Component.Found Component.w_get.1 Component.w_list w_inst "/d" "/" ∅).
  - reflexivity.
  - apply Component.w_reachable.
  - reflexivity.
  - reflexivity.
  - apply Component.w_get_eq.
  - vm_compute. left.
  - by vm_compute.
  - by vm_compute.
  - apply w_routed.
  - reflexivity.
Defined.

End Distribution.
